(* ===== verification/_CoqProject ===== *)
-Q . S2P
Prelude.v
F64.v
Text.v
Utf8.v
RollingQueue.v
RateLimit.v
Actor.v
ExitPolicy.v
Limits.v
Round.v
Router.v
ErrPolicy.v
Picker.v
PickerLaws.v
AutoRate.v
Worker.v
ReloadDrain.v
SinkHealth.v
SinkRuntime.v
SinkLaws.v
DataModel.v
Expr.v
Tags.v
Dispatcher.v
DispatcherLaws.v
Stats.v
StatsLaws.v
Metrics.v
MetricsLaws.v
WplEngine.v
WplEngineLaws.v
WplEngineInst.v
Resources.v
ResourcesLaws.v
ResourcesInst.v
Recovery.v
RecoveryLaws.v
RecoveryInst.v
GenSpeed.v
GenConf.v
GenSpeedLaws.v
Generator.v
GeneratorLaws.v
ParserActor.v
ParserActorLaws.v
ParserActorInst.v
SinkActor.v
SinkActorLaws.v
SinkTasks.v
Control.v
Reload.v
ReloadLaws.v
QueryCache.v
OmlData.v
OmlAccessLaws.v
OmlCalc.v
OmlMatch.v
OmlSql.v
OmlEval.v
OmlEvalLaws.v
OmlStatic.v
OmlSyncLaws.v
OmlStaticLaws.v
OmlPrivacy.v
OmlPipe.v
OmlPrivacyLaws.v
OmlModelLaws.v
OmlInst.v
Semantic.v
Monitor.v
ConfParams.v
SinkConf.v
SourceConf.v
ConfLaws.v
ConfInst.v
EngineConf.v
SinkReport.v
Framing.v
SyslogHeader.v
