(* ===== verification/Prelude.v ===== *)
(** * Verification of the WP-Motor engine core

    WP-Motor parses and enriches a stream of log records.  A _source worker_
    picks batches of events from a data source, coalesces them and posts them
    round-robin to the parser workers; the parsers hand records to sinks, which
    transform them with models of the object-model language (OML); every
    stage is an actor of a runtime that starts, paces, drains and stops it.
    This library models that core, the definitions translated from the Rust
    code and kept executable, and proves what makes it correct.  All paths are
    those of the repository.

    ** Files

    - [Prelude]: machine integers (saturating and wrapping [usize], [clamp]),
      results that may panic, list and integer lemmas, hint databases and
      tactics shared by all files.
    - [RollingQueue]: [src/utils/rolling_queue.rs].
    - [RateLimit]: [src/runtime/actor/limit.rs]; the per-task [RateLimiter],
      the shared [SourceRateLimiter] and a worker's [SourceRateLease].
    - [Actor]: [src/runtime/actor/{signal,command}.rs]; commands, the bridge
      from control events, [TaskController].
    - [ExitPolicy]: [src/runtime/actor/{exit_policy,group,routine}.rs]; when
      the runtime quiesces and stops, task groups, the manager's wait loop and
      its stop scripts.
    - [Limits]: [crates/wp-config/src/limits.rs]; memory profiles, environment
      overrides, normalisation.
    - [Round]: [round.rs], [policy.rs] of
      [src/runtime/collector/realtime/picker/]; statistics of a round, the post
      policy with its back-off, the pull policy with its watermarks.
    - [Router]: [ParseDispatchRouter] of [src/runtime/parser/workflow.rs].
    - [ErrPolicy]: [src/runtime/errors/mod.rs], [src/core/error/strategies/];
      which strategy an error gets.
    - [Picker]: [actor.rs], [post.rs], [fetch.rs], [dispatch.rs] of the picker;
      the pending queue, posting, fetching, one round.  [PickerLaws]: its
      invariants.
    - [AutoRate]: [auto_limit.rs] of the picker; the controller that raises and
      lowers the shared rate.
    - [Worker]: [worker.rs] of the picker; the dispatch loop as a state machine
      whose turn composes the router, the round, the limiter and the
      controller, and the theorems about a whole run.
    - [ReloadDrain]: [src/runtime/reload_drain.rs].
    - [SinkHealth]: the drop gate and the outage bookkeeping of
      [src/sinks/runtime/manager.rs]; [SinkRuntime]: the sink runtime itself;
      [SinkLaws]: what it guarantees.
    - [DataModel]: the interface of the data-model crate (values, fields,
      records) with its documented behaviour.
    - [Expr]: [crates/orion_exp/src]; expression trees, their evaluators, the
      cache of compiled wildcard patterns; comparison and conditions on records
      ([crates/wp-data-utils/src/{compare,conditions}.rs]).
    - [Tags]: [src/core/parser/global_tags.rs]; parsing and stamping the
      instance-wide tags.
    - [Dispatcher]: [src/sinks/routing/dispatcher/]; the dispatcher of a sink
      group over the modelled sink runtimes, conditions and tags.
      [DispatcherLaws]: what it guarantees.
    - [Stats]: [crates/wp-stats/src]; measures, dimensions, the collector over
      an LRU window, reports and their merge.  [StatsLaws]: what they count.
    - [Metrics]: [src/stat/]; the collectors of a stage, metric sets and their
      sums, runtime counters, the sinks' error window.  [MetricsLaws].
    - [Monitor]: [src/runtime/supervisor/]; the loop that books the reports of
      all tasks and closes their windows over [Metrics], and the maintainer that
      reconnects broken sinks.
    - [Utf8]: UTF-8 and its lossy reading, as the language's library.
    - [WplEngine]: [src/core/parser/wpl_engine/] and [src/core/sinks/sync_sink/];
      pipelines, the match of an event against the rules, grouping a batch,
      sending it.  [WplEngineLaws]; [WplEngineInst], a concrete engine.
    - [Resources]: [src/resources/] and [src/sinks/routing/{registry,sink_grp,
      agent}.rs]; rules, models and routes, their indexes, the assembly of the
      pipelines.  [ResourcesLaws]; [ResourcesInst].
    - [Recovery]: [src/sinks/rescue.rs] and
      [src/runtime/collector/recovery/mod.rs]; rescue files and their replay.
      [RecoveryLaws]; [RecoveryInst].
    - The generator, [src/runtime/generator/]: [GenSpeed], speed profiles, their
      controller and the token bucket that follows it ([speed/]); [GenConf], its
      configuration ([crates/wp-config/src/generator/wpgen.rs]); [GenSpeedLaws];
      [Generator], batches and pipelines ([common.rs], [sample.rs], [rule.rs]);
      [GeneratorLaws].
    - [ParserActor]: [src/runtime/parser/act_parser.rs] and
      [src/runtime/tasks/parse.rs]; the loop of a parser worker over an interface
      of engines, implemented by [WplEngine].  [ParserActorLaws];
      [ParserActorInst].
    - [SinkActor]: [src/runtime/sink/{drain,act_sink}.rs]; the loops of a sink
      task and of the infrastructure task over an interface of groups.
      [SinkActorLaws]: what a task does with every sequence of events.
      [SinkTasks]: the dispatcher as the group of a sink task.
    - [Control]: [src/facade/runtime_ctrl.rs]; the command bus with its one
      reload permit, as a step relation.
    - [Reload]: [src/orchestrator/engine/service.rs] and the reload command of
      [src/facade/engine.rs]; the processing tasks, their drain, detachment,
      forced stop and replacement.  [ReloadLaws].
    - [QueryCache]: [crates/wp-data-utils/src/cache.rs]; the cache of lookups.
    - [F64]: the language's [f64] and checked [i64]; [Text]: its strings and IP
      addresses.
    - OML, [crates/wp-oml/src]: [OmlData], records and accessors
      ([OmlAccessLaws]); [OmlCalc], calculations; [OmlMatch],
      conditions of a match; [OmlSql], queries and their parameters;
      [OmlEval], the syntax of models and the two evaluators
      ([OmlEvalLaws], [OmlModelLaws]); [OmlStatic], the passes over static
      blocks ([OmlStaticLaws], [OmlSyncLaws]); [OmlPrivacy], masks, digests and
      tokens ([OmlPrivacyLaws]); [OmlPipe], the pipe functions.
      [OmlInst]: a concrete data model, on which models evaluate.  [Semantic]:
      the dictionary and the word extraction of two pipe functions.
    - The configuration, [crates/wp-config/src]: [ConfParams], parameter values,
      their merge and TOML, tags ([structure/], [utils.rs]); [SinkConf], sinks,
      groups and the building of routes ([sinks/]); [SourceConf], connectors and
      sources ([connectors/], [sources/], [src/sources/config.rs]);
      [ConfLaws]; [ConfInst], a concrete configuration.  [EngineConf], the
      engine's file, its state directory and paths ([engine.rs], [state.rs]).
    - [SinkReport]: the reports of the command-line tools,
      [crates/wp-cli-core/src/{business/observability,utils,rescue}].
    - [Framing]: messages of a byte stream and the batches of a connection
      ([src/sources/tcp/{framing.rs,framing/extractor.rs,conn/connection.rs}]);
      [SyslogHeader]: headers of syslog lines and the hooks that strip them
      ([src/sources/syslog/{normalize,udp_source,tcp_source}.rs]).  These files
      are copies of an external crate of connectors that the repository keeps
      and does not compile.

    ** How state and operations correspond to the code

    A struct is a [Record] with the code's field names, an enum an [Inductive]
    with its constructors, a method a function from the state (and what it
    reads) to the state and the result, under the method's name.  Reads of the
    world are explicit arguments: an instant (nanoseconds in [Z]), an
    environment variable, the answer of a [select!], the resident memory.  When
    a method reads the clock several times it takes a clock, a function from
    the number of the read.  Shared state ([Arc], atomics) is one value threaded
    through the calls; what other tasks did to it between two of them is part of
    the next turn's environment ([Worker.TurnEnv]); where the order of such steps
    is the point, the steps are a relation ([Control.bus_step]).  The event loops
    of the sink tasks are functions on the list of events their [select!] took.  A panic of the code is
    [Panic] or [None], said where it is used.

    Code outside the repository is an interface.  [Router.Channel] is the
    sending half of a bounded queue, with the documented laws of [try_send] in
    [ChannelLaws] (a successful send appends, a failed one returns the value and
    changes nothing).  [Picker.SourceEventApi] is the part of a source event
    the picker reads.  [SinkRuntime.Backend] is a sink, without any law: a
    backend may fail in every way at every call.  [DataModel.DataApi] is a
    record of fields, with the laws [DataModel.DataLaws];
    [Dispatcher.OmlApi] is a transformation model; [Stats.LruApi] and
    [QueryCache.LruCache] are the LRU cache of the [lru] crate, [Stats.CollApi]
    the unstable sorts and map orders of the standard library, all with the laws
    of their documentation.  For OML: [OmlData.OmlTypes] and [OmlData.OmlData]
    are the data model, with the laws [OmlData.OmlLaws]; [OmlData.WildMatch] the
    wildcard crate; [OmlPrivacy.PrivacyCrates] and [OmlPrivacy.ValueText] the
    digests, the cipher and the texts of values; [OmlPipe.PipeCrates] the codecs
    and the calendar; [OmlSql.KnowledgeApi] the knowledge base;
    [OmlEval.OmlEnv] formatting and the network table; [OmlEval.PipeApi] is
    what the evaluator asks of a pipe function, implemented by [OmlPipe].
    For parsing: [WplEngine.WplApi] is a compiled rule of the WPL crate, with
    the order of its progress in [ProgressLaws]; [RecordApi] and [TagsApi] are
    the parts of records and tags the engine touches; [WplEngine.Ends] the
    receiving ends of the sinks' channels and of storage, with what a send adds
    in [EndsLaws].  [ParserActor.BatchEngine] is what a worker asks of its
    engine, with the contract [EngineLaws]; [Resources.Matcher], [ModelApi] and
    [RuleApi] are wildcards, models and parsed rules; [Recovery.RescueJson] the
    JSON of a rescued entry, with the laws [RescueJsonLaws].
    For the configuration: [ConfParams.IterLaw], the order in which a table is
    iterated; [SinkConf.ConfCrates], the formats of numbers and of the network;
    [SinkConf.FilterFiles], the files of filters; [SourceConf.SourceFactory], a
    connector's factory; [SinkReport.Files], the files a report reads.
    The theorems hold for every instance; the witnesses use a concrete one.

    ** What the theorems show

    - Events: [Worker.worker_conserves_events] (in every state of a run the
      events posted followed by those still queued are the events received, in
      order), [worker_backlog_bounded] (three bursts and one batch; fewer bytes
      than the cap plus one received batch), [worker_accounting] (counter,
      records and lease agree with what was posted and received),
      [worker_stops] (a turn that starts with an immediate stop or at a limit
      exits before it touches anything).
    - Posting and fetching: the back-off schedule, that a pending batch is
      retried within nine rounds, the per-address record counts, what a round
      does with the end of the source ([PickerLaws.terminal_round]), which
      worker a dispatch chooses and why it gives a batch back, and that each
      worker gets every n-th batch while all take what they are offered.
    - Parsing: [ParserActorLaws.parser_worker_delivers] (from a worker's channel
      to the sinks: the channels hold exactly what the batches processed
      deliver), [parser_accounts_for_batches], [parser_worker_ends];
      [WplEngineLaws.parse_event_blames_deepest] (which rule answers and which
      is blamed for a miss), [late_rules_last], [proc_batch_delivers].
    - Assembly: [ResourcesLaws.rules_go_to_longest] (a rule goes to the group of
      the longest matcher, the first of equals), [engine_pipelines_sound].
    - Rescue: [RecoveryLaws.rescued_entries_kept] (an entry is in its file or in
      a channel of its sink), [rescue_then_replay] (what was written comes back,
      in order, as its lines read, when no file operation fails), [unknown_sink_blocks_replay].
    - Pace: a bound on the events the shared limiter grants before any grant is
      released, however many workers hold leases, the accounting of a lease, the spacing
      of the per-task limiter, the step and back-off of the automatic rate.
    - Shutdown: [batch_shutdown_order] (a batch run ends only after the
      pickers and, at a later poll, the parsers had finished),
      [stop_role_groups_order], [shutdown_poll_goes_down], [snapshot_correct],
      [ReloadDrain.drain_outcome] (the drain completes when every tracked
      worker reported a drained end and fails when one was dropped silently).
    - Sinks: [SinkLaws.sink_conserves_records] (every call returns; as long as
      none fails, the records acknowledged, dropped or tolerated followed by
      those buffered are all the records sent, in order and under their own
      metadata), the drop gate,
      one rescue file per outage, the schedule of the circuit breaker, the
      summary of an outage.
    - Routing: [DispatcherLaws.direct_batch_routes] and [single_record_routes]
      (every unit reaches exactly one ready replica of every sink name, the same
      alone or in a batch), [fanout_exact] (each sink gets exactly the records
      its condition admits, with the instance-wide tags on top),
      [fast_path_agrees].
    - Tags and conditions: [Tags.apply_global_tags_exact],
      [global_tags_roundtrip], [Expr.we_cache_is_lru] (the pattern cache changes
      no answer and keeps the most recently used patterns), and the lemma
      [Expr.evaluators_agree].
    - Statistics: [StatsLaws.collector_report] (a window's report is the
      heaviest records of the exact counts of the calls), [merge_adds],
      [dimension_order], [MetricsLaws.collector_group_counts_once],
      [metric_set_refines_map] (the indexed set is a map from identity to report),
      [drops_accounted], [Monitor.monitor_keeps_books] (the monitor's loop
      refines a ledger of a window and a total), [drop_windows_reported],
      [stopped_exports_nothing], [Maintenance.handles_conserved].
    - Sink tasks: [SinkActorLaws.sink_task_trace] (which calls a sequence of
      events makes on the group, in order), [draining_task_ends],
      [infra_ends_with_last_channel], and [SinkTasks.returned_task_hands_over]
      (composed with the dispatcher and the sink runtimes: when a task has
      returned, every record that its sinks held or were given has a fate, in
      order, and no buffer holds one).
    - Reload: [Control.reload_single_flight] and [reload_gate_refines_lock]
      (one reload at a time, and a status that tells it, in every interleaving),
      [ReloadLaws.reload_replaces_processing] (a reload that succeeded leaves the
      channels and groups of the new configuration, written down independently
      of the code that installs them), [graceful_reload_detaches],
      [reload_failure_states] (the four ways to fail and the engine each
      leaves).
    - Lookups: [QueryCache.query_cache_by_value] (numbering the parameters is
      invisible).
    - OML: [OmlStaticLaws.finished_model_never_panics] (a model the static
      passes accept transforms every record, unless it has a statement that the
      parser lets through and that may panic), [OmlSyncLaws.sync_path_unobservable]
      (the synchronous evaluator is the asynchronous one where it is chosen),
      [OmlModelLaws.transform_names] and [wildcard_moves_fields] (what each
      statement takes, adds and moves), [OmlCalc.calc_int_exact] (integers
      are exact or overflow is reported) and [calc_field_typed],
      [OmlSql.scan_finds_parameters], [OmlPrivacyLaws.missing_secret_fails_closed],
      [masked_address_in_pool], [mask_shows_ends_only] and [token_roundtrip],
      [OmlPipe.get_follows_path] and [ip_to_biguint_order],
      [Semantic.analysis_takes_firsts] (which words of a text are subject, action,
      object and status), [check_tells_dictionary] (what the check reports is what
      the engine uses).
    - Generator: [GeneratorLaws.shared_quota_exact] (in every interleaving the
      pipelines produce exactly the lines asked for), [rule_pipelines_exact],
      [unit_sends_in_turn], [GenSpeedLaws.validated_speed_stays_limited] (a
      validated profile never becomes unlimited) and
      [share_below_one_is_unlimited].
    - Configuration: [ConfLaws.group_built_exactly] (when a group is built and
      what of), [overrides_respect_allowlist], [infra_groups_loaded],
      [connectors_defined_once], [sources_started], [params_roundtrip_toml];
      [EngineConf.state_dir_spares_work_root], [state_outside_managed],
      [engine_path_resolved].
    - Reports: [SinkReport.input_totals_agree] (the two ways to count the
      input), [expectations_fail_exactly], [rescue_stat_adds_up].
    - Streams: [Framing.connection_keeps_messages] (whatever the reads and the
      batches, the messages are those of the bytes), [auto_chunks_unobservable],
      [octet_frames_roundtrip], [process_buffer_delivers];
      [SyslogHeader.fast_strip_unobservable] (the fast path makes the same
      event or panics), [hook_keeps_suffix], [rfc5424_roundtrip].
    - Limits and errors: [Limits.from_env_well_formed] and
      [from_env_override], [ErrPolicy.error_mappings_agree] (the runtime's table
      and the three policies), the classification of source errors.
    - Deviations: [WplEngineLaws.closed_miss_end_loses_batch],
      [ResourcesLaws.model_stays_with_two_sinks], the examples of
      [ParserActorInst], [ResourcesInst] and [RecoveryInst],
      [SinkLaws.send_to_sink_silent_loss],
      [ffv_mixed_package_loses_bytes] and the lemmas
      [AutoRate.observe_panics_on_empty_range] and
      [RateLimit.limiter_cast_stalls], [StatsLaws.merge_forgets_collision],
      [MetricsLaws.begin_end_without_record], [SinkActorLaws.timeout_stop_ignored],
      [Control.closed_bus_reports_reloading],
      [ReloadLaws.failed_force_stop_strands_engine] and
      [panicked_maintainer_loses_pickers], [OmlSyncLaws.nested_lookup_lost] and
      the lemmas about OML's panics exhibit inputs on which the code does not
      do what it means to.

    ** Loops and fuel

    - [Picker.coalesce_loop] takes the number of pending batches plus one; each
      iteration removes a batch ([PickerLaws.coalesce_loop_spec] is about every
      larger fuel).
    - [RateLimit.consume_loop] ends in its second iteration, because the first
      grant covers what is missing ([consume_loop_enough]).
    - [SinkRuntime.batch_loop], [units_loop] and [one_loop] retry after a switch
      to the rescue file, which happens once: two iterations are enough, and the
      laws prove that the result exists.
    - [Tags.remove_fields] takes one more than the number of fields: each
      iteration removes one.
    - [OmlSql.scan] takes the length of the text: each iteration
      consumes a character ([OmlSql.scan_step_shorter]).
    - [WplEngine.forward_raw_to_infra] retries on a full channel for as long as it
      is full: the fuel is the attempts, and [WplEngineLaws.accepts] says that
      they are enough for a channel.  [Recovery.try_candidate] takes the code's
      own limit, [RECOVER_BUSY_RETRY_MAX] retries.
    - [Recovery.lines_loop] takes the length of the text: each line takes a
      character at least.
    - The loops of [Framing] over a buffer take its length plus one: each
      extraction removes a byte ([Framing.Extractor]).
    - [Generator.rule_loop] takes the lines of the pipeline: each unit sends one at
      least ([GeneratorLaws.rule_pipelines_exact]).
    - [Worker.run_dispatch_loop] recurses on the list of turn environments, the
      manager's wait loop on the list of observations: a run is any prefix of
      the loop, and its theorems hold for every prefix.

    ** Not modelled

    The WPL interpreter and the data model are external crates.  Of OML: the
    parsers of its text (combinators of the [winnow] crate), the segmentation of
    texts (an external crate), warnings and diagnostics; an evaluation reads the clock once, the nonce of a token is an
    argument, and the lock of the secrets is never poisoned.  Of the TCP, syslog and
    file sources under [src/sources], copies of those of an external crate of
    connectors that are not in use, the framing and the headers are modelled, the
    sockets and files are not; sink backends, source factories, command-line
    tools and log texts are I/O.
    The channels' wake-ups, the memory order of the atomics and preemption
    inside a method are not modelled: methods that lock run under their lock, and
    the others touch one atomic at a time.  Counters that only feed log lines are
    left out.  The remaining parts with logic of their own are the
    start and the main loop of the engine. *)
From Stdlib Require Import ZArith Lia Ascii String.
From stdpp Require Import prelude strings.

(** ** Machine integers

    A Rust [usize]/[u64]/[u32]/[u8] is a [Z] kept between 0 and its maximum.
    [+=] on a counter wraps in the release profile (no profile of the
    workspace turns overflow checks on); [saturating_*] clips. *)

Declare Scope wp_scope.
Delimit Scope wp_scope with wp.

Definition USIZE_MAX : Z := 18446744073709551615.
Definition U64_MAX : Z := 18446744073709551615.
Definition U32_MAX : Z := 4294967295.
Definition U8_MAX : Z := 255.

Definition fits (max z : Z) : Prop := (0 <= z <= max)%Z.

Definition sat_add (max a b : Z) : Z := Z.min max (a + b).
Definition sat_sub (a b : Z) : Z := Z.max 0 (a - b).
Definition sat_mul (max a b : Z) : Z := Z.min max (a * b).

(** [a + b] on a [w]-bit unsigned integer of the release profile. *)
Definition wrap_add (w a b : Z) : Z := ((a + b) mod 2 ^ w)%Z.

(** [Ord::clamp] asserts [lo <= hi] and panics otherwise. *)
Definition clamp (z lo hi : Z) : option Z :=
  if (hi <? lo)%Z then None
  else Some (if (z <? lo)%Z then lo else if (hi <? z)%Z then hi else z).

Notation "a ⊕ b" := (sat_add USIZE_MAX a b) (at level 50, left associativity) : wp_scope.
Notation "a ⊖ b" := (sat_sub a b) (at level 50, left associativity) : wp_scope.
Notation "a ⊗ b" := (sat_mul USIZE_MAX a b) (at level 40, left associativity) : wp_scope.
Notation "a +w b" := (wrap_add 64 a b) (at level 50, left associativity) : wp_scope.

(** The length of a [Vec], [VecDeque] or slice as a [usize]. *)
Definition zlen {A} (l : list A) : Z := Z.of_nat (length l).

(** [str::len], in bytes. *)
Definition slen (s : string) : Z := Z.of_nat (String.length s).

(** How many elements satisfy a boolean test. *)
Fixpoint countb {A} (p : A -> bool) (l : list A) : Z :=
  match l with
  | [] => 0
  | x :: l => if p x then 1 + countb p l else countb p l
  end.

(** ** Results that may panic *)

Inductive outcome (A : Type) : Type :=
  | Ret (a : A)
  | Panic.
Arguments Ret {A} a.
Arguments Panic {A}.

Definition obind {A B} (m : outcome A) (k : A -> outcome B) : outcome B :=
  match m with Ret a => k a | Panic => Panic end.

Notation "'let!' x ':=' m 'in' k" := (obind m (fun x => k))
  (at level 10, x pattern, m at level 100, k at level 200) : wp_scope.

(** ** ASCII text

    The standard library's string functions on the ASCII strings the
    configuration uses. *)

Lemma list_ascii_app a b :
  list_ascii_of_string (a +:+ b) = (list_ascii_of_string a ++ list_ascii_of_string b)%list.
Proof. induction a as [|c a IH]; [done|]. exact (f_equal (cons c) IH). Qed.

Definition to_lower (c : ascii) : ascii :=
  let n := nat_of_ascii c in
  if ((65 <=? n) && (n <=? 90))%nat then ascii_of_nat (n + 32) else c.

Definition map_string (f : ascii -> ascii) (s : string) : string :=
  string_of_list_ascii (map f (list_ascii_of_string s)).

(** [str::to_ascii_lowercase] *)
Definition to_ascii_lowercase : string -> string := map_string to_lower.

(** [str::eq_ignore_ascii_case] *)
Definition eq_ignore_ascii_case (a b : string) : bool :=
  bool_decide (to_ascii_lowercase a = to_ascii_lowercase b).

Definition digit (c : ascii) : option Z :=
  let n := Z.of_nat (nat_of_ascii c) in
  if (48 <=? n)%Z && (n <=? 57)%Z then Some (n - 48)%Z else None.

Fixpoint parse_digits (acc : Z) (l : list ascii) : option Z :=
  match l with
  | [] => Some acc
  | c :: r =>
      match digit c with
      | Some d => let v := (acc * 10 + d)%Z in
                  if (v <=? USIZE_MAX)%Z then parse_digits v r else None
      | None => None
      end
  end.

(** [str::parse::<usize>]: an optional plus sign and at least one digit, an
    error past the width. *)
Definition parse_usize (s : string) : option Z :=
  match list_ascii_of_string s with
  | [] => None
  | c :: r =>
      if bool_decide (c = "+"%char) then match r with [] => None | _ => parse_digits 0 r end
      else parse_digits 0 (c :: r)
  end.

(** ** Automation *)

Create HintDb wp discriminated.

(** Case analysis on every [if] and [match] of the goal and the context,
    then arithmetic. *)
Ltac bool_to_prop :=
  repeat match goal with
  | H : (_ && _)%bool = true |- _ => apply andb_prop in H; destruct H
  | H : (_ || _)%bool = false |- _ => apply orb_false_elim in H; destruct H
  | H : negb _ = true |- _ => apply negb_true_iff in H
  | H : negb _ = false |- _ => apply negb_false_iff in H
  | H : (_ <=? _)%Z = true |- _ => apply Z.leb_le in H
  | H : (_ <=? _)%Z = false |- _ => apply Z.leb_gt in H
  | H : (_ <? _)%Z = true |- _ => apply Z.ltb_lt in H
  | H : (_ <? _)%Z = false |- _ => apply Z.ltb_ge in H
  | H : (_ =? _)%Z = true |- _ => apply Z.eqb_eq in H
  | H : (_ =? _)%Z = false |- _ => apply Z.eqb_neq in H
  end.

Ltac split_cases := repeat (case_match; simplify_eq/=; bool_to_prop).

Ltac arith := unfold sat_add, sat_sub, sat_mul, fits, zlen in *; lia.

(** ** Lemmas on machine integers *)

Lemma sat_add_fits max a b :
  (0 <= max -> 0 <= a -> 0 <= b -> fits max (sat_add max a b))%Z.
Proof. arith. Qed.

Lemma sat_add_exact max a b : (a + b <= max -> sat_add max a b = a + b)%Z.
Proof. arith. Qed.

Lemma sat_sub_le a b : (0 <= a -> 0 <= b -> 0 <= sat_sub a b <= a)%Z.
Proof. arith. Qed.

Lemma sat_mul_fits max a b :
  (0 <= max -> 0 <= a -> 0 <= b -> fits max (sat_mul max a b))%Z.
Proof. intros. pose proof (Z.mul_nonneg_nonneg a b). arith. Qed.

Lemma wrap_add_exact w a b :
  (0 <= a + b < 2 ^ w -> wrap_add w a b = a + b)%Z.
Proof. intros. apply Z.mod_small. lia. Qed.

Lemma wrap_add_range w a b : (0 <= w -> 0 <= wrap_add w a b < 2 ^ w)%Z.
Proof. intros. apply Z.mod_pos_bound. lia. Qed.

Lemma clamp_spec z lo hi :
  (lo <= hi)%Z -> exists y, clamp z lo hi = Some y /\ (lo <= y <= hi)%Z.
Proof.
  intros H. unfold clamp. destruct (Z.ltb_spec hi lo); [lia|].
  split_cases; eexists; (split; [done|lia]).
Qed.

Lemma zlen_nonneg {A} (l : list A) : (0 <= zlen l)%Z.
Proof. arith. Qed.

Lemma zlen_app {A} (l k : list A) : (zlen (l ++ k) = zlen l + zlen k)%Z.
Proof. unfold zlen. rewrite length_app. lia. Qed.

Lemma zlen_cons {A} (x : A) l : (zlen (x :: l) = 1 + zlen l)%Z.
Proof. unfold zlen. simpl. lia. Qed.

Lemma zlen_nil (A : Type) : zlen (@nil A) = 0%Z.
Proof. reflexivity. Qed.

Lemma countb_nonneg {A} (p : A -> bool) l : (0 <= countb p l)%Z.
Proof. induction l as [|x l IH]; simpl; [lia|destruct (p x); lia]. Qed.

Lemma countb_pos {A} (p : A -> bool) l :
  (0 < countb p l)%Z <-> Exists (fun x => p x = true) l.
Proof.
  induction l as [|x l IH]; simpl; [split; [lia|by inversion 1]|].
  rewrite Exists_cons, <- IH. pose proof (countb_nonneg p l).
  destruct (p x); intuition lia.
Qed.

(** Counting a stronger test: at most as many, as many exactly when the
    stronger test follows from the weaker one. *)
Lemma countb_and {A} (p q : A -> bool) l :
  (countb (fun x => p x && q x) l <= countb p l)%Z /\
  (countb (fun x => p x && q x) l = countb p l <->
   Forall (fun x => p x = true -> q x = true) l).
Proof.
  induction l as [|x l [IH1 IH2]]; simpl; [by split|].
  rewrite Forall_cons, <- IH2.
  destruct (p x), (q x); simpl; (split; [lia|]); intuition lia.
Qed.

Lemma append_cons c s t : (String c s +:+ t)%string = String c (s +:+ t)%string.
Proof. done. Qed.

Lemma prefix_append p s : String.prefix p (p +:+ s)%string = true.
Proof.
  induction p as [|c p IH]; [by destruct s|]. rewrite append_cons. cbn [String.prefix].
  destruct (Ascii.ascii_dec c c); [exact IH|congruence].
Qed.

Lemma length_append a b : String.length (a +:+ b)%string = (String.length a + String.length b)%nat.
Proof. induction a as [|c a IH]; [done|]. rewrite append_cons. cbn [String.length]. by rewrite IH. Qed.

Lemma substring_all s : String.substring 0 (String.length s) s = s.
Proof. induction s as [|c s IH]; cbn; [done|]. by rewrite IH. Qed.

Lemma substring_skip p s n : String.substring (String.length p) n (p +:+ s)%string = String.substring 0 n s.
Proof. induction p as [|c p IH]; [done|]. rewrite append_cons. exact IH. Qed.

Lemma parse_digits_fits acc l v :
  (0 <= acc)%Z -> parse_digits acc l = Some v -> (acc <= USIZE_MAX)%Z -> fits USIZE_MAX v.
Proof.
  revert acc. induction l as [|c l IH]; simpl; intros acc Hacc H Hm.
  - simplify_eq. by split.
  - unfold digit in H. split_cases. eapply IH; [|done|done]. lia.
Qed.

Lemma parse_usize_fits s v : parse_usize s = Some v -> fits USIZE_MAX v.
Proof.
  unfold parse_usize. intros H.
  repeat case_match; try discriminate; (eapply parse_digits_fits; [|exact H|]; done).
Qed.

Lemma filter_all {A} (P : A -> Prop) `{!forall x, Decision (P x)} (l : list A) :
  Forall P l -> filter P l = l.
Proof.
  induction 1 as [|x l Hx _ IH]; [done|]. by rewrite filter_cons_True, IH.
Qed.

Lemma filter_none {A} (P : A -> Prop) `{!forall x, Decision (P x)} (l : list A) :
  Forall (fun x => ~ P x) l -> filter P l = [].
Proof.
  induction 1 as [|x l Hx _ IH]; [done|]. by rewrite filter_cons_False, IH.
Qed.

#[export] Hint Resolve parse_usize_fits : wp.
#[export] Hint Resolve sat_add_fits sat_sub_le sat_mul_fits wrap_add_range zlen_nonneg : wp.
Create Rewrite HintDb wp_len.
#[export] Hint Rewrite @zlen_app @zlen_cons @zlen_nil : wp_len.
