(* ===== verification/F64.v ===== *)
(** [f64]: IEEE binary64 as the Standard Library specifies it, with the casts,
    the rounding methods and the decimal parser of the language's library.

    There is one NaN: the code never looks at a NaN's sign or payload. *)
From Stdlib Require Import ZArith Lia String Ascii.
From Stdlib Require Import Floats.SpecFloat.
From stdpp Require Import prelude strings.
From S2P Require Import Prelude.
Local Open Scope list_scope.
Local Open Scope Z_scope.

Definition I64_MAX : Z := 9223372036854775807.
Definition I64_MIN : Z := -9223372036854775808.

(** [checked_*] on [i64]: the exact result if it is one. *)
Definition i64_checked (z : Z) : option Z :=
  if (I64_MIN <=? z) && (z <=? I64_MAX) then Some z else None.

Lemma i64_checked_some z v : i64_checked z = Some v -> v = z /\ I64_MIN <= z <= I64_MAX.
Proof. unfold i64_checked. intros H. split_cases. lia. Qed.

Lemma i64_checked_in z : I64_MIN <= z <= I64_MAX -> i64_checked z = Some z.
Proof. unfold i64_checked. intros H. split_cases; [done|lia]. Qed.

(** ** Arithmetic *)

(** [as f64]: the nearest binary64 number. *)
Definition as_f64 (z : Z) : spec_float := binary_normalize 53 1024 z 0 false.

Definition fadd : spec_float -> spec_float -> spec_float := SFadd 53 1024.
Definition fsub : spec_float -> spec_float -> spec_float := SFsub 53 1024.
Definition fmul : spec_float -> spec_float -> spec_float := SFmul 53 1024.
Definition fdiv : spec_float -> spec_float -> spec_float := SFdiv 53 1024.
Definition flt (a b : spec_float) : bool := SFltb a b.
Definition fle (a b : spec_float) : bool := SFleb a b.
Definition feq (a b : spec_float) : bool := SFeqb a b.

Definition is_finite (x : spec_float) : bool :=
  match x with S754_zero _ | S754_finite _ _ _ => true | _ => false end.

(** A finite number with a fractional part is [m / d] with [d = 2^(-e)];
    [up s q r d] says whether the magnitude [q = m / d] with remainder [r]
    rounds away from zero. *)
Definition round_with (up : bool -> Z -> Z -> bool) (x : spec_float) : spec_float :=
  match x with
  | S754_finite s m e =>
      if 0 <=? e then x
      else let d := 2 ^ (- e) in
           let q := Zpos m / d in
           let n := if up s (Zpos m mod d) d then q + 1 else q in
           if n =? 0 then S754_zero s
           else binary_normalize 53 1024 (if s then - n else n) 0 s
  | _ => x
  end.

(** [f64::floor], [f64::ceil], [f64::round] (half away from zero). *)
Definition ffloor : spec_float -> spec_float := round_with (fun s r d => s && negb (r =? 0)).
Definition fceil : spec_float -> spec_float := round_with (fun s r d => negb s && negb (r =? 0)).
Definition fround : spec_float -> spec_float := round_with (fun s r d => d <=? 2 * r).

(** [as i64]: towards zero, saturating, [0] for a NaN. *)
Definition f64_as_i64 (x : spec_float) : Z :=
  match x with
  | S754_zero _ | S754_nan => 0
  | S754_infinity s => if s then I64_MIN else I64_MAX
  | S754_finite s m e =>
      let t := if 0 <=? e then Zpos m * 2 ^ e else Zpos m / 2 ^ (- e) in
      Z.max I64_MIN (Z.min I64_MAX (if s then - t else t))
  end.

Lemma f64_as_i64_range x : I64_MIN <= f64_as_i64 x <= I64_MAX.
Proof. destruct x as [|[]| |s m e]; cbn [f64_as_i64]; unfold I64_MIN, I64_MAX; lia. Qed.

(** ** [str::parse::<f64>] *)

(** The nearest number to [num / den]. *)
Definition f64_ratio (s : bool) (num : Z) (den : Z) : spec_float :=
  match num with
  | Z0 => S754_zero s
  | _ => let '(m, e, l) := SFdiv_core_binary 53 1024 num 0 den 0 in
         binary_round_aux 53 1024 s m e l
  end.

Definition f64_decimal (s : bool) (digits : Z) (e10 : Z) : spec_float :=
  if 0 <=? e10 then f64_ratio s (digits * 10 ^ e10) 1 else f64_ratio s digits (10 ^ (- e10)).

(** The digits read, as a number and how many they are. *)
Fixpoint take_digits (acc : Z) (n : Z) (l : list ascii) : Z * Z * list ascii :=
  match l with
  | c :: r => match digit c with
              | Some d => take_digits (acc * 10 + d) (n + 1) r
              | None => (acc, n, l)
              end
  | [] => (acc, n, [])
  end.

Definition take_sign (l : list ascii) : bool * list ascii :=
  match l with
  | "-"%char :: r => (true, r)
  | "+"%char :: r => (false, r)
  | _ => (false, l)
  end.

(** [Exp ::= [eE] Sign? Digit+], or nothing at the end of the text. *)
Definition parse_exponent (l : list ascii) : option Z :=
  match l with
  | [] => Some 0
  | c :: r =>
      if bool_decide (c = "e"%char \/ c = "E"%char) then
        let '(neg, r) := take_sign r in
        let '(e, n, rest) := take_digits 0 0 r in
        match rest with
        | [] => if n =? 0 then None else Some (if neg then - e else e)
        | _ => None
        end
      else None
  end.

Definition parse_f64 (s : string) : option spec_float :=
  let '(neg, l) := take_sign (list_ascii_of_string s) in
  let word := to_ascii_lowercase (string_of_list_ascii l) in
  if bool_decide (word = "inf"%string \/ word = "infinity"%string) then Some (S754_infinity neg)
  else if bool_decide (word = "nan"%string) then Some S754_nan
  else
    let '(ip, ni, l) := take_digits 0 0 l in
    let '(m, n, nf, l) :=
      match l with
      | "."%char :: r => let '(m, nf, r) := take_digits ip 0 r in (m, ni + nf, nf, r)
      | _ => (ip, ni, 0, l)
      end in
    if n =? 0 then None
    else match parse_exponent l with
         | Some e => Some (f64_decimal neg m (e - nf))
         | None => None
         end.

(** ** Finite results *)

Lemma is_finite_true x : is_finite x = true -> x <> S754_nan /\ forall s, x <> S754_infinity s.
Proof. by destruct x. Qed.

Example parse_f64_half : parse_f64 "-0.5" = Some (fdiv (as_f64 (-1)) (as_f64 2)).
Proof. vm_compute. reflexivity. Qed.

Example parse_f64_exponent : parse_f64 "1e3" = Some (as_f64 1000).
Proof. vm_compute. reflexivity. Qed.

Example parse_f64_decimal : parse_f64 "0.0001" = Some (S754_finite false 7378697629483821 (-66)).
Proof. vm_compute. reflexivity. Qed.

Example parse_f64_garbage : parse_f64 "1x" = None /\ parse_f64 "." = None /\ parse_f64 "" = None.
Proof. vm_compute. done. Qed.

Example round_half_away :
  fround (fdiv (as_f64 5) (as_f64 2)) = as_f64 3 /\ fround (fdiv (as_f64 (-5)) (as_f64 2)) = as_f64 (-3)
  /\ ffloor (fdiv (as_f64 (-5)) (as_f64 2)) = as_f64 (-3) /\ fceil (fdiv (as_f64 5) (as_f64 2)) = as_f64 3.
Proof. vm_compute. done. Qed.
