(* ===== verification/Text.v ===== *)
(** Text and addresses of the language's library, as the record language uses
    them: [char]s of UTF-8 text, [str]'s search and trim functions, the parsers
    of integers, truth values and IP addresses and the printers of addresses.

    A string is its UTF-8 bytes.  [to_lowercase] needs the Unicode case tables:
    it is the operation of the class [UnicodeCase]. *)
From Stdlib Require Import ZArith Lia String Ascii.
From stdpp Require Import prelude strings pretty.
From S2P Require Import Prelude F64.
Local Open Scope string_scope.
Local Open Scope list_scope.
Local Open Scope Z_scope.

Class UnicodeCase := { to_lowercase : string -> string }.

(** ** Characters *)

Definition code (c : ascii) : Z := Z.of_nat (nat_of_ascii c).

(** A byte that continues a character. *)
Definition continuation (c : ascii) : bool := (128 <=? code c) && (code c <? 192).

(** [str::chars], each character as its bytes. *)
Fixpoint split_chars (l : list ascii) : list (list ascii) :=
  match l with
  | [] => []
  | c :: r =>
      match split_chars r with
      | (d :: w) :: rest => if continuation d then (c :: d :: w) :: rest else [c] :: (d :: w) :: rest
      | _ => [[c]]
      end
  end.

Definition chars (s : string) : list string :=
  string_of_list_ascii <$> split_chars (list_ascii_of_string s).

(** The text of characters: [String::extend], [collect]. *)
Definition of_chars (l : list string) : string := foldr String.append "" l.

Lemma split_chars_nonempty l w ws : split_chars l = w :: ws -> w <> [].
Proof. destruct l as [|c l]; cbn; intros H; [done|]. repeat case_match; simplify_eq; done. Qed.

Lemma split_chars_concat l : concat (split_chars l) = l.
Proof.
  induction l as [|c l IH]; [done|]. cbn [split_chars].
  destruct (split_chars l) as [|[|d w] rest] eqn:E; cbn in *.
  - by rewrite <- IH.
  - by apply split_chars_nonempty in E.
  - rewrite <- IH. by destruct (continuation d).
Qed.

Lemma string_of_app a b :
  string_of_list_ascii (a ++ b) = (string_of_list_ascii a +:+ string_of_list_ascii b)%string.
Proof. induction a as [|c a IH]; [done|]. cbn. by rewrite IH. Qed.

Lemma of_chars_concat (l : list (list ascii)) :
  of_chars (string_of_list_ascii <$> l) = string_of_list_ascii (concat l).
Proof. induction l as [|w l IH]; [done|]. cbn [concat]. rewrite string_of_app, <- IH. done. Qed.

Lemma of_chars_chars s : of_chars (chars s) = s.
Proof.
  unfold chars. by rewrite of_chars_concat, split_chars_concat, string_of_list_ascii_of_string.
Qed.

(** ** [str] *)

Definition bytes (l : list nat) : string := string_of_list_ascii (ascii_of_nat <$> l).

(** [char::is_whitespace]: the Unicode property [White_Space]. *)
Definition white_chars : list string :=
  ((fun b => bytes [b]) <$> [9; 10; 11; 12; 13; 32]%nat)
  ++ [bytes [194; 133]; bytes [194; 160]; bytes [225; 154; 128]]%nat
  ++ ((fun b => bytes [226; 128; b]%nat) <$> (seq 128 11 ++ [168; 169; 175]%nat))
  ++ [bytes [226; 129; 159]; bytes [227; 128; 128]]%nat.

Definition is_white (c : string) : bool := bool_decide (c ∈ white_chars).

Fixpoint drop_white (l : list string) : list string :=
  match l with
  | c :: r => if is_white c then drop_white r else l
  | [] => []
  end.

(** [str::trim] *)
Definition str_trim (s : string) : string :=
  of_chars (rev (drop_white (rev (drop_white (chars s))))).

(** ** Where characters begin

    Every byte but the first of a character continues it. *)
Definition boundary (l : list ascii) : Prop := match l with c :: _ => continuation c = false | [] => True end.
Definition word (w : list ascii) : Prop := match w with _ :: t => Forall (fun c => continuation c = true) t | [] => False end.

Lemma split_chars_app a b : boundary b -> split_chars (a ++ b) = split_chars a ++ split_chars b.
Proof.
  intros Hb. induction a as [|c a IH]; [done|]. cbn [app split_chars]. rewrite IH.
  destruct (split_chars a) as [|[|d w] ws] eqn:E; cbn [app].
  - destruct (split_chars b) as [|[|d w] ws] eqn:Eb; [done|by apply split_chars_nonempty in Eb|].
    pose proof (split_chars_concat b) as Hc. rewrite Eb in Hc. cbn in Hc. rewrite <- Hc in Hb. cbn in Hb. by rewrite Hb.
  - by apply split_chars_nonempty in E.
  - by destruct (continuation d).
Qed.

Lemma split_word w : word w -> split_chars w = [w].
Proof.
  destruct w as [|c w]; [done|]. cbn [word]. revert c. induction w as [|d w IH]; intros c Hw; [done|].
  apply Forall_cons in Hw as [Hd Hw]. cbn [split_chars] in *. rewrite (IH d Hw). by rewrite Hd.
Qed.

Lemma split_words l : Forall word (split_chars l) /\ Forall boundary (tail (split_chars l)).
Proof.
  induction l as [|c l [IH1 IH2]]; [split; constructor|]. cbn [split_chars].
  destruct (split_chars l) as [|[|d w] ws]; [split; repeat constructor..|].
  apply Forall_cons in IH1 as [Hw IH1]. cbn [tail] in *. destruct (continuation d) eqn:Ed; split; repeat constructor; done.
Qed.

Lemma split_concat ws : Forall word ws -> Forall boundary (tail ws) -> split_chars (concat ws) = ws.
Proof.
  induction ws as [|w ws IH]; [done|]. intros [Hw Hws]%Forall_cons Hb. cbn [tail concat] in *.
  rewrite split_chars_app, (split_word w Hw).
  - cbn [app]. f_equal. apply IH; [done|]. destruct ws; [done|by inversion Hb].
  - destruct ws as [|v ws]; [done|]. apply Forall_cons in Hb as [Hb _]. apply Forall_cons in Hws as [Hv _]. by destruct v.
Qed.

Lemma chars_app s t : boundary (list_ascii_of_string t) -> chars (s +:+ t) = chars s ++ chars t.
Proof.
  intros Hb. unfold chars. rewrite <- fmap_app, <- split_chars_app by done. do 2 f_equal.
  induction s as [|c s IH]; [done|]. exact (f_equal (cons c) IH).
Qed.

(** *** Trimming *)

Lemma drop_white_suffix l : exists a, l = a ++ drop_white l.
Proof.
  induction l as [|c l [a IH]]; [by exists []|]. cbn. destruct (is_white c); [|by exists []]. exists (c :: a). cbn. by rewrite <- IH.
Qed.

(** What is left is a run of the characters. *)
Lemma str_trim_run s : exists a ws b, chars s = a ++ ws ++ b /\ str_trim s = of_chars ws.
Proof.
  unfold str_trim. destruct (drop_white_suffix (chars s)) as [a Ha].
  destruct (drop_white_suffix (rev (drop_white (chars s)))) as [b Hb].
  exists a, (rev (drop_white (rev (drop_white (chars s))))), (rev b). split; [|done].
  rewrite <- rev_app_distr, <- Hb, rev_involutive. exact Ha.
Qed.

(** No white space at either end. *)
Definition clean (s : string) : Prop :=
  (forall c, head (chars s) = Some c -> is_white c = false) /\ (forall c, last (chars s) = Some c -> is_white c = false).

Lemma drop_white_id l : (forall c, head l = Some c -> is_white c = false) -> drop_white l = l.
Proof. destruct l as [|c l]; [done|]. intros Hc. cbn. by rewrite (Hc c). Qed.

Lemma clean_trim s : clean s -> str_trim s = s.
Proof.
  intros [Hh Hl]. unfold str_trim. rewrite (drop_white_id (chars s)) by done.
  rewrite drop_white_id; [rewrite rev_involutive; apply of_chars_chars|].
  intros c Hc. apply Hl. rewrite <- (rev_involutive (chars s)). destruct (rev (chars s)) as [|d l]; [done|].
  injection Hc as ->. cbn [rev]. by rewrite last_snoc.
Qed.

Definition starts_with (s p : string) : bool := String.prefix p s.

Definition rev_string (s : string) : string := string_of_list_ascii (rev (list_ascii_of_string s)).
Definition ends_with (s p : string) : bool := String.prefix (rev_string p) (rev_string s).

Definition contains (s p : string) : bool := if String.index 0 p s then true else false.

(** [str::split] at a character, [str::join]. *)
Fixpoint split_at (sep : ascii) (l : list ascii) : list (list ascii) :=
  match l with
  | [] => [[]]
  | c :: r => if bool_decide (c = sep) then [] :: split_at sep r
              else match split_at sep r with
                   | w :: ws => (c :: w) :: ws
                   | [] => [[c]]
                   end
  end.

Definition str_split (sep : ascii) (s : string) : list string :=
  string_of_list_ascii <$> split_at sep (list_ascii_of_string s).

Fixpoint join (sep : string) (l : list string) : string :=
  match l with
  | [] => ""
  | [w] => w
  | w :: ws => (w +:+ sep +:+ join sep ws)%string
  end.

(** [str::parse::<i64>]: a sign and at least one digit, an error past the width. *)
Definition parse_i64 (s : string) : option Z :=
  let '(neg, l) := take_sign (list_ascii_of_string s) in
  let '(n, k, rest) := take_digits 0 0 l in
  match rest with
  | [] => if k =? 0 then None else i64_checked (if neg then - n else n)
  | _ => None
  end.

Lemma parse_i64_range s v : parse_i64 s = Some v -> I64_MIN <= v <= I64_MAX.
Proof.
  unfold parse_i64. intros H. repeat case_match; simplify_eq.
  all: apply i64_checked_some in H; lia.
Qed.

(** [str::parse::<bool>] *)
Definition parse_bool (s : string) : option bool :=
  if bool_decide (s = "true") then Some true
  else if bool_decide (s = "false") then Some false else None.

(** ** IP addresses *)

(** An address as the number its octets make, the first one the highest. *)
Inductive ip_addr := V4 (a : Z) | V6 (a : Z).

#[export] Instance ip_addr_eq_dec : EqDecision ip_addr.
Proof. solve_decision. Defined.

Definition is_ipv4 (ip : ip_addr) : bool := match ip with V4 _ => true | V6 _ => false end.

(** [Ord]: version 4 first. *)
Definition ip_compare (a b : ip_addr) : comparison :=
  match a, b with
  | V4 a, V4 b | V6 a, V6 b => Z.compare a b
  | V4 _, V6 _ => Lt
  | V6 _, V4 _ => Gt
  end.

(** [Ipv6Addr::to_ipv4_mapped]: [::ffff:a.b.c.d]. *)
Definition to_ipv4_mapped (a : Z) : option Z :=
  if Z.shiftr a 32 =? 65535 then Some (a mod 2 ^ 32) else None.

Definition ip_wf (ip : ip_addr) : Prop :=
  match ip with V4 a => 0 <= a < 2 ^ 32 | V6 a => 0 <= a < 2 ^ 128 end.

(** *** Parsing: what is read and what is left, or nothing read *)

Definition Parser (A : Type) := list ascii -> option (A * list ascii).

Definition given_char (c : ascii) : Parser unit := fun l =>
  match l with d :: r => if bool_decide (c = d) then Some (tt, r) else None | [] => None end.

Definition to_digit (radix : Z) (c : ascii) : option Z :=
  let n := code c in
  let d := if (48 <=? n) && (n <=? 57) then n - 48
           else if (97 <=? n) && (n <=? 122) then n - 87
           else if (65 <=? n) && (n <=? 90) then n - 55 else radix in
  if d <? radix then Some d else None.

(** The digits of [read_number]: an error past [limit] or [max_digits]. *)
Fixpoint number_loop (radix limit max_digits : Z) (result count : Z) (l : list ascii) :
    option (Z * Z * list ascii) :=
  match l with
  | c :: r =>
      match to_digit radix c with
      | Some d =>
          let result := result * radix + d in
          let count := count + 1 in
          if (limit <? result) || (max_digits <? count) then None
          else number_loop radix limit max_digits result count r
      | None => Some (result, count, l)
      end
  | [] => Some (result, count, [])
  end.

Definition read_number (radix limit max_digits : Z) (allow_zero_prefix : bool) : Parser Z := fun l =>
  match number_loop radix limit max_digits 0 0 l with
  | Some (result, count, rest) =>
      if count =? 0 then None
      else if negb allow_zero_prefix && bool_decide (head l = Some "0"%char) && (1 <? count) then None
      else Some (result, rest)
  | None => None
  end.

Definition separated {A} (sep : ascii) (index : nat) (p : Parser A) : Parser A := fun l =>
  match index with
  | O => p l
  | _ => match given_char sep l with Some (_, r) => p r | None => None end
  end.

Fixpoint octets (count : nat) (index : nat) (acc : Z) : Parser Z := fun l =>
  match count with
  | O => Some (acc, l)
  | S count =>
      match separated "." index (read_number 10 255 3 false) l with
      | Some (o, r) => octets count (S index) (acc * 256 + o) r
      | None => None
      end
  end.

Definition read_ipv4_addr : Parser Z := octets 4 0 0.

(** [read_groups] with [fuel] slots left out of [limit]: the groups read and
    whether a version 4 address ended them. *)
Fixpoint read_groups (fuel : nat) (index : nat) (acc : list Z) (l : list ascii) : list Z * bool * list ascii :=
  match fuel with
  | O => (acc, false, l)
  | S fuel =>
      let v4 := match fuel with
                | O => None
                | _ => separated ":" index read_ipv4_addr l
                end in
      match v4 with
      | Some (a, r) => (acc ++ [a / 65536; a mod 65536], true, r)
      | None =>
          match separated ":" index (read_number 16 65535 4 true) l with
          | Some (g, r) => read_groups fuel (S index) (acc ++ [g]) r
          | None => (acc, false, l)
          end
      end
  end.

Definition of_groups (l : list Z) : Z := foldl (fun acc g => acc * 65536 + g) 0 l.

Definition read_ipv6_addr : Parser Z := fun l =>
  let '(hd, head_ipv4, r) := read_groups 8 0 [] l in
  if (length hd =? 8)%nat then Some (of_groups hd, r)
  else if head_ipv4 then None
  else match given_char ":" r with
       | Some (_, r) =>
           match given_char ":" r with
           | Some (_, r) =>
               let '(tl, _, r) := read_groups (7 - length hd) 0 [] r in
               Some (of_groups (hd ++ repeat 0 (8 - length hd - length tl) ++ tl), r)
           | None => None
           end
       | None => None
       end.

Definition whole {A} (p : Parser A) (s : string) : option A :=
  match p (list_ascii_of_string s) with
  | Some (a, []) => Some a
  | _ => None
  end.

(** [str::parse::<Ipv4Addr>], which refuses more than 15 bytes unread, and
    [str::parse::<IpAddr>]. *)
Definition parse_ipv4 (s : string) : option Z :=
  if (15 <? length (list_ascii_of_string s))%nat then None else whole read_ipv4_addr s.

Definition parse_ip (s : string) : option ip_addr :=
  whole (fun l => match read_ipv4_addr l with
                  | Some (a, r) => Some (V4 a, r)
                  | None => match read_ipv6_addr l with
                            | Some (a, r) => Some (V6 a, r)
                            | None => None
                            end
                  end) s.

(** *** Printing *)

Definition hex_digit (d : Z) : string := bytes [Z.to_nat (if d <? 10 then 48 + d else 87 + d)].

(** [{:x}] of a 16-bit group. *)
Definition hex_group (g : Z) : string :=
  let ds := [g / 4096; g / 256 mod 16; g / 16 mod 16; g mod 16] in
  let fix strip l := match l with d :: (_ :: _) as r => if d =? 0 then strip r else l | _ => l end in
  of_chars (hex_digit <$> strip ds).

Definition show_ipv4 (a : Z) : string :=
  join "." (pretty <$> [a / 16777216; a / 65536 mod 256; a / 256 mod 256; a mod 256]).

Definition groups_of (a : Z) : list Z := (fun i => Z.shiftr a (16 * (7 - Z.of_nat i)) mod 65536) <$> seq 0 8.

(** The first longest run of zero groups, as its start and length. *)
Fixpoint zero_run (l : list Z) (i : nat) (start len : nat) (longest : nat * nat) : nat * nat :=
  match l with
  | [] => longest
  | g :: l =>
      if g =? 0 then
        let start := if (len =? 0)%nat then i else start in
        let len := S len in
        zero_run l (S i) start len (if (longest.2 <? len)%nat then (start, len) else longest)
      else zero_run l (S i) 0 0 longest
  end.

Definition show_ipv6 (a : Z) : string :=
  match to_ipv4_mapped a with
  | Some v4 => ("::ffff:" +:+ show_ipv4 v4)%string
  | None =>
      let gs := groups_of a in
      let '(start, len) := zero_run gs 0 0 0 (0%nat, 0%nat) in
      if (1 <? len)%nat then
        (join ":" (hex_group <$> take start gs) +:+ "::" +:+ join ":" (hex_group <$> drop (start + len) gs))%string
      else join ":" (hex_group <$> gs)
  end.

Definition show_ip (ip : ip_addr) : string :=
  match ip with V4 a => show_ipv4 a | V6 a => show_ipv6 a end.

Example parse_ip_v4 : parse_ip "192.0.2.1" = Some (V4 3221225985) /\ parse_ip "01.2.3.4" = None
  /\ parse_ip "1.2.3.4.5" = None /\ parse_ip "256.1.1.1" = None.
Proof. vm_compute. done. Qed.

Example parse_ip_v6 :
  parse_ip "2001:db8::1" = Some (V6 (8193 * 2 ^ 112 + 3512 * 2 ^ 96 + 1))
  /\ parse_ip "::ffff:1.2.3.4" = Some (V6 (65535 * 2 ^ 32 + 16909060))
  /\ parse_ip "::" = Some (V6 0) /\ parse_ip "2001:db8:::1" = None /\ parse_ip "fc00::g" = None.
Proof. vm_compute. done. Qed.

Example show_ip_samples :
  show_ip (V4 3221225985) = "192.0.2.1" /\ show_ip (V6 0) = "::" /\ show_ip (V6 1) = "::1"
  /\ show_ip (V6 (8193 * 2 ^ 112 + 3512 * 2 ^ 96 + 1)) = "2001:db8::1"
  /\ show_ip (V6 (65535 * 2 ^ 32 + 16909060)) = "::ffff:1.2.3.4".
Proof. vm_compute. done. Qed.

Example trim_text : str_trim (bytes [227; 128; 128; 32; 97; 32; 98; 9; 194; 160]%nat) = "a b".
Proof. vm_compute. done. Qed.
