(* ===== verification/Utf8.v ===== *)
(** UTF-8 as the language's library decodes it: the chunks of a byte sequence,
    [str::from_utf8] and [String::from_utf8_lossy]. *)
From Stdlib Require Import ZArith Lia String Ascii.
From stdpp Require Import prelude strings.
From S2P Require Import Prelude F64 Text.
Local Open Scope list_scope.
Local Open Scope Z_scope.

Definition between (lo hi n : Z) : bool := (lo <=? n) && (n <=? hi).

(** The second byte after a first byte [n] of three or four. *)
Definition second_ok (n : Z) (d : ascii) : bool :=
  if n =? 224 then between 160 191 (code d)
  else if n =? 237 then between 128 159 (code d)
  else if n =? 240 then between 144 191 (code d)
  else if n =? 244 then between 128 143 (code d)
  else continuation d.

(** Whether a character starts here, with its bytes, or else the bytes that
    are invalid together. *)
Definition utf8_step (c : ascii) (r : list ascii) : bool * nat :=
  let n := code c in
  if n <? 128 then (true, 1%nat)
  else if between 194 223 n then
    match r with d :: _ => if continuation d then (true, 2%nat) else (false, 1%nat) | [] => (false, 1%nat) end
  else if between 224 239 n then
    match r with
    | d :: r => if second_ok n d then
                  match r with e :: _ => if continuation e then (true, 3%nat) else (false, 2%nat) | [] => (false, 2%nat) end
                else (false, 1%nat)
    | [] => (false, 1%nat)
    end
  else if between 240 244 n then
    match r with
    | d :: r =>
        if second_ok n d then
          match r with
          | e :: r => if continuation e then
                        match r with f :: _ => if continuation f then (true, 4%nat) else (false, 3%nat)
                                   | [] => (false, 3%nat) end
                      else (false, 2%nat)
          | [] => (false, 2%nat)
          end
        else (false, 1%nat)
    | [] => (false, 1%nat)
    end
  else (false, 1%nat).

(** U+FFFD *)
Definition replacement : list ascii := ascii_of_nat <$> [239; 191; 189]%nat.

(** Each step takes a byte at least: the length is fuel enough. *)
Fixpoint lossy_loop (fuel : nat) (l : list ascii) : list ascii :=
  match fuel, l with
  | S fuel, c :: r =>
      let '(ok, n) := utf8_step c r in
      (if ok then take n l else replacement) ++ lossy_loop fuel (drop n l)
  | _, _ => []
  end.
Definition from_utf8_lossy (l : list ascii) : string := string_of_list_ascii (lossy_loop (length l) l).

Fixpoint valid_loop (fuel : nat) (l : list ascii) : bool :=
  match fuel, l with
  | S fuel, c :: r => let '(ok, n) := utf8_step c r in ok && valid_loop fuel (drop n l)
  | _, _ => true
  end.
Definition utf8_valid (l : list ascii) : bool := valid_loop (length l) l.

(** [str::from_utf8] *)
Definition from_utf8 (l : list ascii) : option string :=
  if utf8_valid l then Some (string_of_list_ascii l) else None.

Lemma step_pos c r : (1 <= (utf8_step c r).2 <= S (length r))%nat.
Proof. unfold utf8_step. repeat case_match; cbn; lia. Qed.

Lemma lossy_fuel n m l : (length l <= n)%nat -> (length l <= m)%nat -> lossy_loop n l = lossy_loop m l.
Proof.
  revert m l. induction n as [|n IH]; intros [|m] [|c r] Hn Hm; cbn in Hn, Hm; try done; try lia.
  cbn [lossy_loop]. pose proof (step_pos c r) as Hs. destruct (utf8_step c r) as [ok k]. cbn in Hs.
  f_equal. apply IH; rewrite length_drop; cbn; lia.
Qed.

Lemma lossy_step c r : lossy_loop (S (length r)) (c :: r)
  = (if (utf8_step c r).1 then take (utf8_step c r).2 (c :: r) else replacement)
    ++ lossy_loop (length (drop (utf8_step c r).2 (c :: r))) (drop (utf8_step c r).2 (c :: r)).
Proof.
  cbn [lossy_loop]. pose proof (step_pos c r) as Hs. destruct (utf8_step c r) as [ok k]. cbn in Hs |- *.
  f_equal. apply lossy_fuel; rewrite ?length_drop; cbn; lia.
Qed.

(** A text read as UTF-8 is the text. *)
Lemma lossy_valid l : utf8_valid l = true -> from_utf8_lossy l = string_of_list_ascii l.
Proof.
  unfold utf8_valid, from_utf8_lossy. intros Hv. f_equal.
  remember (length l) as n eqn:E. assert (Hn : (length l <= n)%nat) by lia. clear E.
  revert l Hn Hv. induction n as [|n IH]; intros [|c r] Hn Hv; cbn in Hn; try done; [lia|].
  cbn [lossy_loop valid_loop] in *. pose proof (step_pos c r) as Hs. destruct (utf8_step c r) as [ok k]. cbn in Hs.
  apply andb_prop in Hv as [-> Hv]. rewrite IH; [apply take_drop|rewrite length_drop; cbn; lia|done].
Qed.

Lemma valid_fuel n m l : (length l <= n)%nat -> (length l <= m)%nat -> valid_loop n l = valid_loop m l.
Proof.
  revert m l. induction n as [|n IH]; intros [|m] [|c r] Hn Hm; cbn in Hn, Hm; try done; try lia.
  cbn [valid_loop]. pose proof (step_pos c r) as Hs. destruct (utf8_step c r) as [ok k]. cbn in Hs.
  f_equal. apply IH; rewrite length_drop; cbn; lia.
Qed.

(** A character that is whole stays so, whatever follows. *)
Lemma step_app c r k : (utf8_step c r).1 = true -> utf8_step c (r ++ k) = utf8_step c r.
Proof.
  unfold utf8_step. destruct r as [|a r]; [cbn [app]; repeat case_match; done|].
  destruct r as [|b r]; [cbn [app]; repeat case_match; done|].
  destruct r as [|d r]; cbn [app]; repeat case_match; done.
Qed.

Lemma valid_app l k : utf8_valid l = true -> utf8_valid k = true -> utf8_valid (l ++ k) = true.
Proof.
  unfold utf8_valid. intros Hl Hk. remember (length l) as n eqn:E. assert (Hn : (length l <= n)%nat) by lia.
  clear E. rewrite (valid_fuel (length (l ++ k)) (n + length k)) by (rewrite length_app; lia).
  revert l Hl Hn. induction n as [|n IH]; intros [|c r] Hl Hn; cbn in Hn; try lia; cbn [app].
  - exact Hk.
  - rewrite (valid_fuel _ (length k)) by lia. exact Hk.
  - cbn [valid_loop] in *. change (S n + length k)%nat with (S (n + length k)). cbn [valid_loop].
    pose proof (step_pos c r) as Hs. pose proof (step_app c r k) as Ha. destruct (utf8_step c r) as [ok m]. cbn in Hs, Ha.
    apply andb_prop in Hl as [-> Hl]. rewrite Ha by done. cbn [andb].
    change (c :: r ++ k) with ((c :: r) ++ k). rewrite drop_app_le by (cbn; lia). apply IH; [done|].
    rewrite length_drop. cbn. lia.
Qed.

Example lossy_demo : from_utf8_lossy (ascii_of_nat <$> [97; 226; 130; 98; 255; 195; 169]%nat)
  = string_of_list_ascii (ascii_of_nat <$> [97; 239; 191; 189; 98; 239; 191; 189; 195; 169]%nat).
Proof. reflexivity. Qed.
