(* ===== verification/RollingQueue.v ===== *)
(** Rotating work queue ([src/utils/rolling_queue.rs]): the item in front is
    kept apart from the waiting queue, [roll] moves the front to the back. *)
From Stdlib Require Import ZArith Lia.
From stdpp Require Import prelude.
From S2P Require Import Prelude.

Section RollingQueue.
Context {T : Type}.

(** [struct RollingQueue<T>] *)
Record RollingQueue := mkRollingQueue {
  item_queue : list T;
  current_item : option T;
  count : Z;
}.

Definition new : RollingQueue := mkRollingQueue [] None 0.

Definition len (q : RollingQueue) : Z :=
  (zlen (item_queue q) + match current_item q with Some _ => 1 | None => 0 end)%Z.

Definition is_empty (q : RollingQueue) : bool :=
  match current_item q, item_queue q with None, [] => true | _, _ => false end.

Definition append (q : RollingQueue) (one : T) : RollingQueue :=
  match current_item q with
  | Some _ => mkRollingQueue (item_queue q ++ [one]) (current_item q) (count q)
  | None => mkRollingQueue (item_queue q) (Some one) (count q)
  end.

Definition cur (q : RollingQueue) : option T := current_item q.

(** [old.expect("cur_s is empty")] is the panic. *)
Definition roll (q : RollingQueue) : outcome RollingQueue :=
  match item_queue q with
  | [] => Ret q
  | top :: rest =>
      match current_item q with
      | Some old => Ret (mkRollingQueue (rest ++ [old]) (Some top) (count q))
      | None => Panic
      end
  end.

(** [count.is_multiple_of(roll_times)]: zero is only a multiple of zero. *)
Definition is_multiple_of (a b : Z) : bool :=
  if (b =? 0)%Z then (a =? 0)%Z else (a mod b =? 0)%Z.

Definition auto_roll (q : RollingQueue) (roll_times : Z) : outcome RollingQueue :=
  let c := wrap_add 64 (count q) 1 in
  let q1 := mkRollingQueue (item_queue q) (current_item q) c in
  if is_multiple_of c roll_times then
    match roll q1 with
    | Ret q2 =>
        Ret (if (100000000 <? c)%Z
             then mkRollingQueue (item_queue q2) (current_item q2) 0 else q2)
    | Panic => Panic
    end
  else Ret q1.

(** The items in rotation order, the current one first. *)
Definition items (q : RollingQueue) : list T :=
  match current_item q with Some x => x :: item_queue q | None => item_queue q end.

(** A queue holds waiting items only behind a current one. *)
Definition wf (q : RollingQueue) : Prop := current_item q = None -> item_queue q = [].

Lemma new_wf : wf new.
Proof. done. Qed.

Lemma append_spec q x : wf q -> wf (append q x) /\ items (append q x) = items q ++ [x].
Proof.
  unfold wf, append, items. destruct (current_item q); simpl; intros H; [done|].
  rewrite H by done. done.
Qed.

Lemma len_items q : len q = zlen (items q).
Proof. unfold len, items. destruct (current_item q); autorewrite with wp_len; lia. Qed.

(** One [roll] rotates the items by one place. *)
Definition rotate1 (l : list T) : list T :=
  match l with [] => [] | x :: r => r ++ [x] end.

Lemma roll_spec q :
  wf q -> exists q', roll q = Ret q' /\ wf q' /\ items q' = rotate1 (items q)
                     /\ count q' = count q.
Proof.
  unfold wf, roll, items. destruct q as [l [c|] n]; simpl; intros H.
  - destruct l as [|t l]; eexists; split; eauto; simpl; done.
  - rewrite H by done. eexists; split; eauto; done.
Qed.

(** [auto_roll] called [n] times in a row. *)
Fixpoint auto_rolls (n : nat) (k : Z) (q : RollingQueue) : outcome RollingQueue :=
  match n with
  | O => Ret q
  | S n => obind (auto_rolls n k q) (fun q' => auto_roll q' k)
  end.

Lemma is_multiple_of_spec a b : (0 < b)%Z -> is_multiple_of a b = (a mod b =? 0)%Z.
Proof. intros. unfold is_multiple_of. destruct (Z.eqb_spec b 0); [lia|done]. Qed.

(** The counter's place in its period, and the quotient, of one more call. *)
Lemma div_mod_succ n k :
  (0 < k)%Z ->
  (((n + 1) mod k = 0 /\ (n + 1) / k = n / k + 1) \/
   ((n + 1) mod k = n mod k + 1 /\ (n + 1) / k = n / k /\ n mod k + 1 <> 0 /\ n mod k + 1 < k))%Z.
Proof.
  intros Hk. pose proof (Z.div_mod n k ltac:(lia)) as Hn.
  pose proof (Z.mod_pos_bound n k Hk) as Hb.
  destruct (decide (n mod k + 1 = k)%Z) as [He|He]; [left|right].
  - assert (n + 1 = k * (n / k + 1) + 0)%Z as E by lia.
    split; symmetry; [apply (Z.mod_unique _ _ (n / k + 1))|apply (Z.div_unique _ _ _ 0)]; lia.
  - assert (n + 1 = k * (n / k) + (n mod k + 1))%Z as E by lia.
    assert ((n + 1) mod k = n mod k + 1)%Z as -> by
      (symmetry; apply (Z.mod_unique _ _ (n / k)); lia).
    assert ((n + 1) / k = n / k)%Z as -> by (symmetry; apply (Z.div_unique _ _ _ (n mod k + 1)); lia).
    lia.
Qed.

(** The counter's last multiple of the period stays below the reset mark. *)
Definition count_ok (q : RollingQueue) (k : Z) : Prop :=
  (0 <= count q /\ count q - count q mod k <= 100000000)%Z.

(** One call: the counter moves on in its period, and the items turn exactly
    when the period ends. *)
Lemma auto_roll_step q k :
  wf q -> (0 < k <= 2 ^ 63)%Z -> count_ok q k ->
  exists q', auto_roll q k = Ret q' /\ wf q' /\ count_ok q' k
    /\ (count q' mod k = (count q + 1) mod k)%Z
    /\ items q' = if ((count q + 1) mod k =? 0)%Z then rotate1 (items q) else items q.
Proof.
  intros Hwf Hk [Hc0 Hc]. unfold auto_roll.
  pose proof (Z.mod_pos_bound (count q) k ltac:(lia)) as Hb.
  pose proof (div_mod_succ (count q) k ltac:(lia)) as Hd.
  rewrite (wrap_add_exact 64) by lia. rewrite is_multiple_of_spec by lia.
  set (q1 := mkRollingQueue (item_queue q) (current_item q) (count q + 1)).
  destruct (roll_spec q1 Hwf) as (q2 & -> & Hwf2 & Hi & Hcq). cbn in Hcq. unfold count_ok.
  destruct (Z.eqb_spec ((count q + 1) mod k) 0) as [E|E].
  - eexists; split; [done|]. destruct (Z.ltb_spec 100000000 (count q + 1)).
    + split; [done|]. cbn [count]. rewrite E, Z.mod_0_l by lia. split; [lia|]. by split.
    + split; [done|]. rewrite Hcq, E. split; [lia|]. by split.
  - exists q1. split; [done|]. split; [done|]. unfold q1; cbn [count]. split; [lia|]. by split.
Qed.

(** With a positive period the queue never panics, and [n] calls of
    [auto_roll] on a well-formed queue whose counter is zero rotate its items
    by exactly [n / roll_times] places, across every reset of the counter. *)
Theorem auto_roll_period (q : RollingQueue) (k : Z) (n : nat)
  (Hwf : wf q) (Hk : (0 < k <= 2 ^ 63)%Z) (H0 : count q = 0%Z) :
  exists q', auto_rolls n k q = Ret q' /\ wf q'
    /\ items q' = Nat.iter (Z.to_nat (Z.of_nat n / k)) rotate1 (items q).
Proof.
  assert (exists q', auto_rolls n k q = Ret q' /\ wf q' /\ count_ok q' k
    /\ (count q' mod k = Z.of_nat n mod k)%Z
    /\ items q' = Nat.iter (Z.to_nat (Z.of_nat n / k)) rotate1 (items q)) as H; [|naive_solver].
  induction n as [|n (q' & IH & Hwf' & Hok & Hm & Hi)].
  - exists q. rewrite Zdiv_0_l. unfold count_ok. rewrite H0, Z.mod_0_l by lia. by split_and!.
  - destruct (auto_roll_step q' k Hwf' Hk Hok) as (q2 & Hr & Hwf2 & Hok2 & Hm2 & Hi2).
    exists q2. cbn [auto_rolls]. rewrite IH. cbn. split_and!; try done.
    + rewrite Hm2, <- Zplus_mod_idemp_l, Hm, Zplus_mod_idemp_l. f_equal; lia.
    + rewrite Hi2, Hi, <- Zplus_mod_idemp_l, Hm, Zplus_mod_idemp_l.
      replace (Z.of_nat (S n)) with (Z.of_nat n + 1)%Z by lia.
      pose proof (Z.div_pos (Z.of_nat n) k ltac:(lia) ltac:(lia)) as Hp.
      destruct (div_mod_succ (Z.of_nat n) k ltac:(lia)) as [[-> ->]|(-> & -> & Hz & _)].
      * rewrite Z2Nat.inj_add by lia. rewrite Nat.add_comm. done.
      * by rewrite (proj2 (Z.eqb_neq _ _) Hz).
Qed.

End RollingQueue.
Arguments RollingQueue : clear implicits.

Lemma auto_roll_period_witness :
  let q := append (append (append new 1%nat) 2%nat) 3%nat in
  exists q', auto_rolls 5 2 q = Ret q' /\ wf q' /\ items q' = [3; 1; 2]%nat.
Proof.
  apply (auto_roll_period (append (append (append new 1%nat) 2%nat) 3%nat) 2 5);
    [discriminate | by split | reflexivity].
Defined.
