(* ===== verification/RateLimit.v ===== *)
(** Rate limiting ([src/runtime/actor/limit.rs]).

    [RateLimiter] is the per-task deadline/tick limiter, [SourceRateLimiter]
    the limiter all source workers share, [SourceRateLease] the grant a worker
    keeps locally.  Instants and durations are nanoseconds in [Z]; a clock
    read is an argument. *)
From Stdlib Require Import ZArith Lia.
From stdpp Require Import prelude.
From S2P Require Import Prelude.

Local Open Scope Z_scope.

(** ** RateLimiter *)

Definition U128_MAX : Z := 340282366920938463463374607431768211455.

(** [Duration::MAX]: [u64::MAX] seconds and 999999999 ns. *)
Definition DURATION_MAX : Z := U64_MAX * 1000000000 + 999999999.

Record RateLimiter := mkRateLimiter {
  limit_ns : Z;
  next_deadline : Z;
  run_cnt : Z;
  unit_cnt : Z;
}.

Definition RateLimiter_default (now : Z) : RateLimiter :=
  mkRateLimiter 0 now 0 1.

Definition RateLimiter_new (sec_count unit now : Z) : RateLimiter :=
  let limit :=
    if sec_count =? 0 then 0
    else (sat_mul U128_MAX 1000000000 unit / sec_count) mod 2 ^ 64 in
  let deadline := if limit =? 0 then now else now + limit in
  mkRateLimiter limit deadline 0 unit.

Definition RateLimiter_new_or_default (sec_count : option Z) (unit now : Z) : RateLimiter :=
  match sec_count with
  | Some limit => RateLimiter_new limit unit now
  | None => RateLimiter_default now
  end.

Definition rec_beg (l : RateLimiter) : RateLimiter :=
  mkRateLimiter (limit_ns l) (next_deadline l) (wrap_add 64 (run_cnt l) (unit_cnt l)) (unit_cnt l).

Definition set_deadline (l : RateLimiter) (d : Z) : RateLimiter :=
  mkRateLimiter (limit_ns l) d (run_cnt l) (unit_cnt l).

(** Periods missed at [now], as the code computes them before the cast. *)
Definition missed_periods (l : RateLimiter) (now : Z) : Z :=
  (now - next_deadline l) / limit_ns l + 1.

(** Returns the time to wait and the limiter with its next deadline; the
    number of missed periods is cast to [u32]. *)
Definition limit_speed_time (l : RateLimiter) (now : Z) : Z * RateLimiter :=
  if limit_ns l =? 0 then (0, l)
  else
    let deadline := next_deadline l in
    if now <? deadline then
      (deadline - now, set_deadline l (deadline + limit_ns l))
    else
      let missed := missed_periods l now in
      let advance := sat_mul DURATION_MAX (limit_ns l) (missed mod 2 ^ 32) in
      (0, set_deadline l (deadline + advance)).

(** ** SourceRateLimiter *)

Inductive SourceRateMode := Auto | Fixed.

#[export] Instance SourceRateMode_eq_dec : EqDecision SourceRateMode.
Proof. solve_decision. Defined.

Record SourceRateLimiter := mkSourceRateLimiter {
  mode : SourceRateMode;
  rate_per_sec : Z;
  lease_events : Z;
  state_next_deadline : Z;
}.

Record SourceRateLease := mkSourceRateLease {
  limiter : SourceRateLimiter;
  remaining_events : Z;
}.

(** The environment variables the limiter reads, as parsed by the code:
    [WP_SOURCE_RATE_LIMIT_MODE] is [off], [WP_SOURCE_AUTO_INITIAL_RPS] and
    [WP_SOURCE_RATE_LEASE_EVENTS] as [usize] when they parse. *)
Record LimitEnv := mkLimitEnv {
  mode_off : bool;
  auto_initial_rps : option Z;
  lease_override : option Z;
}.

Definition auto_initial_rate_per_sec (env : LimitEnv) : Z :=
  default 100000 (auto_initial_rps env).

Definition default_lease_events (env : LimitEnv) (rate : Z) : Z :=
  match lease_override env with
  | Some value => if 0 <? value then value
                  else default 1 (clamp (rate / 200) 1 4096)
  | None => default 1 (clamp (rate / 200) 1 4096)
  end.

Definition with_mode (env : LimitEnv) (m : SourceRateMode) (rate now : Z) : SourceRateLimiter :=
  mkSourceRateLimiter m rate (default_lease_events env rate) now.

Definition SourceRateLimiter_new (env : LimitEnv) (rate now : Z) : option SourceRateLimiter :=
  if (rate =? 0) && mode_off env then None
  else
    let m := if rate =? 0 then Auto else Fixed in
    let initial := if decide (m = Auto) then auto_initial_rate_per_sec env else rate in
    Some (with_mode env m initial now).

Definition is_auto (l : SourceRateLimiter) : bool := bool_decide (mode l = Auto).

Definition current_rate_per_sec (l : SourceRateLimiter) : Z := rate_per_sec l.

Definition set_rate_per_sec (env : LimitEnv) (l : SourceRateLimiter) (rate : Z) : SourceRateLimiter :=
  mkSourceRateLimiter (mode l) rate (default_lease_events env rate) (state_next_deadline l).

Definition new_lease (l : SourceRateLimiter) : SourceRateLease := mkSourceRateLease l 0.

Definition duration_for (l : SourceRateLimiter) (events : Z) : option Z :=
  if rate_per_sec l =? 0 then None
  else clamp (sat_mul U128_MAX 1000000000 events / rate_per_sec l) 1 U64_MAX.

(** The critical section of [wait_for_events]: the wait the caller sleeps and
    the limiter with its advanced deadline. *)
Definition wait_for_events (l : SourceRateLimiter) (events now : Z) : Z * SourceRateLimiter :=
  if events =? 0 then (0, l)
  else match duration_for l events with
  | None => (0, l)
  | Some duration =>
      let wait := Z.max 0 (state_next_deadline l - now) in
      let base := if wait =? 0 then now else state_next_deadline l in
      (wait, mkSourceRateLimiter (mode l) (rate_per_sec l) (lease_events l) (base + duration))
  end.

(** ** SourceRateLease *)

Definition is_fixed (s : SourceRateLease) : bool := bool_decide (mode (limiter s) = Fixed).

(** The [while required > self.remaining_events] loop; [clock i] is the
    instant read at its [i]-th turn.  Returns the grants it took. *)
Fixpoint consume_loop (fuel : nat) (clock : nat -> Z) (i : nat) (s : SourceRateLease)
    (required : Z) : option (SourceRateLease * Z * list Z) :=
  match fuel with
  | O => None
  | S fuel =>
      if remaining_events s <? required then
        let required := required - remaining_events s in
        let grant := Z.max (lease_events (limiter s)) required in
        let '(_, lim) := wait_for_events (limiter s) grant (clock i) in
        match consume_loop fuel clock (S i) (mkSourceRateLease lim grant) required with
        | Some (s', r, gs) => Some (s', r, grant :: gs)
        | None => None
        end
      else Some (s, required, [])
  end.

Definition consume (fuel : nat) (clock : nat -> Z) (s : SourceRateLease) (events : Z)
    : option (SourceRateLease * list Z) :=
  if events =? 0 then Some (s, [])
  else match consume_loop fuel clock 0 s events with
  | Some (s', required, gs) =>
      Some (mkSourceRateLease (limiter s') (remaining_events s' - required), gs)
  | None => None
  end.

(** ** Runs

    One call of [limit_speed_time] per element of [idle]: the task calls again
    [idle] nanoseconds after the wait of the previous call has elapsed.
    [departures] lists the instants at which the waits end. *)
Fixpoint departures (l : RateLimiter) (now : Z) (idle : list Z) : list Z :=
  match idle with
  | [] => []
  | d :: idle =>
      let t := now + d in
      let '(w, l') := limit_speed_time l t in
      (t + w) :: departures l' (t + w) idle
  end.

(** The instants of the calls stay below 2^32 periods behind the deadline. *)
Fixpoint casts_fit (l : RateLimiter) (now : Z) (idle : list Z) : Prop :=
  match idle with
  | [] => True
  | d :: idle =>
      let t := now + d in
      let '(w, l') := limit_speed_time l t in
      missed_periods l t < 2 ^ 32 /\ casts_fit l' (t + w) idle
  end.

(** Requests granted by the shared limiter, in lock order: events asked for
    and the instant read in the critical section. *)
Fixpoint releases (l : SourceRateLimiter) (reqs : list (Z * Z)) : list Z * SourceRateLimiter :=
  match reqs with
  | [] => ([], l)
  | (events, now) :: reqs =>
      let '(w, l') := wait_for_events l events now in
      let '(rs, l'') := releases l' reqs in
      ((now + w) :: rs, l'')
  end.

Fixpoint sum_events (reqs : list (Z * Z)) : Z :=
  match reqs with [] => 0 | (e, _) :: reqs => e + sum_events reqs end.

(** ** Lemmas *)

Lemma limit_speed_time_limit l now : limit_ns (limit_speed_time l now).2 = limit_ns l.
Proof. unfold limit_speed_time. repeat case_match; reflexivity. Qed.

Lemma limit_speed_time_wait l now :
  0 < limit_ns l ->
  now + (limit_speed_time l now).1 = Z.max now (next_deadline l).
Proof.
  intros H. unfold limit_speed_time. destruct (Z.eqb_spec (limit_ns l) 0); [lia|].
  destruct (Z.ltb_spec now (next_deadline l)); simpl; lia.
Qed.

(** The next deadline: one period on when the caller was early, the first
    deadline of the grid after [now] when it was late. *)
Lemma limit_speed_time_deadline l now :
  0 < limit_ns l <= 2 ^ 61 -> missed_periods l now < 2 ^ 32 ->
  exists k, 1 <= k /\ next_deadline (limit_speed_time l now).2 = next_deadline l + k * limit_ns l
       /\ Z.max now (next_deadline l) < next_deadline (limit_speed_time l now).2
       /\ (k = 1 \/ next_deadline (limit_speed_time l now).2 - limit_ns l <= now).
Proof.
  intros [Hp Hm] Hc. unfold limit_speed_time. destruct (Z.eqb_spec (limit_ns l) 0); [lia|].
  destruct (Z.ltb_spec now (next_deadline l)) as [Hlt|Hge]; simpl.
  - exists 1. lia.
  - unfold missed_periods in *.
    pose proof (Z.div_mod (now - next_deadline l) (limit_ns l) ltac:(lia)) as E.
    pose proof (Z.mod_pos_bound (now - next_deadline l) (limit_ns l) ltac:(lia)).
    assert (0 <= (now - next_deadline l) / limit_ns l) by (apply Z.div_pos; lia).
    exists ((now - next_deadline l) / limit_ns l + 1).
    rewrite (Z.mod_small _ (2 ^ 32)) by lia.
    unfold sat_mul. rewrite Z.min_r.
    + repeat split; nia.
    + assert (limit_ns l * ((now - next_deadline l) / limit_ns l + 1) <= 2 ^ 61 * 2 ^ 32) by nia.
      unfold DURATION_MAX, U64_MAX. lia.
Qed.

Lemma wait_for_events_spec l e now :
  e <> 0 -> rate_per_sec l <> 0 ->
  exists dur, duration_for l e = Some dur /\ 1 <= dur /\
    now + (wait_for_events l e now).1 = Z.max now (state_next_deadline l) /\
    (wait_for_events l e now).2 =
      mkSourceRateLimiter (mode l) (rate_per_sec l) (lease_events l)
        (Z.max now (state_next_deadline l) + dur).
Proof.
  intros He Hr. unfold wait_for_events, duration_for.
  destruct (Z.eqb_spec (rate_per_sec l) 0); [lia|]. destruct (Z.eqb_spec e 0); [lia|].
  destruct (clamp_spec (sat_mul U128_MAX 1000000000 e / rate_per_sec l) 1 U64_MAX)
    as (y & -> & Hy); [done|].
  exists y. repeat split; [lia|simpl; lia|]. simpl. f_equal.
  destruct (Z.eqb_spec (Z.max 0 (state_next_deadline l - now)) 0); lia.
Qed.

(** The floor of [duration_for] costs less than one nanosecond per grant. *)
Lemma duration_for_lower l e dur :
  0 < rate_per_sec l -> 0 <= e -> 1000000000 * e <= rate_per_sec l * U64_MAX ->
  rate_per_sec l <= USIZE_MAX -> duration_for l e = Some dur ->
  1000000000 * e <= rate_per_sec l * (dur + 1).
Proof.
  intros Hr He Hb Hu. unfold duration_for, clamp, sat_mul.
  destruct (Z.eqb_spec (rate_per_sec l) 0); [lia|]. rewrite Z.min_r.
  2:{ etransitivity; [exact Hb|]. transitivity (USIZE_MAX * U64_MAX); [|by vm_compute].
      apply Z.mul_le_mono_nonneg_r; [by vm_compute|done]. }
  pose proof (Z.div_mod (1000000000 * e) (rate_per_sec l) ltac:(lia)) as E.
  pose proof (Z.mod_pos_bound (1000000000 * e) (rate_per_sec l) ltac:(lia)) as M.
  assert (1000000000 * e / rate_per_sec l <= U64_MAX) as U by (apply Z.div_le_upper_bound; lia).
  change (U64_MAX <? 1) with false. cbv iota.
  set (q := 1000000000 * e / rate_per_sec l) in *.
  destruct (Z.ltb_spec q 1); [|destruct (Z.ltb_spec U64_MAX q); [lia|]];
    intros [= <-]; rewrite E; nia.
Qed.

Lemma releases_mono l reqs :
  Forall (fun r => r.1 <> 0) reqs -> rate_per_sec l <> 0 ->
  state_next_deadline l <= state_next_deadline (releases l reqs).2.
Proof.
  revert l. induction reqs as [|[e now] reqs IH]; intros l Hf Hr; simpl; [lia|].
  apply Forall_cons in Hf as [He Hf]. simpl in He.
  destruct (wait_for_events_spec l e now) as (dur & _ & Hd & _ & Hl); [done..|].
  destruct (wait_for_events l e now) as [w l']. simpl in Hl. subst l'.
  specialize (IH (mkSourceRateLimiter (mode l) (rate_per_sec l) (lease_events l)
    (Z.max now (state_next_deadline l) + dur)) Hf Hr).
  destruct (releases _ reqs). simpl in *. lia.
Qed.

Lemma releases_cons l e now reqs :
  releases l ((e, now) :: reqs) =
  ((now + (wait_for_events l e now).1) :: (releases (wait_for_events l e now).2 reqs).1,
   (releases (wait_for_events l e now).2 reqs).2).
Proof. simpl. destruct (wait_for_events l e now). simpl. by destruct (releases _ _). Qed.

Lemma releases_budget l reqs :
  0 < rate_per_sec l <= USIZE_MAX ->
  Forall (fun r => 0 < r.1 /\ 1000000000 * r.1 <= rate_per_sec l * U64_MAX) reqs ->
  1000000000 * sum_events reqs
    <= rate_per_sec l * (state_next_deadline (releases l reqs).2 - state_next_deadline l + zlen reqs).
Proof.
  revert l. induction reqs as [|[e now] reqs IH]; intros l Hr Hf; [simpl; unfold zlen; simpl; nia|].
  apply Forall_cons in Hf as [[He Hb] Hf]. simpl in He, Hb.
  rewrite releases_cons. cbn [snd sum_events].
  destruct (wait_for_events_spec l e now) as (dur & Hdur & Hd & _ & Hl); [lia|lia|].
  rewrite Hl. apply duration_for_lower in Hdur; [|lia..].
  specialize (IH (mkSourceRateLimiter (mode l) (rate_per_sec l) (lease_events l)
    (Z.max now (state_next_deadline l) + dur)) Hr Hf).
  rewrite zlen_cons. cbn [rate_per_sec state_next_deadline] in IH. nia.
Qed.

Lemma consume_loop_enough fuel clock i s required :
  0 <= remaining_events s ->
  exists s' r gs, consume_loop (S (S fuel)) clock i s required = Some (s', r, gs) /\
    r <= remaining_events s' /\
    remaining_events s' - r = remaining_events s + foldr Z.add 0 gs - required /\
    (gs = [] \/ exists g, gs = [g] /\ lease_events (limiter s) <= g).
Proof.
  intros Hs. cbn [consume_loop]. destruct (Z.ltb_spec (remaining_events s) required) as [H|H].
  - destruct (wait_for_events _ _ _) as [w lim]. cbn [remaining_events].
    destruct (Z.ltb_spec (Z.max (lease_events (limiter s)) (required - remaining_events s))
                         (required - remaining_events s)); [lia|].
    do 3 eexists. split; [done|]. cbn [remaining_events foldr].
    split; [lia|]. split; [lia|]. right. eexists. split; [done|lia].
  - do 3 eexists. split; [done|]. cbn [foldr]. split; [lia|]. split; [lia|]. by left.
Qed.

(** ** Properties *)

(** C39: Whatever the order in which workers enter the critical section and the
    instants they read, the events granted before a grant is released are at
    most rate times the time elapsed since the limiter's first deadline, plus
    the nanosecond each grant loses to integer division. *)
Theorem source_rate_bound (l : SourceRateLimiter) (reqs : list (Z * Z)) (e now : Z)
  (Hrate : 0 < rate_per_sec l <= USIZE_MAX)
  (Hreqs : Forall (fun r => 0 < r.1 /\ 1000000000 * r.1 <= rate_per_sec l * U64_MAX) reqs)
  (He : 0 < e) :
  let l' := (releases l reqs).2 in
  1000000000 * sum_events reqs
    <= rate_per_sec l * (now + (wait_for_events l' e now).1 - state_next_deadline l + zlen reqs).
Proof.
  intros l'. pose proof (releases_budget l reqs Hrate Hreqs) as H. fold l' in H.
  assert (rate_per_sec l' = rate_per_sec l) as El.
  { subst l'. clear H. revert l Hrate Hreqs. induction reqs as [|[e0 n0] reqs IH]; [done|].
    intros l Hr Hf. rewrite releases_cons. apply Forall_cons in Hf as [[? _] Hf]. cbn [snd fst] in *.
    destruct (wait_for_events_spec l e0 n0) as (d & _ & _ & _ & ->); [lia|lia|].
    by rewrite IH. }
  destruct (wait_for_events_spec l' e now) as (d & _ & _ & -> & _); [lia|lia|]. nia.
Qed.

Definition demo_limiter : SourceRateLimiter := mkSourceRateLimiter Fixed 1000 5 7.

Lemma source_rate_bound_witness :
  1000000000 * sum_events [(10, 7); (20, 9)]
    <= 1000 * (9 + (wait_for_events (releases demo_limiter [(10, 7); (20, 9)]).2 1 9).1 - 7 + 2).
Proof.
  apply (source_rate_bound demo_limiter [(10, 7); (20, 9)] 1 9).
  - vm_compute. split; congruence.
  - repeat constructor; vm_compute; congruence.
  - reflexivity.
Defined.

(** Taking events from a worker's lease terminates after at most one trip to
    the shared limiter, never leaves the lease negative, and conserves
    events: what remains is what was there, plus the grants, minus what was
    taken; a grant is at least the lease size. *)
Theorem consume_accounting (clock : nat -> Z) (s : SourceRateLease) (events : Z)
  (Hrem : 0 <= remaining_events s) (Hev : 0 <= events) :
  exists s' grants, consume 2 clock s events = Some (s', grants) /\
    0 <= remaining_events s' /\
    remaining_events s' = remaining_events s + foldr Z.add 0 grants - events /\
    (grants = [] \/ exists g, grants = [g] /\ lease_events (limiter s) <= g).
Proof.
  unfold consume. destruct (Z.eqb_spec events 0) as [->|He].
  - exists s, []. cbn [foldr]. repeat split; [lia|lia|by left].
  - destruct (consume_loop_enough 0 clock 0 s events Hrem) as (s' & r & gs & -> & Hr & Heq & Hg).
    do 2 eexists. split; [done|]. cbn [remaining_events]. repeat split; [lia|lia|done].
Qed.

Lemma consume_accounting_witness :
  exists s' grants, consume 2 (fun _ => 0) (mkSourceRateLease demo_limiter 3) 9 = Some (s', grants) /\
    0 <= remaining_events s' /\ remaining_events s' = 3 + foldr Z.add 0 grants - 9 /\
    (grants = [] \/ exists g, grants = [g] /\ 5 <= g).
Proof. apply (consume_accounting (fun _ => 0) (mkSourceRateLease demo_limiter 3) 9); vm_compute; congruence. Defined.

(** A task that sleeps for the time [limit_speed_time] returns departs at
    most once per period: its i-th departure is no earlier than i periods
    after the first deadline, however long it idles between calls, as long as
    the number of missed periods fits the [u32] it is cast to. *)
Theorem limiter_departures_spaced (l : RateLimiter) (now : Z) (idle : list Z) (i : nat) (t : Z)
  (Hperiod : 0 < limit_ns l <= 2 ^ 61) (Hcast : casts_fit l now idle)
  (Hi : departures l now idle !! i = Some t) :
  next_deadline l + Z.of_nat i * limit_ns l <= t.
Proof.
  revert l now i Hperiod Hcast Hi. induction idle as [|d idle IH]; simpl; intros l now i Hl Hc Hi; [done|].
  pose proof (limit_speed_time_limit l (now + d)) as E1.
  pose proof (limit_speed_time_wait l (now + d)) as E2.
  destruct (limit_speed_time l (now + d)) as [w l'] eqn:E. simpl in *.
  destruct Hc as [Hc Hcs]. destruct i as [|i]; simpl in Hi; [simplify_eq; lia|].
  destruct (limit_speed_time_deadline l (now + d)) as (k & Hk & Hn & _); [done..|].
  rewrite E in Hn. simpl in Hn. rewrite <- E1 in Hl.
  specialize (IH _ _ _ Hl Hcs Hi). rewrite E1 in *. nia.
Qed.

Lemma limiter_departures_spaced_witness :
  next_deadline (RateLimiter_new 1000 1 0) + Z.of_nat 2 * limit_ns (RateLimiter_new 1000 1 0) <= 7000000.
Proof.
  apply (limiter_departures_spaced (RateLimiter_new 1000 1 0) 0 [0; 5000000; 0] 2).
  - vm_compute. split; congruence.
  - vm_compute. repeat split; congruence.
  - vm_compute. reflexivity.
Defined.

(** Past 2^32 missed periods the cast to [u32] breaks the catch-up: when the
    count is a multiple of 2^32 the deadline does not move at all, and the
    limiter keeps letting the caller through without a wait. *)
Theorem limiter_cast_stalls (l : RateLimiter) (now m : Z)
  (Hperiod : 0 < limit_ns l) (Hm : 0 < m) (Hmissed : missed_periods l now = m * 2 ^ 32) :
  limit_speed_time l now = (0, l).
Proof.
  assert (next_deadline l <= now) as Hge.
  { destruct (Z.le_gt_cases (next_deadline l) now) as [?|Hlt]; [done|].
    unfold missed_periods in Hmissed.
    assert ((now - next_deadline l) / limit_ns l < 0) by (apply Z.div_lt_upper_bound; lia). lia. }
  unfold limit_speed_time. destruct (Z.eqb_spec (limit_ns l) 0); [lia|].
  destruct (Z.ltb_spec now (next_deadline l)); [lia|].
  rewrite Hmissed, Z.mod_mul by done. unfold sat_mul. rewrite Z.mul_0_r.
  f_equal. unfold set_deadline. destruct l; simpl. f_equal. unfold DURATION_MAX, U64_MAX. lia.
Qed.

Lemma limiter_cast_stalls_witness :
  limit_speed_time (mkRateLimiter 100 0 0 1) (100 * (2 ^ 32 - 1)) = (0, mkRateLimiter 100 0 0 1).
Proof. apply (limiter_cast_stalls _ _ 1); vm_compute; congruence. Defined.
