(* ===== verification/Actor.v ===== *)
(** Control commands of the actors and the per-task controller
    ([src/runtime/actor/signal.rs], [src/runtime/actor/command.rs]).

    The command channel is the environment: a receive is an argument. *)
From Stdlib Require Import ZArith Lia String.
From stdpp Require Import prelude strings.
From S2P Require Import Prelude RateLimit.

Local Open Scope Z_scope.

(** ** Commands *)

Inductive ShutdownCmd :=
  | Immediate
  | CountLimit (limit : Z)
  | Timeout_ (millis : Z)
  | ShutdownNoOp.

Inductive TaskScope := All | One (name : string).

Inductive ActorCtrlCmd :=
  | Stop (cmd : ShutdownCmd)
  | Execute (scope : TaskScope)
  | Suspend (scope : TaskScope)
  | NoOp
  | Isolate.

#[export] Instance ShutdownCmd_eq_dec : EqDecision ShutdownCmd.
Proof. solve_decision. Defined.
#[export] Instance TaskScope_eq_dec : EqDecision TaskScope.
Proof. solve_decision. Defined.
#[export] Instance ActorCtrlCmd_eq_dec : EqDecision ActorCtrlCmd.
Proof. solve_decision. Defined.

(** The [ControlEvent]s the bridge builds for data sources. *)
Inductive ControlEvent := EventStop | EventIsolate (isolated : bool).

(** [is_end]; [now] is the clock read of the [Timeout] case, and subtracting
    a later instant gives zero. *)
Definition is_end (c : ActorCtrlCmd) (total_cnt last_proc_time now : Z) : bool :=
  match c with
  | Stop Immediate => true
  | Stop (CountLimit limit) => limit <=? total_cnt
  | Stop (Timeout_ millis) => millis * 1000000 <? Z.max 0 (now - last_proc_time)
  | _ => false
  end.

Definition map_ctrl_cmd (c : ActorCtrlCmd) : option ControlEvent :=
  match c with
  | Stop _ => Some EventStop
  | Isolate => Some (EventIsolate true)
  | Execute All => Some (EventIsolate false)
  | _ => None
  end.

(** [spawn_ctrl_event_bridge]: the events the sources see for a stream of
    commands; the stream ends when the command channel closes. *)
Definition ctrl_event_bridge (cmds : list ActorCtrlCmd) : list ControlEvent :=
  omap map_ctrl_cmd cmds.

(** ** TaskController *)

Record TaskController := mkTaskController {
  act_name : string;
  work_cmd : ActorCtrlCmd;
  total_suc_cnt : Z;
  unit_suc_cnt : Z;
  unit_size : Z;
  limit : RateLimiter;
  last_miss : option Z;
  unit_waited : Z;
}.

Definition TaskController_new (name : string) (sec_count : option Z) (now : Z) : TaskController :=
  mkTaskController name (Execute All) 0 0 100 (RateLimiter_new_or_default sec_count 1 now) None 0.

Definition from_speed_limit (name : string) (sec_limit : option Z) (unit now : Z) : TaskController :=
  mkTaskController name (Execute All) 0 0 unit
    (match sec_limit with
     | Some x => RateLimiter_new x unit now
     | None => RateLimiter_default now
     end) None 0.

Definition is_unit_end (t : TaskController) : bool := unit_size t <=? unit_suc_cnt t.

Definition update_cmd (t : TaskController) (c : ActorCtrlCmd) : TaskController :=
  mkTaskController (act_name t) c (total_suc_cnt t) (unit_suc_cnt t) (unit_size t)
    (limit t) (last_miss t) (unit_waited t).

Definition get_miss_time (t : TaskController) (now : Z) : Z := default now (last_miss t).

(** [is_stop] reads the clock twice: for a missing [last_miss] and inside
    [is_end]. *)
Definition is_stop (t : TaskController) (now1 now2 : Z) : bool :=
  is_end (work_cmd t) (total_suc_cnt t) (get_miss_time t now1) now2.

(** [is_down]: the command received within the poll timeout, if any. *)
Definition is_down (t : TaskController) (recv : option ActorCtrlCmd) (now1 now2 : Z)
    : bool * TaskController :=
  let t := match recv with Some c => update_cmd t c | None => t end in
  (is_stop t now1 now2, t).

(** [JMActPicker::poll_cmd_now] on the controller; [recv] is [try_recv]. *)
Definition poll_cmd_now (t : TaskController) (recv : option ActorCtrlCmd) (now1 now2 : Z)
    : bool * TaskController := is_down t recv now1 now2.

Definition not_alone (t : TaskController) : bool :=
  match work_cmd t with Isolate | Stop _ => false | _ => true end.

Definition total_count (t : TaskController) : Z := total_suc_cnt t.

Definition rec_task_unit_reset (t : TaskController) : TaskController :=
  mkTaskController (act_name t) (work_cmd t) (total_suc_cnt t) 0 (unit_size t)
    (rec_beg (limit t)) (last_miss t) 0.

Definition rec_task_suc_cnt (t : TaskController) (n : Z) : TaskController :=
  mkTaskController (act_name t) (work_cmd t) (wrap_add 64 (total_suc_cnt t) n)
    (wrap_add 64 (unit_suc_cnt t) n) (unit_size t) (limit t) None (unit_waited t).

Definition rec_task_suc (t : TaskController) : TaskController := rec_task_suc_cnt t 1.

Definition rec_task_fail (t : TaskController) (n : Z) : TaskController :=
  if 0 <? n then
    mkTaskController (act_name t) (work_cmd t) (sat_sub (total_suc_cnt t) n)
      (sat_sub (unit_suc_cnt t) n) (unit_size t) (limit t) (last_miss t) (unit_waited t)
  else t.

Definition rec_task_idle (t : TaskController) (now : Z) : TaskController :=
  match last_miss t with
  | Some _ => t
  | None => mkTaskController (act_name t) (work_cmd t) (total_suc_cnt t) (unit_suc_cnt t)
              (unit_size t) (limit t) (Some now) (unit_waited t)
  end.

Definition unit_speed_limit_left (t : TaskController) (now : Z) : Z * TaskController :=
  let '(w, l) := limit_speed_time (limit t) now in
  (w, mkTaskController (act_name t) (work_cmd t) (total_suc_cnt t) (unit_suc_cnt t)
        (unit_size t) l (last_miss t) (unit_waited t)).

(** ** Counting *)

(** What a task reports to its controller. *)
Inductive task_op :=
  | OpSuc (n : Z)
  | OpUnitReset
  | OpIdle (now : Z)
  | OpCmd (c : ActorCtrlCmd)
  | OpLimit (now : Z).

Definition apply_op (t : TaskController) (o : task_op) : TaskController :=
  match o with
  | OpSuc n => rec_task_suc_cnt t n
  | OpUnitReset => rec_task_unit_reset t
  | OpIdle now => rec_task_idle t now
  | OpCmd c => update_cmd t c
  | OpLimit now => (unit_speed_limit_left t now).2
  end.

Definition op_events (o : task_op) : Z := match o with OpSuc n => n | _ => 0 end.

Fixpoint unit_events (ops : list task_op) (acc : Z) : Z :=
  match ops with
  | [] => acc
  | OpUnitReset :: ops => unit_events ops 0
  | o :: ops => unit_events ops (acc + op_events o)
  end.

Lemma apply_op_total t o :
  0 <= op_events o -> 0 <= total_suc_cnt t -> total_suc_cnt t + op_events o <= USIZE_MAX ->
  total_suc_cnt (apply_op t o) = total_suc_cnt t + op_events o.
Proof.
  intros H0 Ht H. destruct o; cbn in *; try lia.
  - apply wrap_add_exact. unfold USIZE_MAX in *. lia.
  - unfold rec_task_idle. destruct (last_miss t); cbn; lia.
  - unfold unit_speed_limit_left. destruct (limit_speed_time _ _). cbn. lia.
Qed.

(** With fewer than 2^64 events in all, the controller's total is the number
    of events reported, its unit count the number reported since the last
    unit reset, and a [CountLimit] stop fires exactly when the limit is
    reached, whatever idling, commands and throttling happen in between. *)
Theorem controller_counts (t : TaskController) (ops : list task_op)
  (Hunit : 0 <= unit_suc_cnt t <= total_suc_cnt t)
  (Hops : Forall (fun o => 0 <= op_events o) ops)
  (Hfit : total_suc_cnt t + foldr (fun o n => op_events o + n) 0 ops <= USIZE_MAX) :
  let t' := foldl apply_op t ops in
  total_suc_cnt t' = total_suc_cnt t + foldr (fun o n => op_events o + n) 0 ops /\
  unit_suc_cnt t' = unit_events ops (unit_suc_cnt t) /\
  0 <= unit_suc_cnt t' <= total_suc_cnt t' /\
  (forall n now1 now2, is_stop (update_cmd t' (Stop (CountLimit n))) now1 now2 = true
     <-> n <= total_suc_cnt t + foldr (fun o m => op_events o + m) 0 ops).
Proof.
  cut (forall t, 0 <= unit_suc_cnt t <= total_suc_cnt t ->
    total_suc_cnt t + foldr (fun o n => op_events o + n) 0 ops <= USIZE_MAX ->
    total_suc_cnt (foldl apply_op t ops) = total_suc_cnt t + foldr (fun o n => op_events o + n) 0 ops /\
    unit_suc_cnt (foldl apply_op t ops) = unit_events ops (unit_suc_cnt t) /\
    0 <= unit_suc_cnt (foldl apply_op t ops) <= total_suc_cnt (foldl apply_op t ops)).
  { intros Hc. destruct (Hc t Hunit Hfit) as (E1 & E2 & E3). intros t'. subst t'.
    split; [done|]. split; [done|]. split; [done|]. intros n now1 now2.
    cbn [is_stop update_cmd work_cmd total_suc_cnt is_end]. unfold is_stop. cbn. rewrite E1.
    apply Z.leb_le. }
  clear t Hunit Hfit. induction Hops as [|o ops Ho Hops IH]; intros t Hu Hf; [cbn in *; lia|].
  cbn [foldl foldr] in *.
  assert (0 <= foldr (fun o n => op_events o + n) 0 ops) as Hnn
    by (clear -Hops; induction Hops; cbn; lia).
  pose proof (apply_op_total t o Ho ltac:(lia) ltac:(lia)) as Et.
  assert (unit_suc_cnt (apply_op t o) =
          match o with OpUnitReset => 0 | _ => unit_suc_cnt t + op_events o end) as Eu.
  { destruct o; cbn; try lia.
    - apply wrap_add_exact. cbn in *. unfold USIZE_MAX in *. lia.
    - unfold rec_task_idle. destruct (last_miss t); cbn; lia.
    - unfold unit_speed_limit_left. destruct (limit_speed_time _ _). cbn. lia. }
  destruct (IH (apply_op t o)) as (E1 & E2 & E3); [rewrite Et, Eu; destruct o; cbn in *; lia|lia|].
  split; [lia|]. split; [|done]. rewrite E2, Eu. by destruct o.
Qed.

Lemma controller_counts_witness :
  let t' := foldl apply_op (from_speed_limit "p" (Some 10) 100 0)
              [OpSuc 3; OpIdle 5; OpUnitReset; OpSuc 4; OpLimit 9] in
  total_suc_cnt t' = 7 /\ unit_suc_cnt t' = 4 /\ 0 <= unit_suc_cnt t' <= total_suc_cnt t' /\
  (forall n now1 now2, is_stop (update_cmd t' (Stop (CountLimit n))) now1 now2 = true <-> n <= 7).
Proof.
  apply (controller_counts (from_speed_limit "p" (Some 10) 100 0)
    [OpSuc 3; OpIdle 5; OpUnitReset; OpSuc 4; OpLimit 9]).
  - cbn. lia.
  - repeat constructor; cbn; lia.
  - vm_compute. congruence.
Defined.
