(* ===== verification/ExitPolicy.v ===== *)
(** Shutdown of the runtime: exit policies
    ([src/runtime/actor/exit_policy.rs]), task groups
    ([src/runtime/actor/group.rs]) and the task manager that polls the
    policies and stops the groups ([src/runtime/actor/routine.rs]).

    A task handle is what the runtime answers about it: whether it has
    finished, whether joining it succeeds, whether it ends within the timeout
    it is given.  Commands broadcast to a group are appended to a log. *)
From Stdlib Require Import ZArith Lia String.
From stdpp Require Import prelude strings gmap.
From S2P Require Import Prelude Actor.

Local Open Scope Z_scope.

(** ** Policies *)

Inductive TaskRole :=
  | Monitor | Infra | Sink | Maintainer | Parser | Picker | Acceptor | Generator | Router.

#[export] Instance TaskRole_eq_dec : EqDecision TaskRole.
Proof. solve_decision. Defined.

Definition TaskRole_index (r : TaskRole) : nat :=
  match r with
  | Monitor => 0 | Infra => 1 | Sink => 2 | Maintainer => 3 | Parser => 4
  | Picker => 5 | Acceptor => 6 | Generator => 7 | Router => 8
  end%nat.

#[export] Instance TaskRole_countable : Countable TaskRole.
Proof.
  refine (inj_countable TaskRole_index
    (fun n => ([Monitor; Infra; Sink; Maintainer; Parser; Picker; Acceptor; Generator; Router]
               : list TaskRole) !! n) _).
  by intros [].
Defined.

Inductive ExitPolicyKind := BatchKind | DaemonKind | GeneratorKind.
Inductive ExitPhase := Running | Quiescing.
Inductive ExitTrigger := Signal | RoleFinished (role : TaskRole) | QuiescingTimeout.
Inductive ExitAction :=
  | Stay
  | EnterQuiescing (trigger : ExitTrigger)
  | EnterStopping (trigger : ExitTrigger).

(** [DAEMON_QUIESCING_MAX_WAIT] (30 s) and [DAEMON_FORCE_STOP_TIMEOUT] (5 s). *)
Definition DAEMON_QUIESCING_MAX_WAIT : Z := 30 * 1000000000.
Definition DAEMON_FORCE_STOP_TIMEOUT : Z := 5 * 1000000000.

Record RuntimeSnapshot := mkRuntimeSnapshot {
  phase : ExitPhase;
  phase_elapsed : Z;
  signal_received : bool;
  role_totals : gmap TaskRole Z;
  role_finished_map : gmap TaskRole bool;
}.

Definition role_finished (s : RuntimeSnapshot) (r : TaskRole) : bool :=
  default false (role_finished_map s !! r).

Definition has_role (s : RuntimeSnapshot) (r : TaskRole) : bool :=
  0 <? default 0 (role_totals s !! r).

Definition role_finished_or_absent (s : RuntimeSnapshot) (r : TaskRole) : bool :=
  negb (has_role s r) || role_finished s r.

Definition BatchExitPolicy_decide (s : RuntimeSnapshot) : ExitAction :=
  match phase s with
  | Running =>
      if signal_received s then EnterStopping Signal
      else if role_finished s Picker then EnterQuiescing (RoleFinished Picker)
      else Stay
  | Quiescing =>
      if signal_received s then EnterStopping Signal
      else if role_finished s Parser then EnterStopping (RoleFinished Parser)
      else Stay
  end.

Definition DaemonExitPolicy_decide (s : RuntimeSnapshot) : ExitAction :=
  match phase s with
  | Running =>
      if signal_received s then EnterStopping Signal
      else if role_finished s Picker then
        if role_finished_or_absent s Acceptor then EnterStopping (RoleFinished Picker)
        else EnterQuiescing (RoleFinished Picker)
      else Stay
  | Quiescing =>
      if signal_received s then EnterStopping Signal
      else if role_finished_or_absent s Acceptor then EnterStopping (RoleFinished Picker)
      else if DAEMON_QUIESCING_MAX_WAIT <=? phase_elapsed s then EnterStopping QuiescingTimeout
      else Stay
  end.

Definition GeneratorExitPolicy_decide (s : RuntimeSnapshot) : ExitAction :=
  if signal_received s then EnterStopping Signal
  else if role_finished s Generator then EnterStopping (RoleFinished Generator)
  else Stay.

(** [build_exit_policy] followed by [decide]; [stop_cmd] is the default of
    the trait for the three policies. *)
Definition decide_policy (k : ExitPolicyKind) : RuntimeSnapshot -> ExitAction :=
  match k with
  | BatchKind => BatchExitPolicy_decide
  | DaemonKind => DaemonExitPolicy_decide
  | GeneratorKind => GeneratorExitPolicy_decide
  end.

Definition stop_cmd : ShutdownCmd := Immediate.

(** ** Task groups *)

Inductive RunError := ValidationError | SystemError.

Record Handle := mkHandle {
  finished : bool;
  join_ok : bool;
  in_time : bool;
}.

Record TaskGroup := mkTaskGroup {
  name : string;
  cmd : ActorCtrlCmd;
  handles : list Handle;
  pub_open : bool;
}.

Definition Log := list (string * ActorCtrlCmd).

Definition TaskGroup_new (n : string) (c : ShutdownCmd) : TaskGroup := mkTaskGroup n (Stop c) [] true.

Definition append (g : TaskGroup) (h : Handle) : TaskGroup :=
  mkTaskGroup (name g) (cmd g) (handles g ++ [h]) (pub_open g).

Definition broadcast (g : TaskGroup) (c : ActorCtrlCmd) (lg : Log) : option RunError * Log :=
  if pub_open g then (None, lg ++ [(name g, c)]) else (Some SystemError, lg).

Definition cmd_alone (g : TaskGroup) : Log -> option RunError * Log := broadcast g Isolate.
Definition cmd_execute_all (g : TaskGroup) : Log -> option RunError * Log := broadcast g (Execute All).
Definition cmd_stop (g : TaskGroup) (s : ShutdownCmd) : Log -> option RunError * Log := broadcast g (Stop s).

Definition routin_is_finished (g : TaskGroup) : bool := forallb finished (handles g).

(** [while let Some(h) = self.handles.pop()]: from the back; the list is the
    reversed vector.  Returns the handles left and the error, if any. *)
Fixpoint join_all (rev_handles : list Handle) : list Handle * option RunError :=
  match rev_handles with
  | [] => ([], None)
  | h :: rest =>
      if finished h then join_all rest
      else if join_ok h then join_all rest else (rest, Some SystemError)
  end.

Definition set_handles (g : TaskGroup) (hs : list Handle) : TaskGroup :=
  mkTaskGroup (name g) (cmd g) hs (pub_open g).

Definition wait_finished (g : TaskGroup) : TaskGroup * option RunError :=
  let '(rest, e) := join_all (rev (handles g)) in (set_handles g (rev rest), e).

Definition wait_grace_down (g : TaskGroup) (out_cmd : option ActorCtrlCmd) (lg : Log)
    : TaskGroup * option RunError * Log :=
  match broadcast g (default (cmd g) out_cmd) lg with
  | (Some e, lg) => (g, Some e, lg)
  | (None, lg) => let '(g', e) := wait_finished g in (g', e, lg)
  end.

(** The loop of [wait_grace_down_with_timeout]: [aborting] is set once a
    handle misses the timeout, after which every confirmation is bounded. *)
Fixpoint join_all_timeout (aborting : bool) (rev_handles : list Handle) : list Handle * option RunError :=
  match rev_handles with
  | [] => ([], None)
  | h :: rest =>
      if aborting then join_all_timeout true rest
      else if finished h then join_all_timeout false rest
      else if in_time h then
        if join_ok h then join_all_timeout false rest else (rest, Some SystemError)
      else join_all_timeout true rest
  end.

Definition wait_grace_down_with_timeout (g : TaskGroup) (out_cmd : option ActorCtrlCmd)
    (wait_timeout : Z) (lg : Log) : TaskGroup * option RunError * Log :=
  match broadcast g (default (cmd g) out_cmd) lg with
  | (Some e, lg) => (g, Some e, lg)
  | (None, lg) =>
      let '(rest, e) := join_all_timeout false (rev (handles g)) in
      (set_handles g (rev rest), e, lg)
  end.

(** ** Task manager *)

Record RoleTaskGroup := mkRoleTaskGroup { role : TaskRole; group : TaskGroup }.

Definition Groups := list RoleTaskGroup.

Definition append_group_with_role (gs : Groups) (r : TaskRole) (g : TaskGroup) : Groups :=
  gs ++ [mkRoleTaskGroup r g].

Definition detach_role (gs : Groups) (r : TaskRole) : list TaskGroup * Groups :=
  (map group (filter (fun rg => role rg = r) gs), filter (fun rg => role rg <> r) gs).

(** The [for rg in self.role_groups.drain(..)] loops: a failing group and
    those after it are dropped with the drain, the vector stays empty. *)
Fixpoint prune_loop (gs : Groups) : Groups * option RunError :=
  match gs with
  | [] => ([], None)
  | rg :: gs =>
      if routin_is_finished (group rg) then
        match (wait_finished (group rg)).2 with
        | Some e => ([], Some e)
        | None => prune_loop gs
        end
      else match prune_loop gs with
        | (kept, None) => (rg :: kept, None)
        | r => r
        end
  end.

Definition prune_finished_groups (gs : Groups) : Groups * option RunError := prune_loop gs.

(** [counters]: total and finished groups per role. *)
Definition count_role (m : gmap TaskRole (Z * Z)) (rg : RoleTaskGroup) : gmap TaskRole (Z * Z) :=
  let '(total, fin) := default (0, 0) (m !! role rg) in
  <[role rg := (total + 1, if routin_is_finished (group rg) then fin + 1 else fin)]> m.

Definition build_runtime_snapshot (gs : Groups) (ph : ExitPhase) (elapsed : Z) (sig : bool)
    : RuntimeSnapshot :=
  let counters := foldl count_role ∅ gs in
  mkRuntimeSnapshot ph elapsed sig (fst <$> counters)
    ((fun c => (0 <? c.1) && (c.1 =? c.2)) <$> counters).

Definition next_exit_policy_action (k : ExitPolicyKind) (gs : Groups) (ph : ExitPhase)
    (elapsed : Z) (sig : bool) : ExitAction + RunError :=
  match gs with
  | [] => inr ValidationError
  | _ => inl (decide_policy k (build_runtime_snapshot gs ph elapsed sig))
  end.

Fixpoint request_role_stop (gs : Groups) (r : TaskRole) (lg : Log) : option RunError * Log :=
  match gs with
  | [] => (None, lg)
  | rg :: gs =>
      if bool_decide (role rg = r) && negb (routin_is_finished (group rg)) then
        match cmd_stop (group rg) Immediate lg with
        | (None, lg) => request_role_stop gs r lg
        | res => res
        end
      else request_role_stop gs r lg
  end.

Definition quiesce_by_policy (k : ExitPolicyKind) (gs : Groups) (lg : Log) : option RunError * Log :=
  match k with
  | DaemonKind => request_role_stop gs Acceptor lg
  | BatchKind | GeneratorKind => (None, lg)
  end.

Fixpoint isolate_groups (gs : Groups) (lg : Log) : option RunError * Log :=
  match gs with
  | [] => (None, lg)
  | rg :: gs =>
      match cmd_alone (group rg) lg with
      | (None, lg) => isolate_groups gs lg
      | res => res
      end
  end.

(** The second loop: groups are left with the handles not joined. *)
Fixpoint down_groups (gs : Groups) (stop : ShutdownCmd) (force : option Z) (lg : Log)
    : Groups * option RunError * Log :=
  match gs with
  | [] => ([], None, lg)
  | rg :: gs =>
      let role_timeout := if bool_decide (role rg = Acceptor) then force else None in
      let '(g', e, lg) :=
        match role_timeout with
        | Some t => wait_grace_down_with_timeout (group rg) (Some (Stop stop)) t lg
        | None => wait_grace_down (group rg) (Some (Stop stop)) lg
        end in
      match e with
      | None =>
          let '(gs', e', lg) := down_groups gs stop force lg in
          (mkRoleTaskGroup (role rg) g' :: gs', e', lg)
      | Some _ => (mkRoleTaskGroup (role rg) g' :: gs, e, lg)
      end
  end.

(** Returns the groups left (none on success), the error and the log. *)
Definition stop_role_groups (gs : Groups) (stop : ShutdownCmd) (force : option Z) (lg : Log)
    : Groups * option RunError * Log :=
  let gs := rev gs in
  match isolate_groups gs lg with
  | (Some e, lg) => (gs, Some e, lg)
  | (None, lg) =>
      match down_groups gs stop force lg with
      | (gs', Some e, lg) => (gs', Some e, lg)
      | (_, None, lg) => ([], None, lg)
      end
  end.

Definition force_timeout (t : ExitTrigger) : option Z :=
  match t with
  | QuiescingTimeout => Some DAEMON_FORCE_STOP_TIMEOUT
  | Signal | RoleFinished _ => None
  end.

(** The state of [all_down_wait_policy_with_signal]. *)
Record WaitState := mkWaitState {
  ws_groups : Groups;
  ws_phase : ExitPhase;
  ws_started : Z;
  ws_log : Log;
}.

(** [apply_exit_policy_action]; [now] is the clock read on entering
    quiescing.  The boolean says the runtime is down. *)
Definition apply_exit_policy_action (k : ExitPolicyKind) (w : WaitState) (a : ExitAction) (now : Z)
    : (bool + RunError) * WaitState :=
  match a with
  | Stay => (inl false, w)
  | EnterQuiescing _ =>
      match quiesce_by_policy k (ws_groups w) (ws_log w) with
      | (Some e, lg) => (inr e, mkWaitState (ws_groups w) (ws_phase w) (ws_started w) lg)
      | (None, lg) => (inl false, mkWaitState (ws_groups w) Quiescing now lg)
      end
  | EnterStopping trigger =>
      match stop_role_groups (ws_groups w) stop_cmd (force_timeout trigger) (ws_log w) with
      | (gs, Some e, lg) => (inr e, mkWaitState gs (ws_phase w) (ws_started w) lg)
      | (gs, None, lg) => (inl true, mkWaitState gs (ws_phase w) (ws_started w) lg)
      end
  end.

(** One poll: [sig] is the signal received during the poll window, [now] the
    clock. *)
Definition poll_exit_policy (k : ExitPolicyKind) (w : WaitState) (sig : bool) (now : Z)
    : (bool + RunError) * WaitState :=
  match next_exit_policy_action k (ws_groups w) (ws_phase w) (Z.max 0 (now - ws_started w)) sig with
  | inr e => (inr e, w)
  | inl a => apply_exit_policy_action k w a now
  end.

(** What the runtime does between two polls: tasks finish; groups, their
    order, names and roles stay. *)
Record Obs := mkObs { o_signal : bool; o_now : Z; o_groups : Groups }.

(** [all_down_wait_policy]: the loop over the observations of its polls;
    [None] when it is still waiting after the last one. *)
Fixpoint all_down_wait_policy (k : ExitPolicyKind) (w : WaitState) (obs : list Obs)
    : option ((unit + RunError) * WaitState) :=
  match obs with
  | [] => None
  | o :: obs =>
      let w := mkWaitState (o_groups o) (ws_phase w) (ws_started w) (ws_log w) in
      match poll_exit_policy k w (o_signal o) (o_now o) with
      | (inl true, w') => Some (inl tt, w')
      | (inl false, w') => all_down_wait_policy k w' obs
      | (inr e, w') => Some (inr e, w')
      end
  end.

(** ** Specification vocabulary *)

(** A role that is present and whose groups have all finished. *)
Definition role_done (r : TaskRole) (gs : Groups) : Prop :=
  Exists (fun rg => role rg = r) gs /\
  Forall (fun rg => role rg = r -> routin_is_finished (group rg) = true) gs.

Definition group_names (c : ActorCtrlCmd) (gs : Groups) : Log :=
  map (fun rg => (name (group rg), c)) gs.

(** The commands of a complete stop: every group isolated, then every group
    stopped, both in the reverse of the registration order. *)
Definition stop_script (gs : Groups) (stop : ShutdownCmd) : Log :=
  group_names Isolate (rev gs) ++ group_names (Stop stop) (rev gs).

(** Channels are open and the tasks still running can be joined. *)
Definition responsive (rg : RoleTaskGroup) : Prop :=
  pub_open (group rg) = true /\
  Forall (fun h => finished h = true \/ join_ok h = true) (handles (group rg)).

(** ** Snapshot *)

Definition is_role (r : TaskRole) (rg : RoleTaskGroup) : bool := bool_decide (role rg = r).

Lemma count_role_lookup gs r : forall m,
  default (0, 0) (foldl count_role m gs !! r) =
  ((default (0, 0) (m !! r)).1 + countb (is_role r) gs,
   (default (0, 0) (m !! r)).2
     + countb (fun rg => is_role r rg && routin_is_finished (group rg)) gs).
Proof.
  unfold is_role. induction gs as [|rg gs IH]; intros m; simpl.
  - destruct (default (0, 0) (m !! r)). simpl. f_equal; lia.
  - rewrite IH. unfold count_role.
    destruct (default (0, 0) (m !! role rg)) as [t f] eqn:E.
    case_bool_decide as Hr.
    + subst r. rewrite lookup_insert_eq, E. simpl.
      destruct (routin_is_finished (group rg)); simpl; f_equal; lia.
    + rewrite lookup_insert_ne by done. done.
Qed.

Lemma role_done_counts r gs :
  role_done r gs <->
  0 < countb (is_role r) gs /\
  countb (is_role r) gs = countb (fun rg => is_role r rg && routin_is_finished (group rg)) gs.
Proof.
  unfold role_done. rewrite countb_pos.
  destruct (countb_and (is_role r) (fun rg => routin_is_finished (group rg)) gs) as [_ H].
  rewrite (eq_comm (countb _ _)), H. unfold is_role.
  setoid_rewrite bool_decide_eq_true. done.
Qed.

Lemma snapshot_role_finished gs ph el sig r :
  role_finished (build_runtime_snapshot gs ph el sig) r = true <-> role_done r gs.
Proof.
  unfold role_finished, build_runtime_snapshot; cbn [role_finished_map].
  rewrite lookup_fmap, role_done_counts.
  pose proof (count_role_lookup gs r ∅) as E. rewrite lookup_empty in E.
  cbn in E. rewrite ?Z.add_0_l in E.
  destruct (foldl count_role ∅ gs !! r) as [[t f]|]; cbn in *; injection E as Et Ef;
    rewrite <- Et, <- Ef; [|intuition lia].
  by rewrite andb_true_iff, Z.ltb_lt, Z.eqb_eq.
Qed.

Lemma snapshot_has_role gs ph el sig r :
  has_role (build_runtime_snapshot gs ph el sig) r = true <-> Exists (fun rg => role rg = r) gs.
Proof.
  unfold has_role, build_runtime_snapshot; cbn [role_totals]. rewrite lookup_fmap, Z.ltb_lt.
  pose proof (count_role_lookup gs r ∅) as E. rewrite lookup_empty in E.
  cbn in E. rewrite ?Z.add_0_l in E.
  pose proof (countb_pos (is_role r) gs) as C. unfold is_role in C at 2.
  setoid_rewrite bool_decide_eq_true in C. rewrite <- C.
  destruct (foldl count_role ∅ gs !! r) as [[t f]|]; cbn in *; injection E as <- _; done.
Qed.

(** ** Stopping the groups *)

Lemma join_all_ok hs :
  Forall (fun h => finished h = true \/ join_ok h = true) hs -> join_all hs = ([], None).
Proof. induction 1 as [|h hs [H|H] _ IH]; simpl; [done|rewrite H; done|].
  destruct (finished h); [done|]. by rewrite H. Qed.

Lemma join_all_timeout_ok hs b :
  Forall (fun h => finished h = true \/ join_ok h = true) hs -> join_all_timeout b hs = ([], None).
Proof.
  intros H. revert b. induction H as [|h hs H _ IH]; intros b; simpl; [done|].
  destruct b; [done|]. destruct (finished h); [done|]. destruct (in_time h); [|done].
  destruct H as [?|H]; [done|]. by rewrite H.
Qed.

Lemma isolate_groups_log gs lg :
  exists n, (isolate_groups gs lg).2 = lg ++ take n (group_names Isolate gs) /\
    ((isolate_groups gs lg).1 = None -> n = length gs).
Proof.
  revert lg. induction gs as [|rg gs IH]; intros lg; simpl.
  - exists 0%nat. by rewrite app_nil_r.
  - unfold cmd_alone, broadcast. destruct (pub_open (group rg)).
    + destruct (IH (lg ++ [(name (group rg), Isolate)])) as (n & E & Hn).
      exists (S n). simpl. rewrite E, <- app_assoc. naive_solver.
    + exists 0%nat. simpl. rewrite app_nil_r. done.
Qed.

Lemma down_groups_log gs stop force lg :
  exists n, (down_groups gs stop force lg).2 = lg ++ take n (group_names (Stop stop) gs) /\
    ((down_groups gs stop force lg).1.2 = None -> n = length gs).
Proof.
  revert lg. induction gs as [|rg gs IH]; intros lg; simpl.
  { exists 0%nat. by rewrite app_nil_r. }
  set (t := if bool_decide (role rg = Acceptor) then force else None).
  assert (forall g' e lg',
    match t with
    | Some t => wait_grace_down_with_timeout (group rg) (Some (Stop stop)) t lg
    | None => wait_grace_down (group rg) (Some (Stop stop)) lg
    end = (g', e, lg') ->
    lg' = lg ++ [(name (group rg), Stop stop)] \/ (lg' = lg /\ e <> None)) as Hone.
  { intros g' e lg'. destruct t; unfold wait_grace_down_with_timeout, wait_grace_down, broadcast, wait_finished;
      simpl; destruct (pub_open (group rg)); intros Hw; repeat case_match; simplify_eq; auto. }
  destruct (match t with Some t => _ | None => _ end) as [[g' e] lg'] eqn:E.
  specialize (Hone _ _ _ eq_refl). destruct e as [e|].
  - destruct Hone as [->|[-> _]].
    + exists 1%nat. simpl. rewrite take_0. done.
    + exists 0%nat. simpl. by rewrite app_nil_r.
  - destruct Hone as [->|[_ ?]]; [|done].
    destruct (IH (lg ++ [(name (group rg), Stop stop)])) as (n & En & Hn).
    destruct (down_groups gs stop force _) as [[gs' e'] lg'']. simpl in *.
    exists (S n). simpl. rewrite En, <- app_assoc. naive_solver.
Qed.

Lemma isolate_groups_ok gs lg : Forall responsive gs -> (isolate_groups gs lg).1 = None.
Proof.
  intros H. revert lg. induction H as [|rg gs [Ho _] _ IH]; intros lg; simpl; [done|].
  unfold cmd_alone, broadcast. by rewrite Ho.
Qed.

Lemma down_groups_ok gs stop force lg : Forall responsive gs -> (down_groups gs stop force lg).1.2 = None.
Proof.
  intros H. revert lg. induction H as [|rg gs [Ho Hj] _ IH]; intros lg; simpl; [done|].
  assert (Forall (fun h => finished h = true \/ join_ok h = true) (rev (handles (group rg)))) as Hr
    by (by apply Forall_rev).
  unfold wait_grace_down_with_timeout, wait_grace_down, broadcast, wait_finished. rewrite Ho.
  rewrite (join_all_ok _ Hr), (join_all_timeout_ok _ false Hr).
  destruct (if bool_decide _ then force else None);
    (simpl; specialize (IH (lg ++ [(name (group rg), Stop stop)]));
     destruct (down_groups gs stop force _) as [[? ?] ?]; exact IH).
Qed.

Lemma stop_groups_log (gs : Groups) (stop : ShutdownCmd) (force : option Z) (lg : Log) :
  let '(gs', e, lg') := stop_role_groups gs stop force lg in
  (exists n, lg' = lg ++ take n (stop_script gs stop)) /\
  (e = None -> gs' = [] /\ lg' = lg ++ stop_script gs stop).
Proof.
  unfold stop_role_groups, stop_script.
  destruct (isolate_groups_log (rev gs) lg) as (n & En & Hn).
  destruct (isolate_groups (rev gs) lg) as [[e|] lg1] eqn:E1; simpl in *; subst lg1.
  - split; [|done]. exists (Nat.min n (length (rev gs))).
    rewrite take_app_le by (unfold group_names; rewrite length_map; lia).
    f_equal. destruct (Nat.le_ge_cases n (length (rev gs))); [by rewrite Nat.min_l|].
    rewrite Nat.min_r by done. rewrite !take_ge by (unfold group_names; rewrite length_map; lia). done.
  - rewrite (Hn eq_refl).
    rewrite (take_ge (group_names Isolate _)) by (unfold group_names; rewrite length_map; lia).
    destruct (down_groups_log (rev gs) stop force (lg ++ group_names Isolate (rev gs))) as (m & Em & Hm).
    destruct (down_groups (rev gs) stop force _) as [[gs' e'] lg2] eqn:E2. simpl in *. subst lg2.
    assert (exists k, (lg ++ group_names Isolate (rev gs)) ++ take m (group_names (Stop stop) (rev gs))
      = lg ++ take k (group_names Isolate (rev gs) ++ group_names (Stop stop) (rev gs))) as Hk.
    { exists (length (group_names Isolate (rev gs)) + m)%nat. by rewrite take_app_add, <- app_assoc. }
    destruct e' as [e'|]; (split; [done|intros He; try done]).
    split; [done|]. rewrite (Hm eq_refl), take_ge, app_assoc; [done|].
    unfold group_names. rewrite length_map. lia.
Qed.

(** A stop isolates every group before it stops any, goes through the
    groups in the reverse of their registration order, and sends each command
    once: what it broadcasts is always a prefix of that script, all of it when
    the stop succeeds, and then no group is left. *)
Theorem stop_role_groups_order (gs : Groups) (stop : ShutdownCmd) (force : option Z) (lg : Log) :
  let '(gs', e, lg') := stop_role_groups gs stop force lg in
  (exists n, lg' = lg ++ take n (stop_script gs stop)) /\
  (e = None -> gs' = [] /\ lg' = lg ++ stop_script gs stop).
Proof. apply stop_groups_log. Qed.

Lemma batch_quiescing_ends w' obs : forall w,
  ws_phase w = Quiescing -> Forall (fun o => o_signal o = false) obs ->
  all_down_wait_policy BatchKind w obs = Some (inl tt, w') ->
  exists j oj, obs !! j = Some oj /\ role_done Parser (o_groups oj) /\
    ws_groups w' = [] /\ ws_log w' = ws_log w ++ stop_script (o_groups oj) Immediate.
Proof.
  induction obs as [|o obs IH]; intros w Hp Hs Hr; [done|]. cbn in Hr.
  apply Forall_cons in Hs as [Ho Hs]. unfold poll_exit_policy, next_exit_policy_action in Hr.
  cbn in Hr. destruct (o_groups o) as [|g gs] eqn:Eg; [done|]. rewrite <- Eg in *.
  unfold BatchExitPolicy_decide in Hr. cbn [phase signal_received build_runtime_snapshot] in Hr.
  rewrite Hp, Ho in Hr. destruct (role_finished _ Parser) eqn:Ef; cbn in Hr.
  - apply snapshot_role_finished in Ef.
    pose proof (stop_groups_log (o_groups o) stop_cmd None (ws_log w)) as Hst.
    destruct (stop_role_groups _ _ _ _) as [[gs' [e|]] lg']; [done|].
    destruct Hst as [_ Hst]. destruct (Hst eq_refl) as [-> ->]. simplify_eq. by exists 0%nat, o.
  - apply IH in Hr; [|done|done]. destruct Hr as (j & oj & ? & ? & ? & ?). by exists (S j), oj.
Qed.

(** C33: without a signal a batch run only goes down in order: it ends without an
    error only if at one poll the pickers were present and all finished, and at a
    later poll the parsers were; then every group has been isolated and
    stopped. *)
Theorem batch_shutdown_order (w w' : WaitState) (obs : list Obs)
  (Hphase : ws_phase w = Running)
  (Hnosig : Forall (fun o => o_signal o = false) obs)
  (Hrun : all_down_wait_policy BatchKind w obs = Some (inl tt, w')) :
  exists i j oi oj, (i < j)%nat /\ obs !! i = Some oi /\ obs !! j = Some oj /\
    role_done Picker (o_groups oi) /\ role_done Parser (o_groups oj) /\
    ws_groups w' = [] /\ ws_log w' = ws_log w ++ stop_script (o_groups oj) Immediate.
Proof.
  revert w Hphase Hnosig Hrun. induction obs as [|o obs IH]; intros w Hp Hs Hr; [done|]. cbn in Hr.
  apply Forall_cons in Hs as [Ho Hs]. unfold poll_exit_policy, next_exit_policy_action in Hr.
  cbn in Hr. destruct (o_groups o) as [|g gs] eqn:Eg; [done|]. rewrite <- Eg in *.
  unfold BatchExitPolicy_decide in Hr. cbn [phase signal_received build_runtime_snapshot] in Hr.
  rewrite Hp, Ho in Hr. destruct (role_finished _ Picker) eqn:Ef; cbn in Hr.
  - apply snapshot_role_finished in Ef.
    apply batch_quiescing_ends in Hr; [|done|done]. destruct Hr as (j & oj & ? & ? & ? & ?).
    exists 0%nat, (S j), o, oj. split_and!; try done. lia.
  - apply IH in Hr; [|done|done]. destruct Hr as (i & j & oi & oj & ? & ? & ? & ? & ? & ? & ?).
    exists (S i), (S j), oi, oj. split_and!; try done. lia.
Qed.

Definition done_handle : Handle := mkHandle true true true.
Definition busy_handle : Handle := mkHandle false true true.

(** Pickers, parsers and sinks, with the tasks of the given roles finished. *)
Definition demo_groups (pick parse : Handle) : Groups :=
  append_group_with_role
    (append_group_with_role
       (append_group_with_role [] Sink (append (TaskGroup_new "sink" Immediate) busy_handle))
       Parser (append (TaskGroup_new "parser" Immediate) parse))
    Picker (append (TaskGroup_new "picker" Immediate) pick).

Definition demo_obs : list Obs :=
  [mkObs false 1 (demo_groups busy_handle busy_handle);
   mkObs false 2 (demo_groups done_handle busy_handle);
   mkObs false 3 (demo_groups done_handle done_handle)].

Lemma batch_shutdown_order_witness :
  let w' := mkWaitState [] Quiescing 2 (stop_script (demo_groups done_handle done_handle) Immediate) in
  exists i j oi oj, (i < j)%nat /\ demo_obs !! i = Some oi /\ demo_obs !! j = Some oj /\
    role_done Picker (o_groups oi) /\ role_done Parser (o_groups oj) /\
    ws_groups w' = [] /\ ws_log w' = [] ++ stop_script (o_groups oj) Immediate.
Proof.
  apply (batch_shutdown_order (mkWaitState [] Running 0 []) _ demo_obs).
  - reflexivity.
  - repeat constructor.
  - vm_compute. reflexivity.
Defined.

Lemma poll_stops k w trigger now :
  Forall responsive (ws_groups w) ->
  apply_exit_policy_action k w (EnterStopping trigger) now =
    (inl true, mkWaitState [] (ws_phase w) (ws_started w)
                 (ws_log w ++ stop_script (ws_groups w) Immediate)).
Proof.
  intros H. cbn. unfold stop_cmd.
  pose proof (stop_groups_log (ws_groups w) Immediate (force_timeout trigger) (ws_log w)) as Hst.
  assert (Forall responsive (rev (ws_groups w))) as Hr by (by apply Forall_rev).
  unfold stop_role_groups in *.
  pose proof (isolate_groups_ok _ (ws_log w) Hr) as H1.
  destruct (isolate_groups _ _) as [e1 lg1]; simpl in H1; subst e1.
  pose proof (down_groups_ok (rev (ws_groups w)) Immediate (force_timeout trigger) lg1 Hr) as H2.
  destruct (down_groups _ _ _ _) as [[gs2 e2] lg2]; simpl in H2; subst e2.
  destruct Hst as [_ Hst]. destruct (Hst eq_refl) as [_ ->]. done.
Qed.

(** When the groups answer, one poll takes the runtime down as soon as a
    signal has arrived, whatever the policy and the phase, and a daemon that
    has been quiescing for 30 seconds goes down even though its acceptors are
    still running. *)
Theorem shutdown_poll_goes_down (k : ExitPolicyKind) (w : WaitState) (sig : bool) (now : Z)
  (Hgroups : ws_groups w <> [])
  (Hresp : Forall responsive (ws_groups w))
  (Hwhy : sig = true \/
          (k = DaemonKind /\ ws_phase w = Quiescing /\ ws_started w + DAEMON_QUIESCING_MAX_WAIT <= now)) :
  poll_exit_policy k w sig now =
    (inl true, mkWaitState [] (ws_phase w) (ws_started w)
                 (ws_log w ++ stop_script (ws_groups w) Immediate)).
Proof.
  unfold poll_exit_policy, next_exit_policy_action.
  destruct (ws_groups w) as [|g gs] eqn:Eg; [done|]. rewrite <- Eg in *.
  match goal with |- context [decide_policy k ?s] =>
    assert (exists trigger, decide_policy k s = EnterStopping trigger) as [t ->] end.
  { destruct Hwhy as [->|(-> & Hph & Hnow)].
    - exists Signal. destruct k; cbn; unfold BatchExitPolicy_decide, DaemonExitPolicy_decide;
        cbn [phase signal_received build_runtime_snapshot]; by destruct (ws_phase w).
    - cbn. unfold DaemonExitPolicy_decide.
      cbn [phase phase_elapsed signal_received build_runtime_snapshot]. rewrite Hph.
      destruct sig; [eauto|]. destruct (role_finished_or_absent _ _); [eauto|].
      rewrite (proj2 (Z.leb_le _ _)) by (unfold DAEMON_QUIESCING_MAX_WAIT in *; lia). eauto. }
  by apply poll_stops.
Qed.

Lemma shutdown_poll_goes_down_witness :
  poll_exit_policy DaemonKind
    (mkWaitState [mkRoleTaskGroup Acceptor (append (TaskGroup_new "acceptor" Immediate) busy_handle)]
       Quiescing 5 []) false (5 + 30 * 1000000000)
  = (inl true, mkWaitState [] Quiescing 5
      ([] ++ stop_script
        [mkRoleTaskGroup Acceptor (append (TaskGroup_new "acceptor" Immediate) busy_handle)] Immediate)).
Proof.
  apply (shutdown_poll_goes_down DaemonKind
    (mkWaitState [mkRoleTaskGroup Acceptor (append (TaskGroup_new "acceptor" Immediate) busy_handle)]
       Quiescing 5 []) false (5 + 30 * 1000000000)).
  - discriminate.
  - constructor; [|done]. constructor; [done|]. constructor; [by right|done].
  - right. split; [done|]. split; [done|]. vm_compute. congruence.
Defined.

(** The snapshot the policies decide on says a role has finished exactly when
    the role is present and all its groups have finished, and that it is
    present exactly when some group carries it. *)
Theorem snapshot_correct (gs : Groups) (ph : ExitPhase) (elapsed : Z) (sig : bool) (r : TaskRole) :
  let s := build_runtime_snapshot gs ph elapsed sig in
  (role_finished s r = true <-> role_done r gs) /\
  (has_role s r = true <-> Exists (fun rg => role rg = r) gs) /\
  (role_finished_or_absent s r = true
    <-> Forall (fun rg => role rg = r -> routin_is_finished (group rg) = true) gs).
Proof.
  cbn zeta. pose proof (snapshot_role_finished gs ph elapsed sig r) as H1.
  pose proof (snapshot_has_role gs ph elapsed sig r) as H2.
  split; [done|]. split; [done|]. unfold role_finished_or_absent.
  rewrite orb_true_iff, negb_true_iff, H1. unfold role_done. split.
  - intros [H|[_ H]]; [|done]. rewrite <- not_true_iff_false, H2 in H.
    apply Forall_Exists_neg in H. eapply Forall_impl; [exact H|]. naive_solver.
  - intros H. destruct (has_role _ r) eqn:E; [right|by left]. split; [by apply H2|done].
Qed.
