(* ===== verification/Limits.v ===== *)
(** Memory limits of the runtime ([crates/wp-config/src/limits.rs]): the
    profile presets, the environment overrides and their normalisation.

    The environment is a function from variable names to values; the process
    reads it once. *)
From Stdlib Require Import ZArith Lia String.
From stdpp Require Import prelude strings.
From S2P Require Import Prelude Text.
Local Open Scope string_scope.
Local Open Scope Z_scope.

Definition KIB : Z := 1024.
Definition MIB : Z := 1024 * 1024.

Inductive MemoryProfileKind := Low | Standard | Throughput.

(** [MemoryProfileKind::from_str]; [None] is the error. *)
Definition from_str (value : string) : option MemoryProfileKind :=
  let v := to_ascii_lowercase (str_trim value) in
  if existsb (String.eqb v) ["low"; "low_mem"; "low-mem"; "small"; "tiny"; "xs"] then Some Low
  else if existsb (String.eqb v) [""; "standard"; "default"; "normal"; "balanced"] then Some Standard
  else if existsb (String.eqb v) ["throughput"; "high"; "large"] then Some Throughput
  else None.

Record MemoryLimits := mkMemoryLimits {
  parser_channel_cap : Z;
  sink_channel_cap : Z;
  sink_batch_size : Z;
  parse_workers : Z;
  parse_workers_max : Z;
  picker_burst_max : Z;
  picker_coalesce_trigger : Z;
  picker_coalesce_max_events : Z;
  tcp_recv_bytes : Z;
  tcp_batch_capacity : Z;
  tcp_batch_bytes : Z;
  tcp_shrink_high_water_bytes : Z;
  tcp_shrink_target_bytes : Z;
  udp_recv_buffer_bytes : Z;
  udp_batch_size : Z;
  file_batch_lines : Z;
  file_batch_bytes : Z;
  file_chunk_bytes : Z;
  sink_pool_max : Z;
  sink_pool_unit_max_cap : Z;
  sink_pool_unit_init_cap : Z;
  field_query_cache_cap : Z;
  picker_pending_max_bytes : Z;
  debug_view_channel_cap : Z;
  debug_view_batch_lines : Z;
  cmd_channel_cap : Z;
}.

Definition for_profile (kind : MemoryProfileKind) : MemoryLimits :=
  match kind with
  | Low => mkMemoryLimits
      32 16 256 2 USIZE_MAX 4 8
      32 (512 * KIB) 32 (32 * KIB) (256 * KIB) (64 * KIB) MIB
      32 32 (64 * KIB) (16 * KIB) 16 512 16
      128 MIB 256 32 1024
  | Standard => mkMemoryLimits
      48 16 256 2 USIZE_MAX 24 24
      96 (2 * MIB) 256 (256 * KIB) (512 * KIB) (128 * KIB) MIB
      32 32 (64 * KIB) (64 * KIB) 64 2048 32
      512 (8 * MIB) 1024 100 4096
  | Throughput => mkMemoryLimits
      96 48 512 2 USIZE_MAX 48 48
      192 (2 * MIB) 128 (64 * KIB) MIB (256 * KIB) (8 * MIB)
      128 128 (400 * KIB) (64 * KIB) 96 4096 64
      1000 (16 * MIB) 2048 100 8192
  end.

Definition Env := string -> option string.

Definition env_usize (env : Env) (name : string) : option Z :=
  match env name with
  | Some value => match parse_usize (str_trim value) with
                  | Some v => if 0 <? v then Some v else None
                  | None => None
                  end
  | None => None
  end.

(** The overrides of [from_env], before [normalize]. *)
Definition with_overrides (env : Env) (l : MemoryLimits) : MemoryLimits :=
  mkMemoryLimits
    (default (parser_channel_cap l) (env_usize env "WP_PARSER_CHANNEL_CAP"))
    (default (sink_channel_cap l) (env_usize env "WP_SINK_CHANNEL_CAP"))
    (default (sink_batch_size l) (env_usize env "WP_SINK_BATCH_SIZE"))
    (default (parse_workers l) (env_usize env "WP_PARSE_WORKERS"))
    (default (parse_workers_max l) (env_usize env "WP_PARSE_WORKERS_MAX"))
    (default (picker_burst_max l) (env_usize env "WP_PICKER_BURST_MAX"))
    (default (picker_coalesce_trigger l) (env_usize env "WP_PICKER_COALESCE_TRIGGER"))
    (default (picker_coalesce_max_events l) (env_usize env "WP_PICKER_COALESCE_MAX_EVENTS"))
    (default (tcp_recv_bytes l) (env_usize env "WP_TCP_RECV_BYTES"))
    (default (tcp_batch_capacity l) (env_usize env "WP_TCP_BATCH_CAPACITY"))
    (default (tcp_batch_bytes l) (env_usize env "WP_TCP_BATCH_BYTES"))
    (default (tcp_shrink_high_water_bytes l) (env_usize env "WP_TCP_SHRINK_HIGH_WATER_BYTES"))
    (default (tcp_shrink_target_bytes l) (env_usize env "WP_TCP_SHRINK_TARGET_BYTES"))
    (default (udp_recv_buffer_bytes l) (env_usize env "WP_UDP_RECV_BUFFER_BYTES"))
    (default (udp_batch_size l) (env_usize env "WP_UDP_BATCH_SIZE"))
    (default (file_batch_lines l) (env_usize env "WP_FILE_BATCH_LINES"))
    (default (file_batch_bytes l) (env_usize env "WP_FILE_BATCH_BYTES"))
    (default (file_chunk_bytes l) (env_usize env "WP_FILE_CHUNK_BYTES"))
    (default (sink_pool_max l) (env_usize env "WP_SINK_POOL_MAX"))
    (default (sink_pool_unit_max_cap l) (env_usize env "WP_SINK_POOL_UNIT_MAX_CAP"))
    (default (sink_pool_unit_init_cap l) (env_usize env "WP_SINK_POOL_UNIT_INIT_CAP"))
    (default (field_query_cache_cap l) (env_usize env "WP_FIELD_QUERY_CACHE_CAP"))
    (default (picker_pending_max_bytes l) (env_usize env "WP_PICKER_PENDING_MAX_BYTES"))
    (default (debug_view_channel_cap l) (env_usize env "WP_DEBUG_VIEW_CHANNEL_CAP"))
    (default (debug_view_batch_lines l) (env_usize env "WP_DEBUG_VIEW_BATCH_LINES"))
    (default (cmd_channel_cap l) (env_usize env "WP_CMD_CHANNEL_CAP")).

(** [clamp] panics on an empty range: [None]. *)
Definition normalize (l : MemoryLimits) : option MemoryLimits :=
  recv ← clamp (tcp_recv_bytes l) KIB (64 * MIB);
  target ← clamp (tcp_shrink_target_bytes l) KIB recv;
  chunk ← clamp (file_chunk_bytes l) (4 * KIB) (4 * MIB);
  let init := Z.min (Z.max (sink_pool_unit_init_cap l) 1) (Z.max (sink_pool_unit_max_cap l) 1) in
    Some (mkMemoryLimits
      (Z.max (parser_channel_cap l) 1) (Z.max (sink_channel_cap l) 1)
      (Z.max (sink_batch_size l) 1) (Z.max (parse_workers l) 1)
      (Z.max (parse_workers_max l) 1) (Z.max (picker_burst_max l) 1)
      (Z.max (picker_coalesce_trigger l) 1) (Z.max (picker_coalesce_max_events l) 1)
      recv (Z.max (tcp_batch_capacity l) 1)
      (Z.max (tcp_batch_bytes l) KIB) (Z.max (tcp_shrink_high_water_bytes l) target)
      target (Z.max (udp_recv_buffer_bytes l) KIB)
      (Z.max (udp_batch_size l) 1) (Z.max (file_batch_lines l) 1)
      (Z.max (file_batch_bytes l) KIB) chunk
      (sink_pool_max l) (Z.max (sink_pool_unit_max_cap l) init)
      init (Z.max (field_query_cache_cap l) 1)
      (Z.max (picker_pending_max_bytes l) KIB) (Z.max (debug_view_channel_cap l) 1)
      (Z.max (debug_view_batch_lines l) 1) (Z.max (cmd_channel_cap l) 1)).

Definition profile_of_env (env : Env) : MemoryProfileKind :=
  default Standard (v ← env "WP_MEMORY_PROFILE"; from_str v).

Definition from_env (env : Env) : option MemoryLimits :=
  normalize (with_overrides env (for_profile (profile_of_env env))).

Definition clamp_parse_workers (l : MemoryLimits) (workers : Z) : Z :=
  Z.min (Z.max workers 1) (parse_workers_max l).

(** ** Well-formed limits *)

(** The settings that are only bounded from below, with their bound. *)
Definition plain_settings : list (string * (MemoryLimits -> Z) * Z) :=
  [("WP_PARSER_CHANNEL_CAP", parser_channel_cap, 1);
   ("WP_SINK_CHANNEL_CAP", sink_channel_cap, 1);
   ("WP_SINK_BATCH_SIZE", sink_batch_size, 1);
   ("WP_PARSE_WORKERS", parse_workers, 1);
   ("WP_PARSE_WORKERS_MAX", parse_workers_max, 1);
   ("WP_PICKER_BURST_MAX", picker_burst_max, 1);
   ("WP_PICKER_COALESCE_TRIGGER", picker_coalesce_trigger, 1);
   ("WP_PICKER_COALESCE_MAX_EVENTS", picker_coalesce_max_events, 1);
   ("WP_TCP_BATCH_CAPACITY", tcp_batch_capacity, 1);
   ("WP_TCP_BATCH_BYTES", tcp_batch_bytes, KIB);
   ("WP_UDP_RECV_BUFFER_BYTES", udp_recv_buffer_bytes, KIB);
   ("WP_UDP_BATCH_SIZE", udp_batch_size, 1);
   ("WP_FILE_BATCH_LINES", file_batch_lines, 1);
   ("WP_FILE_BATCH_BYTES", file_batch_bytes, KIB);
   ("WP_FIELD_QUERY_CACHE_CAP", field_query_cache_cap, 1);
   ("WP_PICKER_PENDING_MAX_BYTES", picker_pending_max_bytes, KIB);
   ("WP_DEBUG_VIEW_CHANNEL_CAP", debug_view_channel_cap, 1);
   ("WP_DEBUG_VIEW_BATCH_LINES", debug_view_batch_lines, 1);
   ("WP_CMD_CHANNEL_CAP", cmd_channel_cap, 1)].

Record limits_ok (l : MemoryLimits) : Prop := {
  ok_plain : Forall (fun s => s.2 <= s.1.2 l <= USIZE_MAX) plain_settings;
  ok_recv : KIB <= tcp_recv_bytes l <= 64 * MIB;
  ok_target : KIB <= tcp_shrink_target_bytes l <= tcp_recv_bytes l;
  ok_high : tcp_shrink_target_bytes l <= tcp_shrink_high_water_bytes l <= USIZE_MAX;
  ok_chunk : 4 * KIB <= file_chunk_bytes l <= 4 * MIB;
  ok_pool : 1 <= sink_pool_max l <= USIZE_MAX;
  ok_units : 1 <= sink_pool_unit_init_cap l <= sink_pool_unit_max_cap l
             /\ sink_pool_unit_max_cap l <= USIZE_MAX;
}.

(** Every limit of a value is a positive [usize]. *)
Definition positive (l : MemoryLimits) : Prop :=
  Forall (fun get : MemoryLimits -> Z => 1 <= get l <= USIZE_MAX)
    (map (fun s => s.1.2) plain_settings ++
     [tcp_recv_bytes; tcp_shrink_high_water_bytes; tcp_shrink_target_bytes; file_chunk_bytes;
      sink_pool_max; sink_pool_unit_max_cap; sink_pool_unit_init_cap]).

Lemma env_usize_range env n v : env_usize env n = Some v -> 1 <= v <= USIZE_MAX.
Proof.
  unfold env_usize. intros H. split_cases.
  match goal with H : parse_usize _ = Some _ |- _ => apply parse_usize_fits in H end.
  unfold fits in *. lia.
Qed.

Lemma override_range env n d : 1 <= d <= USIZE_MAX -> 1 <= default d (env_usize env n) <= USIZE_MAX.
Proof. destruct (env_usize env n) eqn:E; [|done]. by apply env_usize_range in E. Qed.

Lemma for_profile_positive k : positive (for_profile k).
Proof. unfold positive. destruct k; repeat constructor; vm_compute; congruence. Qed.

Lemma with_overrides_positive env l : positive l -> positive (with_overrides env l).
Proof.
  unfold positive. cbn [map app plain_settings fst snd]. intros H.
  repeat (apply Forall_cons in H as [? H]).
  repeat constructor; cbn [with_overrides parser_channel_cap];
    by apply override_range.
Qed.

Lemma normalize_ok l :
  positive l -> exists l', normalize l = Some l' /\ limits_ok l'.
Proof.
  unfold positive, normalize. cbn [map app plain_settings fst snd]. intros H.
  repeat (apply Forall_cons in H as [? H]). clear H.
  destruct (clamp_spec (tcp_recv_bytes l) KIB (64 * MIB)) as (recv & -> & Hr); [done|].
  cbn [mbind option_bind].
  destruct (clamp_spec (tcp_shrink_target_bytes l) KIB recv) as (target & -> & Ht); [lia|].
  destruct (clamp_spec (file_chunk_bytes l) (4 * KIB) (4 * MIB)) as (chunk & -> & Hc); [done|].
  eexists; split; [reflexivity|].
  assert (KIB = 1024 /\ MIB = 1048576 /\ USIZE_MAX = 18446744073709551615) as (Hk & Hm & Hu) by done.
  split; cbn; try lia.
  repeat constructor; cbn; lia.
Qed.

Lemma clamp_id z lo hi : lo <= z <= hi -> clamp z lo hi = Some z.
Proof.
  intros H. unfold clamp. destruct (Z.ltb_spec hi lo); [lia|].
  destruct (Z.ltb_spec z lo); [lia|]. destruct (Z.ltb_spec hi z); [lia|done].
Qed.

Lemma normalize_fixed l : limits_ok l -> normalize l = Some l.
Proof.
  intros [Hp Hr Ht Hh Hc Hpool Hunits]. unfold normalize.
  cbn [plain_settings] in Hp. repeat (apply Forall_cons in Hp as [? Hp]). cbn [fst snd] in *.
  rewrite !clamp_id by lia. cbn [mbind option_bind].
  rewrite clamp_id by lia. cbn [mbind option_bind].
  destruct l; cbn in *. f_equal. f_equal; lia.
Qed.

(** Whatever the environment holds, the limits are read without a
    panic, every one of them is inside its documented range, the shrink
    target lies below the high water mark and the receive buffer, the initial
    pool capacity below the maximal one, and normalising them again changes
    nothing. *)
Theorem from_env_well_formed (env : Env) :
  exists l, from_env env = Some l /\ limits_ok l /\ normalize l = Some l.
Proof.
  destruct (normalize_ok (with_overrides env (for_profile (profile_of_env env)))) as (l & Hl & Hok).
  { apply with_overrides_positive, for_profile_positive. }
  exists l. split; [done|]. split; [done|]. by apply normalize_fixed.
Qed.

(** A setting with only a lower bound is the environment's value
    when the variable holds a positive number, the profile's otherwise, raised
    to the bound. *)
Theorem from_env_override (env : Env) (l : MemoryLimits)
  (Hl : from_env env = Some l) :
  Forall (fun s => s.1.2 l =
            Z.max (default (s.1.2 (for_profile (profile_of_env env))) (env_usize env s.1.1)) s.2)
    plain_settings.
Proof.
  unfold from_env, normalize in Hl. cbn [mbind option_bind] in Hl.
  repeat match type of Hl with
  | context [clamp ?a ?b ?c] => destruct (clamp a b c); [cbn [mbind option_bind] in Hl|discriminate]
  end.
  injection Hl as <-. repeat constructor.
Qed.

Definition demo_env : Env := fun n =>
  if String.eqb n "WP_MEMORY_PROFILE" then Some " Low "
  else if String.eqb n "WP_PARSER_CHANNEL_CAP" then Some "7"
  else if String.eqb n "WP_TCP_BATCH_BYTES" then Some "12"
  else None.

Lemma from_env_override_witness :
  exists l, from_env demo_env = Some l /\ parser_channel_cap l = 7 /\ sink_channel_cap l = 16 /\
    tcp_batch_bytes l = KIB /\
    Forall (fun s => s.1.2 l =
            Z.max (default (s.1.2 (for_profile (profile_of_env demo_env))) (env_usize demo_env s.1.1)) s.2)
    plain_settings.
Proof.
  destruct (from_env demo_env) as [l|] eqn:E; [|discriminate].
  exists l. split; [done|].
  split; [vm_compute in E; by injection E as <-|].
  split; [vm_compute in E; by injection E as <-|].
  split; [vm_compute in E; by injection E as <-|].
  exact (from_env_override demo_env l E).
Defined.
