(* ===== verification/Round.v ===== *)
(** One burst round of the picker
    ([src/runtime/collector/realtime/picker/round.rs]) and its two planning
    policies ([policy.rs], constants in [../constants.rs]). *)
From Stdlib Require Import ZArith Lia.
From stdpp Require Import prelude.
From S2P Require Import Prelude.
Local Open Scope Z_scope.

(** ** RoundStat *)

Inductive DistStatus := DistReady | DistPending | DistTerminal.
Inductive SrcStatus := SrcReady | SrcMiss | SrcTerminal.

#[export] Instance DistStatus_eq_dec : EqDecision DistStatus.
Proof. solve_decision. Defined.
#[export] Instance SrcStatus_eq_dec : EqDecision SrcStatus.
Proof. solve_decision. Defined.

Record RoundStat := mkRoundStat {
  send_cnt : Z;
  merge_count : Z;
  round_idx : Z;
  dist_status : DistStatus;
  src_status : SrcStatus;
}.

Definition RoundStat_new : RoundStat := mkRoundStat 0 0 0 DistReady SrcReady.

Definition is_pending (r : RoundStat) : bool := bool_decide (dist_status r = DistPending).
Definition is_miss (r : RoundStat) : bool := bool_decide (src_status r = SrcMiss).

Definition terminal_by_round (r : RoundStat) (max : Z) : bool * RoundStat :=
  (max <=? round_idx r,
   mkRoundStat (send_cnt r) (merge_count r) (wrap_add 64 (round_idx r) 1) (dist_status r) (src_status r)).

Definition set_dist (r : RoundStat) (d : DistStatus) : RoundStat :=
  mkRoundStat (send_cnt r) (merge_count r) (round_idx r) d (src_status r).

Definition to_dist_pending (r : RoundStat) : RoundStat := set_dist r DistPending.
Definition to_dist_ready (r : RoundStat) : RoundStat := set_dist r DistReady.
Definition to_dist_terminal (r : RoundStat) : RoundStat := set_dist r DistTerminal.

Definition is_stop (r : RoundStat) : bool :=
  bool_decide (src_status r = SrcTerminal) || bool_decide (dist_status r = DistTerminal).

Definition add_proc (r : RoundStat) (delivered : Z) : RoundStat :=
  mkRoundStat (wrap_add 64 (send_cnt r) delivered) (merge_count r) (round_idx r)
    (dist_status r) (src_status r).

(** Both statuses are the other's, whatever this one's were. *)
Definition merge (r other : RoundStat) : RoundStat :=
  let r := add_proc r (send_cnt other) in
  mkRoundStat (send_cnt r) (wrap_add 64 (merge_count r) (wrap_add 64 (merge_count other) 1))
    (round_idx r) (dist_status other) (src_status other).

Definition need_wait (r : RoundStat) (have_cnt : Z) : bool :=
  ((send_cnt r =? 0) && is_pending r) || ((have_cnt =? 0) && is_miss r).

Definition up_src_status (r : RoundStat) (s : SrcStatus) : RoundStat :=
  mkRoundStat (send_cnt r) (merge_count r) (round_idx r) (dist_status r) s.

(** ** PostPolicy: exponential back-off in rounds *)

Definition PICKER_POST_BACKOFF_INITIAL_ROUNDS : Z := 1.
Definition PICKER_POST_BACKOFF_MAX_ROUNDS : Z := 8.
Definition PICKER_POST_BACKOFF_GROWTH_FACTOR : Z := 2.
Definition PICKER_PULL_LO_MULTIPLIER : Z := 2.
Definition PICKER_PULL_HI_MULTIPLIER : Z := 3.

Record PostPlan := mkPostPlan { post_allow : bool; batch_size : Z }.
Record PullPlan := mkPullPlan { pull_allow : bool; fetch_budget : Z }.

Record PostPolicy := mkPostPolicy {
  post_burst : Z;
  skip_rounds_left : Z;
  backoff_rounds : Z;
  max_backoff_rounds : Z;
}.

Definition PostPolicy_new (burst : Z) : PostPolicy :=
  mkPostPolicy burst 0 PICKER_POST_BACKOFF_INITIAL_ROUNDS PICKER_POST_BACKOFF_MAX_ROUNDS.

Definition in_cooldown (p : PostPolicy) : bool * PostPolicy :=
  if 0 <? skip_rounds_left p then
    (true, mkPostPolicy (post_burst p) (skip_rounds_left p - 1) (backoff_rounds p)
             (max_backoff_rounds p))
  else (false, p).

Definition plan_post (p : PostPolicy) (pending : Z) (full_post : bool) : PostPlan :=
  if pending =? 0 then mkPostPlan false 0
  else
    let batch := if full_post then pending else Z.min pending (post_burst p) in
    mkPostPlan (0 <? batch) batch.

Definition on_post_result (p : PostPolicy) (progressed : bool) : PostPolicy :=
  if progressed then mkPostPolicy (post_burst p) 0 1 (max_backoff_rounds p)
  else
    let next := sat_mul U32_MAX (backoff_rounds p) PICKER_POST_BACKOFF_GROWTH_FACTOR in
    mkPostPolicy (post_burst p) (backoff_rounds p) (Z.min next (max_backoff_rounds p))
      (max_backoff_rounds p).

(** ** PullPolicy: watermarks in batches *)

Record PullPolicy := mkPullPolicy { pull_burst : Z; lo : Z; hi : Z }.

Definition PullPolicy_new (burst : Z) : PullPolicy :=
  let lo := Z.max (sat_mul USIZE_MAX burst PICKER_PULL_LO_MULTIPLIER) 1 in
  let hi := Z.max (sat_mul USIZE_MAX burst PICKER_PULL_HI_MULTIPLIER) lo in
  mkPullPolicy burst lo hi.

Definition plan_pull (p : PullPolicy) (pending : Z) : PullPlan :=
  if hi p <=? pending then mkPullPlan false 0
  else
    let room := sat_sub (hi p) pending in
    let budget := Z.min room (pull_burst p) in
    mkPullPlan (0 <? budget) budget.

Definition plan_pull_fixed_rate (p : PullPolicy) : PullPlan :=
  mkPullPlan (0 <? pull_burst p) (pull_burst p).

(** ** Behaviour of the policies *)

Record post_wf (p : PostPolicy) : Prop := {
  wf_skip : 0 <= skip_rounds_left p <= PICKER_POST_BACKOFF_MAX_ROUNDS;
  wf_backoff : 1 <= backoff_rounds p <= PICKER_POST_BACKOFF_MAX_ROUNDS;
  wf_max : max_backoff_rounds p = PICKER_POST_BACKOFF_MAX_ROUNDS;
}.

Lemma PostPolicy_new_wf b : post_wf (PostPolicy_new b).
Proof. split; cbn; unfold PICKER_POST_BACKOFF_MAX_ROUNDS, PICKER_POST_BACKOFF_INITIAL_ROUNDS; lia. Qed.

Lemma in_cooldown_wf p : post_wf p -> post_wf (in_cooldown p).2.
Proof.
  intros [H1 H2 H3]. unfold in_cooldown. destruct (Z.ltb_spec 0 (skip_rounds_left p)); [|done].
  split; cbn; lia.
Qed.

Lemma on_post_result_wf p b : post_wf p -> post_wf (on_post_result p b).
Proof.
  intros [H1 H2 H3]. unfold on_post_result, PICKER_POST_BACKOFF_GROWTH_FACTOR, sat_mul, U32_MAX,
    PICKER_POST_BACKOFF_MAX_ROUNDS in *.
  destruct b; split; cbn; unfold PICKER_POST_BACKOFF_MAX_ROUNDS; lia.
Qed.

Lemma plan_pull_room p pending :
  0 <= pending -> 0 <= pull_burst p ->
  0 <= fetch_budget (plan_pull p pending) <= pull_burst p /\
  (pull_allow (plan_pull p pending) = true -> pending + fetch_budget (plan_pull p pending) <= hi p).
Proof.
  intros Hp Hb. unfold plan_pull, sat_sub. destruct (Z.leb_spec (hi p) pending); cbn; [split; [lia|done]|].
  split; lia.
Qed.

Lemma PullPolicy_new_bounds b :
  0 <= b <= USIZE_MAX ->
  1 <= lo (PullPolicy_new b) <= hi (PullPolicy_new b) /\ hi (PullPolicy_new b) <= USIZE_MAX.
Proof.
  unfold PullPolicy_new, sat_mul, PICKER_PULL_LO_MULTIPLIER, PICKER_PULL_HI_MULTIPLIER, USIZE_MAX.
  cbn [lo hi]. lia.
Qed.

(** The policy across rounds in which something is pending: [results] holds
    what each attempt would report; the trace says which rounds attempted. *)
Fixpoint post_rounds (p : PostPolicy) (results : list bool) : list bool * PostPolicy :=
  match results with
  | [] => ([], p)
  | r :: rs =>
      let '(cool, p) := in_cooldown p in
      let '(tr, p') := post_rounds (if cool then p else on_post_result p r) rs in
      (negb cool :: tr, p')
  end.

Lemma post_rounds_wf p rs : post_wf p -> post_wf (post_rounds p rs).2.
Proof.
  revert p. induction rs as [|r rs IH]; intros p H; [done|]. cbn [post_rounds].
  pose proof (in_cooldown_wf p H) as Hc. destruct (in_cooldown p) as [cool p1]. cbn in Hc.
  assert (post_wf (if cool then p1 else on_post_result p1 r)) as H2
    by (destruct cool; [done|by apply on_post_result_wf]).
  specialize (IH _ H2). destruct (post_rounds _ rs). done.
Qed.

(** A cooling policy skips exactly [skip_rounds_left] rounds. *)
Lemma post_rounds_skip p rs :
  0 <= skip_rounds_left p ->
  let n := Z.to_nat (skip_rounds_left p) in
  (n <= length rs)%nat ->
  post_rounds p rs =
    let q := mkPostPolicy (post_burst p) 0 (backoff_rounds p) (max_backoff_rounds p) in
    let '(tr, p') := post_rounds q (drop n rs) in (replicate n false ++ tr, p').
Proof.
  destruct p as [b s k m]; cbn. intros Hs. revert rs.
  pattern s. apply natlike_ind; [|clear s Hs|done].
  - cbn. intros rs _. destruct (post_rounds _ _). done.
  - intros s Hs IH [|r rs]; rewrite Z2Nat.inj_succ by lia; cbn [length drop replicate app]; [lia|].
    intros Hl. cbn [post_rounds]. unfold in_cooldown at 1. cbn [skip_rounds_left post_burst backoff_rounds max_backoff_rounds].
    destruct (Z.ltb_spec 0 (Z.succ s)); [|lia].
    replace (Z.succ s - 1) with s by lia. rewrite IH by lia.
    destruct (post_rounds _ (drop _ _)). done.
Qed.

(** A policy that is not cooling attempts at once. *)
Lemma post_rounds_ready p r rs :
  skip_rounds_left p = 0 -> exists tr p', post_rounds p (r :: rs) = (true :: tr, p').
Proof.
  intros H. cbn. unfold in_cooldown. rewrite H. cbn.
  destruct (post_rounds _ rs) as [tr p']. by eexists _, _.
Qed.

(** The rounds a permanently blocked downstream sees: an attempt, then one,
    two, four, eight, eight, ... rounds of silence. *)
Fixpoint blocked_schedule (from n : nat) : list bool :=
  match n with
  | O => []
  | S n => true :: replicate (2 ^ Nat.min from 3) false ++ blocked_schedule (S from) n
  end.

Definition backoff_after (burst : Z) (k : nat) : PostPolicy :=
  mkPostPolicy burst 0 (2 ^ Z.of_nat (Nat.min k 3)) PICKER_POST_BACKOFF_MAX_ROUNDS.

Lemma on_post_fail_backoff b k :
  on_post_result (backoff_after b k) false =
    mkPostPolicy b (2 ^ Z.of_nat (Nat.min k 3)) (2 ^ Z.of_nat (Nat.min (S k) 3))
      PICKER_POST_BACKOFF_MAX_ROUNDS.
Proof.
  unfold on_post_result, backoff_after. cbn [post_burst backoff_rounds max_backoff_rounds]. f_equal.
  unfold sat_mul, PICKER_POST_BACKOFF_GROWTH_FACTOR, PICKER_POST_BACKOFF_MAX_ROUNDS, U32_MAX.
  destruct k as [|[|[|k]]]; [done..|].
  replace (Nat.min (S (S (S k))) 3) with 3%nat by lia.
  replace (Nat.min (S (S (S (S k)))) 3) with 3%nat by lia. done.
Qed.

Lemma pow2_nat k : Z.to_nat (2 ^ Z.of_nat k) = (2 ^ k)%nat.
Proof. rewrite <- (Nat2Z.id (2 ^ k)), Nat2Z.inj_pow. done. Qed.

Lemma blocked_from b k n :
  post_rounds (backoff_after b k) (replicate (length (blocked_schedule k n)) false) =
    (blocked_schedule k n, backoff_after b (k + n)).
Proof.
  revert k. induction n as [|n IH]; intros k; [by rewrite Nat.add_0_r|].
  cbn [blocked_schedule length replicate post_rounds].
  change (in_cooldown (backoff_after b k)) with (false, backoff_after b k). cbv beta iota.
  rewrite on_post_fail_backoff, post_rounds_skip; cbn [skip_rounds_left post_burst backoff_rounds max_backoff_rounds];
    rewrite ?pow2_nat; [|apply Z.pow_nonneg; lia|rewrite length_replicate, length_app, length_replicate; lia].
  rewrite drop_replicate, length_app, length_replicate.
  replace (2 ^ Nat.min k 3 + length (blocked_schedule (S k) n) - 2 ^ Nat.min k 3)%nat
    with (length (blocked_schedule (S k) n)) by lia.
  change (mkPostPolicy b 0 (2 ^ Z.of_nat (Nat.min (S k) 3)) PICKER_POST_BACKOFF_MAX_ROUNDS)
    with (backoff_after b (S k)).
  rewrite IH. replace (S k + n)%nat with (k + S n)%nat by lia. done.
Qed.

(** While the parsers accept nothing, a fresh post policy attempts,
    then stays silent for 1, 2, 4 and from then on 8 rounds between attempts:
    the rounds of the first [n] attempts are exactly the doubling schedule
    capped at 8. *)
Theorem post_backoff_schedule (burst : Z) (n : nat) :
  post_rounds (PostPolicy_new burst) (replicate (length (blocked_schedule 0 n)) false) =
    (blocked_schedule 0 n, backoff_after burst n).
Proof. exact (blocked_from burst 0 n). Qed.

(** Whatever happened before and whatever the parsers answer, among
    any nine consecutive rounds with pending batches at least one attempts a
    post, and the round after a successful attempt attempts again. *)
Theorem post_no_starvation (burst : Z) (before after : list bool)
  (Hlen : (9 <= length after)%nat) :
  let p := (post_rounds (PostPolicy_new burst) before).2 in
  Exists (eq true) (take 9 (post_rounds p after).1) /\
  (in_cooldown p = (false, p) -> take 1 (post_rounds (on_post_result p true) after).1 = [true]).
Proof.
  cbn zeta. set (p := (post_rounds _ before).2).
  assert (post_wf p) as [Hs Hb Hm] by apply post_rounds_wf, PostPolicy_new_wf.
  unfold PICKER_POST_BACKOFF_MAX_ROUNDS in *. split.
  - set (n := Z.to_nat (skip_rounds_left p)).
    rewrite post_rounds_skip by lia. fold n. cbn zeta.
    destruct (drop n after) as [|a rest] eqn:Ed.
    { apply (f_equal length) in Ed. rewrite length_drop in Ed. cbn in Ed. lia. }
    match goal with |- context [post_rounds ?q (a :: rest)] =>
      destruct (post_rounds_ready q a rest eq_refl) as (tr & p' & ->) end. cbn [fst].
    rewrite take_app, length_replicate. apply Exists_app. right.
    replace (9 - n)%nat with (S (8 - n)) by lia. by left.
  - intros _. destruct after; [cbn in Hlen; lia|]. cbn.
    destruct (post_rounds _ after); done.
Qed.

Lemma post_no_starvation_witness :
  let p := (post_rounds (PostPolicy_new 16) [false; true; false; false; false]).2 in
  Exists (eq true) (take 9 (post_rounds p (replicate 10 false)).1) /\
  (in_cooldown p = (false, p) ->
   take 1 (post_rounds (on_post_result p true) (replicate 10 false)).1 = [true]).
Proof. apply (post_no_starvation 16 [false; true; false; false; false] (replicate 10 false)); cbn; lia. Defined.
