(* ===== verification/Router.v ===== *)
(** Round-robin dispatch of batches to the parser workers
    ([ParseDispatchRouter], [src/runtime/parser/workflow.rs]).

    A worker's queue is a [tokio::sync::mpsc] sender, code outside the
    repository: it is a [Channel], an interface with the documented laws of
    [try_send].  The router's [Arc]s are shared by all pickers; one value of
    [Router] is the state they share between two calls. *)
From Stdlib Require Import ZArith Lia.
From stdpp Require Import prelude.
From S2P Require Import Prelude.
Local Open Scope Z_scope.

(** ** The channel interface *)

Inductive SendRes (B : Type) :=
  | SendOk
  | SendFull (b : B)
  | SendClosed (b : B).
Arguments SendOk {B}.
Arguments SendFull {B} b.
Arguments SendClosed {B} b.

(** [accepted] is the history of the batches a channel has taken, in order;
    what its receiver has drained since does not matter. *)
Class Channel (B C : Type) := {
  try_send : C -> B -> C * SendRes B;
  accepted : C -> list B;
}.

Class ChannelLaws (B C : Type) `{Channel B C} := {
  send_ok c b c' : try_send c b = (c', SendOk) -> accepted c' = accepted c ++ [b];
  send_full c b c' b' : try_send c b = (c', SendFull b') -> b' = b /\ accepted c' = accepted c;
  send_closed c b c' b' : try_send c b = (c', SendClosed b') -> b' = b /\ accepted c' = accepted c;
}.

(** ** The router *)

Section Router.
Context {B C : Type} `{Channel B C}.

(** [senders], [next_idx] and [reloading]. *)
Record ParseDispatchRouter := mkRouter {
  senders : list C;
  next_idx : Z;
  reloading : bool;
}.

Inductive ParseDispatchResult :=
  | Sent
  | Full (batch : B)
  | Reloading (batch : B)
  | Closed (batch : B).

Definition new (ss : list C) : ParseDispatchRouter := mkRouter ss 0 false.
Definition empty : ParseDispatchRouter := new [].
Definition replace (r : ParseDispatchRouter) (ss : list C) : ParseDispatchRouter := mkRouter ss 0 false.
Definition begin_reload (r : ParseDispatchRouter) : ParseDispatchRouter := mkRouter [] 0 true.
Definition snapshot (r : ParseDispatchRouter) : list C := senders r.
Definition len (r : ParseDispatchRouter) : nat := length (senders r).
Definition is_empty (r : ParseDispatchRouter) : bool := (len r =? 0)%nat.

(** [for offset in 0..senders.len()], [k] offsets still to try.  The index is
    always below the length ([send_loop_spec]); [None] cannot happen. *)
Fixpoint send_loop (cs : list C) (start k : nat) (pending : B) (saw_full : bool)
    : list C * ParseDispatchResult :=
  match k with
  | O => (cs, if saw_full then Full pending else Closed pending)
  | S k' =>
      let offset := (length cs - k)%nat in
      let idx := ((start + offset) mod length cs)%nat in
      match cs !! idx with
      | None => (cs, Closed pending)
      | Some c =>
          match try_send c pending with
          | (c', SendOk) => (<[idx := c']> cs, Sent)
          | (c', SendFull b) => send_loop (<[idx := c']> cs) start k' b true
          | (c', SendClosed b) => send_loop (<[idx := c']> cs) start k' b saw_full
          end
      end
  end.

Definition try_send_round_robin (r : ParseDispatchRouter) (batch : B)
    : ParseDispatchRouter * ParseDispatchResult :=
  let cs := snapshot r in
  match cs with
  | [] => (r, if reloading r then Reloading batch else Closed batch)
  | _ =>
      let start := Z.to_nat (next_idx r mod zlen cs) in
      let r := mkRouter cs (wrap_add 64 (next_idx r) 1) (reloading r) in
      let '(cs', res) := send_loop cs start (length cs) batch false in
      (mkRouter cs' (next_idx r) (reloading r), res)
  end.

(** Sending batches one after the other, with the results. *)
Fixpoint send_all (r : ParseDispatchRouter) (bs : list B)
    : ParseDispatchRouter * list ParseDispatchResult :=
  match bs with
  | [] => (r, [])
  | b :: bs =>
      let '(r, res) := try_send_round_robin r b in
      let '(r, rest) := send_all r bs in
      (r, res :: rest)
  end.

(** ** Laws *)

Context `{!ChannelLaws B C}.

(** The histories of all workers. *)
Definition histories (cs : list C) : list (list B) := map accepted cs.

Lemma histories_insert_same cs i c c' :
  cs !! i = Some c -> accepted c' = accepted c -> histories (<[i := c']> cs) = histories cs.
Proof.
  intros Hi Hacc. unfold histories. rewrite list_fmap_insert, Hacc.
  apply list_insert_id. by rewrite list_lookup_fmap, Hi.
Qed.

(** The answer channel [i] would give to the batch. *)
Definition offer (cs : list C) (b : B) (i : nat) : option (SendRes B) :=
  (fun c => (try_send c b).2) <$> cs !! i.

(** The channel tried at an offset, and the refusals before it. *)
Definition slot (cs : list C) (start o : nat) : nat := ((start + o) mod length cs)%nat.

Definition refused (cs : list C) (b : B) (i : nat) : Prop :=
  offer cs b i = Some (SendFull b) \/ offer cs b i = Some (SendClosed b).

Definition some_full (cs : list C) (b : B) (start k : nat) : Prop :=
  exists o, (o < k)%nat /\ offer cs b (slot cs start o) = Some (SendFull b).

(** What one dispatch does: the batch goes to the first channel in ring order
    that takes it, and to no other; otherwise it comes back and no history
    changes, as [Full] when some channel was full, as [Closed] when all were
    closed. *)
Definition dispatched (cs cs' : list C) (start : nat) (b : B) (res : ParseDispatchResult) : Prop :=
  length cs' = length cs /\
  match res with
  | Sent => exists o h, (o < length cs)%nat /\
              (forall o', (o' < o)%nat -> refused cs b (slot cs start o')) /\
              offer cs b (slot cs start o) = Some SendOk /\
              histories cs !! slot cs start o = Some h /\
              histories cs' = <[slot cs start o := h ++ [b]]> (histories cs)
  | Full b' => b' = b /\ histories cs' = histories cs /\
              (forall o, (o < length cs)%nat -> refused cs b (slot cs start o)) /\
              some_full cs b start (length cs)
  | Closed b' => b' = b /\ histories cs' = histories cs /\
              (forall o, (o < length cs)%nat -> offer cs b (slot cs start o) = Some (SendClosed b))
  | Reloading _ => False
  end.

Lemma slot_inj n start o o' :
  (o < n)%nat -> (o' < n)%nat -> ((start + o) mod n = (start + o') mod n)%nat -> o = o'.
Proof.
  intros Ho Ho' E.
  pose proof (Nat.div_mod (start + o) n ltac:(lia)) as H1.
  pose proof (Nat.div_mod (start + o') n ltac:(lia)) as H2. rewrite E in H1.
  destruct (lt_eq_lt_dec ((start + o) / n) ((start + o') / n)) as [[Hl|He]|Hl]; nia.
Qed.

(** The loop after [n - k] refusals: the channels not yet tried are as before,
    no history has changed. *)
Lemma send_loop_spec cs0 cs start k b (saw : bool) :
  (k <= length cs0)%nat -> (0 < length cs0)%nat -> length cs = length cs0 ->
  (forall o, (length cs0 - k <= o < length cs0)%nat ->
     cs !! slot cs0 start o = cs0 !! slot cs0 start o) ->
  (forall o, (o < length cs0 - k)%nat -> refused cs0 b (slot cs0 start o)) ->
  (if saw then some_full cs0 b start (length cs0 - k)
   else forall o, (o < length cs0 - k)%nat ->
     offer cs0 b (slot cs0 start o) = Some (SendClosed b)) ->
  histories cs = histories cs0 ->
  let r := send_loop cs start k b saw in dispatched cs0 r.1 start b r.2.
Proof.
  set (n := length cs0). revert cs saw.
  induction k as [|k IH]; intros cs saw Hk Hn Hlen Hfresh Href Hsaw Hh; cbn [send_loop]; cbn zeta.
  { rewrite Nat.sub_0_r in *. destruct saw; cbn; by split_and!. }
  rewrite Hlen. change ((start + (n - S k)) mod n)%nat with (slot cs0 start (n - S k)).
  set (o := (n - S k)%nat) in *. set (idx := slot cs0 start o).
  assert (idx < n)%nat as Hidx by (apply Nat.mod_upper_bound; lia).
  destruct (lookup_lt_is_Some_2 cs0 idx Hidx) as [c Hc].
  assert (offer cs0 b idx = Some (try_send c b).2) as Hoff by (unfold offer; by rewrite Hc).
  assert (cs !! idx = Some c) as Hc' by (unfold idx; rewrite Hfresh by lia; done).
  rewrite Hc'.
  (* one more refusal, with the invariant of the loop restored *)
  assert (forall c', accepted c' = accepted c -> forall o', (n - k <= o' < n)%nat ->
            <[idx := c']> cs !! slot cs0 start o' = cs0 !! slot cs0 start o') as Hfresh'.
  { intros c' _ o' Ho'. rewrite list_lookup_insert_ne; [apply Hfresh; lia|].
    intros E. apply slot_inj in E; lia. }
  assert (refused cs0 b idx -> forall o', (o' < n - k)%nat -> refused cs0 b (slot cs0 start o')) as Href'.
  { intros Hr o' Ho'. destruct (decide (o' = o)) as [->|]; [done|]. apply Href; lia. }
  destruct (try_send c b) as [c' [|b'|b']] eqn:E; cbn [snd] in Hoff.
  - split; [cbn [fst]; by rewrite length_insert|]. exists o, (accepted c).
    split_and!; [lia|exact Href|done| |].
    + by rewrite <- Hh; unfold histories; rewrite list_lookup_fmap; fold idx; rewrite Hc'.
    + cbn [fst]. rewrite <- Hh. unfold histories. by rewrite list_fmap_insert, (send_ok _ _ _ E).
  - apply send_full in E as [-> Hacc]. apply (IH (<[idx:=c']> cs) true); [lia|done| | | | |].
    + by rewrite length_insert.
    + by apply Hfresh'.
    + apply Href'. by left.
    + exists o. split; [lia|done].
    + by rewrite (histories_insert_same cs idx c c').
  - apply send_closed in E as [-> Hacc]. apply (IH (<[idx:=c']> cs) saw); [lia|done| | | | |].
    + by rewrite length_insert.
    + by apply Hfresh'.
    + apply Href'. by right.
    + destruct saw.
      * destruct Hsaw as (o' & ? & ?). exists o'. split; [lia|done].
      * intros o' Ho'. destruct (decide (o' = o)) as [->|]; [done|]. apply Hsaw; lia.
    + by rewrite (histories_insert_same cs idx c c').
Qed.

(** A refused batch comes back as it was. *)
Definition returns (b : B) (res : ParseDispatchResult) : Prop :=
  match res with Sent => True | Full b' | Reloading b' | Closed b' => b' = b end.

Lemma dispatch_returns r b : returns b (try_send_round_robin r b).2.
Proof.
  unfold try_send_round_robin, snapshot. destruct (senders r) as [|c cs] eqn:E.
  { by destruct (reloading r). }
  pose proof (send_loop_spec (c :: cs) (c :: cs) (Z.to_nat (next_idx r mod zlen (c :: cs)))
                (length (c :: cs)) b false) as Hs.
  rewrite Nat.sub_diag in Hs. cbn zeta in Hs. destruct (send_loop _ _ _ _ _) as [cs' res].
  destruct Hs as [_ Hs]; try (done || cbn; lia). by destruct res; cbn in *; naive_solver.
Qed.

(** One dispatch hands the batch to the first worker in ring order,
    starting at the cursor, whose channel takes it, appends it to that worker's
    history and to no other; when every channel refuses, the batch comes back
    unchanged and nothing was delivered, as [Full] exactly when some channel
    was full and as [Closed] when all were closed; with no workers it comes
    back as [Reloading] during a reload and as [Closed] otherwise. *)
Theorem dispatch_round_robin (r : ParseDispatchRouter) (b : B) :
  let '(r', res) := try_send_round_robin r b in
  reloading r' = reloading r /\
  match senders r with
  | [] => r' = r /\ res = if reloading r then Reloading b else Closed b
  | _ => next_idx r' = wrap_add 64 (next_idx r) 1 /\
         dispatched (senders r) (senders r') (Z.to_nat (next_idx r mod zlen (senders r))) b res
  end.
Proof.
  unfold try_send_round_robin, snapshot. destruct (senders r) as [|c cs] eqn:E; [done|].
  pose proof (send_loop_spec (c :: cs) (c :: cs) (Z.to_nat (next_idx r mod zlen (c :: cs)))
                (length (c :: cs)) b false) as Hs.
  rewrite Nat.sub_diag in Hs.
  cbn zeta in Hs. destruct (send_loop _ _ _ _ _) as [cs' res].
  split; [done|]. split; [done|]. apply Hs; (done || cbn; lia).
Qed.

(** The batches that fall to worker [i] of [n] when the cursor starts at
    [start]: every [n]-th one. *)
Fixpoint share (n start : Z) (bs : list B) (i : nat) : list B :=
  match bs with
  | [] => []
  | b :: bs => (if decide (start mod n = Z.of_nat i) then [b] else []) ++ share n (start + 1) bs i
  end.

(** A channel that never refuses. *)
Definition always_ready (ready : C -> Prop) : Prop :=
  forall c b, ready c -> (try_send c b).2 = SendOk /\ ready (try_send c b).1.

Lemma send_ready ready r b :
  always_ready ready -> Forall ready (senders r) -> senders r <> [] ->
  exists c, let idx := Z.to_nat (next_idx r mod zlen (senders r)) in
    senders r !! idx = Some c /\
    try_send_round_robin r b =
      (mkRouter (<[idx := (try_send c b).1]> (senders r)) (wrap_add 64 (next_idx r) 1) (reloading r), Sent).
Proof.
  intros Hr Hall Hne. unfold try_send_round_robin, snapshot.
  set (idx := Z.to_nat (next_idx r mod zlen (senders r))).
  assert (0 < length (senders r))%nat as Hn by (destruct (senders r); cbn; [done|lia]).
  assert (idx < length (senders r))%nat as Hidx.
  { pose proof (Z.mod_pos_bound (next_idx r) (zlen (senders r))). unfold idx, zlen in *. lia. }
  destruct (lookup_lt_is_Some_2 _ idx Hidx) as [c Hc]. exists c. split; [done|].
  destruct (senders r) as [|c0 cs] eqn:E; [done|]. cbn zeta. rewrite <- E in *.
  fold idx. destruct (length (senders r)) as [|k] eqn:El; [lia|]. cbn [send_loop].
  rewrite El, Nat.sub_diag, Nat.add_0_r, (Nat.mod_small idx) by lia. rewrite Hc.
  assert (ready c) as Hrc by (eapply Forall_lookup_1; [exact Hall|exact Hc]).
  destruct (Hr c b Hrc) as [Hok _]. destruct (try_send c b) as [c' res]. cbn in Hok |- *. by subst res.
Qed.

(** While the workers' channels take what they are offered, a run of
    dispatches is always delivered, and worker [i] receives exactly every
    [n]-th batch, in order, as counted from the cursor (until the cursor wraps
    at 2^64). *)
Theorem round_robin_fair (ready : C -> Prop) (r : ParseDispatchRouter) (bs : list B)
  (Hready : always_ready ready)
  (Hall : Forall ready (senders r))
  (Hne : senders r <> [])
  (Hidx : 0 <= next_idx r) (Hwrap : next_idx r + zlen bs < 2 ^ 64) :
  let '(r', res) := send_all r bs in
  Forall (eq Sent) res /\
  forall i h, histories (senders r) !! i = Some h ->
    histories (senders r') !! i = Some (h ++ share (zlen (senders r)) (next_idx r) bs i).
Proof.
  revert r Hall Hne Hidx Hwrap. induction bs as [|b bs IH]; intros r Hall Hne Hidx Hwrap; cbn [send_all].
  { split; [done|]. intros i h Hh. cbn. by rewrite app_nil_r. }
  destruct (send_ready ready r b Hready Hall Hne) as (c & Hc & ->).
  set (idx := Z.to_nat (next_idx r mod zlen (senders r))) in *. cbn zeta.
  rewrite zlen_cons in Hwrap. pose proof (zlen_nonneg bs).
  rewrite wrap_add_exact by lia.
  destruct (Hready c b ltac:(eapply Forall_lookup_1; [exact Hall|exact Hc])) as [Hok Hrc'].
  assert (accepted (try_send c b).1 = accepted c ++ [b]) as Hacc.
  { destruct (try_send c b) as [c' res] eqn:E. cbn in Hok; subst res. exact (send_ok _ _ _ E). }
  set (r1 := mkRouter (<[idx:=(try_send c b).1]> (senders r)) (next_idx r + 1) (reloading r)).
  specialize (IH r1). cbn [senders next_idx r1] in IH.
  destruct (send_all r1 bs) as [r' res].
  assert (zlen (<[idx:=(try_send c b).1]> (senders r)) = zlen (senders r)) as Hlen
    by (unfold zlen; by rewrite length_insert).
  rewrite Hlen in IH.
  destruct IH as [Hres IH]; [by apply Forall_insert| |lia|lia|].
  { intros E. apply (f_equal length) in E. rewrite length_insert in E. destruct (senders r); done. }
  split; [by constructor|]. intros i h Hh. cbn [share].
  assert (next_idx r mod zlen (senders r) = Z.of_nat i <-> idx = i) as Hi.
  { pose proof (Z.mod_pos_bound (next_idx r) (zlen (senders r))).
    assert (0 < zlen (senders r)) by (unfold zlen; destruct (senders r); cbn; [done|lia]).
    unfold idx. lia. }
  destruct (decide (next_idx r mod zlen (senders r) = Z.of_nat i)) as [Hd|Hd].
  - apply Hi in Hd. subst i. rewrite app_assoc. apply IH.
    unfold histories in *. rewrite list_fmap_insert, list_lookup_insert_eq, Hacc.
    + rewrite list_lookup_fmap, Hc in Hh. cbn in Hh. by simplify_eq.
    + rewrite length_fmap. by apply lookup_lt_Some in Hc.
  - apply IH. unfold histories in *. rewrite list_fmap_insert, list_lookup_insert_ne; [done|]. tauto.
Qed.

End Router.
Arguments ParseDispatchRouter : clear implicits.
Arguments ParseDispatchResult : clear implicits.

(** ** A bounded channel

    The documented behaviour of [mpsc::Sender::try_send], used to evaluate the
    model: capacity, queue and history of the sends, and whether the receiver
    is gone. *)
Record BoundedChannel (B : Type) := mkChan {
  chan_cap : option nat;
  chan_queue : list B;
  chan_history : list B;
  chan_closed : bool;
}.
Arguments mkChan {B}.
Arguments chan_cap {B}.
Arguments chan_queue {B}.
Arguments chan_history {B}.
Arguments chan_closed {B}.

#[export] Instance BoundedChannel_channel (B : Type) : Channel B (BoundedChannel B) := {
  try_send c b :=
    if chan_closed c then (c, SendClosed b)
    else if match chan_cap c with Some n => (n <=? length (chan_queue c))%nat | None => false end
    then (c, SendFull b)
    else (mkChan (chan_cap c) (chan_queue c ++ [b]) (chan_history c ++ [b]) false, SendOk);
  accepted c := chan_history c;
}.

#[export] Instance BoundedChannel_laws (B : Type) : ChannelLaws B (BoundedChannel B).
Proof.
  split; intros c b c'; [|intros b'..]; cbn; repeat case_match; intros; simplify_eq; done.
Qed.

Definition unbounded_open {B} (c : BoundedChannel B) : Prop :=
  chan_closed c = false /\ chan_cap c = None.

Lemma unbounded_ready B : always_ready (B := B) unbounded_open.
Proof. intros c b [H1 H2]. cbn. rewrite H1, H2. done. Qed.

Definition open_chan (B : Type) (cap : option nat) : BoundedChannel B := mkChan cap [] [] false.

Lemma round_robin_fair_witness :
  let r := mkRouter [open_chan nat None; open_chan nat None; open_chan nat None] 4 false in
  let '(r', res) := send_all r [10; 11; 12; 13]%nat in
  Forall (eq Sent) res /\
  forall i h, histories (senders r) !! i = Some h ->
    histories (senders r') !! i = Some (h ++ share 3 4 [10; 11; 12; 13]%nat i).
Proof.
  apply (round_robin_fair (B := nat) unbounded_open
    (mkRouter [open_chan nat None; open_chan nat None; open_chan nat None] 4 false) [10; 11; 12; 13]%nat
    (unbounded_ready nat)); [repeat (apply Forall_cons_2; [by split|]); apply Forall_nil_2|done|cbn; lia|vm_compute; reflexivity].
Defined.

Example dispatch_skips_full :
  (try_send_round_robin
     (mkRouter [open_chan nat (Some 0%nat); open_chan nat (Some 1%nat)] 0 false) 7%nat).2 = Sent.
Proof. reflexivity. Qed.

Lemma dispatch_round_robin_witness :
  let r := mkRouter [open_chan nat (Some 0%nat); open_chan nat (Some 1%nat)] 0 false in
  let '(r', res) := try_send_round_robin r 7%nat in
  reloading r' = reloading r /\
  match senders r with
  | [] => r' = r /\ res = if reloading r then Reloading 7%nat else Closed 7%nat
  | _ => next_idx r' = wrap_add 64 (next_idx r) 1 /\
         dispatched (senders r) (senders r') (Z.to_nat (next_idx r mod zlen (senders r))) 7%nat res
  end.
Proof.
  exact (dispatch_round_robin
    (mkRouter [open_chan nat (Some 0%nat); open_chan nat (Some 1%nat)] 0 false) 7%nat).
Defined.
