(* ===== verification/ErrPolicy.v ===== *)
(** Error classification: the runtime's mapping of sink, parse and source
    errors to a strategy ([src/runtime/errors/mod.rs]) and the three policies
    behind [current_error_policy] ([src/core/error/strategies/*.rs]).

    The error reasons are enums of the connector and error crates; their
    constructors are the ones the exhaustive matches of the code name. *)
From Stdlib Require Import String.
From stdpp Require Import prelude strings.
From S2P Require Import Prelude.

Inductive UnifiedReason :=
  | ValidationError | LogicError | DataError | SystemError | BusinessError | RunRuleError
  | NotFoundError | PermissionError | NetworkError | ResourceError | TimeoutError
  | ConfigError (e : string) | ExternalError.

Inductive SinkReason := SinkFailed | SinkMock | SinkStgCtrl | SinkUvs (e : UnifiedReason).
Inductive SourceReason :=
  | SupplierError | NotData | EOF | Disconnect | SourceOther | SourceUvs (e : UnifiedReason).
Inductive WparseReason :=
  | ParsePlugin (m : string) | ParseLineProc (m : string) | ParseNotMatch
  | ParseUvs (e : UnifiedReason).
Inductive OMLCodeReason := OmlSyntax (m : string) | OmlNotFound (m : string) | OmlUvs (e : UnifiedReason).
Inductive WplCodeReason := WplPlugin | WplSyntax | WplEmpty | WplUnSupport | WplUvs (e : UnifiedReason).

Inductive RobustnessMode := Debug_ | Normal | Strict.

Inductive ErrorHandlingStrategy := FixRetry | Tolerant | Ignore | Terminate | Throw.

#[export] Instance ErrorHandlingStrategy_eq_dec : EqDecision ErrorHandlingStrategy.
Proof. solve_decision. Defined.

(** ** The runtime's mapping *)

Definition universal_proc_stg (mode : RobustnessMode) (e : UnifiedReason) : ErrorHandlingStrategy :=
  match e with
  | ValidationError => Throw
  | LogicError => match mode with Strict => Tolerant | _ => Throw end
  | DataError => Tolerant
  | SystemError => Tolerant
  | BusinessError => Tolerant
  | RunRuleError => Throw
  | NotFoundError => Throw
  | PermissionError => Throw
  | NetworkError => Throw
  | ResourceError => Throw
  | TimeoutError => Throw
  | ConfigError _ => Throw
  | ExternalError => Throw
  end.

Definition err4_send_to_sink (err : SinkReason) (mode : RobustnessMode) : ErrorHandlingStrategy :=
  match err with
  | SinkFailed | SinkMock | SinkStgCtrl => FixRetry
  | SinkUvs e => universal_proc_stg mode e
  end.

Definition err4_engine_parse_data (err : WparseReason) (mode : RobustnessMode) : ErrorHandlingStrategy :=
  match err with
  | ParsePlugin _ | ParseLineProc _ | ParseNotMatch => Ignore
  | ParseUvs e => universal_proc_stg mode e
  end.

Definition err4_dispatch_data (err : SourceReason) (mode : RobustnessMode) : ErrorHandlingStrategy :=
  match err with
  | SupplierError => Throw
  | NotData => Tolerant
  | EOF => Terminate
  | Disconnect => FixRetry
  | SourceOther => Throw
  | SourceUvs e => universal_proc_stg mode e
  end.

(** ** The policies of the core *)

(** [compat::ErrStrategy] and its conversion. *)
Inductive ErrStrategy := SRetry | SIgnore | SThrow.

Definition from_err_strategy (s : ErrStrategy) : ErrorHandlingStrategy :=
  match s with SRetry => FixRetry | SIgnore => Ignore | SThrow => Throw end.

(** The trait [ErrorHandlingPolicy]; [P] is the policy's own type. *)
Class ErrorHandlingPolicy (P : Type) := {
  p_send_to_sink : SinkReason -> ErrorHandlingStrategy;
  p_load_oml : OMLCodeReason -> ErrStrategy;
  p_load_wpl : WplCodeReason -> ErrStrategy;
  p_engine_parse_data : WparseReason -> ErrorHandlingStrategy;
  p_dispatch_data : SourceReason -> ErrorHandlingStrategy;
}.
Arguments p_send_to_sink P {_}.
Arguments p_load_oml P {_}.
Arguments p_load_wpl P {_}.
Arguments p_engine_parse_data P {_}.
Arguments p_dispatch_data P {_}.

Inductive Err4Debug := mkErr4Debug.
Inductive Err4Normal := mkErr4Normal.
Inductive Err4Stoic := mkErr4Stoic.

Definition debug_universal (e : UnifiedReason) : ErrStrategy :=
  match e with DataError => SIgnore | _ => SThrow end.

Definition normal_universal (e : UnifiedReason) : ErrStrategy :=
  match e with DataError => SIgnore | RunRuleError => SIgnore | _ => SThrow end.

Definition stoic_universal (e : UnifiedReason) : ErrStrategy :=
  match e with DataError => SIgnore | RunRuleError => SIgnore | _ => SThrow end.

#[export] Instance Err4Debug_policy : ErrorHandlingPolicy Err4Debug := {
  p_send_to_sink err :=
    match err with
    | SinkFailed => FixRetry | SinkMock => FixRetry | SinkStgCtrl => FixRetry
    | SinkUvs e => from_err_strategy (debug_universal e)
    end;
  p_load_oml err :=
    match err with
    | OmlSyntax _ => SThrow | OmlNotFound _ => SIgnore | OmlUvs e => debug_universal e
    end;
  p_load_wpl err :=
    match err with
    | WplPlugin => SThrow | WplSyntax => SIgnore | WplEmpty => SIgnore | WplUnSupport => SIgnore
    | WplUvs e => debug_universal e
    end;
  p_engine_parse_data err :=
    match err with
    | ParsePlugin _ => Ignore | ParseLineProc _ => Ignore | ParseNotMatch => Ignore
    | ParseUvs e => from_err_strategy (debug_universal e)
    end;
  p_dispatch_data err :=
    match err with
    | SupplierError => FixRetry | NotData => Tolerant | EOF => Terminate | Disconnect => FixRetry
    | SourceOther => Throw | SourceUvs e => from_err_strategy (debug_universal e)
    end;
}.

#[export] Instance Err4Normal_policy : ErrorHandlingPolicy Err4Normal := {
  p_send_to_sink err :=
    match err with
    | SinkFailed => FixRetry | SinkMock => FixRetry | SinkStgCtrl => FixRetry
    | SinkUvs e => from_err_strategy (normal_universal e)
    end;
  p_load_oml err :=
    match err with
    | OmlSyntax _ => SIgnore | OmlNotFound _ => SIgnore | OmlUvs e => normal_universal e
    end;
  p_load_wpl err :=
    match err with
    | WplPlugin => SIgnore | WplSyntax => SIgnore | WplEmpty => SIgnore | WplUnSupport => SIgnore
    | WplUvs e => normal_universal e
    end;
  p_engine_parse_data err :=
    match err with
    | ParsePlugin _ => Ignore | ParseLineProc _ => Ignore | ParseNotMatch => Ignore
    | ParseUvs e => from_err_strategy (normal_universal e)
    end;
  p_dispatch_data err :=
    match err with
    | SupplierError => FixRetry | NotData => Tolerant | EOF => Terminate | Disconnect => FixRetry
    | SourceOther => Throw | SourceUvs e => from_err_strategy (normal_universal e)
    end;
}.

#[export] Instance Err4Stoic_policy : ErrorHandlingPolicy Err4Stoic := {
  p_send_to_sink err :=
    match err with
    | SinkFailed => FixRetry | SinkMock => FixRetry | SinkStgCtrl => FixRetry
    | SinkUvs e => from_err_strategy (stoic_universal e)
    end;
  p_load_oml err :=
    match err with
    | OmlSyntax _ => SIgnore | OmlNotFound _ => SIgnore | OmlUvs e => stoic_universal e
    end;
  p_load_wpl err :=
    match err with
    | WplPlugin => SIgnore | WplSyntax => SIgnore | WplEmpty => SIgnore | WplUnSupport => SIgnore
    | WplUvs e => stoic_universal e
    end;
  p_engine_parse_data err :=
    match err with
    | ParsePlugin _ => Ignore | ParseLineProc _ => Ignore | ParseNotMatch => Ignore
    | ParseUvs e => from_err_strategy (stoic_universal e)
    end;
  p_dispatch_data err :=
    match err with
    | SupplierError => FixRetry | NotData => Tolerant | EOF => Terminate | Disconnect => FixRetry
    | SourceOther => Throw | SourceUvs e => from_err_strategy (stoic_universal e)
    end;
}.

(** [current_error_policy]: the trait object of the mode. *)
Record DynPolicy := mkDyn { dyn_type : Type; dyn_policy : ErrorHandlingPolicy dyn_type }.

Definition current_error_policy (mode : RobustnessMode) : DynPolicy :=
  match mode with
  | Debug_ => mkDyn Err4Debug _
  | Normal => mkDyn Err4Normal _
  | Strict => mkDyn Err4Stoic _
  end.

Definition policy_dispatch (mode : RobustnessMode) : SourceReason -> ErrorHandlingStrategy :=
  let d := current_error_policy mode in @p_dispatch_data _ (dyn_policy d).
Definition policy_sink (mode : RobustnessMode) : SinkReason -> ErrorHandlingStrategy :=
  let d := current_error_policy mode in @p_send_to_sink _ (dyn_policy d).
Definition policy_parse (mode : RobustnessMode) : WparseReason -> ErrorHandlingStrategy :=
  let d := current_error_policy mode in @p_engine_parse_data _ (dyn_policy d).

(** A strategy that gives up the operation. *)
Definition fatal (s : ErrorHandlingStrategy) : bool :=
  match s with Throw => true | _ => false end.

(** The universal reasons on which the two classifications differ about giving
    up: the runtime tolerates system and business errors always and logic
    errors in strict mode, the core ignores rule errors outside debug mode. *)
Definition contested (mode : RobustnessMode) (e : UnifiedReason) : bool :=
  match e, mode with
  | SystemError, _ | BusinessError, _ => true
  | LogicError, Strict => true
  | RunRuleError, (Normal | Strict) => true
  | _, _ => false
  end.

Lemma universal_agree mode e :
  fatal (universal_proc_stg mode e) = fatal (match mode with
    | Debug_ => from_err_strategy (debug_universal e)
    | Normal => from_err_strategy (normal_universal e)
    | Strict => from_err_strategy (stoic_universal e) end)
  <-> contested mode e = false.
Proof. by destruct mode, e. Qed.

(** The runtime's mapping and the core's policy of the same mode
    give the same strategy for every error that is not a universal reason,
    except a supplier error of a source, which the runtime throws and the
    policies retry; on a universal reason they agree about giving up exactly
    outside the contested cases. *)
Theorem error_mappings_agree (mode : RobustnessMode) :
  (forall r, (forall e, r <> SinkUvs e) -> err4_send_to_sink r mode = policy_sink mode r) /\
  (forall r, (forall e, r <> ParseUvs e) -> err4_engine_parse_data r mode = policy_parse mode r) /\
  (forall r, (forall e, r <> SourceUvs e) ->
     err4_dispatch_data r mode = policy_dispatch mode r <-> r <> SupplierError) /\
  (forall e, fatal (err4_send_to_sink (SinkUvs e) mode) = fatal (policy_sink mode (SinkUvs e))
             <-> contested mode e = false) /\
  (forall e, fatal (err4_engine_parse_data (ParseUvs e) mode) = fatal (policy_parse mode (ParseUvs e))
             <-> contested mode e = false) /\
  (forall e, fatal (err4_dispatch_data (SourceUvs e) mode) = fatal (policy_dispatch mode (SourceUvs e))
             <-> contested mode e = false).
Proof.
  split_and!; intros x; try (pose proof (universal_agree mode x); by destruct mode).
  all: intros Hx; destruct mode, x; try done; try (by destruct (Hx e)).
Qed.

(** Whatever the mode, the end of a source is the only source
    error that terminates the picker, a disconnect the only one that is
    retried, and no source error is silently ignored. *)
Theorem source_error_classes (mode : RobustnessMode) (r : SourceReason) :
  (err4_dispatch_data r mode = Terminate <-> r = EOF) /\
  (err4_dispatch_data r mode = FixRetry <-> r = Disconnect) /\
  err4_dispatch_data r mode <> Ignore.
Proof. destruct r as [| | | | |e]; [..|destruct e]; destruct mode; by split_and!. Qed.
