(* ===== verification/Picker.v ===== *)
(** The realtime picker: its pending queue
    ([src/runtime/collector/realtime/picker/actor.rs]), posting
    ([post.rs]), fetching ([fetch.rs]) and one round ([dispatch.rs]).

    The data source is code outside the repository: what it answers to
    [try_receive], [receive] and [can_try_receive], and which branch of the
    [select!] fires, is an environment ([FetchEnv]).  The fields of a source
    event the picker reads are an interface ([SourceEventApi]). *)
From Stdlib Require Import ZArith Lia String.
From stdpp Require Import prelude strings gmap.
From S2P Require Import Prelude RateLimit Actor Limits Round Router ErrPolicy.
Local Open Scope string_scope.
Local Open Scope list_scope.
Local Open Scope Z_scope.

Inductive RawData :=
  | RawString (s : string)
  | RawBytes (b : list Byte.byte)
  | RawArcBytes (b : list Byte.byte).

Class SourceEventApi (E : Type) := {
  payload : E -> RawData;
  tags_get : E -> string -> option string;
  ups_ip : E -> option string;
}.

Definition KNOWN_SOURCE_TYPES : list string := ["syslog"; "tcp"; "udp"; "kafka"; "file"].

Definition normalize_source_type (raw : string) : option string :=
  List.find (eq_ignore_ascii_case raw) KNOWN_SOURCE_TYPES.

(** The counts posted with a batch: per source type and access address. *)
Definition SourceIpCounts := gmap (string * option string) Z.

Section Picker.
Context {E C : Type} `{SourceEventApi E} `{Channel (list E) C}.
Variable lim : MemoryLimits.

Definition SourceBatch : Type := list E.

Definition event_payload_len (ev : E) : Z :=
  match payload ev with
  | RawString s => Z.of_nat (String.length s)
  | RawBytes b => zlen b
  | RawArcBytes b => zlen b
  end.

Definition batch_bytes (batch : SourceBatch) : Z :=
  foldl (fun acc ev => wrap_add 64 acc (event_payload_len ev)) 0 batch.

(** ** The pending queue *)

Record JMActPicker := mkPicker {
  parse_router : ParseDispatchRouter C;
  pending : list SourceBatch;
  pending_bytes : Z;
  post_policy : PostPolicy;
  pull_policy : PullPolicy;
}.

Definition picker_new (r : ParseDispatchRouter C) : JMActPicker :=
  let burst := picker_burst_max lim in
  mkPicker r [] 0 (PostPolicy_new burst) (PullPolicy_new burst).

Definition with_pending (p : JMActPicker) (q : list SourceBatch) (bytes : Z) : JMActPicker :=
  mkPicker (parse_router p) q bytes (post_policy p) (pull_policy p).
Definition with_router (p : JMActPicker) (r : ParseDispatchRouter C) : JMActPicker :=
  mkPicker r (pending p) (pending_bytes p) (post_policy p) (pull_policy p).
Definition with_post_policy (p : JMActPicker) (pp : PostPolicy) : JMActPicker :=
  mkPicker (parse_router p) (pending p) (pending_bytes p) pp (pull_policy p).

Definition take_pending (p : JMActPicker) : option SourceBatch * JMActPicker :=
  match pending p with
  | [] => (None, p)
  | batch :: rest => (Some batch, with_pending p rest (sat_sub (pending_bytes p) (batch_bytes batch)))
  end.

Definition set_pending_front (p : JMActPicker) (batch : SourceBatch) : JMActPicker :=
  with_pending p (batch :: pending p) (sat_add USIZE_MAX (pending_bytes p) (batch_bytes batch)).

Definition extend_pending (p : JMActPicker) (batch : SourceBatch) : JMActPicker :=
  with_pending p (pending p ++ [batch]) (sat_add USIZE_MAX (pending_bytes p) (batch_bytes batch)).

Definition pending_count (p : JMActPicker) : Z := zlen (pending p).

Definition pending_bytes_at_capacity (p : JMActPicker) : bool :=
  picker_pending_max_bytes lim <=? pending_bytes p.

(** [while merged.len() < max_events]; every turn takes a batch, so the
    number of pending batches plus one is fuel enough ([coalesce_loop_spec]). *)
Fixpoint coalesce_loop (fuel : nat) (p : JMActPicker) (merged : SourceBatch) (max_events : Z)
    : SourceBatch * JMActPicker :=
  match fuel with
  | O => (merged, p)
  | S fuel =>
      if zlen merged <? max_events then
        match take_pending p with
        | (None, p) => (merged, p)
        | (Some b, p) =>
            if zlen merged + zlen b <=? max_events then coalesce_loop fuel p (merged ++ b) max_events
            else
              let remain := Z.to_nat (max_events - zlen merged) in
              (merged ++ take remain b, set_pending_front p (drop remain b))
        end
      else (merged, p)
  end.

Definition coalesce_pending_front (p : JMActPicker) (max_events : Z)
    : option SourceBatch * JMActPicker :=
  match pending p with
  | [] => (None, p)
  | _ =>
      let '(merged, p) := coalesce_loop (S (length (pending p))) p [] max_events in
      (match merged with [] => None | _ => Some merged end, p)
  end.

(** ** Posting *)

Definition resolve_source_type (src_key : string) (ev : E) : string :=
  let explicit := match tags_get ev "wp_source_type" with
                  | Some v => if String.eqb v "" then None else Some v
                  | None => None
                  end in
  match explicit with
  | Some v => v
  | None =>
      match (raw ← tags_get ev "access_source"; normalize_source_type raw) with
      | Some v => v
      | None =>
          let lower := to_ascii_lowercase src_key in
          default "unknown" (List.find (fun prefix => String.prefix prefix lower) KNOWN_SOURCE_TYPES)
      end
  end.

Definition access_ip (ev : E) : option string :=
  match tags_get ev "wp_access_ip" with Some ip => Some ip | None => ups_ip ev end.

Definition source_ip_counts (src_key : string) (batch : SourceBatch) : SourceIpCounts :=
  foldl (fun m ev =>
    let k := (resolve_source_type src_key ev, access_ip ev) in
    <[k := wrap_add 64 (default 0 (m !! k)) 1]> m) ∅ batch.

(** One call of [record_task_batch_by_source_ip]. *)
Record BatchRecord := mkRecord { rec_key : string; rec_counts : SourceIpCounts; rec_events : Z }.

(** What the picker's handlers share: the picker, the task controller, the
    records made, and the histories of the batches received, posted and charged to the
    source's rate lease. *)
Record PickState := mkPick {
  pk : JMActPicker;
  ctrl : TaskController;
  stats : list BatchRecord;
  received : list SourceBatch;
  sent : list SourceBatch;
  charged : list Z;
}.

Definition set_pk (s : PickState) (p : JMActPicker) : PickState :=
  mkPick p (ctrl s) (stats s) (received s) (sent s) (charged s).
Definition set_ctrl (s : PickState) (t : TaskController) : PickState :=
  mkPick (pk s) t (stats s) (received s) (sent s) (charged s).

Definition pop_next_payload_for_post (p : JMActPicker) : option SourceBatch * JMActPicker :=
  if picker_coalesce_trigger lim <=? pending_count p then
    match coalesce_pending_front p (picker_coalesce_max_events lim) with
    | (Some b, p) => (Some b, p)
    | (None, p) => take_pending p
    end
  else take_pending p.

(** [while delivered < batch_size], [k] deliveries left: every turn delivers
    or leaves the loop. *)
Fixpoint post_loop (k : nat) (src_key : string) (s : PickState) (rs : RoundStat)
    : RoundStat * PickState :=
  match k with
  | O => (rs, s)
  | S k =>
      match pop_next_payload_for_post (pk s) with
      | (None, p) => (rs, set_pk s p)
      | (Some batch, p) =>
          let event_cnt := zlen batch in
          let counts := source_ip_counts src_key batch in
          let '(router, res) := try_send_round_robin (parse_router p) batch in
          let p := with_router p router in
          match res with
          | Sent =>
              post_loop k src_key
                (mkPick p (rec_task_suc_cnt (ctrl s) event_cnt)
                   (stats s ++ [mkRecord src_key counts event_cnt])
                   (received s) (sent s ++ [batch]) (charged s))
                (add_proc rs 1)
          | Full batch => (to_dist_pending rs, set_pk s (set_pending_front p batch))
          | Reloading batch => (to_dist_pending rs, set_pk s (set_pending_front p batch))
          | Closed batch => (to_dist_terminal rs, set_pk s (set_pending_front p batch))
          end
      end
  end.

Definition handle_pending_batch (src_key : string) (batch_size : Z) (s : PickState)
    : RoundStat * PickState :=
  post_loop (Z.to_nat batch_size) src_key s RoundStat_new.

(** ** Fetching *)

(** What a blocking turn sees: the deadline has passed or the sleep fired, a
    command (or the closed or overflowed command channel), a batch, an error. *)
Inductive BlockEvent :=
  | TimedOut
  | Command (c : ActorCtrlCmd)
  | CommandClosed
  | CommandOverflowed
  | Batch (b : SourceBatch)
  | ReceiveError (e : SourceReason).

(** The answers of the source in one fetch: an exhausted [try_script] answers
    [None], an exhausted [block_script] is the deadline. *)
Record FetchEnv := mkFetchEnv {
  can_try_receive : bool;
  try_script : list (option SourceBatch);
  block_script : list BlockEvent;
  robust_mode : RobustnessMode;
}.

(** Accepting a received batch: the lease is charged, the batch queued. *)
Definition accept_batch (s : PickState) (lease : bool) (batch : SourceBatch) : PickState :=
  mkPick (extend_pending (pk s) batch) (ctrl s) (stats s) (received s ++ [batch]) (sent s)
    (if lease then charged s ++ [zlen batch] else charged s).

(** [loop] of [read_batch_nonblocking], [k = max_count - total]. *)
Fixpoint nonblocking_loop (k : nat) (script : list (option SourceBatch)) (lease : bool) (s : PickState)
    : SrcStatus * PickState :=
  match k with
  | O => (SrcReady, s)
  | S k =>
      match script with
      | Some (ev :: b) :: script =>
          let s := accept_batch s lease (ev :: b) in
          if pending_bytes_at_capacity (pk s) then (SrcReady, s)
          else nonblocking_loop k script lease s
      | _ => (SrcMiss, s)
      end
  end.

Definition read_batch_nonblocking (env : FetchEnv) (max_count : Z) (lease : bool) (s : PickState)
    : SrcStatus * PickState :=
  nonblocking_loop (Z.to_nat max_count) (try_script env) lease s.

(** [loop] of [read_batch_blocking]; once the command channel is closed its
    branch is disabled. *)
Fixpoint blocking_loop (script : list BlockEvent) (max_count total : Z) (cmd_closed lease : bool)
    (s : PickState) : (SrcStatus + SourceReason) * PickState :=
  if max_count <=? total then (inl SrcReady, s)
  else
    match script with
    | [] | TimedOut :: _ => (inl SrcMiss, s)
    | Command c :: script =>
        if cmd_closed then blocking_loop script max_count total cmd_closed lease s
        else
          let s := set_ctrl s (update_cmd (ctrl s) c) in
          match c with
          | Stop _ => (inl SrcTerminal, s)
          | Isolate => (inl SrcMiss, s)
          | _ => blocking_loop script max_count total cmd_closed lease s
          end
    | CommandClosed :: script => blocking_loop script max_count total true lease s
    | CommandOverflowed :: script =>
        if cmd_closed then blocking_loop script max_count total cmd_closed lease s
        else (inl SrcTerminal, s)
    | Batch b :: script =>
        let s := accept_batch s lease b in
        if pending_bytes_at_capacity (pk s) then (inl SrcReady, s)
        else blocking_loop script max_count (total + 1) cmd_closed lease s
    | ReceiveError e :: _ => (inr e, s)
    end.

Definition read_batch_blocking (env : FetchEnv) (max_count : Z) (lease : bool) (s : PickState)
    : (SrcStatus + SourceReason) * PickState :=
  if max_count =? 0 then (inl SrcReady, s)
  else blocking_loop (block_script env) max_count 0 false lease s.

(** A thrown source error leaves the picker ([inr]). *)
Definition fetch_into_pending (env : FetchEnv) (batch_max : Z) (lease : bool) (s : PickState)
    : (SrcStatus + SourceReason) * PickState :=
  if batch_max =? 0 then (inl SrcReady, s)
  else
    let '(read_result, s) :=
      if can_try_receive env then
        let '(st, s) := read_batch_nonblocking env batch_max lease s in (inl st, s)
      else read_batch_blocking env batch_max lease s in
    match read_result with
    | inl status => (inl status, s)
    | inr e =>
        match err4_dispatch_data e (robust_mode env) with
        | FixRetry => (inl SrcReady, s)
        | Tolerant => (inl SrcReady, s)
        | Ignore => (inl SrcReady, s)
        | Terminate => (inl SrcTerminal, s)
        | Throw => (inr e, s)
        end
    end.

(** ** One round *)

Definition round_pull (src_key : string) (env : FetchEnv) (lease : option SourceRateLease)
    (s : PickState) : (RoundStat + SourceReason) * PickState :=
  let fixed_rate := match lease with Some l => is_fixed l | None => false end in
  let plan := if fixed_rate then plan_pull_fixed_rate (pull_policy (pk s))
              else plan_pull (pull_policy (pk s)) (pending_count (pk s)) in
  let rs := RoundStat_new in
  if pull_allow plan && negb (pending_bytes_at_capacity (pk s)) then
    if not_alone (ctrl s) then
      match fetch_into_pending env (fetch_budget plan) (bool_decide (is_Some lease)) s with
      | (inl status, s) => (inl (up_src_status rs status), s)
      | (inr e, s) => (inr e, s)
      end
    else (inl (up_src_status rs SrcMiss), s)
  else (inl rs, s).

Definition round_post (src_key : string) (rs : RoundStat) (s : PickState) : RoundStat * PickState :=
  let pending_total := pending_count (pk s) in
  let full_post := bool_decide (src_status rs = SrcTerminal) in
  if 0 <? pending_total then
    let '(cool, pp) := in_cooldown (post_policy (pk s)) in
    let s := set_pk s (with_post_policy (pk s) pp) in
    if cool then (rs, s)
    else
      let plan := plan_post pp pending_total full_post in
      if post_allow plan then
        let '(batch_rs, s) := handle_pending_batch src_key (batch_size plan) s in
        let progressed := 0 <? send_cnt batch_rs in
        let s := set_pk s (with_post_policy (pk s) (on_post_result (post_policy (pk s)) progressed)) in
        (merge rs batch_rs, s)
      else (rs, s)
  else (rs, s).

Definition round_pick (src_key : string) (env : FetchEnv) (lease : option SourceRateLease)
    (s : PickState) : (RoundStat + SourceReason) * PickState :=
  match round_pull src_key env lease s with
  | (inr e, s) => (inr e, s)
  | (inl rs, s) => let '(rs, s) := round_post src_key rs s in (inl rs, s)
  end.

End Picker.
Arguments SourceBatch E : clear implicits.
Arguments JMActPicker E C : clear implicits.
Arguments PickState E C : clear implicits.
Arguments FetchEnv E : clear implicits.
