(* ===== verification/PickerLaws.v ===== *)
(** What the picker guarantees: no event is lost, duplicated or reordered, the
    pending queue is bounded in batches and bytes, counters and records agree
    with the batches posted, and what happens to the source's final status. *)
From Stdlib Require Import ZArith Lia String.
From stdpp Require Import prelude strings gmap.
From S2P Require Import Prelude RateLimit Actor Limits Round Router ErrPolicy Picker.
Local Open Scope string_scope.
Local Open Scope list_scope.
Local Open Scope Z_scope.

Section Laws.
Context {E C : Type} `{SourceEventApi E} `{ChannelLaws (list E) C}.
Variable lim : MemoryLimits.

Hypothesis Hmax : 1 <= picker_coalesce_max_events lim.

Implicit Types (p : JMActPicker E C) (s : PickState E C) (b : SourceBatch E).

(** ** The pending queue *)

Lemma take_pending_spec p :
  match take_pending p with
  | (None, p') => pending p = [] /\ p' = p
  | (Some b, p') => pending p = b :: pending p' /\
      pending_bytes p' = sat_sub (pending_bytes p) (batch_bytes b) /\
      parse_router p' = parse_router p /\ pull_policy p' = pull_policy p /\
      post_policy p' = post_policy p
  end.
Proof. unfold take_pending. destruct (pending p) eqn:Ep; by split_and!. Qed.

Fixpoint ev_bytes (evs : list E) : Z :=
  match evs with [] => 0 | e :: evs => event_payload_len e + ev_bytes evs end.

Lemma event_payload_len_nonneg (e : E) : 0 <= event_payload_len e.
Proof. unfold event_payload_len. destruct (payload e); [lia|apply zlen_nonneg..]. Qed.

Lemma ev_bytes_nonneg l : 0 <= ev_bytes l.
Proof. induction l as [|e l IH]; cbn; [lia|]. pose proof (event_payload_len_nonneg e). lia. Qed.

Lemma ev_bytes_app l k : ev_bytes (l ++ k) = ev_bytes l + ev_bytes k.
Proof. induction l as [|e l IH]; cbn; lia. Qed.

Lemma batch_bytes_exact b : ev_bytes b <= USIZE_MAX -> batch_bytes b = ev_bytes b.
Proof.
  unfold batch_bytes. assert (forall acc, 0 <= acc -> acc + ev_bytes b <= USIZE_MAX ->
    foldl (fun acc ev => wrap_add 64 acc (event_payload_len ev)) acc b = acc + ev_bytes b) as Hg.
  { induction b as [|e b IH]; cbn; intros acc Ha Hs; [lia|].
    pose proof (event_payload_len_nonneg e). pose proof (ev_bytes_nonneg b).
    unfold USIZE_MAX in *. rewrite wrap_add_exact by lia. rewrite IH by lia. lia. }
  intros Hb. rewrite Hg by lia. lia.
Qed.

(** The byte counter is the bytes of the events queued. *)
Definition bytes_ok p : Prop := pending_bytes p = ev_bytes (concat (pending p)).

Lemma take_pending_bytes p b p' :
  take_pending p = (Some b, p') -> bytes_ok p -> pending_bytes p <= USIZE_MAX -> bytes_ok p'.
Proof.
  intros E1. pose proof (take_pending_spec p) as Hs. rewrite E1 in Hs.
  destruct Hs as (Hp & Hb & _). unfold bytes_ok. rewrite Hp. cbn. rewrite ev_bytes_app.
  intros Hok Hle. pose proof (ev_bytes_nonneg b). pose proof (ev_bytes_nonneg (concat (pending p'))).
  rewrite Hb, batch_bytes_exact by lia. unfold sat_sub. lia.
Qed.

Lemma set_front_bytes p b :
  bytes_ok p -> pending_bytes p + ev_bytes b <= USIZE_MAX -> bytes_ok (set_pending_front p b).
Proof.
  unfold bytes_ok. intros Hok Hle. cbn. rewrite ev_bytes_app.
  pose proof (ev_bytes_nonneg (concat (pending p))).
  rewrite batch_bytes_exact by lia. rewrite sat_add_exact by lia. lia.
Qed.

Lemma extend_bytes p b :
  bytes_ok p -> pending_bytes p + ev_bytes b <= USIZE_MAX -> bytes_ok (extend_pending p b).
Proof.
  unfold bytes_ok. intros Hok Hle. cbn. rewrite concat_app, ev_bytes_app. cbn. rewrite app_nil_r.
  pose proof (ev_bytes_nonneg (concat (pending p))).
  rewrite batch_bytes_exact by lia. rewrite sat_add_exact by lia. lia.
Qed.

(** How coalescing relates the queue before and after: the events are the
    merged ones followed by those left; the queue gets shorter, except when
    one oversized batch was split. *)
Record coalesced p p' (merged m : SourceBatch E) (max : Z) : Prop := {
  co_events : merged ++ concat (pending p) = m ++ concat (pending p');
  co_len : zlen m <= max;
  co_full : zlen m = max \/ pending p' = [];
  co_count : (m = merged /\ p' = p) \/ (length (pending p') < length (pending p))%nat \/
             (length (pending p') = length (pending p) /\ zlen m = max /\
              exists b rest, pending p = b :: rest /\ max < zlen merged + zlen b);
  co_router : parse_router p' = parse_router p;
  co_policy : pull_policy p' = pull_policy p /\ post_policy p' = post_policy p;
  co_bytes : bytes_ok p -> pending_bytes p <= USIZE_MAX -> bytes_ok p';
}.

Lemma coalesce_loop_spec fuel p merged max :
  (length (pending p) < fuel)%nat -> zlen merged <= max ->
  let r := coalesce_loop fuel p merged max in coalesced p r.2 merged r.1 max.
Proof.
  revert p merged. induction fuel as [|fuel IH]; intros p merged Hf Hm; [lia|].
  cbn [coalesce_loop]. cbn zeta. destruct (Z.ltb_spec (zlen merged) max) as [Hlt|Hge].
  2:{ split; cbn; auto; lia. }
  pose proof (take_pending_spec p) as Ht. pose proof (take_pending_bytes p) as Htb.
  destruct (take_pending p) as [[b|] p1]; cbn [fst snd].
  2:{ destruct Ht as [Hp ->]. split; cbn; auto; lia. }
  destruct Ht as (Hp & Hb1 & Hr & Hpl & Hpo). specialize (Htb b p1 eq_refl).
  destruct (Z.leb_spec (zlen merged + zlen b) max) as [Hfit|Hover].
  - destruct (IH p1 (merged ++ b)) as [He Hl Hfu Hc Hro [Hpo1 Hpo2] Hby];
      [rewrite Hp in Hf; cbn in Hf; lia|rewrite zlen_app; lia|].
    split; auto; try congruence.
    + rewrite Hp. cbn. by rewrite app_assoc.
    + right; left. rewrite Hp. cbn. destruct Hc as [[_ ->]|[?|(?&_)]]; lia.
    + split; congruence.
    + intros Hok Hle. apply Hby; [by apply Htb|]. rewrite Hb1. unfold sat_sub.
      assert (batch_bytes b = ev_bytes b) as ->.
      { apply batch_bytes_exact. red in Hok. rewrite Hp in Hok. cbn in Hok. rewrite ev_bytes_app in Hok.
        pose proof (ev_bytes_nonneg (concat (pending p1))). lia. }
      pose proof (ev_bytes_nonneg b). unfold USIZE_MAX in *. lia.
  - set (rem := Z.to_nat (max - zlen merged)). cbn [fst snd].
    assert (zlen (merged ++ take rem b) = max) as Hlen.
    { rewrite zlen_app. unfold rem, zlen in *. rewrite length_take. lia. }
    split; cbn [pending parse_router pull_policy post_policy set_pending_front with_pending]; auto; try lia.
    + rewrite Hp. cbn. rewrite <- app_assoc. f_equal. rewrite app_assoc. by rewrite take_drop.
    + right; right. rewrite Hp. cbn. split; [done|]. split; [done|]. by exists b, (pending p1).
    + intros Hok Hle. apply set_front_bytes; [by apply Htb|].
      specialize (Htb Hok Hle). red in Hok, Htb. rewrite Hp in Hok. cbn in Hok. rewrite ev_bytes_app in Hok.
      rewrite <- (take_drop rem b), ev_bytes_app in Hok. pose proof (ev_bytes_nonneg (take rem b)). lia.
Qed.

(** Popping the next payload. *)
Record popped p p' b : Prop := {
  po_events : concat (pending p) = b ++ concat (pending p');
  po_count : (length (pending p') < length (pending p))%nat \/
             (length (pending p') = length (pending p) /\
              zlen b = picker_coalesce_max_events lim /\
              exists b0 rest, pending p = b0 :: rest /\ picker_coalesce_max_events lim < zlen b0);
  po_front : zlen b <= picker_coalesce_max_events lim \/ exists rest, pending p = b :: rest;
  po_router : parse_router p' = parse_router p;
  po_policy : pull_policy p' = pull_policy p /\ post_policy p' = post_policy p;
  po_bytes : bytes_ok p -> pending_bytes p <= USIZE_MAX -> bytes_ok p';
}.

Lemma take_popped p b p' : take_pending p = (Some b, p') -> popped p p' b.
Proof.
  intros E1. pose proof (take_pending_spec p) as Ht. rewrite E1 in Ht.
  destruct Ht as (Hp & _ & ? & ? & ?). split; auto.
  - by rewrite Hp.
  - left. rewrite Hp. cbn. lia.
  - right. by exists (pending p').
  - exact (take_pending_bytes p b p' E1).
Qed.

(** With nothing to post the queue held no event; only empty batches are
    dropped. *)
Lemma pop_next_spec p :
  match pop_next_payload_for_post lim p with
  | (None, p') => concat (pending p) = [] /\ pending p' = [] /\
      parse_router p' = parse_router p /\ pull_policy p' = pull_policy p /\
      post_policy p' = post_policy p /\
      (bytes_ok p -> pending_bytes p <= USIZE_MAX -> bytes_ok p')
  | (Some b, p') => popped p p' b
  end.
Proof.
  unfold pop_next_payload_for_post.
  assert (forall q, match take_pending q with
    | (None, p') => concat (pending q) = [] /\ pending p' = [] /\
        parse_router p' = parse_router q /\ pull_policy p' = pull_policy q /\
        post_policy p' = post_policy q /\ (bytes_ok q -> pending_bytes q <= USIZE_MAX -> bytes_ok p')
    | (Some b, p') => popped q p' b end) as Htake.
  { intros q. pose proof (take_pending_spec q) as Ht. pose proof (take_popped q) as Hp.
    destruct (take_pending q) as [[b|] p']; [by apply Hp|]. destruct Ht as [Hq ->]. by rewrite Hq. }
  destruct (_ <=? _); [|apply Htake].
  unfold coalesce_pending_front. destruct (pending p) as [|b0 rest] eqn:Ep.
  { specialize (Htake p). rewrite Ep in Htake. done. }
  pose proof (coalesce_loop_spec (S (length (pending p))) p [] (picker_coalesce_max_events lim)
    ltac:(lia) ltac:(change (zlen (@nil E)) with 0; lia)) as Hco.
  rewrite Ep in Hco. cbn zeta in Hco.
  destruct (coalesce_loop _ p [] _) as [m p1]. cbn [fst snd] in Hco.
  destruct Hco as [He Hl Hfull Hc Hro [Hpl Hpo] Hby]. cbn [app] in He.
  destruct m as [|e m].
  - destruct Hfull as [Hz|Hemp]; [change (zlen (@nil E)) with 0 in Hz; lia|].
    rewrite Hemp in He. unfold take_pending. rewrite Hemp. rewrite <- Ep. by split_and!.
  - destruct Hc as [[? _]|Hc]; [done|]. split; auto.
Qed.

(** ** Rounds as sequences of elementary steps *)

(** A fetch: commands received and [n] batches accepted, each while the
    backlog is below its byte cap. *)
Inductive fetched (lease : bool) : nat -> PickState E C -> PickState E C -> Prop :=
  | fetched_done s : fetched lease 0 s s
  | fetched_cmd n s s' c :
      fetched lease n (set_ctrl s (update_cmd (ctrl s) c)) s' -> fetched lease n s s'
  | fetched_accept n s s' b :
      pending_bytes_at_capacity lim (pk s) = false ->
      fetched lease n (accept_batch s lease b) s' -> fetched lease (S n) s s'.

Definition under_cap s : Prop := pending_bytes_at_capacity lim (pk s) = false.

Lemma nonblocking_fetched k script lease s :
  under_cap s ->
  exists n, (n <= k)%nat /\ fetched lease n s (nonblocking_loop lim k script lease s).2.
Proof.
  revert script s. induction k as [|k IH]; intros script s Hcap; cbn [nonblocking_loop].
  { exists 0%nat. split; [lia|constructor]. }
  destruct script as [|[[|ev b]|] script]; try (exists 0%nat; split; [lia|constructor]).
  destruct (pending_bytes_at_capacity lim (pk (accept_batch s lease (ev :: b)))) eqn:Ec.
  - exists 1%nat. split; [lia|]. apply (fetched_accept lease 0 s _ (ev :: b)); [done|constructor].
  - destruct (IH script _ Ec) as (n & Hn & Hf). exists (S n). split; [lia|].
    by apply (fetched_accept lease n s _ (ev :: b)).
Qed.

Lemma blocking_fetched script mx total closed lease s :
  under_cap s ->
  exists n, (Z.of_nat n <= Z.max 0 (mx - total)) /\
    fetched lease n s (blocking_loop lim script mx total closed lease s).2.
Proof.
  revert total closed s. induction script as [|ev script IH]; intros total closed s Hcap;
    cbn [blocking_loop]; (destruct (Z.leb_spec mx total);
      [exists 0%nat; split; [lia|constructor]|]); [exists 0%nat; split; [lia|constructor]|].
  destruct ev as [|c| | |b|e]; try (exists 0%nat; split; [lia|constructor]).
  - destruct closed; [by apply IH|].
    assert (exists n, Z.of_nat n <= Z.max 0 (mx - total) /\
      fetched lease n s (blocking_loop lim script mx total false lease (set_ctrl s (update_cmd (ctrl s) c))).2) as Hcont.
    { destruct (IH total false (set_ctrl s (update_cmd (ctrl s) c)) Hcap) as (n & Hn & Hf).
      exists n. split; [lia|]. by eapply fetched_cmd. }
    destruct c; try done; exists 0%nat; (split; [lia|]); eapply fetched_cmd; constructor.
  - by apply IH.
  - destruct closed; [by apply IH|]. exists 0%nat; split; [lia|constructor].
  - destruct (pending_bytes_at_capacity lim (pk (accept_batch s lease b))) eqn:Ec.
    + exists 1%nat. split; [lia|]. apply (fetched_accept lease 0 s _ b); [done|constructor].
    + destruct (IH (total + 1) closed _ Ec) as (n & Hn & Hf). exists (S n). split; [lia|].
      by apply (fetched_accept lease n s _ b).
Qed.

Lemma fetch_into_fetched env budget lease s :
  0 <= budget -> under_cap s ->
  exists n, (Z.of_nat n <= budget) /\ fetched lease n s (fetch_into_pending lim env budget lease s).2.
Proof.
  intros Hb Hcap. unfold fetch_into_pending.
  destruct (Z.eqb_spec budget 0) as [Hz|Hz]; [exists 0%nat; split; [lia|constructor]|].
  destruct (can_try_receive env).
  - unfold read_batch_nonblocking.
    destruct (nonblocking_fetched (Z.to_nat budget) (try_script env) lease s Hcap) as (n & Hn & Hf).
    exists n. split; [lia|]. by destruct (nonblocking_loop _ _ _ _ _) as [st s'].
  - unfold read_batch_blocking. destruct (Z.eqb_spec budget 0) as [Hz2|Hz2]; [lia|].
    destruct (blocking_fetched (block_script env) budget 0 false lease s Hcap) as (n & Hn & Hf).
    exists n. split; [lia|].
    destruct (blocking_loop _ _ _ _ _ _) as [[st|e] s']; [done|].
    by destruct (err4_dispatch_data e (robust_mode env)).
Qed.

Definition has_lease (lease : option SourceRateLease) : bool := bool_decide (is_Some lease).

(** The pull of a round: within its plan, or nothing. *)
Lemma round_pull_fetched src env lease s :
  0 <= pull_burst (pull_policy (pk s)) ->
  exists n, fetched (has_lease lease) n s (round_pull lim src env lease s).2 /\
    (n <> 0%nat ->
     if match lease with Some l => is_fixed l | None => false end
     then Z.of_nat n <= pull_burst (pull_policy (pk s))
     else pending_count (pk s) + Z.of_nat n <= hi (pull_policy (pk s))).
Proof.
  intros Hb. unfold round_pull.
  assert (exists n, fetched (has_lease lease) n s s /\ (n <> 0%nat -> False)) as Hnone by (exists 0%nat; split; [constructor|done]).
  set (fx := match lease with Some l => is_fixed l | None => false end).
  set (plan := if fx then _ else _).
  destruct (pull_allow plan && negb (pending_bytes_at_capacity lim (pk s))) eqn:Ea.
  2:{ destruct Hnone as (n & ? & ?). exists n. split; [done|tauto]. }
  apply andb_prop in Ea as [Hal Hcap]. apply negb_true_iff in Hcap.
  destruct (not_alone (ctrl s)).
  2:{ destruct Hnone as (n & ? & ?). exists n. split; [done|tauto]. }
  assert (0 <= fetch_budget plan /\
    (if fx then fetch_budget plan = pull_burst (pull_policy (pk s))
     else pending_count (pk s) + fetch_budget plan <= hi (pull_policy (pk s)))) as [Hbud Hplan].
  { unfold plan in *. destruct fx; [done|].
    pose proof (zlen_nonneg (pending (pk s))).
    destruct (plan_pull_room (pull_policy (pk s)) (pending_count (pk s))) as [H3 H4]; [done..|].
    split; [lia|]. by apply H4. }
  destruct (fetch_into_fetched env (fetch_budget plan) (bool_decide (is_Some lease)) s Hbud Hcap)
    as (n & Hn & Hf).
  exists n. split.
  - by destruct (fetch_into_pending _ _ _ _ _) as [[st|e] s'].
  - intros _. destruct fx; lia.
Qed.

(** An invariant of the steps of a post is one of the whole post. *)
Record post_preserved (src : string) (Inv : PickState E C -> Prop) : Prop := {
  pr_policy s pp : Inv s -> Inv (set_pk s (with_post_policy (pk s) pp));
  pr_none s p : Inv s -> pop_next_payload_for_post lim (pk s) = (None, p) -> Inv (set_pk s p);
  pr_sent s p b r : Inv s -> pop_next_payload_for_post lim (pk s) = (Some b, p) ->
    Inv (mkPick (with_router p r) (rec_task_suc_cnt (ctrl s) (zlen b))
           (stats s ++ [mkRecord src (source_ip_counts src b) (zlen b)])
           (received s) (sent s ++ [b]) (charged s));
  pr_back s p b r : Inv s -> pop_next_payload_for_post lim (pk s) = (Some b, p) ->
    Inv (set_pk s (set_pending_front (with_router p r) b));
}.

Lemma post_loop_inv src Inv k s rs :
  post_preserved src Inv -> Inv s -> Inv (post_loop lim k src s rs).2.
Proof.
  intros Hp. revert s rs. induction k as [|k IH]; intros s rs Hs; cbn [post_loop]; [done|].
  destruct (pop_next_payload_for_post lim (pk s)) as [[b|] p] eqn:Ep; [|by eapply pr_none].
  pose proof (dispatch_returns (parse_router p) b) as Hret.
  destruct (try_send_round_robin (parse_router p) b) as [r [|b'|b'|b']]; cbn in Hret; subst.
  - apply IH. by eapply pr_sent.
  - by eapply pr_back.
  - by eapply pr_back.
  - by eapply pr_back.
Qed.

Lemma round_post_inv src Inv rs s :
  post_preserved src Inv -> Inv s -> Inv (round_post lim src rs s).2.
Proof.
  intros Hp Hs. unfold round_post. destruct (0 <? _); [|done].
  destruct (in_cooldown _) as [cool pp]. destruct cool; [by apply (pr_policy src)|].
  destruct (post_allow _); [|by apply (pr_policy src)].
  unfold handle_pending_batch.
  match goal with |- context [post_loop lim ?k src ?s1 ?r1] =>
    pose proof (post_loop_inv src Inv k s1 r1 Hp ltac:(by apply (pr_policy src))) as Hl;
    destruct (post_loop lim k src s1 r1) as [rs' s'] end.
  by apply (pr_policy src).
Qed.

(** What a fetch accepts stays inside the round's plan: the burst with a fixed
    rate, the room below the high watermark otherwise. *)
Definition within_plan (lease : option SourceRateLease) s (n : nat) : Prop :=
  n <> 0%nat ->
  if match lease with Some l => is_fixed l | None => false end
  then Z.of_nat n <= pull_burst (pull_policy (pk s))
  else pending_count (pk s) + Z.of_nat n <= hi (pull_policy (pk s)).

(** An invariant of every elementary step of a worker. *)
Record step_invariant (src : string) (lease : option SourceRateLease) (Inv : PickState E C -> Prop)
    : Prop := {
  si_post : post_preserved src Inv;
  si_burst s : Inv s -> 0 <= pull_burst (pull_policy (pk s));
  si_fetch s n s' : Inv s -> fetched (has_lease lease) n s s' -> within_plan lease s n -> Inv s';
  si_router s r : Inv s -> Inv (set_pk s (with_router (pk s) r));
  si_ctrl s t : Inv s -> total_suc_cnt t = total_suc_cnt (ctrl s) -> Inv (set_ctrl s t);
}.

Lemma round_pick_inv src Inv env lease s :
  step_invariant src lease Inv -> Inv s -> Inv (round_pick lim src env lease s).2.
Proof.
  intros [Hp Hb Hf _ _] Hs. unfold round_pick.
  destruct (round_pull_fetched src env lease s (Hb s Hs)) as (n & Hn & Hplan).
  destruct (round_pull _ _ _ _ _) as [[rs|e] s1]; cbn [snd] in Hn; [|by eapply Hf].
  pose proof (round_post_inv src Inv rs s1 Hp ltac:(by eapply Hf)) as Hpost.
  by destruct (round_post _ _ _ _).
Qed.

(** ** The invariant of a source worker *)

Definition total_bytes s : Z := ev_bytes (concat (received s)).

(** The queue may exceed the high watermark by the one batch that a split of
    an oversized front batch adds; its front is then a full batch. *)
Definition count_bound p : Prop :=
  pending_count p <= hi (pull_policy p) \/
  (pending_count p <= hi (pull_policy p) + 1 /\
   exists b rest, pending p = b :: rest /\ zlen b <= picker_coalesce_max_events lim).

Record picker_inv (src : string) (lease : option SourceRateLease) (burst t0 : Z) s : Prop := {
  pi_pull : pull_policy (pk s) = PullPolicy_new burst;
  pi_balanced : concat (sent s) ++ concat (pending (pk s)) = concat (received s);
  pi_bytes : total_bytes s <= USIZE_MAX -> bytes_ok (pk s);
  pi_count : match lease with Some l => is_fixed l | None => false end = false -> count_bound (pk s);
  pi_cap m : total_bytes s <= USIZE_MAX -> Forall (fun b => ev_bytes b <= m) (received s) -> 0 <= m ->
             pending_bytes (pk s) <= picker_pending_max_bytes lim - 1 + m;
  pi_total : total_suc_cnt (ctrl s) = (t0 + zlen (concat (sent s))) mod 2 ^ 64;
  pi_stats : stats s = map (fun b => mkRecord src (source_ip_counts src b) (zlen b)) (sent s);
  pi_charged : charged s = if has_lease lease then map zlen (received s) else [];
}.

Lemma pending_le_total s src lease burst t0 :
  picker_inv src lease burst t0 s -> total_bytes s <= USIZE_MAX ->
  pending_bytes (pk s) <= USIZE_MAX.
Proof.
  intros Hi Ht. rewrite (pi_bytes _ _ _ _ _ Hi Ht). unfold total_bytes in Ht.
  rewrite <- (pi_balanced _ _ _ _ _ Hi), ev_bytes_app in Ht.
  pose proof (ev_bytes_nonneg (concat (sent s))). lia.
Qed.

(** Popping and putting back keep the queue within its bounds. *)
Lemma popped_bytes_le p p' b :
  popped p p' b -> bytes_ok p -> pending_bytes p <= USIZE_MAX ->
  pending_bytes p' + ev_bytes b = pending_bytes p.
Proof.
  intros Hpop Hok Hle. pose proof (po_bytes _ _ _ Hpop Hok Hle) as Hok'.
  rewrite Hok, Hok', (po_events _ _ _ Hpop), ev_bytes_app. lia.
Qed.

Lemma popped_count p p' b : popped p p' b -> count_bound p -> count_bound p'.
Proof.
  intros [_ Hc _ _ [Hpl _] _]. unfold count_bound, pending_count, zlen. rewrite Hpl.
  intros [Hle|[Hle (b1 & r1 & Hp1 & Hb1)]].
  - left. destruct Hc as [?|(?&_)]; lia.
  - destruct Hc as [?|(?&?&b0&r0&Hp0&Hb0)]; [left; lia|].
    rewrite Hp1 in Hp0. simplify_eq. unfold zlen in *. lia.
Qed.

Lemma popped_back_count p p' b r :
  popped p p' b -> count_bound p -> count_bound (set_pending_front (with_router p' r) b).
Proof.
  intros [_ Hc Hfr _ [Hpl _] _]. unfold count_bound, pending_count, zlen.
  cbn [pending pull_policy set_pending_front with_pending with_router length].
  rewrite Hpl. intros Hcb.
  destruct Hfr as [Hsm|[rest Hrest]].
  - assert (Z.of_nat (length (pending p)) <= hi (pull_policy p) + 1) as Hp1 by lia.
    destruct Hc as [Hlt|(Heq & Hb & b0 & r0 & Hp0 & Hb0)].
    + right. split; [lia|]. by exists b, (pending p').
    + assert (Z.of_nat (length (pending p)) <= hi (pull_policy p)) as Hle.
      { destruct Hcb as [|[_ (b1 & r1 & Hp1' & Hb1)]]; [done|].
        rewrite Hp0 in Hp1'. simplify_eq. unfold zlen in *. lia. }
      right. split; [lia|]. by exists b, (pending p').
  - destruct Hc as [Hlt|(Heq & Hb & b0 & r0 & Hp0 & Hb0)].
    + destruct Hcb as [|[Hle (b1 & r1 & Hp1' & Hb1)]]; [left; lia|].
      rewrite Hrest in Hp1'. simplify_eq. right. split; [lia|]. by exists b1, (pending p').
    + rewrite Hrest in Hp0. simplify_eq. lia.
Qed.

Section Invariant.
Context (src : string) (lease : option SourceRateLease) (burst t0 : Z).
Hypothesis Hburst : 0 <= burst <= USIZE_MAX.
Hypothesis Hcap : 1 <= picker_pending_max_bytes lim.

Local Abbreviation Inv := (picker_inv src lease burst t0).

Lemma inv_none s p :
  Inv s -> pop_next_payload_for_post lim (pk s) = (None, p) -> Inv (set_pk s p).
Proof.
  intros HI Hp. pose proof (pop_next_spec (pk s)) as Hs. rewrite Hp in Hs.
  destruct Hs as (Hz & Hz' & _ & Hpl & _ & Hby).
  pose proof (pending_le_total s _ _ _ _ HI) as Htot.
  destruct HI as [H1' H2' H3' H4' H5' H6' H7' H8'].
  split; cbn [pk set_pk received sent ctrl stats charged]; try done.
  - by rewrite Hpl.
  - by rewrite Hz', <- H2', Hz.
  - intros Ht. apply Hby; auto.
  - intros _. left. unfold pending_count. rewrite Hz', Hpl, H1', zlen_nil.
    destruct (PullPolicy_new_bounds burst Hburst). lia.
  - intros m Ht Hm H0'. rewrite (Hby (H3' Ht) (Htot Ht)), Hz'. cbn. lia.
Qed.

Lemma inv_sent s p b r :
  Inv s -> pop_next_payload_for_post lim (pk s) = (Some b, p) ->
  Inv (mkPick (with_router p r) (rec_task_suc_cnt (ctrl s) (zlen b))
         (stats s ++ [mkRecord src (source_ip_counts src b) (zlen b)])
         (received s) (sent s ++ [b]) (charged s)).
Proof.
  intros HI Hp. pose proof (pop_next_spec (pk s)) as Hs. rewrite Hp in Hs.
  pose proof (pending_le_total s _ _ _ _ HI) as Htot.
  destruct HI as [H1' H2' H3' H4' H5' H6' H7' H8'].
  split; cbn [pk received sent ctrl stats charged].
  - cbn. by rewrite (proj1 (po_policy _ _ _ Hs)).
  - cbn [pending with_router]. rewrite concat_app, <- app_assoc. cbn. rewrite app_nil_r.
    by rewrite <- H2', (po_events _ _ _ Hs).
  - intros Ht. apply (po_bytes _ _ _ Hs); auto.
  - intros Hl. apply (popped_count _ _ _ Hs (H4' Hl)).
  - intros m Ht Hm H0'. cbn [pending_bytes with_router].
    pose proof (popped_bytes_le _ _ _ Hs (H3' Ht) (Htot Ht)). pose proof (ev_bytes_nonneg b).
    specialize (H5' m Ht Hm H0'). lia.
  - cbn [total_suc_cnt rec_task_suc_cnt]. unfold wrap_add. rewrite H6', Zplus_mod_idemp_l.
    rewrite concat_app, zlen_app. cbn. rewrite app_nil_r. f_equal. lia.
  - by rewrite H7', map_app.
  - done.
Qed.

Lemma inv_back s p b r :
  Inv s -> pop_next_payload_for_post lim (pk s) = (Some b, p) ->
  Inv (set_pk s (set_pending_front (with_router p r) b)).
Proof.
  intros HI Hp. pose proof (pop_next_spec (pk s)) as Hs. rewrite Hp in Hs.
  pose proof (pending_le_total s _ _ _ _ HI) as Htot.
  destruct HI as [H1' H2' H3' H4' H5' H6' H7' H8'].
  assert (total_bytes s <= USIZE_MAX -> bytes_ok (set_pending_front (with_router p r) b)) as Hok.
  { intros Ht. pose proof (popped_bytes_le _ _ _ Hs (H3' Ht) (Htot Ht)). specialize (Htot Ht).
    apply set_front_bytes; [|cbn [pending_bytes with_router]; lia].
    apply (po_bytes _ _ _ Hs); auto. }
  split; cbn [pk set_pk received sent ctrl stats charged]; try done.
  - cbn. by rewrite (proj1 (po_policy _ _ _ Hs)).
  - cbn. by rewrite <- H2', (po_events _ _ _ Hs).
  - intros Hl. apply (popped_back_count _ _ _ r Hs (H4' Hl)).
  - intros m Ht Hm H0'. rewrite (Hok Ht). cbn. rewrite <- (po_events _ _ _ Hs), <- (H3' Ht). auto.
Qed.

Lemma inv_accept s b :
  Inv s -> pending_bytes_at_capacity lim (pk s) = false ->
  (match lease with Some l => is_fixed l | None => false end = false ->
   pending_count (pk s) + 1 <= hi (pull_policy (pk s))) ->
  Inv (accept_batch s (has_lease lease) b).
Proof.
  intros HI Hc Hroom. pose proof (pending_le_total s _ _ _ _ HI) as Htot.
  destruct HI as [H1' H2' H3' H4' H5' H6' H7' H8'].
  apply Z.leb_gt in Hc.
  assert (total_bytes (accept_batch s (has_lease lease) b) = total_bytes s + ev_bytes b) as Htb.
  { unfold total_bytes. cbn. by rewrite concat_app, ev_bytes_app; cbn; rewrite app_nil_r. }
  pose proof (ev_bytes_nonneg b).
  assert (total_bytes s + ev_bytes b <= USIZE_MAX -> pending_bytes (pk s) + ev_bytes b <= USIZE_MAX) as Hsum.
  { intros Ht. assert (total_bytes s <= USIZE_MAX) as Ht' by lia.
    rewrite (H3' Ht'). unfold total_bytes in Ht. rewrite <- H2', ev_bytes_app in Ht.
    pose proof (ev_bytes_nonneg (concat (sent s))). lia. }
  split; rewrite ?Htb; cbn [pk accept_batch received sent ctrl stats charged].
  - done.
  - cbn [pending extend_pending with_pending]. by rewrite !concat_app, app_assoc, H2'.
  - intros Ht. apply extend_bytes; [apply H3'|apply Hsum]; lia.
  - intros Hl. left. unfold pending_count in *. cbn [pending extend_pending with_pending pull_policy].
    rewrite zlen_app. specialize (Hroom Hl). cbn. unfold zlen in *. cbn [length]. lia.
  - intros m Ht Hm H0'. apply Forall_app in Hm as [_ Hm]. apply Forall_cons in Hm as [Hm _].
    cbn [pending_bytes extend_pending with_pending]. rewrite batch_bytes_exact by
      (pose proof (ev_bytes_nonneg (concat (received s))); unfold total_bytes in Ht; lia).
    specialize (Hsum Ht). rewrite sat_add_exact by lia. lia.
  - done.
  - done.
  - rewrite H8'. destruct (has_lease lease); [by rewrite map_app|done].
Qed.

Lemma inv_ctrl s t : Inv s -> total_suc_cnt t = total_suc_cnt (ctrl s) -> Inv (set_ctrl s t).
Proof. intros [H1' H2' H3' H4' H5' H6' H7' H8'] Ht. split; auto. cbn. by rewrite Ht. Qed.

Lemma inv_fetch s n s' :
  Inv s -> fetched (has_lease lease) n s s' -> within_plan lease s n -> Inv s'.
Proof.
  intros HI Hf. revert HI. induction Hf as [s|n s s' c Hf IH|n s s' b Hc Hf IH]; intros HI Hplan; [done|..].
  - apply IH; [by apply inv_ctrl|done].
  - specialize (Hplan ltac:(lia)). apply IH.
    + apply inv_accept; [done|done|]. intros Hl. rewrite Hl in Hplan. lia.
    + intros _. cbn [pk accept_batch pull_policy extend_pending with_pending].
      destruct (match lease with Some l => is_fixed l | None => false end); [lia|].
      unfold pending_count in *. cbn [pending extend_pending with_pending].
      rewrite zlen_app, (zlen_cons b), zlen_nil. lia.
Qed.

Lemma picker_inv_step : step_invariant src lease Inv.
Proof.
  split.
  - split.
    + intros s pp [H1' H2' H3' H4' H5' H6' H7' H8']. by split.
    + exact inv_none.
    + exact inv_sent.
    + exact inv_back.
  - intros s [-> _ _ _ _ _ _ _]. cbn. lia.
  - exact inv_fetch.
  - intros s r [H1' H2' H3' H4' H5' H6' H7' H8']. by split.
  - exact inv_ctrl.
Qed.
End Invariant.

(** ** The records of a batch *)

Definition source_key (src : string) (ev : E) : string * option string :=
  (resolve_source_type src ev, access_ip ev).

(** The counts recorded with a posted batch hold, for every source type
    and access address, exactly the number of events of the batch that resolve
    to it. *)
Theorem source_ip_counts_correct (src : string) (b : SourceBatch E) (k : string * option string)
  (Hb : zlen b < 2 ^ 64) :
  default 0 (source_ip_counts src b !! k) = countb (fun ev => bool_decide (source_key src ev = k)) b.
Proof.
  unfold source_ip_counts.
  assert (forall m : SourceIpCounts, 0 <= default 0 (m !! k) -> default 0 (m !! k) + zlen b < 2 ^ 64 ->
    default 0 (foldl (fun m ev => let k := (resolve_source_type src ev, access_ip ev) in
      <[k := wrap_add 64 (default 0 (m !! k)) 1]> m) m b !! k)
    = default 0 (m !! k) + countb (fun ev => bool_decide (source_key src ev = k)) b) as Hg.
  2:{ unfold SourceIpCounts in *. rewrite Hg; rewrite lookup_empty; cbn; lia. }
  clear Hb. induction b as [|ev b IH]; intros m Hm Hlen; cbn [foldl countb]; [lia|].
  rewrite zlen_cons in Hlen. pose proof (zlen_nonneg b). cbn zeta.
  fold (source_key src ev).
  destruct (bool_decide (source_key src ev = k)) eqn:Ek.
  - apply bool_decide_eq_true in Ek. rewrite Ek.
    unfold SourceIpCounts in *. rewrite IH; rewrite lookup_insert_eq; cbn; rewrite wrap_add_exact by lia; lia.
  - apply bool_decide_eq_false in Ek.
    unfold SourceIpCounts in *. rewrite IH; rewrite lookup_insert_ne by done; lia.
Qed.

(** ** The status of a round *)

(** A post sends something of a non-empty queue or reports why not; its
    own source status is always [SrcReady]. *)
Lemma post_loop_src k src s rs :
  src_status (post_loop lim k src s rs).1 = src_status rs.
Proof.
  revert s rs. induction k as [|k IH]; intros s rs; cbn [post_loop]; [done|].
  destruct (pop_next_payload_for_post lim (pk s)) as [[b|] p]; [|done].
  destruct (try_send_round_robin (parse_router p) b) as [r [|b'|b'|b']]; [|done..].
  by rewrite IH.
Qed.

(** A round in which the source reported its end ([SrcTerminal])
    forgets it when it posts, because merging the post's statistics overwrites the
    source status: the round then stops the worker only if the parsers are
    gone; it keeps the end, and stops the worker with batches still queued,
    exactly when the queue is in cool-down. *)
Theorem terminal_round (src : string) (rs : RoundStat) (s : PickState E C)
  (Hterm : src_status rs = SrcTerminal) (Hne : pending (pk s) <> []) :
  let '(rs', s') := round_post lim src rs s in
  if (in_cooldown (post_policy (pk s))).1
  then rs' = rs /\ is_stop rs' = true /\ pending (pk s') = pending (pk s) /\ sent s' = sent s
  else src_status rs' = SrcReady /\
       (is_stop rs' = true <-> dist_status rs' = DistTerminal).
Proof.
  unfold round_post, pending_count.
  destruct (Z.ltb_spec 0 (zlen (pending (pk s)))) as [Hpos|Hz].
  2:{ destruct (pending (pk s)) as [|b q]; [done|]. rewrite zlen_cons in Hz. pose proof (zlen_nonneg q). lia. }
  destruct (in_cooldown (post_policy (pk s))) as [cool pp]. cbn [fst].
  destruct cool. { split; [done|]. split; [|done]. unfold is_stop. by rewrite Hterm. }
  unfold plan_post. rewrite Hterm, bool_decide_eq_true_2 by done.
  destruct (Z.eqb_spec (zlen (pending (pk s))) 0); [lia|]. cbn [post_allow batch_size].
  rewrite (proj2 (Z.ltb_lt _ _) Hpos). unfold handle_pending_batch.
  match goal with |- context [post_loop lim ?k src ?s1 ?r1] =>
    pose proof (post_loop_src k src s1 r1) as Hl; destruct (post_loop lim k src s1 r1) as [b_rs s'] end.
  cbn [fst] in Hl. unfold merge. cbn [src_status dist_status]. unfold is_stop. cbn [src_status dist_status].
  rewrite Hl. split; [done|]. by destruct (dist_status b_rs).
Qed.

End Laws.

(** ** A concrete picker *)

(** Events of a test: their payload and tags. *)
Record DemoEvent := mkDemo { demo_payload : RawData; demo_tags : list (string * string) }.

#[export] Instance DemoEvent_api : SourceEventApi DemoEvent := {
  payload := demo_payload;
  tags_get e k := snd <$> List.find (fun t => String.eqb t.1 k) (demo_tags e);
  ups_ip _ := None;
}.

Definition demo_event (s : string) : DemoEvent := mkDemo (RawString s) [("wp_access_ip", "10.0.0.1")].

Definition demo_lim : MemoryLimits := for_profile Low.

Definition demo_state (cap : option nat) (queue : list (list DemoEvent))
    : PickState DemoEvent (BoundedChannel (list DemoEvent)) :=
  let p := picker_new demo_lim (Router.new [open_chan (list DemoEvent) cap]) in
  mkPick (foldl extend_pending p queue) (TaskController_new "demo" None 0) [] queue [] [].

Lemma source_ip_counts_correct_witness :
  default 0 (source_ip_counts "File_1" [demo_event "a"; demo_event "b"] !! ("file", Some "10.0.0.1")) =
  countb (fun ev => bool_decide (source_key "File_1" ev = ("file", Some "10.0.0.1")))
    [demo_event "a"; demo_event "b"].
Proof. apply source_ip_counts_correct. vm_compute. reflexivity. Defined.

Example counts_two :
  source_ip_counts "File_1" [demo_event "a"; demo_event "b"] !! ("file", Some "10.0.0.1") = Some 2.
Proof. vm_compute. reflexivity. Qed.

Lemma terminal_round_witness :
  let '(rs', s') := round_post demo_lim "src" (up_src_status RoundStat_new SrcTerminal)
                      (demo_state (Some 1%nat) [[demo_event "a"]; [demo_event "b"]]) in
  if (in_cooldown (PostPolicy_new 4)).1
  then rs' = up_src_status RoundStat_new SrcTerminal /\ is_stop rs' = true /\
       pending (pk s') = [[demo_event "a"]; [demo_event "b"]] /\ sent s' = []
  else src_status rs' = SrcReady /\
       (is_stop rs' = true <-> dist_status rs' = DistTerminal).
Proof.
  apply (terminal_round demo_lim "src" (up_src_status RoundStat_new SrcTerminal)
           (demo_state (Some 1%nat) [[demo_event "a"]; [demo_event "b"]])); [reflexivity|discriminate].
Defined.
