(* ===== verification/AutoRate.v ===== *)
(** The automatic source rate
    ([src/runtime/collector/realtime/picker/auto_limit.rs]): a controller all
    source workers share raises and lowers the limiter's rate.

    Clock reads are arguments, in the order the code makes them; the resident
    memory of the process is what the operating system answers. *)
From Stdlib Require Import ZArith Lia String.
From stdpp Require Import prelude strings.
From S2P Require Import Prelude RateLimit Limits Round.
Local Open Scope string_scope.
Local Open Scope Z_scope.

Inductive AutoRateDecision := Keep | Increase | Decrease.

#[export] Instance AutoRateDecision_eq_dec : EqDecision AutoRateDecision.
Proof. solve_decision. Defined.

Record AutoRateSample := mkSample {
  pending_count : Z;
  pending_bytes : Z;
  round : RoundStat;
}.

(** The configuration is the first part, the window the second. *)
Record AutoRateConf := mkConf {
  min_rps : Z;
  max_rps : Z;
  increase_pct : Z;
  startup_increase_pct : Z;
  decrease_pct : Z;
  min_increase_step : Z;
  startup_min_increase_step : Z;
  startup_window : Z;
  sample_window : Z;
  low_pending_bytes : Z;
  high_pending_bytes : Z;
  rss_growth_bytes : Z;
  rss_max_bytes : option Z;
}.

Record AutoRateController := mkController {
  conf : AutoRateConf;
  startup_done : bool;
  last_rss_bytes : option Z;
  start_tick : Z;
  last_tick : Z;
  last_pending_bytes : Z;
  window_pending_count : Z;
  window_pending_bytes : Z;
  window_dist_pending : bool;
  window_sent_batches : Z;
}.

Definition DEFAULT_MIN_RPS : Z := 10000.
Definition DEFAULT_MAX_RPS : Z := 10000000.
Definition DEFAULT_INCREASE_PCT : Z := 25.
Definition DEFAULT_STARTUP_INCREASE_PCT : Z := 100.
Definition DEFAULT_DECREASE_PCT : Z := 85.
Definition DEFAULT_MIN_INCREASE_STEP_PER_WORKER : Z := 5000.
Definition DEFAULT_STARTUP_MIN_INCREASE_STEP_PER_WORKER : Z := 1000.
Definition DEFAULT_STARTUP_WINDOW_MS : Z := 10000.
Definition DEFAULT_SAMPLE_WINDOW_MS : Z := 1000.
Definition DEFAULT_LOW_PENDING_BYTES_RATIO : Z := 30.
Definition DEFAULT_HIGH_PENDING_BYTES_RATIO : Z := 70.
Definition DEFAULT_RSS_GROWTH_MB : Z := 32.

Definition mb_to_bytes (mb : Z) : Z := sat_mul USIZE_MAX (sat_mul USIZE_MAX mb 1024) 1024.

Definition read_env_usize (env : Env) (key : string) : option Z := v ← env key; parse_usize v.

Definition millis (ms : Z) : Z := ms * 1000000.

Definition conf_for_workers (env : Env) (lim : MemoryLimits) (workers : Z) : AutoRateConf :=
  let workers := Z.max workers 1 in
  let max_pending_bytes := Z.max (picker_pending_max_bytes lim) 1 in
  mkConf
    (default DEFAULT_MIN_RPS (read_env_usize env "WP_SOURCE_AUTO_MIN_RPS"))
    (default DEFAULT_MAX_RPS (read_env_usize env "WP_SOURCE_AUTO_MAX_RPS"))
    (default DEFAULT_INCREASE_PCT (read_env_usize env "WP_SOURCE_AUTO_INCREASE_PCT"))
    (default DEFAULT_STARTUP_INCREASE_PCT (read_env_usize env "WP_SOURCE_AUTO_STARTUP_INCREASE_PCT"))
    (default DEFAULT_DECREASE_PCT (read_env_usize env "WP_SOURCE_AUTO_DECREASE_PCT"))
    (default (sat_mul USIZE_MAX DEFAULT_MIN_INCREASE_STEP_PER_WORKER workers)
       (read_env_usize env "WP_SOURCE_AUTO_MIN_INCREASE_STEP"))
    (default (sat_mul USIZE_MAX DEFAULT_STARTUP_MIN_INCREASE_STEP_PER_WORKER workers)
       (read_env_usize env "WP_SOURCE_AUTO_STARTUP_MIN_INCREASE_STEP"))
    (millis (default DEFAULT_STARTUP_WINDOW_MS (read_env_usize env "WP_SOURCE_AUTO_STARTUP_WINDOW_MS")))
    (millis (default DEFAULT_SAMPLE_WINDOW_MS (read_env_usize env "WP_SOURCE_AUTO_SAMPLE_WINDOW_MS")))
    (sat_mul USIZE_MAX max_pending_bytes DEFAULT_LOW_PENDING_BYTES_RATIO / 100)
    (sat_mul USIZE_MAX max_pending_bytes DEFAULT_HIGH_PENDING_BYTES_RATIO / 100)
    (mb_to_bytes (default DEFAULT_RSS_GROWTH_MB (read_env_usize env "WP_SOURCE_AUTO_RSS_GROWTH_MB")))
    (mb_to_bytes <$> read_env_usize env "WP_SOURCE_AUTO_RSS_MAX_MB").

Definition new_for_workers (env : Env) (lim : MemoryLimits) (workers start_now last_now : Z)
    : AutoRateController :=
  mkController (conf_for_workers env lim workers) false None start_now last_now 0 0 0 false 0.

Definition elapsed (tick now : Z) : Z := Z.max 0 (now - tick).

Definition merge_sample (c : AutoRateController) (s : AutoRateSample) : AutoRateController :=
  mkController (conf c) (startup_done c) (last_rss_bytes c) (start_tick c) (last_tick c)
    (last_pending_bytes c)
    (Z.max (window_pending_count c) (pending_count s))
    (Z.max (window_pending_bytes c) (pending_bytes s))
    (window_dist_pending c || is_pending (round s))
    (sat_add USIZE_MAX (window_sent_batches c) (send_cnt (round s))).

Definition increase_params (c : AutoRateController) (now : Z) : Z * Z :=
  if negb (startup_done c) && (elapsed (start_tick c) now <? startup_window (conf c))
  then (startup_increase_pct (conf c), startup_min_increase_step (conf c))
  else (increase_pct (conf c), min_increase_step (conf c)).

Definition rss_over_max_limit (c : AutoRateController) (rss : option Z) : bool :=
  match rss, rss_max_bytes (conf c) with
  | Some rss, Some rss_max => rss_max <? rss
  | _, _ => false
  end.

Definition rss_growing_fast (c : AutoRateController) (rss : option Z) : bool :=
  match rss, last_rss_bytes c with
  | Some rss, Some last_rss => sat_add U64_MAX last_rss (rss_growth_bytes (conf c)) <? rss
  | _, _ => false
  end.

Definition decide_rate (c : AutoRateController) (pending_count pending_bytes : Z)
    (dist_pending : bool) (sent_batches : Z) (growing over : bool) : AutoRateDecision :=
  let pending_growing := last_pending_bytes c <? pending_bytes in
  if dist_pending
     || (high_pending_bytes (conf c) <=? pending_bytes)
     || (pending_growing && (low_pending_bytes (conf c) <? pending_bytes))
     || growing || over
  then Decrease
  else if (pending_bytes <=? low_pending_bytes (conf c)) && (pending_count =? 0) && (0 <? sent_batches)
  then Increase
  else Keep.

(** [observe]; [None] is the panic of [clamp] on an empty range.  [now0] is
    read against the sample window, [now1] becomes the last tick, [now2] is
    read against the startup window. *)
Definition observe (env : LimitEnv) (c : AutoRateController) (l : SourceRateLimiter)
    (s : AutoRateSample) (now0 now1 now2 : Z) (rss : option Z)
    : option (AutoRateDecision * AutoRateController * SourceRateLimiter) :=
  if negb (is_auto l) then Some (Keep, c, l)
  else
    let c := merge_sample c s in
    if elapsed (last_tick c) now0 <? sample_window (conf c) then Some (Keep, c, l)
    else
      current ← clamp (current_rate_per_sec l) (min_rps (conf c)) (max_rps (conf c));
      let decision :=
        decide_rate c (window_pending_count c) (window_pending_bytes c) (window_dist_pending c)
          (window_sent_batches c) (rss_growing_fast c rss) (rss_over_max_limit c rss) in
      let pending_bytes := window_pending_bytes c in
      next ← match decision with
        | Keep => Some current
        | Increase =>
            let '(pct, min_step) := increase_params c now2 in
            let step := Z.max (sat_mul USIZE_MAX current pct / 100) min_step in
            clamp (sat_add USIZE_MAX current step) (min_rps (conf c)) (max_rps (conf c))
        | Decrease =>
            clamp (sat_mul USIZE_MAX current (decrease_pct (conf c)) / 100)
              (min_rps (conf c)) (max_rps (conf c))
        end;
      let l := if next =? current_rate_per_sec l then l else set_rate_per_sec env l next in
      let done := match decision with Decrease => true | _ => startup_done c end in
      let last_rss := match rss with Some r => Some r | None => last_rss_bytes c end in
      Some (decision,
            mkController (conf c) done last_rss (start_tick c) now1 pending_bytes 0 0 false 0, l).

(** ** Behaviour *)

Record conf_ok (c : AutoRateConf) : Prop := {
  ok_range : 0 <= min_rps c <= max_rps c;
  ok_max : max_rps c <= USIZE_MAX;
  ok_pcts : 0 <= increase_pct c /\ 0 <= startup_increase_pct c /\ 0 <= decrease_pct c;
  ok_steps : 0 <= min_increase_step c /\ 0 <= startup_min_increase_step c;
}.

(** A window in which the parsers pushed back. *)
Definition pushed_back (c : AutoRateController) (s : AutoRateSample) : bool :=
  window_dist_pending c || is_pending (round s).

Lemma clamp_in z lo hi : lo <= hi -> clamp z lo hi = Some (Z.max lo (Z.min hi z)).
Proof.
  intros H. unfold clamp. destruct (Z.ltb_spec hi lo); [lia|].
  destruct (Z.ltb_spec z lo); [f_equal; lia|]. destruct (Z.ltb_spec hi z); f_equal; lia.
Qed.

(** The rate the limiter gets at the end of a window. *)
Definition next_rate (c : AutoRateController) (d : AutoRateDecision) (now : Z) (rate : Z) : Z :=
  let '(lo, hi) := (min_rps (conf c), max_rps (conf c)) in
  let current := Z.max lo (Z.min hi rate) in
  match d with
  | Keep => current
  | Increase =>
      let '(pct, min_step) := increase_params c now in
      Z.max lo (Z.min hi (sat_add USIZE_MAX current (Z.max (sat_mul USIZE_MAX current pct / 100) min_step)))
  | Decrease => Z.max lo (Z.min hi (sat_mul USIZE_MAX current (decrease_pct (conf c)) / 100))
  end.

Lemma set_rate_id env l : rate_per_sec (set_rate_per_sec env l (rate_per_sec l)) = rate_per_sec l.
Proof. done. Qed.

Lemma observe_window env c l s now0 now1 now2 rss :
  min_rps (conf c) <= max_rps (conf c) -> is_auto l = true ->
  sample_window (conf c) <= elapsed (last_tick c) now0 ->
  exists d c' l', observe env c l s now0 now1 now2 rss = Some (d, c', l') /\
    rate_per_sec l' = next_rate (merge_sample c s) d now2 (rate_per_sec l) /\
    mode l' = mode l /\ conf c' = conf c /\ last_tick c' = now1 /\
    start_tick c' = start_tick c /\
    startup_done c' = (startup_done c || bool_decide (d = Decrease)) /\
    (pushed_back c s = true -> d = Decrease) /\
    (d = Increase -> Z.max (window_pending_count c) (pending_count s) = 0 /\ pushed_back c s = false).
Proof.
  intros Hr Ha Hw. unfold observe. rewrite Ha. cbn [negb].
  destruct (Z.ltb_spec (elapsed (last_tick (merge_sample c s)) now0) (sample_window (conf (merge_sample c s))))
    as [Hlt|_]; [cbn in Hlt; lia|].
  set (c1 := merge_sample c s). unfold current_rate_per_sec.
  change (conf c1) with (conf c). rewrite clamp_in by done. cbn [mbind option_bind].
  set (d := decide_rate c1 _ _ _ _ _ _).
  set (current := Z.max _ (Z.min _ (rate_per_sec l))).
  assert (exists next, (match d with
        | Keep => Some current
        | Increase =>
            let '(pct, min_step) := increase_params c1 now2 in
            clamp (sat_add USIZE_MAX current (Z.max (sat_mul USIZE_MAX current pct / 100) min_step))
              (min_rps (conf c)) (max_rps (conf c))
        | Decrease =>
            clamp (sat_mul USIZE_MAX current (decrease_pct (conf c)) / 100)
              (min_rps (conf c)) (max_rps (conf c))
        end) = Some next /\ next = next_rate c1 d now2 (rate_per_sec l)) as (next & Hn & Hnext).
  { unfold next_rate. change (conf c1) with (conf c). fold current. destruct d.
    - by eexists.
    - destruct (increase_params c1 now2) as [pct st]. rewrite clamp_in by done. by eexists.
    - rewrite clamp_in by done. by eexists. }
  eexists d, _, _. split; [|split_and!].
  - rewrite Hn. cbn [mbind option_bind]. reflexivity.
  - rewrite <- Hnext. destruct (Z.eqb_spec next (rate_per_sec l)); [lia|done].
  - by destruct (_ =? _).
  - done.
  - done.
  - done.
  - cbn. by destruct d, (startup_done c).
  - intros Hp. unfold d, decide_rate. cbn [window_dist_pending c1 merge_sample].
    unfold pushed_back in Hp. by rewrite Hp.
  - unfold d, decide_rate. cbn [window_dist_pending window_pending_count c1 merge_sample].
    unfold pushed_back. intros Hd. destruct (window_dist_pending c || is_pending (round s)); [done|].
    split_cases; (split; [lia|done]).
Qed.

(** At the end of a sample window with a proper range, the controller
    never panics; the new rate lies in the range; after a push-back of the
    parsers it does not exceed the current rate (with a decrease percentage of
    at most 100) and the startup phase is over for good; it is raised only when
    no push-back and no backlog was seen in the whole window. *)
Theorem observe_step (env : LimitEnv) (c : AutoRateController) (l : SourceRateLimiter)
  (s : AutoRateSample) (now0 now1 now2 : Z) (rss : option Z)
  (Hconf : conf_ok (conf c))
  (Hauto : is_auto l = true)
  (Hwin : sample_window (conf c) <= elapsed (last_tick c) now0) :
  exists d c' l',
    observe env c l s now0 now1 now2 rss = Some (d, c', l') /\
    min_rps (conf c) <= rate_per_sec l' <= max_rps (conf c) /\
    (pushed_back c s = true -> d = Decrease /\ startup_done c' = true) /\
    (d = Decrease -> decrease_pct (conf c) <= 100 -> min_rps (conf c) <= rate_per_sec l ->
       rate_per_sec l' <= rate_per_sec l) /\
    (rate_per_sec l < rate_per_sec l' -> min_rps (conf c) <= rate_per_sec l ->
       decrease_pct (conf c) <= 100 ->
       d = Increase /\ pushed_back c s = false /\ Z.max (window_pending_count c) (pending_count s) = 0).
Proof.
  destruct Hconf as [Hr Hm (_ & _ & Hp) Hst].
  destruct (observe_window env c l s now0 now1 now2 rss) as
    (d & c' & l' & Ho & Hrate & Hmode & Hcc & _ & _ & Hdone & Hpush & Hinc); [lia|done..|].
  exists d, c', l'. split; [done|].
  assert (d = Decrease -> decrease_pct (conf c) <= 100 -> min_rps (conf c) <= rate_per_sec l ->
       rate_per_sec l' <= rate_per_sec l) as Hdec.
  { intros -> Hp2 Hge. rewrite Hrate. cbn.
    set (cur := Z.max _ (Z.min _ (rate_per_sec l))).
    assert (min_rps (conf c) <= cur <= rate_per_sec l) by lia.
    assert (sat_mul USIZE_MAX cur (decrease_pct (conf c)) / 100 <= cur); [|lia].
    apply Z.div_le_upper_bound; [lia|]. unfold sat_mul. nia. }
  split_and!.
  - rewrite Hrate. unfold next_rate. cbn [conf merge_sample].
    destruct d; [|destruct (increase_params _ _)|]; lia.
  - rewrite Hrate. unfold next_rate. cbn [conf merge_sample].
    destruct d; [|destruct (increase_params _ _)|]; lia.
  - intros Hpb. specialize (Hpush Hpb). subst d. split; [done|]. by rewrite Hdone, orb_true_r.
  - done.
  - intros Hlt Hge Hp2. destruct d.
    + rewrite Hrate in Hlt. cbn in Hlt. lia.
    + destruct Hinc; done.
    + specialize (Hdec eq_refl Hp2 Hge). lia.
Qed.

Definition demo_conf : AutoRateConf := mkConf 100 10000 25 100 85 100 1000 0 0 300 700 0 None.
Definition demo_ctl : AutoRateController := mkController demo_conf false None 0 0 0 0 0 false 0.
Definition demo_auto : SourceRateLimiter := mkSourceRateLimiter Auto 1000 5 0.
Definition demo_env : LimitEnv := mkLimitEnv false None None.
Definition demo_pending : AutoRateSample := mkSample 3 200 (to_dist_pending RoundStat_new).

Lemma demo_conf_ok : conf_ok demo_conf.
Proof. split; vm_compute; repeat split; congruence. Qed.

Lemma observe_step_witness :
  exists d c' l',
    observe demo_env demo_ctl demo_auto demo_pending 5 5 5 None = Some (d, c', l') /\
    100 <= rate_per_sec l' <= 10000 /\
    (pushed_back demo_ctl demo_pending = true -> d = Decrease /\ startup_done c' = true) /\
    (d = Decrease -> 85 <= 100 -> 100 <= 1000 -> rate_per_sec l' <= 1000) /\
    (1000 < rate_per_sec l' -> 100 <= 1000 -> 85 <= 100 ->
       d = Increase /\ pushed_back demo_ctl demo_pending = false /\
       Z.max (window_pending_count demo_ctl) (pending_count demo_pending) = 0).
Proof.
  apply (observe_step demo_env demo_ctl demo_auto demo_pending 5 5 5 None demo_conf_ok);
    [reflexivity | vm_compute; congruence].
Defined.

(** Consecutive windows, each with its sample and clock reads. *)
Record Window := mkWindow { w_sample : AutoRateSample; w_now : Z * Z * Z; w_rss : option Z }.

Fixpoint observe_all (env : LimitEnv) (c : AutoRateController) (l : SourceRateLimiter)
    (ws : list Window) : option (AutoRateController * SourceRateLimiter) :=
  match ws with
  | [] => Some (c, l)
  | w :: ws =>
      let '(now0, now1, now2) := w_now w in
      '(_, c, l) ← observe env c l (w_sample w) now0 now1 now2 (w_rss w);
      observe_all env c l ws
  end.

(** Every sample of the run ends a window, and the parsers pushed back in it. *)
Fixpoint pressed (last window : Z) (ws : list Window) : Prop :=
  match ws with
  | [] => True
  | w :: ws =>
      window <= elapsed last (w_now w).1.1 /\ is_pending (round (w_sample w)) = true /\
      pressed (w_now w).1.2 window ws
  end.

(** Under lasting push-back the rate falls in every window, by
    at least one event per second until it reaches the configured minimum, so
    that it is at the minimum after at most [rate - min] windows. *)
Theorem rate_backs_off (env : LimitEnv) (c : AutoRateController) (l : SourceRateLimiter)
  (ws : list Window)
  (Hconf : conf_ok (conf c)) (Hpct : decrease_pct (conf c) < 100)
  (Hauto : is_auto l = true)
  (Hmin : min_rps (conf c) <= rate_per_sec l)
  (Hpress : pressed (last_tick c) (sample_window (conf c)) ws) :
  exists c' l', observe_all env c l ws = Some (c', l') /\
    min_rps (conf c) <= rate_per_sec l' <= Z.max (min_rps (conf c)) (rate_per_sec l - zlen ws).
Proof.
  revert c l Hconf Hpct Hauto Hmin Hpress.
  induction ws as [|w ws IH]; intros c l Hconf Hpct Hauto Hmin Hpress.
  { exists c, l. split; [done|]. rewrite zlen_nil. lia. }
  cbn [observe_all]. destruct w as [smp [[now0 now1] now2] rss]. cbn [w_now w_sample w_rss].
  cbn in Hpress. destruct Hpress as (Hw & Hpend & Hrest).
  destruct Hconf as [Hr Hm Hps Hst].
  destruct (observe_window env c l smp now0 now1 now2 rss) as
    (d & c' & l' & -> & Hrate & Hmode & Hcc & Ht & _ & _ & Hpush & _); [lia|done..|].
  cbn [mbind option_bind].
  assert (d = Decrease) as -> by (apply Hpush; unfold pushed_back; rewrite Hpend; apply orb_true_r).
  assert (min_rps (conf c) <= rate_per_sec l' <= Z.max (min_rps (conf c)) (rate_per_sec l - 1)) as Hstep.
  { rewrite Hrate. cbn. set (cur := Z.max _ (Z.min _ (rate_per_sec l))).
    assert (0 <= cur <= rate_per_sec l) by lia.
    assert (sat_mul USIZE_MAX cur (decrease_pct (conf c)) / 100 <= Z.max 0 (cur - 1)); [|lia].
    unfold sat_mul. apply Z.lt_succ_r. apply Z.div_lt_upper_bound; [lia|]. nia. }
  rewrite <- Hcc in *. rewrite <- Ht in Hrest.
  destruct (IH c' l') as (c2 & l2 & Hall & Hb); try done.
  { unfold is_auto. by rewrite Hmode. }
  { lia. }
  exists c2, l2. split; [done|]. rewrite zlen_cons. pose proof (zlen_nonneg ws). lia.
Qed.

Lemma rate_backs_off_witness :
  exists c' l',
    observe_all demo_env demo_ctl demo_auto
      [mkWindow demo_pending (1, 1, 1) None; mkWindow demo_pending (2, 2, 2) None] = Some (c', l') /\
    100 <= rate_per_sec l' <= Z.max 100 (1000 - 2).
Proof.
  apply (rate_backs_off demo_env demo_ctl demo_auto
    [mkWindow demo_pending (1, 1, 1) None; mkWindow demo_pending (2, 2, 2) None] demo_conf_ok);
    [reflexivity | reflexivity | vm_compute; congruence | ].
  vm_compute. repeat split; congruence.
Defined.

(** With a minimum above the maximum (both come from the environment
    unchecked) the first completed window panics inside the shared lock. *)
Theorem observe_panics_on_empty_range (env : LimitEnv) (c : AutoRateController)
  (l : SourceRateLimiter) (s : AutoRateSample) (now0 now1 now2 : Z) (rss : option Z)
  (Hrange : max_rps (conf c) < min_rps (conf c))
  (Hauto : is_auto l = true)
  (Hwin : sample_window (conf c) <= elapsed (last_tick c) now0) :
  observe env c l s now0 now1 now2 rss = None.
Proof.
  unfold observe. rewrite Hauto. cbn [negb].
  destruct (Z.ltb_spec (elapsed (last_tick (merge_sample c s)) now0) (sample_window (conf (merge_sample c s))))
    as [Hlt|_]; [cbn in Hlt; lia|].
  cbn [conf merge_sample].
  assert (clamp (current_rate_per_sec l) (min_rps (conf c)) (max_rps (conf c)) = None) as ->; [|done].
  unfold clamp. destruct (Z.ltb_spec (max_rps (conf c)) (min_rps (conf c))); [done|lia].
Qed.

Definition bad_env : Env := fun n =>
  if String.eqb n "WP_SOURCE_AUTO_MIN_RPS" then Some "20000000" else None.

Lemma observe_panics_on_empty_range_witness :
  observe demo_env (new_for_workers bad_env (for_profile Standard) 2 0 0) demo_auto demo_pending
    2000000000 2000000000 2000000000 None = None.
Proof.
  apply observe_panics_on_empty_range; [reflexivity | reflexivity | vm_compute; congruence].
Defined.
