(* ===== verification/Worker.v ===== *)
(** The source worker ([SourceWorker],
    [src/runtime/collector/realtime/picker/worker.rs]): the dispatch loop around
    the picker's rounds, and what a whole run of it guarantees.

    A turn of the loop meets an environment ([TurnEnv]): what the other tasks
    did to the shared router meanwhile, the command received, clock reads, the
    answers of the source, the state of the shared rate controller's lock and
    whether the statistics report fails. *)
From Stdlib Require Import ZArith Lia String.
From stdpp Require Import prelude strings gmap.
From S2P Require Import Prelude RateLimit Actor Limits Round Router ErrPolicy AutoRate.
From S2P Require Import Picker PickerLaws.
Local Open Scope string_scope.
Local Open Scope list_scope.
Local Open Scope Z_scope.

Definition PICKER_DEFAULT_ROUND_BATCH : Z := 10.
Definition PICKER_EVENT_CNT_OF_BATCH : Z := 100.
Definition ACTOR_IDLE_TICK_MS : Z := 50.

Section Worker.
Context {E C : Type} `{SourceEventApi E} `{Channel (list E) C}.
Variable lim : MemoryLimits.
Variable lenv : LimitEnv.

Record SourceWorker := mkWorker {
  speed_limit : option Z;
  source_rate_limiter : option SourceRateLimiter;
  auto_rate_controller : option AutoRateController;
  max_count : option Z;
  fetch_timeout_ms : Z;
}.

Definition SourceWorker_new (speed : Z) (max_count : option Z) (timeout_ms : Z)
    (limiter : option SourceRateLimiter) (auto : option AutoRateController) : SourceWorker :=
  mkWorker (if decide (is_Some limiter) then None else Some speed) limiter auto max_count timeout_ms.

Definition throttle_unit_size (w : SourceWorker) (round_batch event_cnt_of_batch : Z) : Z :=
  let default_unit :=
    Z.max (sat_mul USIZE_MAX (sat_mul USIZE_MAX (picker_burst_max lim) round_batch) event_cnt_of_batch) 1 in
  match speed_limit w with
  | Some limit => if 0 <? limit then Z.min limit default_unit else default_unit
  | None => default_unit
  end.

(** The state of the loop.  The worker's limiter is the shared one; the lease's
    copy of it is only asked for its mode, which never changes. *)
Record LoopState := mkLoop {
  worker : SourceWorker;
  ps : PickState E C;
  total_round : RoundStat;
  lease : option SourceRateLease;
  slept : list Z;
}.

Definition set_ps (st : LoopState) (s : PickState E C) : LoopState :=
  mkLoop (worker st) s (total_round st) (lease st) (slept st).
Definition set_total (st : LoopState) (r : RoundStat) : LoopState :=
  mkLoop (worker st) (ps st) r (lease st) (slept st).

Definition calc_sleep_duration (round : RoundStat) (pending : Z) (t : TaskController) (now : Z)
    : Z * TaskController :=
  let '(throttle, t) := if is_unit_end t then unit_speed_limit_left t now else (0, t) in
  if negb (throttle =? 0) then (throttle, t)
  else if need_wait round pending then (ACTOR_IDLE_TICK_MS * 1000000, t) else (0, t).

Definition reached_limits (w : SourceWorker) (t : TaskController) (max_line : option Z) : bool :=
  match max_line with Some m => m <=? total_count t | None => false end ||
  match max_count w with Some m => m <=? total_count t | None => false end.

Record TurnEnv := mkTurn {
  t_router : ParseDispatchRouter C -> ParseDispatchRouter C;
  t_cmd : option ActorCtrlCmd;
  t_now : Z * Z;
  t_fetch : FetchEnv E;
  t_lock_ok : bool;
  t_auto_now : Z * Z * Z;
  t_rss : option Z;
  t_stat_err : bool;
  t_sleep_now : Z;
}.

Inductive LoopResult :=
  | Looping (st : LoopState)
  | Exited (st : LoopState)
  | SourceFailed (e : SourceReason) (st : LoopState)
  | ReportFailed (st : LoopState)
  | WorkerPanicked (st : LoopState).

Definition result_state (r : LoopResult) : LoopState :=
  match r with
  | Looping st | Exited st | SourceFailed _ st | ReportFailed st | WorkerPanicked st => st
  end.

(** The end of an outer turn: the periodic report, the sleep, and the reset of
    the next turn. *)
Definition outer_boundary (env : TurnEnv) (st : LoopState) : LoopState + LoopState :=
  if t_stat_err env then inr st
  else
    let '(dur, t) := calc_sleep_duration (total_round st) (Picker.pending_count (pk (ps st)))
                       (ctrl (ps st)) (t_sleep_now env) in
    inl (mkLoop (worker st) (set_ctrl (ps st) (rec_task_unit_reset t)) RoundStat_new (lease st)
           (slept st ++ [dur])).

(** The observation of the round by the shared controller; [None] is its
    panic. *)
Definition observe_round (env : TurnEnv) (one_round : RoundStat) (st : LoopState) : option LoopState :=
  match auto_rate_controller (worker st), source_rate_limiter (worker st) with
  | Some c, Some l =>
      if t_lock_ok env then
        let '(now0, now1, now2) := t_auto_now env in
        let sample := mkSample (Picker.pending_count (pk (ps st))) (Picker.pending_bytes (pk (ps st))) one_round in
        '(_, c, l) ← observe lenv c l sample now0 now1 now2 (t_rss env);
        let w := worker st in
        Some (mkLoop (mkWorker (speed_limit w) (Some l) (Some c) (max_count w) (fetch_timeout_ms w))
                (ps st) (total_round st) (lease st) (slept st))
      else Some st
  | _, _ => Some st
  end.

(** One test of [while !total_round.terminal_by_round(round_batch)] with its
    body; [max_line] is the line limit of the command line. *)
Definition loop_turn (src_key : string) (max_line : option Z) (env : TurnEnv) (st : LoopState)
    : LoopResult :=
  let boundary st := match outer_boundary env st with
                     | inl st => Looping st
                     | inr st => ReportFailed st
                     end in
  let st := set_ps st (set_pk (ps st) (with_router (pk (ps st)) (t_router env (parse_router (pk (ps st)))))) in
  let '(over, total) := terminal_by_round (total_round st) PICKER_DEFAULT_ROUND_BATCH in
  let st := set_total st total in
  if over then boundary st
  else
    let '(stop, t) := poll_cmd_now (ctrl (ps st)) (t_cmd env) (t_now env).1 (t_now env).2 in
    let st := set_ps st (set_ctrl (ps st) t) in
    if stop || reached_limits (worker st) t max_line then Exited st
    else
      match round_pick lim src_key (t_fetch env) (lease st) (ps st) with
      | (inr e, s) => SourceFailed e (set_ps st s)
      | (inl one_round, s) =>
          let st := set_ps st s in
          match observe_round env one_round st with
          | None => WorkerPanicked st
          | Some st =>
              let st := set_total st (merge (total_round st) one_round) in
              if is_stop (total_round st) then Exited st
              else if is_unit_end (ctrl (ps st)) then boundary st
              else Looping st
          end
      end.

Fixpoint run_dispatch_loop (src_key : string) (max_line : option Z) (envs : list TurnEnv)
    (st : LoopState) : LoopResult :=
  match envs with
  | [] => Looping st
  | env :: envs =>
      match loop_turn src_key max_line env st with
      | Looping st => run_dispatch_loop src_key max_line envs st
      | r => r
      end
  end.

(** The state in which [run_dispatch_loop] enters its loop. *)
Definition loop_start (w : SourceWorker) (router : ParseDispatchRouter C) (rt_name : string) (now : Z)
    : LoopState :=
  let unit_size := throttle_unit_size w PICKER_DEFAULT_ROUND_BATCH PICKER_EVENT_CNT_OF_BATCH in
  let post_speed_limit :=
    match source_rate_limiter w with Some _ => None | None => speed_limit w end in
  let t := from_speed_limit rt_name post_speed_limit unit_size now in
  mkLoop w (mkPick (picker_new lim router) (rec_task_unit_reset t) [] [] [] []) RoundStat_new
    (RateLimit.new_lease <$> source_rate_limiter w) [].

(** ** Invariants of the loop *)

Context `{!ChannelLaws (list E) C}.
Hypothesis Hlim : limits_ok lim.

Lemma limits_used :
  1 <= picker_coalesce_max_events lim /\ 1 <= picker_pending_max_bytes lim /\
  0 <= picker_burst_max lim <= USIZE_MAX.
Proof.
  destruct Hlim as [Hp _ _ _ _ _ _]. unfold plain_settings in Hp.
  repeat (apply Forall_cons in Hp as [? Hp]). cbn [fst snd] in *. unfold KIB in *. lia.
Qed.

Definition loop_ok (Inv : PickState E C -> Prop) (l : option SourceRateLease) (st : LoopState) : Prop :=
  Inv (ps st) /\ lease st = l.

Lemma outer_boundary_inv src l Inv env st :
  step_invariant lim src l Inv -> loop_ok Inv l st ->
  match outer_boundary env st with inl st | inr st => loop_ok Inv l st end.
Proof.
  intros HS [Hi Hl]. unfold outer_boundary. destruct (t_stat_err env); [done|].
  unfold calc_sleep_duration.
  assert (forall t, total_suc_cnt t = total_suc_cnt (ctrl (ps st)) ->
    Inv (set_ctrl (ps st) (rec_task_unit_reset t))) as Hr by (intros t Ht; by apply (si_ctrl _ _ _ _ HS)).
  destruct (is_unit_end _).
  - unfold unit_speed_limit_left. destruct (limit_speed_time _ _) as [d li].
    destruct (negb _); [|destruct (need_wait _ _)]; (split; [by apply Hr|done]).
  - cbn [negb Z.eqb]. destruct (need_wait _ _); (split; [by apply Hr|done]).
Qed.

Lemma observe_round_state env r st st' :
  observe_round env r st = Some st' -> ps st' = ps st /\ lease st' = lease st.
Proof.
  unfold observe_round.
  destruct (auto_rate_controller (worker st)) as [c|], (source_rate_limiter (worker st)) as [l|];
    intros E1; simplify_eq; try done.
  destruct (t_lock_ok env); [|by simplify_eq].
  destruct (t_auto_now env) as [[n0 n1] n2].
  destruct (observe _ _ _ _ _ _ _ _) as [[[d c'] l']|]; cbn in E1; [|done]. by simplify_eq.
Qed.

Lemma loop_turn_inv src l Inv max_line env st :
  step_invariant lim src l Inv -> loop_ok Inv l st ->
  loop_ok Inv l (result_state (loop_turn src max_line env st)).
Proof.
  intros HS [Hi Hl]. unfold loop_turn.
  set (st1 := set_ps st _).
  assert (loop_ok Inv l st1) as [Hi1 Hl1] by (split; [by apply (si_router _ _ _ _ HS)|done]).
  destruct (terminal_by_round (total_round st1) PICKER_DEFAULT_ROUND_BATCH) as [over total].
  assert (forall st, loop_ok Inv l st -> loop_ok Inv l (result_state
    match outer_boundary env st with inl st => Looping st | inr st => ReportFailed st end)) as Hbound.
  { intros st2 H2. pose proof (outer_boundary_inv src l Inv env st2 HS H2).
    by destruct (outer_boundary env st2). }
  destruct over; [by apply Hbound|].
  destruct (poll_cmd_now _ _ _ _) as [stop t] eqn:Ep.
  assert (total_suc_cnt t = total_suc_cnt (ctrl (ps st1))) as Ht.
  { unfold poll_cmd_now, is_down in Ep. simplify_eq. by destruct (t_cmd env). }
  set (st2 := set_ps (set_total st1 total) (set_ctrl _ t)).
  assert (loop_ok Inv l st2) as [Hi2 Hl2].
  { split; [apply (si_ctrl _ _ _ _ HS); [exact Hi1|exact Ht]|done]. }
  destruct (stop || _); [done|].
  pose proof (round_pick_inv lim src Inv (t_fetch env) l (ps st2) HS Hi2) as Hr.
  rewrite Hl2. destruct (round_pick _ _ _ _ _) as [[one|e] s']; cbn [snd] in Hr; [|done].
  destruct (observe_round env one (set_ps st2 s')) as [st3|] eqn:Eo; [|done].
  apply observe_round_state in Eo as [Ho1 Ho2].
  assert (forall r, loop_ok Inv l (set_total st3 r)) as H3.
  { intros r. split; [by cbn; rewrite Ho1|by cbn; rewrite Ho2]. }
  destruct (is_stop _); [apply H3|]. destruct (is_unit_end _); [apply Hbound, H3|apply H3].
Qed.

Lemma run_inv src l Inv max_line envs st :
  step_invariant lim src l Inv -> loop_ok Inv l st ->
  loop_ok Inv l (result_state (run_dispatch_loop src max_line envs st)).
Proof.
  intros HS. revert st. induction envs as [|env envs IH]; intros st H2; [done|].
  cbn [run_dispatch_loop]. pose proof (loop_turn_inv src l Inv max_line env st HS H2) as Ht.
  destruct (loop_turn _ _ _ _) as [st'|st'|e st'|st'|st']; [by apply IH|done..].
Qed.

(** Every state a worker reaches satisfies the picker's invariant. *)
Lemma run_picker_inv src w router name now max_line envs :
  let st0 := loop_start w router name now in
  let st := result_state (run_dispatch_loop src max_line envs st0) in
  picker_inv lim src (lease st0) (picker_burst_max lim) 0 (ps st).
Proof.
  cbn zeta. destruct limits_used as (H1' & H2' & H3').
  apply (run_inv src (lease (loop_start w router name now))
    (picker_inv lim src (lease (loop_start w router name now)) (picker_burst_max lim) 0)).
  - by apply picker_inv_step.
  - split; [|done]. split; cbn; try done.
    + intros _. left. pose proof (PullPolicy_new_bounds (picker_burst_max lim) H3').
      change (0 <= hi (PullPolicy_new (picker_burst_max lim))). lia.
    + intros m _ _ Hm. lia.
    + by destruct (has_lease _).
Qed.

(** C1: whatever the sources answer, the parsers accept, the commands say
    and other tasks do to the router, in every state of a source worker's
    run (also after an error, an exit or a panic of the rate controller) the
    events posted to the parsers followed by the events still queued are exactly the
    events received from the source, in order: none is lost, duplicated or
    reordered, through coalescing, splitting and requeueing. *)
Theorem worker_conserves_events (src : string) (w : SourceWorker) (router : ParseDispatchRouter C)
  (name : string) (now : Z) (max_line : option Z) (envs : list TurnEnv) :
  let s := ps (result_state (run_dispatch_loop src max_line envs (loop_start w router name now))) in
  concat (sent s) ++ concat (pending (pk s)) = concat (received s).
Proof. exact (pi_balanced _ _ _ _ _ _ (run_picker_inv src w router name now max_line envs)). Qed.

(** C11: the backlog of a worker is bounded in every state of its run: without
    a fixed rate by three times the burst plus one batch (the one that
    splitting an oversized front batch adds), and in bytes, with every
    received batch of at most [m] bytes, by less than the byte cap plus [m];
    the byte counter is the exact size of the queued events. *)
Theorem worker_backlog_bounded (src : string) (w : SourceWorker) (router : ParseDispatchRouter C)
  (name : string) (now : Z) (max_line : option Z) (envs : list TurnEnv) (m : Z) :
  let st0 := loop_start w router name now in
  let s := ps (result_state (run_dispatch_loop src max_line envs st0)) in
  (source_rate_limiter w = None \/
   (exists l, source_rate_limiter w = Some l /\ is_auto l = true) ->
     3 * picker_burst_max lim <= USIZE_MAX -> 1 <= picker_burst_max lim ->
     Picker.pending_count (pk s) <= 3 * picker_burst_max lim + 1) /\
  (total_bytes s <= USIZE_MAX ->
     Picker.pending_bytes (pk s) = ev_bytes (concat (pending (pk s)))) /\
  (total_bytes s <= USIZE_MAX -> Forall (fun b => ev_bytes b <= m) (received s) -> 0 <= m ->
     Picker.pending_bytes (pk s) < picker_pending_max_bytes lim + m).
Proof.
  cbn zeta. pose proof (run_picker_inv src w router name now max_line envs) as HI. cbn zeta in HI.
  destruct HI as [Hpl _ Hby Hc Hcap _ _ _].
  split; [|split; [exact Hby|intros Ht Hm H0'; specialize (Hcap m Ht Hm H0'); lia]].
  intros Hmode Hfit Hb.
  assert (hi (PullPolicy_new (picker_burst_max lim)) = 3 * picker_burst_max lim) as Hhi.
  { unfold PullPolicy_new, sat_mul, PICKER_PULL_LO_MULTIPLIER, PICKER_PULL_HI_MULTIPLIER. cbn [hi]. lia. }
  unfold count_bound in Hc. rewrite Hpl, Hhi in Hc.
  destruct Hc as [|[? _]]; [|lia..].
  destruct Hmode as [Hn|(l & Hl & Ha)]; unfold loop_start; cbn [lease]; [by rewrite Hn|].
  rewrite Hl. cbn. unfold is_fixed, is_auto in *. cbn. by destruct (mode l).
Qed.

(** In every state of a run the task controller has counted exactly
    the events posted (modulo the counter's width), one record was made per
    posted batch with its key, its counts per source and its number of events,
    in the order of posting, and the rate lease, when there is one, was charged exactly the
    events of each received batch. *)
Theorem worker_accounting (src : string) (w : SourceWorker) (router : ParseDispatchRouter C)
  (name : string) (now : Z) (max_line : option Z) (envs : list TurnEnv) :
  let s := ps (result_state (run_dispatch_loop src max_line envs (loop_start w router name now))) in
  total_count (ctrl s) = zlen (concat (sent s)) mod 2 ^ 64 /\
  stats s = map (fun b => mkRecord src (source_ip_counts src b) (zlen b)) (sent s) /\
  charged s = match source_rate_limiter w with Some _ => map zlen (received s) | None => [] end.
Proof.
  cbn zeta. pose proof (run_picker_inv src w router name now max_line envs) as HI. cbn zeta in HI.
  destruct HI as [_ _ _ _ _ Ht Hs Hch]. split; [exact Ht|]. split; [exact Hs|].
  rewrite Hch. unfold loop_start, has_lease. cbn [lease]. by destruct (source_rate_limiter w).
Qed.

(** A turn that starts after an immediate stop command has arrived, or
    with the line or event limit reached, exits the loop before touching the
    source, the queue or the parsers; a stop that finds the burst used up takes effect
    one turn later. *)
Theorem worker_stops (src : string) (max_line : option Z) (env : TurnEnv) (st : LoopState)
  (Hburst : round_idx (total_round st) < PICKER_DEFAULT_ROUND_BATCH)
  (Hwhy : t_cmd env = Some (Stop Immediate) \/
          reached_limits (worker st) (ctrl (ps st)) max_line = true) :
  exists st', loop_turn src max_line env st = Exited st' /\
    received (ps st') = received (ps st) /\ sent (ps st') = sent (ps st) /\
    pending (pk (ps st')) = pending (pk (ps st)) /\
    total_count (ctrl (ps st')) = total_count (ctrl (ps st)).
Proof.
  unfold loop_turn, terminal_by_round. cbn [total_round set_ps set_total].
  destruct (Z.leb_spec PICKER_DEFAULT_ROUND_BATCH (round_idx (total_round st))) as [|_]; [lia|].
  unfold poll_cmd_now, is_down. cbn [ps set_ps set_total ctrl set_pk worker].
  set (t := match t_cmd env with Some c => _ | None => _ end).
  assert (Actor.is_stop t (t_now env).1 (t_now env).2 || reached_limits (worker st) t max_line = true
          /\ total_count t = total_count (ctrl (ps st))) as [-> Ht].
  { unfold t. destruct Hwhy as [->|Hr]; [done|]. destruct (t_cmd env) as [c|].
    - split; [|done]. apply orb_true_iff. right. exact Hr.
    - split; [|done]. by rewrite Hr, orb_true_r. }
  eexists. split; [reflexivity|]. by cbn.
Qed.

End Worker.

(** ** A concrete run *)

Lemma demo_lim_ok : limits_ok demo_lim.
Proof. split; [repeat constructor|..]; vm_compute; repeat split; congruence. Qed.

Definition demo_worker : SourceWorker := SourceWorker_new 0 None 10 None None.

Definition demo_router (cap : option nat) : ParseDispatchRouter (BoundedChannel (list DemoEvent)) :=
  Router.new [open_chan (list DemoEvent) cap].

(** A turn in which the source hands over some batches. *)
Definition demo_turn (bs : list (list DemoEvent))
    : TurnEnv (E := DemoEvent) (C := BoundedChannel (list DemoEvent)) :=
  mkTurn id None (0, 0) (mkFetchEnv true (map Some bs) [] Normal) true (0, 0, 0) None false 0.

Definition demo_turns : list TurnEnv :=
  [demo_turn [[demo_event "a"; demo_event "b"]; [demo_event "c"]]; demo_turn [[demo_event "d"]]; demo_turn []].

Example demo_run_backpressure :
  let s := ps (result_state (run_dispatch_loop demo_lim (mkLimitEnv false None None) "file_1" None
             demo_turns (loop_start demo_lim demo_worker (demo_router (Some 1%nat)) "p" 0))) in
  (length (sent s), length (pending (pk s)), length (received s)) = (1, 2, 3)%nat.
Proof. vm_compute. reflexivity. Qed.

Lemma worker_conserves_events_witness :
  let s := ps (result_state (run_dispatch_loop demo_lim (mkLimitEnv false None None) "file_1" None
             demo_turns (loop_start demo_lim demo_worker (demo_router (Some 1%nat)) "p" 0))) in
  concat (sent s) ++ concat (pending (pk s)) = concat (received s).
Proof. apply worker_conserves_events; [apply _|exact demo_lim_ok]. Defined.

Lemma worker_backlog_bounded_witness :
  let st0 := loop_start demo_lim demo_worker (demo_router (Some 1%nat)) "p" 0 in
  let s := ps (result_state (run_dispatch_loop demo_lim (mkLimitEnv false None None) "file_1" None
                               demo_turns st0)) in
  (source_rate_limiter demo_worker = None \/
   (exists l, source_rate_limiter demo_worker = Some l /\ is_auto l = true) ->
     3 * picker_burst_max demo_lim <= USIZE_MAX -> 1 <= picker_burst_max demo_lim ->
     Picker.pending_count (pk s) <= 3 * picker_burst_max demo_lim + 1) /\
  (total_bytes s <= USIZE_MAX ->
     Picker.pending_bytes (pk s) = ev_bytes (concat (pending (pk s)))) /\
  (total_bytes s <= USIZE_MAX -> Forall (fun b => ev_bytes b <= 100) (received s) -> 0 <= 100 ->
     Picker.pending_bytes (pk s) < picker_pending_max_bytes demo_lim + 100).
Proof.
  apply (worker_backlog_bounded demo_lim (mkLimitEnv false None None) demo_lim_ok "file_1" demo_worker
           (demo_router (Some 1%nat)) "p" 0 None demo_turns 100).
Defined.

Lemma worker_accounting_witness :
  let s := ps (result_state (run_dispatch_loop demo_lim (mkLimitEnv false None None) "file_1" None
             demo_turns (loop_start demo_lim demo_worker (demo_router (Some 1%nat)) "p" 0))) in
  total_count (ctrl s) = zlen (concat (sent s)) mod 2 ^ 64 /\
  stats s = map (fun b => mkRecord "file_1" (source_ip_counts "file_1" b) (zlen b)) (sent s) /\
  charged s = match source_rate_limiter demo_worker with Some _ => map zlen (received s) | None => [] end.
Proof. apply worker_accounting; [apply _|exact demo_lim_ok]. Defined.

Lemma worker_stops_witness :
  let st := loop_start demo_lim demo_worker (demo_router None) "p" 0 in
  let env := mkTurn id (Some (Stop Immediate)) (0, 0)
               (mkFetchEnv true [Some [demo_event "a"]] [] Normal) true (0, 0, 0) None false 0 in
  exists st', loop_turn demo_lim (mkLimitEnv false None None) "file_1" None env st = Exited st' /\
    received (ps st') = received (ps st) /\ sent (ps st') = sent (ps st) /\
    pending (pk (ps st')) = pending (pk (ps st)) /\
    total_count (ctrl (ps st')) = total_count (ctrl (ps st)).
Proof. cbn zeta. apply worker_stops; [vm_compute; reflexivity|by left]. Defined.
