(* ===== verification/ReloadDrain.v ===== *)
(** Draining the workers of a reload ([src/runtime/reload_drain.rs]): every
    worker holds a reporter that announces its end once, the tracker counts the
    announcements of its epoch.

    The unbounded channel between them is the list of the events sent. *)
From Stdlib Require Import ZArith Lia String.
From stdpp Require Import prelude strings.
From S2P Require Import Prelude ExitPolicy.
Local Open Scope Z_scope.

Inductive ReloadDrainOutcome := Drained | Aborted.

#[export] Instance ReloadDrainOutcome_eq_dec : EqDecision ReloadDrainOutcome.
Proof. solve_decision. Defined.

Record ReloadDrainEvent := mkEvent {
  ev_epoch : Z;
  ev_role : TaskRole;
  worker_name : string;
  outcome : ReloadDrainOutcome;
}.

(** ** Reporter and bus *)

(** [tx] is the channel; a send to a closed one is ignored. *)
Record ReloadDrainReporter := mkReporter { pending : option ReloadDrainEvent }.

Record ReloadDrainBus := mkBus { bus_epoch : Z }.

Definition bus_new (epoch : Z) : ReloadDrainBus := mkBus epoch.

Definition reporter (b : ReloadDrainBus) (r : TaskRole) (name : string) : ReloadDrainReporter :=
  mkReporter (Some (mkEvent (bus_epoch b) r name Aborted)).

(** The events put on the channel, and the reporter left. *)
Definition send_pending (r : ReloadDrainReporter) (o : ReloadDrainOutcome)
    : list ReloadDrainEvent * ReloadDrainReporter :=
  match pending r with
  | Some e => ([mkEvent (ev_epoch e) (ev_role e) (worker_name e) o], mkReporter None)
  | None => ([], r)
  end.

Definition notify (r : ReloadDrainReporter) : list ReloadDrainEvent * ReloadDrainReporter :=
  send_pending r Drained.

Definition drop (r : ReloadDrainReporter) : list ReloadDrainEvent :=
  (send_pending r Aborted).1.

(** ** Tracker *)

Record ReloadDrainTracker := mkTracker {
  epoch : Z;
  parser_pending : Z;
  sink_pending : Z;
  infra_pending : Z;
}.

Definition next_epoch (t : ReloadDrainTracker) : Z := wrap_add 64 (epoch t) 1.

Definition is_fully_quiesced (t : ReloadDrainTracker) : bool :=
  (parser_pending t =? 0) && (sink_pending t =? 0) && (infra_pending t =? 0).

(** The counter an event's role selects; the other roles are ignored. *)
Definition role_pending (t : ReloadDrainTracker) (r : TaskRole) : option Z :=
  match r with
  | Parser => Some (parser_pending t)
  | Sink => Some (sink_pending t)
  | Infra => Some (infra_pending t)
  | _ => None
  end.

Definition set_role_pending (t : ReloadDrainTracker) (r : TaskRole) (n : Z) : ReloadDrainTracker :=
  match r with
  | Parser => mkTracker (epoch t) n (sink_pending t) (infra_pending t)
  | Sink => mkTracker (epoch t) (parser_pending t) n (infra_pending t)
  | Infra => mkTracker (epoch t) (parser_pending t) (sink_pending t) n
  | _ => t
  end.

(** [None] is the error of an aborted worker. *)
Definition observe (t : ReloadDrainTracker) (e : ReloadDrainEvent) : option ReloadDrainTracker :=
  if negb (ev_epoch e =? epoch t) then Some t
  else
    match role_pending t (ev_role e) with
    | None => Some t
    | Some pending =>
        if pending =? 0 then Some t
        else if bool_decide (outcome e = Aborted) then None
        else Some (set_role_pending t (ev_role e) (pending - 1))
    end.

Fixpoint observe_all (t : ReloadDrainTracker) (evs : list ReloadDrainEvent) : option ReloadDrainTracker :=
  match evs with
  | [] => Some t
  | e :: evs => t ← observe t e; observe_all t evs
  end.

(** ** A reload *)

(** What a worker does with its reporter before it is dropped: how often it
    notifies. *)
Record Worker := mkWorker { w_role : TaskRole; w_name : string; w_notified : nat }.

Fixpoint notify_times (n : nat) (r : ReloadDrainReporter) : list ReloadDrainEvent * ReloadDrainReporter :=
  match n with
  | O => ([], r)
  | S n => let '(evs, r) := notify r in let '(evs', r) := notify_times n r in (evs ++ evs', r)
  end.

Definition worker_events (b : ReloadDrainBus) (w : Worker) : list ReloadDrainEvent :=
  let '(evs, r) := notify_times (w_notified w) (reporter b (w_role w) (w_name w)) in evs ++ drop r.

(** A worker's events are one event. *)
Lemma worker_events_one b w :
  worker_events b w =
    [mkEvent (bus_epoch b) (w_role w) (w_name w) (match w_notified w with O => Aborted | _ => Drained end)].
Proof.
  assert (forall n, notify_times n (mkReporter None) = ([], mkReporter None)) as Hnone
    by (induction n as [|n IH]; cbn; [done|by rewrite IH]).
  unfold worker_events. destruct w as [r nm [|n]]; cbn; [done|]. by rewrite Hnone.
Qed.

(** Whatever a worker does with its reporter, exactly one event reaches the
    channel: drained when it notified at least once before the drop, aborted when
    it was dropped without. *)
Theorem worker_reports_once (b : ReloadDrainBus) (w : Worker) :
  worker_events b w =
    [mkEvent (bus_epoch b) (w_role w) (w_name w) (match w_notified w with O => Aborted | _ => Drained end)].
Proof. exact (worker_events_one b w). Qed.

(** The roles a reload drains, and how many workers have one of them. *)
Definition tracked (r : TaskRole) : bool :=
  match r with Parser | Sink | Infra => true | _ => false end.

Definition role_count (r : TaskRole) (ws : list Worker) : Z :=
  countb (fun w => bool_decide (w_role w = r)) ws.

Definition tracker_for (e : Z) (ws : list Worker) : ReloadDrainTracker :=
  mkTracker e (role_count Parser ws) (role_count Sink ws) (role_count Infra ws).

Lemma role_pending_for e ws r :
  role_pending (tracker_for e ws) r = if tracked r then Some (role_count r ws) else None.
Proof. by destruct r. Qed.

Lemma role_count_cons r w ws :
  role_count r (w :: ws) = if bool_decide (w_role w = r) then 1 + role_count r ws else role_count r ws.
Proof. done. Qed.

(** Observing the event of the first worker leaves the tracker of the others. *)
Lemma observe_worker e w ws :
  observe (tracker_for e (w :: ws))
    (mkEvent e (w_role w) (w_name w) (match w_notified w with O => Aborted | _ => Drained end)) =
  if tracked (w_role w) && (w_notified w =? 0)%nat then None else Some (tracker_for e ws).
Proof.
  unfold observe. cbn [ev_epoch ev_role outcome epoch tracker_for]. rewrite Z.eqb_refl. cbn [negb].
  change (mkTracker e _ _ _) with (tracker_for e (w :: ws)). rewrite role_pending_for.
  destruct w as [r nm n]. cbn [w_role w_notified w_name].
  assert (0 <= role_count r ws) by apply countb_nonneg.
  destruct (tracked r) eqn:Et; cbn [andb].
  - rewrite role_count_cons. cbn [w_role]. rewrite bool_decide_eq_true_2 by done.
    destruct (Z.eqb_spec (1 + role_count r ws) 0); [lia|].
    destruct n as [|n]; [done|]. cbn [Nat.eqb]. rewrite bool_decide_eq_false_2 by done.
    replace (1 + role_count r ws - 1) with (role_count r ws) by lia.
    unfold tracker_for. by destruct r.
  - unfold tracker_for. by destruct r.
Qed.

(** A tracker started with the number of parser, sink and infrastructure
    workers, whatever order they end in, is fully quiesced after their events
    when each of them notified, and the reload fails when one of them was
    dropped without; workers of other roles do not matter. *)
Theorem drain_outcome (e : Z) (ws : list Worker) :
  let evs := concat (map (worker_events (bus_new e)) ws) in
  (Forall (fun w => tracked (w_role w) = true -> w_notified w <> O) ws ->
     exists t, observe_all (tracker_for e ws) evs = Some t /\ is_fully_quiesced t = true) /\
  (Exists (fun w => tracked (w_role w) = true /\ w_notified w = O) ws ->
     observe_all (tracker_for e ws) evs = None).
Proof.
  cbn zeta. induction ws as [|w ws [IH1 IH2]].
  { split; [intros _; by eexists|by inversion 1]. }
  cbn [map concat]. rewrite worker_events_one. cbn [app observe_all bus_epoch bus_new].
  rewrite observe_worker. split.
  - intros Hall. apply Forall_cons in Hall as [Hw Hall].
    destruct (tracked (w_role w)) eqn:Et; cbn [andb mbind option_bind]; [|by apply IH1].
    specialize (Hw eq_refl). destruct (w_notified w); [done|]. by apply IH1.
  - intros Hex. apply Exists_cons in Hex as [[-> ->]|Hex]; [done|].
    destruct (_ && _); [done|]. by apply IH2.
Qed.

(** Events of another epoch, and of roles a reload does not drain, never
    change the tracker nor fail the reload. *)
Theorem stale_events_ignored (t : ReloadDrainTracker) (evs : list ReloadDrainEvent)
  (Hstale : Forall (fun ev => ev_epoch ev <> epoch t \/ tracked (ev_role ev) = false) evs) :
  observe_all t evs = Some t.
Proof.
  induction Hstale as [|ev evs Hev _ IH]; [done|]. cbn.
  assert (observe t ev = Some t) as ->; [|exact IH].
  unfold observe. destruct (Z.eqb_spec (ev_epoch ev) (epoch t)); [|done]. cbn.
  destruct Hev as [|Hr]; [done|]. by destruct (ev_role ev).
Qed.

Lemma stale_events_ignored_witness :
  observe_all (mkTracker 3 1 1 0)
    [mkEvent 2 Parser "p" Aborted; mkEvent 3 Monitor "m" Aborted] = Some (mkTracker 3 1 1 0).
Proof.
  apply stale_events_ignored. constructor; [left; discriminate|].
  constructor; [by right|constructor].
Defined.
