(* ===== verification/SinkHealth.v ===== *)
(** The health gate of a sink and the bookkeeping of an outage ([SinkHealth],
    [OutageTracker], [src/sinks/runtime/manager.rs]).

    Instants and durations are nanoseconds; a clock read is an argument. *)
From Stdlib Require Import ZArith Lia.
From stdpp Require Import prelude.
From S2P Require Import Prelude.
Local Open Scope Z_scope.

Definition seconds (n : Z) : Z := n * 1000000000.
Definition DROP_WARN_INTERVAL : Z := seconds 60.
Definition RESCUE_LOG_INTERVAL : Z := seconds 60.
Definition HEALTH_BACKOFF_BASE : Z := seconds 5.
Definition HEALTH_BACKOFF_MAX : Z := seconds 60.

(** ** SinkHealth *)

Record SinkHealth := mkHealth {
  failures : Z;
  retry_at : option Z;
  backoff : Z;
}.

Definition SinkHealth_new : SinkHealth := mkHealth 0 None HEALTH_BACKOFF_BASE.

Definition is_open (h : SinkHealth) (now : Z) : bool :=
  match retry_at h with Some at_ => now <? at_ | None => false end.

Definition on_failure (h : SinkHealth) (now : Z) : SinkHealth :=
  let f := sat_add U32_MAX (failures h) 1 in
  let b := if 1 <? f then Z.min (backoff h * 2) HEALTH_BACKOFF_MAX else backoff h in
  mkHealth f (Some (now + b)) b.

Definition on_success (h : SinkHealth) : SinkHealth := SinkHealth_new.

(** ** OutageTracker *)

Record OutageTracker := mkOutage {
  outage : bool;
  outage_started_at : option Z;
  dropped_in_outage : Z;
  dropped_since_warn : Z;
  last_warn_at : option Z;
  breaker_warned : bool;
}.

Definition OutageTracker_default : OutageTracker := mkOutage false None 0 0 None false.

(** Returns the drops to warn about, when it is time to. *)
Definition record_drop (t : OutageTracker) (count now : Z) : option Z * OutageTracker :=
  let t := if outage t then t else mkOutage true (Some now) 0 0 None false in
  let in_outage := sat_add U64_MAX (dropped_in_outage t) count in
  let since_warn := sat_add U64_MAX (dropped_since_warn t) count in
  let should_warn := match last_warn_at t with
                     | None => true
                     | Some at_ => DROP_WARN_INTERVAL <=? Z.max 0 (now - at_)
                     end in
  if should_warn then
    (Some since_warn, mkOutage (outage t) (outage_started_at t) in_outage 0 (Some now) (breaker_warned t))
  else
    (None, mkOutage (outage t) (outage_started_at t) in_outage since_warn (last_warn_at t) (breaker_warned t)).

Definition should_warn_breaker_open (t : OutageTracker) : bool * OutageTracker :=
  if negb (outage t) || breaker_warned t then (false, t)
  else (true, mkOutage (outage t) (outage_started_at t) (dropped_in_outage t) (dropped_since_warn t)
                (last_warn_at t) true).

(** Returns the drops and the start of the outage that just ended. *)
Definition record_success (t : OutageTracker) : option (Z * Z) * OutageTracker :=
  if negb (outage t) then (None, t)
  else
    let dropped := dropped_in_outage t in
    (start ← outage_started_at t; Some (dropped, start),
     mkOutage false None 0 0 None (breaker_warned t)).

(** ** The cool-down schedule *)

(** The health after failures at the given instants, the last one first. *)
Fixpoint fail_at (nows : list Z) : SinkHealth :=
  match nows with
  | [] => SinkHealth_new
  | now :: nows => on_failure (fail_at nows) now
  end.

(** Five seconds after the first failure, doubling to a minute. *)
Definition cooldown (n : nat) : Z :=
  match n with O => HEALTH_BACKOFF_BASE | S n => Z.min (HEALTH_BACKOFF_BASE * 2 ^ Z.of_nat n) HEALTH_BACKOFF_MAX end.

Lemma fail_at_state nows :
  zlen nows < U32_MAX ->
  failures (fail_at nows) = zlen nows /\ backoff (fail_at nows) = cooldown (length nows).
Proof.
  induction nows as [|now nows IH]; [done|]. rewrite zlen_cons. intros Hl. pose proof (zlen_nonneg nows).
  destruct IH as [IH1 IH2]; [lia|]. cbn [fail_at length]. unfold on_failure. cbn [failures backoff].
  rewrite IH1, IH2. split; [unfold sat_add; lia|].
  rewrite sat_add_exact by lia.
  destruct (Z.ltb_spec 1 (zlen nows + 1)) as [H1|H1].
  - destruct nows as [|n0 nows]; [rewrite zlen_nil in H1; lia|].
    cbn [length cooldown]. rewrite Nat2Z.inj_succ, Z.pow_succ_r by lia.
    unfold HEALTH_BACKOFF_BASE, HEALTH_BACKOFF_MAX, seconds. lia.
  - destruct nows as [|n0 nows]; [done|]. rewrite zlen_cons in H1. pose proof (zlen_nonneg nows). lia.
Qed.

(** After [n] consecutive failures the gate is open for exactly
    5, 10, 20, 40 and from then on 60 seconds after the last of them, it lets
    the next batch through as soon as the cool-down is over, and one success
    closes it and starts the schedule over. *)
Theorem breaker_schedule (now : Z) (nows : list Z) (t : Z)
  (Hlen : zlen nows < U32_MAX - 1) :
  let h := fail_at (now :: nows) in
  (is_open h t = true <-> t < now + cooldown (S (length nows))) /\
  is_open (on_success h) t = false /\
  is_open (on_failure (on_success h) now) (now + HEALTH_BACKOFF_BASE - 1) = true /\
  is_open (on_failure (on_success h) now) (now + HEALTH_BACKOFF_BASE) = false.
Proof.
  cbn zeta. destruct (fail_at_state (now :: nows)) as [_ Hb]; [rewrite zlen_cons; lia|].
  split_and!.
  - cbn [fail_at] in *. unfold is_open, on_failure in *. cbn [retry_at backoff] in *. rewrite Hb.
    apply Z.ltb_lt.
  - done.
  - unfold is_open. cbn. apply Z.ltb_lt.
    replace (1 <? sat_add U32_MAX 0 1) with false by reflexivity. lia.
  - unfold is_open. cbn. apply Z.ltb_ge.
    replace (1 <? sat_add U32_MAX 0 1) with false by reflexivity. lia.
Qed.

Lemma breaker_schedule_witness :
  let h := fail_at [seconds 100; seconds 10] in
  (is_open h (seconds 109) = true <-> seconds 109 < seconds 100 + cooldown 2) /\
  is_open (on_success h) (seconds 109) = false /\
  is_open (on_failure (on_success h) (seconds 100)) (seconds 100 + HEALTH_BACKOFF_BASE - 1) = true /\
  is_open (on_failure (on_success h) (seconds 100)) (seconds 100 + HEALTH_BACKOFF_BASE) = false.
Proof. apply (breaker_schedule (seconds 100) [seconds 10] (seconds 109)). vm_compute. reflexivity. Defined.

(** An outage as the drops recorded since its start: their total is what
    [record_success] reports, however the warnings were spaced. *)
Fixpoint drops (t : OutageTracker) (ds : list (Z * Z)) : list Z * OutageTracker :=
  match ds with
  | [] => ([], t)
  | (count, now) :: ds =>
      let '(w, t) := record_drop t count now in
      let '(ws, t) := drops t ds in
      (match w with Some n => [n] | None => [] end ++ ws, t)
  end.

Definition sum_drops (ds : list (Z * Z)) : Z := foldr (fun d a => d.1 + a) 0 ds.
Definition sum_list (l : list Z) : Z := foldr Z.add 0 l.

Lemma drops_state t ds :
  outage t = true -> Forall (fun d => 0 <= d.1) ds ->
  0 <= dropped_in_outage t -> 0 <= dropped_since_warn t ->
  dropped_in_outage t + sum_drops ds <= U64_MAX -> dropped_since_warn t + sum_drops ds <= U64_MAX ->
  let '(ws, t') := drops t ds in
  outage t' = true /\ outage_started_at t' = outage_started_at t /\
  dropped_in_outage t' = dropped_in_outage t + sum_drops ds /\
  sum_list ws + dropped_since_warn t' = dropped_since_warn t + sum_drops ds.
Proof.
  revert t. induction ds as [|[count now] ds IH]; intros t Ho Hall H1 H2 H3 H4.
  { cbn in *. split_and!; try done; lia. }
  apply Forall_cons in Hall as [Hc Hall]. cbn in Hc.
  change (sum_drops ((count, now) :: ds)) with (count + sum_drops ds) in *.
  assert (0 <= sum_drops ds) as Hs.
  { clear -Hall. induction Hall; cbn in *; [lia|]. unfold sum_drops in *. lia. }
  cbn [drops]. unfold record_drop. rewrite Ho.
  rewrite !sat_add_exact by lia.
  destruct (match last_warn_at t with None => true | Some _ => _ end).
  - match goal with |- context [drops ?t1 ds] => specialize (IH t1) end.
    cbn [outage outage_started_at dropped_in_outage dropped_since_warn] in IH.
    destruct (drops _ ds) as [ws t']. destruct IH as (? & ? & ? & ?); try done; try lia.
    split_and!; try done; try lia. cbn. unfold sum_list in *. lia.
  - match goal with |- context [drops ?t1 ds] => specialize (IH t1) end.
    cbn [outage outage_started_at dropped_in_outage dropped_since_warn] in IH.
    destruct (drops _ ds) as [ws t']. destruct IH as (? & ? & ? & ?); try done; try lia.
    split_and!; try done; try lia. cbn. unfold sum_list in *. lia.
Qed.

(** The summary of an outage reports exactly the records dropped since its
    first drop and the instant of that drop; the warnings of the outage never report a
    drop twice, and what they have not reported yet is what the tracker still
    holds. *)
Theorem outage_summary (t : OutageTracker) (count now : Z) (ds : list (Z * Z))
  (Hout : outage t = false)
  (Hpos : Forall (fun d => 0 <= d.1) ((count, now) :: ds))
  (Hfit : count + sum_drops ds <= U64_MAX) :
  let '(ws, t') := drops t ((count, now) :: ds) in
  (record_success t').1 = Some (count + sum_drops ds, now) /\
  sum_list ws + dropped_since_warn t' = count + sum_drops ds /\
  outage (record_success t').2 = false.
Proof.
  apply Forall_cons in Hpos as [Hc Hall]. cbn in Hc.
  assert (0 <= sum_drops ds) as Hs.
  { clear -Hall. induction Hall; cbn in *; [lia|]. unfold sum_drops in *. lia. }
  cbn [drops]. unfold record_drop. rewrite Hout. cbn [dropped_in_outage dropped_since_warn last_warn_at outage outage_started_at breaker_warned].
  rewrite !sat_add_exact by lia.
  match goal with |- context [drops ?t1 ds] => pose proof (drops_state t1 ds) as Hd end.
  cbn [outage outage_started_at dropped_in_outage dropped_since_warn] in Hd.
  destruct (drops _ ds) as [ws t']. destruct Hd as (H1 & H2 & H3 & H4); try done; try lia.
  unfold record_success. rewrite H1, H2, H3. cbn. split_and!; try done.
  unfold sum_list in *. cbn. lia.
Qed.

Lemma outage_summary_witness :
  let '(ws, t') := drops OutageTracker_default [(3, 10); (4, 20); (5, seconds 70)] in
  (record_success t').1 = Some (3 + sum_drops [(4, 20); (5, seconds 70)], 10) /\
  sum_list ws + dropped_since_warn t' = 3 + sum_drops [(4, 20); (5, seconds 70)] /\
  outage (record_success t').2 = false.
Proof.
  apply (outage_summary OutageTracker_default 3 10 [(4, 20); (5, seconds 70)]);
    [reflexivity | repeat constructor; vm_compute; congruence | vm_compute; congruence].
Defined.
