(* ===== verification/SinkRuntime.v ===== *)
(** The runtime of one sink ([SinkRuntime], [src/sinks/runtime/manager.rs]):
    buffering by batch metadata, sending with the drop gate or with the rescue
    file, recovery and shutdown.

    A backend is code outside the repository ([AsyncSink]): an interface
    without laws.  The rescue file, the queue of bad sinks and the monitor are what the
    environment of a call ([CallEnv]) answers; the clock reads of one attempt
    are one instant.  The statistics collectors are the numbers of units begun
    and ended on them: whether a batch is recorded at once or unit by unit does
    not change these. *)
From Stdlib Require Import ZArith Lia String.
From stdpp Require Import prelude strings.
From S2P Require Import Prelude ErrPolicy Picker SinkHealth.
Local Open Scope string_scope.
Local Open Scope list_scope.
Local Open Scope Z_scope.

Record BatchMeta := mkMeta { oml_name : option string; meta_disabled : list string }.

#[export] Instance BatchMeta_eq_dec : EqDecision BatchMeta.
Proof. solve_decision. Defined.

Definition BatchMeta_default : BatchMeta := mkMeta None [].

Inductive ProcMeta := WplName (n : string) | OmlName (n : string) | NullMeta.

(** [R] is a data record, [F] a field value package, [S] a backend. *)
Class Backend (R S : Type) := {
  sink_record : S -> R -> S * option SinkReason;
  sink_records : S -> BatchMeta -> list R -> S * option SinkReason;
  sink_str : S -> string -> S * option SinkReason;
  sink_str_batch : S -> list string -> S * option SinkReason;
  sink_bytes : S -> list Byte.byte -> S * option SinkReason;
  sink_bytes_batch : S -> list (list Byte.byte) -> S * option SinkReason;
  stop : S -> S * option SinkReason;
}.

Record UnitStat := mkStat { begun : Z; ended : Z }.

Section Sink.
Context {R F S : Type} `{Backend R S}.

(** [TextFmt::Raw.gen_data], a formatter outside the repository. *)
Variable gen_data : F -> RawData + SinkReason.

Inductive SinkDataEnum := Rec (rule : string) (r : R) | FFV (f : F) | Raw (s : string).

Record ASinkHandle := mkHandle { handle_name : string; handle_id : Z; handle_sink : S }.

Record SinkRuntime := mkSink {
  name : string;
  instance_id : Z;
  batch_size : Z;
  drop_when_error : bool;
  output_disabled : list string;
  ready_status : bool;
  primary : S;
  backup_used : bool;
  retired_rescue : option S;
  rescue_file : option Z;
  rescue_records : Z;
  last_rescue_log_at : option Z;
  pending_records : list R;
  pending_meta : BatchMeta;
  normal_stat : UnitStat;
  backup_stat : UnitStat;
  health : SinkHealth;
  outage_t : OutageTracker;
}.

(** What happened to data handed over: acknowledged by a backend (the rescue
    file or not), dropped by the gate or after a failure, or given up on by the
    error strategy. *)
Inductive FateKind := Acked (rescue : bool) | DroppedF | Tolerated.
Inductive Fate :=
  | FRecords (k : FateKind) (m : BatchMeta) (rs : list R)
  | FOne (k : FateKind) (d : SinkDataEnum)
  | FUnits (k : FateKind) (n : Z).

(** The runtime with what it shares: the rescue files opened so far, the queue
    of bad sinks, the process-wide drop counter of the sink, and the fates. *)
Record SinkState := mkState {
  rt : SinkRuntime;
  opened : Z;
  bad_queue : list ASinkHandle;
  dropped_total : Z;
  fates : list Fate;
}.

Record CallEnv := mkEnv {
  mode : RobustnessMode;
  bad_s : option bool;
  mon : option (option SinkReason);
  clock : nat -> Z;
  open_rescue : Z -> S + SinkReason;
}.

Definition set_rt (s : SinkState) (r : SinkRuntime) : SinkState :=
  mkState r (opened s) (bad_queue s) (dropped_total s) (fates s).
Definition add_fate (s : SinkState) (f : Fate) : SinkState :=
  mkState (rt s) (opened s) (bad_queue s) (dropped_total s) (fates s ++ [f]).

Definition set_primary (r : SinkRuntime) (p : S) : SinkRuntime :=
  mkSink (name r) (instance_id r) (batch_size r) (drop_when_error r) (output_disabled r) (ready_status r)
    p (backup_used r) (retired_rescue r) (rescue_file r) (rescue_records r) (last_rescue_log_at r)
    (pending_records r) (pending_meta r) (normal_stat r) (backup_stat r) (health r) (outage_t r).
Definition set_backup (r : SinkRuntime) (b : bool) : SinkRuntime :=
  mkSink (name r) (instance_id r) (batch_size r) (drop_when_error r) (output_disabled r) (ready_status r)
    (primary r) b (retired_rescue r) (rescue_file r) (rescue_records r) (last_rescue_log_at r)
    (pending_records r) (pending_meta r) (normal_stat r) (backup_stat r) (health r) (outage_t r).
Definition set_rescue (r : SinkRuntime) (ret : option S) (file : option Z) (n : Z) (at_ : option Z)
    : SinkRuntime :=
  mkSink (name r) (instance_id r) (batch_size r) (drop_when_error r) (output_disabled r) (ready_status r)
    (primary r) (backup_used r) ret file n at_
    (pending_records r) (pending_meta r) (normal_stat r) (backup_stat r) (health r) (outage_t r).
Definition set_pending (r : SinkRuntime) (rs : list R) (m : BatchMeta) : SinkRuntime :=
  mkSink (name r) (instance_id r) (batch_size r) (drop_when_error r) (output_disabled r) (ready_status r)
    (primary r) (backup_used r) (retired_rescue r) (rescue_file r) (rescue_records r)
    (last_rescue_log_at r) rs m (normal_stat r) (backup_stat r) (health r) (outage_t r).
Definition set_stats (r : SinkRuntime) (n b : UnitStat) : SinkRuntime :=
  mkSink (name r) (instance_id r) (batch_size r) (drop_when_error r) (output_disabled r) (ready_status r)
    (primary r) (backup_used r) (retired_rescue r) (rescue_file r) (rescue_records r)
    (last_rescue_log_at r) (pending_records r) (pending_meta r) n b (health r) (outage_t r).
Definition set_health (r : SinkRuntime) (h : SinkHealth) (o : OutageTracker) : SinkRuntime :=
  mkSink (name r) (instance_id r) (batch_size r) (drop_when_error r) (output_disabled r) (ready_status r)
    (primary r) (backup_used r) (retired_rescue r) (rescue_file r) (rescue_records r)
    (last_rescue_log_at r) (pending_records r) (pending_meta r) (normal_stat r) (backup_stat r) h o.

Definition with_batch_size (nm : string) (id : Z) (drop : bool) (sink : S) (size : Z) : SinkRuntime :=
  mkSink nm id (Z.max size 1) drop [] true sink false None None 0 None [] BatchMeta_default
    (mkStat 0 0) (mkStat 0 0) SinkHealth_new OutageTracker_default.

Definition set_meta_output_disabled (r : SinkRuntime) (fields : list string) : SinkRuntime :=
  mkSink (name r) (instance_id r) (batch_size r) (drop_when_error r) fields (ready_status r)
    (primary r) (backup_used r) (retired_rescue r) (rescue_file r) (rescue_records r)
    (last_rescue_log_at r) (pending_records r) (pending_meta r) (normal_stat r) (backup_stat r)
    (health r) (outage_t r).

(** ** Statistics and bookkeeping *)

Definition stat_beg (r : SinkRuntime) (n : Z) : SinkRuntime :=
  let norm := mkStat (begun (normal_stat r) + n) (ended (normal_stat r)) in
  let back := if backup_used r then mkStat (begun (backup_stat r) + n) (ended (backup_stat r))
              else backup_stat r in
  set_stats r norm back.

Definition stat_end (r : SinkRuntime) (n : Z) : SinkRuntime :=
  if backup_used r
  then set_stats r (normal_stat r) (mkStat (begun (backup_stat r)) (ended (backup_stat r) + n))
  else set_stats r (mkStat (begun (normal_stat r)) (ended (normal_stat r) + n)) (backup_stat r).

Definition should_skip_send (r : SinkRuntime) (now : Z) : bool :=
  drop_when_error r && is_open (health r) now.

(** [sink_error_stats::record_failure] and [record_drop] on this sink's entry. *)
Definition count_drop (s : SinkState) (n : Z) : SinkState :=
  mkState (rt s) (opened s) (bad_queue s) (sat_add U64_MAX (dropped_total s) n) (fates s).

Definition record_failed_drop (s : SinkState) (count now : Z) : SinkState :=
  if count =? 0 then s
  else
    let s := count_drop s count in
    set_rt s (set_health (rt s) (health (rt s)) (SinkHealth.record_drop (outage_t (rt s)) count now).2).

Definition record_skipped_drop (s : SinkState) (count now : Z) : SinkState :=
  if count =? 0 then s
  else
    let s := count_drop s count in
    let o := (SinkHealth.record_drop (outage_t (rt s)) count now).2 in
    set_rt s (set_health (rt s) (health (rt s)) (should_warn_breaker_open o).2).

(** Returns whether the batch was dropped by the gate. *)
Definition drop_batch_if_open (s : SinkState) (count now : Z) : bool * SinkState :=
  if should_skip_send (rt s) now then (true, record_skipped_drop s count now) else (false, s).

(** The retired rescue file is finalised; what its [stop] answers is only
    logged. *)
Definition record_send_success (s : SinkState) : SinkState :=
  let r := set_health (rt s) (on_success (health (rt s))) (outage_t (rt s)) in
  let r := match retired_rescue r with
           | Some _ => set_rescue r None None 0 None
           | None => r
           end in
  set_rt s (set_health r (health r) (SinkHealth.record_success (outage_t r)).2).

Definition log_rescue_state (r : SinkRuntime) (now : Z) : SinkRuntime :=
  let should_log := match last_rescue_log_at r with
                    | None => true
                    | Some at_ => RESCUE_LOG_INTERVAL <=? Z.max 0 (now - at_)
                    end in
  if should_log then set_rescue r (retired_rescue r) (rescue_file r) (rescue_records r) (Some now) else r.

(** After a backend took [n] units: the statistics end, the rescue count, the
    recovery bookkeeping. *)
Definition sent_ok (s : SinkState) (n now : Z) : SinkState :=
  let s := set_rt s (stat_end (rt s) n) in
  let s :=
    if backup_used (rt s) then
      let r := rt s in
      set_rt s (log_rescue_state
        (set_rescue r (retired_rescue r) (rescue_file r) (sat_add U64_MAX (rescue_records r) n)
           (last_rescue_log_at r)) now)
    else s in
  record_send_success s.

(** ** Switching to the rescue file and back *)

(** [swap_backsink]: the old primary, or the error of opening the file. *)
Definition swap_backsink (env : CallEnv) (s : SinkState) : (S + SinkReason) * SinkState :=
  let r := rt s in
  match retired_rescue r with
  | Some rescue =>
      (inl (primary r),
       set_rt s (set_primary (set_rescue r None (rescue_file r) (rescue_records r) (last_rescue_log_at r)) rescue))
  | None =>
      let seq := opened s in
      let s := mkState r (seq + 1) (bad_queue s) (dropped_total s) (fates s) in
      match open_rescue env seq with
      | inr e => (inr e, s)
      | inl back =>
          (inl (primary r), set_rt s (set_primary (set_rescue r None (Some seq) 0 (last_rescue_log_at r)) back))
      end
  end.

(** [bad_ok]: whether the bad-sink queue still takes handles.  A failing
    monitor report leaves before the old primary is queued. *)
Definition use_back_sink (env : CallEnv) (bad_ok : bool) (s : SinkState) : option SinkReason * SinkState :=
  match swap_backsink env s with
  | (inr e, s) => (Some e, s)
  | (inl old_primary, s) =>
      let s := set_rt s (set_backup (rt s) true) in
      match mon env with
      | Some (Some e) => (Some e, s)
      | _ =>
          if bad_ok then
            (None, mkState (rt s) (opened s)
                     (bad_queue s ++ [mkHandle (name (rt s)) (instance_id (rt s)) old_primary])
                     (dropped_total s) (fates s))
          else (None, s)
      end
  end.

Definition accepts_handle (r : SinkRuntime) (h : ASinkHandle) : bool :=
  bool_decide (name r = handle_name h) && (instance_id r =? handle_id h).

Definition is_backup_active (r : SinkRuntime) : bool := backup_used r.

(** [recover_sink]: whether the handle was taken, or the error of stopping an
    earlier rescue sink or of the monitor. *)
Definition recover_sink (s : SinkState) (h : ASinkHandle) (mon_err : option SinkReason)
    : (bool + SinkReason) * SinkState :=
  let r := rt s in
  if negb (is_backup_active r) || negb (accepts_handle r h) then (inl false, s)
  else
    let previous := retired_rescue r in
    let r := set_primary (set_rescue r (Some (primary r)) (rescue_file r) (rescue_records r)
                            (last_rescue_log_at r)) (handle_sink h) in
    let s := set_rt s r in
    match (match previous with Some p => (stop p).2 | None => None end) with
    | Some e => (inr e, s)
    | None =>
        match mon_err with
        | Some e => (inr e, s)
        | None =>
            let r := set_backup r false in
            (inl true, set_rt s (set_health r (on_success (health r)) (outage_t r)))
        end
    end.

Definition stop_backends (s : SinkState) : option SinkReason * SinkState :=
  let r := rt s in
  let '(first_err, r) :=
    match retired_rescue r with
    | Some retired => ((stop retired).2, set_rescue r None None 0 (last_rescue_log_at r))
    | None => (None, r)
    end in
  let '(p, e) := stop (primary r) in
  let first_err := match first_err with Some e => Some e | None => e end in
  (first_err, set_rt s (set_rescue (set_primary r p) (retired_rescue r) None 0 (last_rescue_log_at r))).

(** ** Sending *)

Inductive BatchErrHandle := Retry | Consume | ThrowBatch.

Definition handle_send_error (env : CallEnv) (now : Z) (error : SinkReason) (dropped : Z) (s : SinkState)
    : (BatchErrHandle + SinkReason) * SinkState :=
  if drop_when_error (rt s) then
    let s := set_rt s (set_health (rt s) (on_failure (health (rt s)) now) (outage_t (rt s))) in
    (inl Consume, record_failed_drop s dropped now)
  else
    match err4_send_to_sink error (mode env) with
    | FixRetry =>
        if backup_used (rt s) then (inl ThrowBatch, s)
        else match bad_s env with
             | Some bad_ok =>
                 match use_back_sink env bad_ok s with
                 | (Some e, s) => (inr e, s)
                 | (None, s) => (inl Retry, s)
                 end
             | None => (inl ThrowBatch, s)
             end
    | Throw => (inl ThrowBatch, s)
    | Tolerant | Ignore | Terminate => (inl Consume, s)
    end.

(** Why a batch was consumed without a backend's acknowledgement. *)
Definition consume_kind (r : SinkRuntime) : FateKind := if drop_when_error r then DroppedF else Tolerated.

(** The loop of [send_records_batch]; [None] is running out of fuel, which two
    attempts exclude ([batch_loop_total]). *)
Fixpoint batch_loop (fuel : nat) (env : CallEnv) (i : nat) (records : list R) (meta : BatchMeta)
    (requeue_on_throw : bool) (s : SinkState) : option (option SinkReason * SinkState) :=
  match fuel with
  | O => None
  | Datatypes.S fuel =>
      let n := zlen records in
      let '(p, result) := sink_records (primary (rt s)) meta records in
      let s := set_rt s (set_primary (rt s) p) in
      match result with
      | None => Some (None, add_fate (sent_ok s n (clock env i)) (FRecords (Acked (backup_used (rt s))) meta records))
      | Some e =>
          match handle_send_error env (clock env i) e n s with
          | (inr e, s) => Some (Some e, s)
          | (inl Retry, s) => batch_loop fuel env (Datatypes.S i) records meta requeue_on_throw s
          | (inl Consume, s) =>
              Some (None, add_fate (set_rt s (stat_end (rt s) n)) (FRecords (consume_kind (rt s)) meta records))
          | (inl ThrowBatch, s) =>
              let r := if requeue_on_throw then set_pending (rt s) records meta else rt s in
              Some (Some e, set_rt s (stat_end r n))
          end
      end
  end.

Definition send_records_batch (env : CallEnv) (records : list R) (meta : BatchMeta)
    (requeue_on_throw : bool) (s : SinkState) : option (option SinkReason * SinkState) :=
  match records with
  | [] => Some (None, s)
  | _ =>
      let n := zlen records in
      let '(skipped, s) := drop_batch_if_open s n (clock env 0) in
      if skipped then
        Some (None, add_fate (set_rt s (stat_end (stat_beg (rt s) n) n)) (FRecords DroppedF meta records))
      else batch_loop 2 env 0 records meta requeue_on_throw (set_rt s (stat_beg (rt s) n))
  end.

Definition flush_pending_buffer (env : CallEnv) (s : SinkState) : option (option SinkReason * SinkState) :=
  match pending_records (rt s) with
  | [] => Some (None, s)
  | records =>
      let meta := pending_meta (rt s) in
      send_records_batch env records meta true (set_rt s (set_pending (rt s) [] BatchMeta_default))
  end.

(** Sequencing with the early return of [?]. *)
Definition and_then (m : option (option SinkReason * SinkState))
    (k : SinkState -> option (option SinkReason * SinkState)) : option (option SinkReason * SinkState) :=
  match m with
  | Some (None, s) => k s
  | r => r
  end.

Definition send_record_segment (env : CallEnv) (records : list R) (meta : BatchMeta) (s : SinkState)
    : option (option SinkReason * SinkState) :=
  match records with
  | [] => Some (None, s)
  | _ =>
      and_then
        (if bool_decide (pending_records (rt s) <> []) && bool_decide (pending_meta (rt s) <> meta)
         then flush_pending_buffer env s else Some (None, s))
        (fun s =>
          if bool_decide (pending_records (rt s) = []) && (batch_size (rt s) <=? zlen records)
          then send_records_batch env records meta false s
          else
            let r := rt s in
            let pm := if bool_decide (pending_records r = []) then meta else pending_meta r in
            let r := set_pending r (pending_records r ++ records) pm in
            let s := set_rt s r in
            if batch_size r <=? zlen (pending_records r) then flush_pending_buffer env s
            else Some (None, s))
  end.

Definition unit_batch_meta (r : SinkRuntime) (m : ProcMeta) : BatchMeta :=
  let nm := match m with
            | OmlName n => if String.eqb n "" then None else Some n
            | _ => None
            end in
  mkMeta nm (output_disabled r).

(** A unit of a package: its processing metadata and its record. *)
Definition SinkPackage := list (ProcMeta * R).

Fixpoint send_mixed_meta_package (env : CallEnv) (package : SinkPackage) (segment : list R)
    (meta : BatchMeta) (s : SinkState) : option (option SinkReason * SinkState) :=
  match package with
  | [] => send_record_segment env segment meta s
  | (um, d) :: package =>
      let unit_meta := unit_batch_meta (rt s) um in
      if bool_decide (meta <> unit_meta) then
        and_then (send_record_segment env segment meta s)
          (fun s => send_mixed_meta_package env package [d] unit_meta s)
      else send_mixed_meta_package env package (segment ++ [d]) meta s
  end.

(** The scan of [send_package_to_sink]: the units of one metadata collected so
    far; the first unit of another hands over to the mixed path. *)
Fixpoint scan_package (env : CallEnv) (package : SinkPackage) (records : list R)
    (segment_meta : option BatchMeta) (s : SinkState) : option (option SinkReason * SinkState) :=
  match package with
  | [] => send_record_segment env records (default BatchMeta_default segment_meta) s
  | (um, d) :: rest =>
      let unit_meta := unit_batch_meta (rt s) um in
      match segment_meta with
      | Some meta =>
          if bool_decide (meta <> unit_meta) then send_mixed_meta_package env package records meta s
          else scan_package env rest (records ++ [d]) segment_meta s
      | None => scan_package env rest (records ++ [d]) (Some unit_meta) s
      end
  end.

Definition send_package_to_sink (env : CallEnv) (package : SinkPackage) (s : SinkState)
    : option (option SinkReason * SinkState) :=
  match package with
  | [] => Some (None, s)
  | _ => scan_package env package [] None s
  end.

Definition flush (env : CallEnv) (s : SinkState) : option (option SinkReason * SinkState) :=
  flush_pending_buffer env s.

(** The loop [send_ffv_package_to_sink] and [send_str_package_to_sink] share:
    the backend call of an attempt, for [n] units. *)
Fixpoint units_loop (fuel : nat) (env : CallEnv) (i : nat) (attempt : S -> S * option SinkReason)
    (n : Z) (s : SinkState) : option (option SinkReason * SinkState) :=
  match fuel with
  | O => None
  | Datatypes.S fuel =>
      let '(p, result) := attempt (primary (rt s)) in
      let s := set_rt s (set_primary (rt s) p) in
      match result with
      | None => Some (None, add_fate (sent_ok s n (clock env i)) (FUnits (Acked (backup_used (rt s))) n))
      | Some e =>
          match handle_send_error env (clock env i) e n s with
          | (inr e, s) => Some (Some e, s)
          | (inl Retry, s) => units_loop fuel env (Datatypes.S i) attempt n s
          | (inl Consume, s) =>
              Some (None, add_fate (set_rt s (stat_end (rt s) n)) (FUnits (consume_kind (rt s)) n))
          | (inl ThrowBatch, s) => Some (Some e, set_rt s (stat_end (rt s) n))
          end
      end
  end.

Definition send_units (env : CallEnv) (attempt : S -> S * option SinkReason) (n : Z) (s : SinkState)
    : option (option SinkReason * SinkState) :=
  if n =? 0 then Some (None, s)
  else
    let '(skipped, s) := drop_batch_if_open s n (clock env 0) in
    if skipped then
      Some (None, add_fate (set_rt s (stat_end (stat_beg (rt s) n) n)) (FUnits DroppedF n))
    else units_loop 2 env 0 attempt n (set_rt s (stat_beg (rt s) n)).

(** The payloads of a package by kind; a value that cannot be rendered becomes
    the empty string. *)
Definition ffv_strings (package : list F) : list string :=
  omap (fun f => match gen_data f with
                 | inl (RawString s) => Some s
                 | inr _ => Some ""
                 | _ => None
                 end) package.
Definition ffv_bytes (package : list F) : list (list Byte.byte) :=
  omap (fun f => match gen_data f with
                 | inl (RawBytes b) | inl (RawArcBytes b) => Some b
                 | _ => None
                 end) package.

Definition ffv_attempt (package : list F) (p : S) : S * option SinkReason :=
  match ffv_strings package with
  | [] => match ffv_bytes package with
          | [] => (p, None)
          | bs => sink_bytes_batch p bs
          end
  | ss => sink_str_batch p ss
  end.

Definition send_ffv_package_to_sink (env : CallEnv) (package : list F) (s : SinkState)
    : option (option SinkReason * SinkState) :=
  send_units env (ffv_attempt package) (zlen package) s.

Definition send_str_package_to_sink (env : CallEnv) (package : list string) (s : SinkState)
    : option (option SinkReason * SinkState) :=
  send_units env (fun p => sink_str_batch p package) (zlen package) s.

(** The backend call of [send_to_sink]; [inr] is a rendering error, returned at
    once. *)
Definition sink_one (p : S) (d : SinkDataEnum) : (S * option SinkReason) + SinkReason :=
  match d with
  | Rec _ dat => inl (sink_record p dat)
  | FFV dat =>
      match gen_data dat with
      | inr e => inr e
      | inl (RawString line) => inl (sink_str p line)
      | inl (RawBytes bytes) => inl (sink_bytes p bytes)
      | inl (RawArcBytes bytes) => inl (sink_bytes p bytes)
      end
  | Raw dat => inl (sink_str p dat)
  end.

(** The loop of [send_to_sink]; the result is what leaves it, [None] for a
    [break]. *)
Fixpoint one_loop (fuel : nat) (env : CallEnv) (i : nat) (data : SinkDataEnum) (s : SinkState)
    : option (option SinkReason * SinkState) :=
  match fuel with
  | O => None
  | Datatypes.S fuel =>
      let now := clock env i in
      if should_skip_send (rt s) now then
        let s := record_skipped_drop s 1 now in
        Some (None, add_fate (set_rt s (stat_end (stat_beg (rt s) 1) 1)) (FOne DroppedF data))
      else
        let s := set_rt s (stat_beg (rt s) 1) in
        match sink_one (primary (rt s)) data with
        | inr e => Some (Some e, s)
        | inl (p, result) =>
            let s := set_rt s (set_primary (rt s) p) in
            match result with
            | Some e =>
                if drop_when_error (rt s) then
                  let s := set_rt s (set_health (rt s) (on_failure (health (rt s)) now) (outage_t (rt s))) in
                  let s := record_failed_drop s 1 now in
                  Some (None, add_fate (set_rt s (stat_end (rt s) 1)) (FOne DroppedF data))
                else
                  match err4_send_to_sink e (mode env) with
                  | FixRetry =>
                      if backup_used (rt s) then Some (Some e, s)
                      else match bad_s env with
                           | Some bad_ok =>
                               match use_back_sink env bad_ok s with
                               | (Some e, s) => Some (Some e, s)
                               | (None, s) => one_loop fuel env (Datatypes.S i) data s
                               end
                           | None => Some (None, s)
                           end
                  | Throw => Some (Some e, s)
                  | Tolerant => Some (None, add_fate s (FOne Tolerated data))
                  | Ignore => Some (None, add_fate s (FOne Tolerated data))
                  | Terminate => Some (None, add_fate s (FOne Tolerated data))
                  end
            | None =>
                let r := rt s in
                let s := if backup_used r then
                           set_rt s (log_rescue_state
                             (set_rescue r (retired_rescue r) (rescue_file r)
                                (sat_add U64_MAX (rescue_records r) 1) (last_rescue_log_at r)) now)
                         else s in
                let s := record_send_success s in
                Some (None, add_fate (set_rt s (stat_end (rt s) 1)) (FOne (Acked (backup_used (rt s))) data))
            end
        end
  end.

Definition send_to_sink (env : CallEnv) (data : SinkDataEnum) (s : SinkState)
    : option (option SinkReason * SinkState) :=
  and_then (one_loop 2 env 0 data s)
    (fun s => Some (match mon env with Some e => e | None => None end, s)).

End Sink.
