(* ===== verification/SinkLaws.v ===== *)
(** What the sink runtime guarantees: its retry loops end, data handed over is
    acknowledged, counted as dropped or still buffered in order and under its
    own metadata, the drop gate is isolated, an outage uses one rescue file. *)
From Stdlib Require Import ZArith Lia String.
From stdpp Require Import prelude strings.
From S2P Require Import Prelude ErrPolicy Picker SinkHealth SinkRuntime.
Local Open Scope string_scope.
Local Open Scope list_scope.
Local Open Scope Z_scope.

Section Laws.
Context {R F S : Type} `{Backend R S}.
Variable gen_data : F -> RawData + SinkReason.

Implicit Types (s : SinkState (R := R) (F := F) (S := S)).

(** ** What the helpers leave alone *)

(** The configuration, the buffer and the fates. *)
Definition frame s :=
  (batch_size (rt s), drop_when_error (rt s), output_disabled (rt s), pending_records (rt s),
   pending_meta (rt s), fates s).

Lemma use_back_sink_frame env ok s : frame (use_back_sink env ok s).2 = frame s.
Proof.
  unfold use_back_sink, swap_backsink, frame.
  destruct (retired_rescue (rt s)); [|destruct (open_rescue env (opened s))];
    destruct (mon env) as [[?|]|]; destruct ok; done.
Qed.

Lemma use_back_sink_backup env ok s s' :
  use_back_sink env ok s = (None, s') -> backup_used (rt s') = true.
Proof.
  unfold use_back_sink, swap_backsink.
  destruct (retired_rescue (rt s)); [|destruct (open_rescue env (opened s))];
    destruct (mon env) as [[?|]|]; destruct ok; intros; by simplify_eq.
Qed.

Lemma record_failed_drop_frame s n now : frame (record_failed_drop s n now) = frame s.
Proof. unfold record_failed_drop. by destruct (n =? 0). Qed.

Lemma record_skipped_drop_frame s n now : frame (record_skipped_drop s n now) = frame s.
Proof. unfold record_skipped_drop. by destruct (n =? 0). Qed.

Lemma handle_send_error_frame env now e n s : frame (handle_send_error env now e n s).2 = frame s.
Proof.
  unfold handle_send_error. destruct (drop_when_error (rt s)) eqn:Ed.
  { cbn [snd]. rewrite record_failed_drop_frame. unfold frame. cbn. by rewrite Ed. }
  destruct (err4_send_to_sink e (mode env)); try done.
  destruct (backup_used (rt s)); [done|]. destruct (bad_s env) as [ok|]; [|done].
  pose proof (use_back_sink_frame env ok s). by destruct (use_back_sink env ok s) as [[?|] ?].
Qed.

Lemma sent_ok_frame s n now : frame (sent_ok s n now) = frame s.
Proof.
  unfold sent_ok, record_send_success, log_rescue_state, stat_end, frame.
  destruct (backup_used (rt s)) eqn:Eb; cbn; rewrite ?Eb; cbn;
    repeat (case_match; cbn); done.
Qed.

Lemma stat_frame s n : frame (set_rt s (stat_beg (rt s) n)) = frame s /\
  frame (set_rt s (stat_end (rt s) n)) = frame s.
Proof. unfold stat_end, frame. split; [done|]. by destruct (backup_used (rt s)). Qed.

Lemma handle_retry env now e n s s' :
  handle_send_error env now e n s = (inl Retry, s') ->
  backup_used (rt s) = false /\ backup_used (rt s') = true.
Proof.
  unfold handle_send_error. destruct (drop_when_error (rt s)); [done|].
  destruct (err4_send_to_sink e (mode env)); try done.
  destruct (backup_used (rt s)); [done|]. destruct (bad_s env) as [ok|]; [|done].
  pose proof (use_back_sink_backup env ok s). destruct (use_back_sink env ok s) as [[?|] s1]; [done|].
  intros [= <-]. split; [done|]. by apply H0.
Qed.

(** ** One batch *)

Definition fate_items (f : Fate (R := R) (F := F)) : list (BatchMeta * R) :=
  match f with FRecords _ m rs => map (pair m) rs | _ => [] end.

Definition log_items s : list (BatchMeta * R) := concat (map fate_items (fates s)).
Definition pend_items s : list (BatchMeta * R) := map (pair (pending_meta (rt s))) (pending_records (rt s)).

(** How a batch ends: with a fate for its records and the buffer untouched, or with
    an error, no fate, and, when asked for, the records back in the buffer
    unless the switch to the rescue file failed. *)
Definition batch_done s s' (records : list R) (meta : BatchMeta) (requeue : bool) (res : option SinkReason)
    : Prop :=
  match res with
  | None => exists k, frame s' =
      (batch_size (rt s), drop_when_error (rt s), output_disabled (rt s), pending_records (rt s),
       pending_meta (rt s), fates s ++ [FRecords k meta records])
  | Some _ => drop_when_error (rt s) = false /\
      (frame s' = frame s \/
       (requeue = true /\
        frame s' = (batch_size (rt s), drop_when_error (rt s), output_disabled (rt s), records, meta, fates s)))
  end.

Lemma batch_done_frame s1 s2 s' rs m q res :
  frame s1 = frame s2 -> batch_done s1 s' rs m q res -> batch_done s2 s' rs m q res.
Proof.
  intros Hf. unfold frame in Hf. injection Hf as H1 H2 H3 H4 H5 H6.
  unfold batch_done, frame. rewrite H1, H2, H3, H4, H5, H6. done.
Qed.

Lemma add_fate_frame s f :
  frame (add_fate s f) = (batch_size (rt s), drop_when_error (rt s), output_disabled (rt s),
                          pending_records (rt s), pending_meta (rt s), fates s ++ [f]).
Proof. done. Qed.

Lemma batch_done_ok s0 s k m rs q :
  frame s0 = frame s -> batch_done s (add_fate s0 (FRecords k m rs)) rs m q None.
Proof.
  intros Hf. exists k. rewrite add_fate_frame. unfold frame in Hf. injection Hf as -> -> -> -> -> ->. done.
Qed.

Lemma batch_loop_spec fuel env i rs m q s :
  (if backup_used (rt s) then 1 <= fuel else 2 <= fuel)%nat ->
  exists res s', batch_loop fuel env i rs m q s = Some (res, s') /\ batch_done s s' rs m q res.
Proof.
  revert i s. induction fuel as [|fuel IH]; intros i s Hfuel; [destruct (backup_used (rt s)); lia|].
  cbn [batch_loop]. destruct (sink_records (primary (rt s)) m rs) as [p result].
  set (s1 := set_rt s (set_primary (rt s) p)).
  assert (frame s1 = frame s) as Hf1 by done.
  destruct result as [e|].
  2:{ eexists _, _. split; [done|]. apply batch_done_ok. by rewrite sent_ok_frame. }
  pose proof (handle_send_error_frame env (clock env i) e (zlen rs) s1) as Hf2.
  pose proof (handle_retry env (clock env i) e (zlen rs) s1) as Hr.
  assert (drop_when_error (rt s) = true ->
    (handle_send_error env (clock env i) e (zlen rs) s1).1 = inl Consume) as Hd.
  { intros Hd. unfold handle_send_error. cbn. by rewrite Hd. }
  destruct (handle_send_error env (clock env i) e (zlen rs) s1) as [[[| |]|e'] s2];
    cbn [fst snd] in Hf2, Hd.
  - destruct (Hr s2 eq_refl) as [Hb1 Hb2].
    destruct (IH (Datatypes.S i) s2) as (res & s' & -> & Hdone).
    { rewrite Hb2. cbn in Hb1. rewrite Hb1 in Hfuel. lia. }
    exists res, s'. split; [done|]. eapply batch_done_frame; [|exact Hdone]. congruence.
  - eexists _, _. split; [done|]. apply batch_done_ok.
    destruct (stat_frame s2 (zlen rs)) as [_ ->]. congruence.
  - eexists _, _. split; [done|].
    assert (drop_when_error (rt s) = false) as Hdf by (destruct (drop_when_error (rt s)); [by specialize (Hd eq_refl)|done]).
    split; [done|]. destruct q; [right; split; [done|]|left].
    + unfold frame in Hf2, Hf1. injection Hf2 as G1 G2 G3 G4 G5 G6.
      unfold frame, stat_end. cbn. destruct (backup_used (rt s2)); cbn; by rewrite G1, G2, G3, G6.
    + destruct (stat_frame s2 (zlen rs)) as [_ Hs]. unfold set_rt in *. cbn in *.
      rewrite <- Hf1, <- Hf2. exact Hs.
  - eexists _, _. split; [done|].
    assert (drop_when_error (rt s) = false) as Hdf by (destruct (drop_when_error (rt s)); [by specialize (Hd eq_refl)|done]).
    split; [done|]. left. congruence.
Qed.

Lemma send_records_batch_spec env rs m q s :
  rs <> [] ->
  exists res s', send_records_batch env rs m q s = Some (res, s') /\ batch_done s s' rs m q res.
Proof.
  intros Hne. unfold send_records_batch. destruct rs as [|r rs]; [done|].
  set (recs := r :: rs). unfold drop_batch_if_open.
  destruct (should_skip_send (rt s) (clock env 0)).
  - eexists _, _. split; [done|]. apply batch_done_ok.
    set (s1 := record_skipped_drop s (zlen recs) (clock env 0)).
    assert (frame s1 = frame s) as <- by apply record_skipped_drop_frame.
    destruct (stat_frame (set_rt s1 (stat_beg (rt s1) (zlen recs))) (zlen recs)) as [_ Hs].
    rewrite <- (proj1 (stat_frame s1 (zlen recs))). exact Hs.
  - set (s1 := set_rt s (stat_beg (rt s) (zlen recs))).
    destruct (batch_loop_spec 2 env 0 recs m q s1) as (res & s' & -> & Hdone);
      [destruct (backup_used (rt s1)); lia|].
    exists res, s'. split; [done|]. eapply batch_done_frame; [|exact Hdone].
    apply (proj1 (stat_frame s (zlen recs))).
Qed.

(** ** Buffered sending *)

Definition conf s := (batch_size (rt s), drop_when_error (rt s), output_disabled (rt s)).

(** A call that returns, keeps the configuration, and on success has moved the
    items behind those already handed over, leaving less than a full batch
    buffered; it fails only when the gate is off. *)
Record handed s s' (items : list (BatchMeta * R)) : Prop := {
  hd_items : log_items s' ++ pend_items s' = log_items s ++ pend_items s ++ items;
  hd_small : zlen (pending_records (rt s')) < batch_size (rt s');
}.

Definition call_ok s (m : option (option SinkReason * SinkState)) (items : list (BatchMeta * R)) : Prop :=
  exists res s', m = Some (res, s') /\ conf s' = conf s /\
    (res = None -> handed s s' items) /\ (res <> None -> drop_when_error (rt s) = false).

Lemma log_items_app s fs f : fates s = fs ++ [f] -> log_items s = concat (map fate_items fs) ++ fate_items f.
Proof. intros E1. unfold log_items. rewrite E1, map_app, concat_app. cbn. by rewrite app_nil_r. Qed.

Lemma call_and_then s m k items1 items2 :
  call_ok s m items1 ->
  (forall s', m = Some (None, s') -> conf s' = conf s ->
     zlen (pending_records (rt s')) < batch_size (rt s') -> call_ok s' (k s') items2) ->
  call_ok s (and_then m k) (items1 ++ items2).
Proof.
  intros (res & s1 & -> & Hc & Hok & Herr) Hk. destruct res as [e|]; cbn [and_then].
  { exists (Some e), s1. split_and!; done. }
  destruct (Hok eq_refl) as [Hi Hs].
  destruct (Hk s1 eq_refl Hc Hs) as (res2 & s2 & -> & Hc2 & Hok2 & Herr2).
  exists res2, s2. split; [done|]. split; [congruence|]. split.
  - intros ->. destruct (Hok2 eq_refl) as [Hi2 Hs2]. split; [|done].
    by rewrite Hi2, app_assoc, Hi, <- !app_assoc.
  - intros Hn. unfold conf in Hc. injection Hc as _ <- _. by apply Herr2.
Qed.

(** Sending a batch of its own past an empty buffer, and flushing. *)
Lemma send_batch_call env rs m q s :
  rs <> [] -> 1 <= batch_size (rt s) -> pending_records (rt s) = [] ->
  call_ok s (send_records_batch env rs m q s) (map (pair m) rs).
Proof.
  intros Hne Hb Hp. destruct (send_records_batch_spec env rs m q s Hne) as (res & s' & -> & Hd).
  exists res, s'. split; [done|]. destruct res as [e|].
  - destruct Hd as [Hdf Hfr]. split; [|split; [done|by intros _]].
    destruct Hfr as [Hf|[_ Hf]]; unfold frame in Hf; unfold conf; congruence.
  - destruct Hd as [k Hf]. unfold frame in Hf. injection Hf as G1 G2 G3 G4 G5 G6.
    split; [unfold conf; congruence|]. split; [|done]. intros _. split.
    + rewrite (log_items_app s' (fates s) (FRecords k m rs)) by done.
      unfold pend_items. rewrite G4, Hp. cbn. by rewrite app_nil_r.
    + rewrite G4, Hp, G1, zlen_nil. lia.
Qed.

Lemma flush_call env s :
  1 <= batch_size (rt s) ->
  call_ok s (flush_pending_buffer env s) [] /\
  forall s', flush_pending_buffer env s = Some (None, s') -> pending_records (rt s') = [].
Proof.
  intros Hb. unfold flush_pending_buffer. destruct (pending_records (rt s)) as [|r rs] eqn:Ep.
  { split.
    - exists None, s. split_and!; try done. intros _. split; [by rewrite app_nil_r|].
      rewrite Ep, zlen_nil. lia.
    - intros s' [= <-]. done. }
  set (s0 := set_rt s (set_pending (rt s) [] BatchMeta_default)).
  destruct (send_records_batch_spec env (r :: rs) (pending_meta (rt s)) true s0) as (res & s' & -> & Hd); [done|].
  split.
  - exists res, s'. split; [done|]. destruct res as [e|].
    + destruct Hd as [Hdf Hfr]. split; [|split; [done|by intros _]].
      destruct Hfr as [Hf|[_ Hf]]; unfold frame in Hf; unfold conf; cbn in Hf; congruence.
    + destruct Hd as [k Hf]. unfold frame in Hf. cbn in Hf. injection Hf as G1 G2 G3 G4 G5 G6.
      split; [unfold conf; congruence|]. split; [|done]. intros _. split.
      * rewrite (log_items_app s' (fates s) (FRecords k (pending_meta (rt s)) (r :: rs))) by done.
        unfold pend_items. rewrite G4, Ep. cbn [map fate_items]. by rewrite !app_nil_r.
      * rewrite G4, G1, zlen_nil. lia.
  - intros s2 [= -> <-]. destruct Hd as [k Hf]. unfold frame in Hf. by injection Hf as _ _ _ -> _ _.
Qed.

Lemma segment_call env rs m s :
  1 <= batch_size (rt s) -> zlen (pending_records (rt s)) < batch_size (rt s) ->
  call_ok s (send_record_segment env rs m s) (map (pair m) rs).
Proof.
  intros Hb Hsm. unfold send_record_segment. destruct rs as [|r rs].
  { exists None, s. split_and!; try done. intros _. split; [by rewrite app_nil_r|done]. }
  set (recs := r :: rs).
  change (map (pair m) recs) with ([] ++ map (pair m) recs).
  (* after the optional flush the buffer is empty or of the same metadata *)
  set (first := if _ && _ then flush_pending_buffer env s else Some (None, s)).
  assert (call_ok s first [] /\ (forall s', first = Some (None, s') ->
    pending_records (rt s') = [] \/ pending_meta (rt s') = m)) as [Hfirst Hpost].
  { destruct (flush_call env s Hb) as [Hf Hp]. unfold first.
    assert (call_ok s (Some (None, s)) []) as Hstay.
    { exists None, s. split_and!; try done. intros _. split; [by rewrite app_nil_r|done]. }
    destruct (bool_decide (pending_records (rt s) <> [])) eqn:E1; cbn [andb].
    - destruct (bool_decide (pending_meta (rt s) <> m)) eqn:E2.
      + split; [done|]. intros s' Hs'. left. by apply Hp.
      + apply bool_decide_eq_false in E2. apply dec_stable in E2. split; [done|].
        intros s' [= <-]. by right.
    - apply bool_decide_eq_false in E1. apply dec_stable in E1. split; [done|].
      intros s' [= <-]. by left. }
  apply call_and_then; [done|]. clear Hsm. intros s1 Hs1 Hc Hsm. specialize (Hpost s1 Hs1).
  assert (batch_size (rt s1) = batch_size (rt s)) as Hbs by (unfold conf in Hc; congruence).
  destruct (bool_decide (pending_records (rt s1) = []) && (batch_size (rt s1) <=? zlen recs)) eqn:Eb.
  { apply andb_prop in Eb as [Ep _]. apply bool_decide_eq_true in Ep. apply send_batch_call; [done|lia|done]. }
  set (s2 := set_rt s1 _). cbn zeta.
  assert (pend_items s2 = pend_items s1 ++ map (pair m) recs) as Hpend.
  { unfold pend_items, s2. cbn. rewrite map_app.
    destruct (bool_decide (pending_records (rt s1) = [])) eqn:E1.
    - apply bool_decide_eq_true in E1. by rewrite E1.
    - apply bool_decide_eq_false in E1. destruct Hpost as [|Hm]; [done|]. by rewrite Hm. }
  assert (log_items s2 = log_items s1 /\ conf s2 = conf s1) as [Hlog Hconf] by done.
  match goal with |- call_ok _ (if ?b then _ else _) _ => destruct b eqn:El end.
  - destruct (flush_call env s2) as [(res & s3 & Hf & Hc3 & Hok & Herr) _]; [cbn; lia|].
    exists res, s3. split; [exact Hf|]. split; [congruence|]. split.
    + intros ->. destruct (Hok eq_refl) as [Hi Hs3]. split; [|exact Hs3].
      by rewrite Hi, app_nil_r, Hlog, Hpend.
    + intros Hn. unfold conf in Hconf. by apply Herr.
  - exists None, s2. split; [done|]. split; [done|]. split; [|done]. intros _. split.
    + by rewrite Hlog, Hpend.
    + apply Z.leb_gt in El. exact El.
Qed.

(** ** Packages *)

Definition pkg_items (disabled : list string) (pkg : SinkPackage (R := R)) : list (BatchMeta * R) :=
  map (fun u => (mkMeta (match u.1 with
                         | OmlName n => if String.eqb n "" then None else Some n
                         | _ => None
                         end) disabled, u.2)) pkg.

Lemma unit_meta_disabled s d um :
  conf s = d -> unit_batch_meta (rt s) um =
    mkMeta (match um with OmlName n => if String.eqb n "" then None else Some n | _ => None end) d.2.
Proof. intros <-. done. Qed.

Lemma mixed_call env pkg seg m s :
  1 <= batch_size (rt s) -> zlen (pending_records (rt s)) < batch_size (rt s) ->
  call_ok s (send_mixed_meta_package env pkg seg m s)
    (map (pair m) seg ++ pkg_items (output_disabled (rt s)) pkg).
Proof.
  revert seg m s. induction pkg as [|[um d] pkg IH]; intros seg m s Hb Hsm; cbn [send_mixed_meta_package].
  { rewrite app_nil_r. by apply segment_call. }
  cbn [pkg_items map fst snd]. fold (pkg_items (output_disabled (rt s)) pkg).
  set (um' := mkMeta _ _). change (unit_batch_meta (rt s) um) with um'.
  destruct (bool_decide (m <> um')) eqn:Em.
  - apply call_and_then; [by apply segment_call|]. intros s1 _ Hc Hsm1. unfold conf in Hc.
    injection Hc as Hb1 Hd1 Ho1. specialize (IH [d] um' s1). rewrite Ho1 in IH. apply IH; [lia|done].
  - apply bool_decide_eq_false in Em. apply dec_stable in Em. subst m.
    specialize (IH (seg ++ [d]) um' s Hb Hsm). rewrite map_app, <- app_assoc in IH. exact IH.
Qed.

Lemma scan_call env pkg seg m s :
  1 <= batch_size (rt s) -> zlen (pending_records (rt s)) < batch_size (rt s) ->
  (m = None -> seg = []) ->
  call_ok s (scan_package env pkg seg m s)
    (map (pair (default BatchMeta_default m)) seg ++ pkg_items (output_disabled (rt s)) pkg).
Proof.
  intros Hb Hsm. revert seg m. induction pkg as [|[um d] pkg IH]; intros seg m Hm; cbn [scan_package].
  { rewrite app_nil_r. by apply segment_call. }
  set (um' := unit_batch_meta (rt s) um).
  destruct m as [m|].
  - destruct (bool_decide (m <> um')) eqn:Em; [by apply mixed_call|].
    apply bool_decide_eq_false in Em. apply dec_stable in Em. subst m.
    specialize (IH (seg ++ [d]) (Some um') ltac:(done)). cbn [default] in *.
    rewrite map_app, <- app_assoc in IH. exact IH.
  - rewrite Hm by done. specialize (IH ([] ++ [d]) (Some um') ltac:(done)). exact IH.
Qed.

Lemma package_call env pkg s :
  1 <= batch_size (rt s) -> zlen (pending_records (rt s)) < batch_size (rt s) ->
  call_ok s (send_package_to_sink env pkg s) (pkg_items (output_disabled (rt s)) pkg).
Proof.
  intros Hb Hsm. unfold send_package_to_sink. destruct pkg as [|u pkg].
  { exists None, s. split_and!; try done. intros _. split; [by rewrite app_nil_r|done]. }
  apply (scan_call env (u :: pkg) [] None s Hb Hsm). done.
Qed.

(** Packages handed over one after the other, each with its environment, up to
    the first error. *)
Fixpoint send_packages (calls : list (CallEnv * SinkPackage)) s
    : option (option SinkReason * SinkState) :=
  match calls with
  | [] => Some (None, s)
  | (env, pkg) :: calls => and_then (send_package_to_sink env pkg s) (send_packages calls)
  end.

Lemma packages_call calls s :
  1 <= batch_size (rt s) -> zlen (pending_records (rt s)) < batch_size (rt s) ->
  call_ok s (send_packages calls s)
    (concat (map (fun c => pkg_items (output_disabled (rt s)) c.2) calls)).
Proof.
  revert s. induction calls as [|[env pkg] calls IH]; intros s Hb Hsm; cbn [send_packages map concat].
  { exists None, s. split_and!; try done. intros _. split; [by rewrite app_nil_r|done]. }
  apply call_and_then; [by apply package_call|]. intros s1 _ Hc Hsm1. unfold conf in Hc.
  injection Hc as Hb1 _ Ho1. cbn [snd]. specialize (IH s1). rewrite Ho1 in IH. apply IH; [lia|done].
Qed.

(** C2: a sink created with any batch size and sent any packages, against any backend,
    clock, rescue directory and queue: every call returns (no retry loop runs
    on); as long as none fails, the records handed to a fate (acknowledged,
    dropped, tolerated) followed by those buffered are all the records of the packages,
    once each and in order, each under the metadata of its own unit; less than
    a full batch stays buffered; and with the drop gate no call fails. *)
Theorem sink_conserves_records (nm : string) (id : Z) (drop : bool) (sink : S) (size : Z)
  (disabled : list string) (calls : list (CallEnv * SinkPackage)) :
  let s0 := mkState (set_meta_output_disabled (with_batch_size nm id drop sink size) disabled) 0 [] 0 [] in
  exists res s', send_packages calls s0 = Some (res, s') /\
    (drop = true -> res = None) /\
    (res = None ->
       log_items s' ++ pend_items s' = concat (map (fun c => pkg_items disabled c.2) calls) /\
       zlen (pending_records (rt s')) < Z.max size 1).
Proof.
  cbn zeta. set (s0 := mkState _ 0 [] 0 []).
  destruct (packages_call calls s0) as (res & s' & Hrun & Hc & Hok & Herr);
    [cbn; lia|change (0 < Z.max size 1); lia|].
  exists res, s'. split; [exact Hrun|]. split.
  - intros Hd. destruct res as [e|]; [|done]. specialize (Herr ltac:(done)). cbn in Herr. congruence.
  - intros Hn. destruct (Hok Hn) as [Hi Hs]. unfold conf in Hc. injection Hc as Hb _ _.
    split; [exact Hi|]. rewrite Hb in Hs. exact Hs.
Qed.

(** A flush that succeeds empties the buffer and gives exactly the buffered
    records one fate under their metadata; one that fails gives no record a
    fate and leaves the buffer as it was, with its metadata, unless the error
    was one to retry on the rescue file and switching to it failed: then the
    buffered records are gone. *)
Theorem flush_outcome (env : CallEnv) s :
  exists res s', flush env s = Some (res, s') /\
    match res with
    | None => pending_records (rt s') = [] /\ log_items s' = log_items s ++ pend_items s
    | Some _ => drop_when_error (rt s) = false /\ fates s' = fates s /\
        (pending_records (rt s') = pending_records (rt s) /\ pending_meta (rt s') = pending_meta (rt s)
         \/ pending_records (rt s') = [])
    end.
Proof.
  unfold flush, flush_pending_buffer. destruct (pending_records (rt s)) as [|r rs] eqn:Ep.
  { exists None, s. split; [done|]. split; [done|]. unfold pend_items. rewrite Ep. by rewrite app_nil_r. }
  set (s0 := set_rt s (set_pending (rt s) [] BatchMeta_default)).
  destruct (send_records_batch_spec env (r :: rs) (pending_meta (rt s)) true s0) as (res & s' & -> & Hd); [done|].
  exists res, s'. split; [done|]. destruct res as [e|].
  - destruct Hd as [Hdf [Hf|[_ Hf]]]; unfold frame in Hf; cbn in Hf; injection Hf as G1 G2 G3 G4 G5 G6.
    + split; [done|]. split; [done|]. by right.
    + split; [done|]. split; [done|]. by left.
  - destruct Hd as [k Hf]. unfold frame in Hf. cbn in Hf. injection Hf as G1 G2 G3 G4 G5 G6.
    split; [done|]. rewrite (log_items_app s' (fates s) (FRecords k (pending_meta (rt s)) (r :: rs))) by done.
    unfold pend_items. by rewrite Ep.
Qed.

(** ** The drop gate *)

Lemma record_failed_drop_fields s n now :
  0 < n ->
  let s' := record_failed_drop s n now in
  dropped_total s' = sat_add U64_MAX (dropped_total s) n /\ opened s' = opened s /\
  bad_queue s' = bad_queue s /\ backup_used (rt s') = backup_used (rt s) /\ health (rt s') = health (rt s).
Proof. intros Hn. unfold record_failed_drop. destruct (Z.eqb_spec n 0); [lia|]. done. Qed.

(** A sink with the drop gate answers every batch with success without ever
    touching the rescue machinery; while the gate is open the backend is not called
    and the batch is dropped; otherwise the batch is acknowledged, which closes
    the gate, or dropped, which opens it; and the drop counter grows by exactly
    the dropped records. *)
Theorem drop_gate (env : CallEnv) (rs : list R) (m : BatchMeta) (q : bool) s
  (Hdrop : drop_when_error (rt s) = true) (Hne : rs <> []) :
  exists s' k, send_records_batch env rs m q s = Some (None, s') /\
    fates s' = fates s ++ [FRecords k m rs] /\
    opened s' = opened s /\ bad_queue s' = bad_queue s /\ backup_used (rt s') = backup_used (rt s) /\
    match k with
    | Acked _ => dropped_total s' = dropped_total s /\ is_open (health (rt s)) (clock env 0) = false /\
        health (rt s') = SinkHealth_new /\ (sink_records (primary (rt s)) m rs).2 = None
    | DroppedF => dropped_total s' = sat_add U64_MAX (dropped_total s) (zlen rs) /\
        (if is_open (health (rt s)) (clock env 0)
         then primary (rt s') = primary (rt s) /\ health (rt s') = health (rt s)
         else is_Some (sink_records (primary (rt s)) m rs).2 /\
              health (rt s') = on_failure (health (rt s)) (clock env 0))
    | Tolerated => False
    end.
Proof.
  destruct rs as [|r rs]; [done|]. set (recs := r :: rs).
  assert (0 < zlen recs) as Hn by (unfold recs; rewrite zlen_cons; pose proof (zlen_nonneg rs); lia).
  unfold send_records_batch, drop_batch_if_open, should_skip_send. rewrite Hdrop. cbn [andb].
  fold recs. destruct (is_open (health (rt s)) (clock env 0)) eqn:Eo; cbn [fst snd].
  - eexists _, DroppedF. split; [reflexivity|].
    unfold record_skipped_drop. destruct (Z.eqb_spec (zlen recs) 0); [lia|].
    unfold stat_end. cbn. destruct (backup_used (rt s)) eqn:Eb; cbn; rewrite ?Eb; by repeat split.
  - cbn [batch_loop]. change (primary (rt (set_rt s _))) with (primary (rt s)).
    destruct (sink_records (primary (rt s)) m recs) as [p [e|]] eqn:Es.
    + unfold handle_send_error. cbn [drop_when_error rt set_rt set_primary stat_beg set_stats].
      rewrite Hdrop. unfold record_failed_drop. rewrite (proj2 (Z.eqb_neq (zlen recs) 0)) by lia.
      eexists _, DroppedF. split; [unfold consume_kind; cbn; rewrite Hdrop; reflexivity|].
      unfold stat_end. cbn. destruct (backup_used (rt s)) eqn:Eb; cbn; rewrite ?Eb; by repeat split.
    + eexists _, (Acked (backup_used (rt s))). split; [reflexivity|].
      unfold sent_ok, record_send_success, log_rescue_state, stat_end. cbn.
      destruct (backup_used (rt s)) eqn:Eb; cbn; repeat (case_match; cbn); rewrite ?Eb; by repeat split.
Qed.

(** ** The rescue file *)

(** An outage uses one rescue file: when a sink on its rescue file gets
    its backend back and then fails again before a send succeeded, it goes back
    to the same rescue backend and file and continues its count, no new file is
    opened, and the backend is queued as bad again. *)
Theorem one_rescue_file (env : CallEnv) s (h : ASinkHandle)
  (Hback : backup_used (rt s) = true) (Hname : handle_name h = name (rt s))
  (Hid : handle_id h = instance_id (rt s)) (Hret : retired_rescue (rt s) = None)
  (Hmon : mon env = None) (Hbad : bad_s env = Some true) :
  exists s1, recover_sink s h None = (inl true, s1) /\
    primary (rt s1) = handle_sink h /\ backup_used (rt s1) = false /\
    forall now e n, drop_when_error (rt s) = false -> err4_send_to_sink e (mode env) = FixRetry ->
    exists s2, handle_send_error env now e n s1 = (inl Retry, s2) /\
      primary (rt s2) = primary (rt s) /\ backup_used (rt s2) = true /\
      opened s2 = opened s /\ rescue_file (rt s2) = rescue_file (rt s) /\
      rescue_records (rt s2) = rescue_records (rt s) /\
      bad_queue s2 = bad_queue s ++ [mkHandle (name (rt s)) (instance_id (rt s)) (handle_sink h)].
Proof.
  destruct s as [[nm id bs dr od rd prim bu ret file cnt lg pr pm ns bk he ou] op bq dt fs], h as [hn hi hs].
  cbn in *. subst. unfold recover_sink, is_backup_active, accepts_handle. cbn.
  rewrite bool_decide_eq_true_2, Z.eqb_refl by done.
  unfold set_rt, set_primary, set_rescue, set_backup, set_health. cbn.
  eexists. split; [reflexivity|]. split; [done|]. split; [done|].
  intros now e n Hd He. unfold handle_send_error. cbn. rewrite Hd, He, Hbad.
  unfold use_back_sink, swap_backsink. rewrite Hmon.
  unfold set_rt, set_primary, set_rescue, set_backup. cbn.
  eexists. split; [reflexivity|]. by split_and!.
Qed.

(** A single record whose backend asks for a retry when the caller has no
    queue for bad sinks is reported as sent, although it was neither
    acknowledged nor counted as dropped, and its statistics never end. *)
Theorem send_to_sink_silent_loss (env : CallEnv) (data : SinkDataEnum (R := R) (F := F)) s (p : S)
  (e : SinkReason)
  (Hsend : sink_one gen_data (primary (rt s)) data = inl (p, Some e))
  (Hretry : err4_send_to_sink e (mode env) = FixRetry)
  (Hdrop : drop_when_error (rt s) = false) (Hback : backup_used (rt s) = false)
  (Hbad : bad_s env = None) (Hmon : mon env = None) :
  exists s', send_to_sink gen_data env data s = Some (None, s') /\
    fates s' = fates s /\ dropped_total s' = dropped_total s /\
    begun (normal_stat (rt s')) = begun (normal_stat (rt s)) + 1 /\
    ended (normal_stat (rt s')) = ended (normal_stat (rt s)) /\
    pending_records (rt s') = pending_records (rt s).
Proof.
  unfold send_to_sink. cbn [one_loop]. unfold should_skip_send. rewrite Hdrop. cbn [andb].
  change (primary (rt (set_rt s (stat_beg (rt s) 1)))) with (primary (rt s)). rewrite Hsend.
  cbn [drop_when_error rt set_rt set_primary stat_beg set_stats backup_used].
  rewrite Hdrop, Hretry, Hback, Hbad. cbn [and_then]. rewrite Hmon.
  eexists. split; [reflexivity|]. by split_and!.
Qed.

(** Of a package whose values render to text and to bytes, only the texts
    reach the backend; when it takes them, the whole package, bytes included, is
    recorded as acknowledged. *)
Theorem ffv_mixed_package_loses_bytes (env : CallEnv) (package : list F) s
  (Htext : ffv_strings gen_data package <> []) (Hbytes : ffv_bytes gen_data package <> [])
  (Hok : (sink_str_batch (primary (rt s)) (ffv_strings gen_data package)).2 = None)
  (Hgate : should_skip_send (rt s) (clock env 0) = false) :
  exists s' k, send_ffv_package_to_sink gen_data env package s = Some (None, s') /\
    fates s' = fates s ++ [FUnits (Acked k) (zlen package)] /\
    primary (rt s') = (sink_str_batch (primary (rt s)) (ffv_strings gen_data package)).1.
Proof.
  unfold send_ffv_package_to_sink, send_units.
  assert (zlen package <> 0) as Hz by (destruct package; [done|]; rewrite zlen_cons; pose proof (zlen_nonneg package); lia).
  destruct (Z.eqb_spec (zlen package) 0); [lia|]. unfold drop_batch_if_open. rewrite Hgate.
  cbn [units_loop]. change (primary (rt (set_rt s _))) with (primary (rt s)).
  unfold ffv_attempt. destruct (ffv_strings gen_data package) as [|t ts]; [done|].
  destruct (sink_str_batch (primary (rt s)) (t :: ts)) as [p o]. cbn in Hok. subst o.
  eexists _, (backup_used (rt s)). split; [reflexivity|].
  unfold sent_ok, record_send_success, log_rescue_state, stat_end.
  cbn. destruct (backup_used (rt s)) eqn:Eb; cbn; repeat (case_match; cbn); rewrite ?Eb; by repeat split.
Qed.

End Laws.

(** ** A concrete sink *)

(** A backend that answers from a script and keeps what it took. *)
Record DemoSink := mkDemoSink {
  script : list (option SinkReason);
  got : list (BatchMeta * list nat);
  texts : list (list string);
}.

Definition answer (s : DemoSink) (ok : DemoSink) : DemoSink * option SinkReason :=
  match script s with
  | Some e :: rest => (mkDemoSink rest (got s) (texts s), Some e)
  | None :: rest => (mkDemoSink rest (got ok) (texts ok), None)
  | [] => (ok, None)
  end.

#[export] Instance DemoSink_backend : Backend nat DemoSink := {
  sink_record s r := answer s (mkDemoSink (script s) (got s ++ [(BatchMeta_default, [r])]) (texts s));
  sink_records s m rs := answer s (mkDemoSink (script s) (got s ++ [(m, rs)]) (texts s));
  sink_str s t := answer s (mkDemoSink (script s) (got s) (texts s ++ [[t]]));
  sink_str_batch s ts := answer s (mkDemoSink (script s) (got s) (texts s ++ [ts]));
  sink_bytes s b := answer s s;
  sink_bytes_batch s bs := answer s s;
  stop s := (s, None);
}.

Definition demo_gen (d : RawData) : RawData + SinkReason := inl d.

Definition demo_sink_state (drop : bool) (answers : list (option SinkReason))
    : SinkState (R := nat) (F := RawData) (S := DemoSink) :=
  mkState (with_batch_size "out" 7 drop (mkDemoSink answers [] []) 2) 0 [] 0 [].

Definition demo_call : CallEnv (S := DemoSink) :=
  mkEnv Normal (Some true) None (fun _ => 100) (fun _ => inl (mkDemoSink [] [] [])).

Definition demo_call_alone : CallEnv (S := DemoSink) :=
  mkEnv Normal None None (fun _ => 100) (fun _ => inl (mkDemoSink [] [] [])).

(** A failing backend: the batch lands in the rescue file, the rest is buffered. *)
Example demo_rescue :
  match send_package_to_sink demo_call
          [(OmlName "a", 1%nat); (OmlName "a", 2%nat); (OmlName "b", 3%nat)]
          (demo_sink_state false [Some SinkFailed]) with
  | Some (None, s) =>
      got (primary (rt s)) = [(mkMeta (Some "a") [], [1; 2]%nat)] /\
      pending_records (rt s) = [3%nat] /\ opened s = 1 /\ backup_used (rt s) = true
  | _ => False
  end.
Proof. vm_compute. by repeat split. Qed.

Lemma drop_gate_witness :
  exists s' k, send_records_batch demo_call [1; 2; 3]%nat BatchMeta_default true
      (demo_sink_state true [Some SinkFailed]) = Some (None, s') /\
    fates s' = [] ++ [FRecords k BatchMeta_default [1; 2; 3]%nat] /\
    opened s' = 0 /\ bad_queue s' = [] /\ backup_used (rt s') = false /\
    match k with
    | Acked _ => dropped_total s' = 0 /\ is_open SinkHealth_new (clock demo_call 0) = false /\
        health (rt s') = SinkHealth_new /\
        (sink_records (mkDemoSink [Some SinkFailed] [] []) BatchMeta_default [1; 2; 3]%nat).2 = None
    | DroppedF => dropped_total s' = sat_add U64_MAX 0 (zlen [1; 2; 3]%nat) /\
        (if is_open SinkHealth_new (clock demo_call 0)
         then primary (rt s') = mkDemoSink [Some SinkFailed] [] [] /\ health (rt s') = SinkHealth_new
         else is_Some (sink_records (mkDemoSink [Some SinkFailed] [] []) BatchMeta_default [1; 2; 3]%nat).2 /\
              health (rt s') = on_failure SinkHealth_new (clock demo_call 0))
    | Tolerated => False
    end.
Proof.
  apply (drop_gate demo_call [1; 2; 3]%nat BatchMeta_default true (demo_sink_state true [Some SinkFailed]));
    [reflexivity | discriminate].
Defined.

(** The sink of [demo_rescue], on its rescue file. *)
Definition demo_on_rescue : SinkState (R := nat) (F := RawData) (S := DemoSink) :=
  let s := demo_sink_state false [] in
  mkState (set_rescue (set_backup (rt s) true) None (Some 0) 2 None) 1 [] 0 [].

Lemma one_rescue_file_witness :
  exists s1, recover_sink demo_on_rescue (mkHandle "out" 7 (mkDemoSink [] [] [])) None = (inl true, s1) /\
    primary (rt s1) = mkDemoSink [] [] [] /\ backup_used (rt s1) = false /\
    forall now e n, drop_when_error (rt demo_on_rescue) = false ->
      err4_send_to_sink e (mode demo_call) = FixRetry ->
    exists s2, handle_send_error demo_call now e n s1 = (inl Retry, s2) /\
      primary (rt s2) = primary (rt demo_on_rescue) /\ backup_used (rt s2) = true /\
      opened s2 = 1 /\ rescue_file (rt s2) = Some 0 /\
      rescue_records (rt s2) = 2 /\
      bad_queue s2 = [] ++ [mkHandle "out" 7 (mkDemoSink [] [] [])].
Proof.
  apply (one_rescue_file demo_call demo_on_rescue (mkHandle "out" 7 (mkDemoSink [] [] [])));
    reflexivity.
Defined.

Lemma send_to_sink_silent_loss_witness :
  exists s', send_to_sink demo_gen demo_call_alone (Rec "r" 5%nat) (demo_sink_state false [Some SinkFailed])
      = Some (None, s') /\
    fates s' = [] /\ dropped_total s' = 0 /\
    begun (normal_stat (rt s')) = 0 + 1 /\ ended (normal_stat (rt s')) = 0 /\
    pending_records (rt s') = [].
Proof.
  apply (send_to_sink_silent_loss demo_gen demo_call_alone (Rec "r" 5%nat)
    (demo_sink_state false [Some SinkFailed]) (mkDemoSink [] [] []) SinkFailed); reflexivity.
Defined.

Lemma ffv_mixed_package_loses_bytes_witness :
  exists s' k, send_ffv_package_to_sink demo_gen demo_call
      [RawString "t"; RawBytes [Byte.x41]] (demo_sink_state false []) = Some (None, s') /\
    fates s' = [] ++ [FUnits (Acked k) (zlen [RawString "t"; RawBytes [Byte.x41]])] /\
    primary (rt s') = (sink_str_batch (mkDemoSink [] [] []) (ffv_strings demo_gen
                         [RawString "t"; RawBytes [Byte.x41]])).1.
Proof.
  apply (ffv_mixed_package_loses_bytes demo_gen demo_call [RawString "t"; RawBytes [Byte.x41]]
    (demo_sink_state false [])); [discriminate | discriminate | reflexivity | reflexivity].
Defined.
