(* ===== verification/DataModel.v ===== *)
(** The interface of the data-model crate the engine is built on: field values
    and records, as far as conditions and tags use them.

    The crate is code outside the repository.  [Value] has the variants the
    exhaustive code names; the payload types that are not text or numbers are
    those of a [ValueTypes] instance. *)
From Stdlib Require Import ZArith Lia String.
From stdpp Require Import prelude strings.
From S2P Require Import Prelude.
Local Open Scope string_scope.
Local Open Scope list_scope.
Local Open Scope Z_scope.

(** [PartialOrd] (with its [PartialEq]) and the wildcard test of
    [orion_exp::WildcardMatcher]: [matches pattern candidate]. *)
Class Comparable (T : Type) := {
  partial_eq : T -> T -> bool;
  partial_cmp : T -> T -> option comparison;
  matches : T -> T -> bool;
}.

(** The payload types of other crates, with their order. *)
Class ValueTypes := {
  Time : Type;
  Float : Type;
  IpNet : Type;
  IpAddr : Type;
  Array : Type;
  Object : Type;
  time_comparable : Comparable Time;
  float_comparable : Comparable Float;
  ipaddr_comparable : Comparable IpAddr;
  ipnet_eqb : IpNet -> IpNet -> bool;
}.
#[export] Existing Instance time_comparable.
#[export] Existing Instance float_comparable.
#[export] Existing Instance ipaddr_comparable.

Inductive Value `{ValueTypes} :=
  | Null | Ignore_ (* an [Ignore] value *)
  | Chars (s : string) | Symbol (s : string)
  | TimeV (t : Time) | BoolV (b : bool)
  | IntV (n : Z) | BigUint (n : N) | Hex (n : N) | FloatV (x : Float)
  | IpNetV (n : IpNet) | IpAddrV (a : IpAddr)
  | Domain (s : string) | Email (s : string) | Url (s : string)
  | IdCard (s : string) | MobilePhone (s : string)
  | ArrayV (l : Array) | ObjV (o : Object)
  | OtherV (discriminant : Z).

(** A field and a record of fields. *)
Class DataApi `{ValueTypes} (F R : Type) := {
  get_name : F -> string;
  get_value : F -> Value;
  from_chars : string -> string -> F;
  from_int : string -> Z -> F;
  items : R -> list F;
  field : R -> string -> option F;
  append : R -> F -> R;
  remove_field : R -> string -> bool * R;
}.

(** The documented behaviour: a field is the first item of its name, [append]
    adds at the end, [remove_field] removes one item of the name or answers
    that there is none. *)
Class DataLaws `{DataApi F R} := {
  from_chars_name k v : get_name (from_chars k v) = k;
  from_chars_value k v : get_value (from_chars k v) = Chars v;
  from_int_name k n : get_name (from_int k n) = k;
  field_first r k : field r k = head (filter (fun f => get_name f = k) (items r));
  append_items r f : items (append r f) = items r ++ [f];
  remove_field_spec r k :
    match remove_field r k with
    | (true, r') => exists l f l', items r = l ++ f :: l' /\ get_name f = k /\ items r' = l ++ l'
    | (false, r') => r' = r /\ Forall (fun f => get_name f <> k) (items r)
    end;
}.

(** ** A concrete instance: a record is a list of named values *)

Definition z_comparable : Comparable Z :=
  {| partial_eq := Z.eqb; partial_cmp a b := Some (Z.compare a b); matches := Z.eqb |}.

Definition list_types : ValueTypes :=
  {| Time := Z; Float := Z; IpNet := Z; IpAddr := Z; Array := unit; Object := unit;
     time_comparable := z_comparable; float_comparable := z_comparable; ipaddr_comparable := z_comparable;
     ipnet_eqb := Z.eqb |}.

Fixpoint remove_first {A} (k : string) (l : list (string * A)) : bool * list (string * A) :=
  match l with
  | [] => (false, [])
  | f :: r => if String.eqb f.1 k then (true, r)
              else let '(b, r) := remove_first k r in (b, f :: r)
  end.

Definition list_api : DataApi (H := list_types) (string * Value (H := list_types))
                        (list (string * Value (H := list_types))) :=
  {| get_name := fst; get_value := snd;
     from_chars k v := (k, Chars v); from_int k n := (k, IntV n);
     items r := r; field r k := head (filter (fun f => f.1 = k) r);
     append r f := r ++ [f]; remove_field r k := remove_first k r |}.

Lemma remove_first_spec {A} k (l : list (string * A)) :
  match remove_first k l with
  | (true, r') => exists a f b, l = a ++ f :: b /\ f.1 = k /\ r' = a ++ b
  | (false, r') => r' = l /\ Forall (fun f => f.1 <> k) l
  end.
Proof.
  induction l as [|f l IH]; [by split|]. cbn [remove_first]. destruct (String.eqb_spec f.1 k) as [<-|Hne].
  - by exists [], f, l.
  - destruct (remove_first k l) as [[] r'].
    + destruct IH as (a & g & b & -> & <- & ->). by exists (f :: a), g, b.
    + destruct IH as [-> Hl]. split; [done|]. by constructor.
Qed.

Lemma list_laws : DataLaws (H0 := list_api).
Proof. split; try done. intros r k. apply remove_first_spec. Qed.
