(* ===== verification/Expr.v ===== *)
(** Conditions: expression trees, their evaluators and the cache of compiled
    wildcard patterns ([crates/orion_exp/src]), and their use on data records
    ([crates/wp-data-utils/src/{compare,conditions}.rs]).

    Compiling and matching one wildcard pattern is the [wildmatch] crate's. *)
From Stdlib Require Import ZArith Lia String.
From stdpp Require Import prelude strings gmap.
From S2P Require Import Prelude DataModel.
Local Open Scope string_scope.
Local Open Scope list_scope.
Local Open Scope Z_scope.

(** ** Operators and their symbols *)

Inductive LogicOperator := OpAnd | OpOr | OpNot.
Inductive CmpOperator := OpWe | OpEq | OpNe | OpGt | OpGe | OpLt | OpLe.

(** [LogicSymbolProvider] and [CmpSymbolProvider] of one symbol type. *)
Record SymbolProvider := mkSymbols {
  symbol_and : string; symbol_not : string; symbol_or : string;
  symbol_eq : string; symbol_we : string; symbol_ne : string;
  symbol_ge : string; symbol_gt : string; symbol_le : string; symbol_lt : string;
  symbol_var : string -> string;
}.

Definition SQLSymbol : SymbolProvider :=
  mkSymbols "and" "not" "or" "=" "=" "!=" ">=" ">" "<=" "<" (fun name => name).

Definition RustSymbol : SymbolProvider :=
  mkSymbols "&&" "!" "||" "==" "=*" "!=" ">=" ">" "<=" "<" (fun name => ("$" ++ name)%string).

Definition symbol_logic (S : SymbolProvider) (op : LogicOperator) : string :=
  match op with OpAnd => symbol_and S | OpOr => symbol_or S | OpNot => symbol_not S end.

Definition symbol_cmp (S : SymbolProvider) (op : CmpOperator) : string :=
  match op with
  | OpWe => symbol_we S | OpEq => symbol_eq S | OpNe => symbol_ne S
  | OpGt => symbol_gt S | OpGe => symbol_ge S | OpLt => symbol_lt S | OpLe => symbol_le S
  end.

(** ** Expression trees *)

Record Comparison (T : Type) := mkComparison {
  var_name : string; compare_op : CmpOperator; right_const : T }.
Arguments mkComparison {T}.
Arguments var_name {T}.
Arguments compare_op {T}.
Arguments right_const {T}.

Inductive Expression (T : Type) :=
  | Logic (l : LogicalExpress T)
  | Compare (c : Comparison T)
with LogicalExpress (T : Type) :=
  | mkLogical (op : LogicOperator) (lhs : option (Expression T)) (rhs : Expression T).
Arguments Logic {T}.
Arguments Compare {T}.
Arguments mkLogical {T}.

Definition Comparison_new {T} (op : CmpOperator) (name : string) (target : T) : Comparison T :=
  mkComparison name op target.

Definition logical_op {T} (e : LogicalExpress T) : LogicOperator := let '(mkLogical op _ _) := e in op.

(** [LogicalBuilder]: its fields are those of the node [build] makes. *)
Record LogicalBuilder (T : Type) := mkBuilder {
  b_operator : LogicOperator; b_left : option (Expression T); b_right : Expression T }.
Arguments mkBuilder {T}.
Arguments b_operator {T}.
Arguments b_left {T}.
Arguments b_right {T}.

Definition builder_and {T} (l r : Expression T) : LogicalBuilder T := mkBuilder OpAnd (Some l) r.
Definition builder_or {T} (l r : Expression T) : LogicalBuilder T := mkBuilder OpOr (Some l) r.
Definition builder_not {T} (r : Expression T) : LogicalBuilder T := mkBuilder OpNot None r.
Definition build {T} (b : LogicalBuilder T) : Expression T :=
  Logic (mkLogical (b_operator b) (b_left b) (b_right b)).

(** ** Display *)

Section Display.
Context {T : Type}.
Variable S : SymbolProvider.
Variable show : T -> string.

Definition fmt_comparison (c : Comparison T) : string :=
  (symbol_var S (var_name c) ++ " " ++ symbol_cmp S (compare_op c) ++ " " ++ show (right_const c))%string.

Fixpoint fmt_expression (e : Expression T) : string :=
  match e with
  | Logic l => fmt_logical l
  | Compare c => fmt_comparison c
  end
with fmt_logical (e : LogicalExpress T) : string :=
  let '(mkLogical op lhs rhs) := e in
  ((match lhs with
    | Some l =>
        match l with
        | Logic v => match logical_op v with
                     | OpNot => fmt_expression l ++ " "
                     | _ => "(" ++ fmt_expression l ++ ") "
                     end
        | Compare _ => fmt_expression l ++ " "
        end
    | None => ""
    end) ++
   (match rhs with
    | Logic v => match logical_op v with
                 | OpNot => symbol_logic S op ++ fmt_expression rhs
                 | _ => symbol_logic S op ++ " (" ++ fmt_expression rhs ++ ")"
                 end
    | Compare _ => symbol_logic S op ++ " " ++ fmt_expression rhs
    end))%string.
End Display.

(** ** Comparing two values *)

Definition is_gt (o : option comparison) : bool := match o with Some Gt => true | _ => false end.
Definition is_lt (o : option comparison) : bool := match o with Some Lt => true | _ => false end.
Definition is_ge (o : option comparison) : bool := match o with Some (Gt | Eq) => true | _ => false end.
Definition is_le (o : option comparison) : bool := match o with Some (Lt | Eq) => true | _ => false end.

(** [ValueComparator::compare_with] of a value with an order: the pattern of a
    wildcard is on the right. *)
Definition compare_with `{Comparable T} (self other : T) (op : CmpOperator) : bool :=
  match op with
  | OpWe => matches other self
  | OpEq => partial_eq self other
  | OpNe => negb (partial_eq self other)
  | OpGt => is_gt (partial_cmp self other)
  | OpGe => is_ge (partial_cmp self other)
  | OpLt => is_lt (partial_cmp self other)
  | OpLe => is_le (partial_cmp self other)
  end.

Definition default_compare `{Comparable T} (left right : T) (op : CmpOperator) : bool :=
  match op with
  | OpWe => matches right left
  | OpEq => partial_eq left right
  | OpNe => negb (partial_eq left right)
  | OpGt => is_gt (partial_cmp left right)
  | OpGe => is_ge (partial_cmp left right)
  | OpLt => is_lt (partial_cmp left right)
  | OpLe => is_le (partial_cmp left right)
  end.

(** ** Evaluation *)

(** [ValueGetter<T>] *)
Class ValueGetter (V T : Type) := getter_value : V -> string -> option T.

Section Evaluate.
Context {T V : Type} `{ValueGetter V T}.

(** The trait-based evaluators ([ConditionEvaluator]) and [cmp_is_true], which
    the code calls with the two branches of a node. *)
Section Trait.
Context `{Comparable T}.

Definition evaluate_comparison (c : Comparison T) (data : V) : bool :=
  match getter_value data (var_name c) with
  | Some var_obj => compare_with var_obj (right_const c) (compare_op c)
  | None => false
  end.

Definition cmp_is_true {E : Type} (eval : E -> bool) (op : LogicOperator) (lhs : option E) (rhs : E) : bool :=
  match op with
  | OpAnd => match lhs with
             | Some l => if eval l then eval rhs else false
             | None => eval rhs
             end
  | OpOr => match lhs with
            | Some l => if eval l then true else eval rhs
            | None => eval rhs
            end
  | OpNot => negb (eval rhs)
  end.

Fixpoint evaluate_expression (e : Expression T) (data : V) : bool :=
  match e with
  | Logic logic => evaluate_logical logic data
  | Compare compare => evaluate_comparison compare data
  end
with evaluate_logical (e : LogicalExpress T) (data : V) : bool :=
  let '(mkLogical op lhs rhs) := e in
  cmp_is_true (fun e => evaluate_expression e data) op lhs rhs.
End Trait.

(** The function-style evaluators: a getter and a comparator are passed.  The
    right branch is always evaluated, before the left one. *)
Section Functions.
Variable get : string -> option T.
Variable compare : T -> T -> CmpOperator -> bool.

Definition evaluate_cmp_with (c : Comparison T) : bool :=
  match get (var_name c) with
  | Some var => compare var (right_const c) (compare_op c)
  | None => false
  end.

Fixpoint evaluate_expression_with (e : Expression T) : bool :=
  match e with
  | Compare c => evaluate_cmp_with c
  | Logic l => evaluate_with l
  end
with evaluate_with (e : LogicalExpress T) : bool :=
  let '(mkLogical op lhs rhs) := e in
  match op with
  | OpAnd => let r := evaluate_expression_with rhs in
             match lhs with
             | Some l => evaluate_expression_with l && r
             | None => r
             end
  | OpOr => let r := evaluate_expression_with rhs in
            match lhs with
            | Some l => evaluate_expression_with l || r
            | None => r
            end
  | OpNot => negb (evaluate_expression_with rhs)
  end.
End Functions.

(** The same through a [ValueGetter]. *)
Definition evaluate_cmp_with_getter (compare : T -> T -> CmpOperator -> bool) (c : Comparison T) (get : V) : bool :=
  match getter_value get (var_name c) with
  | Some var => compare var (right_const c) (compare_op c)
  | None => false
  end.

Fixpoint evaluate_expression_with_getter (compare : T -> T -> CmpOperator -> bool) (e : Expression T) (get : V)
    : bool :=
  match e with
  | Compare c => evaluate_cmp_with_getter compare c get
  | Logic l => evaluate_with_getter compare l get
  end
with evaluate_with_getter (compare : T -> T -> CmpOperator -> bool) (e : LogicalExpress T) (get : V) : bool :=
  let '(mkLogical op lhs rhs) := e in
  match op with
  | OpAnd => let r := evaluate_expression_with_getter compare rhs get in
             match lhs with
             | Some l => evaluate_expression_with_getter compare l get && r
             | None => r
             end
  | OpOr => let r := evaluate_expression_with_getter compare rhs get in
            match lhs with
            | Some l => evaluate_expression_with_getter compare l get || r
            | None => r
            end
  | OpNot => negb (evaluate_expression_with_getter compare rhs get)
  end.
End Evaluate.

(** ** The cache of compiled patterns *)

Section Lru.
Context {W : Type}.
Variable wildmatch_new : string -> W.

Record Lru := mkLru { map_ : gmap string W; order : list string; cap : Z }.

Definition Lru_new (cap : Z) : Lru := mkLru ∅ [] cap.

(** [position] of the key, [remove] at it, [push] of the key it returns. *)
Definition touch (l : Lru) (key : string) : Lru :=
  match list_find (eq key) (order l) with
  | Some (pos, k) => mkLru (map_ l) (delete pos (order l) ++ [k]) (cap l)
  | None => l
  end.

(** [get_or_put]; the [unwrap] of a key that is contained cannot fail. *)
Definition get_or_put (l : Lru) (pat : string) : W * Lru :=
  match map_ l !! pat with
  | Some w => (w, touch l pat)
  | None =>
      let compiled := wildmatch_new pat in
      let '(m, o) :=
        if cap l <=? zlen (order l) then
          (match order l with old :: _ => delete old (map_ l) | [] => map_ l end, tail (order l))
        else (map_ l, order l) in
      (compiled, mkLru (<[pat := compiled]> m) (o ++ [pat]) (cap l))
  end.
End Lru.
Arguments Lru : clear implicits.

(** [lru_capacity_from_env]: at least 8, at most 4096, 256 by default. *)
Definition lru_capacity_from_env (env : option string) : Z :=
  match env ≫= parse_usize with
  | Some v => if 8 <=? v then Z.min v 4096 else 256
  | None => 256
  end.

(** ** Comparing and evaluating on data records *)

Section Records.
Context {W : Type}.
Variable wildmatch_new : string -> W.
Variable wm_matches : W -> string -> bool.

(** [WildcardMatcher for String] ([ArcStr], [SmolStr]) with the thread's cache. *)
Definition string_matches (cache : Lru W) (self other : string) : bool * Lru W :=
  let '(wm, cache) := get_or_put wildmatch_new cache self in (wm_matches wm other, cache).

(** The cache never changes an answer ([we_cache_is_lru]), so that comparisons
    are functions of the values. *)
Definition string_comparable : Comparable string := {|
  partial_eq := String.eqb;
  partial_cmp a b := Some (String.compare a b);
  matches pat other := wm_matches (wildmatch_new pat) other
|}.
#[local] Existing Instance string_comparable.
Definition bool_comparable : Comparable bool := {|
  partial_eq := Bool.eqb;
  partial_cmp a b := Some (Bool.compare a b);
  matches := Bool.eqb
|}.
#[local] Existing Instance bool_comparable.
Definition int_comparable : Comparable Z := {|
  partial_eq := Z.eqb;
  partial_cmp a b := Some (Z.compare a b);
  matches := Z.eqb
|}.
#[local] Existing Instance int_comparable.
Definition nat_comparable : Comparable N := {|
  partial_eq := N.eqb;
  partial_cmp a b := Some (N.compare a b);
  matches := N.eqb
|}.
#[local] Existing Instance nat_comparable.

Context `{ValueTypes}.

(** [compare_datafield], on the fields' values. *)
Definition compare_values (l r : Value) (op : CmpOperator) : bool :=
  match r with
  | Ignore_ => true
  | _ =>
      match l, r with
      | Chars v1, Chars v2 => default_compare v1 v2 op
      | Symbol v1, Symbol v2 => default_compare v1 v2 op
      | TimeV v1, TimeV v2 => default_compare v1 v2 op
      | BoolV v1, BoolV v2 => default_compare v1 v2 op
      | IntV v1, IntV v2 => default_compare v1 v2 op
      | BigUint v1, BigUint v2 =>
          match op with
          | OpEq => (v1 =? v2)%N
          | OpNe => negb (v1 =? v2)%N
          | OpGt => (v2 <? v1)%N
          | OpGe => (v2 <=? v1)%N
          | OpLt => (v1 <? v2)%N
          | OpLe => (v1 <=? v2)%N
          | OpWe => false
          end
      | Hex v1, Hex v2 => default_compare v1 v2 op
      | FloatV v1, FloatV v2 => default_compare v1 v2 op
      | IpNetV v1, IpNetV v2 =>
          match op with
          | OpEq => ipnet_eqb v1 v2
          | OpNe => negb (ipnet_eqb v1 v2)
          | _ => false
          end
      | IpAddrV v1, IpAddrV v2 => default_compare v1 v2 op
      | Domain v1, Domain v2 => default_compare v1 v2 op
      | Email v1, Email v2 => default_compare v1 v2 op
      | Url v1, Url v2 => default_compare v1 v2 op
      | IdCard v1, IdCard v2 => default_compare v1 v2 op
      | MobilePhone v1, MobilePhone v2 => default_compare v1 v2 op
      | Null, Null => true
      | _, _ => false
      end
  end.

Context {F R : Type} `{!DataApi F R}.

Definition compare_datafield (l r : F) (op : CmpOperator) : bool :=
  compare_values (get_value l) (get_value r) op.

(** [RecordGetter] *)
Definition RecordGetter : ValueGetter R F := fun rec var => field rec var.
#[local] Existing Instance RecordGetter.

(** [conditions::evaluate_expr] and [evaluate_expression] *)
Definition record_evaluate_expr (e : LogicalExpress F) (data : R) : bool :=
  evaluate_with_getter compare_datafield e data.
Definition record_evaluate_expression (e : Expression F) (data : R) : bool :=
  evaluate_expression_with_getter compare_datafield e data.
End Records.

(** ** Lemmas *)

(** Induction over a tree: the branches of a node are expressions. *)
Lemma Expression_tree_ind {T} (P : Expression T -> Prop)
  (Hcmp : forall c, P (Compare c))
  (Hlog : forall op lhs rhs, (forall l, lhs = Some l -> P l) -> P rhs -> P (Logic (mkLogical op lhs rhs))) :
  forall e, P e.
Proof.
  fix IH 1. intros [[op lhs rhs]|c]; [|apply Hcmp].
  apply Hlog; [|apply IH]. intros l Hl. destruct lhs as [l0|]; [|discriminate].
  pose proof (IH l0) as Hl0. congruence.
Qed.

Section Equations.
Context {T V : Type} `{ValueGetter V T} `{Comparable T}.

Lemma evaluate_logic op lhs rhs (data : V) :
  evaluate_expression (Logic (mkLogical op lhs rhs)) data
  = cmp_is_true (fun e : Expression T => evaluate_expression e data) op lhs rhs.
Proof. reflexivity. Qed.

Lemma evaluate_getter_logic cmp op lhs rhs (data : V) :
  evaluate_expression_with_getter cmp (Logic (mkLogical op lhs rhs)) data
  = cmp_is_true (fun e : Expression T => evaluate_expression_with_getter cmp e data) op lhs rhs.
Proof.
  destruct op, lhs; cbn; try done; by destruct (evaluate_expression_with_getter cmp e data).
Qed.

Lemma evaluate_with_logic get cmp op lhs rhs :
  evaluate_expression_with get cmp (Logic (mkLogical op lhs rhs))
  = cmp_is_true (fun e : Expression T => evaluate_expression_with get cmp e) op lhs rhs.
Proof. destruct op, lhs; cbn; try done; by destruct (evaluate_expression_with get cmp e). Qed.

(** A node's value depends on its branches' values only. *)
Lemma cmp_is_true_ext {E : Type} (f g : E -> bool) op lhs rhs :
  (forall l, lhs = Some l -> f l = g l) -> f rhs = g rhs ->
  cmp_is_true f op lhs rhs = cmp_is_true g op lhs rhs.
Proof. intros Hl Hr. destruct op, lhs as [l|]; cbn; rewrite ?Hr, ?(Hl l eq_refl); done. Qed.
End Equations.

(** The least recently used discipline: the patterns of a history by their
    last use, oldest first. *)
Definition recency (history : list string) : list string :=
  foldl (fun r p => filter (fun q => q <> p) r ++ [p]) [] history.

Fixpoint lookups {W} (wildmatch_new : string -> W) (l : Lru W) (history : list string) : list W * Lru W :=
  match history with
  | [] => ([], l)
  | p :: ps =>
      let '(w, l) := get_or_put wildmatch_new l p in
      let '(ws, l) := lookups wildmatch_new l ps in (w :: ws, l)
  end.

Lemma filter_not_elem (p : string) (l : list string) : p ∉ l -> filter (fun q => q <> p) l = l.
Proof. intros Hp. apply filter_all, Forall_forall. by intros q Hq ->. Qed.

Lemma list_find_split (p : string) (pre post : list string) :
  p ∉ pre -> list_find (eq p) (pre ++ p :: post) = Some (length pre, p).
Proof.
  intros Hp. apply list_find_Some. split; [by rewrite list_lookup_middle|]. split; [done|].
  intros j y Hy Hlt -> . apply Hp. rewrite lookup_app_l in Hy by done.
  by eapply list_elem_of_lookup_2.
Qed.

Lemma NoDup_touch (p : string) (r : list string) : NoDup r -> NoDup (filter (fun q => q <> p) r ++ [p]).
Proof.
  intros Hr. apply NoDup_app. split; [by apply NoDup_filter|].
  split; [|apply NoDup_singleton]. intros q [Hq _]%list_elem_of_filter ->%list_elem_of_singleton. done.
Qed.

Section LruLaws.
Context {W : Type}.
Variable wildmatch_new : string -> W.

(** The cache after a history: it holds the compiled patterns of [order], which
    are the last of the history's recency list, as many as fit. *)
Record lru_inv (l : Lru W) (rec : list string) : Prop := {
  li_nodup : NoDup rec;
  li_order : exists pre, rec = pre ++ order l /\ (pre = [] \/ zlen (order l) = cap l);
  li_cap : zlen (order l) <= cap l;
  li_map p : map_ l !! p = if bool_decide (p ∈ order l) then Some (wildmatch_new p) else None;
}.

Lemma touch_order (l : Lru W) p pre post :
  order l = pre ++ p :: post -> p ∉ pre ->
  touch l p = mkLru (map_ l) (pre ++ post ++ [p]) (cap l).
Proof.
  intros Ho Hp. unfold touch. rewrite Ho, list_find_split by done.
  by rewrite delete_middle, <- app_assoc.
Qed.

Lemma filter_ne_middle (p : string) (pre post : list string) :
  NoDup (pre ++ p :: post) -> filter (fun q => q <> p) (pre ++ p :: post) = pre ++ post.
Proof.
  rewrite NoDup_app, NoDup_cons. intros (_ & Hd & Hp & _).
  rewrite filter_app, filter_cons_False by (by intros []).
  rewrite !filter_not_elem; [done|done|]. intros Hin. apply (Hd p Hin). by left.
Qed.

Lemma get_or_put_hit l rec p :
  lru_inv l rec -> p ∈ order l ->
  let '(w, l') := get_or_put wildmatch_new l p in
  w = wildmatch_new p /\ lru_inv l' (filter (fun q => q <> p) rec ++ [p]) /\ cap l' = cap l.
Proof.
  intros [Hnd (pre & -> & Hpre) Hcap Hmap] Hin. unfold get_or_put.
  rewrite Hmap, bool_decide_true by done.
  apply list_elem_of_split in Hin as (o1 & o2 & Ho).
  pose proof (NoDup_touch p _ Hnd) as Hnd'.
  rewrite Ho, app_assoc in Hnd.
  assert (p ∉ pre ++ o1) as Hp by (apply NoDup_app in Hnd as (_ & Hd & _); intros Hx; apply (Hd p Hx); by left).
  rewrite (touch_order l p o1 o2 Ho) by (intros ?; apply Hp, elem_of_app; by right).
  assert (filter (fun q => q <> p) (pre ++ order l) = (pre ++ o1) ++ o2) as Hf.
  { rewrite Ho, app_assoc. by apply filter_ne_middle. }
  rewrite Hf in Hnd' |- *.
  assert (Permutation (o1 ++ o2 ++ [p]) (o1 ++ p :: o2)) as Hperm by solve_Permutation.
  assert (zlen (o1 ++ o2 ++ [p]) = zlen (order l)) as Hlen.
  { rewrite Ho. unfold zlen. by rewrite (Permutation_length Hperm). }
  split; [done|]. split; [|done]. split; cbn [map_ order cap].
  - exact Hnd'.
  - exists pre. rewrite Hlen. split; [by rewrite <- !app_assoc|done].
  - by rewrite Hlen.
  - intros q. rewrite Hmap, Ho. erewrite bool_decide_ext; [done|]. by rewrite Hperm.
Qed.

Lemma get_or_put_miss l rec p :
  lru_inv l rec -> 0 < cap l -> p ∉ order l ->
  let '(w, l') := get_or_put wildmatch_new l p in
  w = wildmatch_new p /\ lru_inv l' (filter (fun q => q <> p) rec ++ [p]) /\ cap l' = cap l.
Proof.
  intros [Hnd (pre & -> & Hpre) Hcap Hmap] Hpos Hin. unfold get_or_put.
  rewrite Hmap, bool_decide_false by done.
  pose proof (NoDup_touch p _ Hnd) as Hnd'.
  rewrite filter_app, (filter_not_elem p (order l)) in Hnd' |- * by done.
  destruct (Z.leb_spec (cap l) (zlen (order l))) as [Hfull|Hroom].
  - destruct (order l) as [|old o] eqn:Ho; [rewrite zlen_nil in Hfull; lia|].
    rewrite zlen_cons in Hcap, Hfull. cbn [tail].
    split; [done|]. split; [|done]. split; cbn [map_ order cap]; [exact Hnd'| | |].
    + exists (filter (fun q => q <> p) pre ++ [old]). rewrite zlen_app, zlen_cons, zlen_nil.
      split; [by rewrite <- !app_assoc|right; lia].
    + rewrite zlen_app, zlen_cons, zlen_nil. lia.
    + intros q. apply NoDup_app in Hnd as (_ & _ & [Hold _]%NoDup_cons).
      destruct (decide (q = p)) as [->|Hqp]; [by rewrite lookup_insert_eq, bool_decide_true by set_solver|].
      rewrite lookup_insert_ne by done. destruct (decide (q = old)) as [->|Hqo].
      * rewrite lookup_delete_eq, bool_decide_false; [done|set_solver].
      * rewrite lookup_delete_ne, Hmap by done. erewrite bool_decide_ext; [done|set_solver].
  - destruct Hpre as [->|]; [|lia]. split; [done|]. split; [|done].
    split; cbn [map_ order cap]; [exact Hnd'| | |].
    + exists []. by split; [|left].
    + rewrite zlen_app, zlen_cons, zlen_nil. lia.
    + intros q. destruct (decide (q = p)) as [->|Hqp];
        [by rewrite lookup_insert_eq, bool_decide_true by set_solver|].
      rewrite lookup_insert_ne, Hmap by done. erewrite bool_decide_ext; [done|set_solver].
Qed.

Lemma get_or_put_inv l rec p :
  lru_inv l rec -> 0 < cap l ->
  let '(w, l') := get_or_put wildmatch_new l p in
  w = wildmatch_new p /\ lru_inv l' (filter (fun q => q <> p) rec ++ [p]) /\ cap l' = cap l.
Proof.
  intros Hl Hcap. destruct (decide (p ∈ order l)); [by apply get_or_put_hit|by apply get_or_put_miss].
Qed.

Lemma lookups_inv history l rec :
  lru_inv l rec -> 0 < cap l ->
  let '(ws, l') := lookups wildmatch_new l history in
  ws = map wildmatch_new history /\ cap l' = cap l /\
  lru_inv l' (foldl (fun r p => filter (fun q => q <> p) r ++ [p]) rec history).
Proof.
  revert l rec. induction history as [|p ps IH]; intros l rec Hl Hcap; [done|]. cbn [lookups foldl].
  pose proof (get_or_put_inv l rec p Hl Hcap) as Hp.
  destruct (get_or_put _ l p) as [w l1]. destruct Hp as (-> & Hl1 & Hc).
  pose proof (IH l1 _ Hl1 ltac:(lia)) as Hps.
  destruct (lookups _ l1 ps) as [ws l2]. destruct Hps as (-> & Hc2 & Hl2).
  split; [done|]. split; [by rewrite Hc2|done].
Qed.

Lemma lru_inv_new (c : Z) : 0 <= c -> lru_inv (Lru_new (W:=W) c) [].
Proof.
  intros Hc. split; cbn [Lru_new map_ order cap].
  - constructor.
  - exists []. by split; [|left].
  - rewrite zlen_nil. lia.
  - intros p. by rewrite lookup_empty.
Qed.
End LruLaws.

(** ** Properties *)

(** A condition has one meaning: the trait-based evaluator, the
    function-style one and the one through a getter give the same answer on
    every tree, however the shortcuts of the first order the evaluation; and the
    builder's nodes mean conjunction, disjunction and negation. *)
Theorem evaluators_agree {T V : Type} `{ValueGetter V T} `{Comparable T} (e : Expression T) (data : V) :
  evaluate_expression_with_getter default_compare e data = evaluate_expression e data /\
  evaluate_expression_with (getter_value data) default_compare e = evaluate_expression e data /\
  forall e', evaluate_expression (build (builder_and e e')) data
               = evaluate_expression e data && evaluate_expression e' data /\
             evaluate_expression (build (builder_or e e')) data
               = evaluate_expression e data || evaluate_expression e' data /\
             evaluate_expression (build (builder_not e)) data = negb (evaluate_expression e data).
Proof.
  split; [|split].
  - induction e as [c|op lhs rhs Hl Hr] using Expression_tree_ind; [done|].
    rewrite evaluate_getter_logic, evaluate_logic. by apply cmp_is_true_ext.
  - induction e as [c|op lhs rhs Hl Hr] using Expression_tree_ind; [done|].
    rewrite evaluate_with_logic, evaluate_logic. by apply cmp_is_true_ext.
  - intros e'. unfold build. rewrite !evaluate_logic. cbn [builder_and builder_or builder_not cmp_is_true
      b_operator b_left b_right].
    by destruct (evaluate_expression e data).
Qed.

(** The cache of compiled patterns is transparent and bounded: whatever the
    environment says about its capacity and whatever patterns are looked up,
    every lookup gives the pattern's own compilation, and the cache holds
    exactly the compilations of the most recently used distinct patterns, as
    many as its capacity (8 to 4096) admits, in the order of their last use. *)
Theorem we_cache_is_lru {W : Type} (wildmatch_new : string -> W) (env : option string)
  (history : list string) :
  let '(ws, l) := lookups wildmatch_new (Lru_new (lru_capacity_from_env env)) history in
  ws = map wildmatch_new history /\ 8 <= cap l <= 4096 /\
  order l = drop (length (recency history) - Z.to_nat (cap l)) (recency history) /\
  forall p, map_ l !! p = if bool_decide (p ∈ order l) then Some (wildmatch_new p) else None.
Proof.
  assert (8 <= lru_capacity_from_env env <= 4096) as Hc.
  { unfold lru_capacity_from_env. case_match; [|lia]. case_match; bool_to_prop; lia. }
  set (c := lru_capacity_from_env env) in *.
  pose proof (lookups_inv wildmatch_new history (Lru_new c) []) as Hl.
  specialize (Hl (lru_inv_new wildmatch_new c ltac:(lia)) ltac:(cbn; lia)).
  destruct (lookups _ _ _) as [ws l]. destruct Hl as (-> & Hcap & [_ (pre & Hrec & Hpre) Hlen Hmap]).
  cbn in Hcap. split; [done|]. split; [lia|]. split; [|exact Hmap].
  change (recency history) with (foldl (fun r p => filter (fun q => q <> p) r ++ [p]) [] history).
  rewrite Hrec, length_app. unfold zlen in *.
  destruct Hpre as [->|Hfull].
  - cbn [length app]. replace (_ - _)%nat with 0%nat by lia. done.
  - replace (_ - _)%nat with (length pre) by lia. by rewrite drop_app_length.
Qed.
