(* ===== verification/Tags.v ===== *)
(** Instance-wide tags of records ([src/core/parser/global_tags.rs]): parsing
    [WP_GLOBAL_TAGS] and stamping the tags on a record.

    A [BTreeMap] of strings is a list sorted by key; JSON is parsed by a crate
    outside the repository. *)
From Stdlib Require Import ZArith Lia Ascii String Sorted.
From stdpp Require Import prelude strings.
From S2P Require Import Prelude Text DataModel.
Local Open Scope string_scope.
Local Open Scope list_scope.
Local Open Scope Z_scope.

Definition GLOBAL_TAGS_ENV : string := "WP_GLOBAL_TAGS".
Definition RESERVED_PREFIX : string := "wp_".

(** ** The map *)

Fixpoint btree_insert (k v : string) (m : list (string * string)) : list (string * string) :=
  match m with
  | [] => [(k, v)]
  | (k', v') :: m' =>
      match String.compare k k' with
      | Lt => (k, v) :: m
      | Eq => (k, v) :: m'
      | Gt => (k', v') :: btree_insert k v m'
      end
  end.

Record GlobalTags := mkTags { tags : list (string * string) }.

Definition GlobalTags_default : GlobalTags := mkTags [].

Definition from_pairs (pairs : list (string * string)) : GlobalTags :=
  mkTags (foldl (fun m p => btree_insert p.1 p.2 m) [] pairs).

Definition contains (t : GlobalTags) (key : string) : bool :=
  bool_decide (key ∈ map fst (tags t)).
Definition to_map (t : GlobalTags) : list (string * string) := tags t.
Definition is_empty (t : GlobalTags) : bool := bool_decide (tags t = []).

(** ** Parsing the variable *)

Inductive TagsError :=
  | ReadFailed | JsonFailed (err : string) | NotKeyValue (item : string) | EmptyKey
  | ReservedKey (key : string).

(** [str::split] at a character: never empty. *)
Fixpoint split_chars (c : ascii) (l : list ascii) : list (list ascii) :=
  match l with
  | [] => [[]]
  | d :: r =>
      if bool_decide (d = c) then [] :: split_chars c r
      else match split_chars c r with
           | s :: ss => (d :: s) :: ss
           | [] => [[d]]
           end
  end.
Definition str_split (c : ascii) (s : string) : list string :=
  map string_of_list_ascii (split_chars c (list_ascii_of_string s)).

(** [str::split_once] *)
Fixpoint split_once_chars (c : ascii) (l : list ascii) : option (list ascii * list ascii) :=
  match l with
  | [] => None
  | d :: r =>
      if bool_decide (d = c) then Some ([], r)
      else match split_once_chars c r with
           | Some (a, b) => Some (d :: a, b)
           | None => None
           end
  end.
Definition str_split_once (c : ascii) (s : string) : option (string * string) :=
  match split_once_chars c (list_ascii_of_string s) with
  | Some (a, b) => Some (string_of_list_ascii a, string_of_list_ascii b)
  | None => None
  end.

Fixpoint validate_pairs (pairs : list (string * string)) : list (string * string) + TagsError :=
  match pairs with
  | [] => inl []
  | (key, value) :: rest =>
      if bool_decide (key = "") then inr EmptyKey
      else if String.prefix RESERVED_PREFIX key then inr (ReservedKey key)
      else match validate_pairs rest with
           | inl out => inl ((key, value) :: out)
           | inr e => inr e
           end
  end.

(** The loop over the comma-separated items. *)
Fixpoint parse_items (items : list string) : list (string * string) + TagsError :=
  match items with
  | [] => inl []
  | item :: rest =>
      let item := str_trim item in
      if bool_decide (item = "") then parse_items rest
      else match str_split_once "=" item with
           | None => inr (NotKeyValue item)
           | Some (key, value) =>
               let key := str_trim key in
               let value := str_trim value in
               if bool_decide (key = "") then inr EmptyKey
               else match parse_items rest with
                    | inl pairs => inl ((key, value) :: pairs)
                    | inr e => inr e
                    end
           end
  end.

Section Parse.
(** [serde_json::from_str] to a [BTreeMap<String, String>]. *)
Variable json_from_str : string -> list (string * string) + string.

Definition parse_global_tags (raw : string) : list (string * string) + TagsError :=
  let raw := str_trim raw in
  if bool_decide (raw = "") then inl []
  else if String.prefix "{" raw then
    match json_from_str raw with
    | inr err => inr (JsonFailed err)
    | inl m => validate_pairs m
    end
  else match parse_items (str_split "," raw) with
       | inr e => inr e
       | inl pairs => validate_pairs pairs
       end.

(** What [std::env::var] answers. *)
Inductive EnvVar := VarOk (raw : string) | NotPresent | NotUnicode.

Definition from_env_var (var : EnvVar) : GlobalTags + TagsError :=
  match var with
  | VarOk raw => match parse_global_tags raw with
                 | inl pairs => inl (from_pairs pairs)
                 | inr e => inr e
                 end
  | NotPresent => inl GlobalTags_default
  | NotUnicode => inr ReadFailed
  end.
End Parse.

(** ** Stamping a record *)

Section Apply.
Context `{DataApi F R}.

(** [while record.remove_field(key) {}]; one item more than the record has is
    fuel enough. *)
Fixpoint remove_fields (fuel : nat) (r : R) (key : string) : option R :=
  match fuel with
  | O => None
  | S fuel => match remove_field r key with
              | (true, r) => remove_fields fuel r key
              | (false, r) => Some r
              end
  end.

Fixpoint apply_tags (r : R) (ts : list (string * string)) : option R :=
  match ts with
  | [] => Some r
  | (key, value) :: ts =>
      match remove_fields (S (length (items r))) r key with
      | Some r => apply_tags (append r (from_chars key value)) ts
      | None => None
      end
  end.

Definition apply_global_tags (r : R) (t : GlobalTags) : option R := apply_tags r (tags t).
End Apply.

(** ** Lemmas on the map *)

Definition sorted_keys (m : list (string * string)) : Prop :=
  StronglySorted (fun a b => String.compare a b = Lt) (map fst m).

Lemma compare_lt_trans a b c :
  String.compare a b = Lt -> String.compare b c = Lt -> String.compare a c = Lt.
Proof.
  revert b c. induction a as [|x a IH]; intros [|y b] [|z c]; cbn; try done.
  unfold Ascii.compare.
  destruct (N.compare_spec (N_of_ascii x) (N_of_ascii y)) as [Exy|Exy|Exy]; try done;
  destruct (N.compare_spec (N_of_ascii y) (N_of_ascii z)) as [Eyz|Eyz|Eyz]; try done; intros H1 H2;
  destruct (N.compare_spec (N_of_ascii x) (N_of_ascii z)); try done; try lia.
  by apply (IH b).
Qed.

Lemma compare_gt_lt a b : String.compare a b = Gt -> String.compare b a = Lt.
Proof. rewrite String.compare_antisym. by destruct (String.compare b a). Qed.

Lemma compare_lt_ne a b : String.compare a b = Lt -> a <> b.
Proof.
  intros Hc ->. pose proof (String.compare_antisym b b) as Ha. rewrite Hc in Ha. done.
Qed.

Lemma btree_insert_keys k v m x :
  x ∈ map fst (btree_insert k v m) <-> x = k \/ x ∈ map fst m.
Proof.
  induction m as [|[k' v'] m IH]; cbn [btree_insert]; [cbn; set_solver|].
  destruct (String.compare k k') eqn:E; cbn [map fst]; [|set_solver|set_solver].
  apply String.compare_eq_iff in E as ->. set_solver.
Qed.

Lemma btree_insert_sorted k v m : sorted_keys m -> sorted_keys (btree_insert k v m).
Proof.
  unfold sorted_keys. induction m as [|[k' v'] m IH]; cbn [btree_insert map fst]; [repeat constructor|].
  intros [Hs Hf]%StronglySorted_inv. destruct (String.compare k k') eqn:E; cbn [map fst].
  - apply String.compare_eq_iff in E as ->. by constructor.
  - constructor; [by constructor|]. constructor; [done|].
    eapply Forall_impl; [exact Hf|]. intros x Hx. by eapply compare_lt_trans.
  - constructor; [by apply IH|]. apply Forall_forall. intros x Hx.
    apply btree_insert_keys in Hx as [->|Hx]; [by apply compare_gt_lt|].
    by eapply Forall_forall in Hf.
Qed.

(** Pairs inserted one by one: the keys are those of the pairs, sorted, and a
    key's value is the last one given. *)
Lemma btree_insert_in k v m q w :
  sorted_keys m -> (q, w) ∈ btree_insert k v m <-> (q = k /\ w = v) \/ (q <> k /\ (q, w) ∈ m).
Proof.
  induction m as [|[k' v'] m IH]; cbn [btree_insert]; [set_solver|]. intros Hs.
  unfold sorted_keys in Hs. cbn [map fst] in Hs. apply StronglySorted_inv in Hs as [Hs Hf].
  assert (forall x y, (x, y) ∈ m -> String.compare k' x = Lt) as Hlt.
  { intros x y Hxy. eapply Forall_forall in Hf; [exact Hf|]. by apply (list_elem_of_fmap_2 fst _ (x, y)). }
  destruct (String.compare k k') eqn:E.
  - apply String.compare_eq_iff in E as ->. rewrite !elem_of_cons. split.
    + intros [[= -> ->]|Hin]; [by left|]. right. split; [|by right].
      intros ->. by apply (compare_lt_ne _ _ (Hlt _ _ Hin)).
    + intros [[-> ->]|[Hne [[= -> ->]|Hin]]]; [by left|done|by right].
  - rewrite !elem_of_cons. split.
    + intros [[= -> ->]|[[= -> ->]|Hin]]; [by left| |].
      * right. split; [|by left]. intros <-. by apply (compare_lt_ne _ _ E).
      * right. split; [|by right]. intros ->.
        by apply (compare_lt_ne k k (compare_lt_trans _ _ _ E (Hlt _ _ Hin))).
    + intros [[-> ->]|[Hne Hin]]; [by left|by right].
  - rewrite !elem_of_cons, IH by done. split.
    + intros [[= -> ->]|[[-> ->]|[Hne Hin]]]; [|by left|right; split; [done|by right]].
      right. split; [|by left]. apply compare_gt_lt in E. by apply (compare_lt_ne _ _ E).
    + intros [[-> ->]|[Hne [[= -> ->]|Hin]]]; [by right; left|by left|by right; right].
Qed.

Lemma from_pairs_sorted pairs m :
  sorted_keys m -> sorted_keys (foldl (fun m p => btree_insert p.1 p.2 m) m pairs).
Proof.
  revert m. induction pairs as [|[k v] pairs IH]; intros m Hm; [done|]. cbn.
  apply IH. by apply btree_insert_sorted.
Qed.

Lemma sorted_keys_NoDup m : sorted_keys m -> NoDup (map fst m).
Proof.
  unfold sorted_keys. induction (map fst m) as [|k ks IH]; [constructor|].
  intros [Hs Hf]%StronglySorted_inv. constructor; [|by apply IH].
  intros Hin. eapply Forall_forall in Hf; [|exact Hin]. by apply (compare_lt_ne _ _ Hf).
Qed.

Lemma btree_insert_last m k v :
  Forall (fun q => String.compare q k = Lt) (map fst m) -> btree_insert k v m = m ++ [(k, v)].
Proof.
  induction m as [|[k' v'] m IH]; [done|]. cbn [map fst btree_insert app]. intros [Hk Hm]%Forall_cons.
  rewrite String.compare_antisym, Hk. cbn [CompOpp]. by rewrite IH.
Qed.

Lemma from_sorted_pairs m l :
  sorted_keys (m ++ l) -> foldl (fun m p => btree_insert p.1 p.2 m) m l = m ++ l.
Proof.
  revert m. induction l as [|[k v] l IH]; intros m Hs; cbn [foldl fst snd]; [by rewrite app_nil_r|].
  rewrite btree_insert_last.
  - rewrite IH; rewrite <- app_assoc; done.
  - unfold sorted_keys in Hs. rewrite map_app in Hs. cbn [map fst] in Hs.
    apply Forall_forall. intros q Hq. clear IH. induction (map fst m) as [|q' ks IH]; [by apply not_elem_of_nil in Hq|].
    cbn [app] in Hs. apply StronglySorted_inv in Hs as [Hs Hf]. apply elem_of_cons in Hq as [->|Hq]; [|by apply IH].
    eapply Forall_forall in Hf; [exact Hf|]. apply elem_of_app. right. by left.
Qed.

(** ** Lemmas on text *)

Lemma string_app_assoc a b c : ((a ++ b) ++ c = a ++ (b ++ c))%string.
Proof. induction a as [|x a IH]; [done|]. exact (f_equal (String x) IH). Qed.

Lemma split_chars_end c l : Forall (fun d => d <> c) l -> split_chars c l = [l].
Proof. induction 1 as [|d l Hd _ IH]; [done|]. cbn. by rewrite bool_decide_false, IH. Qed.

Lemma split_chars_sep c l r : Forall (fun d => d <> c) l -> split_chars c (l ++ c :: r) = l :: split_chars c r.
Proof.
  induction 1 as [|d l Hd _ IH]; cbn; [by rewrite bool_decide_true|]. by rewrite bool_decide_false, IH.
Qed.

Lemma split_once_sep c l r :
  Forall (fun d => d <> c) l -> split_once_chars c (l ++ c :: r) = Some (l, r).
Proof.
  induction 1 as [|d l Hd _ IH]; cbn; [by rewrite bool_decide_true|]. by rewrite bool_decide_false, IH.
Qed.

(** ** Reading back what is written as [k=v,k=v] *)

Definition render_pair (p : string * string) : string := (p.1 ++ "=" ++ p.2)%string.

Fixpoint render_pairs (pairs : list (string * string)) : string :=
  match pairs with
  | [] => ""
  | [p] => render_pair p
  | p :: rest => (render_pair p ++ "," ++ render_pairs rest)%string
  end.

(** A pair the plain form can carry: a key that is not empty, has no
    separator, does not start with the reserved prefix or a brace, and a value
    without commas; neither has white space at an end.  Both begin where a
    character does, as every text of the language. *)
Record plain_pair (p : string * string) : Prop := {
  pp_nonempty : p.1 <> "";
  pp_key : Forall (fun c => c <> ","%char /\ c <> "="%char) (list_ascii_of_string p.1);
  pp_key_clean : clean p.1;
  pp_reserved : String.prefix RESERVED_PREFIX p.1 = false;
  pp_brace : String.prefix "{" p.1 = false;
  pp_value : clean p.2;
  pp_comma : Forall (fun c => c <> ","%char) (list_ascii_of_string p.2);
  pp_text : boundary (list_ascii_of_string p.1) /\ boundary (list_ascii_of_string p.2);
}.

Lemma chars_ne s : s <> "" -> chars s <> [].
Proof. intros Hs Hc. apply Hs. by rewrite <- (of_chars_chars s), Hc. Qed.

(** The ends of a text put together. *)
Lemma clean_app a b : boundary (list_ascii_of_string b) -> a <> "" -> b <> "" ->
  (forall c, head (chars a) = Some c -> is_white c = false) -> (forall c, last (chars b) = Some c -> is_white c = false) ->
  clean (a +:+ b).
Proof.
  intros Hb Ha Hn Hh Hl. unfold clean. rewrite chars_app by done. split; intros c Hc.
  - apply Hh. destruct (chars a) eqn:E; [by apply chars_ne in Ha|exact Hc].
  - apply Hl. rewrite last_app in Hc. destruct (last (chars b)) eqn:E; [exact Hc|].
    apply last_None in E. by apply chars_ne in Hn.
Qed.

Lemma render_pair_chars p :
  list_ascii_of_string (render_pair p) = list_ascii_of_string p.1 ++ "="%char :: list_ascii_of_string p.2.
Proof. unfold render_pair. by rewrite !list_ascii_app. Qed.

Lemma value_last v : clean v -> boundary (list_ascii_of_string v) ->
  forall c, last (chars ("=" +:+ v)) = Some c -> is_white c = false.
Proof.
  intros [_ Hl] Hb c. rewrite chars_app, last_app by done.
  destruct (last (chars v)) as [d|]; [intros [= <-]; by apply Hl|]. by intros [= <-].
Qed.

Lemma render_pair_clean p : plain_pair p -> clean (render_pair p).
Proof.
  intros Hp. unfold render_pair. apply clean_app; [done|by apply pp_nonempty|done|apply (pp_key_clean p Hp)|].
  apply value_last; [apply (pp_value p Hp)|apply (pp_text p Hp)].
Qed.

Lemma render_pair_ne p : render_pair p <> "".
Proof.
  intros He. pose proof (render_pair_chars p) as Hc. rewrite He in Hc. by destruct (list_ascii_of_string p.1).
Qed.

Lemma render_pair_no_comma p :
  plain_pair p -> Forall (fun d => d <> ","%char) (list_ascii_of_string (render_pair p)).
Proof.
  intros Hp. rewrite render_pair_chars. apply Forall_app. split.
  - eapply Forall_impl; [apply (pp_key p Hp)|]. by intros c (? & _).
  - constructor; [done|apply (pp_comma p Hp)].
Qed.

Lemma render_pair_split p : plain_pair p -> str_split_once "=" (render_pair p) = Some p.
Proof.
  intros Hp. unfold str_split_once. rewrite render_pair_chars, split_once_sep.
  - rewrite !string_of_list_ascii_of_string. by destruct p.
  - eapply Forall_impl; [apply (pp_key p Hp)|]. by intros c (_ & ?).
Qed.

Lemma render_pairs_cons p q ps :
  list_ascii_of_string (render_pairs (p :: q :: ps))
  = list_ascii_of_string (render_pair p) ++ ","%char :: list_ascii_of_string (render_pairs (q :: ps)).
Proof. cbn [render_pairs]. by rewrite !list_ascii_app. Qed.

Lemma split_render p ps :
  Forall plain_pair (p :: ps) -> str_split "," (render_pairs (p :: ps)) = map render_pair (p :: ps).
Proof.
  unfold str_split. revert p. induction ps as [|q ps IH]; intros p [Hp Hps]%Forall_cons.
  - cbn [render_pairs map]. rewrite split_chars_end by by apply render_pair_no_comma.
    cbn [map]. by rewrite string_of_list_ascii_of_string.
  - rewrite render_pairs_cons, split_chars_sep by by apply render_pair_no_comma.
    cbn [map]. rewrite IH by done. by rewrite string_of_list_ascii_of_string.
Qed.

Lemma parse_rendered ps : Forall plain_pair ps -> parse_items (map render_pair ps) = inl ps.
Proof.
  induction 1 as [|p ps Hp _ IH]; [done|]. cbn [map parse_items].
  rewrite (clean_trim (render_pair p)) by by apply render_pair_clean.
  rewrite bool_decide_false by apply render_pair_ne. rewrite render_pair_split by done.
  destruct p as [k v]. rewrite (clean_trim k (pp_key_clean _ Hp)), (clean_trim v (pp_value _ Hp)).
  rewrite bool_decide_false by apply (pp_nonempty _ Hp). by rewrite IH.
Qed.

Lemma validate_plain ps : Forall plain_pair ps -> validate_pairs ps = inl ps.
Proof.
  induction 1 as [|[k v] ps Hp _ IH]; [done|]. cbn [validate_pairs].
  rewrite bool_decide_false by apply (pp_nonempty _ Hp). rewrite (pp_reserved _ Hp : String.prefix _ k = false).
  by rewrite IH.
Qed.

Lemma render_pairs_head p ps : exists s, render_pairs (p :: ps) = (p.1 ++ s)%string.
Proof.
  destruct ps as [|q ps]; cbn [render_pairs]; unfold render_pair; [by eexists|].
  eexists. by rewrite string_app_assoc.
Qed.

Lemma render_pairs_ne p ps : render_pairs (p :: ps) <> "".
Proof.
  destruct ps as [|q ps]; cbn [render_pairs]; [apply render_pair_ne|].
  pose proof (render_pair_ne p) as Hn. by destruct (render_pair p).
Qed.

Lemma render_pairs_boundary p ps : plain_pair p -> boundary (list_ascii_of_string (render_pairs (p :: ps))).
Proof.
  intros Hp. destruct (render_pairs_head p ps) as [s ->]. rewrite list_ascii_app.
  destruct (pp_text p Hp) as [Hb _]. pose proof (pp_nonempty p Hp). by destruct p.1.
Qed.

Lemma render_pairs_clean p ps : Forall plain_pair (p :: ps) -> clean (render_pairs (p :: ps)).
Proof.
  revert p. induction ps as [|q ps IH]; intros p [Hp Hps]%Forall_cons; [by apply render_pair_clean|].
  change (render_pairs (p :: q :: ps)) with (render_pair p +:+ ("," ++ render_pairs (q :: ps)))%string.
  apply clean_app; [done|apply render_pair_ne|done|apply (render_pair_clean p Hp)|].
  intros c Hc. apply (proj2 (IH q Hps)). revert Hc.
  change ("," ++ render_pairs (q :: ps))%string with ("," +:+ render_pairs (q :: ps))%string.
  apply Forall_cons in Hps as [Hq _]. rewrite chars_app by by apply render_pairs_boundary.
  rewrite last_app. destruct (last (chars (render_pairs (q :: ps)))) eqn:E; [done|].
  apply last_None in E. by destruct (chars_ne _ (render_pairs_ne q ps)).
Qed.

Lemma brace_head a s : a <> "" -> String.prefix "{" (a ++ s)%string = String.prefix "{" a.
Proof.
  destruct a as [|c a]; [done|]. intros _. change (String c a ++ s)%string with (String c (a ++ s)).
  assert (forall t, String.prefix "" t = true) as Hp by by intros [].
  unfold String.prefix; fold String.prefix. by rewrite !Hp.
Qed.

Lemma parse_render json ps : Forall plain_pair ps -> parse_global_tags json (render_pairs ps) = inl ps.
Proof.
  intros Hps. unfold parse_global_tags. destruct ps as [|p ps]; [done|].
  rewrite clean_trim by by apply render_pairs_clean.
  assert (render_pairs (p :: ps) <> "" /\ String.prefix "{" (render_pairs (p :: ps)) = false) as [Hne ->].
  { destruct (render_pairs_head p ps) as [s ->]. apply Forall_cons in Hps as [Hp _]. pose proof (pp_nonempty p Hp) as Hk. pose proof (pp_brace p Hp) as Hb.
    rewrite brace_head by done. split; [|exact Hb]. destruct p as [[|c k] v]; [by destruct Hk|discriminate]. }
  rewrite bool_decide_false, split_render, parse_rendered by done. by apply validate_plain.
Qed.

(** What a successful parse accepted. *)
Lemma validate_pairs_valid ps out :
  validate_pairs ps = inl out ->
  out = ps /\ Forall (fun p => p.1 <> "" /\ String.prefix RESERVED_PREFIX p.1 = false) ps.
Proof.
  revert out. induction ps as [|[k v] ps IH]; intros out; cbn [validate_pairs]; [by intros [= <-]|].
  case_bool_decide as Hk; [done|]. destruct (String.prefix _ k) eqn:Hr; [done|].
  destruct (validate_pairs ps) as [out'|]; [|done]. intros [= <-].
  destruct (IH out' eq_refl) as [-> Hps]. by repeat constructor.
Qed.

Lemma parse_global_tags_valid json raw pairs :
  parse_global_tags json raw = inl pairs ->
  Forall (fun p => p.1 <> "" /\ String.prefix RESERVED_PREFIX p.1 = false) pairs.
Proof.
  unfold parse_global_tags. intros Hp. case_bool_decide; [injection Hp as <-; constructor|].
  destruct (String.prefix "{" (str_trim raw)); [destruct (json (str_trim raw)) as [m|]; [|done]
    |destruct (parse_items _) as [m|]; [|done]];
    by destruct (validate_pairs_valid _ _ Hp) as [-> ?].
Qed.

Lemma from_pairs_keys pairs m x :
  x ∈ map fst (foldl (fun m p => btree_insert p.1 p.2 m) m pairs) -> x ∈ map fst m \/ x ∈ map fst pairs.
Proof.
  revert m. induction pairs as [|[k v] pairs IH]; intros m; cbn [foldl map fst snd]; [by left|].
  intros [Hx|Hx]%IH; [|right; by right]. apply btree_insert_keys in Hx as [->|Hx]; [right; by left|by left].
Qed.

(** ** Stamping *)

Section ApplyLaws.
Context `{DataLaws F R}.

Lemma remove_fields_spec fuel (r : R) key :
  (length (items r) < fuel)%nat ->
  exists r', remove_fields fuel r key = Some r' /\ items r' = filter (fun f => get_name f <> key) (items r).
Proof.
  revert r. induction fuel as [|fuel IH]; intros r Hf; [lia|]. cbn [remove_fields].
  pose proof (remove_field_spec r key) as Hr. destruct (remove_field r key) as [[] r1].
  - destruct Hr as (l & f & l' & Hi & Hk & Hi1). destruct (IH r1) as (r' & -> & Hr').
    { rewrite Hi in Hf. rewrite Hi1. rewrite length_app in *. cbn in Hf. lia. }
    eexists. split; [done|]. rewrite Hr', Hi1, Hi, !filter_app, filter_cons_False; [done|]. by intros [].
  - destruct Hr as [-> Hr]. eexists. split; [done|]. by rewrite filter_all.
Qed.

Lemma apply_tags_spec (r : R) ts :
  NoDup (map fst ts) ->
  exists r', apply_tags r ts = Some r' /\
    items r' = filter (fun f => get_name f ∉ map fst ts) (items r) ++ map (fun p => from_chars p.1 p.2) ts.
Proof.
  revert r. induction ts as [|[k v] ts IH]; intros r; cbn [map fst snd apply_tags].
  { intros _. eexists. split; [done|]. rewrite app_nil_r, filter_all; [done|].
    apply Forall_forall. intros f _ Hf. by apply not_elem_of_nil in Hf. }
  intros [Hk Hts]%NoDup_cons.
  destruct (remove_fields_spec (S (length (items r))) r k) as (r1 & -> & Hr1); [lia|].
  destruct (IH (append r1 (from_chars k v)) Hts) as (r' & -> & Hr'). eexists. split; [done|].
  rewrite Hr', append_items, Hr1, filter_app, list_filter_filter.
  rewrite (filter_all _ [from_chars k v]) by (constructor; [by rewrite from_chars_name|constructor]).
  rewrite <- app_assoc. f_equal. apply list_filter_iff. intros f. rewrite not_elem_of_cons. tauto.
Qed.
End ApplyLaws.

(** ** Properties *)

(** Stamping ends with every instance-wide tag once, as a text field, in the
    order of the keys behind the record's other fields, which keep their
    order; a field of the same name, whatever its type and however often it
    occurs, is replaced; and stamping again changes nothing. *)
Theorem apply_global_tags_exact `{DataLaws F R} (r : R) (pairs : list (string * string)) :
  let t := from_pairs pairs in
  exists r' r'', apply_global_tags r t = Some r' /\
    items r' = filter (fun f => contains t (get_name f) = false) (items r)
               ++ map (fun p => from_chars p.1 p.2) (tags t) /\
    apply_global_tags r' t = Some r'' /\ items r'' = items r'.
Proof.
  cbn zeta. set (t := from_pairs pairs).
  assert (NoDup (map fst (tags t))) as Hnd.
  { apply sorted_keys_NoDup. apply (from_pairs_sorted pairs []). constructor. }
  assert (forall l : list F, filter (fun f => get_name f ∉ map fst (tags t)) l
    = filter (fun f => contains t (get_name f) = false) l) as Hc.
  { intros l. apply list_filter_iff. intros f. unfold contains. by rewrite bool_decide_eq_false. }
  destruct (apply_tags_spec r (tags t) Hnd) as (r' & Hr' & Hi').
  destruct (apply_tags_spec r' (tags t) Hnd) as (r'' & Hr'' & Hi'').
  exists r', r''. rewrite Hc in Hi', Hi''. split; [exact Hr'|]. split; [exact Hi'|].
  split; [exact Hr''|]. rewrite Hi'' at 1. rewrite Hi' at 1. rewrite filter_app, list_filter_filter.
  rewrite (filter_none _ (map _ (tags t))), app_nil_r.
  - rewrite Hi'. f_equal. apply list_filter_iff. tauto.
  - apply Forall_forall. intros f (p & -> & Hp)%list_elem_of_fmap. rewrite from_chars_name. unfold contains.
    rewrite bool_decide_true; [done|]. by apply list_elem_of_fmap_2.
Qed.

(** C40: what [WP_GLOBAL_TAGS] can say in its plain form is read back: written
    as [key=value] pairs separated by commas, a set of tags gives exactly that
    set again, provided that no key is empty, holds a comma or [=], starts with
    the reserved prefix or with a brace (a text that starts with one is read as
    JSON), that no value holds a comma, and that neither has white space of
    Unicode at an end; a value may hold [=], both may hold blanks inside. *)
Theorem global_tags_roundtrip (json : string -> list (string * string) + string)
  (pairs : list (string * string)) (Hplain : Forall plain_pair (tags (from_pairs pairs))) :
  from_env_var json (VarOk (render_pairs (to_map (from_pairs pairs)))) = inl (from_pairs pairs).
Proof.
  set (m := tags (from_pairs pairs)) in *.
  assert (foldl (fun m p => btree_insert p.1 p.2 m) [] m = m) as Hm.
  { apply (from_sorted_pairs []). apply (from_pairs_sorted pairs []). constructor. }
  unfold from_env_var, to_map. fold m. rewrite parse_render by done.
  unfold from_pairs at 1. by rewrite Hm.
Qed.

(** No accepted variable defines a tag with an empty key or one of the
    reserved [wp_] names, in either form, and no key twice. *)
Theorem global_tags_valid (json : string -> list (string * string) + string) (raw : string) (t : GlobalTags)
  (Hread : from_env_var json (VarOk raw) = inl t) :
  Forall (fun p => p.1 <> "" /\ String.prefix RESERVED_PREFIX p.1 = false) (tags t) /\
  NoDup (map fst (tags t)).
Proof.
  unfold from_env_var in Hread. destruct (parse_global_tags json raw) as [pairs|] eqn:Hp; [|done].
  injection Hread as <-. split; [|apply sorted_keys_NoDup, (from_pairs_sorted pairs []); constructor].
  apply Forall_forall. intros [k v] Hin.
  assert (k ∈ map fst pairs) as Hk.
  { destruct (from_pairs_keys pairs [] k) as [Hk|Hk]; [by apply (list_elem_of_fmap_2 fst _ (k, v))| |done].
    by apply not_elem_of_nil in Hk. }
  apply parse_global_tags_valid in Hp. apply list_elem_of_fmap in Hk as ([k' v'] & -> & Hin').
  rewrite Forall_forall in Hp. exact (Hp _ Hin').
Qed.

(** ** Witnesses *)

Lemma apply_global_tags_exact_witness :
  exists r' r'' : list (string * Value (H := list_types)),
    apply_global_tags (H0 := list_api) [("env", IntV 3); ("msg", Chars "x"); ("env", Null)]
      (from_pairs [("zone", "b"); ("env", "prod")]) = Some r' /\
    r' = [("msg", Chars "x"); ("env", Chars "prod"); ("zone", Chars "b")] /\
    apply_global_tags (H0 := list_api) r' (from_pairs [("zone", "b"); ("env", "prod")]) = Some r'' /\ r'' = r'.
Proof.
  pose proof (@apply_global_tags_exact list_types _ _ list_api list_laws
    [("env", IntV 3); ("msg", Chars "x"); ("env", Null)] [("zone", "b"); ("env", "prod")]) as (r' & r'' & H1 & H2 & H3 & H4).
  exists r', r''. split; [exact H1|]. split; [|split; [exact H3|exact H4]].
  etransitivity; [exact H2|]. vm_compute. reflexivity.
Defined.

(** A text is clean when this says so. *)
Definition clean_b (s : string) : bool :=
  match head (chars s), last (chars s) with
  | Some c, Some d => negb (is_white c) && negb (is_white d)
  | _, _ => true
  end.

Lemma clean_b_ok s : clean_b s = true -> clean s.
Proof.
  unfold clean_b, clean. destruct (chars s) as [|c l]; [by split|]. cbn [head].
  destruct (last (c :: l)) as [d|] eqn:E; [|by apply last_None in E]. rewrite andb_true_iff, !negb_true_iff.
  intros [Hc Hd]. split; intros ? [= <-]; done.
Qed.

Definition demo_pairs : list (string * string) := [("owner id", "团队 a"); ("env", "x=1"); ("empty", "")].

Lemma demo_pairs_plain : Forall plain_pair (tags (from_pairs demo_pairs)).
Proof.
  assert (tags (from_pairs demo_pairs) = [("empty", ""); ("env", "x=1"); ("owner id", "团队 a")]) as -> by (vm_compute; reflexivity).
  repeat (constructor; [constructor; cbn [fst snd]; try done; try (by apply clean_b_ok; vm_compute); by repeat constructor|]).
  constructor.
Qed.

Lemma global_tags_roundtrip_witness :
  from_env_var (fun _ => inr "") (VarOk (render_pairs (to_map (from_pairs demo_pairs)))) = inl (from_pairs demo_pairs).
Proof. apply (global_tags_roundtrip (fun _ => inr "") demo_pairs demo_pairs_plain). Defined.

(** White space of Unicode at the end of a value is lost, a brace starts JSON. *)
Example global_tags_limits :
  (from_env_var (fun _ => inr "") (VarOk (render_pairs [("a", "x" +:+ bytes [227; 128; 128]%nat)])),
   from_env_var (fun _ => inr "not JSON") (VarOk (render_pairs [("{a", "1")])))
  = (inl (from_pairs [("a", "x")]), inr (JsonFailed "not JSON")).
Proof. vm_compute. reflexivity. Qed.

Lemma global_tags_valid_witness :
  exists t, from_env_var (fun _ => inr "") (VarOk " owner = a , env=p,owner=b") = inl t /\
    tags t = [("env", "p"); ("owner", "b")] /\ NoDup (map fst (tags t)).
Proof.
  eexists. split; [vm_compute; reflexivity|]. split; [vm_compute; reflexivity|].
  refine (proj2 (global_tags_valid (fun _ => inr "") " owner = a , env=p,owner=b" _ _)).
  vm_compute. reflexivity.
Defined.
