(* ===== verification/Dispatcher.v ===== *)
(** The dispatcher of a sink group ([src/sinks/routing/dispatcher/]): direct
    routing of batches and single records to the replicas of its sinks
    ([io.rs]), the transformation and the fan-out by condition ([oml.rs]),
    grouping by rule ([mod.rs]), recovery and the end ([recovery.rs]).

    A [HashMap] is a finite map; where the code iterates over one, the order is
    a parameter.  The pool of recycled vectors changes no value and is left out.
    The OML model is an interface ([OmlApi]); the error channel of the
    infrastructure sinks is what the environment answers. *)
From Stdlib Require Import ZArith Lia Ascii String.
From stdpp Require Import prelude strings gmap pretty.
From S2P Require Import Prelude ErrPolicy Picker SinkHealth SinkRuntime DataModel Expr Tags.
Local Open Scope string_scope.
Local Open Scope list_scope.
Local Open Scope Z_scope.

(** [ObjModel] and its batch transformation with the query cache [Q]. *)
Class OmlApi (O R Q : Type) := {
  om_name : O -> string;
  om_rules : O -> list (string -> bool);
  transform_batch_ref : O -> list R -> Q -> list R * Q;
}.

#[export] Instance ProcMeta_eq_dec : EqDecision ProcMeta.
Proof. solve_decision. Defined.

Definition abstract_info (m : ProcMeta) : string :=
  match m with
  | WplName s => "wpl:" ++ s
  | OmlName s => "oml:" ++ s
  | NullMeta => "null"
  end%string.

Section Dispatcher.
Context {V B M Q : Type} `{DataApi F R} `{!Backend R B} `{!OmlApi M R Q}.
(** Formatting of values for the sink runtimes, compiled wildcard patterns for
    the conditions. *)
Variable gen_data : V -> RawData + SinkReason.
Context {W : Type}.
Variable wildmatch_new : string -> W.
Variable wm_matches : W -> string -> bool.

Record SinkRecUnit := mkUnit { id : N; meta : ProcMeta; data : R }.

(** A sink of the group: its runtime with its counters, and what the dispatcher
    reads of it. *)
Record Sink := mkDSink {
  runtime : SinkRuntime (S := B) (R := R);
  dropped : Z;
  sink_fates : list (Fate (R := R) (F := V));
  get_cond : option (Expression F);
  filter_expect : bool;
  pre_tags : list F;
}.

(** What the sinks share. *)
Record Shared := mkShared { files_opened : Z; bad_sinks : list (ASinkHandle (S := B)) }.

Record SinkDispatcher := mkDispatcher {
  conf_name : string;
  conf_meta_disable : list string;
  sinks : list Sink;
  aggregate_mdl : list (option M);
  global_tags : option GlobalTags;
  ingress_pending : Z;
  shared : Shared;
}.

Definition set_sinks (d : SinkDispatcher) (ss : list Sink) (w : Shared) : SinkDispatcher :=
  mkDispatcher (conf_name d) (conf_meta_disable d) ss (aggregate_mdl d) (global_tags d) (ingress_pending d) w.

Definition SinkDispatcher_new (nm : string) (disabled : list string) (models : list (option M)) (w : Shared)
    : SinkDispatcher := mkDispatcher nm disabled [] models None 0 w.

Definition set_global_tags (d : SinkDispatcher) (t : GlobalTags) : SinkDispatcher :=
  mkDispatcher (conf_name d) (conf_meta_disable d) (sinks d) (aggregate_mdl d) (Some t) (ingress_pending d) (shared d).

Definition sink_name (s : Sink) : string := name (runtime s).
Definition is_ready (s : Sink) : bool := ready_status (runtime s).

Definition with_runtime (s : Sink) (r : SinkRuntime) : Sink :=
  mkDSink r (dropped s) (sink_fates s) (get_cond s) (filter_expect s) (pre_tags s).

Definition set_status (r : SinkRuntime (S := B) (R := R)) (b : bool) : SinkRuntime :=
  mkSink (name r) (instance_id r) (batch_size r) (drop_when_error r) (output_disabled r) b
    (primary r) (backup_used r) (retired_rescue r) (rescue_file r) (rescue_records r) (last_rescue_log_at r)
    (pending_records r) (pending_meta r) (normal_stat r) (backup_stat r) (health r) (outage_t r).
Definition freeze (s : Sink) : Sink := with_runtime s (set_status (runtime s) false).
Definition ready (s : Sink) : Sink := with_runtime s (set_status (runtime s) true).

(** [Appendable::append]: the group's metadata settings go to the sink. *)
Definition append_sink (d : SinkDispatcher) (first : Sink) : SinkDispatcher :=
  set_sinks d (sinks d ++ [with_runtime first (set_meta_output_disabled (runtime first) (conf_meta_disable d))])
    (shared d).

Definition freeze_all (d : SinkDispatcher) : SinkDispatcher := set_sinks d (map freeze (sinks d)) (shared d).
Definition active_all (d : SinkDispatcher) : SinkDispatcher := set_sinks d (map ready (sinks d)) (shared d).

Fixpoint active_first (nm : string) (ss : list Sink) : list Sink :=
  match ss with
  | [] => []
  | s :: ss => if bool_decide (sink_name s = nm) then ready s :: ss else s :: active_first nm ss
  end.
Definition active_one (d : SinkDispatcher) (nm : string) : SinkDispatcher :=
  set_sinks d (active_first nm (sinks d)) (shared d).

Definition record_ingress_batch (d : SinkDispatcher) (count : Z) : SinkDispatcher :=
  if count =? 0 then d
  else mkDispatcher (conf_name d) (conf_meta_disable d) (sinks d) (aggregate_mdl d) (global_tags d)
         (sat_add USIZE_MAX (ingress_pending d) count) (shared d).

(** The batch recorded on the ingress statistics, if any. *)
Definition send_ingress_stat (d : SinkDispatcher) : option Z * SinkDispatcher :=
  if 0 <? ingress_pending d
  then (Some (ingress_pending d),
        mkDispatcher (conf_name d) (conf_meta_disable d) (sinks d) (aggregate_mdl d) (global_tags d) 0 (shared d))
  else (None, d).

(** ** Calling a sink *)

Definition to_state (s : Sink) (w : Shared) : SinkState (S := B) (R := R) (F := V) :=
  mkState (runtime s) (files_opened w) (bad_sinks w) (dropped s) (sink_fates s).
Definition of_state (s : Sink) (st : SinkState (S := B) (R := R) (F := V)) : Sink * Shared :=
  (mkDSink (rt st) (dropped_total st) (fates st) (get_cond s) (filter_expect s) (pre_tags s),
   mkShared (opened st) (bad_queue st)).

(** [sink_rt.send_package_to_sink(..)]: [None] is the runtime's lack of fuel,
    which does not happen. *)
Definition send_package (env : CallEnv (S := B)) (units : list SinkRecUnit) (s : Sink) (w : Shared)
    : option (option SinkReason * (Sink * Shared)) :=
  match send_package_to_sink (F := V) env (map (fun u => (meta u, data u)) units) (to_state s w) with
  | Some (res, st) => Some (res, of_state s st)
  | None => None
  end.

Definition send_one (env : CallEnv (S := B)) (d : SinkDataEnum (R := R) (F := V)) (s : Sink) (w : Shared)
    : option (option SinkReason * (Sink * Shared)) :=
  match send_to_sink gen_data env d (to_state s w) with
  | Some (res, st) => Some (res, of_state s st)
  | None => None
  end.

(** ** Direct routing ([io.rs]) *)

(** How many ready replicas each sink name has. *)
Definition count_ready (ss : list Sink) : gmap string N :=
  foldl (fun totals s => if is_ready s then <[sink_name s := default 0%N (totals !! sink_name s) + 1]> totals
                         else totals)%N ∅ ss.

Definition replica_key (nm : string) (this : N) : string := (nm ++ "_" ++ pretty this)%string.

(** One sink of the inner loop: the ordinal of the sink among its name's
    replicas, and the unit pushed when the ordinal is the target. *)
Definition route_step (totals : gmap string N) (u : SinkRecUnit)
    (st : gmap string N * gmap string (list SinkRecUnit)) (rt : Sink)
    : gmap string N * gmap string (list SinkRecUnit) :=
  let '(ordinals, per_sink_units) := st in
  if is_ready rt then
    let nm := sink_name rt in
    let total := default 1%N (totals !! nm) in
    let target_idx := (id u mod total)%N in
    let this := default 0%N (ordinals !! nm) in
    let ordinals := <[nm := (this + 1)%N]> ordinals in
    if (this =? target_idx)%N then
      let key := replica_key nm this in
      (ordinals, <[key := default [] (per_sink_units !! key) ++ [u]]> per_sink_units)
    else (ordinals, per_sink_units)
  else st.

(** One unit of the outer loop; the ordinals start over. *)
Definition route_unit (totals : gmap string N) (ss : list Sink)
    (per_sink_units : gmap string (list SinkRecUnit)) (u : SinkRecUnit) : gmap string (list SinkRecUnit) :=
  (foldl (route_step totals u) (∅, per_sink_units) ss).2.

(** The sends, in the order of the sinks, up to the first error. *)
Fixpoint send_batches (env : nat -> CallEnv (S := B)) (i : nat) (ss : list Sink) (ordinals : gmap string N)
    (per_sink_units : gmap string (list SinkRecUnit)) (w : Shared)
    : option (option SinkReason * (list Sink * Shared)) :=
  match ss with
  | [] => Some (None, ([], w))
  | rt :: rest =>
      let continue s w ordinals m :=
        match send_batches env (S i) rest ordinals m w with
        | Some (res, (rest, w)) => Some (res, (s :: rest, w))
        | None => None
        end in
      if is_ready rt then
        let nm := sink_name rt in
        let this := default 0%N (ordinals !! nm) in
        let ordinals := <[nm := (this + 1)%N]> ordinals in
        let key := replica_key nm this in
        match per_sink_units !! key with
        | Some (u :: us) =>
            match send_package (env i) (u :: us) rt w with
            | None => None
            | Some (Some e, (rt, w)) => Some (Some e, (rt :: rest, w))
            | Some (None, (rt, w)) => continue rt w ordinals (delete key per_sink_units)
            end
        | _ => continue rt w ordinals (delete key per_sink_units)
        end
      else continue rt w ordinals per_sink_units
  end.

Definition finish (d : SinkDispatcher) (count : Z) (r : option (option SinkReason * (list Sink * Shared)))
    : option ((Z + SinkReason) * SinkDispatcher) :=
  match r with
  | Some (None, (ss, w)) => Some (inl count, set_sinks d ss w)
  | Some (Some e, (ss, w)) => Some (inr e, set_sinks d ss w)
  | None => None
  end.

Definition group_sink_batch_direct (env : nat -> CallEnv (S := B)) (pkg : list SinkRecUnit) (d : SinkDispatcher)
    : option ((Z + SinkReason) * SinkDispatcher) :=
  match pkg with
  | [] => Some (inl 0, d)
  | _ =>
      let totals := count_ready (sinks d) in
      if bool_decide (totals = ∅) then Some (inl 0, d)
      else
        let per_sink_units := foldl (route_unit totals (sinks d)) ∅ pkg in
        finish d (zlen pkg) (send_batches env 0 (sinks d) ∅ per_sink_units (shared d))
  end.

(** The loop of [dispatch_one_per_name_tdc] and [dispatch_one_per_name_raw]. *)
Fixpoint dispatch_loop (env : nat -> CallEnv (S := B)) (i : nat) (event_id : N)
    (payload : SinkDataEnum (R := R) (F := V)) (totals ordinals : gmap string N) (ss : list Sink) (w : Shared)
    : option (option SinkReason * (list Sink * Shared)) :=
  match ss with
  | [] => Some (None, ([], w))
  | rt :: rest =>
      let continue s w ordinals :=
        match dispatch_loop env (S i) event_id payload totals ordinals rest w with
        | Some (res, (rest, w)) => Some (res, (s :: rest, w))
        | None => None
        end in
      if is_ready rt then
        let nm := sink_name rt in
        let total := default 1%N (totals !! nm) in
        let idx := (event_id mod total)%N in
        let this := default 0%N (ordinals !! nm) in
        let ordinals := <[nm := (this + 1)%N]> ordinals in
        if (this =? idx)%N then
          match send_one (env i) payload rt w with
          | None => None
          | Some (Some e, (rt, w)) => Some (Some e, (rt :: rest, w))
          | Some (None, (rt, w)) => continue rt w ordinals
          end
        else continue rt w ordinals
      else continue rt w ordinals
  end.

Definition dispatch_one_per_name (env : nat -> CallEnv (S := B)) (event_id : N)
    (payload : SinkDataEnum (R := R) (F := V)) (d : SinkDispatcher) (count : Z)
    : option ((Z + SinkReason) * SinkDispatcher) :=
  let totals := count_ready (sinks d) in
  if bool_decide (totals = ∅) then Some (inl count, d)
  else finish d count (dispatch_loop env 0 event_id payload totals ∅ (sinks d) (shared d)).

(** [group_sink_one]: how many records were handed over. *)
Definition group_sink_one (env : nat -> CallEnv (S := B)) (pkg_id : N) (payload : SinkDataEnum (R := R) (F := V))
    (d : SinkDispatcher) : option ((Z + SinkReason) * SinkDispatcher) :=
  match payload with
  | Rec _ _ | Raw _ => dispatch_one_per_name env pkg_id payload d 1
  | FFV _ => Some (inl 0, d)
  end.

Definition rec_payload (u : SinkRecUnit) : SinkDataEnum (R := R) (F := V) :=
  Rec (abstract_info (meta u)) (data u).

(** [group_sink_direct]: [received] is what [try_recv] gave; only the first
    unit of the package is handed over. *)
Definition group_sink_direct (env : nat -> CallEnv (S := B)) (received : option (list SinkRecUnit))
    (d : SinkDispatcher) : option ((Z + SinkReason) * SinkDispatcher) :=
  match received with
  | Some (u :: _) =>
      match meta u with
      | WplName _ | OmlName _ => dispatch_one_per_name env (id u) (rec_payload u) d 1
      | NullMeta => Some (inl 0, d)
      end
  | _ => Some (inl 0, d)
  end.

(** Broadcast to every ready sink, up to the first error. *)
Fixpoint broadcast (env : nat -> CallEnv (S := B)) (i : nat) (payload : SinkDataEnum (R := R) (F := V))
    (ss : list Sink) (w : Shared) : option (option SinkReason * (list Sink * Shared)) :=
  match ss with
  | [] => Some (None, ([], w))
  | rt :: rest =>
      let continue s w :=
        match broadcast env (S i) payload rest w with
        | Some (res, (rest, w)) => Some (res, (s :: rest, w))
        | None => None
        end in
      if is_ready rt then
        match send_one (env i) payload rt w with
        | None => None
        | Some (Some e, (rt, w)) => Some (Some e, (rt :: rest, w))
        | Some (None, (rt, w)) => continue rt w
        end
      else continue rt w
  end.

Definition sink_tdc_direct (env : nat -> CallEnv (S := B)) (m : ProcMeta) (r : R) (d : SinkDispatcher)
    : option ((Z + SinkReason) * SinkDispatcher) :=
  finish d 0 (broadcast env 0 (Rec (abstract_info m) r) (sinks d) (shared d)).

(** The fast path of [sink_raw]: the first ready sink, then [break]. *)
Fixpoint send_first_ready (env : nat -> CallEnv (S := B)) (i : nat) (payload : SinkDataEnum (R := R) (F := V))
    (ss : list Sink) (w : Shared) : option (option SinkReason * (list Sink * Shared)) :=
  match ss with
  | [] => Some (None, ([], w))
  | rt :: rest =>
      if is_ready rt then
        match send_one (env i) payload rt w with
        | None => None
        | Some (res, (rt, w)) => Some (res, (rt :: rest, w))
        end
      else match send_first_ready env (S i) payload rest w with
           | Some (res, (rest, w)) => Some (res, (rt :: rest, w))
           | None => None
           end
  end.

Definition sink_raw (env : nat -> CallEnv (S := B)) (dat : string) (d : SinkDispatcher)
    : option ((Z + SinkReason) * SinkDispatcher) :=
  let ready_cnt := length (filter (fun s => is_ready s = true) (sinks d)) in
  match ready_cnt with
  | O => Some (inl 0, d)
  | 1%nat => finish d 0 (send_first_ready env 0 (Raw dat) (sinks d) (shared d))
  | _ => finish d 0 (broadcast env 0 (Raw dat) (sinks d) (shared d))
  end.

(** ** Transformation and fan-out ([oml.rs]) *)

Definition has_conditions (d : SinkDispatcher) : bool :=
  existsb (fun s => match get_cond s with Some _ => true | None => false end) (sinks d).

(** The first object model one of whose rules matches the rule of the unit. *)
Fixpoint match_oml (models : list (option M)) (r : string) : option M :=
  match models with
  | [] => None
  | Some om :: models =>
      if existsb (fun w_rule => w_rule r) (om_rules om) then Some om else match_oml models r
  | None :: models => match_oml models r
  end.
Definition get_match_oml (d : SinkDispatcher) (rule : ProcMeta) : option M :=
  match rule with
  | WplName r => match_oml (aggregate_mdl d) r
  | _ => None
  end.

(** What the environment answers while a batch is transformed: the error
    channel for the k-th failure and the diagnostics collected for it. *)
Record OmlEnv := mkOmlEnv { err_send : nat -> option SinkReason; diag : nat -> option string }.

Definition err_hint (kind : string) : string :=
  if String.eqb kind "oml_transform_empty" then
    "OML 输出为空；请检查模型 rules 是否匹配当前 WPL 路径，以及 read/take 字段名是否存在"
  else if String.eqb kind "oml_transform_nochange" then
    "OML 输出与输入一致；可能规则未生效或字段映射缺失，请核对字段与类型转换"
  else "OML 转换失败".

Definition annotate_err (r : R) (kind : string) (rule : ProcMeta) (group mdl_name : string)
    (src_cnt out_cnt : Z) (dg : option string) : R :=
  let r := append r (from_chars "__err_kind" kind) in
  let r := match rule with WplName n => append r (from_chars "__wpl_rule" n) | _ => r end in
  let r := append r (from_chars "__sink_group" group) in
  let r := if String.eqb mdl_name "" then r else append r (from_chars "__oml_model" mdl_name) in
  let r := append r (from_int "__src_field_count" src_cnt) in
  let r := append r (from_int "__out_field_count" out_cnt) in
  let r := match dg with Some s => append r (from_chars "__diag" s) | None => r end in
  append r (from_chars "__hint" (err_hint kind)).

(** Stamping with the group's instance-wide tags, when it has any. *)
Definition stamp (d : SinkDispatcher) (r : R) : option R :=
  match global_tags d with Some t => apply_global_tags r t | None => Some r end.

(** The loop over the outputs, zipped with what is kept of the inputs: the
    transformed units and the failures. *)
Fixpoint sort_outputs (oenv : OmlEnv) (d : SinkDispatcher) (wpl_meta : ProcMeta) (om : M) (k : nat)
    (l : list ((N * ProcMeta * Z) * R)) : option (list SinkRecUnit * list SinkRecUnit) :=
  match l with
  | [] => Some ([], [])
  | ((event_id, m, original_len), output) :: l =>
      match items output with
      | [] =>
          failed ← stamp d (annotate_err output "oml_transform_empty" wpl_meta (conf_name d) (om_name om)
                              original_len (zlen (items output)) (diag oenv k));
          '(successes, failures) ← sort_outputs oenv d wpl_meta om (S k) l;
          Some (successes, mkUnit event_id m failed :: failures)
      | _ =>
          '(successes, failures) ← sort_outputs oenv d wpl_meta om k l;
          Some (mkUnit event_id (OmlName (om_name om)) output :: successes, failures)
      end
  end.

Definition run_oml_pipeline_vec (oenv : OmlEnv) (d : SinkDispatcher) (wpl_meta : ProcMeta)
    (input : list SinkRecUnit) (cache : Q) : option (list SinkRecUnit * list SinkRecUnit * Q) :=
  match get_match_oml d wpl_meta with
  | None => Some (input, [], cache)
  | Some om_ins =>
      let contexts := map (fun u => (id u, meta u, zlen (items (data u)))) input in
      let '(outputs, cache) := transform_batch_ref om_ins (map data input) cache in
      '(successes, failures) ← sort_outputs oenv d wpl_meta om_ins 0 (zip contexts outputs);
      Some (successes, failures, cache)
  end.

Definition append_pre_tags (r : R) (ts : list F) : R := foldl append r ts.

Definition resolve_tag_conflicts (d : SinkDispatcher) (r : R) (ts : list F) : option R :=
  match global_tags d with
  | None => Some r
  | Some t => if existsb (fun tag => contains t (get_name tag)) ts then apply_global_tags r t else Some r
  end.

(** A record for one sink: its own tags, then the instance-wide ones again. *)
Definition enrich (d : SinkDispatcher) (s : Sink) (r : R) : option R :=
  resolve_tag_conflicts d (append_pre_tags r (pre_tags s)) (pre_tags s).

(** One entry pushed to the vector of every sink. *)
Fixpoint emit_entry (d : SinkDispatcher) (ss : list Sink) (u : SinkRecUnit) (per_sink : list (list SinkRecUnit))
    : option (list (list SinkRecUnit)) :=
  match ss, per_sink with
  | s :: ss, slot :: per_sink =>
      r ← match pre_tags s with [] => Some (data u) | _ => enrich d s (data u) end;
      rest ← emit_entry d ss u per_sink;
      Some ((slot ++ [mkUnit (id u) (meta u) r]) :: rest)
  | _, _ => Some per_sink
  end.

Fixpoint push_all (push : SinkRecUnit -> list (list SinkRecUnit) -> option (list (list SinkRecUnit)))
    (entries : list SinkRecUnit) (per_sink : list (list SinkRecUnit)) : option (list (list SinkRecUnit)) :=
  match entries with
  | [] => Some per_sink
  | u :: entries => per_sink ← push u per_sink; push_all push entries per_sink
  end.

Definition no_units (d : SinkDispatcher) : list (list SinkRecUnit) := map (fun _ => []) (sinks d).

Definition emit_without_transform_batch (d : SinkDispatcher) (entries : list SinkRecUnit)
    : option (list (list SinkRecUnit)) := push_all (emit_entry d (sinks d)) entries (no_units d).

Definition sink_matches (base : R) (s : Sink) : bool :=
  match get_cond s with
  | Some cond => Bool.eqb (record_evaluate_expression wildmatch_new wm_matches cond base) (filter_expect s)
  | None => true
  end.
Definition evaluate_sink_matches (d : SinkDispatcher) (base : R) : list bool :=
  map (sink_matches base) (sinks d).

(** The base record for one more target: moved to the last, cloned for the
    others; [None] is the panic of an [expect]. *)
Definition acquire_record_for_target (base_slot : option R) (remaining_targets : Z) : option (R * option R) :=
  r ← base_slot;
  Some (r, if remaining_targets =? 1 then None else base_slot).

Fixpoint push_targets (d : SinkDispatcher) (u : SinkRecUnit) (ss : list Sink) (matches : list bool)
    (base_slot : option R) (remaining : Z) (per_sink : list (list SinkRecUnit))
    : option (list (list SinkRecUnit)) :=
  match ss, matches, per_sink with
  | s :: ss, matched :: matches, slot :: per_sink =>
      if matched then
        '(r, base_slot) ← acquire_record_for_target base_slot remaining;
        r ← enrich d s r;
        rest ← push_targets d u ss matches base_slot (remaining - 1) per_sink;
        Some ((slot ++ [mkUnit (id u) (meta u) r]) :: rest)
      else rest ← push_targets d u ss matches base_slot remaining per_sink; Some (slot :: rest)
  | _, _, _ => Some per_sink
  end.

Definition push_transformed_record (d : SinkDispatcher) (u : SinkRecUnit) (per_sink : list (list SinkRecUnit))
    : option (list (list SinkRecUnit)) :=
  match per_sink with
  | [] => Some per_sink
  | _ =>
      base ← stamp d (data u);
      let matches := evaluate_sink_matches d base in
      let remaining := countb (fun m => m) matches in
      if remaining =? 0 then Some per_sink
      else push_targets d u (sinks d) matches (Some base) remaining per_sink
  end.

Definition fanout_transformed_batch (d : SinkDispatcher) (entries : list SinkRecUnit)
    : option (list (list SinkRecUnit)) := push_all (push_transformed_record d) entries (no_units d).

(** The failures go to the error channel one by one, up to the first that it
    refuses. *)
Fixpoint emit_failures (oenv : OmlEnv) (k : nat) (rule : ProcMeta) (failures : list SinkRecUnit)
    : option SinkReason * list SinkRecUnit :=
  match failures with
  | [] => (None, [])
  | bad :: failures =>
      match err_send oenv k with
      | Some e => (Some e, [])
      | None => let '(e, out) := emit_failures oenv (S k) rule failures in
                (e, mkUnit (id bad) rule (data bad) :: out)
      end
  end.

(** [oml_proc_batch_async]: the units per sink or the error of the error
    channel, with the records it took, and the cache. *)
Definition oml_proc_batch (oenv : OmlEnv) (d : SinkDispatcher) (batch : list SinkRecUnit) (cache : Q)
    (rule : ProcMeta) : option ((list (list SinkRecUnit) + SinkReason) * list SinkRecUnit * Q) :=
  match batch with
  | [] => Some (inl (no_units d), [], cache)
  | _ =>
      let has_oml := match get_match_oml d rule with Some _ => true | None => false end in
      if negb has_oml && negb (has_conditions d) then
        per_sink ← emit_without_transform_batch d batch; Some (inl per_sink, [], cache)
      else
        '(successes, failures, cache) ← run_oml_pipeline_vec oenv d rule batch cache;
        let '(e, out) := emit_failures oenv 0 rule failures in
        match e with
        | Some e => Some (inr e, out, cache)
        | None => per_sink ← fanout_transformed_batch d successes; Some (inl per_sink, out, cache)
        end
  end.

(** ** Packages ([mod.rs]) *)

(** The map of units by rule, pushed in the order of the package. *)
Definition group_by_rule (package : list SinkRecUnit) : gmap string (list SinkRecUnit) :=
  foldl (fun g u => let key := abstract_info (meta u) in <[key := default [] (g !! key) ++ [u]]> g) ∅ package.

(** The iteration order of that map, the standard library's. *)
Variable hm_iter : gmap string (list SinkRecUnit) -> list (string * list SinkRecUnit).

(** The sends of one group: a sink that is not ready, or has no unit, gets
    nothing; the first error ends the loop. *)
Fixpoint send_group (env : nat -> CallEnv (S := B)) (i : nat) (ss : list Sink)
    (per_sink : list (list SinkRecUnit)) (w : Shared) : option (option SinkReason * (list Sink * Shared)) :=
  match ss, per_sink with
  | rt :: rest, units :: per_sink =>
      let continue s w :=
        match send_group env (S i) rest per_sink w with
        | Some (res, (rest, w)) => Some (res, (s :: rest, w))
        | None => None
        end in
      if is_ready rt then
        match units with
        | [] => continue rt w
        | _ =>
            match send_package (env i) units rt w with
            | None => None
            | Some (Some e, (rt, w)) => Some (Some e, (rt :: rest, w))
            | Some (None, (rt, w)) => continue rt w
            end
        end
      else continue rt w
  | ss, _ => Some (None, (ss, w))
  end.

(** What a call leaves: the dispatcher, the records the error channel took, the
    query cache. *)
Record GroupOut := mkOut { out_d : SinkDispatcher; out_errors : list SinkRecUnit; out_cache : Q }.

Fixpoint send_groups (env : nat -> nat -> CallEnv (S := B)) (oenv : nat -> OmlEnv) (k : nat)
    (groups : list (string * list SinkRecUnit)) (o : GroupOut) : option (option SinkReason * GroupOut) :=
  match groups with
  | [] => Some (None, o)
  | (_, units) :: groups =>
      match units with
      | [] => send_groups env oenv (S k) groups o
      | u :: _ =>
          '(r, errs, cache) ← oml_proc_batch (oenv k) (out_d o) units (out_cache o) (meta u);
          let o := mkOut (out_d o) (out_errors o ++ errs) cache in
          match r with
          | inr e => Some (Some e, o)
          | inl per_sink =>
              '(res, (ss, w)) ← send_group (env k) 0 (sinks (out_d o)) per_sink (shared (out_d o));
              let o := mkOut (set_sinks (out_d o) ss w) (out_errors o) (out_cache o) in
              match res with
              | Some e => Some (Some e, o)
              | None => send_groups env oenv (S k) groups o
              end
          end
      end
  end.

Definition group_sink_package (env : nat -> nat -> CallEnv (S := B)) (oenv : nat -> OmlEnv)
    (package : list SinkRecUnit) (d : SinkDispatcher) (cache : Q) : option ((Z + SinkReason) * GroupOut) :=
  '(res, o) ← send_groups env oenv 0 (hm_iter (group_by_rule package)) (mkOut d [] cache);
  match res with
  | None => Some (inl (zlen package), o)
  | Some e => Some (inr e, o)
  end.

(** ** Recovery and the end ([recovery.rs]) *)

(** [proc_fix]: the first sink on its rescue file that the handle belongs to
    takes it; the handle comes back when there is none.  What [recover_sink]
    answers is not looked at, an error apart. *)
Fixpoint proc_fix_loop (h : ASinkHandle (S := B)) (mon_err : option SinkReason) (ss : list Sink) (w : Shared)
    : (option (ASinkHandle (S := B)) + SinkReason) * (list Sink * Shared) :=
  match ss with
  | [] => (inl (Some h), ([], w))
  | j :: rest =>
      if is_backup_active (runtime j) && accepts_handle (runtime j) h then
        match recover_sink (R := R) (F := V) (to_state j w) h mon_err with
        | (inr e, st) => let '(j, w) := of_state j st in (inr e, (j :: rest, w))
        | (inl _, st) => let '(j, w) := of_state j st in (inl None, (j :: rest, w))
        end
      else let '(r, (rest, w)) := proc_fix_loop h mon_err rest w in (r, (j :: rest, w))
  end.

Definition proc_fix (d : SinkDispatcher) (h : ASinkHandle (S := B)) (mon_err : option SinkReason)
    : (option (ASinkHandle (S := B)) + SinkReason) * SinkDispatcher :=
  let '(r, (ss, w)) := proc_fix_loop h mon_err (sinks d) (shared d) in (r, set_sinks d ss w).

Fixpoint proc_end_loop (ss : list Sink) (w : Shared) : option SinkReason * (list Sink * Shared) :=
  match ss with
  | [] => (None, ([], w))
  | rt :: rest =>
      let '(e, st) := stop_backends (R := R) (F := V) (to_state rt w) in
      let '(rt, w) := of_state rt st in
      match e with
      | Some e => (Some e, (rt :: rest, w))
      | None => let '(e, (rest, w)) := proc_end_loop rest w in (e, (rt :: rest, w))
      end
  end.

Definition proc_end (d : SinkDispatcher) : option SinkReason * SinkDispatcher :=
  let '(e, (ss, w)) := proc_end_loop (sinks d) (shared d) in (e, set_sinks d ss w).

End Dispatcher.
