(* ===== verification/DispatcherLaws.v ===== *)
(** What the dispatcher of a sink group guarantees: direct routing gives a
    record to exactly one replica of every sink name, the fan-out gives every
    sink the records its condition admits with the instance-wide tags on top,
    and the fast path agrees with the general one. *)
From Stdlib Require Import ZArith Lia Ascii String.
From stdpp Require Import prelude strings gmap pretty.
From S2P Require Import Prelude ErrPolicy Picker SinkHealth SinkRuntime DataModel Expr Tags Dispatcher.
Local Open Scope string_scope.
Local Open Scope list_scope.
Local Open Scope Z_scope.

(** ** Keys of replicas *)

Lemma pretty_N_char_not_sep n : pretty_N_char n <> "_"%char.
Proof. unfold pretty_N_char. by repeat case_match. Qed.

Lemma pretty_N_go_not_sep n s :
  Forall (fun c => c <> "_"%char) (list_ascii_of_string s) ->
  Forall (fun c => c <> "_"%char) (list_ascii_of_string (pretty_N_go n s)).
Proof.
  revert s. induction (N.lt_wf_0 n) as [n _ IH]. intros s Hs. destruct (decide (n = 0%N)) as [->|Hn].
  { by rewrite pretty_N_go_0. }
  rewrite pretty_N_go_step by lia. apply IH; [apply N.div_lt; lia|].
  constructor; [apply pretty_N_char_not_sep|exact Hs].
Qed.

Lemma pretty_N_not_sep (n : N) : Forall (fun c => c <> "_"%char) (list_ascii_of_string (pretty n)).
Proof.
  unfold pretty, pretty_N. case_decide; [by repeat constructor|]. apply pretty_N_go_not_sep. constructor.
Qed.

(** The key of a replica determines the sink's name and the ordinal, although
    names may contain the separator. *)
Lemma replica_key_inj n1 n2 k1 k2 : replica_key n1 k1 = replica_key n2 k2 -> n1 = n2 /\ k1 = k2.
Proof.
  unfold replica_key. intros Hk. apply (f_equal list_ascii_of_string), (f_equal (@rev _)) in Hk.
  rewrite !list_ascii_app, !rev_app_distr in Hk. cbn [list_ascii_of_string rev app] in Hk.
  rewrite <- !app_assoc in Hk. cbn [app] in Hk. apply (f_equal (split_once_chars "_")) in Hk.
  rewrite !split_once_sep in Hk by apply Forall_rev, pretty_N_not_sep.
  injection Hk as H1 H2. apply (f_equal (@rev _)) in H1, H2. rewrite !rev_involutive in H1, H2.
  apply (f_equal string_of_list_ascii) in H1, H2. rewrite !string_of_list_ascii_of_string in H1, H2.
  split; [done|]. by apply (inj pretty).
Qed.

Section Laws.
Context {V B M Q : Type} `{DataApi F R} `{!Backend R B} `{!OmlApi M R Q}.
Local Abbreviation Sink := (Sink (V := V) (B := B) (F := F) (R := R)).
Local Abbreviation Unit := (SinkRecUnit (R := R)).

(** ** Counting replicas *)

Definition replica_of (n : string) (s : Sink) : Prop := is_ready s = true /\ sink_name s = n.
#[local] Instance replica_of_dec n (s : Sink) : Decision (replica_of n s).
Proof. unfold replica_of. apply _. Defined.

Definition count_name (n : string) (ss : list Sink) : N := N.of_nat (length (filter (replica_of n) ss)).

Lemma count_name_app n (a b : list Sink) : count_name n (a ++ b) = (count_name n a + count_name n b)%N.
Proof. unfold count_name. rewrite filter_app, length_app. lia. Qed.

Lemma count_name_one n (s : Sink) : count_name n [s] = if decide (replica_of n s) then 1%N else 0%N.
Proof. unfold count_name. rewrite filter_cons, filter_nil. by case_decide. Qed.

Lemma count_ready_spec (ss : list Sink) n :
  count_ready ss !! n = if decide (count_name n ss = 0%N) then None else Some (count_name n ss).
Proof.
  unfold count_ready. induction ss as [|s ss IH] using rev_ind; [done|].
  rewrite foldl_app. cbn [foldl]. rewrite count_name_app, count_name_one.
  destruct (is_ready s) eqn:Er.
  - destruct (decide (sink_name s = n)) as [<-|Hn].
    + rewrite lookup_insert_eq, IH. rewrite (decide_True (P := replica_of _ s)) by done.
      rewrite (decide_False (P := (_ + 1)%N = _)) by lia. by case_decide as Hz; [rewrite Hz|].
    + rewrite lookup_insert_ne, IH by done. rewrite (decide_False (P := replica_of _ s)) by (by intros [_ ?]).
      by rewrite N.add_0_r.
  - rewrite IH, (decide_False (P := replica_of _ s)); [by rewrite N.add_0_r|]. intros [? _]. congruence.
Qed.

Lemma count_ready_empty (ss : list Sink) : count_ready ss = ∅ <-> Forall (fun s => is_ready s = false) ss.
Proof.
  split.
  - intros He. apply Forall_forall. intros s Hs. destruct (is_ready s) eqn:Er; [|done].
    pose proof (count_ready_spec ss (sink_name s)) as Hc. rewrite He, lookup_empty in Hc.
    case_decide as Hz; [|done]. unfold count_name in Hz.
    assert (s ∈ filter (replica_of (sink_name s)) ss) as Hin by (by apply list_elem_of_filter).
    destruct (filter _ ss); [by apply not_elem_of_nil in Hin|done].
  - intros Hf. apply map_eq. intros n. rewrite count_ready_spec, lookup_empty. unfold count_name.
    rewrite filter_none; [done|]. eapply Forall_impl; [exact Hf|]. intros s Hs [? _]. congruence.
Qed.

(** ** Routing one unit *)

Definition route_of (all : list Sink) (n : string) (u : Unit) : N := (id u mod count_name n all)%N.

Definition hit (all pre post : list Sink) (u : Unit) (n : string) (k : N) : list Unit :=
  if decide ((count_name n pre <= k < count_name n pre + count_name n post)%N /\ k = route_of all n u)
  then [u] else [].

Lemma route_fold (all pre post : list Sink) (u : Unit) st :
  all = pre ++ post -> (forall n, default 0%N (st.1 !! n) = count_name n pre) ->
  forall n k, default [] ((foldl (route_step (count_ready all) u) st post).2 !! replica_key n k)
              = default [] (st.2 !! replica_key n k) ++ hit all pre post u n k.
Proof.
  revert pre st. induction post as [|s post IH]; intros pre [ord m] Hall Hord n k; cbn [foldl].
  { unfold hit. rewrite decide_False by (unfold count_name; cbn; lia). by rewrite app_nil_r. }
  assert (all = (pre ++ [s]) ++ post) as Hall' by by rewrite <- app_assoc.
  cbn [fst snd] in *. unfold route_step at 2. destruct (is_ready s) eqn:Er.
  - assert (0 < count_name (sink_name s) all)%N as Hpos.
    { rewrite Hall', !count_name_app, count_name_one, decide_True by done. lia. }
    rewrite count_ready_spec, decide_False, Hord by lia. cbn [default from_option Datatypes.id].
    assert (forall n, default 0%N ((<[sink_name s := (count_name (sink_name s) pre + 1)%N]> ord) !! n)
              = count_name n (pre ++ [s])) as Hord'.
    { intros n'. rewrite count_name_app, count_name_one. destruct (decide (sink_name s = n')) as [<-|Hn].
      - by rewrite lookup_insert_eq, decide_True.
      - rewrite lookup_insert_ne, Hord by done. rewrite decide_False by (by intros [_ ?]). lia. }
    destruct (N.eqb_spec (count_name (sink_name s) pre) (id u mod count_name (sink_name s) all)) as [Ht|Ht].
    + rewrite (IH (pre ++ [s])) by done. cbn [snd]. destruct (decide (n = sink_name s)) as [->|Hn].
      * destruct (decide (k = count_name (sink_name s) pre)) as [->|Hk].
        -- rewrite lookup_insert_eq. cbn [default from_option Datatypes.id]. unfold hit. rewrite <- !app_assoc. f_equal.
           rewrite (decide_False (P := (_ /\ _)%N)), (decide_True (P := (_ /\ _)%N)); [done| |].
           ++ split; [|exact Ht]. change (s :: post) with ([s] ++ post).
              rewrite count_name_app, count_name_one, decide_True by done. lia.
           ++ rewrite count_name_app, count_name_one, decide_True by done. lia.
        -- rewrite lookup_insert_ne by (by intros [_ ?]%replica_key_inj). f_equal. unfold hit, route_of.
           apply decide_ext. rewrite <- Ht. lia.
      * rewrite lookup_insert_ne by (intros [? _]%replica_key_inj; congruence). f_equal. unfold hit.
        apply decide_ext. change (s :: post) with ([s] ++ post). rewrite !count_name_app, !count_name_one.
        rewrite decide_False by (intros [_ ?]; congruence). by rewrite N.add_0_r, N.add_0_l.
    + rewrite (IH (pre ++ [s])) by done. cbn [snd]. f_equal. unfold hit. apply decide_ext.
      change (s :: post) with ([s] ++ post). rewrite !count_name_app, !count_name_one. unfold route_of.
      case_decide as Hr; [|by rewrite N.add_0_r, N.add_0_l]. destruct Hr as [_ <-]. lia.
  - assert (forall n, count_name n (pre ++ [s]) = count_name n pre) as Hpre.
    { intros n'. rewrite count_name_app, count_name_one, decide_False; [lia|]. intros [? _]. congruence. }
    rewrite (IH (pre ++ [s])); [|done|intros n'; by rewrite Hpre]. cbn [snd]. f_equal. unfold hit. apply decide_ext.
    rewrite Hpre. change (s :: post) with ([s] ++ post). rewrite count_name_app, (count_name_one n s).
    rewrite decide_False by (intros [? _]; congruence). by rewrite N.add_0_l.
Qed.

(** ** Routing a package *)

(** The units a sink gets: for a ready sink, those whose id modulo the number
    of its name's replicas is its ordinal among them, in their order. *)
Definition batch_of (all pre : list Sink) (s : Sink) (pkg : list Unit) : list Unit :=
  if is_ready s
  then filter (fun u => route_of all (sink_name s) u = count_name (sink_name s) pre) pkg
  else [].

Fixpoint replica_batches (all pre ss : list Sink) (pkg : list Unit) : list (list Unit) :=
  match ss with
  | [] => []
  | s :: ss => batch_of all pre s pkg :: replica_batches all (pre ++ [s]) ss pkg
  end.

Lemma route_unit_spec all u m n k :
  default [] (route_unit (count_ready all) all m u !! replica_key n k)
  = default [] (m !! replica_key n k) ++
    (if decide ((k < count_name n all)%N /\ k = route_of all n u) then [u] else []).
Proof.
  unfold route_unit. rewrite (route_fold all [] all u (∅, m)); [|done|intros n'; cbn [fst]; by rewrite lookup_empty].
  cbn [snd]. f_equal. unfold hit. apply decide_ext. assert (count_name n [] = 0%N) as -> by done. lia.
Qed.

Lemma route_package all pkg m n k :
  (k < count_name n all)%N ->
  default [] (foldl (route_unit (count_ready all) all) m pkg !! replica_key n k)
  = default [] (m !! replica_key n k) ++ filter (fun u => route_of all n u = k) pkg.
Proof.
  intros Hk. revert m. induction pkg as [|u pkg IH]; intros m; cbn [foldl].
  { by rewrite filter_nil, app_nil_r. }
  rewrite IH, route_unit_spec, <- app_assoc. f_equal. rewrite filter_cons.
  case_decide as H1; case_decide as H2; try done; destruct H1; lia || (split; [done|lia]).
Qed.

(** The sends of the code, with the map of batches and the ordinals counted
    again, are those of the plain list of batches. *)
Lemma send_batches_group env all pkg ss pre i ordinals m w :
  all = pre ++ ss -> (forall n, default 0%N (ordinals !! n) = count_name n pre) ->
  (forall n k, (count_name n pre <= k < count_name n all)%N ->
     default [] (m !! replica_key n k) = filter (fun u => route_of all n u = k) pkg) ->
  send_batches env i ss ordinals m w = send_group env i ss (replica_batches all pre ss pkg) w.
Proof.
  revert pre i ordinals m w. induction ss as [|s ss IH]; intros pre i ord m w Hall Hord Hm; [done|].
  assert (all = (pre ++ [s]) ++ ss) as Hall' by by rewrite <- app_assoc.
  cbn [send_batches send_group replica_batches]. unfold batch_of. destruct (is_ready s) eqn:Er.
  - set (nm := sink_name s). rewrite (Hord nm).
    assert (forall n, count_name n (pre ++ [s]) = (count_name n pre + if decide (nm = n) then 1 else 0)%N) as Hpre.
    { intros n. rewrite count_name_app, count_name_one. f_equal. apply decide_ext. unfold replica_of. naive_solver. }
    assert (count_name nm pre < count_name nm all)%N as Hlt.
    { rewrite Hall', (count_name_app _ (pre ++ [s])), Hpre, decide_True by done. lia. }
    pose proof (Hm nm (count_name nm pre) ltac:(lia)) as Hkey.
    assert (forall i w, send_batches env i ss (<[nm := (count_name nm pre + 1)%N]> ord)
              (delete (replica_key nm (count_name nm pre)) m) w
            = send_group env i ss (replica_batches all (pre ++ [s]) ss pkg) w) as Hrest.
    { intros i' w'. apply IH; [done| |].
      - intros n. rewrite Hpre. case_decide as Hn; [subst n; by rewrite lookup_insert_eq|].
        rewrite lookup_insert_ne, Hord by done. lia.
      - intros n k. rewrite Hpre. intros Hk. rewrite lookup_delete_ne; [apply Hm; lia|].
        intros [<- <-]%replica_key_inj. rewrite decide_True in Hk by done. lia. }
    destruct (m !! replica_key nm (count_name nm pre)) as [[|u us]|]; cbn [default from_option Datatypes.id] in Hkey;
      rewrite <- Hkey; [by rewrite Hrest| |by rewrite Hrest].
    destruct (send_package (env i) (u :: us) s w) as [[[e|] [s' w']]|]; [done|by rewrite Hrest|done].
  - rewrite IH with (pre := pre ++ [s]); [done|done| |].
    + intros n. rewrite Hord, count_name_app, count_name_one, decide_False; [lia|]. intros [? _]. congruence.
    + intros n k. rewrite count_name_app, count_name_one, decide_False; [|intros [? _]; congruence].
      rewrite N.add_0_r. apply Hm.
Qed.

(** Exactly one replica of a name has a given ordinal. *)
Lemma replica_unique n (ss pre : list Sink) k :
  (count_name n pre <= k < count_name n pre + count_name n ss)%N ->
  exists a s b, ss = a ++ s :: b /\ replica_of n s /\ count_name n (pre ++ a) = k /\
    forall a' s' b', ss = a' ++ s' :: b' -> replica_of n s' -> count_name n (pre ++ a') = k -> a' = a.
Proof.
  revert pre. induction ss as [|s ss IH]; intros pre Hk; [unfold count_name in Hk; cbn in Hk; lia|].
  change (s :: ss) with ([s] ++ ss) in Hk. rewrite count_name_app, count_name_one in Hk.
  destruct (decide (replica_of n s /\ count_name n pre = k)) as [[Hs Hc]|Hno].
  - exists [], s, ss. rewrite app_nil_r. split_and!; try done. intros [|x a'] s' b' [= -> ->] _ Hk'; [done|].
    change (x :: a') with ([x] ++ a') in Hk'. rewrite !count_name_app, count_name_one, decide_True in Hk' by done. lia.
  - destruct (IH (pre ++ [s])) as (a & s1 & b & -> & Hs1 & Hc & Hu).
    { rewrite count_name_app, count_name_one. case_decide; [|lia]. assert (count_name n pre <> k) by tauto. lia. }
    rewrite <- app_assoc in Hc. exists (s :: a), s1, b. split_and!; try done.
    intros [|x a'] s' b' [= -> Hb] Hs' Hk'; [rewrite app_nil_r in Hk'; tauto|].
    f_equal. apply (Hu a' s' b' Hb Hs'). by rewrite <- app_assoc.
Qed.

Lemma replica_batches_lookup all pre ss pkg i :
  replica_batches all pre ss pkg !! i = (fun s => batch_of all (pre ++ take i ss) s pkg) <$> ss !! i.
Proof.
  revert pre i. induction ss as [|s ss IH]; intros pre [|i]; cbn; [done|done|by rewrite app_nil_r|].
  rewrite IH. by rewrite <- app_assoc.
Qed.

Lemma batch_of_elem all pre s pkg u :
  u ∈ batch_of all pre s pkg <->
  is_ready s = true /\ route_of all (sink_name s) u = count_name (sink_name s) pre /\ u ∈ pkg.
Proof.
  unfold batch_of. destruct (is_ready s); [rewrite list_elem_of_filter; naive_solver|].
  split; [by intros ?%not_elem_of_nil|by intros [? _]].
Qed.

(** A record handed over alone, with one flag per sink saying who gets it. *)
Fixpoint send_chosen gen_data (env : nat -> CallEnv (S := B)) (i : nat)
    (payload : SinkDataEnum (R := R) (F := V)) (chosen : list bool) (ss : list Sink) (w : Shared)
    : option (option SinkReason * (list Sink * Shared)) :=
  match ss, chosen with
  | s :: rest, c :: chosen =>
      let continue s w :=
        match send_chosen gen_data env (S i) payload chosen rest w with
        | Some (res, (rest, w)) => Some (res, (s :: rest, w))
        | None => None
        end in
      if c then
        match send_one gen_data (env i) payload s w with
        | None => None
        | Some (Some e, (s, w)) => Some (Some e, (s :: rest, w))
        | Some (None, (s, w)) => continue s w
        end
      else continue s w
  | ss, _ => Some (None, (ss, w))
  end.

Lemma batch_of_one all pre s u :
  bool_decide (batch_of all pre s [u] <> []) =
  is_ready s && bool_decide (route_of all (sink_name s) u = count_name (sink_name s) pre).
Proof.
  unfold batch_of. destruct (is_ready s); [|done]. rewrite filter_cons, filter_nil.
  cbn [andb]. case_decide; repeat case_bool_decide; done.
Qed.

Lemma dispatch_loop_chosen gen_data env all u payload ss pre i ordinals w :
  all = pre ++ ss -> (forall n, default 0%N (ordinals !! n) = count_name n pre) ->
  dispatch_loop gen_data env i (id u) payload (count_ready all) ordinals ss w
  = send_chosen gen_data env i payload
      (map (fun us => bool_decide (us <> [])) (replica_batches all pre ss [u])) ss w.
Proof.
  revert pre i ordinals w. induction ss as [|s ss IH]; intros pre i ord w Hall Hord; [done|].
  assert (all = (pre ++ [s]) ++ ss) as Hall' by by rewrite <- app_assoc.
  cbn [dispatch_loop send_chosen replica_batches map]. rewrite batch_of_one.
  destruct (is_ready s) eqn:Er; cbn [andb].
  - set (nm := sink_name s).
    assert (forall n, count_name n (pre ++ [s]) = (count_name n pre + if decide (nm = n) then 1 else 0)%N) as Hpre.
    { intros n. rewrite count_name_app, count_name_one. f_equal. apply decide_ext. unfold replica_of. naive_solver. }
    assert (0 < count_name nm all)%N as Hpos.
    { rewrite Hall', (count_name_app _ (pre ++ [s])), Hpre, decide_True by done. lia. }
    rewrite (Hord nm), count_ready_spec, decide_False by lia. cbn [default from_option Datatypes.id].
    assert (forall i w, dispatch_loop gen_data env i (id u) payload (count_ready all)
              (<[nm := (count_name nm pre + 1)%N]> ord) ss w
            = send_chosen gen_data env i payload
                (map (fun us => bool_decide (us <> [])) (replica_batches all (pre ++ [s]) ss [u])) ss w) as Hrest.
    { intros i' w'. apply IH; [done|]. intros n. rewrite Hpre.
      case_decide as Hn; [subst n; by rewrite lookup_insert_eq|]. rewrite lookup_insert_ne, Hord by done. lia. }
    unfold route_of. fold nm.
    destruct (N.eqb_spec (count_name nm pre) (id u mod count_name nm all)) as [Ht|Ht].
    + rewrite bool_decide_true by done.
      destruct (send_one gen_data (env i) payload s w) as [[[e|] [s' w']]|]; [done|by rewrite Hrest|done].
    + rewrite bool_decide_false by congruence. by rewrite Hrest.
  - rewrite IH with (pre := pre ++ [s]); [done|done|].
    intros n. rewrite Hord, count_name_app, count_name_one, decide_False; [lia|]. intros [? _]. congruence.
Qed.

Lemma ready_some (ss : list Sink) : count_ready ss <> ∅ <-> Exists (fun s => is_ready s = true) ss.
Proof.
  rewrite count_ready_empty. split.
  - intros Hn. apply dec_stable. intros He. apply Hn, Forall_forall. intros s Hs.
    destruct (is_ready s) eqn:Er; [|done]. exfalso. apply He, Exists_exists. by exists s.
  - intros (s & Hs & Hr)%Exists_exists Hf. rewrite Forall_forall in Hf. specialize (Hf s Hs). congruence.
Qed.

Lemma direct_batch_group env pkg (d : SinkDispatcher (V := V) (B := B) (M := M) (F := F) (R := R)) :
  group_sink_batch_direct env pkg d =
    (if bool_decide (pkg <> [] /\ Exists (fun s => is_ready s = true) (sinks d))
     then finish d (zlen pkg)
            (send_group env 0 (sinks d) (replica_batches (sinks d) [] (sinks d) pkg) (shared d))
     else Some (inl 0, d)).
Proof.
  destruct pkg as [|u pkg]; [case_bool_decide as Hc; [by destruct Hc as [Hc _]|done]|].
  unfold group_sink_batch_direct. case_bool_decide as He; case_bool_decide as Hx.
  - exfalso. destruct Hx as [_ Hx]. by apply ready_some in Hx.
  - done.
  - f_equal. apply (send_batches_group _ _ (u :: pkg)); [done|intros n; by rewrite lookup_empty|].
    intros n k [_ Hk]. by rewrite route_package, lookup_empty.
  - exfalso. apply Hx. split; [done|]. by apply ready_some.
Qed.

Lemma replica_batches_sublist (all : list Sink) (pkg : list Unit) : Forall (fun us => us `sublist_of` pkg) (replica_batches all [] all pkg).
Proof.
  apply Forall_lookup. intros i us Hi. rewrite replica_batches_lookup in Hi.
  apply fmap_Some in Hi as (s & _ & ->). unfold batch_of. destruct (is_ready s); [|apply sublist_nil_l].
  apply sublist_filter.
Qed.

Lemma replica_batches_unique (all : list Sink) (pkg : list Unit) n u :
  Exists (replica_of n) all -> u ∈ pkg ->
  exists i s us, all !! i = Some s /\ replica_of n s /\ replica_batches all [] all pkg !! i = Some us /\ u ∈ us /\
    forall j s' us', all !! j = Some s' -> replica_of n s' ->
      replica_batches all [] all pkg !! j = Some us' -> u ∈ us' -> j = i.
Proof.
  intros Hn Hu. assert (0 < count_name n all)%N as Hpos.
  { unfold count_name. apply Exists_exists in Hn as (s & Hs & Hr).
    assert (s ∈ filter (replica_of n) all) as Hin by by apply list_elem_of_filter.
    destruct (filter _ _); [by apply not_elem_of_nil in Hin|cbn; lia]. }
  destruct (replica_unique n all [] (route_of all n u)) as (a & s & b & Hab & Hs & Hc & Huniq).
  { split; [apply N.le_0_l|]. apply N.mod_lt. lia. }
  exists (length a), s, (batch_of all a s pkg). rewrite replica_batches_lookup.
  assert (all !! length a = Some s) as Hl by (rewrite Hab; by apply list_lookup_middle).
  rewrite Hl. cbn [fmap option_fmap option_map app].
  assert (take (length a) all = a) as Htake by (rewrite Hab; by apply take_app_length).
  rewrite Htake. destruct Hs as [Hr Hsn]. split_and!; try done.
  { apply batch_of_elem. split; [done|]. by rewrite Hsn. }
  intros j s' us' Hj [Hr' Hsn'] Hus' Hin. rewrite replica_batches_lookup, Hj in Hus'. injection Hus' as <-.
  apply batch_of_elem in Hin as (_ & Hroute & _). rewrite Hsn' in Hroute.
  rewrite <- (Huniq (take j all) s' (drop (S j) all)); [|by rewrite take_drop_middle|done|done].
  rewrite length_take. apply lookup_lt_Some in Hj. lia.
Qed.

(** ** Properties of direct routing *)

(** C31: direct routing of a batch: every ready sink is sent, in the order of the
    sinks and up to the first error, the units whose id modulo the number of ready
    replicas of its name is its own number among them, in the order of the batch
    and in one package; so every unit reaches exactly one replica of every
    sink name that has a ready one, whatever the names are. *)
Theorem direct_batch_routes (env : nat -> CallEnv (S := B)) (pkg : list Unit)
  (d : SinkDispatcher (V := V) (B := B) (M := M) (F := F) (R := R)) :
  let routed := replica_batches (sinks d) [] (sinks d) pkg in
  group_sink_batch_direct env pkg d =
    (if bool_decide (pkg <> [] /\ Exists (fun s => is_ready s = true) (sinks d))
     then finish d (zlen pkg) (send_group env 0 (sinks d) routed (shared d))
     else Some (inl 0, d)) /\
  Forall (fun us => us `sublist_of` pkg) routed /\
  forall n u, Exists (replica_of n) (sinks d) -> u ∈ pkg ->
    exists i s us, sinks d !! i = Some s /\ replica_of n s /\ routed !! i = Some us /\ u ∈ us /\
      forall j s' us', sinks d !! j = Some s' -> replica_of n s' -> routed !! j = Some us' -> u ∈ us' -> j = i.
Proof.
  split; [apply direct_batch_group|]. split; [apply replica_batches_sublist|].
  intros n u. apply replica_batches_unique.
Qed.

(** A record handed over alone goes to the replicas that a batch
    holding it would send it to. *)
Theorem single_record_routes gen_data (env : nat -> CallEnv (S := B)) (u : Unit)
  (payload : SinkDataEnum (R := R) (F := V)) (d : SinkDispatcher (V := V) (B := B) (M := M) (F := F) (R := R)) (count : Z) :
  dispatch_one_per_name gen_data env (id u) payload d count =
    if bool_decide (Exists (fun s => is_ready s = true) (sinks d))
    then finish d count (send_chosen gen_data env 0 payload
           (map (fun us => bool_decide (us <> [])) (replica_batches (sinks d) [] (sinks d) [u])) (sinks d) (shared d))
    else Some (inl count, d).
Proof.
  unfold dispatch_one_per_name. rewrite (dispatch_loop_chosen _ _ (sinks d) u payload (sinks d) []);
    [|done|intros n; by rewrite lookup_empty].
  pose proof (ready_some (sinks d)) as Hr.
  case_bool_decide as He; case_bool_decide as Hx; try done; exfalso; tauto.
Qed.

Lemma set_sinks_same (d : SinkDispatcher (V := V) (B := B) (M := M) (F := F) (R := R)) : set_sinks d (sinks d) (shared d) = d.
Proof. by destruct d. Qed.

Lemma broadcast_none gen_data (env : nat -> CallEnv (S := B)) i payload (ss : list Sink) w :
  filter (fun s => is_ready s = true) ss = [] ->
  broadcast gen_data env i payload ss w = Some (None, (ss, w)).
Proof.
  revert i. induction ss as [|s ss IH]; intros i; [done|]. rewrite filter_cons. cbn [broadcast].
  destruct (is_ready s); [by rewrite decide_True|]. rewrite decide_False by done. intros Hf. by rewrite IH.
Qed.

Lemma broadcast_first gen_data (env : nat -> CallEnv (S := B)) i payload (ss : list Sink) w :
  length (filter (fun s => is_ready s = true) ss) = 1%nat ->
  broadcast gen_data env i payload ss w = send_first_ready gen_data env i payload ss w.
Proof.
  revert i. induction ss as [|s ss IH]; intros i; [done|]. rewrite filter_cons. cbn [broadcast send_first_ready].
  destruct (is_ready s).
  - rewrite decide_True by done. cbn [length]. intros [= Hl]. apply nil_length_inv in Hl.
    destruct (send_one gen_data (env i) payload s w) as [[[e|] [s' w']]|]; [done| |done].
    by rewrite broadcast_none.
  - rewrite decide_False by done. intros Hf. by rewrite IH.
Qed.

(** The short cuts of the raw broadcast change nothing: with no, one or
    several ready sinks the line goes to every ready sink, in order, up to the first
    error. *)
Theorem sink_raw_broadcasts gen_data (env : nat -> CallEnv (S := B)) (dat : string)
  (d : SinkDispatcher (V := V) (B := B) (M := M) (F := F) (R := R)) :
  sink_raw gen_data env dat d = finish d 0 (broadcast gen_data env 0 (Raw dat) (sinks d) (shared d)).
Proof.
  unfold sink_raw. destruct (length (filter _ _)) as [|[|n]] eqn:El; [| |done].
  - apply nil_length_inv in El. rewrite broadcast_none by done. cbn [finish]. by rewrite set_sinks_same.
  - by rewrite broadcast_first.
Qed.
End Laws.

(** ** Fan-out *)

Section Fanout.
Context {V B M Q W : Type} `{DataLaws F R} `{!Backend R B} `{!OmlApi M R Q}.
Variable wildmatch_new : string -> W.
Variable wm_matches : W -> string -> bool.
Local Abbreviation Sink := (Sink (V := V) (B := B) (F := F) (R := R)).
Local Abbreviation Unit := (SinkRecUnit (R := R)).
Local Abbreviation Disp := (SinkDispatcher (V := V) (B := B) (M := M) (F := F) (R := R)).
Local Abbreviation sink_matches := (sink_matches wildmatch_new wm_matches).

(** The instance-wide tags come from pairs, as the code builds them. *)
Definition tags_built (d : Disp) : Prop := forall t, global_tags d = Some t -> exists pairs, t = from_pairs pairs.

Lemma from_pairs_NoDup pairs : NoDup (map fst (tags (from_pairs pairs))).
Proof. apply sorted_keys_NoDup, (from_pairs_sorted pairs []). constructor. Qed.

(** The items of a record stamped with [t]. *)
Definition stamped_items (t : GlobalTags) (l : list F) : list F :=
  filter (fun f => get_name f ∉ map fst (tags t)) l ++ map (fun p => from_chars p.1 p.2) (tags t).

Lemma apply_global_items (r : R) pairs :
  exists r', apply_global_tags r (from_pairs pairs) = Some r' /\ items r' = stamped_items (from_pairs pairs) (items r).
Proof. apply apply_tags_spec, from_pairs_NoDup. Qed.

Lemma stamped_items_idem t l : stamped_items t (stamped_items t l) = stamped_items t l.
Proof.
  unfold stamped_items at 1 2 3. rewrite filter_app, list_filter_filter.
  rewrite (filter_none _ (map _ (tags t))), app_nil_r.
  - f_equal. apply list_filter_iff. tauto.
  - apply Forall_forall. intros f (p & -> & Hp)%list_elem_of_fmap. rewrite from_chars_name. intros Hn.
    by apply Hn, list_elem_of_fmap_2.
Qed.

Lemma append_pre_tags_items (r : R) ts : items (append_pre_tags r ts) = items r ++ ts.
Proof.
  unfold append_pre_tags. revert r. induction ts as [|f ts IH]; intros r; cbn [foldl]; [by rewrite app_nil_r|].
  by rewrite IH, append_items, <- app_assoc.
Qed.

(** What a sink's record holds: the record's items and the sink's tags; when
    one of these is named like an instance-wide tag, all are stamped again. *)
Definition enriched_items (d : Disp) (s : Sink) (l : list F) : list F :=
  match global_tags d with
  | None => l ++ pre_tags s
  | Some t => if existsb (fun tag => contains t (get_name tag)) (pre_tags s)
              then stamped_items t (l ++ pre_tags s) else l ++ pre_tags s
  end.

Lemma enrich_items (d : Disp) (s : Sink) (r : R) :
  tags_built d -> exists r', enrich d s r = Some r' /\ items r' = enriched_items d s (items r).
Proof.
  intros Ht. unfold enrich, resolve_tag_conflicts, enriched_items. rewrite <- append_pre_tags_items.
  destruct (global_tags d) as [t|] eqn:Et; [|by eexists].
  destruct (Ht t Et) as [pairs ->]. destruct (existsb _ _); [|by eexists]. apply apply_global_items.
Qed.

Lemma stamp_items (d : Disp) (r : R) :
  tags_built d -> exists r', stamp d r = Some r' /\
    items r' = match global_tags d with Some t => stamped_items t (items r) | None => items r end.
Proof.
  intros Ht. unfold stamp. destruct (global_tags d) as [t|] eqn:Et; [|by eexists].
  destruct (Ht t Et) as [pairs ->]. apply apply_global_items.
Qed.

(** Stamped and enriched, a record ends with every instance-wide tag's value
    and no other field of its name. *)
Lemma enriched_tag (d : Disp) (s : Sink) t l k v :
  global_tags d = Some t -> NoDup (map fst (tags t)) -> (k, v) ∈ tags t ->
  filter (fun f => get_name f = k) (enriched_items d s (stamped_items t l)) = [from_chars k v].
Proof.
  intros Et Hnd Hkv. assert (forall l, filter (fun f => get_name f = k) (stamped_items t l) = [from_chars k v]) as Hs.
  { intros l'. unfold stamped_items. rewrite filter_app, list_filter_filter.
    rewrite (filter_none _ l'); cycle 1.
    { apply Forall_forall. intros f _ [<- Hf]. by apply Hf, (list_elem_of_fmap_2 fst _ (_, v)). }
    cbn [app]. clear -Hnd Hkv H1. induction (tags t) as [|[k' v'] ts IH]; [by apply not_elem_of_nil in Hkv|].
    cbn [map fst snd] in *. apply NoDup_cons in Hnd as [Hk' Hnd]. apply elem_of_cons in Hkv as [[= -> ->]|Hkv].
    - rewrite filter_cons_True by by rewrite from_chars_name. rewrite filter_none; [done|].
      apply Forall_forall. intros f (p & -> & Hp)%list_elem_of_fmap Hn. rewrite from_chars_name in Hn. subst k'.
      by apply Hk', list_elem_of_fmap_2.
    - rewrite filter_cons_False; [by apply IH|]. rewrite from_chars_name. intros ->.
      by apply Hk', (list_elem_of_fmap_2 fst _ (k, v)). }
  unfold enriched_items. rewrite Et. destruct (existsb _ _) eqn:Ex; [apply Hs|].
  rewrite filter_app, Hs, (filter_none _ (pre_tags s)); [done|].
  apply Forall_forall. intros f Hf <-. assert (existsb (fun tag => contains t (get_name tag)) (pre_tags s) = true) as Hx.
  { apply existsb_exists. exists f. split; [by apply list_elem_of_In|]. apply bool_decide_eq_true.
    by apply (list_elem_of_fmap_2 fst _ (_, v)). }
  congruence.
Qed.

(** ** Pushing to the sinks' vectors *)

(** What one entry does to the vector of a sink. *)
Definition pushed (d : Disp) (base : R) (u : Unit) (s : Sink) (slot slot' : list Unit) : Prop :=
  if sink_matches base s
  then exists r, enrich d s base = Some r /\ slot' = slot ++ [mkUnit (id u) (meta u) r]
  else slot' = slot.

Lemma push_targets_spec (d : Disp) u base ss slot remaining per_sink :
  tags_built d -> length per_sink = length ss ->
  remaining = countb (fun m => m) (map (sink_matches base) ss) ->
  (0 < remaining -> slot = Some base) ->
  exists per', push_targets d u ss (map (sink_matches base) ss) slot remaining per_sink = Some per' /\
    Forall3 (pushed d base u) ss per_sink per'.
Proof.
  intros Ht. revert slot remaining per_sink.
  induction ss as [|s ss IH]; intros slot remaining [|x per] Hl Hrem Hslot; try done.
  { exists []. split; [done|constructor]. }
  cbn [map countb] in Hrem. cbn [map push_targets]. injection Hl as Hl.
  pose proof (countb_nonneg (fun m : bool => m) (map (sink_matches base) ss)) as Hnn.
  destruct (sink_matches base s) eqn:Em.
  - rewrite Hslot by lia. unfold acquire_record_for_target. cbn [mbind option_bind].
    destruct (enrich_items d s base Ht) as (r & Hr & _). rewrite Hr. cbn [mbind option_bind].
    edestruct (IH (if remaining =? 1 then None else Some base) (remaining - 1) per) as (per' & -> & Hper');
      [done|lia| |].
    { intros Hp. by destruct (Z.eqb_spec remaining 1); [lia|]. }
    cbn [mbind option_bind]. eexists. split; [done|]. constructor; [|done]. unfold pushed. rewrite Em. by eexists.
  - destruct (IH slot remaining per) as (per' & -> & Hper'); [done|done|done|].
    cbn [mbind option_bind]. eexists. split; [done|]. constructor; [|done]. unfold pushed. by rewrite Em.
Qed.

Lemma no_matches_pushed (d : Disp) u base ss per_sink :
  length per_sink = length ss -> countb (fun m => m) (map (sink_matches base) ss) = 0 ->
  Forall3 (pushed d base u) ss per_sink per_sink.
Proof.
  revert per_sink. induction ss as [|s ss IH]; intros [|x per]; try done; [constructor|].
  cbn [map countb]. intros [= Hl] Hc. pose proof (countb_nonneg (fun m : bool => m) (map (sink_matches base) ss)).
  destruct (sink_matches base s) eqn:Em; [lia|]. constructor; [|by apply IH]. unfold pushed. by rewrite Em.
Qed.

Lemma push_transformed_spec (d : Disp) u base per_sink :
  tags_built d -> length per_sink = length (sinks d) -> stamp d (data u) = Some base ->
  exists per', push_transformed_record wildmatch_new wm_matches d u per_sink = Some per' /\
    Forall3 (pushed d base u) (sinks d) per_sink per'.
Proof.
  intros Ht Hl Hb. unfold push_transformed_record. destruct per_sink as [|x per] eqn:Ep.
  { destruct (sinks d); [|done]. exists []. split; [done|constructor]. }
  rewrite <- Ep in *. rewrite Hb. cbn [mbind option_bind]. unfold evaluate_sink_matches.
  destruct (Z.eqb_spec (countb (fun m => m) (map (sink_matches base) (sinks d))) 0) as [Hz|Hz].
  - exists per_sink. split; [done|]. by apply no_matches_pushed.
  - by apply push_targets_spec.
Qed.

(** A unit of the transformation for a sink: the record stamped and admitted by
    the sink's condition. *)
Definition admitted (d : Disp) (s : Sink) (u : Unit) : bool :=
  match stamp d (data u) with Some base => sink_matches base s | None => false end.

(** What the sink gets for it. *)
Definition delivered (d : Disp) (s : Sink) (u u' : Unit) : Prop :=
  id u' = id u /\ meta u' = meta u /\
  exists base, stamp d (data u) = Some base /\ enrich d s base = Some (data u').

Lemma fanout_spec (d : Disp) entries per_sink :
  tags_built d -> length per_sink = length (sinks d) ->
  exists per', push_all (push_transformed_record wildmatch_new wm_matches d) entries per_sink = Some per' /\
    Forall3 (fun s x x' => exists us, x' = x ++ us /\
      Forall2 (delivered d s) (filter (fun u => admitted d s u = true) entries) us) (sinks d) per_sink per'.
Proof.
  intros Ht. revert per_sink. induction entries as [|u entries IH]; intros per Hl; cbn [push_all].
  { exists per. split; [done|]. revert per Hl. generalize (sinks d). intros ss.
    induction ss as [|s ss IHs]; intros [|x per]; try done; [constructor|]. intros [= Hl].
    constructor; [|by apply IHs]. exists []. by rewrite app_nil_r. }
  destruct (stamp_items d (data u) Ht) as (base & Hb & _).
  destruct (push_transformed_spec d u base per Ht Hl Hb) as (per1 & -> & Ha). cbn [mbind option_bind].
  destruct (IH per1) as (per' & -> & Hc); [by rewrite <- (Forall3_length_lr _ _ _ _ Ha)|].
  exists per'. split; [done|]. clear IH Hl. revert per1 per' Ha Hc. generalize (sinks d). intros ss per1 per' Ha.
  revert per'. induction Ha as [|s x y ss xs ys Hxy _ IHs]; intros per' Hc; inversion Hc; subst; constructor; [|by apply IHs].
  match goal with H : exists us, _ = y ++ us /\ _ |- _ => destruct H as (us & -> & Hus) end.
  assert (admitted d s u = sink_matches base s) as Hadm by (unfold admitted; by rewrite Hb).
  unfold pushed in Hxy. rewrite filter_cons, Hadm. destruct (sink_matches base s).
  - destruct Hxy as (r & Hr & ->). rewrite decide_True by done. exists (mkUnit (id u) (meta u) r :: us).
    rewrite <- app_assoc. split; [done|]. constructor; [|done]. split_and!; [done|done|by exists base].
  - rewrite decide_False by done. subst y. by exists us.
Qed.

(** ** The fast path *)

Definition emitted (d : Disp) (s : Sink) (u u' : Unit) : Prop :=
  id u' = id u /\ meta u' = meta u /\ items (data u') = enriched_items d s (items (data u)).

Lemma emit_entry_spec (d : Disp) u ss per_sink :
  tags_built d -> length per_sink = length ss ->
  exists per', emit_entry d ss u per_sink = Some per' /\
    Forall3 (fun s x x' => exists u', x' = x ++ [u'] /\ emitted d s u u') ss per_sink per'.
Proof.
  intros Ht. revert per_sink. induction ss as [|s ss IH]; intros [|x per]; try done.
  { exists []. split; [done|constructor]. }
  intros [= Hl]. destruct (IH per Hl) as (per' & Hper & Hall). cbn [emit_entry]. rewrite Hper.
  assert (exists r, match pre_tags s with [] => Some (data u) | _ => enrich d s (data u) end = Some r /\
    items r = enriched_items d s (items (data u))) as (r & -> & Hr).
  { destruct (pre_tags s) eqn:Ep; [|by apply enrich_items]. eexists. split; [done|].
    unfold enriched_items. rewrite Ep, app_nil_r. by destruct (global_tags d). }
  cbn [mbind option_bind]. eexists. split; [done|]. constructor; [|done]. by eexists.
Qed.

Lemma emit_spec (d : Disp) entries per_sink :
  tags_built d -> length per_sink = length (sinks d) ->
  exists per', push_all (emit_entry d (sinks d)) entries per_sink = Some per' /\
    Forall3 (fun s x x' => exists us, x' = x ++ us /\ Forall2 (emitted d s) entries us) (sinks d) per_sink per'.
Proof.
  intros Ht. revert per_sink. induction entries as [|u entries IH]; intros per Hl; cbn [push_all].
  { exists per. split; [done|]. revert per Hl. generalize (sinks d). intros ss.
    induction ss as [|s ss IHs]; intros [|x per]; try done; [constructor|]. intros [= Hl].
    constructor; [|by apply IHs]. exists []. by rewrite app_nil_r. }
  destruct (emit_entry_spec d u (sinks d) per Ht Hl) as (per1 & -> & Ha). cbn [mbind option_bind].
  destruct (IH per1) as (per' & -> & Hc); [by rewrite <- (Forall3_length_lr _ _ _ _ Ha)|].
  exists per'. split; [done|]. clear IH Hl. revert per1 per' Ha Hc. generalize (sinks d). intros ss per1 per' Ha.
  revert per'. induction Ha as [|s x y ss xs ys Hxy _ IHs]; intros per' Hc; inversion Hc; subst; constructor; [|by apply IHs].
  match goal with H : exists us, _ = y ++ us /\ _ |- _ => destruct H as (us & -> & Hus) end.
  destruct Hxy as (u' & -> & Hu'). exists (u' :: us). rewrite <- app_assoc. split; [done|]. by constructor.
Qed.

Lemma Forall3_no_units (d : Disp) (P : Sink -> list Unit -> Prop) per' :
  Forall3 (fun s x x' => exists us, x' = x ++ us /\ P s us) (sinks d) (no_units d) per' ->
  Forall2 P (sinks d) per'.
Proof.
  unfold no_units. generalize (sinks d). intros ss. revert per'.
  induction ss as [|s ss IH]; intros per' Hf; inversion Hf; subst; constructor; [|by apply IH].
  match goal with H : exists us, _ |- _ => by destruct H as (us & -> & ?) end.
Qed.

Lemma Forall2_join {X Y Z : Type} (C : X -> Prop) (P : X -> Y -> Prop) (P' : X -> Z -> Prop)
  (T : Y -> Z -> Prop) xs ys zs :
  Forall C xs -> Forall2 P xs ys -> Forall2 P' xs zs -> (forall x y z, C x -> P x y -> P' x z -> T y z) ->
  Forall2 T ys zs.
Proof.
  intros Hc Hy Hz HT. revert zs Hz. induction Hy as [|x y xs ys Hxy _ IH]; intros zs Hz;
    inversion Hz; subst; constructor; apply Forall_cons in Hc as [Hx Hc]; [by eapply HT|by apply IH].
Qed.

Lemma stamp_again (d : Disp) (r : R) :
  tags_built d -> (forall t, global_tags d = Some t -> exists r0, apply_global_tags r0 t = Some r) ->
  exists base, stamp d r = Some base /\ items base = items r.
Proof.
  intros Ht Hst. destruct (stamp_items d r Ht) as (base & Hb & Hi). exists base. split; [done|]. rewrite Hi.
  destruct (global_tags d) as [t|] eqn:Et; [|done]. destruct (Ht t Et) as [pairs ->].
  destruct (Hst _ eq_refl) as [r0 Hr0]. destruct (apply_global_items r0 pairs) as (r' & Hr' & Hi').
  rewrite Hr0 in Hr'. injection Hr' as <-. rewrite Hi'. apply stamped_items_idem.
Qed.

(** One sink of the fast and of the general path. *)
Lemma fast_path_one (d : Disp) (s : Sink) entries us vs :
  tags_built d -> get_cond s = None ->
  (forall t, global_tags d = Some t -> Forall (fun u => exists r0, apply_global_tags r0 t = Some (data u)) entries) ->
  Forall2 (emitted d s) entries us ->
  Forall2 (delivered d s) (filter (fun u => admitted d s u = true) entries) vs ->
  Forall2 (fun u v => id u = id v /\ meta u = meta v /\ items (data u) = items (data v)) us vs.
Proof.
  intros Ht Hn Hst Hus. rewrite filter_all.
  2:{ apply Forall_forall. intros u _. unfold admitted. destruct (stamp_items d (data u) Ht) as (base & -> & _).
      unfold Dispatcher.sink_matches. by rewrite Hn. }
  revert vs. induction Hus as [|u u' l l' (Hi & Hm & Hit) _ IH]; intros vs Hvs; inversion Hvs as [|? v ? vs' Hv Hvs']; subst;
    constructor; [|apply IH; [|done]; intros t Et; by specialize (Hst t Et); apply Forall_cons in Hst as [_ ?]].
  destruct Hv as (Hi' & Hm' & base & Hb & Hr). split_and!; [congruence|congruence|].
  destruct (stamp_again d (data u) Ht) as (base' & Hb' & Heq).
  { intros t Et. specialize (Hst t Et). by apply Forall_cons in Hst as [? _]. }
  rewrite Hb in Hb'. injection Hb' as <-. destruct (enrich_items d s base Ht) as (r & Hr' & Hri).
  rewrite Hr in Hr'. injection Hr' as <-. by rewrite Hri, Heq, Hit.
Qed.

(** ** Properties of the fan-out *)

Definition tags_on_top (d : Disp) (l : list F) : Prop :=
  forall t k v, global_tags d = Some t -> (k, v) ∈ tags t ->
    filter (fun f => get_name f = k) l = [from_chars k v].

(** C32: the fan-out of a transformed batch never panics and gives every sink,
    in order, one unit for each record its condition admits (the record as
    stamped with the instance-wide tags) and nothing for the others; the
    unit keeps id and metadata and holds the record with the sink's tags, on
    which every instance-wide tag has its value and no rival, whatever the
    sink's own tags are called. *)
Theorem fanout_exact (d : Disp) (entries : list Unit) (Ht : tags_built d) :
  exists per_sink, fanout_transformed_batch wildmatch_new wm_matches d entries = Some per_sink /\
    Forall2 (fun s us =>
      Forall2 (delivered d s) (filter (fun u => admitted d s u = true) entries) us /\
      Forall (fun u' => tags_on_top d (items (data u'))) us) (sinks d) per_sink.
Proof.
  destruct (fanout_spec d entries (no_units d) Ht) as (per & Hp & Hf); [by unfold no_units; rewrite length_map|].
  exists per. split; [exact Hp|]. apply Forall3_no_units in Hf. eapply Forall2_impl; [exact Hf|].
  intros s us Hus. split; [done|]. clear Hf. induction Hus as [|u u' l l' (_ & _ & base & Hb & Hr) _ IH]; constructor; [|done].
  intros t k v Et Hkv. destruct (Ht t Et) as [pairs ->].
  destruct (stamp_items d (data u) Ht) as (base' & Hb' & Hib). rewrite Hb in Hb'. injection Hb' as <-. rewrite Et in Hib.
  destruct (enrich_items d s base Ht) as (r & Hr' & Hi). rewrite Hr in Hr'. injection Hr' as <-.
  rewrite Hi, Hib. eapply enriched_tag; [done|apply from_pairs_NoDup|done].
Qed.

(** Without conditions the fast path gives every sink the same units as
    the general one: records that were stamped when they were parsed get the
    same fields in the same order with and without the second stamping. *)
Theorem fast_path_agrees (d : Disp) (entries : list Unit) (Ht : tags_built d)
  (Hcond : has_conditions d = false)
  (Hstamped : forall t, global_tags d = Some t ->
     Forall (fun u => exists r0, apply_global_tags r0 t = Some (data u)) entries) :
  exists fast slow, emit_without_transform_batch d entries = Some fast /\
    fanout_transformed_batch wildmatch_new wm_matches d entries = Some slow /\
    Forall2 (Forall2 (fun u v => id u = id v /\ meta u = meta v /\ items (data u) = items (data v))) fast slow.
Proof.
  assert (length (no_units d) = length (sinks d)) as Hl by (unfold no_units; by rewrite length_map).
  destruct (emit_spec d entries (no_units d) Ht Hl) as (fast & Hfast & Hf).
  destruct (fanout_spec d entries (no_units d) Ht Hl) as (slow & Hslow & Hs).
  exists fast, slow. split; [exact Hfast|]. split; [exact Hslow|].
  apply Forall3_no_units in Hf. apply (Forall3_no_units d (fun s us =>
    Forall2 (delivered d s) (filter (fun u => admitted d s u = true) entries) us)) in Hs.
  assert (Forall (fun s => get_cond s = None) (sinks d)) as Hnone.
  { apply Forall_forall. intros s Hin. destruct (get_cond s) eqn:Ec; [|done]. exfalso.
    assert (has_conditions d = true); [|congruence]. apply existsb_exists. exists s.
    split; [by apply list_elem_of_In|by rewrite Ec]. }
  eapply Forall2_join; [exact Hnone|exact Hf|exact Hs|]. intros s us vs Hs0. by apply fast_path_one.
Qed.
End Fanout.

(** ** A concrete group *)

Definition LRec : Type := list (string * Value (H := list_types)).
Definition LField : Type := string * Value (H := list_types).

(** A backend that keeps every batch. *)
Definition log_backend : Backend LRec (list (list LRec)) :=
  {| sink_record s r := (s ++ [[r]], None); sink_records s _ rs := (s ++ [rs], None);
     sink_str s _ := (s, None); sink_str_batch s _ := (s, None); sink_bytes s _ := (s, None);
     sink_bytes_batch s _ := (s, None); SinkRuntime.stop s := (s, None) |}.

Definition no_oml : OmlApi unit LRec unit :=
  {| om_name _ := ""; om_rules _ := []; transform_batch_ref _ l q := (l, q) |}.

#[local] Existing Instances list_types list_api list_laws log_backend no_oml.

Definition LSink := Sink (V := unit) (B := list (list LRec)) (F := LField) (R := LRec).
Definition LDisp := SinkDispatcher (V := unit) (B := list (list LRec)) (M := unit) (F := LField) (R := LRec).

Definition demo_group_sink (nm : string) (cond : option (Expression LField)) (ts : list LField) : LSink :=
  mkDSink (with_batch_size nm 1 false [] 1) 0 [] cond true ts.

Definition demo_tags : GlobalTags := from_pairs [("zone", "z1"); ("env", "prod")].

Definition demo_group (cond : option (Expression LField)) : LDisp :=
  mkDispatcher "g" [] [demo_group_sink "a" cond [("zone", Chars "own")]; demo_group_sink "b" None []] []
    (Some demo_tags) 0 (mkShared 0 []).

Definition level_is_x : Expression LField := Compare (mkComparison "lvl" OpEq ("lvl", Chars "x")).

(** Three replicas of [a] (one frozen) and one sink [a_1]: units 0, 1, 2. *)
Example demo_direct :
  let sinks := [demo_group_sink "a" None []; freeze (demo_group_sink "a" None []); demo_group_sink "a" None [];
                demo_group_sink "a_1" None []] in
  let d : LDisp := mkDispatcher "g" [] sinks [] None 0 (mkShared 0 []) in
  let unit n : SinkRecUnit (R := LRec) := mkUnit n (WplName "r") [("n", IntV (Z.of_N n))] in
  match group_sink_batch_direct (fun _ => mkEnv Normal None None (fun _ => 0) (fun _ => inr SinkFailed))
          [unit 0; unit 1; unit 2]%N d with
  | Some (inl 3, d') => map (fun s => concat (primary (runtime s))) (Dispatcher.sinks d')
      = [[[("n", IntV 0)]; [("n", IntV 2)]]; []; [[("n", IntV 1)]];
         [[("n", IntV 0)]; [("n", IntV 1)]; [("n", IntV 2)]]]
  | _ => False
  end.
Proof. vm_compute. reflexivity. Qed.

Lemma demo_tags_built cond : tags_built (M := unit) (demo_group cond).
Proof. intros t [= <-]. by eexists. Qed.

Definition demo_units : list (SinkRecUnit (R := LRec)) :=
  [mkUnit 1 (OmlName "m") [("lvl", Chars "x"); ("env", Null)]; mkUnit 2 (OmlName "m") [("lvl", Chars "y")]].

Lemma fanout_exact_witness :
  exists per_sink,
    fanout_transformed_batch (fun p => p) String.eqb (demo_group (Some level_is_x)) demo_units = Some per_sink /\
    per_sink = [[mkUnit 1 (OmlName "m") [("lvl", Chars "x"); ("env", Chars "prod"); ("zone", Chars "z1")]];
                [mkUnit 1 (OmlName "m") [("lvl", Chars "x"); ("env", Chars "prod"); ("zone", Chars "z1")];
                 mkUnit 2 (OmlName "m") [("lvl", Chars "y"); ("env", Chars "prod"); ("zone", Chars "z1")]]] /\
    Forall (Forall (fun u' => tags_on_top (demo_group (Some level_is_x)) (items (data u')))) per_sink.
Proof.
  destruct (fanout_exact (fun p => p) String.eqb (demo_group (Some level_is_x)) demo_units (demo_tags_built _))
    as (per & Hp & Hf).
  exists per. split; [exact Hp|]. split; [vm_compute in Hp; by injection Hp as <-|].
  eapply Forall2_Forall_r; [exact Hf|]. apply Forall_forall. by intros s _ us [_ ?].
Defined.

Lemma fast_path_agrees_witness :
  let entries := [mkUnit 1 (WplName "r") [("msg", Chars "m"); ("env", Chars "prod"); ("zone", Chars "z1")]] in
  exists fast slow, emit_without_transform_batch (demo_group None) entries = Some fast /\
    fanout_transformed_batch (fun p => p) String.eqb (demo_group None) entries = Some slow /\
    fast = slow /\
    Forall2 (Forall2 (fun u v => id u = id v /\ meta u = meta v /\ items (data u) = items (data v))) fast slow.
Proof.
  intros entries.
  destruct (fast_path_agrees (fun p => p) String.eqb (demo_group None) entries (demo_tags_built _) eq_refl)
    as (fast & slow & Hf & Hs & Hfs).
  - intros t [= <-]. constructor; [|constructor]. by exists [("msg", Chars "m")].
  - exists fast, slow. split; [exact Hf|]. split; [exact Hs|]. split; [|exact Hfs].
    vm_compute in Hf, Hs. injection Hf as <-. by injection Hs as <-.
Defined.
