(* ===== verification/Stats.v ===== *)
(** The statistics library ([src/crates/wp-stats]): timers and counters
    ([model/measure.rs]), dimensions and their order ([model/dimension.rs],
    [model/stat_dim.rs]), requirements ([model/request.rs]), records
    ([model/record.rs]), the windowed collector ([collector/mod.rs]) and the
    mergeable report ([report/stat_report.rs]).

    Clock reads are arguments.  The [lru] crate is the class [LruApi]: the
    operations the collector calls, with the documented behaviour as the laws
    [LruLaws].  The standard library leaves the order of equal elements of an
    unstable sort, of a selection and of a hash map's values open: the class
    [CollApi] has them as operations, [CollLaws] as what their documentation
    promises.  [f64] is IEEE binary64, as the Standard Library specifies it. *)
From Stdlib Require Import ZArith Lia String.
From Stdlib Require Import Floats.SpecFloat.
From stdpp Require Import base gmap list strings sorting.
From S2P Require Import Prelude F64.
Local Open Scope string_scope.
Local Open Scope list_scope.
Local Open Scope Z_scope.
Local Open Scope wp_scope.

(** ** [model/measure.rs] *)
Module Measure.

(** The readings one construction of a timer makes: [beg], [end], [Instant]. *)
Record Clock := mkClock { c_beg : Z; c_end : Z; c_inst : Z }.

(** Times in nanoseconds. *)
Record TimedStat := mkTimed {
  beg : Z;
  end_ : Z;
  last_refresh : Z;
  initialized : bool;
}.

Definition TimedStat_now (c : Clock) : TimedStat := mkTimed (c_beg c) (c_end c) (c_inst c) true.

Definition use_secs (t : TimedStat) : Z := Z.quot (end_ t - beg t) 1000000000.

Definition use_millis (t : TimedStat) : Z := Z.quot (end_ t - beg t) 1000000.

Definition max_merge (self other : TimedStat) : TimedStat :=
  let self := if decide (beg self > beg other)
              then mkTimed (beg other) (end_ self) (last_refresh self) (initialized self) else self in
  if decide (end_ self < end_ other)
  then mkTimed (beg self) (end_ other) (last_refresh self) (initialized self) else self.

Definition stat_end_at (t : TimedStat) (time : Z) : TimedStat :=
  mkTimed (beg t) time (last_refresh t) (initialized t).

(** [now] and [cur_time] are the two clock reads, the second one only made
    when the period has elapsed; both branches of the code set the same fields. *)
Definition over_reset_timed_millis (t : TimedStat) (now cur_time millis : Z) : bool * TimedStat :=
  if decide (millis <= Z.max 0 (now - last_refresh t) / 1000000)
  then (true, mkTimed cur_time cur_time now true)
  else (false, t).

Definition over_reset_timed (t : TimedStat) (now cur_time secs : Z) : bool * TimedStat :=
  over_reset_timed_millis t now cur_time (secs * 1000).

Definition over_default_timed (t : TimedStat) (now cur_time : Z) : bool * TimedStat :=
  over_reset_timed_millis t now cur_time 100.

Inductive Importance := High | Low | Normal.

Definition importance_as_u32 (i : Importance) : Z :=
  match i with High => 3 | Low => 1 | Normal => 2 end.

(** [unreachable!] outside 1..3. *)
Definition importance_from (v : Z) : outcome Importance :=
  if decide (v = 1) then Ret Low else if decide (v = 2) then Ret Normal
  else if decide (v = 3) then Ret High else Panic.

Definition importance_up (i : Importance) : outcome Importance := importance_from (importance_as_u32 i + 1).
Definition importance_down (i : Importance) : outcome Importance := importance_from (importance_as_u32 i - 1).

Record MeasureUnit := mkMeasure { timer : TimedStat; total : Z; success : Z }.

Definition MeasureUnit_new (c : Clock) : MeasureUnit := mkMeasure (TimedStat_now c) 0 0.

Definition speed (m : MeasureUnit) : spec_float :=
  fmul (fdiv (as_f64 (total m)) (as_f64 (use_millis (timer m) + 1))) (as_f64 1000).

Definition suc_rate (m : MeasureUnit) : spec_float :=
  if decide (total m = 0) then S754_zero false
  else fmul (fdiv (as_f64 (success m)) (as_f64 (total m))) (as_f64 100).

Definition add (self other : MeasureUnit) : MeasureUnit :=
  mkMeasure (max_merge (timer self) (timer other))
    (total self +w total other) (success self +w success other).

Definition rec_in (m : MeasureUnit) : MeasureUnit := mkMeasure (timer m) (total m +w 1) (success m).
Definition rec_suc (m : MeasureUnit) : MeasureUnit := mkMeasure (timer m) (total m) (success m +w 1).

Definition finalize_end (m : MeasureUnit) (ts : Z) : MeasureUnit :=
  mkMeasure (stat_end_at (timer m) ts) (total m) (success m).

Definition rec_in_n (m : MeasureUnit) (n : Z) : MeasureUnit :=
  if decide (n = 0) then m else mkMeasure (timer m) (total m ⊕ n) (success m).

Definition rec_suc_n (m : MeasureUnit) (n : Z) : MeasureUnit :=
  if decide (n = 0) then m else mkMeasure (timer m) (total m) (success m ⊕ n).

Definition rec_beg_end_n (m : MeasureUnit) (n : Z) : MeasureUnit := rec_suc_n (rec_in_n m n) n.

End Measure.

(** ** [model/dimension.rs], [model/stat_dim.rs] *)
Module Dim.

Record DataDim := mkDataDim { item : list (option string) }.

#[export] Instance DataDim_eq_dec : EqDecision DataDim.
Proof. solve_decision. Defined.

Definition empty : DataDim := mkDataDim [].
Definition push (d : DataDim) (v : option string) : DataDim := mkDataDim (item d ++ [v]).
Definition from_str (value : string) : DataDim := mkDataDim [Some value].
Definition new2 (a : string * string) : DataDim := mkDataDim [Some a.1; Some a.2].
Definition new3 (a : string * string * string) : DataDim := mkDataDim [Some a.1.1; Some a.1.2; Some a.2].

(** [to_tdc], with the loop's index; [from_chars] is the record model's. *)
Fixpoint to_tdc_loop {F} (from_chars : string -> string -> F)
    (req : list string) (items : list (option string)) : list F :=
  match req, items with
  | k :: req, v :: items =>
      match v with
      | Some v => from_chars k v :: to_tdc_loop from_chars req items
      | None => to_tdc_loop from_chars req items
      end
  | _, _ => []
  end.

Definition to_tdc {F} (from_chars : string -> string -> F) (d : DataDim) (req : list string) : list F :=
  to_tdc_loop from_chars req (item d).

(** [Ord] of [Option<T>]: [None] first. *)
Definition opt_cmp {A} (cmp : A -> A -> comparison) (l r : option A) : comparison :=
  match l, r with
  | None, None => Eq
  | None, Some _ => Lt
  | Some _, None => Gt
  | Some l, Some r => cmp l r
  end.

(** The loop of [Ord for DataDim]; [None] when the fuel is not enough. *)
Fixpoint cmp_loop (fuel : nat) (self other : list (option string)) (idx : nat)
    (last_ord : comparison) : option comparison :=
  match fuel with
  | 0%nat => None
  | S fuel =>
      match self !! idx, other !! idx with
      | Some l, Some r =>
          let last_ord := opt_cmp String.compare l r in
          if decide (last_ord = Eq) then cmp_loop fuel self other (S idx) last_ord
          else Some last_ord
      | Some _, None => Some Gt
      | None, Some _ => Some Lt
      | None, None => Some last_ord
      end
  end.

(** One more iteration than [self] has items ends the loop ([cmp_loop_ends]). *)
Definition DataDim_cmp (self other : DataDim) : comparison :=
  default Eq (cmp_loop (S (length (item self))) (item self) (item other) 0 Eq).

Definition opt_string (o : option string) : string := default "*" o.

(** [Display]: [sep] is empty before the first item. *)
Fixpoint display_items (sep : string) (l : list (option string)) : string :=
  match l with
  | [] => ""
  | i :: l => (sep +:+ opt_string i +:+ display_items "," l)%string
  end.

Definition DataDim_display (d : DataDim) : string := display_items "" (item d).

Inductive StatTarget := All | Ignore | Item (item : string).

Definition StatTarget_display (t : StatTarget) : string :=
  match t with
  | All => "all"
  | Ignore => "ignore"
  | Item v => ("item(" +:+ v +:+ ")")%string
  end.

Record StatDim := mkStatDim { target : option string; collect : DataDim }.

#[export] Instance StatDim_eq_dec : EqDecision StatDim.
Proof. solve_decision. Defined.

Definition StatDim_cmp (self other : StatDim) : comparison :=
  let order := opt_cmp String.compare (target self) (target other) in
  if decide (order = Eq) then DataDim_cmp (collect self) (collect other) else order.

Definition StatDim_display (d : StatDim) : string :=
  (default "*" (target d) +:+ "@" +:+ DataDim_display (collect d))%string.

Definition make_rule_value (req_target : StatTarget) (target_str : string) : option string :=
  match req_target with
  | All => Some target_str
  | Ignore => None
  | Item item => if decide (item = target_str) then Some item else None
  end.

Definition make_dim (req_target : StatTarget) (real_target : string) (data : DataDim) : StatDim :=
  mkStatDim (make_rule_value req_target real_target) data.

(** [DimensionBuilder<()>]. *)
Definition make_dim_unit (req_target : StatTarget) (real_target : string) : StatDim :=
  make_dim req_target real_target empty.

End Dim.

(** ** [model/request.rs] *)
Module Request.
Import Dim.

Inductive StatStage := Gen | Pick | Parse | Sink.

#[export] Instance StatStage_eq_dec : EqDecision StatStage.
Proof. solve_decision. Defined.

Definition StatStage_display (s : StatStage) : string :=
  match s with Gen => "Gen" | Pick => "Pick" | Parse => "Parse" | Sink => "Sink" end.

Record StatReq := mkReq {
  stage : StatStage;
  name : string;
  req_target : StatTarget;
  req_collect : list string;
  max : Z;
}.

Definition match_target (r : StatReq) (target : string) : bool :=
  match req_target r with
  | All => true
  | Ignore => false
  | Item item => bool_decide (target = item)
  end.

Definition data_display (r : StatReq) : option string :=
  if decide (req_collect r = []) then None else Some (String.concat "," (req_collect r)).

(** [StatRequires::get_requ_items]. *)
Definition get_requ_items (items : list StatReq) (st : StatStage) : list StatReq :=
  foldl (fun out i => if decide (stage i = st) then out ++ [i] else out) [] items.

End Request.

(** ** [model/record.rs], [report/record.rs] *)
Module Slice.
Import Measure Dim Request.

Record SliceRecord := mkSlice {
  s_stage : StatStage;
  item_key : string;
  value : DataDim;
  stat : MeasureUnit;
}.

Local Abbreviation with_stat r s := (mkSlice (s_stage r) (item_key r) (value r) s).

Definition SliceRecord_new (c : Clock) (stage : StatStage) (item_key : string) (value : DataDim) : SliceRecord :=
  mkSlice stage item_key value (MeasureUnit_new c).

Definition update_name (r : SliceRecord) (name : string) : SliceRecord :=
  mkSlice (s_stage r) name (value r) (stat r).

Definition slice_can_merge (self other : SliceRecord) : bool :=
  bool_decide (s_stage self = s_stage other) && bool_decide (item_key self = item_key other).

Definition slice_merge (self other : SliceRecord) : SliceRecord := with_stat self (add (stat self) (stat other)).

Definition rec_beg (r : SliceRecord) : SliceRecord := with_stat r (rec_in (stat r)).
Definition rec_end (r : SliceRecord) : SliceRecord := with_stat r (rec_suc (stat r)).
Definition rec_beg_end (r : SliceRecord) : SliceRecord := with_stat r (rec_suc (rec_in (stat r))).
Definition rec_beg_n (r : SliceRecord) (n : Z) : SliceRecord := with_stat r (rec_in_n (stat r) n).
Definition rec_end_n (r : SliceRecord) (n : Z) : SliceRecord := with_stat r (rec_suc_n (stat r) n).
Definition slice_rec_beg_end_n (r : SliceRecord) (n : Z) : SliceRecord := with_stat r (rec_beg_end_n (stat r) n).

Definition slice_finalize_end (r : SliceRecord) (ts : Z) : SliceRecord := with_stat r (finalize_end (stat r) ts).

(** [Ord for SliceRecord<WpStatTag>]: by the total alone. *)
Definition StatRecord_cmp (self other : SliceRecord) : comparison :=
  (total (stat self) ?= total (stat other)).

End Slice.

(** ** The crates and the collections of the standard library *)
Module Coll.
Import Slice.

(** [lru::LruCache<K, V>]. *)
Class LruApi (K V : Type) := {
  lru_t : Type;
  lru_new : Z -> lru_t;
  (** [get_or_insert_mut_ref(k, || v)], and what the caller does with the reference *)
  lru_get_or_insert_mut : lru_t -> K -> V -> (V -> V) -> lru_t;
  lru_iter_mut : lru_t -> (V -> V) -> lru_t;
  lru_is_empty : lru_t -> bool;
  lru_into_iter : lru_t -> list (K * V);
}.

(** Most recently used first: the entry found comes to the front; a new one
    goes there and, when the cache is full, the last one goes. *)
Definition lru_touch {K V} `{EqDecision K} (cap : Z) (l : list (K * V)) (k : K) (v : V) (f : V -> V)
    : list (K * V) :=
  match list_find (fun p : K * V => p.1 = k) l with
  | Some (i, p) => (k, f p.2) :: delete i l
  | None => (k, f v) :: (if decide (cap <= zlen l) then take (length l - 1) l else l)
  end.

Class LruLaws (K V : Type) `{EqDecision K} (L : LruApi K V) := {
  lru_view : lru_t (K:=K) (V:=V) -> list (K * V);
  lru_cap : lru_t (K:=K) (V:=V) -> Z;
  lru_new_view n : lru_view (lru_new n) = [];
  lru_new_cap n : lru_cap (lru_new n) = n;
  lru_touch_view c k v f :
    lru_view (lru_get_or_insert_mut c k v f) = lru_touch (lru_cap c) (lru_view c) k v f;
  lru_touch_cap c k v f : lru_cap (lru_get_or_insert_mut c k v f) = lru_cap c;
  lru_iter_mut_view c f : lru_view (lru_iter_mut c f) = prod_map id f <$> lru_view c;
  lru_iter_mut_cap c f : lru_cap (lru_iter_mut c f) = lru_cap c;
  lru_is_empty_view c : lru_is_empty c = bool_decide (lru_view c = []);
  lru_into_iter_view c : lru_into_iter c ≡ₚ lru_view c;
}.

(** Operations of [std] whose result is not fully determined. *)
Class CollApi := {
  (** [select_nth_unstable_by(n, |a, b| b.total.cmp(&a.total))] *)
  select_nth_desc : nat -> list SliceRecord -> list SliceRecord;
  (** [sort_unstable_by_key(|b| Reverse(b.total))] *)
  sort_desc : list SliceRecord -> list SliceRecord;
  (** [HashMap::into_values] *)
  into_values : gmap string SliceRecord -> list SliceRecord;
}.

Definition ge_total (a b : SliceRecord) : Prop :=
  Measure.total (stat b) <= Measure.total (stat a).

Class CollLaws (C : CollApi) := {
  select_perm n l : select_nth_desc n l ≡ₚ l;
  select_splits n l a b : (n < length l)%nat ->
    a ∈ take n (select_nth_desc n l) -> b ∈ drop n (select_nth_desc n l) -> ge_total a b;
  sort_perm l : sort_desc l ≡ₚ l;
  sort_sorted l : Sorted ge_total (sort_desc l);
  into_values_perm m : into_values m ≡ₚ (map_to_list m).*2;
}.

End Coll.

(** ** [report/stat_report.rs] *)
Module Report.
Import Measure Dim Request Slice Coll.

Definition TOP_N_MULTIPLIER : Z := 2.

Record StatReport := mkReport {
  req : StatReq;
  cur_target : option string;
  data : list SliceRecord;
}.

Definition StatReport_from (r : StatReq) : StatReport := mkReport r None [].
Definition StatReport_new (r : StatReq) (target : option string) (d : list SliceRecord) : StatReport :=
  mkReport r target d.

Definition target_display (r : StatReport) : string := default "*" (cur_target r).

(** [PartialEq for StatReport] and [can_merge] are the same test. *)
Definition report_can_merge (self other : StatReport) : bool :=
  bool_decide (stage (req self) = stage (req other)) &&
  bool_decide (name (req self) = name (req other)) &&
  bool_decide (cur_target self = cur_target other).

Definition StatReport_eq : StatReport -> StatReport -> bool := report_can_merge.

Definition StatReport_cmp (self other : StatReport) : comparison :=
  let order := String.compare (name (req self)) (name (req other)) in
  if decide (order = Eq) then opt_cmp String.compare (cur_target self) (cur_target other) else order.

Section Merge.
Context {C : CollApi}.

(** Keep the [2 * max] records with the largest totals, largest first: the end
    of [merge] and of [collect_from_cache]. *)
Definition keep_top (max : Z) (data : list SliceRecord) : list SliceRecord :=
  let keep := Z.to_nat ((max * TOP_N_MULTIPLIER) mod 2 ^ 64) in
  let data := if decide (keep < length data)%nat then take keep (select_nth_desc keep data) else data in
  sort_desc data.

Definition index_self (d : list SliceRecord) : gmap string SliceRecord :=
  foldl (fun m it => <[item_key it := it]> m) ∅ d.

Definition merge_entry (m : gmap string SliceRecord) (v : SliceRecord) : gmap string SliceRecord :=
  match m !! item_key v with
  | Some existing => if slice_can_merge existing v then <[item_key v := slice_merge existing v]> m else m
  | None => <[item_key v := v]> m
  end.

Definition StatReport_merge (self other : StatReport) : StatReport :=
  mkReport (req self) (cur_target other)
    (keep_top (max (req self)) (into_values (foldl merge_entry (index_self (data self)) (data other)))).

End Merge.
End Report.

(** ** [collector/mod.rs] *)
Module Collector.
Import Measure Dim Request Slice Coll Report.

Definition MIN_CACHE_SIZE : Z := 5.

Section Ops.
Context {L : LruApi StatDim SliceRecord} {C : CollApi}.
Local Abbreviation StatCache := (lru_t (K:=StatDim) (V:=SliceRecord)).

Record StatCollector := mkCollector {
  c_target : string;
  require : StatReq;
  record : StatCache;
  unit_dims : gmap string StatDim;
}.

Definition init_cache (r : StatReq) : StatCache := lru_new (Z.max (max r) MIN_CACHE_SIZE).

Definition StatCollector_new (target : string) (r : StatReq) : StatCollector :=
  mkCollector target r (init_cache r) ∅.

Definition up_target (s : StatCollector) (target : string) : StatCollector :=
  mkCollector target (require s) (record s) (unit_dims s).

Definition finalize_with_time (s : StatCollector) (ts : Z) : StatCollector :=
  mkCollector (c_target s) (require s) (lru_iter_mut (record s) (fun r => slice_finalize_end r ts)) (unit_dims s).

(** Which entries of the cache the report takes, by the requirement's target. *)
Definition include (t : StatTarget) (k : StatDim) : bool :=
  match t with
  | All => true
  | Ignore => false
  | Item expect => match target k with Some actual => bool_decide (actual = expect) | None => false end
  end.

Definition collect_from_cache (s : StatCollector) (cache : StatCache) (finalize_at : option Z) : StatReport :=
  let data := foldl (fun data p =>
      if include (req_target (require s)) p.1
      then data ++ [match finalize_at with Some ts => slice_finalize_end p.2 ts | None => p.2 end]
      else data) [] (lru_into_iter cache) in
  StatReport_new (require s) (Some (c_target s)) (keep_top (max (require s)) data).

Definition collect_from_cache_swapped (s : StatCollector) (finalize_at : option Z) : StatReport * StatCollector :=
  (collect_from_cache s (record s) finalize_at,
   mkCollector (c_target s) (require s) (init_cache (require s)) ∅).

Definition collect_stat (s : StatCollector) : StatReport * StatCollector := collect_from_cache_swapped s None.
Definition collect_stat_with_time (s : StatCollector) (ts : Z) : StatReport * StatCollector :=
  collect_from_cache_swapped s (Some ts).

(** [get_or_create_record], and what the caller does with the reference. *)
Definition get_or_create_record (c : Clock) (s : StatCollector) (dim : StatDim)
    (f : SliceRecord -> SliceRecord) : StatCollector :=
  mkCollector (c_target s) (require s)
    (lru_get_or_insert_mut (record s) dim
       (SliceRecord_new c (stage (require s)) (StatDim_display dim) (collect dim)) f)
    (unit_dims s).

Definition unit_dim_cached (s : StatCollector) (rule_key : string) : StatDim * StatCollector :=
  match unit_dims s !! rule_key with
  | Some dim => (dim, s)
  | None =>
      let dim := make_dim_unit (req_target (require s)) rule_key in
      (dim, mkCollector (c_target s) (require s) (record s) (<[rule_key := dim]> (unit_dims s)))
  end.

Definition rec_beg_impl (c : Clock) (s : StatCollector) (dim : StatDim) := get_or_create_record c s dim rec_beg.
Definition rec_end_impl (c : Clock) (s : StatCollector) (dim : StatDim) := get_or_create_record c s dim rec_end.
Definition rec_beg_end_impl (c : Clock) (s : StatCollector) (dim : StatDim) :=
  get_or_create_record c s dim rec_beg_end.

Definition rec_beg_n_impl (c : Clock) (s : StatCollector) (dim : StatDim) (n : Z) : StatCollector :=
  if decide (n = 0) then s else get_or_create_record c s dim (fun r => rec_beg_n r n).
Definition rec_end_n_impl (c : Clock) (s : StatCollector) (dim : StatDim) (n : Z) : StatCollector :=
  if decide (n = 0) then s else get_or_create_record c s dim (fun r => rec_end_n r n).
(** The record is created even when [n = 0]. *)
Definition rec_beg_end_n_impl (c : Clock) (s : StatCollector) (dim : StatDim) (n : Z) : StatCollector :=
  get_or_create_record c s dim (fun r => if decide (n > 0) then slice_rec_beg_end_n r n else r).

(** [StatRecorder<DataDim>]; the [&str] recorder passes [DataDim::from]. *)
Definition record_begin (c : Clock) (s : StatCollector) (rule_key : string) (dat : DataDim) :=
  rec_beg_impl c s (make_dim (req_target (require s)) rule_key dat).
Definition record_end (c : Clock) (s : StatCollector) (rule_key : string) (dat : DataDim) :=
  rec_end_impl c s (make_dim (req_target (require s)) rule_key dat).
Definition record_task (c : Clock) (s : StatCollector) (rule_key : string) (dat : DataDim) :=
  rec_beg_end_impl c s (make_dim (req_target (require s)) rule_key dat).

(** [StatRecorder<&str>]. *)
Definition record_begin_str (c : Clock) (s : StatCollector) (rule_key dat : string) :=
  rec_beg_impl c s (make_dim (req_target (require s)) rule_key (from_str dat)).
Definition record_end_str (c : Clock) (s : StatCollector) (rule_key dat : string) :=
  rec_end_impl c s (make_dim (req_target (require s)) rule_key (from_str dat)).
Definition record_task_str (c : Clock) (s : StatCollector) (rule_key dat : string) :=
  rec_beg_end_impl c s (make_dim (req_target (require s)) rule_key (from_str dat)).

(** [StatRecorder<()>]. *)
Definition record_begin_unit (c : Clock) (s : StatCollector) (rule_key : string) : StatCollector :=
  let '(dim, s) := unit_dim_cached s rule_key in rec_beg_impl c s dim.
Definition record_end_unit (c : Clock) (s : StatCollector) (rule_key : string) : StatCollector :=
  let '(dim, s) := unit_dim_cached s rule_key in rec_end_impl c s dim.
Definition record_task_unit (c : Clock) (s : StatCollector) (rule_key : string) : StatCollector :=
  let '(dim, s) := unit_dim_cached s rule_key in rec_beg_end_impl c s dim.

Definition record_begin_n (c : Clock) (s : StatCollector) (rule_key : string) (dat : DataDim) (n : Z) :=
  rec_beg_n_impl c s (make_dim (req_target (require s)) rule_key dat) n.
Definition record_begin_n_unit (c : Clock) (s : StatCollector) (rule_key : string) (n : Z) : StatCollector :=
  let '(dim, s) := unit_dim_cached s rule_key in rec_beg_n_impl c s dim n.
Definition record_end_n (c : Clock) (s : StatCollector) (rule_key : string) (dat : DataDim) (n : Z) :=
  rec_end_n_impl c s (make_dim (req_target (require s)) rule_key dat) n.
Definition record_end_n_unit (c : Clock) (s : StatCollector) (rule_key : string) (n : Z) : StatCollector :=
  let '(dim, s) := unit_dim_cached s rule_key in rec_end_n_impl c s dim n.
Definition record_task_n (c : Clock) (s : StatCollector) (rule_key : string) (dat : DataDim) (n : Z) :=
  rec_beg_end_n_impl c s (make_dim (req_target (require s)) rule_key dat) n.
Definition record_task_n_str (c : Clock) (s : StatCollector) (rule_key dat : string) (n : Z) :=
  rec_beg_end_n_impl c s (make_dim (req_target (require s)) rule_key (from_str dat)) n.
Definition record_task_n_unit (c : Clock) (s : StatCollector) (rule_key : string) (n : Z) : StatCollector :=
  let '(dim, s) := unit_dim_cached s rule_key in rec_beg_end_n_impl c s dim n.

End Ops.
End Collector.
