(* ===== verification/StatsLaws.v ===== *)
(** What the statistics library ([Stats]) promises: dimensions are totally
    ordered, reports keep the records with the largest totals, collectors count
    every event of the window, merging adds the counts of equal keys, and a
    clean dimension is determined by the key it is printed as. *)
From Stdlib Require Import ZArith Lia String Ascii.
From Stdlib Require Import Structures.OrdersEx.
From stdpp Require Import base gmap list strings sorting.
From S2P Require Import Prelude Stats.
Import Measure Dim Request Slice Coll Report Collector.
Local Open Scope string_scope.
Local Open Scope list_scope.
Local Open Scope Z_scope.
Local Open Scope wp_scope.

(** ** Orders *)

(** A comparison function that is a total order agreeing with equality, as
    [Ord] and [Eq] require. *)
Record total_cmp {A : Type} (cmp : A -> A -> comparison) : Prop := {
  tc_eq a b : cmp a b = Eq <-> a = b;
  tc_anti a b : cmp b a = CompOpp (cmp a b);
  tc_trans a b c : cmp a b = Lt -> cmp b c = Lt -> cmp a c = Lt;
}.
Arguments tc_eq {A cmp}. Arguments tc_anti {A cmp}. Arguments tc_trans {A cmp}.

Lemma tc_refl {A} (cmp : A -> A -> comparison) : total_cmp cmp -> forall a, cmp a a = Eq.
Proof. intros T a. by apply (tc_eq T). Qed.

Lemma string_total : total_cmp String.compare.
Proof.
  split.
  - intros a b; split; [apply String.compare_eq_iff|intros ->].
    pose proof (String.compare_antisym b b) as H. by destruct (String.compare b b).
  - intros a b. apply String.compare_antisym.
  - intros a b c. apply (@RelationClasses.StrictOrder_Transitive _ _ String_as_OT.lt_strorder).
Qed.

(** Case analysis on a lexicographic comparison whose first part is [cmp a b]. *)
Lemma opt_total {A} (cmp : A -> A -> comparison) : total_cmp cmp -> total_cmp (opt_cmp cmp).
Proof.
  intros T. split.
  - intros [a|] [b|]; cbn; try naive_solver. rewrite (tc_eq T). naive_solver.
  - intros [a|] [b|]; cbn; try done. apply (tc_anti T).
  - intros [a|] [b|] [c|]; cbn; try done. apply (tc_trans T).
Qed.

(** Lexicographic order of lists, the reference definition. *)
Fixpoint lex_cmp {A} (cmp : A -> A -> comparison) (l r : list A) : comparison :=
  match l, r with
  | [], [] => Eq
  | [], _ :: _ => Lt
  | _ :: _, [] => Gt
  | x :: l, y :: r => match cmp x y with Eq => lex_cmp cmp l r | o => o end
  end.

(** Lexicographic composition preserves transitivity. *)
Lemma lex_step {A B} (cmp : A -> A -> comparison) (cb : B -> B -> comparison) a b c x y z :
  total_cmp cmp ->
  (cb x y = Lt -> cb y z = Lt -> cb x z = Lt) ->
  match cmp a b with Eq => cb x y | o => o end = Lt ->
  match cmp b c with Eq => cb y z | o => o end = Lt ->
  match cmp a c with Eq => cb x z | o => o end = Lt.
Proof.
  intros T Hc. destruct (cmp a b) eqn:E1; destruct (cmp b c) eqn:E2; try done; intros H1 H2.
  - apply (tc_eq T) in E1 as ->, E2 as ->. rewrite (tc_refl _ T). auto.
  - apply (tc_eq T) in E1 as ->. by rewrite E2.
  - apply (tc_eq T) in E2 as ->. by rewrite E1.
  - by rewrite (tc_trans T _ _ _ E1 E2).
Qed.

Lemma lex_total {A} (cmp : A -> A -> comparison) : total_cmp cmp -> total_cmp (lex_cmp cmp).
Proof.
  intros T. split.
  - induction a as [|x a IH]; intros [|y b]; cbn; try done.
    destruct (cmp x y) eqn:E.
    + apply (tc_eq T) in E as ->. rewrite IH. split; [by intros ->|by intros [= ->]].
    + split; [done|]. intros [= -> ->]. by rewrite (tc_refl _ T) in E.
    + split; [done|]. intros [= -> ->]. by rewrite (tc_refl _ T) in E.
  - induction a as [|x a IH]; intros [|y b]; cbn; try done.
    rewrite (tc_anti T x y). destruct (cmp x y); cbn; auto.
  - induction a as [|x a IH]; intros [|y b] [|z c]; cbn; try (intros; congruence).
    apply (lex_step cmp (lex_cmp cmp)); [done|apply IH].
Qed.

(** With one more iteration than [self] has items left the loop ends, with
    the lexicographic order of what is left. *)
Lemma cmp_loop_ends fuel self other idx :
  (length self < fuel + idx)%nat -> (idx <= length self)%nat -> (idx <= length other)%nat ->
  cmp_loop fuel self other idx Eq = Some (lex_cmp (opt_cmp String.compare) (drop idx self) (drop idx other)).
Proof.
  revert idx. induction fuel as [|fuel IH]; intros idx Hf Hs Ho; [lia|].
  cbn [cmp_loop].
  destruct (self !! idx) as [l|] eqn:El; destruct (other !! idx) as [r|] eqn:Er.
  - rewrite (drop_S _ _ _ El), (drop_S _ _ _ Er). cbn [lex_cmp].
    destruct (opt_cmp String.compare l r) eqn:E; cbn; try done.
    apply lookup_lt_Some in El, Er. apply IH; lia.
  - rewrite (drop_S _ _ _ El), (drop_ge other) by by apply lookup_ge_None. done.
  - rewrite (drop_S _ _ _ Er), (drop_ge self) by by apply lookup_ge_None. done.
  - by rewrite !drop_ge by by apply lookup_ge_None.
Qed.

Lemma DataDim_cmp_lex a b : DataDim_cmp a b = lex_cmp (opt_cmp String.compare) (item a) (item b).
Proof. unfold DataDim_cmp. rewrite cmp_loop_ends by lia. done. Qed.

Lemma datadim_total : total_cmp DataDim_cmp.
Proof.
  pose proof (lex_total _ (opt_total _ string_total)) as T. split.
  - intros [a] [b]. rewrite DataDim_cmp_lex, (tc_eq T). cbn. naive_solver.
  - intros a b. rewrite !DataDim_cmp_lex. apply (tc_anti T).
  - intros a b c. rewrite !DataDim_cmp_lex. apply (tc_trans T).
Qed.

Lemma StatDim_cmp_lex a b :
  StatDim_cmp a b = match opt_cmp String.compare (target a) (target b) with
                    | Eq => DataDim_cmp (collect a) (collect b) | o => o end.
Proof. unfold StatDim_cmp. by destruct (opt_cmp _ _ _). Qed.

(** The comparison loop of [DataDim] ends on every input within one more
    iteration than the first dimension has items, with the lexicographic order
    of the items, an absent one first; with it dimensions and statistic keys
    are totally ordered, consistently with their equality. *)
Theorem dimension_order :
  (forall a b fuel, (length a < fuel)%nat ->
     cmp_loop fuel a b 0 Eq = Some (lex_cmp (opt_cmp String.compare) a b)) /\
  total_cmp DataDim_cmp /\ total_cmp StatDim_cmp.
Proof.
  pose proof datadim_total as TD. pose proof (opt_total _ string_total) as TO.
  split; [intros a b fuel Hf; rewrite cmp_loop_ends by lia; done|].
  split; [done|]. split.
  - intros [t d] [t' d']. rewrite StatDim_cmp_lex. cbn [target collect].
    destruct (opt_cmp String.compare t t') eqn:E.
    + apply (tc_eq TO) in E as ->. rewrite (tc_eq TD). naive_solver.
    + split; [done|]. intros [= -> ->]. by rewrite (tc_refl _ TO) in E.
    + split; [done|]. intros [= -> ->]. by rewrite (tc_refl _ TO) in E.
  - intros a b. rewrite !StatDim_cmp_lex, (tc_anti TO (target a)), (tc_anti TD (collect a)).
    by destruct (opt_cmp _ _ _).
  - intros a b c. rewrite !StatDim_cmp_lex. apply (lex_step _ DataDim_cmp); [done|apply (tc_trans TD)].
Qed.

(** ** The records with the largest totals *)

(** [d] is [full] cut to the [keep] largest totals, in descending order. *)
Definition top_n (keep : Z) (full d : list SliceRecord) : Prop :=
  Sorted ge_total d /\ zlen d = Z.min keep (zlen full) /\
  exists dropped, full ≡ₚ d ++ dropped /\ forall a b, a ∈ d -> b ∈ dropped -> ge_total a b.

Lemma top_n_perm keep full full' d : full ≡ₚ full' -> top_n keep full d -> top_n keep full' d.
Proof.
  intros P (Hs & Hl & dr & Hp & Hge). split; [done|]. split.
  - unfold zlen in *. by rewrite <- (Permutation_length P).
  - exists dr. split; [|done]. by rewrite <- P.
Qed.

Section TopN.
Context `{CL : CollLaws}.

Lemma keep_top_spec max l : 0 <= max < 2 ^ 63 -> top_n (2 * max) l (keep_top max l).
Proof.
  intros Hm. unfold keep_top, TOP_N_MULTIPLIER.
  rewrite Z.mod_small by lia. set (n := Z.to_nat (max * 2)).
  destruct (decide (n < length l)%nat) as [Hn|Hn]; split; try apply sort_sorted; split.
  - unfold zlen. rewrite (Permutation_length (sort_perm _)), length_take, (Permutation_length (select_perm n l)). lia.
  - exists (drop n (select_nth_desc n l)). split.
    + rewrite sort_perm, take_drop. symmetry. apply select_perm.
    + intros a b Ha Hb. rewrite sort_perm in Ha. by apply (select_splits n l).
  - unfold zlen. rewrite (Permutation_length (sort_perm _)). lia.
  - exists []. split; [by rewrite app_nil_r, sort_perm|]. intros a b _ Hb. by apply not_elem_of_nil in Hb.
Qed.
End TopN.

(** ** The cache as an association list *)

Section Touch.
Context {K V : Type} `{EqDecision K}.
Implicit Types (l : list (K * V)) (k : K).

(** The two cases of a touch. *)
Lemma touch_cases cap l k v f : NoDup (fst <$> l) ->
  (exists pre x post, l = pre ++ (k, x) :: post /\ (k ∉ (fst <$> pre)) /\ (k ∉ (fst <$> post)) /\
     lru_touch cap l k v f = (k, f x) :: pre ++ post) \/
  ((k ∉ (fst <$> l)) /\ lru_touch cap l k v f = (k, f v) :: (if decide (cap <= zlen l) then take (length l - 1) l else l)).
Proof.
  intros Hnd. unfold lru_touch. destruct (list_find _ l) as [[i [k' x]]|] eqn:E.
  - left. apply list_find_Some in E as (El & Hk & _). cbn in Hk. subst k'.
    exists (take i l), x, (drop (S i) l). pose proof (take_drop_middle l i _ El) as Hl.
    rewrite <- Hl in Hnd. rewrite fmap_app, fmap_cons in Hnd. cbn [fst] in Hnd.
    apply NoDup_app in Hnd as (_ & H1 & H2). apply NoDup_cons in H2 as [H2 _].
    rewrite delete_take_drop. split; [done|]. split; [|done]. intros Hin. apply (H1 k Hin). left.
  - right. split; [|done]. apply list_find_None in E. intros Hin.
    apply list_elem_of_fmap in Hin as (p & -> & Hp). rewrite Forall_forall in E. by apply (E p).
Qed.

Lemma touch_elem cap l k v f k' x : NoDup (fst <$> l) ->
  (k', x) ∈ lru_touch cap l k v f ->
  (k' = k /\ ((exists y, (k, y) ∈ l /\ x = f y) \/ ((k ∉ (fst <$> l)) /\ x = f v))) \/ (k' <> k /\ (k', x) ∈ l).
Proof.
  intros Hnd. destruct (touch_cases cap l k v f Hnd) as [(pre & y & post & -> & Hpre & Hpost & ->)|[Hk ->]].
  - intros [[= -> ->]|Hin]%elem_of_cons; [left; split; [done|]; left; exists y; set_solver|].
    right. split.
    + intros ->. apply elem_of_app in Hin as [Hin|Hin];
        [apply Hpre|apply Hpost]; by apply (list_elem_of_fmap_2' fst _ (k, x)).
    + set_solver.
  - intros [[= -> ->]|Hin]%elem_of_cons; [left; auto|].
    assert ((k', x) ∈ l) as Hl.
    { case_decide; [|done]. rewrite <- (take_drop (length l - 1) l). apply elem_of_app. by left. }
    right. split; [|done]. intros ->. apply Hk. by apply (list_elem_of_fmap_2' fst _ (k, x)).
Qed.

Lemma touch_NoDup cap l k v f : NoDup (fst <$> l) -> NoDup (fst <$> (lru_touch cap l k v f)).
Proof.
  intros Hnd. destruct (touch_cases cap l k v f Hnd) as [(pre & y & post & -> & Hpre & Hpost & ->)|[Hk ->]];
    rewrite fmap_cons; cbn [fst]; apply NoDup_cons.
  - rewrite fmap_app. rewrite fmap_app, fmap_cons in Hnd. cbn [fst] in Hnd. apply NoDup_app in Hnd as (H1 & H2 & H3).
    apply NoDup_cons in H3 as [_ H3]. split; [set_solver|]. apply NoDup_app. set_solver.
  - assert ((fst <$> (if decide (cap <= zlen l) then take (length l - 1) l else l)) `sublist_of` (fst <$> l)) as Hs.
    { case_decide; [rewrite fmap_take; apply sublist_take|done]. }
    split; [intros Hin; apply Hk; by apply (sublist_subseteq _ _ Hs)|by eapply sublist_NoDup].
Qed.

Lemma touch_length cap l k v f : 0 < cap -> zlen l <= cap -> NoDup (fst <$> l) ->
  zlen (lru_touch cap l k v f) <= cap.
Proof.
  intros Hc Hl Hnd. destruct (touch_cases cap l k v f Hnd) as [(pre & y & post & -> & _ & _ & ->)|[Hk ->]].
  - revert Hl. rewrite !zlen_cons, !zlen_app, zlen_cons. lia.
  - rewrite zlen_cons. case_decide as Hd; [unfold zlen in *; rewrite length_take; lia|lia].
Qed.

(** Nothing is evicted while the key is known or there is room. *)
Lemma touch_keys cap l k v f k' : NoDup (fst <$> l) -> (k ∈ (fst <$> l) \/ zlen l < cap) ->
  k' ∈ (fst <$> (lru_touch cap l k v f)) <-> k' = k \/ k' ∈ (fst <$> l).
Proof.
  intros Hnd Hroom. destruct (touch_cases cap l k v f Hnd) as [(pre & y & post & -> & Hpre & Hpost & ->)|[Hk ->]].
  - rewrite !fmap_cons, !fmap_app, fmap_cons. cbn. set_solver.
  - destruct Hroom as [?|Hroom]; [done|]. case_decide; [lia|]. cbn. set_solver.
Qed.
End Touch.

(** ** The collector's window *)

Fixpoint sum_by {A} (f : A -> Z) (l : list A) : Z :=
  match l with [] => 0 | x :: l => f x + sum_by f l end.

Lemma sum_by_app {A} (f : A -> Z) l k : sum_by f (l ++ k) = sum_by f l + sum_by f k.
Proof. induction l as [|x l IH]; cbn [sum_by app]; lia. Qed.

Lemma sum_by_nonneg {A} (f : A -> Z) l : (forall x, x ∈ l -> 0 <= f x) -> 0 <= sum_by f l.
Proof.
  induction l as [|x l IH]; cbn [sum_by]; intros H; [lia|].
  pose proof (H x ltac:(left)). specialize (IH ltac:(intros; apply H; by right)). lia.
Qed.

Lemma sum_by_le {A} (f g : A -> Z) l : (forall x, x ∈ l -> f x <= g x) -> sum_by f l <= sum_by g l.
Proof.
  induction l as [|x l IH]; cbn [sum_by]; intros H; [lia|].
  pose proof (H x ltac:(left)). specialize (IH ltac:(intros; apply H; by right)). lia.
Qed.

(** The recording calls of a collector; the [&str] ones pass
    [DataDim::from]. *)
Inductive Call :=
  | Begin (rule : string) (dat : DataDim) | End_ (rule : string) (dat : DataDim)
  | Task (rule : string) (dat : DataDim)
  | BeginUnit (rule : string) | EndUnit (rule : string) | TaskUnit (rule : string)
  | BeginN (rule : string) (dat : DataDim) (n : Z) | BeginNUnit (rule : string) (n : Z)
  | EndN (rule : string) (dat : DataDim) (n : Z) | EndNUnit (rule : string) (n : Z)
  | TaskN (rule : string) (dat : DataDim) (n : Z) | TaskNUnit (rule : string) (n : Z).

(** The statistic key a call counts under. *)
Definition call_dim (t : StatTarget) (k : Call) : StatDim :=
  match k with
  | Begin r d | End_ r d | Task r d | BeginN r d _ | EndN r d _ | TaskN r d _ => make_dim t r d
  | BeginUnit r | EndUnit r | TaskUnit r | BeginNUnit r _ | EndNUnit r _ | TaskNUnit r _ => make_dim_unit t r
  end.

(** The events a call begins, and those it ends well. *)
Definition call_total (k : Call) : Z :=
  match k with
  | Begin _ _ | Task _ _ | BeginUnit _ | TaskUnit _ => 1
  | BeginN _ _ n | BeginNUnit _ n | TaskN _ _ n | TaskNUnit _ n => n
  | End_ _ _ | EndUnit _ | EndN _ _ _ | EndNUnit _ _ => 0
  end.
Definition call_success (k : Call) : Z :=
  match k with
  | End_ _ _ | Task _ _ | EndUnit _ | TaskUnit _ => 1
  | EndN _ _ n | EndNUnit _ n | TaskN _ _ n | TaskNUnit _ n => n
  | Begin _ _ | BeginUnit _ | BeginN _ _ _ | BeginNUnit _ _ => 0
  end.

(** Counting zero begins or ends touches nothing; zero tasks create the record. *)
Definition call_touches (k : Call) : bool :=
  match k with
  | BeginN _ _ n | BeginNUnit _ n | EndN _ _ n | EndNUnit _ n => negb (n =? 0)
  | _ => true
  end.

Section Window.
Context {L : LruApi StatDim SliceRecord} {LL : LruLaws StatDim SliceRecord L}.
Context {C : CollApi} {CL : CollLaws C}.

Definition run_call (s : StatCollector) (k : Clock * Call) : StatCollector :=
  let c := k.1 in
  match k.2 with
  | Begin r d => record_begin c s r d | End_ r d => record_end c s r d | Task r d => record_task c s r d
  | BeginUnit r => record_begin_unit c s r | EndUnit r => record_end_unit c s r
  | TaskUnit r => record_task_unit c s r
  | BeginN r d n => record_begin_n c s r d n | BeginNUnit r n => record_begin_n_unit c s r n
  | EndN r d n => record_end_n c s r d n | EndNUnit r n => record_end_n_unit c s r n
  | TaskN r d n => record_task_n c s r d n | TaskNUnit r n => record_task_n_unit c s r n
  end.

(** What a call does to the record it counts under. *)
Definition call_fun (k : Call) : SliceRecord -> SliceRecord :=
  match k with
  | Begin _ _ | BeginUnit _ => rec_beg
  | End_ _ _ | EndUnit _ => rec_end
  | Task _ _ | TaskUnit _ => rec_beg_end
  | BeginN _ _ n | BeginNUnit _ n => fun r => rec_beg_n r n
  | EndN _ _ n | EndNUnit _ n => fun r => rec_end_n r n
  | TaskN _ _ n | TaskNUnit _ n => fun r => if decide (n > 0) then slice_rec_beg_end_n r n else r
  end.

Definition view (s : StatCollector) : list (StatDim * SliceRecord) := lru_view (record s).

(** The memo of unit dimensions only holds what [make_dim] gives. *)
Definition memo_ok (s : StatCollector) : Prop :=
  forall r d, unit_dims s !! r = Some d -> d = make_dim_unit (req_target (require s)) r.

Lemma unit_dim_cached_spec s r : memo_ok s ->
  exists s', unit_dim_cached s r = (make_dim_unit (req_target (require s)) r, s') /\
    record s' = record s /\ require s' = require s /\ c_target s' = c_target s /\ memo_ok s'.
Proof.
  intros Hm. unfold unit_dim_cached. destruct (unit_dims s !! r) as [d|] eqn:E.
  - exists s. by rewrite (Hm r d E).
  - eexists. split_and!; [done..|]. intros r' d'. cbn. intros [[<- <-]|[_ H]]%lookup_insert_Some; [done|by apply Hm].
Qed.

(** Every call is a touch of the record of its key, or changes at most the memo. *)
Lemma run_call_touch s c k : memo_ok s ->
  let s' := run_call s (c, k) in
  require s' = require s /\ c_target s' = c_target s /\ memo_ok s' /\
  record s' =
    if call_touches k
    then lru_get_or_insert_mut (record s) (call_dim (req_target (require s)) k)
           (SliceRecord_new c (stage (require s)) (StatDim_display (call_dim (req_target (require s)) k))
              (collect (call_dim (req_target (require s)) k))) (call_fun k)
    else record s.
Proof.
  intros Hm. destruct k as [r d|r d|r d|r|r|r|r d n|r n|r d n|r n|r d n|r n];
    cbn [run_call fst snd call_touches call_dim call_fun];
    unfold record_begin_unit, record_end_unit, record_task_unit, record_begin_n_unit, record_end_n_unit,
      record_task_n_unit;
    try (destruct (unit_dim_cached_spec s r Hm) as (s' & -> & Hr & Hq & Ht & Hm'));
    unfold record_begin, record_end, record_task, record_begin_n, record_end_n, record_task_n,
      rec_beg_impl, rec_end_impl, rec_beg_end_impl, rec_beg_n_impl, rec_end_n_impl, rec_beg_end_n_impl,
      get_or_create_record; repeat case_match; bool_to_prop; try lia;
    cbn [require c_target record unit_dims]; rewrite ?Hr, ?Hq, ?Ht;
    (split_and!; [done..| |done]); intros r' d' E; cbn in *;
    first [by apply Hm|rewrite <- ?Hq; by apply Hm'].
Qed.
(** Events of the calls that count under [d]. *)
Definition count_of (f : Call -> Z) (t : StatTarget) (d : StatDim) (calls : list (Clock * Call)) : Z :=
  sum_by (fun k => if decide (call_dim t k.2 = d) then f k.2 else 0) calls.

Definition touched (t : StatTarget) (calls : list (Clock * Call)) : list StatDim :=
  (fun k => call_dim t k.2) <$> filter (fun k => call_touches k.2) calls.

Definition call_ok (k : Clock * Call) : Prop := 0 <= call_total k.2 /\ 0 <= call_success k.2.

(** The window's events fit in a [usize]. *)
Definition window_fits (calls : list (Clock * Call)) : Prop :=
  Forall call_ok calls /\ sum_by (fun k => call_total k.2) calls <= USIZE_MAX /\
  sum_by (fun k => call_success k.2) calls <= USIZE_MAX.

Lemma call_fun_spec k x : call_ok k ->
  0 <= total (stat x) -> total (stat x) + call_total k.2 <= USIZE_MAX ->
  0 <= success (stat x) -> success (stat x) + call_success k.2 <= USIZE_MAX ->
  total (stat (call_fun k.2 x)) = total (stat x) + call_total k.2 /\
  success (stat (call_fun k.2 x)) = success (stat x) + call_success k.2 /\
  s_stage (call_fun k.2 x) = s_stage x /\ item_key (call_fun k.2 x) = item_key x /\
  value (call_fun k.2 x) = value x.
Proof.
  destruct k as [c k], x as [g ik v [tm a b]]. unfold call_ok. cbn [snd stat total success].
  intros [H1 H2] Ht1 Ht2 Hs1 Hs2. assert (USIZE_MAX = 2 ^ 64 - 1) as HU by done.
  destruct k; cbn [call_fun call_total call_success] in *; try case_decide;
    unfold rec_beg, rec_end, rec_beg_end, rec_beg_n, rec_end_n, slice_rec_beg_end_n, rec_beg_end_n,
      rec_in, rec_suc, rec_in_n, rec_suc_n; repeat (case_decide; try lia);
    cbn [stat s_stage item_key value total success];
    rewrite ?wrap_add_exact, ?sat_add_exact by lia; split_and!; done || lia.
Qed.

Lemma untouched_idle k : call_ok k -> call_touches k.2 = false -> call_total k.2 = 0 /\ call_success k.2 = 0.
Proof.
  destruct k as [c k]; destruct k; cbn; intros _ H; try done; bool_to_prop; auto.
Qed.

Lemma count_of_le f t d calls : (forall k, k ∈ calls -> 0 <= f k.2) ->
  0 <= count_of f t d calls <= sum_by (fun k => f k.2) calls.
Proof.
  intros H. unfold count_of. split; [apply sum_by_nonneg|apply sum_by_le];
    intros k Hk; specialize (H k Hk); case_decide; lia.
Qed.

Lemma count_of_snoc f t d calls k :
  count_of f t d (calls ++ [k]) = count_of f t d calls + (if decide (call_dim t k.2 = d) then f k.2 else 0).
Proof. unfold count_of. rewrite sum_by_app. cbn [sum_by]. lia. Qed.

Lemma touched_cons t calls k :
  touched t (k :: calls) = (if call_touches k.2 then [call_dim t k.2] else []) ++ touched t calls.
Proof. unfold touched. rewrite filter_cons. by destruct (call_touches k.2). Qed.

Lemma touched_snoc t calls k :
  touched t (calls ++ [k]) = touched t calls ++ (if call_touches k.2 then [call_dim t k.2] else []).
Proof.
  induction calls as [|k' calls IH]; cbn [app]; rewrite touched_cons; [by rewrite app_nil_r|].
  by rewrite IH, touched_cons, app_assoc.
Qed.

Lemma untouched_zero f t d calls : (forall k, k ∈ calls -> call_touches k.2 = false -> f k.2 = 0) ->
  d ∉ touched t calls -> count_of f t d calls = 0.
Proof.
  unfold count_of. induction calls as [|k calls IH]; cbn [sum_by]; intros Hz Hd; [done|].
  rewrite touched_cons in Hd. rewrite IH.
  - case_decide as Hk; [|lia]. destruct (call_touches k.2) eqn:E; [|rewrite Hz; [lia|left|done]].
    exfalso. apply Hd. rewrite Hk. left.
  - intros k' Hk'. apply Hz. by right.
  - intros Hin. apply Hd. apply elem_of_app. by right.
Qed.
(** The cache's room. *)
Definition room (r : StatReq) : Z := Z.max (max r) MIN_CACHE_SIZE.

Record window_inv (tg : string) (r : StatReq) (calls : list (Clock * Call)) (s : StatCollector) : Prop := {
  wi_req : require s = r;
  wi_target : c_target s = tg;
  wi_memo : memo_ok s;
  wi_cap : lru_cap (record s) = room r;
  wi_nodup : NoDup (fst <$> view s);
  wi_len : zlen (view s) <= room r;
  wi_rec d x : (d, x) ∈ view s ->
    s_stage x = stage r /\ item_key x = StatDim_display d /\ value x = collect d /\
    0 <= total (stat x) <= count_of call_total (req_target r) d calls /\
    0 <= success (stat x) <= count_of call_success (req_target r) d calls;
  wi_exact : zlen (remove_dups (touched (req_target r) calls)) <= room r ->
    (forall d, d ∈ (fst <$> view s) <-> d ∈ touched (req_target r) calls) /\
    (forall d x, (d, x) ∈ view s ->
       total (stat x) = count_of call_total (req_target r) d calls /\
       success (stat x) = count_of call_success (req_target r) d calls);
}.

Lemma window_new tg r : window_inv tg r [] (StatCollector_new tg r).
Proof.
  assert (view (StatCollector_new tg r) = []) as E by apply lru_new_view.
  assert (0 < room r) by (unfold room, MIN_CACHE_SIZE; lia).
  split; rewrite ?E; try done; try (apply lru_new_cap); cbn.
  - constructor.
  - rewrite zlen_nil. lia.
  - intros d x Hd. by apply not_elem_of_nil in Hd.
  - intros _. split; [done|]. intros d x Hd. by apply not_elem_of_nil in Hd.
Qed.

Lemma count_bounds calls k : window_fits (calls ++ [k]) ->
  call_ok k /\ window_fits calls /\
  forall t d, (0 <= count_of call_total t d calls /\ count_of call_total t d calls + call_total k.2 <= USIZE_MAX) /\
              (0 <= count_of call_success t d calls /\ count_of call_success t d calls + call_success k.2 <= USIZE_MAX).
Proof.
  intros (Hok & Ht & Hs). apply Forall_app in Hok as [Hok Hk']. rewrite Forall_singleton in Hk'.
  rewrite !sum_by_app in *. cbn [sum_by] in *. pose proof Hk' as [Hk1 Hk2].
  split; [done|]. split; [split; [done|]; split; lia|]. intros t d. rewrite Forall_forall in Hok.
  pose proof (count_of_le call_total t d calls ltac:(intros k' Hin; apply (Hok k' Hin))).
  pose proof (count_of_le call_success t d calls ltac:(intros k' Hin; apply (Hok k' Hin))). lia.
Qed.

(** The distinct keys grow by the key touched. *)
Lemma touched_grows t calls k (l : list StatDim) : call_touches k.2 = true -> NoDup l ->
  (forall d, d ∈ l -> d ∈ touched t calls \/ d = call_dim t k.2) ->
  zlen l <= zlen (remove_dups (touched t (calls ++ [k]))).
Proof.
  intros Hk Hl Hin. rewrite touched_snoc, Hk. unfold zlen.
  apply inj_le, submseteq_length, NoDup_submseteq; [done|].
  intros d Hd. apply elem_of_remove_dups, elem_of_app. destruct (Hin d Hd) as [?| ->]; [by left|right; left].
Qed.

Lemma touched_mono t calls k : call_touches k.2 = true ->
  zlen (remove_dups (touched t calls)) <= zlen (remove_dups (touched t (calls ++ [k]))).
Proof.
  intros Hk. apply touched_grows; [done|apply NoDup_remove_dups|]. intros d Hd. left. by apply elem_of_remove_dups.
Qed.

Lemma touched_room t calls k (c : list StatDim) : call_touches k.2 = true ->
  NoDup c -> (forall d, d ∈ c <-> d ∈ touched t calls) ->
  call_dim t k.2 ∈ c \/ 1 + zlen c <= zlen (remove_dups (touched t (calls ++ [k]))).
Proof.
  intros Hk Hc Hsame. destruct (decide (call_dim t k.2 ∈ c)) as [|Hn]; [by left|right].
  rewrite <- (zlen_cons (call_dim t k.2)). apply touched_grows; [done|by apply NoDup_cons|].
  intros d [->|Hd]%elem_of_cons; [by right|left; by apply Hsame].
Qed.

Lemma window_idle tg r calls s k : call_touches k.2 = false -> window_fits (calls ++ [k]) ->
  window_inv tg r calls s -> window_inv tg r (calls ++ [k]) (run_call s k).
Proof.
  intros Hk Hfit I. destruct (count_bounds _ _ Hfit) as (Hok & _ & _).
  destruct (untouched_idle k Hok Hk) as [Z1 Z2]. destruct k as [c k].
  pose proof (run_call_touch s c k (wi_memo _ _ _ _ I)) as (E1 & E2 & E3 & E4).
  cbn [snd] in Hk, Z1, Z2. rewrite Hk in E4.
  assert (view (run_call s (c, k)) = view s) as Ev by (unfold view; by rewrite E4).
  assert (forall t d f, f k = 0 -> count_of f t d (calls ++ [(c, k)]) = count_of f t d calls) as Ec.
  { intros t d f Hf. rewrite count_of_snoc. cbn [snd]. rewrite Hf. case_decide; lia. }
  destruct I as [I1 I2 I3 I4 I5 I6 I7 I8]. split; rewrite ?Ev, ?E1, ?E2, ?E4; try done.
  - intros d x. rewrite !Ec by done. apply I7.
  - rewrite touched_snoc. cbn [snd]. rewrite Hk, app_nil_r. intros H. destruct (I8 H) as [J1 J2].
    split; [done|]. intros d x. rewrite !Ec by done. apply J2.
Qed.

Lemma window_touch tg r calls s k : call_touches k.2 = true -> window_fits (calls ++ [k]) ->
  window_inv tg r calls s -> window_inv tg r (calls ++ [k]) (run_call s k).
Proof.
  intros Hk Hfit I. destruct (count_bounds _ _ Hfit) as (Hok & _ & Hb).
  destruct k as [c k]. pose proof (run_call_touch s c k (wi_memo _ _ _ _ I)) as (E1 & E2 & E3 & E4).
  cbn [snd] in *. rewrite Hk in E4. destruct I as [I1 I2 I3 I4 I5 I6 I7 I8].
  rewrite I1 in *. set (dk := call_dim (req_target r) k) in *.
  set (x0 := SliceRecord_new c (stage r) (StatDim_display dk) (collect dk)) in *.
  assert (view (run_call s (c, k)) = lru_touch (room r) (view s) dk x0 (call_fun k)) as Ev.
  { unfold view. by rewrite E4, lru_touch_view, I4. }
  assert (0 < room r) as Hpos by (unfold room, MIN_CACHE_SIZE; lia).
  split; rewrite ?Ev; try done; try congruence.
  - rewrite E4, lru_touch_cap. done.
  - by apply touch_NoDup.
  - by apply touch_length.
  - intros d x Hd. rewrite !count_of_snoc. cbn [snd].
    destruct (touch_elem _ _ _ _ _ _ _ I5 Hd) as [[-> [(y & Hy & ->)|[_ ->]]]|[Hne Hd']].
    + destruct (I7 _ _ Hy) as (J1 & J2 & J3 & J4 & J5). destruct (Hb (req_target r) dk).
      pose proof (call_fun_spec (c, k) y Hok) as HF. cbn [snd] in HF. destruct HF as (-> & -> & -> & -> & ->); try (cbn; lia).
      rewrite !decide_True by done. destruct Hok. cbn [snd] in *. repeat split; auto; lia.
    + destruct (Hb (req_target r) dk).
      pose proof (call_fun_spec (c, k) x0 Hok) as HF. cbn [snd] in HF. destruct HF as (-> & -> & -> & -> & ->); try (cbn; lia).
      change (total (stat x0)) with 0. change (success (stat x0)) with 0.
      rewrite !decide_True by done. destruct Hok. cbn [snd] in *. repeat split; auto; lia.
    + destruct (I7 _ _ Hd') as (J1 & J2 & J3 & J4 & J5). rewrite !decide_False by (intros E'; apply Hne; symmetry; exact E').
      repeat split; auto; lia.
  - intros Hroom. pose proof (touched_mono (req_target r) calls (c, k) Hk) as Hm.
    destruct (I8 ltac:(lia)) as [J1 J2].
    pose proof (touched_room (req_target r) calls (c, k) (fst <$> view s) Hk I5 J1) as HT. cbn [snd] in HT.
    assert (dk ∈ (fst <$> view s) \/ zlen (view s) < room r) as Hr.
    { destruct HT as [?|HT]; [by left|right]. unfold zlen in *. rewrite length_fmap in HT. lia. }
    split.
    + intros d. rewrite touched_snoc, (touch_keys _ _ _ _ _ _ I5 Hr). cbn [snd]. rewrite Hk, elem_of_app, J1.
      rewrite list_elem_of_singleton. tauto.
    + intros d x Hd. rewrite !count_of_snoc. cbn [snd].
      destruct (touch_elem _ _ _ _ _ _ _ I5 Hd) as [[-> [(y & Hy & ->)|[Hn ->]]]|[Hne Hd']].
      * destruct (J2 _ _ Hy) as [T1 T2]. destruct (I7 _ _ Hy) as (_ & _ & _ & L1 & L2).
        destruct (Hb (req_target r) dk).
        pose proof (call_fun_spec (c, k) y Hok) as HF. cbn [snd] in HF. destruct HF as (-> & -> & _); try (cbn; lia).
        rewrite !decide_True by done. lia.
      * destruct (Hb (req_target r) dk). rewrite J1 in Hn.
        pose proof (call_fun_spec (c, k) x0 Hok) as HF. cbn [snd] in HF. destruct HF as (-> & -> & _); try (cbn; lia).
        change (total (stat x0)) with 0. change (success (stat x0)) with 0. apply proj1 in Hfit.
        apply Forall_app in Hfit as [Hall _]. rewrite Forall_forall in Hall.
        rewrite !decide_True by done. rewrite !untouched_zero; try done; try lia;
          intros k' Hk' Hu; by apply (untouched_idle k' (Hall k' Hk')) in Hu as [? ?].
      * rewrite !decide_False by (intros E'; apply Hne; symmetry; exact E'). destruct (J2 _ _ Hd'). lia.
Qed.
Lemma window_step tg r calls s k : window_fits (calls ++ [k]) ->
  window_inv tg r calls s -> window_inv tg r (calls ++ [k]) (run_call s k).
Proof.
  intros Hf I. destruct (call_touches k.2) eqn:E; [by apply window_touch|by apply window_idle].
Qed.

Lemma window_run tg r calls : window_fits calls ->
  window_inv tg r calls (foldl run_call (StatCollector_new tg r) calls).
Proof.
  induction calls as [|k calls IH] using rev_ind; intros Hf; [apply window_new|].
  rewrite foldl_snoc. apply window_step; [done|]. apply IH. apply (count_bounds calls k Hf).
Qed.

Lemma NoDup_keys_filter {A B} (P : A * B -> Prop) `{forall x, Decision (P x)} (l : list (A * B)) :
  NoDup (fst <$> l) -> NoDup (fst <$> filter P l).
Proof.
  induction l as [|p l IH]; [done|]. rewrite filter_cons, fmap_cons, NoDup_cons. intros [Hp Hl].
  case_decide; [|by apply IH]. rewrite fmap_cons, NoDup_cons. split; [|by apply IH].
  intros Hin. apply Hp. apply list_elem_of_fmap in Hin as (q & -> & Hq).
  apply list_elem_of_filter in Hq as [_ Hq]. by apply list_elem_of_fmap_2.
Qed.

(** Closing a window. *)
Definition closed (at_ : option Z) (x : SliceRecord) : SliceRecord :=
  match at_ with Some ts => slice_finalize_end x ts | None => x end.

Lemma collect_data t at_ (l : list (StatDim * SliceRecord)) acc :
  foldl (fun data p => if include t p.1 then data ++ [closed at_ p.2] else data) acc l =
  acc ++ ((fun p => closed at_ p.2) <$> filter (fun p => include t p.1) l).
Proof.
  revert acc. induction l as [|p l IH]; intros acc; cbn [foldl]; [by rewrite app_nil_r|].
  rewrite IH, filter_cons. destruct (include t p.1); cbn; [by rewrite <- app_assoc|done].
Qed.

(** The record of key [d] after [calls]. *)
Definition record_of (r : StatReq) (calls : list (Clock * Call)) (d : StatDim) (x : SliceRecord) : Prop :=
  s_stage x = stage r /\ item_key x = StatDim_display d /\ value x = collect d /\
  total (stat x) = count_of call_total (req_target r) d calls /\
  success (stat x) = count_of call_success (req_target r) d calls.

(** C27: a collector's report holds, while the window has no more keys than the
    cache has room for ([max], at least 5), exactly one record for every key a
    call counted under and that the requirement's target includes, with the
    events begun and ended under that key, cut to the [2 * max] largest totals
    in descending order; a cache that overflows never counts more than
    happened, and collecting starts an empty window. *)
Theorem collector_report (tg : string) (r : StatReq) (calls : list (Clock * Call)) (at_ : option Z)
  (Hfit : window_fits calls) (Hmax : 0 <= max r < 2 ^ 63) :
  let s := foldl run_call (StatCollector_new tg r) calls in
  let '(report, s') := collect_from_cache_swapped s at_ in
  req report = r /\ cur_target report = Some tg /\ s' = StatCollector_new tg r /\
  exists dims full,
    NoDup dims /\ Forall2 (fun d x => include (req_target r) d /\ item_key x = StatDim_display d /\
      total (stat x) <= count_of call_total (req_target r) d calls /\
      success (stat x) <= count_of call_success (req_target r) d calls) dims full /\
    top_n (2 * max r) full (data report) /\
    (zlen (remove_dups (touched (req_target r) calls)) <= room r ->
     (forall d, d ∈ dims <-> d ∈ touched (req_target r) calls /\ include (req_target r) d) /\
     Forall2 (record_of r calls) dims full).
Proof.
  cbn zeta. set (s := foldl run_call _ calls).
  destruct (window_run tg r calls Hfit) as [I1 I2 I3 I4 I5 I6 I7 I8]. fold s in I1, I2, I3, I4, I5, I6, I7, I8.
  cbn [collect_from_cache_swapped]. unfold collect_from_cache_swapped, collect_from_cache, StatReport_new.
  cbn [req cur_target data]. rewrite I1, I2. split_and!; [done..|].
  set (kept := filter (fun p : StatDim * SliceRecord => include (req_target r) p.1) (view s)).
  assert (forall p, p ∈ kept <-> include (req_target r) p.1 /\ p ∈ view s) as Hkept.
  { intros p. unfold kept. by rewrite list_elem_of_filter. }
  exists (fst <$> kept), ((fun p => closed at_ p.2) <$> kept). split_and!.
  - by apply NoDup_keys_filter.
  - apply Forall2_fmap, Forall_Forall2_diag, Forall_forall. intros [d x] Hd. apply Hkept in Hd as [Hi Hd].
    cbn [fst snd] in *. destruct (I7 _ _ Hd) as (_ & J & _ & J1 & J2).
    destruct at_; cbn; split_and!; done || lia.
  - apply top_n_perm with (full := (fun p => closed at_ p.2) <$> filter (fun p => include (req_target r) p.1) (lru_into_iter (record s))).
    { apply fmap_Permutation. unfold kept, view. by rewrite lru_into_iter_view. }
    pose proof (collect_data (req_target r) at_ (lru_into_iter (record s)) []) as E. unfold closed in E at 1.
    cbn [app] in E. rewrite E. by apply keep_top_spec.
  - intros Hroom. destruct (I8 Hroom) as [J1 J2]. split.
    + intros d. rewrite list_elem_of_fmap, <- J1, list_elem_of_fmap. split.
      * intros ([d' x] & -> & Hd). apply Hkept in Hd as [Hi Hd]. split; [by exists (d', x)|done].
      * intros [([d' x] & -> & Hd) Hi]. exists (d', x). split; [done|]. by apply Hkept.
    + apply Forall2_fmap, Forall_Forall2_diag, Forall_forall. intros [d x] Hd. apply Hkept in Hd as [Hi Hd].
      destruct (I7 _ _ Hd) as (K1 & K2 & K3 & _ & _). destruct (J2 _ _ Hd).
      unfold record_of. destruct at_; cbn; auto.
Qed.
End Window.

(** ** Merging reports *)

(** What the records of a key count together. *)
Definition key_count (f : SliceRecord -> Z) (k : string) (l : list SliceRecord) : Z :=
  sum_by (fun x => if decide (item_key x = k) then f x else 0) l.

Lemma key_count_absent f k l : k ∉ (item_key <$> l) -> key_count f k l = 0.
Proof.
  unfold key_count. induction l as [|x l IH]; cbn [sum_by]; [done|].
  rewrite fmap_cons, not_elem_of_cons. intros [Hx Hl]. rewrite decide_False by congruence. rewrite IH by done. lia.
Qed.

Lemma key_count_unique f k l x : NoDup (item_key <$> l) -> x ∈ l -> item_key x = k -> key_count f k l = f x.
Proof.
  induction l as [|y l IH]; [by intros _ H%not_elem_of_nil|].
  rewrite fmap_cons, NoDup_cons. intros [Hy Hl] [->|Hx]%elem_of_cons <-; unfold key_count; cbn [sum_by].
  - rewrite decide_True by done. fold (key_count f (item_key y) l). rewrite key_count_absent by done. lia.
  - rewrite decide_False; [by rewrite <- (IH Hl Hx eq_refl)|].
    intros E. apply Hy. rewrite E. by apply list_elem_of_fmap_2.
Qed.

(** Every entry of a map is filed under its own key. *)
Definition keyed (st : StatStage) (m : gmap string SliceRecord) : Prop :=
  forall k x, m !! k = Some x -> item_key x = k /\ s_stage x = st.

Lemma index_self_snoc d x : index_self (d ++ [x]) = <[item_key x := x]> (index_self d).
Proof. unfold index_self. by rewrite foldl_snoc. Qed.

Lemma index_self_keyed st d : Forall (fun x => s_stage x = st) d -> keyed st (index_self d).
Proof.
  induction d as [|x d IH] using rev_ind; intros H k y; [by cbn; rewrite lookup_empty|].
  apply Forall_app in H as [H Hx]. rewrite Forall_singleton in Hx. rewrite index_self_snoc.
  intros [[<- <-]|[_ E]]%lookup_insert_Some; [done|by apply IH].
Qed.

Lemma index_self_elem d k x : index_self d !! k = Some x -> x ∈ d.
Proof.
  induction d as [|y d IH] using rev_ind; [by cbn; rewrite lookup_empty|]. rewrite index_self_snoc.
  intros [[<- <-]|[_ E]]%lookup_insert_Some; apply elem_of_app; [by right; left|by left; apply IH].
Qed.

Lemma index_self_dom d k : is_Some (index_self d !! k) <-> k ∈ (item_key <$> d).
Proof.
  induction d as [|x d IH] using rev_ind.
  - cbn. rewrite lookup_empty. split; [by intros [? ?]|intros H; by apply not_elem_of_nil in H].
  - rewrite index_self_snoc, lookup_insert_is_Some, fmap_app, elem_of_app, IH. cbn.
    rewrite list_elem_of_singleton. destruct (decide (item_key x = k)); naive_solver.
Qed.

Lemma insert_agree k z (l : list SliceRecord) (m m' : gmap string SliceRecord) :
  (forall z, <[k := z]> m' = <[k := z]> m) ->
  <[k := z]> (foldl (fun m it => <[item_key it := it]> m) m' l) =
  <[k := z]> (foldl (fun m it => <[item_key it := it]> m) m l).
Proof.
  revert m m'. induction l as [|y l IH]; intros m m' H; cbn [foldl]; [apply H|]. apply IH. intros z'.
  destruct (decide (item_key y = k)) as [->|Hne]; [by rewrite !insert_insert_eq|].
  by rewrite !(insert_insert_ne _ k) by done; rewrite H.
Qed.

(** An earlier record of a key leaves no trace in the index. *)
Lemma index_self_forgets pre a mid b post : item_key a = item_key b ->
  index_self (pre ++ a :: mid ++ b :: post) = index_self (pre ++ mid ++ b :: post).
Proof.
  intros Hk. unfold index_self. rewrite !foldl_app. cbn [foldl]. rewrite !foldl_app. cbn [foldl]. f_equal.
  apply insert_agree. intros z. by rewrite Hk, insert_insert_eq.
Qed.

(** The count a map holds under a key. *)
Definition map_count (f : SliceRecord -> Z) (m : gmap string SliceRecord) (k : string) : Z :=
  from_option f 0 (m !! k).

Lemma index_self_count f d k : NoDup (item_key <$> d) -> map_count f (index_self d) k = key_count f k d.
Proof.
  intros Hnd. unfold map_count. destruct (index_self d !! k) as [x|] eqn:E; cbn.
  - symmetry. apply key_count_unique; [done|by eapply index_self_elem|].
    revert E. clear Hnd. induction d as [|y d IH] using rev_ind; [by cbn; rewrite lookup_empty|].
    rewrite index_self_snoc. intros [[<- <-]|[_ E]]%lookup_insert_Some; [done|by apply IH].
  - symmetry. apply key_count_absent. intros Hin. apply index_self_dom in Hin as [y Hy]. congruence.
Qed.

Section Additive.
Variable f : SliceRecord -> Z.
Hypothesis f_add : forall e v, 0 <= f e -> 0 <= f v -> f e + f v <= USIZE_MAX -> f (slice_merge e v) = f e + f v.

Lemma merge_entry_keyed st m v : s_stage v = st -> keyed st m -> keyed st (merge_entry m v).
Proof.
  intros Hv Hm k x. unfold merge_entry. destruct (m !! item_key v) as [e|] eqn:E.
  - case_match; [|apply Hm]. intros [[<- <-]|[_ H']]%lookup_insert_Some; [|by apply Hm]. by apply (Hm _ _ E).
  - intros [[<- <-]|[_ H']]%lookup_insert_Some; [done|by apply Hm].
Qed.

Lemma merge_entry_count st m v k : s_stage v = st -> keyed st m ->
  0 <= f v -> (forall k, 0 <= map_count f m k) -> map_count f m (item_key v) + f v <= USIZE_MAX ->
  map_count f (merge_entry m v) k = map_count f m k + (if decide (item_key v = k) then f v else 0).
Proof.
  intros Hv Hm Hf0 H0 Hfit. unfold merge_entry, map_count in *. specialize (H0 (item_key v)).
  destruct (m !! item_key v) as [e|] eqn:E; cbn in Hfit, H0.
  - destruct (Hm _ _ E) as [Hk Hs]. unfold slice_can_merge. rewrite !bool_decide_true by congruence. cbn [andb].
    case_decide as Hd; [subst k; rewrite lookup_insert_eq, E; cbn; by apply f_add|].
    rewrite lookup_insert_ne by done. lia.
  - case_decide as Hd; [subst k; rewrite lookup_insert_eq, E; cbn; lia|]. rewrite lookup_insert_ne by done. lia.
Qed.

Lemma merge_fold_count st l : Forall (fun v => s_stage v = st /\ 0 <= f v) l -> forall m k, keyed st m ->
  (forall k, 0 <= map_count f m k /\ map_count f m k + key_count f k l <= USIZE_MAX) ->
  map_count f (foldl merge_entry m l) k = map_count f m k + key_count f k l.
Proof.
  induction l as [|v l IH]; intros Hl m k Hm Hb; [unfold key_count; cbn; lia|].
  apply Forall_cons in Hl as [[Hv Hv0] Hl].
  assert (forall k, key_count f k (v :: l) = (if decide (item_key v = k) then f v else 0) + key_count f k l) as Ec by done.
  assert (forall k, 0 <= key_count f k l) as Hn.
  { intros k'. apply sum_by_nonneg. intros x Hx. rewrite Forall_forall in Hl. destruct (Hl x Hx). case_decide; lia. }
  assert (forall k', map_count f (merge_entry m v) k' = map_count f m k' + (if decide (item_key v = k') then f v else 0)) as Em.
  { intros k'. apply (merge_entry_count st); try done; [apply Hb|]. destruct (Hb (item_key v)) as [_ Hv1].
    rewrite Ec, decide_True in Hv1 by done. specialize (Hn (item_key v)). lia. }
  cbn [foldl]. rewrite IH; [rewrite Em, Ec; lia|done|by apply merge_entry_keyed|].
  intros k'. rewrite Em. destruct (Hb k') as [H1 H2]. rewrite Ec in H2. case_decide; lia.
Qed.
End Additive.

Lemma merge_fold_keyed st l m : Forall (fun v => s_stage v = st) l -> keyed st m -> keyed st (foldl merge_entry m l).
Proof.
  revert m. induction l as [|v l IH]; intros m Hl Hm; [done|]. apply Forall_cons in Hl as [Hv Hl].
  apply IH; [done|]. by apply merge_entry_keyed.
Qed.

Lemma merge_fold_dom l m k : is_Some (foldl merge_entry m l !! k) <-> is_Some (m !! k) \/ k ∈ (item_key <$> l).
Proof.
  revert m. induction l as [|v l IH]; intros m; cbn [foldl].
  - cbn. split; [by left|]. intros [?|H]; [done|by apply not_elem_of_nil in H].
  - rewrite IH, fmap_cons, elem_of_cons. unfold merge_entry.
    destruct (m !! item_key v) as [e|] eqn:E; [case_match|]; rewrite ?lookup_insert_is_Some;
      destruct (decide (item_key v = k)); naive_solver.
Qed.

Lemma values_nodup st m : keyed st m -> item_key <$> (map_to_list m).*2 = (map_to_list m).*1.
Proof.
  intros Hm. rewrite <- list_fmap_compose. apply list_fmap_ext. intros i [k x] H. cbn.
  apply list_elem_of_lookup_2, elem_of_map_to_list in H. by apply (Hm _ _ H).
Qed.

Lemma values_count f st m k : keyed st m -> key_count f k (map_to_list m).*2 = map_count f m k.
Proof.
  intros Hm. pose proof (values_nodup st m Hm) as Ek. unfold map_count.
  destruct (m !! k) as [x|] eqn:E; cbn.
  - apply key_count_unique; [rewrite Ek; apply NoDup_fst_map_to_list| |by apply (Hm _ _ E)].
    apply elem_of_map_to_list in E. by apply (list_elem_of_fmap_2 snd _ (k, x)).
  - apply key_count_absent. rewrite Ek. intros Hin. apply list_elem_of_fmap in Hin as ([k' x] & -> & Hx).
    apply elem_of_map_to_list in Hx. cbn in E. congruence.
Qed.

(** Totals and successes that add up without overflow. *)
Definition counts_fit (f : SliceRecord -> Z) (l k : list SliceRecord) : Prop :=
  Forall (fun x => 0 <= f x) l /\ Forall (fun x => 0 <= f x) k /\
  forall key, key_count f key l + key_count f key k <= USIZE_MAX.

Definition total_ (x : SliceRecord) : Z := total (stat x).
Definition success_ (x : SliceRecord) : Z := success (stat x).

Lemma total_add e v : 0 <= total_ e -> 0 <= total_ v -> total_ e + total_ v <= USIZE_MAX ->
  total_ (slice_merge e v) = total_ e + total_ v.
Proof. unfold total_, success_, USIZE_MAX. intros. cbn. apply wrap_add_exact. lia. Qed.

Lemma success_add e v : 0 <= success_ e -> 0 <= success_ v -> success_ e + success_ v <= USIZE_MAX ->
  success_ (slice_merge e v) = success_ e + success_ v.
Proof. unfold total_, success_, USIZE_MAX. intros. cbn. apply wrap_add_exact. lia. Qed.

Lemma key_count_nonneg f k l : Forall (fun x => 0 <= f x) l -> 0 <= key_count f k l.
Proof. intros H. apply sum_by_nonneg. intros x Hx. rewrite Forall_forall in H. specialize (H x Hx). case_decide; lia. Qed.

Lemma merged_count f st l k key : (forall e v, 0 <= f e -> 0 <= f v -> f e + f v <= USIZE_MAX -> f (slice_merge e v) = f e + f v) ->
  NoDup (item_key <$> l) -> Forall (fun x => s_stage x = st) (l ++ k) -> counts_fit f l k ->
  map_count f (foldl merge_entry (index_self l) k) key = key_count f key l + key_count f key k.
Proof.
  intros Hf Hnd Hst (Hl & Hk & Hb). apply Forall_app in Hst as [Hs1 Hs2].
  rewrite (merge_fold_count f Hf st); [by rewrite index_self_count|by apply Forall_and|by apply index_self_keyed|].
  intros k'. rewrite index_self_count by done. split; [by apply key_count_nonneg|apply Hb].
Qed.

Section MergeLaws.
Context `{CL : CollLaws}.

(** Merging two reports of one stage adds the counts of every key, when
    the receiving report has each key once and the sums fit: what is kept is
    the [2 * max] largest of one record per key, whose total and success are
    the sums over both reports. *)
Theorem merge_adds (self other : StatReport) (st : StatStage)
  (Hmax : 0 <= max (req self) < 2 ^ 63)
  (Hstage : Forall (fun x => s_stage x = st) (data self ++ data other))
  (Hkeys : NoDup (item_key <$> data self))
  (Ht : counts_fit total_ (data self) (data other)) (Hs : counts_fit success_ (data self) (data other)) :
  let m := StatReport_merge self other in
  req m = req self /\ cur_target m = cur_target other /\
  exists full, top_n (2 * max (req self)) full (data m) /\ NoDup (item_key <$> full) /\
    (forall k, k ∈ (item_key <$> full) <-> k ∈ (item_key <$> data self) \/ k ∈ (item_key <$> data other)) /\
    (forall k, key_count total_ k full = key_count total_ k (data self) + key_count total_ k (data other)) /\
    (forall k, key_count success_ k full = key_count success_ k (data self) + key_count success_ k (data other)).
Proof.
  cbn zeta. split; [done|]. split; [done|].
  pose proof Hstage as Hstage'. apply Forall_app in Hstage' as [Hs1 Hs2].
  set (m := foldl merge_entry (index_self (data self)) (data other)).
  assert (keyed st m) as Hm by (apply merge_fold_keyed; [done|by apply index_self_keyed]).
  pose proof (values_nodup st m Hm) as Ek.
  exists (map_to_list m).*2. split_and!.
  - apply top_n_perm with (into_values m); [apply into_values_perm|]. by apply keep_top_spec.
  - rewrite Ek. apply NoDup_fst_map_to_list.
  - intros k. rewrite Ek, <- index_self_dom, <- merge_fold_dom. fold m. rewrite list_elem_of_fmap. split.
    + intros ([k' x] & -> & Hx). apply elem_of_map_to_list in Hx. by exists x.
    + intros [x Hx]. exists (k, x). split; [done|]. by apply elem_of_map_to_list.
  - intros k. rewrite (values_count _ st) by done. by apply (merged_count _ st); [apply total_add|..].
  - intros k. rewrite (values_count _ st) by done. by apply (merged_count _ st); [apply success_add|..].
Qed.
(** A record that shares its key with a later one of the same report is
    forgotten by the next merge into that report, with all it counted; and
    distinct dimensions do share a key: a separator inside a field, a field that
    is a literal star. *)
Theorem merge_forgets_collision :
  (forall (q : StatReq) (t : option string) (pre mid post : list SliceRecord) (a b : SliceRecord) (other : StatReport),
     item_key a = item_key b ->
     StatReport_merge (mkReport q t (pre ++ a :: mid ++ b :: post)) other =
     StatReport_merge (mkReport q t (pre ++ mid ++ b :: post)) other) /\
  StatDim_display (make_dim All "r" (new2 ("a,b", "c"))) = StatDim_display (make_dim All "r" (new2 ("a", "b,c"))) /\
  StatDim_display (make_dim All "r" (new2 ("*", "c"))) = StatDim_display (make_dim All "r" (mkDataDim [None; Some "c"])).
Proof.
  split; [|done]. intros q t pre mid post a b other Hk. unfold StatReport_merge. cbn [data req].
  by rewrite index_self_forgets.
Qed.
End MergeLaws.

(** ** Keys and dimensions *)

Fixpoint has_char (c : Ascii.ascii) (s : string) : bool :=
  match s with
  | EmptyString => false
  | String c' s => bool_decide (c = c') || has_char c s
  end.

(** What follows a field: nothing, or the separator. *)
Definition starts (c : Ascii.ascii) (s : string) : Prop := s = EmptyString \/ exists s', s = String c s'.

Lemma field_split c s1 s2 r1 r2 :
  has_char c s1 = false -> has_char c s2 = false -> starts c r1 -> starts c r2 ->
  (s1 +:+ r1)%string = (s2 +:+ r2)%string -> s1 = s2 /\ r1 = r2.
Proof.
  revert s2. induction s1 as [|x s1 IH]; intros [|y s2] H1 H2 S1 S2 E; cbn [has_char] in *;
    rewrite ?append_cons in E.
  - done.
  - change ("" +:+ r1)%string with r1 in E. apply orb_false_iff in H2 as [H2 _].
    destruct S1 as [->|[s' ->]]; [discriminate|]. injection E as -> _. by rewrite bool_decide_true in H2.
  - change ("" +:+ r2)%string with r2 in E. apply orb_false_iff in H1 as [H1 _].
    destruct S2 as [->|[s' ->]]; [discriminate|]. injection E as -> _. by rewrite bool_decide_true in H1.
  - apply orb_false_iff in H1 as [_ H1], H2 as [_ H2]. injection E as -> E.
    by destruct (IH s2 H1 H2 S1 S2 E) as [-> ->].
Qed.

(** A field that prints unambiguously: no separator inside, not the star. *)
Definition clean (sep : Ascii.ascii) (o : option string) : Prop :=
  match o with Some s => has_char sep s = false /\ s <> "*" | None => True end.

Lemma clean_inj sep a b r1 r2 : sep <> "*"%char -> clean sep a -> clean sep b -> starts sep r1 -> starts sep r2 ->
  (opt_string a +:+ r1)%string = (opt_string b +:+ r2)%string -> a = b /\ r1 = r2.
Proof.
  intros Hs Ha Hb S1 S2 E. assert (has_char sep "*" = false) as Hstar by (cbn; by rewrite bool_decide_false).
  apply (field_split sep) in E as [E ->]; try done;
    [|by destruct a; [apply Ha|]|by destruct b; [apply Hb|]].
  split; [|done]. destruct a as [a|], b as [b|]; cbn in E; [by subst|..|done].
  - by destruct Ha.
  - symmetry in E. by destruct Hb.
Qed.

Lemma display_starts l : starts ","%char (display_items "," l).
Proof. destruct l as [|i l]; [by left|right]. eexists. reflexivity. Qed.

Lemma append_cancel s a b : (s +:+ a)%string = (s +:+ b)%string -> a = b.
Proof. induction s as [|c s IH]; [done|]. rewrite !append_cons. intros [= E]. auto. Qed.

Lemma display_inj a b sep : length a = length b -> Forall (clean ","%char) a -> Forall (clean ","%char) b ->
  display_items sep a = display_items sep b -> a = b.
Proof.
  revert b sep. induction a as [|x a IH]; intros [|y b] sep Hl Ha Hb E; try done.
  apply Forall_cons in Ha as [Hx Ha], Hb as [Hy Hb]. cbn [display_items] in E. apply append_cancel in E.
  apply (clean_inj ","%char) in E as [-> E]; try done; try apply display_starts. f_equal. injection Hl as Hl. by apply (IH b ",").
Qed.

(** The key a record is filed under determines its dimension, for
    dimensions of the same number of fields whose target has no at sign and
    whose fields have no comma and none of which is a literal star: such records
    never share a key with another. *)
Theorem key_determines_dimension (d1 d2 : StatDim)
  (Ht1 : clean "@"%char (target d1)) (Ht2 : clean "@"%char (target d2))
  (Hi1 : Forall (clean ","%char) (item (collect d1))) (Hi2 : Forall (clean ","%char) (item (collect d2)))
  (Hlen : length (item (collect d1)) = length (item (collect d2)))
  (Hkey : StatDim_display d1 = StatDim_display d2) : d1 = d2.
Proof.
  destruct d1 as [t1 [c1]], d2 as [t2 [c2]]. cbn [target collect item] in *.
  unfold StatDim_display, DataDim_display in Hkey. cbn [target collect item] in Hkey.
  apply (clean_inj "@"%char t1 t2) in Hkey as [-> E]; try done; try (right; eexists; reflexivity).
  apply (append_cancel "@") in E. f_equal. f_equal. by apply (display_inj c1 c2 "").
Qed.

(** ** Instances: the interfaces have implementations *)

Section Instances.
Context {K V : Type} `{EqDecision K}.

Definition list_lru : LruApi K V := {|
  lru_t := Z * list (K * V);
  lru_new n := (n, []);
  lru_get_or_insert_mut c k v f := (c.1, lru_touch c.1 c.2 k v f);
  lru_iter_mut c f := (c.1, prod_map id f <$> c.2);
  lru_is_empty c := bool_decide (c.2 = []);
  lru_into_iter c := reverse c.2;
|}.

Definition list_lru_laws : LruLaws K V list_lru.
Proof.
  refine {| lru_view := (snd : lru_t (LruApi:=list_lru) -> list (K * V));
            lru_cap := (fst : lru_t (LruApi:=list_lru) -> Z) |}; try done.
  intros c. cbn. apply reverse_Permutation.
Defined.
End Instances.

#[export] Instance ge_total_dec a b : Decision (ge_total a b).
Proof. unfold ge_total. apply _. Defined.

Lemma ge_total_total : Total ge_total.
Proof. intros a b. unfold ge_total. lia. Qed.

Lemma ge_total_trans : Transitive ge_total.
Proof. intros a b c. unfold ge_total. lia. Qed.

Definition merge_coll : CollApi := {|
  select_nth_desc _ l := merge_sort ge_total l;
  sort_desc l := merge_sort ge_total l;
  into_values m := (map_to_list m).*2;
|}.

Definition merge_coll_laws : CollLaws merge_coll.
Proof.
  pose proof ge_total_total. pose proof ge_total_trans.
  split; cbn.
  - intros _ l. apply merge_sort_Permutation.
  - intros n l a b _ Ha Hb.
    pose proof (StronglySorted_merge_sort ge_total l) as Hs.
    rewrite <- (take_drop n (merge_sort ge_total l)) in Hs.
    by apply (StronglySorted_app_1_elem_of _ _ _ _ _ Hs).
  - intros l. apply merge_sort_Permutation.
  - intros l. by apply Sorted_merge_sort.
  - done.
Defined.

(** ** Witnesses *)

Definition demo_req : StatReq := mkReq Pick "demo" All [] 10.
Definition demo_clock : Clock := mkClock 0 0 0.
Definition demo_calls : list (Clock * Call) :=
  [(demo_clock, Task "r" (from_str "a")); (demo_clock, BeginN "r" (from_str "b") 3); (demo_clock, EndUnit "r")].
Definition demo_record (key : string) (tot suc : Z) : SliceRecord :=
  mkSlice Pick key empty (mkMeasure (TimedStat_now demo_clock) tot suc).

Lemma demo_calls_fit : window_fits demo_calls.
Proof. split_and!; [repeat constructor; done|vm_compute; discriminate|vm_compute; discriminate]. Qed.

Lemma collector_report_witness :
  window_fits demo_calls /\ 0 <= max demo_req < 2 ^ 63 /\
  req (collect_from_cache_swapped (L:=list_lru) (C:=merge_coll)
         (foldl (run_call (L:=list_lru)) (StatCollector_new (L:=list_lru) "r" demo_req) demo_calls) None).1 = demo_req.
Proof.
  split; [apply demo_calls_fit|]. split; [cbn; lia|].
  apply (collector_report (LL:=list_lru_laws) (CL:=merge_coll_laws) "r" demo_req demo_calls None demo_calls_fit).
  cbn; lia.
Defined.

Lemma demo_counts_fit : forall f, (forall k a b, f (demo_record k a b) = a \/ f (demo_record k a b) = b) ->
  counts_fit f [demo_record "x" 2 1; demo_record "y" 5 5] [demo_record "x" 4 3].
Proof.
  intros f Hf. pose proof (Hf "x" 2 1). pose proof (Hf "y" 5 5). pose proof (Hf "x" 4 3).
  split_and!; [repeat constructor; lia|repeat constructor; lia|].
  intros key. unfold key_count. cbn [sum_by demo_record item_key]. unfold USIZE_MAX. repeat case_decide; lia.
Qed.

Lemma merge_adds_witness :
  exists full, key_count total_ "x" full = 6 /\ top_n 20 full
    (data (StatReport_merge (C:=merge_coll) (mkReport demo_req None [demo_record "x" 2 1; demo_record "y" 5 5])
            (mkReport demo_req None [demo_record "x" 4 3]))).
Proof.
  destruct (merge_adds (CL:=merge_coll_laws) (mkReport demo_req None [demo_record "x" 2 1; demo_record "y" 5 5])
              (mkReport demo_req None [demo_record "x" 4 3]) Pick) as (_ & _ & full & Ht & _ & _ & Hc & _).
  - cbn; lia.
  - by repeat constructor.
  - cbn. apply NoDup_cons. split; [|apply NoDup_singleton]. intros H%list_elem_of_singleton. done.
  - apply demo_counts_fit. intros. by left.
  - apply demo_counts_fit. intros. by right.
  - exists full. split; [apply Hc|exact Ht].
Defined.

Lemma key_determines_dimension_witness :
  StatDim_display (make_dim All "r" (push (from_str "a") None)) = "r@a,*" /\
  make_dim All "r" (push (from_str "a") None) = mkStatDim (Some "r") (mkDataDim [Some "a"; None]).
Proof.
  split; [reflexivity|]. apply key_determines_dimension; try done; repeat constructor; done.
Defined.

Lemma dimension_order_witness :
  cmp_loop 3 [Some "a"; None] [Some "a"] 0 Eq = Some (lex_cmp (opt_cmp String.compare) [Some "a"; None] [Some "a"]).
Proof. apply dimension_order. cbn. lia. Defined.

Lemma merge_forgets_collision_witness :
  let other := mkReport demo_req None [] in
  StatReport_merge (C:=merge_coll) (mkReport demo_req None [demo_record "k" 5 5; demo_record "k" 1 1]) other =
  StatReport_merge (C:=merge_coll) (mkReport demo_req None [demo_record "k" 1 1]) other.
Proof.
  apply (merge_forgets_collision (C:=merge_coll)) with (pre := []) (mid := []) (post := []). reflexivity.
Defined.
