(* ===== verification/Metrics.v ===== *)
(** Engine metrics ([src/src/stat]): the group of collectors of a source, rule or
    sink ([metric_collect.rs]), the indexed set of reports the monitor keeps
    ([metric_set.rs], [runtime_metric.rs]), the aggregate of items
    ([metric_aggregat.rs]), the process-wide counters ([runtime_counters.rs]) and
    the registry of dropped records ([sink_error_stats.rs]).

    Indexing a vector out of its range panics, as [upd_at] says.  The clock
    reading of collector [i] during a call is [clk i].  A field's text is what
    the record model and its formatter, both outside the repository, answer. *)
From Stdlib Require Import ZArith Lia String Ascii.
From stdpp Require Import base gmap list strings sorting.
From S2P Require Import Prelude Text Stats.
Import Measure Dim Request Slice Coll Report Collector.
Local Open Scope string_scope.
Local Open Scope list_scope.
Local Open Scope Z_scope.
Local Open Scope wp_scope.

(** ** [metric_collect.rs] *)
Module Collectors.

Record DataCollectorGroup := mkGroup { g_collect : list string; indices : list nat }.

Section Ops.
Context {L : LruApi StatDim SliceRecord} {C : CollApi}.
Context {DataRecord : Type} (field_text : DataRecord -> string -> option string).

Record MetricCollectors := mkCollectors {
  items : list StatCollector;
  unit_collectors_end : nat;
  has_data_dims : bool;
  data_groups : list DataCollectorGroup;
}.

Local Abbreviation with_items s i := (mkCollectors i (unit_collectors_end s) (has_data_dims s) (data_groups s)).

(** Every key is looked up in the record the same way. *)
Definition extract_metric_dimensions (tdo : DataRecord) (collects : list string) : DataDim :=
  foldl (fun data key => push data (field_text tdo key)) empty collects.

Definition extract_metric_dimensions_from_target_only (collects : list string) : DataDim :=
  foldl (fun data _ => push data None) empty collects.

Definition is_target_only_collect (collects : list string) : bool :=
  forallb (fun k => bool_decide (k ∈ ["wp_package_name"; "wp_rule_name"; "wp_sink_group"; "wp_sink_name"])) collects.

(** [items[idx].f(..)]. *)
Definition upd_at (idx : nat) (f : StatCollector -> StatCollector) (l : list StatCollector)
    : outcome (list StatCollector) :=
  match l !! idx with
  | Some x => Ret (<[idx := f x]> l)
  | None => Panic
  end.

(** [for idx in idxs { items[idx].f(..) }]. *)
Fixpoint upd_all (idxs : list nat) (f : nat -> StatCollector -> StatCollector) (l : list StatCollector)
    : outcome (list StatCollector) :=
  match idxs with
  | [] => Ret l
  | idx :: idxs => let! l := upd_at idx (f idx) l in upd_all idxs f l
  end.

(** [for group in groups { .. }]. *)
Fixpoint each_group (groups : list DataCollectorGroup)
    (body : DataCollectorGroup -> list StatCollector -> outcome (list StatCollector))
    (l : list StatCollector) : outcome (list StatCollector) :=
  match groups with
  | [] => Ret l
  | g :: groups => let! l := body g l in each_group groups body l
  end.

Definition put (s : MetricCollectors) (o : outcome (list StatCollector)) : outcome MetricCollectors :=
  let! i := o in Ret (with_items s i).

(** A group's members, all but the last and then the last: all of them in
    order, none when the group is empty. *)
Definition group_record (g : DataCollectorGroup) (f : nat -> StatCollector -> StatCollector)
    (l : list StatCollector) : outcome (list StatCollector) :=
  match last (indices g) with
  | Some lst => let! l := upd_all (removelast (indices g)) f l in upd_at lst (f lst) l
  | None => Ret l
  end.

(** [StatRecorder<Option<&DataRecord>>]. *)
Definition mc_record_begin (clk : nat -> Clock) (s : MetricCollectors) (target : string)
    (dat : option DataRecord) : outcome MetricCollectors :=
  put s (let! l := upd_all (seq 0 (unit_collectors_end s)) (fun i x => record_begin_unit (clk i) x target) (items s) in
    match dat with
    | Some tdo =>
        each_group (data_groups s) (fun g l =>
          group_record g (fun i x => record_begin (clk i) x target (extract_metric_dimensions tdo (g_collect g))) l) l
    | None =>
        each_group (data_groups s) (fun g l =>
          if is_target_only_collect (g_collect g)
          then group_record g (fun i x =>
                 record_begin (clk i) x target (extract_metric_dimensions_from_target_only (g_collect g))) l
          else upd_all (indices g) (fun i x => record_begin_unit (clk i) x target) l) l
    end).

Definition mc_record_end (clk : nat -> Clock) (s : MetricCollectors) (rule : string)
    (dat : option DataRecord) : outcome MetricCollectors :=
  put s (let! l := upd_all (seq 0 (unit_collectors_end s)) (fun i x => record_end_unit (clk i) x rule) (items s) in
    match dat with
    | Some tdo =>
        each_group (data_groups s) (fun g l =>
          group_record g (fun i x => record_end (clk i) x rule (extract_metric_dimensions tdo (g_collect g))) l) l
    | None =>
        upd_all (seq (unit_collectors_end s) (length l - unit_collectors_end s))
          (fun i x => record_end_unit (clk i) x rule) l
    end).

Definition mc_record_task (clk : nat -> Clock) (s : MetricCollectors) (rule : string)
    (dat : option DataRecord) : outcome MetricCollectors :=
  put s (let! l := upd_all (seq 0 (unit_collectors_end s)) (fun i x => record_task_unit (clk i) x rule) (items s) in
    match dat with
    | Some tdo =>
        each_group (data_groups s) (fun g l =>
          group_record g (fun i x => record_task (clk i) x rule (extract_metric_dimensions tdo (g_collect g))) l) l
    | None =>
        upd_all (seq (unit_collectors_end s) (length l - unit_collectors_end s))
          (fun i x => record_task_unit (clk i) x rule) l
    end).

(** The loops over [items.iter_mut()]. *)
Definition each_item (s : MetricCollectors) (f : nat -> StatCollector -> StatCollector) : MetricCollectors :=
  with_items s (imap f (items s)).

Definition mc_record_begin_str (clk : nat -> Clock) s (target dat_key : string) :=
  each_item s (fun i x => record_begin (clk i) x target (from_str dat_key)).
Definition mc_record_end_str (clk : nat -> Clock) s (target dat_key : string) :=
  each_item s (fun i x => record_end (clk i) x target (from_str dat_key)).
Definition mc_record_task_str (clk : nat -> Clock) s (target dat_key : string) :=
  each_item s (fun i x => record_task (clk i) x target (from_str dat_key)).

Definition mc_record_begin_unit (clk : nat -> Clock) s (target : string) :=
  each_item s (fun i x => record_begin_unit (clk i) x target).
Definition mc_record_end_unit (clk : nat -> Clock) s (target : string) :=
  each_item s (fun i x => record_end_unit (clk i) x target).
Definition mc_record_task_unit (clk : nat -> Clock) s (target : string) :=
  each_item s (fun i x => record_task_unit (clk i) x target).

Definition has_pending_data (s : MetricCollectors) : bool :=
  existsb (fun c => negb (lru_is_empty (record c))) (items s).

Definition touch_task_unit (clk : nat -> Clock) s (target : string) :=
  each_item s (fun i x => record_task_n_unit (clk i) x target 0).
Definition touch_task_dim (clk : nat -> Clock) s (target : string) (dim : DataDim) :=
  each_item s (fun i x => record_task_n (clk i) x target dim 0).

Definition touch_task_record (clk : nat -> Clock) (s : MetricCollectors) (target : string)
    (tdo : DataRecord) : outcome MetricCollectors :=
  put s (let! l := upd_all (seq 0 (unit_collectors_end s)) (fun i x => record_task_n_unit (clk i) x target 0) (items s) in
    each_group (data_groups s) (fun g l =>
      upd_all (indices g) (fun i x => record_task_n (clk i) x target (extract_metric_dimensions tdo (g_collect g)) 0) l) l).

Definition record_task_batch (clk : nat -> Clock) (s : MetricCollectors) (target : string) (count : Z) :=
  if decide (count = 0) then s else each_item s (fun i x => record_task_n_unit (clk i) x target count).

(** The loop over a map of counts, given in the map's order, for one
    collector: the tagged total and the collector. *)
Definition record_tagged {K} (rec : StatCollector -> K -> Z -> StatCollector) (counts : list (K * Z))
    (x : StatCollector) : Z * StatCollector :=
  foldl (fun acc p => if decide (p.2 = 0) then acc else (acc.1 +w p.2, rec acc.2 p.1 p.2)) (0, x) counts.

Definition record_batch_by {K} (rec : Clock -> StatCollector -> K -> Z -> StatCollector)
    (clk : nat -> Clock) (s : MetricCollectors) (target : string) (counts : list (K * Z)) (total_count : Z)
    : MetricCollectors :=
  if decide (total_count = 0) then s
  else match counts with
  | [] => record_task_batch clk s target total_count
  | _ =>
      each_item s (fun i x =>
        let '(tagged_total, x) := record_tagged (rec (clk i)) counts x in
        if decide (tagged_total < total_count)
        then record_task_n_unit (clk i) x target (total_count - tagged_total) else x)
  end.

Definition record_task_batch_by_str_key (clk : nat -> Clock) (s : MetricCollectors) (target : string)
    (key_counts : list (string * Z)) (total_count : Z) : MetricCollectors :=
  record_batch_by (fun c x key cnt => record_task_n_str c x target key cnt) clk s target key_counts total_count.

Definition record_task_batch_by_source_ip (clk : nat -> Clock) (s : MetricCollectors) (target : string)
    (pair_counts : list ((string * option string) * Z)) (total_count : Z) : MetricCollectors :=
  record_batch_by (fun c x (p : string * option string) cnt =>
    record_task_n c x target (push (push empty (Some p.1)) p.2) cnt) clk s target pair_counts total_count.

Definition supports_unit_batch (s : MetricCollectors) : bool := negb (has_data_dims s).

Definition record_begin_batch_unit (clk : nat -> Clock) (s : MetricCollectors) (target : string) (count : Z) :=
  if decide (count = 0) then s else each_item s (fun i x => record_begin_n_unit (clk i) x target count).
Definition record_end_batch_unit (clk : nat -> Clock) (s : MetricCollectors) (target : string) (count : Z) :=
  if decide (count = 0) then s else each_item s (fun i x => record_end_n_unit (clk i) x target count).

(** The grouping loop of [new]: the groups so far and the index of each
    group by its fields. *)
Definition group_step (acc : list DataCollectorGroup * gmap (list string) nat) (p : nat * StatCollector)
    : list DataCollectorGroup * gmap (list string) nat :=
  let '(groups, by_collect) := acc in
  let c := req_collect (require p.2) in
  match by_collect !! c with
  | Some gi => (alter (fun g => mkGroup (g_collect g) (indices g ++ [p.1])) gi groups, by_collect)
  | None => (groups ++ [mkGroup c [p.1]], <[c := length groups]> by_collect)
  end.

Definition MetricCollectors_new (target : string) (stat_reqs : list StatReq) : MetricCollectors :=
  let '(unit_items, data_items) :=
    foldl (fun acc r =>
      if negb (match_target r target) then acc
      else if decide (req_collect r = []) then (acc.1 ++ [StatCollector_new target r], acc.2)
      else (acc.1, acc.2 ++ [StatCollector_new target r])) ([], []) stat_reqs in
  let groups := (foldl group_step ([], ∅) (imap (fun i x => (i, x)) data_items)).1 in
  let n := length unit_items in
  mkCollectors (unit_items ++ data_items) n (bool_decide (data_items <> []))
    ((fun g => mkGroup (g_collect g) ((fun i => i + n)%nat <$> indices g)) <$> groups).

Definition mc_up_target (s : MetricCollectors) (target : string) : MetricCollectors :=
  each_item s (fun _ x => up_target x target).

(** What the monitor's channel answers to a [try_send]. *)
Inductive TrySend := Sent | Full | Closed.

(** [send_stat]: the reports sent, the reports dropped because the channel
    was full (each counted by [rec_monitor_send_drop_full]), whether it was
    open, and the collectors; [try_send n] is the answer for collector [n]. *)
Fixpoint send_stat_loop (try_send : nat -> TrySend) (batch_time : Z)
    (done todo : list StatCollector) (sent full : list StatReport)
    : list StatReport * list StatReport * bool * list StatCollector :=
  match todo with
  | [] => (sent, full, true, done)
  | requ :: todo =>
      let '(slices, requ) := collect_stat_with_time requ batch_time in
      match try_send (length done) with
      | Sent => send_stat_loop try_send batch_time (done ++ [requ]) todo (sent ++ [slices]) full
      | Full => send_stat_loop try_send batch_time (done ++ [requ]) todo sent (full ++ [slices])
      | Closed => (sent, full, false, done ++ requ :: todo)
      end
  end.

Definition send_stat (try_send : nat -> TrySend) (batch_time : Z) (s : MetricCollectors)
    : list StatReport * list StatReport * bool * MetricCollectors :=
  let '(sent, full, ok, i) := send_stat_loop try_send batch_time [] (items s) [] [] in
  (sent, full, ok, with_items s i).

End Ops.
End Collectors.

(** ** [metric_set.rs] *)
Module Sets.

Section Ops.
Context {C : CollApi}.

(** [index] maps a merge key to a position of [units]. *)
Record MetricSet := mkSet { units : list StatReport; index : gmap string nat }.

Definition MetricSet_default : MetricSet := mkSet [] ∅.

Definition merge_key (report : StatReport) : string :=
  (StatStage_display (stage (req report)) +:+ "|" +:+ name (req report) +:+
   match cur_target report with Some target => "|1|" +:+ target | None => "|0|" end)%string.

(** The search loop: the first unit the report can merge with. *)
Definition find_unit (x : StatReport) (us : list StatReport) : option (nat * StatReport) :=
  list_find (fun sum => report_can_merge x sum) us.

(** The end of [merge_unit], when the index does not help. *)
Definition merge_unit_scan (us : list StatReport) (idx : gmap string nat) (key : string) (x : StatReport)
    : MetricSet :=
  match find_unit x us with
  | Some (i, sum) => mkSet (<[i := StatReport_merge sum x]> us) (<[key := i]> idx)
  | None => mkSet (us ++ [x]) (<[key := length us]> idx)
  end.

Definition merge_unit (s : MetricSet) (x : StatReport) : MetricSet :=
  let key := merge_key x in
  match index s !! key with
  | Some i =>
      match units s !! i with
      | Some sum =>
          if report_can_merge x sum then mkSet (<[i := StatReport_merge sum x]> (units s)) (index s)
          else merge_unit_scan (units s) (delete key (index s)) key x
      | None => merge_unit_scan (units s) (delete key (index s)) key x
      end
  | None => merge_unit_scan (units s) (index s) key x
  end.

(** [merge_slice]: the report inside the message. *)
Definition merge_slice (s : MetricSet) (slices : StatReport) : MetricSet := merge_unit s slices.

Definition set_merge (s other : MetricSet) : MetricSet := foldl merge_unit s (units other).

Definition registry (s : MetricSet) (reqs : list StatReq) : MetricSet :=
  foldl (fun s r =>
    let ins := StatReport_from r in
    mkSet (units s ++ [ins]) (<[merge_key ins := length (units s)]> (index s))) s reqs.

(** ** [runtime_metric.rs] *)
Record RuntimeMetrics := mkMetrics { slice : MetricSet; total_set : MetricSet }.

Definition RuntimeMetrics_default : RuntimeMetrics := mkMetrics MetricSet_default MetricSet_default.

Definition sum_up (m : RuntimeMetrics) : RuntimeMetrics :=
  mkMetrics MetricSet_default (set_merge (total_set m) (slice m)).

Definition metrics_registry (m : RuntimeMetrics) (reqs : list StatReq) : RuntimeMetrics :=
  mkMetrics (registry (slice m) reqs) (registry (total_set m) reqs).

End Ops.
End Sets.

(** ** [metric_aggregat.rs] *)
Module Aggregate.
Section Ops.
(** A mergeable item and the key it is filed under. *)
Context {T : Type} (merge_item : T -> T -> T) (slices_key : T -> string).

Record MetricAggregate := mkAggregate { a_items : gmap string T; sum : T }.

Definition merge_into (m : gmap string T) (name : string) (item : T) : gmap string T :=
  match m !! name with
  | Some self_item => <[name := merge_item self_item item]> m
  | None => <[name := item]> m
  end.

Definition aggregate_add (a : MetricAggregate) (other : T) : MetricAggregate :=
  mkAggregate (merge_into (a_items a) (slices_key other) other) (merge_item (sum a) other).

Definition aggregate_merge (a other : MetricAggregate) : MetricAggregate :=
  mkAggregate (map_fold (fun name item m => merge_into m name item) (a_items a) (a_items other))
    (merge_item (sum a) (sum other)).

End Ops.
End Aggregate.

(** ** [runtime_counters.rs]: four atomics, each operation one atomic step *)
Module Counters.

Inductive Counter := MonitorSendDropFull | MonitorSendDropClosed | SinkChannelFull | SinkChannelClosed.

#[export] Instance Counter_eq_dec : EqDecision Counter.
Proof. solve_decision. Defined.

Definition Counters : Type := Counter -> Z.

(** [fetch_add(1)]. *)
Definition rec_counter (c : Counter) (s : Counters) : Counters :=
  fun c' => if decide (c' = c) then s c +w 1 else s c'.

(** [swap(0)]. *)
Definition swap_counter (c : Counter) (s : Counters) : Z * Counters :=
  (s c, fun c' => if decide (c' = c) then 0 else s c').

Record RuntimeCounterSnapshot := mkSnapshot {
  monitor_send_drop_full : Z;
  monitor_send_drop_closed : Z;
  sink_channel_full : Z;
  sink_channel_closed : Z;
}.

Definition snapshot_is_empty (s : RuntimeCounterSnapshot) : bool :=
  (monitor_send_drop_full s =? 0) && (monitor_send_drop_closed s =? 0) &&
  (sink_channel_full s =? 0) && (sink_channel_closed s =? 0).

(** [take_snapshot] without other threads in between. *)
Definition take_snapshot (s : Counters) : RuntimeCounterSnapshot * Counters :=
  let '(a, s) := swap_counter MonitorSendDropFull s in
  let '(b, s) := swap_counter MonitorSendDropClosed s in
  let '(c, s) := swap_counter SinkChannelFull s in
  let '(d, s) := swap_counter SinkChannelClosed s in
  (mkSnapshot a b c d, s).

End Counters.

(** ** [sink_error_stats.rs] *)
Module ErrorStats.

Definition MAX_ERROR_CHARS : nat := 200.

Record SinkErrorEntry := mkEntry {
  dropped_total : Z;
  dropped_window : Z;
  last_error_at : option Z;
  last_error : option string;
}.

Definition entry_default : SinkErrorEntry := mkEntry 0 0 None None.

(** A [BTreeMap]; its iteration is by ascending key ([sorted_entries]). *)
Abbreviation Registry := (gmap string SinkErrorEntry).

Definition key_le (a b : string * SinkErrorEntry) : Prop := String.leb a.1 b.1 = true.

#[export] Instance key_le_dec a b : Decision (key_le a b).
Proof. unfold key_le. apply _. Defined.

Definition sorted_entries (m : Registry) : list (string * SinkErrorEntry) := merge_sort key_le (map_to_list m).

Record SinkErrorSnapshot := mkErrorSnapshot {
  es_sink : string;
  es_window : Z;
  es_total : Z;
  es_at : option Z;
  es_error : option string;
}.

Definition snapshot (sink : string) (entry : SinkErrorEntry) : SinkErrorSnapshot :=
  mkErrorSnapshot sink (dropped_window entry) (dropped_total entry) (last_error_at entry) (last_error entry).

(** [char::is_control]: the Unicode category [Cc], the characters below 32 and
    from 127 to 159. *)
Definition is_control (ch : string) : bool :=
  match nat_of_ascii <$> list_ascii_of_string ch with
  | [b] => (b <? 32)%nat || (b =? 127)%nat
  | [194%nat; b] => (128 <=? b)%nat && (b <? 160)%nat
  | _ => false
  end.

(** The characters kept, and whether the loop stopped early. *)
Fixpoint keep_chars (room : nat) (raw : list string) : list string * bool :=
  match raw with
  | [] => ([], false)
  | ch :: raw =>
      match room with
      | 0%nat => ([], true)
      | S room =>
          let '(out, truncated) := keep_chars room raw in
          ((if is_control ch then " " else ch) :: out, truncated)
      end
  end.

Definition sanitize_error_text (raw : string) : string :=
  let '(out, truncated) := keep_chars MAX_ERROR_CHARS (chars raw) in
  let trimmed := str_trim (of_chars out) in
  if decide (trimmed = "") then "sink error"
  else if truncated then (trimmed +:+ "...")%string else trimmed.

Definition record_failure (now : Z) (sink : string) (count : Z) (error : string) (m : Registry) : Z * Registry :=
  let e := default entry_default (m !! sink) in
  let e := mkEntry (dropped_total e ⊕ count) (dropped_window e ⊕ count) (Some now) (Some (sanitize_error_text error)) in
  (dropped_total e, <[sink := e]> m).

Definition record_drop (sink : string) (count : Z) (m : Registry) : Z * Registry :=
  let e := default entry_default (m !! sink) in
  let e := mkEntry (dropped_total e ⊕ count) (dropped_window e ⊕ count) (last_error_at e) (last_error e) in
  (dropped_total e, <[sink := e]> m).

Definition clear_window (e : SinkErrorEntry) : SinkErrorEntry :=
  mkEntry (dropped_total e) 0 (last_error_at e) (last_error e).

(** [take_window]: entries with an empty window are skipped. *)
Definition take_window (m : Registry) : list SinkErrorSnapshot * Registry :=
  ((fun p => snapshot p.1 p.2) <$> filter (fun p => dropped_window p.2 <> 0) (sorted_entries m),
   (fun e => if decide (dropped_window e = 0) then e else clear_window e) <$> m).

Definition snapshot_for (sink : string) (m : Registry) : option SinkErrorSnapshot :=
  snapshot sink <$> m !! sink.

End ErrorStats.
