(* ===== verification/MetricsLaws.v ===== *)
(** What the engine's metrics ([Metrics]) promise: every collector of a group
    counts a call exactly once under the fields its requirement names, the
    indexed report set is a map from report identities, drop counts are never
    lost between windows. *)
From Stdlib Require Import ZArith Lia String Ascii.
From stdpp Require Import base gmap list strings sorting.
From S2P Require Import Prelude Text Stats StatsLaws Metrics.
Import Measure Dim Request Slice Coll Report Collector Collectors.
Local Open Scope string_scope.
Local Open Scope list_scope.
Local Open Scope Z_scope.
Local Open Scope wp_scope.

Lemma elem_of_concat {A} (x : A) (ls : list (list A)) : x ∈ concat ls <-> exists l, l ∈ ls /\ x ∈ l.
Proof.
  rewrite list_elem_of_In, in_concat. split; intros (l & H1 & H2); exists l; by rewrite ?list_elem_of_In in *.
Qed.

(** ** Collectors *)
Section CollectorLaws.
Context {L : LruApi StatDim SliceRecord} {C : CollApi}.
Context {DataRecord : Type} (field_text : DataRecord -> string -> option string).

(** [l'] is [l] with [f i] applied at the positions [P] selects. *)
Definition updated (P : nat -> Prop) (f : nat -> StatCollector -> StatCollector) (l l' : list StatCollector) : Prop :=
  length l' = length l /\
  forall i x, l !! i = Some x -> (P i -> l' !! i = Some (f i x)) /\ (~ P i -> l' !! i = Some x).

Lemma updated_compose (P Q : nat -> Prop) f l l1 l2 : (forall i, P i -> Q i -> False) ->
  updated P f l l1 -> updated Q f l1 l2 -> updated (fun i => P i \/ Q i) f l l2.
Proof.
  intros Hd [H1 H2] [H3 H4]. split; [congruence|]. intros i x Hx. destruct (H2 i x Hx) as [A B]. split.
  - intros [HP|HQ].
    + apply (H4 i (f i x)); [by apply A|]. intros HQ. by apply (Hd i).
    + assert (l1 !! i = Some x) as E by (apply B; intros HP; by apply (Hd i)). by apply (H4 i x E).
  - intros HN. assert (l1 !! i = Some x) as E by (apply B; tauto). apply (H4 i x E). tauto.
Qed.

Lemma updated_ext (P Q : nat -> Prop) f g l l' : (forall i, P i <-> Q i) ->
  (forall i x, l !! i = Some x -> Q i -> f i x = g i x) -> updated P f l l' -> updated Q g l l'.
Proof.
  intros Hpq Hfg [H1 H2]. split; [done|]. intros i x Hx. destruct (H2 i x Hx) as [A B]. split.
  - intros Hq. rewrite <- Hfg by done. by apply A, Hpq.
  - intros Hq. apply B. by rewrite Hpq.
Qed.

Lemma upd_all_spec idxs f l : NoDup idxs -> (forall i, i ∈ idxs -> (i < length l)%nat) ->
  exists l', upd_all idxs f l = Ret l' /\ updated (fun i => i ∈ idxs) f l l'.
Proof.
  revert l. induction idxs as [|i idxs IH]; intros l Hnd Hr; cbn [upd_all].
  - exists l. split; [done|]. split; [done|]. intros i x Hx. split; [intros H; by apply not_elem_of_nil in H|done].
  - apply NoDup_cons in Hnd as [Hi Hnd].
    destruct (lookup_lt_is_Some_2 l i (Hr i ltac:(left))) as [x Hx]. unfold upd_at. rewrite Hx. cbn [obind].
    destruct (IH (<[i := f i x]> l) Hnd) as (l' & E & Hu).
    { intros j Hj. rewrite length_insert. apply Hr. by right. }
    exists l'. split; [exact E|].
    apply (updated_ext (fun j => j = i \/ j ∈ idxs) _ f); [intros j; by rewrite elem_of_cons|done|].
    apply (updated_compose _ _ _ _ (<[i := f i x]> l)); [intros j -> ?; done| |exact Hu].
    split; [apply length_insert|]. intros j y Hy. split.
    + intros ->. rewrite Hx in Hy. injection Hy as <-. apply list_lookup_insert_eq. by eapply lookup_lt_Some.
    + intros Hne. by rewrite list_lookup_insert_ne by congruence.
Qed.

Lemma upd_all_app i1 i2 f l : upd_all (i1 ++ i2) f l = let! l := upd_all i1 f l in upd_all i2 f l.
Proof.
  revert l. induction i1 as [|i i1 IH]; intros l; [done|]. cbn [app upd_all].
  destruct (upd_at i (f i) l); cbn [obind]; [apply IH|done].
Qed.

(** Treating the last member apart changes nothing. *)
Lemma group_record_all g f l : group_record g f l = upd_all (indices g) f l.
Proof.
  unfold group_record. destruct (indices g) as [|i rest] using rev_ind; [done|]. clear IHrest.
  rewrite last_snoc, removelast_last, upd_all_app. destruct (upd_all rest f l) as [l'|]; cbn [obind upd_all]; [|done].
  by destruct (upd_at i (f i) l').
Qed.

(** The loop over the groups. *)
Lemma each_group_spec groups (F : DataCollectorGroup -> nat -> StatCollector -> StatCollector)
    (f : nat -> StatCollector -> StatCollector) body l :
  (forall g l, g ∈ groups -> body g l = upd_all (indices g) (F g) l) ->
  NoDup (concat (indices <$> groups)) -> (forall i, i ∈ concat (indices <$> groups) -> (i < length l)%nat) ->
  (forall g i x, g ∈ groups -> i ∈ indices g -> l !! i = Some x -> F g i x = f i x) ->
  exists l', each_group groups body l = Ret l' /\ updated (fun i => i ∈ concat (indices <$> groups)) f l l'.
Proof.
  revert l. induction groups as [|g groups IH]; intros l Hb Hnd Hr HF; cbn [each_group].
  - exists l. split; [done|]. split; [done|]. intros i x Hx. split; [intros H; by apply not_elem_of_nil in H|done].
  - rewrite fmap_cons in *. cbn [concat] in *. apply NoDup_app in Hnd as (Hn1 & Hd & Hn2).
    destruct (upd_all_spec (indices g) (F g) l Hn1) as (l1 & E1 & Hu1).
    { intros i Hi. apply Hr, elem_of_app. by left. }
    rewrite Hb by left. rewrite E1. cbn [obind]. pose proof Hu1 as [Hlen1 Hu1'].
    destruct (IH l1) as (l' & E & Hu); try done.
    + intros g' l0 Hg'. apply Hb. by right.
    + intros i Hi. rewrite Hlen1. apply Hr, elem_of_app. by right.
    + intros g' i x Hg' Hi Hx. assert (i ∈ concat (indices <$> groups)) as Hin.
      { apply elem_of_concat. exists (indices g'). split; [|done]. by apply list_elem_of_fmap_2. }
      assert (is_Some (l !! i)) as [y Hy].
      { apply lookup_lt_is_Some. rewrite <- Hlen1. by eapply lookup_lt_Some. }
      destruct (Hu1' i y Hy) as [_ Hn]. rewrite Hn in Hx by (intros Hi'; by apply (Hd i)).
      injection Hx as ->. apply HF; [by right|done|done].
    + exists l'. split; [exact E|].
      apply (updated_ext (fun i => i ∈ indices g \/ i ∈ concat (indices <$> groups)) _ f); [intros i; by rewrite elem_of_app|done|].
      apply (updated_compose _ _ _ _ l1); [intros i ? ?; by apply (Hd i)| |exact Hu].
      apply (updated_ext (fun i => i ∈ indices g) _ (F g)); [done| |exact Hu1].
      intros i x Hx Hi. by apply HF; [left|..].
Qed.
(** The shape [new] builds: the collectors without fields first, then those
    with fields, each in exactly one group, the group of its fields. *)
Record mc_wf (s : MetricCollectors) : Prop := {
  wf_len : (unit_collectors_end s <= length (items s))%nat;
  wf_groups : concat (indices <$> data_groups s) ≡ₚ
    seq (unit_collectors_end s) (length (items s) - unit_collectors_end s);
  wf_collect g i x : g ∈ data_groups s -> i ∈ indices g -> items s !! i = Some x ->
    req_collect (require x) = g_collect g;
  wf_unit i x : (i < unit_collectors_end s)%nat -> items s !! i = Some x -> req_collect (require x) = [];
  wf_flag : has_data_dims s = bool_decide (unit_collectors_end s <> length (items s));
}.

Lemma run_call_require x k : require (run_call x k) = require x.
Proof.
  destruct k as [c k]; destruct k; cbn [run_call fst snd];
    unfold record_begin_unit, record_end_unit, record_task_unit, record_begin_n_unit, record_end_n_unit,
      record_task_n_unit, record_begin, record_end, record_task, record_begin_n, record_end_n, record_task_n,
      rec_beg_impl, rec_end_impl, rec_beg_end_impl, rec_beg_n_impl, rec_end_n_impl, rec_beg_end_n_impl,
      unit_dim_cached; repeat case_match; simplify_eq; done.
Qed.

Lemma mc_wf_items s l : mc_wf s -> length l = length (items s) ->
  (forall i x, items s !! i = Some x -> exists y, l !! i = Some y /\ require y = require x) ->
  mc_wf (mkCollectors l (unit_collectors_end s) (has_data_dims s) (data_groups s)).
Proof.
  intros [W1 W2 W3 W4 W5] Hl Hr.
  assert (forall i y, l !! i = Some y -> exists x, items s !! i = Some x /\ require y = require x) as Hb.
  { intros i y Hy. assert (is_Some (items s !! i)) as [x Hx].
    { apply lookup_lt_is_Some. rewrite <- Hl. by eapply lookup_lt_Some. }
    destruct (Hr i x Hx) as (y' & E & R). exists x. split; [done|]. congruence. }
  split; cbn; rewrite ?Hl; try done.
  - intros g i y Hg Hi Hy. destruct (Hb i y Hy) as (x & Hx & ->). by apply (W3 g i x).
  - intros i y Hi Hy. destruct (Hb i y Hy) as (x & Hx & ->). by apply (W4 i x).
Qed.

(** A call handled in two passes, over the collectors without fields and over
    the others, reaches every collector once. *)
Lemma two_passes s (fu f : nat -> StatCollector -> StatCollector) rest : mc_wf s ->
  (forall l1, length l1 = length (items s) ->
     (forall i x, (unit_collectors_end s <= i)%nat -> items s !! i = Some x -> l1 !! i = Some x) ->
     exists l2, rest l1 = Ret l2 /\
       updated (fun i => i ∈ seq (unit_collectors_end s) (length (items s) - unit_collectors_end s)) f l1 l2) ->
  (forall i x, (i < unit_collectors_end s)%nat -> fu i x = f i x) ->
  (forall i x, require (f i x) = require x) ->
  exists s', put s (let! l := upd_all (seq 0 (unit_collectors_end s)) fu (items s) in rest l) = Ret s' /\
    mc_wf s' /\ length (items s') = length (items s) /\
    forall i x, items s !! i = Some x -> items s' !! i = Some (f i x).
Proof.
  intros W Hrest Hfu Hreq. pose proof W as [W1 _ _ _ _].
  destruct (upd_all_spec (seq 0 (unit_collectors_end s)) fu (items s)) as (l1 & E1 & Hu1).
  { apply NoDup_ListNoDup, seq_NoDup. }
  { intros i Hi. apply elem_of_seq in Hi. lia. }
  pose proof Hu1 as [Hlen1 Hl1].
  destruct (Hrest l1 Hlen1) as (l2 & E2 & Hu2).
  { intros i x Hi Hx. apply (Hl1 i x Hx). intros H%elem_of_seq. lia. }
  assert (updated (fun i => i ∈ seq 0 (unit_collectors_end s) \/
      i ∈ seq (unit_collectors_end s) (length (items s) - unit_collectors_end s)) f (items s) l2) as [Hlen Hl].
  { apply (updated_compose _ _ _ _ l1); [intros i H1%elem_of_seq H2%elem_of_seq; lia| |exact Hu2].
    apply (updated_ext (fun i => i ∈ seq 0 (unit_collectors_end s)) _ fu); [done| |exact Hu1].
    intros i x _ Hi%elem_of_seq. apply Hfu. lia. }
  assert (forall i x, items s !! i = Some x -> l2 !! i = Some (f i x)) as Hall.
  { intros i x Hx. apply (Hl i x Hx). apply lookup_lt_Some in Hx. rewrite !elem_of_seq. lia. }
  rewrite E1. cbn [obind]. rewrite E2. eexists. split; [reflexivity|]. split; [|split; [exact Hlen|exact Hall]].
  apply mc_wf_items; [done|exact Hlen|]. intros i x Hx. exists (f i x). split; [by apply Hall|apply Hreq].
Qed.

(** The second pass, by groups. *)
Lemma groups_pass s l1 body F f : mc_wf s -> length l1 = length (items s) ->
  (forall i x, (unit_collectors_end s <= i)%nat -> items s !! i = Some x -> l1 !! i = Some x) ->
  (forall g l, g ∈ data_groups s -> body g l = upd_all (indices g) (F g) l) ->
  (forall g i x, (unit_collectors_end s <= i)%nat -> req_collect (require x) = g_collect g -> F g i x = f i x) ->
  exists l2, each_group (data_groups s) body l1 = Ret l2 /\
    updated (fun i => i ∈ seq (unit_collectors_end s) (length (items s) - unit_collectors_end s)) f l1 l2.
Proof.
  intros [W1 W2 W3 _ _] Hlen Hl1 Hb HF.
  assert (forall i, i ∈ concat (indices <$> data_groups s) <->
    i ∈ seq (unit_collectors_end s) (length (items s) - unit_collectors_end s)) as Hin by (intros i; by rewrite W2).
  destruct (each_group_spec (data_groups s) F f body l1) as (l2 & E & Hu); [done|..].
  - rewrite W2. apply NoDup_ListNoDup, seq_NoDup.
  - intros i Hi%Hin%elem_of_seq. lia.
  - intros g i x Hg Hi Hx. assert (i ∈ concat (indices <$> data_groups s)) as Hc.
    { apply elem_of_concat. exists (indices g). split; [by apply list_elem_of_fmap_2|done]. }
    apply Hin, elem_of_seq in Hc. apply HF; [lia|].
    destruct (lookup_lt_is_Some_2 (items s) i ltac:(lia)) as [y Hy].
    pose proof (Hl1 i y ltac:(lia) Hy) as E. rewrite Hx in E. injection E as ->. by apply (W3 g i y).
  - exists l2. split; [exact E|]. by apply (updated_ext (fun i => i ∈ concat (indices <$> data_groups s)) _ f).
Qed.

(** The second pass of an end or a task without a record. *)
Lemma rest_pass s l1 f : mc_wf s -> length l1 = length (items s) ->
  exists l2, upd_all (seq (unit_collectors_end s) (length l1 - unit_collectors_end s)) f l1 = Ret l2 /\
    updated (fun i => i ∈ seq (unit_collectors_end s) (length (items s) - unit_collectors_end s)) f l1 l2.
Proof.
  intros [W1 _ _ _ _] Hlen. rewrite Hlen. apply upd_all_spec; [apply NoDup_ListNoDup, seq_NoDup|].
  intros i Hi%elem_of_seq. lia.
Qed.

(** The call a collector sees. *)
Definition begin_call (s : MetricCollectors) (target : string) (dat : option DataRecord)
    (i : nat) (x : StatCollector) : Call :=
  if decide (i < unit_collectors_end s)%nat then BeginUnit target
  else match dat with
  | Some tdo => Begin target (extract_metric_dimensions field_text tdo (req_collect (require x)))
  | None =>
      if is_target_only_collect (req_collect (require x))
      then Begin target (extract_metric_dimensions_from_target_only (req_collect (require x)))
      else BeginUnit target
  end.

Definition end_call (s : MetricCollectors) (target : string) (dat : option DataRecord)
    (i : nat) (x : StatCollector) : Call :=
  if decide (i < unit_collectors_end s)%nat then EndUnit target
  else match dat with
  | Some tdo => End_ target (extract_metric_dimensions field_text tdo (req_collect (require x)))
  | None => EndUnit target
  end.

Definition task_call (s : MetricCollectors) (target : string) (dat : option DataRecord)
    (i : nat) (x : StatCollector) : Call :=
  if decide (i < unit_collectors_end s)%nat then TaskUnit target
  else match dat with
  | Some tdo => Task target (extract_metric_dimensions field_text tdo (req_collect (require x)))
  | None => TaskUnit target
  end.

(** Every collector of [s] makes the call [k] chooses for it. *)
Definition counts (clk : nat -> Clock) (k : nat -> StatCollector -> Call) (s : MetricCollectors)
    (o : outcome MetricCollectors) : Prop :=
  exists s', o = Ret s' /\ mc_wf s' /\ length (items s') = length (items s) /\
    forall i x, items s !! i = Some x -> items s' !! i = Some (run_call x (clk i, k i x)).

Lemma counts_begin clk s target dat : mc_wf s ->
  counts clk (begin_call s target dat) s (mc_record_begin field_text clk s target dat).
Proof.
  intros W. apply two_passes; [done| | |intros; apply run_call_require].
  - intros l1 Hlen Hl1. destruct dat as [tdo|].
    + apply (groups_pass s l1 _ (fun g i x => record_begin (clk i) x target (extract_metric_dimensions field_text tdo (g_collect g))));
        [done..|intros; by rewrite group_record_all|].
      intros g i x Hi Hg. unfold begin_call. by rewrite decide_False, Hg by lia.
    + apply (groups_pass s l1 _ (fun g i x => if is_target_only_collect (g_collect g)
          then record_begin (clk i) x target (extract_metric_dimensions_from_target_only (g_collect g))
          else record_begin_unit (clk i) x target)); [done..| |].
      * intros g l _. rewrite group_record_all. by destruct (is_target_only_collect _).
      * intros g i x Hi Hg. unfold begin_call. rewrite decide_False, Hg by lia. by destruct (is_target_only_collect _).
  - intros i x Hi. unfold begin_call. by rewrite decide_True.
Qed.

Lemma counts_end clk s target dat : mc_wf s ->
  counts clk (end_call s target dat) s (mc_record_end field_text clk s target dat).
Proof.
  intros W. apply two_passes; [done| | |intros; apply run_call_require].
  - intros l1 Hlen Hl1. destruct dat as [tdo|].
    + apply (groups_pass s l1 _ (fun g i x => record_end (clk i) x target (extract_metric_dimensions field_text tdo (g_collect g))));
        [done..|intros; by rewrite group_record_all|].
      intros g i x Hi Hg. unfold end_call. by rewrite decide_False, Hg by lia.
    + destruct (rest_pass s l1 (fun i x => record_end_unit (clk i) x target) W Hlen) as (l2 & E & Hu).
      exists l2. split; [exact E|]. apply (updated_ext _ _ _ _ _ _ (fun i => iff_refl _)) with (2 := Hu).
      intros i x _ Hi%elem_of_seq. unfold end_call. by rewrite decide_False by lia.
  - intros i x Hi. unfold end_call. by rewrite decide_True.
Qed.

Lemma counts_task clk s target dat : mc_wf s ->
  counts clk (task_call s target dat) s (mc_record_task field_text clk s target dat).
Proof.
  intros W. apply two_passes; [done| | |intros; apply run_call_require].
  - intros l1 Hlen Hl1. destruct dat as [tdo|].
    + apply (groups_pass s l1 _ (fun g i x => record_task (clk i) x target (extract_metric_dimensions field_text tdo (g_collect g))));
        [done..|intros; by rewrite group_record_all|].
      intros g i x Hi Hg. unfold task_call. by rewrite decide_False, Hg by lia.
    + destruct (rest_pass s l1 (fun i x => record_task_unit (clk i) x target) W Hlen) as (l2 & E & Hu).
      exists l2. split; [exact E|]. apply (updated_ext _ _ _ _ _ _ (fun i => iff_refl _)) with (2 := Hu).
      intros i x _ Hi%elem_of_seq. unfold task_call. by rewrite decide_False by lia.
  - intros i x Hi. unfold task_call. by rewrite decide_True.
Qed.
(** A touch on an idle period, and the sending of the statistics, keep the shape. *)
Lemma each_item_wf s f : mc_wf s -> (forall i x, require (f i x) = require x) -> mc_wf (each_item s f).
Proof.
  intros W Hf. unfold each_item. apply mc_wf_items; [done|apply length_imap|].
  intros i x Hx. exists (f i x). by rewrite list_lookup_imap, Hx, Hf.
Qed.

Lemma touch_unit_wf clk s target : mc_wf s -> mc_wf (touch_task_unit clk s target).
Proof. intros W. apply each_item_wf; [done|]. intros i x. apply (run_call_require x (clk i, TaskNUnit target 0)). Qed.

Lemma touch_record_wf clk s target tdo : mc_wf s ->
  exists s', touch_task_record field_text clk s target tdo = Ret s' /\ mc_wf s'.
Proof.
  intros W. unfold touch_task_record.
  set (call := fun (i : nat) (x : StatCollector) => if decide (i < unit_collectors_end s)%nat then TaskNUnit target 0
    else TaskN target (extract_metric_dimensions field_text tdo (req_collect (require x))) 0).
  destruct (two_passes s (fun i x => record_task_n_unit (clk i) x target 0) (fun i x => run_call x (clk i, call i x))
    (fun l => each_group (data_groups s) (fun g l => upd_all (indices g)
       (fun i x => record_task_n (clk i) x target (extract_metric_dimensions field_text tdo (g_collect g)) 0) l) l) W)
    as (s' & E & W' & _).
  - intros l1 Hlen Hl1.
    apply (groups_pass s l1 _ (fun g i x => record_task_n (clk i) x target (extract_metric_dimensions field_text tdo (g_collect g)) 0));
      [done..|]. intros g i x Hi Hg. unfold call. by rewrite decide_False, Hg by lia.
  - intros i x Hi. unfold call. by rewrite decide_True.
  - intros i x. apply run_call_require.
  - by exists s'.
Qed.

Lemma send_loop_items ts t done todo out full : (forall i, ts i <> Closed) ->
  exists out' full', send_stat_loop ts t done todo out full =
    (out', full', true, done ++ ((fun x => (collect_stat_with_time x t).2) <$> todo)).
Proof.
  intros Hts. revert done out full. induction todo as [|x todo IH]; intros done out full; cbn [send_stat_loop].
  - exists out, full. by rewrite app_nil_r.
  - rewrite fmap_cons, cons_middle, app_assoc. destruct (collect_stat_with_time x t) as [sl y]. cbn [snd].
    specialize (Hts (length done)). destruct (ts (length done)); [apply IH..|done].
Qed.

(** Whatever the channel answers, the shape stays. *)
Lemma send_loop_keeps ts t done todo out full :
  let '(_, _, _, i) := send_stat_loop ts t done todo out full in
  exists l, i = done ++ l /\ length l = length todo /\
    forall k x, todo !! k = Some x -> exists y, l !! k = Some y /\ require y = require x.
Proof.
  revert done out full. induction todo as [|x todo IH]; intros done out full; cbn [send_stat_loop].
  { exists []. by rewrite app_nil_r. }
  assert (require (collect_stat_with_time x t).2 = require x) as Hx by done.
  destruct (collect_stat_with_time x t) as [sl y]. cbn [snd] in Hx.
  assert (forall out full, let '(_, _, _, i) := send_stat_loop ts t (done ++ [y]) todo out full in
    exists l, i = done ++ l /\ length l = length (x :: todo) /\
      forall k z, (x :: todo) !! k = Some z -> exists w, l !! k = Some w /\ require w = require z) as Hgo.
  { intros out' full'. specialize (IH (done ++ [y]) out' full').
    destruct (send_stat_loop ts t (done ++ [y]) todo out' full') as [[[o f] b] i]. destruct IH as (l & -> & Hl & Hr).
    exists (y :: l). rewrite <- app_assoc. split; [done|]. split; [cbn; by f_equal|].
    intros [|k] z Hz; [injection Hz as <-; by exists y|by apply Hr]. }
  destruct (ts (length done)); [apply Hgo..|].
  exists (y :: todo). split; [done|]. split; [done|]. intros [|k] z Hz; [injection Hz as <-; by exists y|by exists z].
Qed.

Lemma send_loop_wf ts t s : mc_wf s ->
  let '(_, _, _, i) := send_stat_loop ts t [] (items s) [] [] in mc_wf (mkCollectors i (unit_collectors_end s) (has_data_dims s) (data_groups s)).
Proof.
  intros W. pose proof (send_loop_keeps ts t [] (items s) [] []) as Hk.
  destruct (send_stat_loop ts t [] (items s) [] []) as [[[o f] b] i]. destruct Hk as (l & -> & Hl & Hr).
  by apply mc_wf_items.
Qed.

Lemma send_stat_wf ts t s : mc_wf s -> (forall i, ts i <> Closed) ->
  exists out full s', Collectors.send_stat ts t s = (out, full, true, s') /\ mc_wf s'.
Proof.
  intros W Hts. unfold Collectors.send_stat.
  destruct (send_loop_items ts t [] (items s) [] [] Hts) as (out & full & ->). do 3 eexists. split; [done|].
  apply mc_wf_items; [done|by rewrite app_nil_l, length_fmap|]. intros i x Hx.
  exists (collect_stat_with_time x t).2. by rewrite app_nil_l, list_lookup_fmap, Hx.
Qed.

(** The grouping loop. *)
Definition grouping (xs : list StatCollector) : list DataCollectorGroup * gmap (list string) nat :=
  foldl group_step ([], ∅) (imap (fun i x => (i, x)) xs).

Record grouped (xs : list StatCollector) (st : list DataCollectorGroup * gmap (list string) nat) : Prop := {
  gr_perm : concat (indices <$> st.1) ≡ₚ seq 0 (length xs);
  gr_collect g i x : g ∈ st.1 -> i ∈ indices g -> xs !! i = Some x -> req_collect (require x) = g_collect g;
  gr_index c gi : st.2 !! c = Some gi -> exists g, st.1 !! gi = Some g /\ g_collect g = c;
}.

Lemma concat_snoc_at (groups : list DataCollectorGroup) gi g n : groups !! gi = Some g ->
  concat (indices <$> alter (fun g => mkGroup (g_collect g) (indices g ++ [n])) gi groups) ≡ₚ
  concat (indices <$> groups) ++ [n].
Proof.
  revert gi. induction groups as [|h groups IH]; intros [|gi] H; try done; cbn in H.
  - injection H as ->. cbn. rewrite <- !app_assoc. apply Permutation_app_head, Permutation_app_comm.
  - change (alter (M:=list DataCollectorGroup) ?f (S gi) (h :: groups)) with (h :: alter (M:=list DataCollectorGroup) f gi groups).
    rewrite !fmap_cons. cbn [concat]. by rewrite (IH gi H), app_assoc.
Qed.

Lemma grouping_step xs st x : grouped xs st -> grouped (xs ++ [x]) (group_step st (length xs, x)).
Proof.
  destruct st as [groups by_]. intros [G1 G2 G3]. cbn [fst snd] in *.
  assert (forall g i, g ∈ groups -> i ∈ indices g -> (i < length xs)%nat) as Hr.
  { intros g i Hg Hi. assert (i ∈ concat (indices <$> groups)) as H.
    { apply elem_of_concat. exists (indices g). split; [by apply list_elem_of_fmap_2|done]. }
    rewrite G1 in H. apply elem_of_seq in H. lia. }
  unfold group_step. cbn [fst snd]. destruct (by_ !! req_collect (require x)) as [gi|] eqn:E.
  - destruct (G3 _ _ E) as (g0 & Hg0 & Hc0). split; cbn [fst snd].
    + etransitivity; [exact (concat_snoc_at _ _ _ (length xs) Hg0)|]. by rewrite G1, length_app, seq_app.
    + intros g i y Hg Hi Hy. apply list_elem_of_lookup in Hg as [j Hj].
      rewrite list_lookup_alter in Hj. case_decide as Hd.
      * subst j. rewrite Hg0 in Hj. cbn in Hj. injection Hj as <-. cbn in *.
        apply elem_of_app in Hi as [Hi|Hi%list_elem_of_singleton].
        -- pose proof (Hr g0 i ltac:(by eapply list_elem_of_lookup_2) Hi). rewrite lookup_app_l in Hy by done.
           apply (G2 g0 i y); [by eapply list_elem_of_lookup_2|done|done].
        -- subst i. rewrite list_lookup_middle in Hy by done. by injection Hy as <-.
      * assert (g ∈ groups) as Hg by by eapply list_elem_of_lookup_2.
        pose proof (Hr g i Hg Hi). rewrite lookup_app_l in Hy by done. by apply (G2 g i y).
    + intros c gj Hgj. destruct (G3 _ _ Hgj) as (g & Hg & <-). destruct (decide (gj = gi)) as [->|Hne].
      * eexists. split; [by rewrite list_lookup_alter_eq, Hg|done].
      * exists g. by rewrite list_lookup_alter_ne.
  - split; cbn [fst snd].
    + rewrite fmap_app, concat_app, G1, length_app, seq_app. done.
    + intros g i y Hg Hi Hy. apply elem_of_app in Hg as [Hg| ->%list_elem_of_singleton].
      * pose proof (Hr g i Hg Hi). rewrite lookup_app_l in Hy by done. by apply (G2 g i y).
      * cbn in Hi. apply list_elem_of_singleton in Hi. subst i. rewrite list_lookup_middle in Hy by done.
        by injection Hy as <-.
    + intros c gj. intros [[<- <-]|[_ Hgj]]%lookup_insert_Some.
      * eexists. split; [apply list_lookup_middle; done|done].
      * destruct (G3 _ _ Hgj) as (g & Hg & <-). exists g. split; [|done].
        rewrite lookup_app_l; [done|by eapply lookup_lt_Some].
Qed.

Lemma grouping_grouped xs : grouped xs (grouping xs).
Proof.
  induction xs as [|x xs IH] using rev_ind.
  - split; cbn; [done|intros g i x H; by apply not_elem_of_nil in H|by intros c gi; rewrite lookup_empty].
  - unfold grouping. rewrite imap_app. cbn [imap]. rewrite Nat.add_0_r, foldl_snoc. by apply grouping_step.
Qed.

(** The collectors [new] builds, in order. *)
Lemma new_items target reqs :
  foldl (fun acc r =>
    if negb (match_target r target) then acc
    else if decide (req_collect r = []) then (acc.1 ++ [StatCollector_new target r], acc.2)
    else (acc.1, acc.2 ++ [StatCollector_new target r])) ([], []) reqs =
  (StatCollector_new target <$> filter (fun r => match_target r target /\ req_collect r = []) reqs,
   StatCollector_new target <$> filter (fun r => match_target r target /\ req_collect r <> []) reqs).
Proof.
  induction reqs as [|r reqs IH] using rev_ind; [done|].
  rewrite foldl_snoc, IH, !filter_app, !fmap_app, !(filter_cons _ r []). cbn [fst snd].
  destruct (match_target r target); cbn [negb]; repeat case_decide; cbn in *; try (exfalso; tauto);
    cbn; by rewrite ?app_nil_r.
Qed.

Lemma mc_new_wf target reqs : mc_wf (MetricCollectors_new target reqs).
Proof.
  unfold MetricCollectors_new. rewrite new_items.
  set (us := StatCollector_new target <$> _). set (ds := StatCollector_new target <$> _).
  destruct (grouping_grouped ds) as [G1 G2 _]. unfold grouping in G1, G2.
  set (gs := (foldl group_step _ _).1) in *.
  assert (concat (indices <$> ((fun g => mkGroup (g_collect g) ((fun i => i + length us)%nat <$> indices g)) <$> gs)) =
    (fun i => i + length us)%nat <$> concat (indices <$> gs)) as Ec.
  { generalize gs. intros l. induction l as [|g l IH]; [done|]. cbn. rewrite fmap_app. by f_equal. }
  split; cbn [unit_collectors_end items data_groups has_data_dims]; rewrite ?length_app.
  - lia.
  - rewrite Ec, G1, Nat.add_comm, Nat.add_sub. generalize (length ds). intros n.
    transitivity (Nat.add (length us) <$> seq 0 n); [apply reflexive_eq, list_fmap_ext; intros; lia|].
    by rewrite fmap_add_seq, Nat.add_0_r.
  - intros g i x Hg Hi Hx. apply list_elem_of_fmap in Hg as (g' & -> & Hg). cbn in *.
    apply list_elem_of_fmap in Hi as (j & -> & Hj). rewrite lookup_app_r in Hx by lia.
    apply (G2 g' j x Hg Hj). by rewrite <- Hx, Nat.add_sub.
  - intros i x Hi Hx. rewrite lookup_app_l in Hx by done. unfold us in Hx. rewrite list_lookup_fmap in Hx.
    destruct (_ !! i) as [r|] eqn:E; [|done]. cbn in Hx. injection Hx as <-. cbn.
    apply list_elem_of_lookup_2, list_elem_of_filter in E. tauto.
  - apply bool_decide_ext. split; [|by intros ? ->; cbn in *; lia].
    destruct ds; cbn; [done|lia].
Qed.
(** C37: a group of collectors serves exactly the requirements that match its
    target, those without fields first; recording a begin, an end or a task,
    with or without a record, never indexes out of range, keeps the shape of
    the group, and makes every collector count exactly once, under the fields
    its own requirement names when a record is at hand. *)
Theorem collector_group_counts_once :
  (forall target reqs,
     mc_wf (MetricCollectors_new target reqs) /\
     require <$> items (MetricCollectors_new target reqs) =
       filter (fun r => match_target r target /\ req_collect r = []) reqs ++
       filter (fun r => match_target r target /\ req_collect r <> []) reqs) /\
  (forall clk s target dat, mc_wf s ->
     counts clk (begin_call s target dat) s (mc_record_begin field_text clk s target dat) /\
     counts clk (end_call s target dat) s (mc_record_end field_text clk s target dat) /\
     counts clk (task_call s target dat) s (mc_record_task field_text clk s target dat)).
Proof.
  split; [|by auto using counts_begin, counts_end, counts_task].
  intros target reqs. split; [apply mc_new_wf|]. unfold MetricCollectors_new. rewrite new_items. cbn [items].
  rewrite fmap_app, <- !list_fmap_compose. f_equal; apply list_fmap_id.
Qed.

Lemma target_only_fields fields : item (extract_metric_dimensions_from_target_only fields) = (fun _ => None) <$> fields.
Proof.
  unfold extract_metric_dimensions_from_target_only.
  assert (forall d, item (foldl (fun data _ => push data None) d fields) = item d ++ ((fun _ => None) <$> fields)) as H.
  { induction fields as [|f fields IH]; intros d; cbn [foldl]; [by rewrite app_nil_r|].
    rewrite IH. unfold push. cbn [item]. by rewrite <- app_assoc. }
  apply H.
Qed.

(** For a collector whose fields are all names of the target (sink group,
    sink name, package, rule), a begin and an end recorded without a record are
    counted under different keys: the first under one star per field, the second
    under no field, so that the event is one begun and never ended, and one ended
    and never begun. *)
Theorem begin_end_without_record (clk : nat -> Clock) (s : MetricCollectors) (target : string) (i : nat)
  (x : StatCollector) (W : mc_wf s) (Hx : items s !! i = Some x) (Hi : (unit_collectors_end s <= i)%nat)
  (Hf : req_collect (require x) <> []) (Ht : is_target_only_collect (req_collect (require x)) = true) :
  let b := Begin target (extract_metric_dimensions_from_target_only (req_collect (require x))) in
  let e := EndUnit target in
  (exists s1 s2,
     mc_record_begin field_text clk s target None = Ret s1 /\ mc_record_end field_text clk s1 target None = Ret s2 /\
     items s2 !! i = Some (run_call (run_call x (clk i, b)) (clk i, e))) /\
  StatDim_display (call_dim (req_target (require x)) b) <> StatDim_display (call_dim (req_target (require x)) e).
Proof.
  cbn zeta. split.
  - destruct (counts_begin clk s target None W) as (s1 & E1 & W1 & Hlen & H1). specialize (H1 i x Hx).
    assert (unit_collectors_end s1 = unit_collectors_end s) as Hu.
    { revert E1. unfold mc_record_begin, put. destruct (upd_all _ _ _) as [l|]; cbn [obind]; [|done].
      destruct (each_group _ _ _) as [l'|]; cbn [obind]; [|done]. by intros [= <-]. }
    destruct (counts_end clk s1 target None W1) as (s2 & E2 & W2 & _ & H2). specialize (H2 i _ H1).
    exists s1, s2. split; [done|]. split; [done|]. rewrite H2. unfold begin_call, end_call.
    by rewrite Hu, !decide_False, Ht by lia.
  - unfold call_dim, make_dim_unit, make_dim, StatDim_display. cbn [Dim.target collect].
    intros E. apply (append_cancel (default "*" _)), (append_cancel "@") in E.
    unfold DataDim_display in E. rewrite target_only_fields in E.
    destruct (req_collect (require x)); [done|]. discriminate.
Qed.
End CollectorLaws.

(** ** The report set *)
#[export] Instance StatStage_countable : Countable StatStage.
Proof.
  refine (inj_countable'
    (fun s => match s with Gen => 0%nat | Pick => 1%nat | Parse => 2%nat | Sink => 3%nat end)
    (fun n => match n with 0%nat => Gen | 1%nat => Pick | 2%nat => Parse | _ => Sink end) _).
  by intros [].
Defined.

Section SetLaws.
Import Sets.
Context {C : CollApi}.

(** What tells reports apart. *)
Definition Ident : Type := StatStage * string * option string.
Definition ident (x : StatReport) : Ident := (stage (req x), name (req x), cur_target x).

Lemma can_merge_ident x y : report_can_merge x y = true <-> ident x = ident y.
Proof.
  unfold report_can_merge, ident. rewrite !andb_true_iff, !bool_decide_eq_true. split.
  - by intros [[-> ->] ->].
  - by intros [= -> -> ->].
Qed.

Lemma merge_ident sum x : ident x = ident sum -> ident (StatReport_merge sum x) = ident sum.
Proof. unfold ident, StatReport_merge. cbn. by intros [= _ _ ->]. Qed.

(** The set as a map from identities, and merging in it. *)
Definition abs (us : list StatReport) : gmap Ident StatReport := list_to_map ((fun u => (ident u, u)) <$> us).

Definition spec_merge (m : gmap Ident StatReport) (x : StatReport) : gmap Ident StatReport :=
  <[ident x := match m !! ident x with Some u => StatReport_merge u x | None => x end]> m.

Lemma abs_perm us us' : NoDup (ident <$> us) -> us ≡ₚ us' -> abs us = abs us'.
Proof.
  intros Hnd Hp. apply list_to_map_proper; [by rewrite <- list_fmap_compose|by rewrite Hp].
Qed.

Lemma abs_replace pre u y post : NoDup (ident <$> (pre ++ u :: post)) -> ident y = ident u ->
  abs (pre ++ y :: post) = <[ident u := y]> (abs (pre ++ u :: post)) /\ abs (pre ++ u :: post) !! ident u = Some u.
Proof.
  intros Hnd Hi.
  assert (NoDup (ident <$> (pre ++ y :: post))) as Hnd' by (rewrite fmap_app, fmap_cons in *; by rewrite Hi).
  rewrite (abs_perm (pre ++ y :: post) (y :: pre ++ post)), (abs_perm (pre ++ u :: post) (u :: pre ++ post))
    by (done || (symmetry; apply Permutation_middle)).
  unfold abs. rewrite !fmap_cons. cbn [list_to_map foldr uncurry fst snd]. rewrite Hi.
  by rewrite insert_insert_eq, lookup_insert_eq.
Qed.

Lemma abs_absent us x : ident x ∉ (ident <$> us) -> abs us !! ident x = None.
Proof. intros H. apply not_elem_of_list_to_map_1. by rewrite <- list_fmap_compose. Qed.

(** Merging in place at a position whose unit has the report's identity. *)
Lemma merge_at us i sum x : NoDup (ident <$> us) -> us !! i = Some sum -> ident x = ident sum ->
  NoDup (ident <$> <[i := StatReport_merge sum x]> us) /\
  abs (<[i := StatReport_merge sum x]> us) = spec_merge (abs us) x.
Proof.
  intros Hnd Hi Hx. pose proof (merge_ident sum x Hx) as Hm. pose proof (take_drop_middle us i sum Hi) as Hus.
  rewrite insert_take_drop by (by eapply lookup_lt_Some). rewrite <- Hus in Hnd.
  destruct (abs_replace _ _ (StatReport_merge sum x) _ Hnd Hm) as [E1 E2].
  rewrite Hus in E1, E2. split; [rewrite fmap_app, fmap_cons in *; by rewrite Hm|].
  rewrite E1. unfold spec_merge. by rewrite Hx, E2.
Qed.

Lemma scan_refines us idx key x : NoDup (ident <$> us) ->
  NoDup (ident <$> units (merge_unit_scan us idx key x)) /\
  abs (units (merge_unit_scan us idx key x)) = spec_merge (abs us) x.
Proof.
  intros Hnd. unfold merge_unit_scan, find_unit. destruct (list_find _ us) as [[i sum]|] eqn:E; cbn [units].
  - apply list_find_Some in E as (Hi & Hc & _). apply merge_at; [done..|]. apply can_merge_ident. by apply Is_true_true.
  - apply list_find_None in E. assert (ident x ∉ (ident <$> us)) as Hn.
    { intros Hin. apply list_elem_of_fmap in Hin as (u & Hu & Hin). rewrite Forall_forall in E.
      apply (E u Hin). apply Is_true_true. by apply can_merge_ident. }
    split.
    + rewrite fmap_app. apply NoDup_app. split; [done|]. split; [|apply NoDup_singleton].
      intros y Hy ->%list_elem_of_singleton. done.
    + unfold spec_merge. rewrite abs_absent by done.
      rewrite (abs_perm (us ++ [x]) (x :: us)); [done| |symmetry; apply Permutation_cons_append].
      rewrite fmap_app. apply NoDup_app. split; [done|]. split; [|apply NoDup_singleton].
      intros y Hy ->%list_elem_of_singleton. done.
Qed.

Lemma merge_unit_refines s x : NoDup (ident <$> units s) ->
  NoDup (ident <$> units (merge_unit s x)) /\ abs (units (merge_unit s x)) = spec_merge (abs (units s)) x.
Proof.
  intros Hnd. unfold merge_unit. destruct (index s !! merge_key x) as [i|]; [|by apply scan_refines].
  destruct (units s !! i) as [sum|] eqn:Hi; [|by apply scan_refines].
  destruct (report_can_merge x sum) eqn:Hc; [|by apply scan_refines].
  apply merge_at; [done..|]. by apply can_merge_ident.
Qed.

Lemma merge_fold_refines s l : NoDup (ident <$> units s) ->
  NoDup (ident <$> units (foldl merge_unit s l)) /\
  abs (units (foldl merge_unit s l)) = foldl spec_merge (abs (units s)) l.
Proof.
  revert s. induction l as [|x l IH]; intros s Hnd; [done|]. cbn [foldl].
  destruct (merge_unit_refines s x Hnd) as [Hnd' E]. destruct (IH _ Hnd') as [H1 H2].
  split; [done|]. by rewrite H2, E.
Qed.

(** The monitor's report set refines a map from report identities (stage,
    name and target): whatever its position index holds, merging a report, or a
    whole set, merges it into the one report of its identity, or adds it; no
    identity is ever held twice. *)
Theorem metric_set_refines_map (s : MetricSet) (Hnd : NoDup (ident <$> units s)) :
  (forall idx x, NoDup (ident <$> units (merge_unit (mkSet (units s) idx) x)) /\
     abs (units (merge_unit (mkSet (units s) idx) x)) = spec_merge (abs (units s)) x) /\
  (forall other, NoDup (ident <$> units (set_merge s other)) /\
     abs (units (set_merge s other)) = foldl spec_merge (abs (units s)) (units other)) /\
  (forall sl, let m := sum_up (mkMetrics sl s) in
     units (slice m) = [] /\ abs (units (total_set m)) = foldl spec_merge (abs (units s)) (units sl)).
Proof.
  split; [intros idx x; by apply (merge_unit_refines (mkSet (units s) idx) x)|].
  split; [intros other; by apply merge_fold_refines|].
  intros sl. split; [done|]. by apply merge_fold_refines.
Qed.

End SetLaws.

(** ** Dropped records per sink *)
Section ErrorLaws.
Import ErrorStats.

(** The operations any thread makes on the registry, one at a time under its
    lock. *)
Inductive ErrOp :=
  | Failure (now : Z) (sink : string) (count : Z) (error : string)
  | Drop (sink : string) (count : Z)
  | Take.

Definition err_step (st : Registry * list SinkErrorSnapshot) (o : ErrOp) : Registry * list SinkErrorSnapshot :=
  match o with
  | Failure now sink count error => ((record_failure now sink count error st.1).2, st.2)
  | Drop sink count => ((record_drop sink count st.1).2, st.2)
  | Take => let '(out, m) := take_window st.1 in (m, st.2 ++ out)
  end.

Definition op_count (sink : string) (o : ErrOp) : Z :=
  match o with
  | Failure _ s c _ | Drop s c => if decide (s = sink) then c else 0
  | Take => 0
  end.

Definition windows (sink : string) (l : list SinkErrorSnapshot) : Z :=
  sum_by (fun x => if decide (es_sink x = sink) then es_window x else 0) l.

Definition entry (m : Registry) (sink : string) : SinkErrorEntry := default entry_default (m !! sink).

Lemma sum_by_perm {A} (f : A -> Z) l k : l ≡ₚ k -> sum_by f l = sum_by f k.
Proof. induction 1; cbn [sum_by]; lia. Qed.

Lemma windows_of_entries sink (l : list (string * SinkErrorEntry)) : NoDup (fst <$> l) ->
  windows sink ((fun p => snapshot p.1 p.2) <$> filter (fun p => dropped_window p.2 <> 0) l) =
  default 0 (dropped_window <$> (list_to_map l : gmap string SinkErrorEntry) !! sink).
Proof.
  unfold windows. induction l as [|[k e] l IH]; cbn [fmap list_fmap fst]; [done|].
  intros [Hk Hl]%NoDup_cons. specialize (IH Hl). rewrite filter_cons. cbn [list_to_map foldr uncurry fst snd].
  destruct (decide (k = sink)) as [->|Hne].
  - change (foldr (fun p => <[p.1 := p.2]>) ∅ l) with (list_to_map l : gmap string SinkErrorEntry).
    rewrite (not_elem_of_list_to_map_1 l sink) in IH by done. rewrite lookup_insert_eq. cbn [fmap option_fmap option_map default from_option].
    case_decide as Hw; cbn [fmap list_fmap sum_by es_sink es_window snapshot];
      rewrite ?decide_True by done; cbn in IH; cbn [fst snd] in *; unfold Datatypes.id in *; lia.
  - change (foldr (fun p => <[p.1 := p.2]>) ∅ l) with (list_to_map l : gmap string SinkErrorEntry).
    rewrite lookup_insert_ne by done. rewrite <- IH.
    case_decide as Hw; cbn [fmap list_fmap sum_by es_sink es_window snapshot]; rewrite ?decide_False by done; lia.
Qed.

Lemma take_windows m sink : windows sink (take_window m).1 = dropped_window (entry m sink).
Proof.
  unfold take_window, sorted_entries. cbn [fst].
  assert (merge_sort key_le (map_to_list m) ≡ₚ map_to_list m) as Hp by apply merge_sort_Permutation.
  rewrite windows_of_entries.
  - rewrite (list_to_map_proper (merge_sort key_le (map_to_list m)) (map_to_list m)), list_to_map_to_list;
      [|rewrite Hp; apply NoDup_fst_map_to_list|exact Hp].
    unfold entry. by destruct (m !! sink).
  - rewrite Hp. apply NoDup_fst_map_to_list.
Qed.

Lemma take_entry m sink : dropped_total (entry (take_window m).2 sink) = dropped_total (entry m sink) /\
  dropped_window (entry (take_window m).2 sink) = 0.
Proof.
  unfold take_window, entry. cbn [snd]. rewrite lookup_fmap. destruct (m !! sink) as [e|]; cbn; [|done].
  by case_decide.
Qed.

(** What the registry and the windows taken hold after the operations. *)
Definition accounted (ops : list ErrOp) (st : Registry * list SinkErrorSnapshot) : Prop :=
  forall sink, let n := sum_by (op_count sink) ops in
    dropped_total (entry st.1 sink) = n /\ dropped_window (entry st.1 sink) + windows sink st.2 = n /\
    0 <= dropped_window (entry st.1 sink) /\ 0 <= windows sink st.2.

Lemma entry_insert (m : Registry) s e : entry (<[s := e]> m) s = e.
Proof. unfold entry. by rewrite lookup_insert_eq. Qed.

Lemma entry_insert_ne (m : Registry) s e sink : s <> sink -> entry (<[s := e]> m) sink = entry m sink.
Proof. intros H. unfold entry. by rewrite lookup_insert_ne. Qed.

Lemma bump_entry (m : Registry) s c at_ er sink : 0 <= dropped_window (entry m s) ->
  dropped_window (entry m s) + c <= USIZE_MAX -> dropped_total (entry m s) + c <= USIZE_MAX ->
  let m' := <[s := mkEntry (dropped_total (entry m s) ⊕ c) (dropped_window (entry m s) ⊕ c) at_ er]> m in
  dropped_total (entry m' sink) = dropped_total (entry m sink) + (if decide (s = sink) then c else 0) /\
  dropped_window (entry m' sink) = dropped_window (entry m sink) + (if decide (s = sink) then c else 0).
Proof.
  intros H0 H1 H2. cbn zeta. destruct (decide (s = sink)) as [->|Hne].
  - rewrite entry_insert. cbn [dropped_total dropped_window]. by rewrite !sat_add_exact.
  - rewrite entry_insert_ne by done. lia.
Qed.

Definition op_ok (o : ErrOp) : Prop := match o with Failure _ _ c _ | Drop _ c => 0 <= c | Take => True end.

Lemma err_step_accounted ops o st : accounted ops st -> op_ok o ->
  (forall sink, sum_by (op_count sink) (ops ++ [o]) <= USIZE_MAX) -> accounted (ops ++ [o]) (err_step st o).
Proof.
  intros Ha Ho Hfit sink. cbn zeta. rewrite sum_by_app. cbn [sum_by]. destruct (Ha sink) as (A1 & A2 & A3 & A4).
  assert (forall s c, op_count s o = c -> dropped_total (entry st.1 s) + c <= USIZE_MAX /\
    dropped_window (entry st.1 s) + c <= USIZE_MAX /\ 0 <= dropped_window (entry st.1 s)) as Hroom.
  { intros s c <-. specialize (Hfit s). rewrite sum_by_app in Hfit. cbn [sum_by] in Hfit.
    destruct (Ha s) as (B1 & B2 & B3 & B4). lia. }
  destruct o as [now s c er|s c|]; cbn [err_step op_count op_ok] in *.
  - destruct (Hroom s c ltac:(by rewrite decide_True)) as (R1 & R2 & R3).
    destruct (bump_entry st.1 s c (Some now) (Some (sanitize_error_text er)) sink R3 R2 R1) as [E1 E2].
    unfold record_failure. cbn [fst snd]. fold (entry st.1 s). rewrite E1, E2. case_decide; lia.
  - destruct (Hroom s c ltac:(by rewrite decide_True)) as (R1 & R2 & R3).
    destruct (bump_entry st.1 s c (last_error_at (entry st.1 s)) (last_error (entry st.1 s)) sink R3 R2 R1) as [E1 E2].
    unfold record_drop. cbn [fst snd]. fold (entry st.1 s). rewrite E1, E2. case_decide; lia.
  - pose proof (take_windows st.1 sink) as Hw. destruct (take_entry st.1 sink) as [T1 T2].
    destruct (take_window st.1) as [out m']. cbn [fst snd] in *. unfold windows in *. rewrite sum_by_app, T1, T2, Hw. lia.
Qed.

(** Whatever the order in which sinks record failures and drops and the
    monitor takes windows, no drop is lost and none is reported twice: for every
    sink the windows taken and the window still open add up to the drops
    recorded, and the running total is their number. *)
Theorem drops_accounted (ops : list ErrOp) (Hok : Forall op_ok ops)
  (Hfit : forall sink, sum_by (op_count sink) ops <= USIZE_MAX) :
  accounted ops (foldl err_step (∅, []) ops).
Proof.
  induction ops as [|o ops IH] using rev_ind.
  - intros sink. cbn. unfold entry. rewrite lookup_empty. cbn. done.
  - apply Forall_app in Hok as [Hok Ho]. rewrite Forall_singleton in Ho. rewrite foldl_snoc.
    apply err_step_accounted; [|done|done]. apply IH; [done|]. intros sink. specialize (Hfit sink).
    rewrite sum_by_app in Hfit. cbn [sum_by] in Hfit. destruct o; cbn in *; try case_decide; lia.
Qed.

Lemma drops_accounted_witness :
  let ops := [Failure 5 "a" 3 "refused"; Take; Drop "a" 2; Drop "b" 1] in
  Forall op_ok ops /\ accounted ops (foldl err_step (∅, []) ops).
Proof.
  cbn zeta. assert (Forall op_ok [Failure 5 "a" 3 "refused"; Take; Drop "a" 2; Drop "b" 1]) as H.
  { repeat constructor; cbn; lia. }
  split; [exact H|]. apply drops_accounted; [exact H|].
  intros sink. unfold USIZE_MAX. cbn. repeat case_decide; lia.
Defined.
End ErrorLaws.

(** ** The text of an error *)
Section ErrorText.
Import ErrorStats.

(** A list of whole characters, as [str::chars] gives it. *)
Definition char_list (ws : list (list ascii)) : Prop := Forall word ws /\ Forall boundary (tail ws).

Lemma char_list_run a ws b : char_list (a ++ ws ++ b) -> char_list ws.
Proof.
  intros [Hw Hb]. apply Forall_app in Hw as [_ [Hw _]%Forall_app]. split; [done|].
  destruct ws as [|w ws]; [constructor|]. destruct a as [|x a]; cbn in Hb.
  - by apply Forall_app in Hb as [? _].
  - by apply Forall_app in Hb as [_ [_ [? _]%Forall_app]%Forall_cons].
Qed.

Lemma of_char_list ws : char_list ws -> chars (of_chars (string_of_list_ascii <$> ws)) = string_of_list_ascii <$> ws.
Proof.
  intros [Hw Hb]. unfold chars. rewrite of_chars_concat, list_ascii_of_string_of_list_ascii. by rewrite split_concat.
Qed.

(** The characters kept: few, none a control character, still whole. *)
Lemma keep_chars_spec room (ws : list (list ascii)) : char_list ws ->
  exists ks, (keep_chars room (string_of_list_ascii <$> ws)).1 = string_of_list_ascii <$> ks /\ (length ks <= room)%nat /\
    Forall (fun k => is_control (string_of_list_ascii k) = false) ks /\ char_list ks.
Proof.
  revert ws. induction room as [|room IH]; intros [|w ws] Hc; try (exists []; split; [done|]; split; [cbn; lia|]; split; [constructor|by split]).
  assert (char_list ws) as Hws by (apply (char_list_run [w] ws []); by rewrite app_nil_r).
  destruct (IH ws Hws) as (ks & E & Hl & Hk & Kw & Kb). rewrite fmap_cons. cbn [keep_chars].
  destruct (keep_chars room (string_of_list_ascii <$> ws)) as [out t] eqn:Eo. cbn [fst] in *. subst out.
  assert (Forall boundary ks) as Hbk.
  { destruct ks as [|k ks]; [constructor|]. constructor; [|exact Kb]. destruct Hc as [_ Hb]. cbn [tail] in Hb.
    destruct ws as [|v ws]; [by destruct room|]. destruct room as [|room]; [done|]. apply Forall_cons in Hb as [Hv _].
    rewrite fmap_cons in Eo. cbn [keep_chars] in Eo. destruct (keep_chars room _) as [o t'].
    injection Eo as Eo _ _. apply (f_equal list_ascii_of_string) in Eo.
    destruct (is_control _); rewrite ?list_ascii_of_string_of_list_ascii in Eo; subst k; [done|exact Hv]. }
  destruct Hc as [Hw _]. apply Forall_cons in Hw as [Hw _].
  destruct (is_control (string_of_list_ascii w)) eqn:Ew.
  - exists (list_ascii_of_string " " :: ks). split; [done|]; split; [cbn; lia|]; split; [by constructor|split; [by repeat constructor|done]].
  - exists (w :: ks). split; [done|]; split; [cbn; lia|]; split; [by constructor|split; [by constructor|done]].
Qed.

(** An error reported for a sink is never empty, holds no control character,
    hence fits one line, and has at most 203 characters, whatever the error
    said. *)
Theorem error_text_bounded (raw : string) :
  sanitize_error_text raw <> "" /\
  (length (chars (sanitize_error_text raw)) <= MAX_ERROR_CHARS + 3)%nat /\
  Forall (fun c => is_control c = false) (chars (sanitize_error_text raw)).
Proof.
  unfold sanitize_error_text. destruct (keep_chars_spec MAX_ERROR_CHARS (split_chars (list_ascii_of_string raw)))
    as (ks & E & Hl & Hk & Hc); [apply split_words|]. fold (chars raw) in E.
  destruct (keep_chars MAX_ERROR_CHARS (chars raw)) as [out t]. cbn [fst] in E. subst out.
  destruct (str_trim_run (of_chars (string_of_list_ascii <$> ks))) as (a & ws & b & Er & Et). rewrite (of_char_list ks Hc) in Er.
  apply fmap_app_inv in Er as (ka & kb & -> & Er & ->). symmetry in Er. apply fmap_app_inv in Er as (kw & kc & -> & -> & ->).
  apply char_list_run in Hc. apply Forall_app in Hk as [_ [Hk _]%Forall_app]. rewrite !length_app in Hl.
  set (trimmed := str_trim _) in *. assert (chars trimmed = string_of_list_ascii <$> kw) as Hch by (rewrite Et; by apply of_char_list).
  assert (Forall (fun c => is_control c = false) (chars trimmed)) as Hf by (rewrite Hch; by apply Forall_fmap).
  assert (length (chars trimmed) <= MAX_ERROR_CHARS)%nat as Hlen by (rewrite Hch, length_fmap; lia).
  case_decide as Hd; [|destruct t].
  - split; [done|]. split; [vm_compute; lia|]. by repeat constructor.
  - rewrite chars_app, length_app by done. split; [by destruct trimmed|]. split; [change (length (chars "...")) with 3%nat; lia|].
    apply Forall_app. split; [done|]. by repeat constructor.
  - split; [done|]. split; [lia|done].
Qed.
End ErrorText.

(** ** Witnesses *)

Definition demo_field (rec : list (string * string)) (key : string) : option string :=
  snd <$> (snd <$> list_find (fun p => p.1 = key) rec).
Definition sink_req : StatReq := mkReq Sink "out" All ["wp_sink_group"; "wp_sink_name"] 10.
Definition demo_group : MetricCollectors (L:=list_lru) := MetricCollectors_new (L:=list_lru) "g/s" [demo_req; sink_req].

Lemma demo_group_wf : mc_wf demo_group.
Proof. apply mc_new_wf. Qed.

Lemma collector_group_counts_once_witness :
  mc_wf demo_group /\
  counts (fun _ => demo_clock) (task_call demo_field demo_group "g/s" None) demo_group
    (mc_record_task demo_field (fun _ => demo_clock) demo_group "g/s" None).
Proof.
  split; [apply demo_group_wf|].
  apply (collector_group_counts_once (L:=list_lru) demo_field). apply demo_group_wf.
Defined.

Lemma begin_end_without_record_witness :
  StatDim_display (call_dim All (Begin "g/s" (extract_metric_dimensions_from_target_only (req_collect sink_req)))) <>
  StatDim_display (call_dim All (EndUnit "g/s")).
Proof.
  apply (begin_end_without_record (L:=list_lru) demo_field (fun _ => demo_clock) demo_group "g/s" 1
    (StatCollector_new (L:=list_lru) "g/s" sink_req)); [apply demo_group_wf|reflexivity|apply le_n|discriminate|reflexivity].
Defined.

Lemma metric_set_refines_map_witness :
  abs (Sets.units (Sets.merge_unit (C:=merge_coll) (Sets.mkSet [StatReport_from demo_req] {[ "stale" := 7%nat ]})
        (mkReport demo_req (Some "t") [demo_record "x" 2 1]))) =
  spec_merge (C:=merge_coll) (abs [StatReport_from demo_req]) (mkReport demo_req (Some "t") [demo_record "x" 2 1]).
Proof.
  apply (metric_set_refines_map (C:=merge_coll) (Sets.mkSet [StatReport_from demo_req] ∅)). apply NoDup_singleton.
Defined.
