(* ===== verification/WplEngine.v ===== *)
(** The parse engine of a worker ([src/core/parser/wpl_engine/]): the pipelines
    of the rules ([pipeline.rs]), matching an event against them ([parser.rs]),
    parsing a batch into groups of records ([processor.rs]) and sending these
    to the sinks ([sender.rs], [src/core/sinks/sync_sink/]).

    The rule interpreter is the [wpl] crate, outside the repository: the class
    [WplApi].  An evaluator is read only, so the clones of a pipeline behave
    alike.  The ends of the sinks and the round-robin counters are shared by all
    clones: they are one state [Net], addressed by numbers. *)
From Stdlib Require Import ZArith Lia String Ascii.
From stdpp Require Import prelude strings gmap pretty.
From S2P Require Import Prelude F64 Text Utf8 DataModel ErrPolicy Picker SinkRuntime Tags Stats Metrics Dispatcher.
Import Metrics.Counters.
Local Open Scope string_scope.
Local Open Scope list_scope.
Local Open Scope Z_scope.
Local Open Scope wp_scope.

(** ** The crates the engine is built on *)

(** The tags of a source event; [tags_snapshot] is their serialized form read
    back. *)
Class TagsApi (T : Type) := {
  tags_is_empty : T -> bool;
  tags_iter : T -> list (string * string);
  tags_snapshot : T -> option (list (string * string));
}.

(** What the engine does to a record beyond [DataApi]. *)
Class RecordApi (F R : Type) := {
  record_from : list F -> R;
  record_default : R;
  set_id : R -> N -> R;
  from_ip : string -> ip_addr -> F;
  field_text : R -> string -> option string;
}.

Class RecordLaws `{DataApi F R} `{!RecordApi F R} := {
  record_from_items l : items (record_from l) = l;
  record_default_items : items record_default = [];
  from_ip_name k a : get_name (from_ip k a) = k;
  set_id_field r n : field (set_id r n) "wp_event_id" <> None;
  set_id_others r n k : k <> "wp_event_id" -> field (set_id r n) k = field r k;
}.

(** [RawData] *)
Definition raw_len (d : RawData) : Z :=
  match d with RawString s => Z.of_nat (String.length s) | RawBytes b | RawArcBytes b => zlen b end.
Definition raw_is_empty (d : RawData) : bool := raw_len d =? 0.

Section Event.
Context {T Hk : Type}.

Record SourceEvent := mkSourceEvent {
  event_id : N;
  src_key : string;
  ev_payload : RawData;
  ev_tags : T;
  ev_ups_ip : option ip_addr;
  preproc : option Hk;
}.
End Event.
Arguments SourceEvent : clear implicits.

(** The event as annotations see it. *)
Record CompatEvent := mkCompat {
  c_event_id : N; c_src_key : string; c_payload : RawData; c_tags : list (string * string); c_ups_ip : option ip_addr
}.

Definition to_wp_source_types_event `{TagsApi T} {Hk} (data : SourceEvent T Hk) : CompatEvent :=
  mkCompat (event_id data) (src_key data) (ev_payload data) (tags_iter (ev_tags data)) (ev_ups_ip data).

(** [proc_ref_progress evaluator id payload depth]: the record and the text
    left over or an error, and how far the rule got.  [is_deeper_than] compares
    what was consumed by its share of the rule's own input. *)
Class WplApi (Ev An E Pg R : Type) := {
  proc_ref_progress : Ev -> N -> RawData -> Z -> (R * string + E) * Pg;
  consumed : Pg -> Z;
  progress_default : Pg;
  is_deeper_than : Pg -> Pg -> bool;
  ann_proc : An -> CompatEvent -> R -> (list (string * R) + E) * R;
  reason : E -> WparseReason;
  to_err : WparseReason -> E;
  err_text : E -> string;
}.

(** ** The ends of the sinks *)

Inductive SinkEndpoint := EpStore (n : nat) | EpNull.
Inductive SinkTerminal := Channel (n : nat) | BlackHole | Debug (n : nat) | Storage (e : SinkEndpoint).

Section Ends.
Context {R : Type}.

Inductive SinkData := DRaw (s : string) | DRec (m : ProcMeta) (r : R) | DFfv.
Inductive TrySendStatus := Sended | Fulfilled (i : N) (d : SinkData) | SendErr (e : SinkReason).

(** What the terminals lead to: bounded channels, the debug view and the
    endpoints of files, buffers and views.  [chan_send] is a [send] awaited,
    which fails on a closed channel only; a refused [try_send] gives the value
    back.  [idle] is what the other tasks do while this one sleeps.  [sent w n]
    are the units this worker has put into channel [n]. *)
Class Ends (W : Type) := {
  chan_try_send : nat -> list (SinkRecUnit (R := R)) -> W -> Collectors.TrySend * W;
  chan_send : nat -> list (SinkRecUnit (R := R)) -> W -> bool * W;
  debug_send : nat -> SinkRecUnit (R := R) -> W -> Collectors.TrySend * W;
  store_try_send : nat -> SinkRecUnit (R := R) -> W -> TrySendStatus * W;
  idle : W -> W;
  sent : W -> nat -> list (SinkRecUnit (R := R));
}.

Class EndsLaws `{Ends W} := {
  try_send_sent n us w :
    match chan_try_send n us w with
    | (Collectors.Sent, w') => forall k, sent w' k = sent w k ++ (if bool_decide (k = n) then us else [])
    | (_, w') => forall k, sent w' k = sent w k
    end;
  chan_send_sent n us w :
    match chan_send n us w with
    | (true, w') => forall k, sent w' k = sent w k ++ (if bool_decide (k = n) then us else [])
    | (false, w') => forall k, sent w' k = sent w k
    end;
  debug_sent n u w k : sent (debug_send n u w).2 k = sent w k;
  store_sent n u w k : sent (store_try_send n u w).2 k = sent w k;
  idle_sent w k : sent (idle w) k = sent w k;
}.

(** What the workers share: the ends, the round-robin counters of the
    pipelines, the runtime counters and the lines the debug views dropped. *)
Record Net (W : Type) := mkNet {
  world : W;
  rr : nat -> Z;
  counters : Counters;
  debug_dropped : nat -> Z;
}.

End Ends.
Arguments mkNet {W}. Arguments world {W}. Arguments rr {W}. Arguments counters {W}. Arguments debug_dropped {W}.

Section Terminal.
Context `{DataApi F R} `{!RecordApi F R} `{!Ends (R := R) W}.

Notation Net := (Net W).
Notation Unit := (SinkRecUnit (R := R)).
Notation Status := (TrySendStatus (R := R)).

Definition set_world (s : Net) (w : W) : Net := mkNet w (rr s) (counters s) (debug_dropped s).
Definition count (c : Counter) (s : Net) : Net :=
  mkNet (world s) (rr s) (rec_counter c (counters s)) (debug_dropped s).

Definition upd (f : nat -> Z) (n : nat) (v : Z) : nat -> Z := fun k => if (k =? n)%nat then v else f k.

(** [impl RecSyncSink for SinkDatYSender] *)
Definition sender_try_send (n : nat) (u : Unit) (s : Net) : Status * Net :=
  match chan_try_send n [u] (world s) with
  | (Collectors.Sent, w) => (Sended, set_world s w)
  | (Collectors.Full, w) => (Fulfilled (id u) (DRec (meta u) (data u)), count SinkChannelFull (set_world s w))
  | (Collectors.Closed, w) => (SendErr SinkFailed, count SinkChannelClosed (set_world s w))
  end.

Definition sender_send (n : nat) (u : Unit) (s : Net) : option SinkReason * Net :=
  match sender_try_send n u s with
  | (Sended, s) => (None, s)
  | (Fulfilled _ _, s) | (SendErr _, s) => (Some SinkStgCtrl, s)
  end.

Definition sender_send_batch (n : nat) (us : list Unit) (s : Net) : option SinkReason * Net :=
  match chan_try_send n us (world s) with
  | (Collectors.Sent, w) => (None, set_world s w)
  | (Collectors.Full, w) => (Some SinkFailed, count SinkChannelFull (set_world s w))
  | (Collectors.Closed, w) => (Some SinkFailed, count SinkChannelClosed (set_world s w))
  end.

Definition sender_try_send_batch (n : nat) (us : list Unit) (s : Net) : list Status * Net :=
  match chan_try_send n us (world s) with
  | (Collectors.Sent, w) => (map (fun _ => Sended) us, set_world s w)
  | (Collectors.Full, w) =>
      (map (fun u => Fulfilled (id u) (DRec (meta u) (data u))) us, count SinkChannelFull (set_world s w))
  | (Collectors.Closed, w) => (map (fun _ => SendErr SinkFailed) us, count SinkChannelClosed (set_world s w))
  end.

(** [DebugView::send]; the text of the line is not looked at. *)
Definition debug_view_send (n : nat) (u : Unit) (s : Net) : Net :=
  match debug_send n u (world s) with
  | (Collectors.Sent, w) => set_world s w
  | (_, w) => mkNet w (rr s) (counters s) (upd (debug_dropped s) n (wrap_add 64 (debug_dropped s n) 1))
  end.

(** [impl RecSyncSink for SinkTerminal] *)
Definition try_send_to_sink (t : SinkTerminal) (u : Unit) (s : Net) : Status * Net :=
  match t with
  | Channel n => sender_try_send n u s
  | BlackHole => (Sended, s)
  | Debug n => (Sended, debug_view_send n u s)
  | Storage (EpStore n) => let '(r, w) := store_try_send n u (world s) in (r, set_world s w)
  | Storage EpNull => (Sended, s)
  end.

Definition try_send_record (t : SinkTerminal) (i : N) (m : ProcMeta) (r : R) (s : Net) : Status * Net :=
  try_send_to_sink t (mkUnit i m r) s.

(** A text as a record of its own. *)
Definition raw_unit (i : N) (raw : string) : Unit :=
  mkUnit i (WplName "raw") (append record_default (from_chars "raw" raw)).

Definition try_send_raw (t : SinkTerminal) (i : N) (raw : string) (s : Net) : Status * Net :=
  match t with
  | BlackHole => (Sended, s)
  | Debug _ => (Sended, s)
  | _ => try_send_to_sink t (raw_unit i raw) s
  end.

End Terminal.

(** ** Pipelines and the match of one event ([pipeline.rs], [parser.rs]) *)

Record SinkGroupAgent := mkAgent { agent_name : string; end_point : SinkTerminal }.

Record ParseOption := mkOption {
  gen_msg_id : bool;
  gen_event_md5 : bool;
  global_tags : option GlobalTags;
}.

Definition ParseOption_new (id md5 : bool) : ParseOption := mkOption id md5 None.
Definition with_global_tags (o : ParseOption) (t : GlobalTags) : ParseOption :=
  mkOption (gen_msg_id o) (gen_event_md5 o) (Some t).

(** [sort_by_key], a stable sort: an element goes before the first one with a
    larger key. *)
Section Sort.
Context {A : Type} (key_ltb : A -> A -> bool).
Fixpoint insert_sorted (x : A) (l : list A) : list A :=
  match l with
  | [] => [x]
  | y :: r => if key_ltb x y then x :: l else y :: insert_sorted x r
  end.
Definition stable_sort (l : list A) : list A := foldl (fun acc x => insert_sorted x acc) [] l.
End Sort.

(** A loop over a list that may panic. *)
Fixpoint omap_list {A B} (f : A -> outcome B) (l : list A) : outcome (list B) :=
  match l with
  | [] => Ret []
  | x :: l => let! y := f x in let! r := omap_list f l in Ret (y :: r)
  end.

Section Engine.
Context {Ev An E Pg T Hk W : Type} `{DataApi F R} `{!RecordApi F R} `{!TagsApi T} `{!WplApi Ev An E Pg R}.
Context `{!Ends (R := R) W} {L : Coll.LruApi Dim.StatDim Slice.SliceRecord} {C : Coll.CollApi}.
(** [format!("{:x}", md5::compute(bytes))] *)
Variable md5_hex : RawData -> string.

Notation SourceEvent := (SourceEvent T Hk).
Notation Net := (Net W).
Notation Unit := (SinkRecUnit (R := R)).
Notation Clock := Measure.Clock.
Notation StatReport := Report.StatReport.
Notation Coll := Collectors.MetricCollectors.

Record WplPipeline := mkPipeline {
  parser : Ev;
  fun_vec : list An;
  hit_cnt : Z;
  p_index : Z;
  output : list SinkGroupAgent;
  send_rr : nat;
  wpl_key : string;
  package_name : string;
  rule_name : string;
  stat_need_pkg_rule : bool;
  stat_ext : Coll;
  auto_match : bool;
  late : bool;
}.

(** [rr_cell] is the counter the new [Arc] points to; [s_name] is [wpl_key]. *)
Definition WplPipeline_new (idx : Z) (key package rule : string) (funs : list An) (ev : Ev)
    (out : list SinkGroupAgent) (rr_cell : nat) (stat_reqs : list Request.StatReq) : WplPipeline :=
  mkPipeline ev funs 0 idx out rr_cell key package rule
    (existsb (fun r => existsb (fun f => bool_decide (f = "wp_package_name") || bool_decide (f = "wp_rule_name"))
                         (Request.req_collect r)) stat_reqs)
    (Collectors.MetricCollectors_new key stat_reqs) true false.

Definition set_hit (p : WplPipeline) (n : Z) : WplPipeline :=
  mkPipeline (parser p) (fun_vec p) n (p_index p) (output p) (send_rr p) (wpl_key p) (package_name p) (rule_name p)
    (stat_need_pkg_rule p) (stat_ext p) (auto_match p) (late p).
Definition set_stat (p : WplPipeline) (s : Coll) : WplPipeline :=
  mkPipeline (parser p) (fun_vec p) (hit_cnt p) (p_index p) (output p) (send_rr p) (wpl_key p) (package_name p)
    (rule_name p) (stat_need_pkg_rule p) s (auto_match p) (late p).
Definition set_flags (p : WplPipeline) (am lt : bool) : WplPipeline :=
  mkPipeline (parser p) (fun_vec p) (hit_cnt p) (p_index p) (output p) (send_rr p) (wpl_key p) (package_name p)
    (rule_name p) (stat_need_pkg_rule p) (stat_ext p) am lt.

(** The order of two keys [(late, Reverse(hit_cnt), index)] and [(late, index)]. *)
Definition late_rank (p : WplPipeline) : Z := if late p then 1 else 0.
Definition initial_order_ltb (a b : WplPipeline) : bool :=
  (late_rank a <? late_rank b) || ((late_rank a =? late_rank b) && (p_index a <? p_index b)).
Definition match_order_ltb (a b : WplPipeline) : bool :=
  (late_rank a <? late_rank b) || ((late_rank a =? late_rank b) &&
    ((hit_cnt b <? hit_cnt a) || ((hit_cnt a =? hit_cnt b) && (p_index a <? p_index b)))).

(** [send_rr.fetch_add(1) % output.len()] *)
Definition next_output_index (p : WplPipeline) (s : Net) : outcome (nat * Net) :=
  let cur := rr s (send_rr p) in
  let s := mkNet (world s) (upd (rr s) (send_rr p) (wrap_add 64 cur 1)) (counters s) (debug_dropped s) in
  if zlen (output p) =? 0 then Panic else Ret (Z.to_nat (cur mod zlen (output p)), s).

Definition get_rolled_end (p : WplPipeline) (s : Net) : outcome (SinkTerminal * Net) :=
  let! (idx, s) := next_output_index p s in
  match output p !! idx with
  | Some a => Ret (end_point a, s)
  | None => Panic
  end.

(** The annotations one after the other; the first error ends them. *)
Fixpoint run_annotations (funs : list An) (ev : CompatEvent) (record : R) (sides : list (string * R))
    : (R * list (string * R)) + E :=
  match funs with
  | [] => inl (record, sides)
  | fn :: funs =>
      match ann_proc fn ev record with
      | (inl new, record) => run_annotations funs ev record (sides ++ new)
      | (inr e, _) => inr e
      end
  end.

Definition pkg_rule_record (p : WplPipeline) : R :=
  record_from [from_chars "wp_package_name" (package_name p); from_chars "wp_rule_name" (rule_name p)].

(** What the end of the statistics is recorded on. *)
Definition stat_end_record (p : WplPipeline) (record : R) : R :=
  let r := record in
  let r := match field r "wp_package_name" with
           | None => append r (from_chars "wp_package_name" (package_name p)) | Some _ => r end in
  match field r "wp_rule_name" with
  | None => append r (from_chars "wp_rule_name" (rule_name p)) | Some _ => r
  end.

(** [clk 0] and [clk 1] are the clocks of the begin and the end. *)
Definition finish_success (clk : nat -> nat -> Clock) (p : WplPipeline) (record : R) (rest : string)
    (data : SourceEvent) : outcome (((R * RawData * list (string * R)) + E) * WplPipeline) :=
  let! st := Collectors.mc_record_begin field_text (clk 0%nat) (stat_ext p) (wpl_key p)
    (if stat_need_pkg_rule p then Some (pkg_rule_record p) else None) in
  let p := set_stat p st in
  match run_annotations (fun_vec p) (to_wp_source_types_event data) record [] with
  | inr e => Ret (inr e, p)
  | inl (record, sides) =>
      let! st := Collectors.mc_record_end field_text (clk 1%nat) (stat_ext p) (wpl_key p)
        (Some (if stat_need_pkg_rule p then stat_end_record p record else record)) in
      Ret (inl (record, RawString rest, sides), set_stat p st)
  end.

Definition proc (clk : nat -> nat -> Clock) (p : WplPipeline) (data : SourceEvent)
    : outcome (((R * RawData * list (string * R)) + E) * Pg * WplPipeline) :=
  match proc_ref_progress (parser p) (event_id data) (ev_payload data) 0 with
  | (inl (record, rest), progress) =>
      let! (result, p) := finish_success clk p record rest data in Ret (result, progress, p)
  | (inr e, progress) => Ret (inr e, progress, p)
  end.

(** [stamp_event_meta]; stamping the instance-wide tags always ends. *)
Definition stamp_event_meta (record : R) (event : SourceEvent) (setting : ParseOption) : outcome R :=
  let record :=
    if gen_msg_id setting then
      let r := append (set_id record (event_id event)) (from_chars "wp_src_key" (src_key event)) in
      let r := match ev_ups_ip event with Some ip => append r (from_ip "wp_src_ip" ip) | None => r end in
      if gen_event_md5 setting then append r (from_chars "wp_event_md5" (md5_hex (ev_payload event))) else r
    else record in
  match global_tags setting with
  | None => Ret record
  | Some t => match apply_global_tags record t with Some r => Ret r | None => Panic end
  end.

Definition stamp_record_and_sides (record : R) (sides : list (string * R)) (event : SourceEvent)
    (setting : ParseOption) : outcome (R * list (string * R)) :=
  let! record := stamp_event_meta record event setting in
  let! sides := omap_list (fun ks => let! side := stamp_event_meta ks.2 event setting in Ret (ks.1, side)) sides in
  Ret (record, sides).

Record ParseFailInfo := mkFail { best_wpl : string; fail_error : E; depth : Z; timestamp : Z }.

Inductive ProcessResult :=
  | Success (key : string) (record : R) (sides : list (string * R))
  | Partial (key : string) (record : R) (residue : string) (sides : list (string * R))
  | Miss (info : ParseFailInfo).

(** The best failure so far. *)
Record Best := mkBest { best_idx : option nat; best_progress : Pg; best_error : option E }.

Definition is_candidate (b : Best) (progress : Pg) : bool :=
  match best_idx b with None => true | Some _ => is_deeper_than progress (best_progress b) end.

Definition data_error (e : E) : bool :=
  match reason e with ParseUvs DataError => true | _ => false end.

(** The display of what is left over. *)
Definition raw_text (d : RawData) : string := match d with RawString s => s | _ => "" end.

(** The loop of [parse_event]: its answer, or the best failure at its end. *)
Fixpoint parse_loop (clk : nat -> nat -> nat -> Clock) (event : SourceEvent) (setting : ParseOption)
    (rule_cnt : nat) (before todo : list WplPipeline) (b : Best)
    : outcome ((ProcessResult + Best) * list WplPipeline) :=
  match todo with
  | [] => Ret (inr b, before)
  | line :: todo =>
      let idx := length before in
      if negb (auto_match line) then parse_loop clk event setting rule_cnt (before ++ [line]) todo b else
      let is_last := (idx =? rule_cnt - 1)%nat in
      let! (parsed, progress, line) := proc (clk idx) line event in
      let cand := is_candidate b progress in
      match parsed with
      | inl (tdo, un_parsed, sides) =>
          let line := set_hit line (wrap_add 64 (hit_cnt line) 1) in
          if raw_is_empty un_parsed then
            let! (record, sides) := stamp_record_and_sides tdo sides event setting in
            Ret (inl (Success (wpl_key line) record sides), before ++ line :: todo)
          else if raw_len (ev_payload event) <? raw_len un_parsed * 5 then
            let b := if cand then mkBest (Some idx) progress (Some (to_err (ParseUvs DataError))) else b in
            parse_loop clk event setting rule_cnt (before ++ [line]) todo b
          else
            let! (record, sides) := stamp_record_and_sides tdo sides event setting in
            Ret (inl (Partial (wpl_key line) record (raw_text un_parsed) sides), before ++ line :: todo)
      | inr e =>
          if data_error e then
            let b := if cand then mkBest (Some idx) progress (Some e) else b in
            if is_last then Ret (inr b, before ++ line :: todo)
            else parse_loop clk event setting rule_cnt (before ++ [line]) todo b
          else
            match best_error b with
            | None => Ret (inr (mkBest (Some idx) progress (Some e)), before ++ line :: todo)
            | Some _ =>
                if is_last then Ret (inr b, before ++ line :: todo)
                else parse_loop clk event setting rule_cnt (before ++ [line]) todo b
            end
      end
  end.

Definition MultiParser : Type := list WplPipeline.

Definition MultiParser_new (pipelines : list WplPipeline) : MultiParser := stable_sort initial_order_ltb pipelines.

Definition no_best : Best := mkBest None progress_default None.

(** [now] stamps the failure. *)
Definition parse_event (clk : nat -> nat -> nat -> Clock) (now : Z) (event : SourceEvent) (setting : ParseOption)
    (m : MultiParser) : outcome (ProcessResult * MultiParser) :=
  let! (r, m) := parse_loop clk event setting (length m) [] m no_best in
  match r with
  | inl r => Ret (r, m)
  | inr b =>
      let! wpl := match best_idx b with
                  | None => Ret ""
                  | Some i => match m !! i with Some p => Ret (wpl_key p) | None => Panic end
                  end in
      Ret (Miss (mkFail wpl (default (to_err (ParseUvs SystemError)) (best_error b)) (consumed (best_progress b)) now), m)
  end.

Definition optimized (m : MultiParser) : MultiParser :=
  match m with
  | [] => m
  | _ => map (fun p => set_hit p 0) (stable_sort match_order_ltb m)
  end.

(** [send_stat] of a pipeline: the reports sent and those dropped, and
    whether the monitor's channel was open. *)
Definition pipeline_send_stat (clk : nat -> Clock) (ts : nat -> Collectors.TrySend) (batch_time : Z) (p : WplPipeline)
    : outcome (list StatReport * list StatReport * bool * WplPipeline) :=
  let! st :=
    if Collectors.has_pending_data (stat_ext p) then Ret (stat_ext p)
    else if stat_need_pkg_rule p then
      Collectors.touch_task_record field_text clk (stat_ext p) (wpl_key p) (pkg_rule_record p)
    else Ret (Collectors.touch_task_unit clk (stat_ext p) (wpl_key p)) in
  let '(out, full, ok, st) := Collectors.send_stat ts batch_time st in
  Ret (out, full, ok, set_stat p st).

(** [MultiParser::send_stat]: ends at the first pipeline that found the
    channel closed. *)
Fixpoint parser_send_stat (clk : nat -> nat -> Clock) (ts : nat -> nat -> Collectors.TrySend) (batch_time : nat -> Z)
    (i : nat) (m : MultiParser) : outcome (list StatReport * bool * MultiParser) :=
  match m with
  | [] => Ret ([], true, [])
  | p :: m =>
      let! (out, _, ok, p) := pipeline_send_stat (clk i) (ts i) (batch_time i) p in
      if ok then let! (rest, ok, m) := parser_send_stat clk ts batch_time (S i) m in Ret (out ++ rest, ok, p :: m)
      else Ret (out, false, p :: m)
  end.

(** ** A batch into groups ([processor.rs]) *)

Definition materialize_tags (tags : T) : list (string * string) :=
  if tags_is_empty tags then [] else default [] (tags_snapshot tags).

Definition has_no_field (record : R) (kv : string * string) : bool :=
  match field record kv.1 with None => true | Some _ => false end.

(** The tags the record has no field for, in their order. *)
Definition enrich_record_with_tags (record : R) (tags : T) : R :=
  if tags_is_empty tags then record else
  foldl (fun r kv => append r (from_chars kv.1 kv.2)) record
    (List.filter (has_no_field record) (materialize_tags tags)).

(** [u8::is_ascii_whitespace] *)
Definition is_ascii_whitespace (b : Byte.byte) : bool :=
  let n := Byte.to_N b in (bool_decide (n = 32%N) || bool_decide (n = 9%N) || bool_decide (n = 10%N)
    || bool_decide (n = 12%N) || bool_decide (n = 13%N)).

Definition payload_is_whitespace (p : RawData) : bool :=
  match p with
  | RawString s => bool_decide (str_trim s = "")
  | RawBytes b | RawArcBytes b => forallb is_ascii_whitespace b
  end.

Record ParsedDatSet := mkSet {
  sink_groups : gmap string (list Unit);
  residue_data : list (N * string);
  missed_packets : list (SourceEvent * ParseFailInfo);
}.

Definition push_unit (g : gmap string (list Unit)) (key : string) (u : Unit) : gmap string (list Unit) :=
  <[key := default [] (g !! key) ++ [u]]> g.

(** The units of a record and of its side records. *)
Definition event_units (event : SourceEvent) (key : string) (record : R) (sides : list (string * R))
    : list (string * Unit) :=
  (key, mkUnit (event_id event) NullMeta (enrich_record_with_tags record (ev_tags event)))
  :: map (fun ks => (ks.1, mkUnit (event_id event) NullMeta (enrich_record_with_tags ks.2 (ev_tags event)))) sides.

Definition push_units (g : gmap string (list Unit)) (us : list (string * Unit)) : gmap string (list Unit) :=
  foldl (fun g ku => push_unit g ku.1 ku.2) g us.

(** What the answer for one event adds to the set. *)
Definition add_result (s : ParsedDatSet) (event : SourceEvent) (r : ProcessResult) : ParsedDatSet :=
  match r with
  | Success key record sides =>
      mkSet (push_units (sink_groups s) (event_units event key record sides)) (residue_data s) (missed_packets s)
  | Partial key record residue sides =>
      mkSet (push_units (sink_groups s) (event_units event key record sides))
        (residue_data s ++ [(event_id event, "wpl:" +:+ key +:+ ",residue:" +:+ residue)]) (missed_packets s)
  | Miss info =>
      if payload_is_whitespace (ev_payload event) then s
      else mkSet (sink_groups s) (residue_data s) (missed_packets s ++ [(event, info)])
  end.

(** [clk i] and [now i] are the clocks of the batch's event [i]. *)
Fixpoint parse_batch (clk : nat -> nat -> nat -> nat -> Clock) (now : nat -> Z) (i : nat) (batch : list SourceEvent)
    (setting : ParseOption) (m : MultiParser) (s : ParsedDatSet) : outcome (ParsedDatSet * MultiParser) :=
  match batch with
  | [] => Ret (s, m)
  | event :: batch =>
      let! (r, m) := parse_event (clk i) (now i) event setting m in
      parse_batch clk now (S i) batch setting m (add_result s event r)
  end.

Definition batch_parse_package (clk : nat -> nat -> nat -> nat -> Clock) (now : nat -> Z) (batch : list SourceEvent)
    (setting : ParseOption) (m : MultiParser) : outcome (ParsedDatSet * MultiParser) :=
  parse_batch clk now 0 batch setting m (mkSet ∅ [] []).

(** ** Sending ([sender.rs]) *)

(** The answer of a send: done, failed with an error that ends the worker,
    still waiting for a full end, or a panic. *)
Inductive Flow (A : Type) := Done (a : A) (s : Net) | Fails (e : E) (s : Net) | Waits | Panics.
Arguments Done {A}. Arguments Fails {A}. Arguments Waits {A}. Arguments Panics {A}.

Definition fbind {A B} (m : Flow A) (k : A -> Net -> Flow B) : Flow B :=
  match m with Done a s => k a s | Fails e s => Fails e s | Waits => Waits | Panics => Panics end.

Variable mode : RobustnessMode.
(** The failure's time and error as texts. *)
Variable time_text : Z -> string.
(** The order in which a hash map hands out its entries. *)
Variable hm_iter : gmap string (list Unit) -> list (string * list Unit).

Definition handle_try_send_status (e : SinkReason) : option E :=
  match err4_send_to_sink e mode with
  | FixRetry | Throw => Some (to_err (ParseUvs SystemError))
  | Terminate | Tolerant | Ignore => None
  end.

(** [fuel] attempts; between two of them the other tasks run. *)
Fixpoint forward_raw_to_infra (fuel : nat) (agent : SinkGroupAgent) (pkg_id : N) (pending : SinkData (R := R)) (s : Net)
    : Flow unit :=
  match fuel with
  | O => Waits
  | S fuel =>
      let send := match pending with
                  | DRaw body => Some (try_send_raw (end_point agent) pkg_id body s)
                  | DRec m record => Some (try_send_to_sink (end_point agent) (mkUnit pkg_id m record) s)
                  | DFfv => None
                  end in
      match send with
      | None => Done tt s
      | Some (Sended, s) => Done tt s
      | Some (Fulfilled i d, s) => forward_raw_to_infra fuel agent i d (set_world s (idle (world s)))
      | Some (SendErr e, s) => match handle_try_send_status e with Some e => Fails e s | None => Done tt s end
      end
  end.

(** [ParseFailInfo::format_error] *)
Definition format_error (f : ParseFailInfo) : string :=
  "[" +:+ time_text (timestamp f) +:+ "] target wpl: " +:+ best_wpl f +:+ " (depth: " +:+ pretty (depth f) +:+ ")"
  +:+ String "010"%char "Error: " +:+ err_text (fail_error f).

Definition payload_text (p : RawData) : string :=
  match p with
  | RawString s => s
  | RawBytes b | RawArcBytes b => from_utf8_lossy (map Ascii.ascii_of_byte b)
  end.

Definition miss_text (event : SourceEvent) (err_msg : string) : string :=
  let nl := String "010"%char "" in
  "src_key: " +:+ src_key event +:+ "  | data:" +:+ nl +:+ payload_text (ev_payload event) +:+ nl +:+ err_msg +:+ nl +:+ nl.

Record InfraSinkAgent := mkInfra {
  i_default : SinkGroupAgent; i_miss : SinkGroupAgent; i_residue : SinkGroupAgent; i_moni : SinkGroupAgent; i_error : SinkGroupAgent
}.

Record WplEngine := mkEngine { pipelines : MultiParser; infra_agent : InfraSinkAgent }.

Fixpoint send_raws (fuel : nat) (agent : SinkGroupAgent) (l : list (N * string)) (s : Net) : Flow unit :=
  match l with
  | [] => Done tt s
  | (i, raw) :: l => fbind (forward_raw_to_infra fuel agent i (DRaw raw) s) (fun _ s => send_raws fuel agent l s)
  end.

Definition send_miss_packets (fuel : nat) (e : WplEngine) (missed : list (SourceEvent * ParseFailInfo)) (s : Net) : Flow unit :=
  send_raws fuel (i_miss (infra_agent e)) (map (fun m => (event_id m.1, miss_text m.1 (format_error m.2))) missed) s.

Definition send_residue_data (fuel : nat) (e : WplEngine) (residue : list (N * string)) (s : Net) : Flow unit :=
  send_raws fuel (i_residue (infra_agent e)) residue s.

(** One unit after the other; a full end makes the loop sleep and go on with
    the next unit. *)
Fixpoint sink_units (t : SinkTerminal) (us : list Unit) (s : Net) : Flow unit :=
  match us with
  | [] => Done tt s
  | u :: us =>
      match try_send_record t (id u) (meta u) (data u) s with
      | (Sended, s) => sink_units t us s
      | (Fulfilled _ _, s) => sink_units t us (set_world s (idle (world s)))
      | (SendErr e, s) => match handle_try_send_status e with Some e => Fails e s | None => sink_units t us s end
      end
  end.

Definition sink_batch (t : SinkTerminal) (package : list Unit) (s : Net) : Flow unit :=
  match package with
  | [] => Done tt s
  | _ =>
      match t with
      | Channel n => let '(_, w) := chan_send n package (world s) in Done tt (set_world s w)
      | BlackHole => Done tt s
      | _ => sink_units t package s
      end
  end.

Definition update_meta (m : ProcMeta) (us : list Unit) : list Unit := map (fun u => mkUnit (id u) m (data u)) us.

Fixpoint send_groups (m : MultiParser) (groups : list (string * list Unit)) (s : Net) : Flow unit :=
  match groups with
  | [] => Done tt s
  | (key, package) :: groups =>
      match package with
      | [] => send_groups m groups s
      | _ =>
          match List.find (fun p => String.eqb (wpl_key p) key) m with
          | None => send_groups m groups s
          | Some line =>
              match get_rolled_end line s with
              | Ret (endp, s) =>
                  fbind (sink_batch endp (update_meta (WplName key) package) s) (fun _ s => send_groups m groups s)
              | Panic => Panics
              end
          end
      end
  end.

Definition send_to_sink_groups (e : WplEngine) (groups : gmap string (list Unit)) (s : Net) : Flow unit :=
  send_groups (pipelines e) (hm_iter groups) s.

(** [skip_sink] is the process-wide flag. *)
Definition send_batched_data (fuel : nat) (skip_sink : bool) (e : WplEngine) (d : ParsedDatSet) (s : Net) : Flow unit :=
  fbind (send_miss_packets fuel e (missed_packets d) s) (fun _ s =>
  fbind (send_residue_data fuel e (residue_data d) s) (fun _ s =>
  if skip_sink then Done tt s else send_to_sink_groups e (sink_groups d) s)).

(** ** The engine ([engine.rs]) *)

Definition engine_from (ps : list WplPipeline) (infra : InfraSinkAgent) : WplEngine := mkEngine (MultiParser_new ps) infra.
Definition engine_optimized (e : WplEngine) : WplEngine := mkEngine (optimized (pipelines e)) (infra_agent e).

(** The answer, and the engine the parsing left. *)
Definition proc_batch (clk : nat -> nat -> nat -> nat -> Clock) (now : nat -> Z) (fuel : nat) (skip_sink : bool)
    (batch : list SourceEvent) (setting : ParseOption) (e : WplEngine) (s : Net) : Flow unit * WplEngine :=
  match batch with
  | [] => (Done tt s, e)
  | _ =>
      match batch_parse_package clk now batch setting (pipelines e) with
      | Ret (d, m) => let e := mkEngine m (infra_agent e) in (send_batched_data fuel skip_sink e d s, e)
      | Panic => (Panics, e)
      end
  end.

(** On a copy: what the rules hit is forgotten. *)
Definition proc_async (clk : nat -> nat -> nat -> nat -> Clock) (now : nat -> Z) (fuel : nat) (skip_sink : bool)
    (event : SourceEvent) (setting : ParseOption) (e : WplEngine) (s : Net) : Flow unit :=
  (proc_batch clk now fuel skip_sink [event] setting e s).1.

End Engine.

Arguments Done {E W A}.
Arguments Fails {E W A}.
Arguments Waits {E W A}.
Arguments Panics {E W A}.
