(* ===== verification/WplEngineLaws.v ===== *)
(** What the parse engine guarantees ([WplEngine]): which rule an event is
    given to and which rule a miss is blamed on, where every event of a batch
    goes, that late rules stay behind the others, and what the sends deliver. *)
From Stdlib Require Import ZArith Lia String Ascii.
From stdpp Require Import prelude strings gmap pretty sorting.
From S2P Require Import Prelude F64 Text Utf8 DataModel ErrPolicy Picker SinkRuntime Tags Stats Metrics MetricsLaws Dispatcher WplEngine.
Local Open Scope string_scope.
Local Open Scope list_scope.
Local Open Scope Z_scope.
Local Open Scope wp_scope.

(** "Deeper" is a strict weak order: it compares two shares. *)
Class ProgressLaws `{WplApi Ev An E Pg R} := {
  deeper_irrefl p : is_deeper_than p p = false;
  deeper_trans p q r : is_deeper_than p q = true -> is_deeper_than q r = true -> is_deeper_than p r = true;
  deeper_ntrans p q r : is_deeper_than p q = false -> is_deeper_than q r = false -> is_deeper_than p r = false;
}.

(** ** The stable sort *)

Section SortLaws.
Context {A : Type} (ltb : A -> A -> bool).

Lemma insert_sorted_perm x l : insert_sorted ltb x l ≡ₚ x :: l.
Proof. induction l as [|y l IH]; cbn; [done|]. destruct (ltb x y); [done|]. by rewrite IH, Permutation_swap. Qed.

Lemma foldl_insert_perm l acc : foldl (fun acc x => insert_sorted ltb x acc) acc l ≡ₚ acc ++ l.
Proof.
  revert acc. induction l as [|x l IH]; intros acc; cbn [foldl]; [by rewrite app_nil_r|].
  rewrite IH, insert_sorted_perm. cbn. by rewrite Permutation_middle.
Qed.

Lemma stable_sort_perm l : stable_sort ltb l ≡ₚ l.
Proof. apply foldl_insert_perm. Qed.

Hypothesis ltb_asym : forall x y, ltb x y = true -> ltb y x = false.
Hypothesis ltb_ntrans : forall x y z, ltb x y = false -> ltb y z = false -> ltb x z = false.

(** No element is before a smaller one. *)
Definition ordered (l : list A) : Prop := StronglySorted (fun x y => ltb y x = false) l.

Lemma insert_sorted_ordered x l : ordered l -> ordered (insert_sorted ltb x l).
Proof.
  induction 1 as [|y l Hl IH Hy]; cbn; [by repeat constructor|]. destruct (ltb x y) eqn:E.
  - constructor; [by constructor|]. constructor; [by apply ltb_asym|].
    eapply Forall_impl; [exact Hy|]. intros z Hz. eapply ltb_ntrans; [exact Hz|]. by apply ltb_asym.
  - constructor; [done|]. rewrite insert_sorted_perm. by constructor.
Qed.

Lemma stable_sort_ordered l : ordered (stable_sort ltb l).
Proof.
  unfold stable_sort. assert (forall acc, ordered acc -> ordered (foldl (fun acc x => insert_sorted ltb x acc) acc l)) as HH.
  { induction l as [|x l IH]; intros acc Hacc; cbn; [done|]. by apply IH, insert_sorted_ordered. }
  apply HH. constructor.
Qed.
End SortLaws.

Section Laws.
Context {Ev An E Pg T Hk W : Type} `{DataLaws F R} `{!RecordApi F R} `{!TagsApi T} `{!WplApi Ev An E Pg R}.
Context `{!Ends (R := R) W} {L : Coll.LruApi Dim.StatDim Slice.SliceRecord} {C : Coll.CollApi}.
Variable md5_hex : RawData -> string.

Notation SourceEvent := (SourceEvent T Hk).
Notation Net := (Net W).
Notation Unit := (SinkRecUnit (R := R)).
Notation Pipeline := (WplPipeline (Ev := Ev) (An := An)).
Notation Result := (ProcessResult (R := R) (E := E)).

(** ** One rule *)

(** The collectors of every rule are well formed. *)
Definition engine_wf (m : list Pipeline) : Prop := Forall (fun p => mc_wf (stat_ext p)) m.

Definition annotated (p : Pipeline) (record : R) (rest : string) (data : SourceEvent)
    : (R * RawData * list (string * R)) + E :=
  match run_annotations (fun_vec p) (to_wp_source_types_event data) record [] with
  | inl (record, sides) => inl (record, RawString rest, sides)
  | inr e => inr e
  end.

(** What a rule says about an event, its statistics apart. *)
Definition attempt (p : Pipeline) (data : SourceEvent) : ((R * RawData * list (string * R)) + E) * Pg :=
  match proc_ref_progress (parser p) (event_id data) (ev_payload data) 0 with
  | (inl (record, rest), progress) => (annotated p record rest data, progress)
  | (inr e, progress) => (inr e, progress)
  end.

(** The same rule with other statistics. *)
Definition restated (p p' : Pipeline) : Prop := exists st, p' = set_stat p st /\ mc_wf st.

Lemma proc_attempt clk p data : mc_wf (stat_ext p) ->
  exists p', proc clk p data = Ret ((attempt p data).1, (attempt p data).2, p') /\ restated p p'.
Proof.
  intros Hw. unfold proc, attempt.
  assert (forall q : Pipeline, mc_wf (stat_ext q) -> restated q q) as Hself.
  { intros [] Hq. eexists. by split. }
  destruct (proc_ref_progress _ _ _ _) as [[[record rest]|e] progress]; [|exists p; split; [done|by apply Hself]].
  unfold finish_success, annotated.
  destruct (counts_begin field_text (clk 0%nat) (stat_ext p) (wpl_key p)
    (if stat_need_pkg_rule p then Some (pkg_rule_record p) else None) Hw) as (st & -> & Hst & _). cbn [obind].
  cbn [set_stat fun_vec stat_need_pkg_rule stat_ext wpl_key].
  destruct (run_annotations _ _ _ _) as [[r sides]|e]; cbn [obind]; [|exists (set_stat p st); split; [done|by exists st]].
  destruct (counts_end field_text (clk 1%nat) st (wpl_key p)
    (Some (if stat_need_pkg_rule p then stat_end_record (set_stat p st) r else r)) Hst) as (st' & E' & Hst' & _).
  cbn in E' |- *. rewrite E'. cbn. exists (set_stat p st'). split; [done|by exists st'].
Qed.

Lemma apply_tags_total (r : R) ts : exists r', apply_tags r ts = Some r'.
Proof.
  revert r. induction ts as [|[k v] ts IH]; intros r; [by eexists|]. cbn [apply_tags].
  destruct (remove_fields_spec (S (length (items r))) r k) as (r1 & -> & _); [lia|]. apply IH.
Qed.

Lemma stamp_total (r : R) (ev : SourceEvent) setting : exists r', stamp_event_meta md5_hex r ev setting = Ret r'.
Proof.
  unfold stamp_event_meta. destruct (global_tags setting) as [t|]; [|by eexists].
  unfold apply_global_tags. match goal with |- context [apply_tags ?x _] => destruct (apply_tags_total x (tags t)) as [r' ->] end. by eexists.
Qed.

Lemma omap_list_total {A B} (f : A -> outcome B) l : (forall x, exists y, f x = Ret y) -> exists k, omap_list f l = Ret k.
Proof.
  intros Hf. induction l as [|x l [k IH]]; [by eexists|]. cbn. destruct (Hf x) as [y ->]. cbn. rewrite IH. by eexists.
Qed.

Lemma stamp_all_total (r : R) sides (ev : SourceEvent) setting :
  exists q, stamp_record_and_sides md5_hex r sides ev setting = Ret q.
Proof.
  unfold stamp_record_and_sides. destruct (stamp_total r ev setting) as [r' ->]. cbn [obind].
  destruct (omap_list_total (fun ks => let! side := stamp_event_meta md5_hex ks.2 ev setting in Ret (ks.1, side)) sides) as [k ->].
  { intros [key side]. cbn. destruct (stamp_total side ev setting) as [r2 ->]. by eexists. }
  by eexists.
Qed.

(** ** Matching an event *)

(** A rule's verdict on an event: it takes it, it fails in a way the miss may be
    blamed on, or it fails otherwise. *)
Inductive Verdict := Takes (r : R) (un : RawData) (sides : list (string * R)) | Blamed (e : E) | Refuses (e : E).

Definition progress_of (p : Pipeline) (ev : SourceEvent) : Pg := (attempt p ev).2.

Definition verdict (p : Pipeline) (ev : SourceEvent) : Verdict :=
  match (attempt p ev).1 with
  | inl (r, un, sides) =>
      if negb (raw_is_empty un) && (raw_len (ev_payload ev) <? raw_len un * 5)
      then Blamed (to_err (ParseUvs DataError)) else Takes r un sides
  | inr e => if data_error (An := An) e then Blamed e else Refuses e
  end.

Definition takes (ev : SourceEvent) (p : Pipeline) : bool :=
  match verdict p ev with Takes _ _ _ => true | _ => false end.
Definition refuses (ev : SourceEvent) (p : Pipeline) : bool :=
  match verdict p ev with Refuses _ => true | _ => false end.

(** The answer of the rule that takes the event. *)
Definition answer (p : Pipeline) (ev : SourceEvent) (setting : ParseOption) (res : Result) : Prop :=
  exists r un sides r' sides', verdict p ev = Takes r un sides
    /\ stamp_record_and_sides md5_hex r sides ev setting = Ret (r', sides')
    /\ res = if raw_is_empty un then Success (wpl_key p) r' sides' else Partial (wpl_key p) r' (raw_text un) sides'.

(** The same rule after some events: other statistics, other hits. *)
Definition kin (p p' : Pipeline) : Prop := exists st n, p' = set_hit (set_stat p st) n /\ mc_wf st.

(** Who a miss is blamed on: of the rules that failed, the one that got
    deepest, the first of them among equals. *)
Record deepest (ev : SourceEvent) (l pre : list Pipeline) (q : Pipeline) (post : list Pipeline) (e : E) : Prop := {
  deepest_split : l = pre ++ q :: post;
  deepest_auto : auto_match q = true;
  deepest_verdict : verdict q ev = Blamed e;
  deepest_before p e' : p ∈ pre -> auto_match p = true -> verdict p ev = Blamed e' ->
    is_deeper_than (progress_of q ev) (progress_of p ev) = true;
  deepest_after p e' : p ∈ post -> auto_match p = true -> verdict p ev = Blamed e' ->
    is_deeper_than (progress_of p ev) (progress_of q ev) = false;
}.

(** The rules that may be matched, in order. *)
Definition tried (l : list Pipeline) : list Pipeline := List.filter auto_match l.

Definition blame (ev : SourceEvent) (l : list Pipeline) (b : Best (E := E) (Pg := Pg)) : Prop :=
  match tried l with
  | [] => b = no_best (An := An) (R := R)
  | _ => exists pre q post e, deepest ev l pre q post e
           /\ b = mkBest (Some (length pre)) (progress_of q ev) (Some e)
  end.

Definition first_ok (ev : SourceEvent) (l : list Pipeline) : Prop :=
  match tried l with p :: _ => refuses ev p = false | [] => True end.

Lemma kin_verdict p p' ev : kin p p' -> verdict p' ev = verdict p ev.
Proof. intros (st & n & -> & _). done. Qed.

Lemma tried_app l k : tried (l ++ k) = tried l ++ tried k.
Proof. apply List.filter_app. Qed.
Lemma tried_skip l p : auto_match p = false -> tried (l ++ [p]) = tried l.
Proof. intros Hp. rewrite tried_app. unfold tried at 2. cbn. rewrite Hp. apply app_nil_r. Qed.
Lemma tried_snoc l p : auto_match p = true -> tried (l ++ [p]) = tried l ++ [p].
Proof. intros Hp. rewrite tried_app. unfold tried at 2. cbn. by rewrite Hp. Qed.

Lemma first_ok_snoc ev l p : first_ok ev l -> (tried l = [] -> auto_match p = true -> refuses ev p = false) ->
  first_ok ev (l ++ [p]).
Proof.
  unfold first_ok. intros Hl Hp. destruct (auto_match p) eqn:Ha; [|by rewrite tried_skip].
  rewrite tried_snoc by done. destruct (tried l) as [|q k]; cbn; [by apply Hp|done].
Qed.

Lemma first_ok_app ev l k : first_ok ev l -> tried l <> [] -> first_ok ev (l ++ k).
Proof. unfold first_ok. rewrite tried_app. by destruct (tried l). Qed.

Lemma blame_skip ev l p b : auto_match p = false -> blame ev l b -> blame ev (l ++ [p]) b.
Proof.
  intros Hp. unfold blame. rewrite tried_skip by done. destruct (tried l) as [|x k]; [done|].
  intros (pre & q & post & e & [-> Ha Hv Hb Haf] & ->). exists pre, q, (post ++ [p]), e. split; [|done].
  split; [by rewrite <- app_assoc|done..|]. intros r e' [Hr| ->%list_elem_of_singleton]%elem_of_app Har; [by eapply Haf|congruence].
Qed.

(** A rule that fails later than the others without a better claim. *)
Lemma blame_other ev l p b : blame ev l b -> tried l <> [] -> auto_match p = true ->
  (forall e', verdict p ev = Blamed e' -> is_deeper_than (progress_of p ev) (best_progress b) = false) ->
  blame ev (l ++ [p]) b.
Proof.
  intros Hb Hne Hp Hd. unfold blame in *. rewrite tried_snoc by done. destruct (tried l) as [|x k]; [done|]. cbn.
  destruct Hb as (pre & q & post & e2 & [-> Ha Hv Hbe Haf] & ->). exists pre, q, (post ++ [p]), e2. split; [|done].
  split; [by rewrite <- app_assoc|done..|].
  intros r e' [Hr| ->%list_elem_of_singleton]%elem_of_app Har; [by eapply Haf|]. apply Hd.
Qed.
(** A rule blamed now: it takes the blame over if it got deeper. *)
Lemma blame_step `{!ProgressLaws} ev l p b e : blame ev l b -> auto_match p = true -> verdict p ev = Blamed e ->
  blame ev (l ++ [p])
    (if is_candidate (An := An) (R := R) b (progress_of p ev) then mkBest (Some (length l)) (progress_of p ev) (Some e) else b).
Proof.
  intros Hb Hp Hv. unfold is_candidate. destruct (tried l) as [|x k] eqn:Ht.
  - assert (b = no_best (An := An) (R := R)) as -> by (unfold blame in Hb; by rewrite Ht in Hb). cbn.
    unfold blame. rewrite tried_snoc by done. rewrite Ht. cbn. exists l, p, [], e. split; [|done].
    split; [done..| |by intros ? ? ?%not_elem_of_nil].
    intros r e' Hr Har. assert (r ∈ tried l) as Hin by (apply list_elem_of_In, List.filter_In; by rewrite <- list_elem_of_In).
    rewrite Ht in Hin. by apply not_elem_of_nil in Hin.
  - pose proof Hb as Hb0. unfold blame in Hb. rewrite Ht in Hb.
    destruct Hb as (pre & q & post & e2 & [-> Ha Hvq Hbe Haf] & ->). cbn [best_idx best_progress].
    destruct (is_deeper_than _ _) eqn:Hd.
    + unfold blame. rewrite tried_snoc by done. rewrite Ht. cbn. exists (pre ++ q :: post), p, [], e. split; [|done].
      split; [done..| |by intros ? ? ?%not_elem_of_nil].
      intros r e' [Hr|[->|Hr]%elem_of_cons]%elem_of_app Har Hvr; [|done|].
      * eapply deeper_trans; [exact Hd|]. by eapply Hbe.
      * specialize (Haf r e' Hr Har Hvr). destruct (is_deeper_than (progress_of p ev) (progress_of r ev)) eqn:Hpr; [done|].
        by rewrite (deeper_ntrans _ _ _ Hpr Haf) in Hd.
    + apply blame_other; [done|by rewrite Ht|done|]. intros e' _. exact Hd.
Qed.

(** What the loop answers, over the rules [seen ++ todo]. *)
Definition loop_answer (ev : SourceEvent) (setting : ParseOption) (seen todo : list Pipeline)
    (r : Result + Best (E := E) (Pg := Pg)) : Prop :=
  match r with
  | inl res => first_ok ev (seen ++ todo) /\ exists q, List.find (takes ev) (tried todo) = Some q /\ answer q ev setting res
  | inr b =>
      (exists pre q post e, seen ++ todo = pre ++ q :: post /\ tried pre = [] /\ auto_match q = true /\
         verdict q ev = Refuses e /\ b = mkBest (Some (length pre)) (progress_of q ev) (Some e))
      \/ (List.find (takes ev) (tried todo) = None /\ first_ok ev (seen ++ todo) /\ blame ev (seen ++ todo) b)
  end.

Lemma kin_length (l k : list Pipeline) : Forall2 kin l k -> length k = length l.
Proof. intros Hf. symmetry. eapply Forall2_length, Hf. Qed.

Lemma raw_len_nonneg d : 0 <= raw_len d.
Proof. destruct d; cbn; unfold zlen; lia. Qed.

Lemma last_of_all (before : list Pipeline) line todo rule_cnt :
  rule_cnt = length (before ++ line :: todo) -> (length before =? rule_cnt - 1)%nat = true -> todo = [].
Proof. intros -> Hl%Nat.eqb_eq. rewrite length_app in Hl. destruct todo; [done|]. cbn in Hl. lia. Qed.

Lemma best_error_blame ev l b : blame ev l b -> (best_error b = None <-> tried l = []).
Proof.
  unfold blame. destruct (tried l); [by intros ->|]. intros (pre & q & post & e & _ & ->). done.
Qed.

Lemma parse_loop_spec `{!ProgressLaws} clk ev setting rule_cnt seen before todo b :
  rule_cnt = length (before ++ todo) -> engine_wf todo -> Forall2 kin seen before ->
  blame ev seen b -> first_ok ev seen ->
  exists r m', parse_loop md5_hex clk ev setting rule_cnt before todo b = Ret (r, m') /\
    Forall2 kin (seen ++ todo) m' /\ loop_answer ev setting seen todo r.
Proof.
  revert seen before b. induction todo as [|line todo IH]; intros seen before b Hcnt Hwf Hkin0 Hb Hf.
  { exists (inr b), before. rewrite app_nil_r. split; [done|]. split; [done|]. right. rewrite app_nil_r. done. }
  apply Forall_cons in Hwf as [Hl Hwf]. cbn [parse_loop].
  assert (forall st : Collectors.MetricCollectors, forall n, mc_wf st -> kin line (set_hit (set_stat line st) n)) as Hkin.
  { intros st n Hst. by exists st, n. }
  assert (Forall2 kin todo todo) as Hrest.
  { clear -Hwf. induction Hwf as [|p l Hp Hl IH]; constructor; [|done]. exists (stat_ext p), (hit_cnt p). by destruct p. }
  assert (seen ++ line :: todo = (seen ++ [line]) ++ todo) as Hsplit by by rewrite <- app_assoc.
  assert (Forall2 kin [line] [line]) as Hself.
  { constructor; [|constructor]. exists (stat_ext line), (hit_cnt line). by destruct line. }
  destruct (auto_match line) eqn:Ha; cbn [negb].
  2:{ destruct (IH (seen ++ [line]) (before ++ [line]) b) as (r & m' & E1 & Hm & Hr); try done.
      - by rewrite <- app_assoc.
      - by apply Forall2_app.
      - by apply blame_skip.
      - apply first_ok_snoc; [done|]. intros _ Hx. congruence.
      - exists r, m'. split; [exact E1|]. rewrite Hsplit. split; [done|].
        unfold loop_answer in *. rewrite Hsplit. unfold tried. cbn [List.filter]. by rewrite Ha. }
  destruct (proc_attempt (clk (length before)) line ev Hl) as (line' & -> & st & -> & Hst). cbn [obind].
  change (attempt line ev).2 with (progress_of line ev).
  assert (forall n, kin line (set_hit (set_stat line st) n)) as Hhit by (intros n; by apply Hkin).
  assert (kin line (set_stat line st)) as Hsame. { exists st, (hit_cnt line). split; [by destruct line|done]. }
  assert (tried (line :: todo) = line :: tried todo) as Htr by (unfold tried; cbn; by rewrite Ha).
  (* going on after the rule was blamed *)
  assert (forall e line2, verdict line ev = Blamed e -> kin line line2 ->
    exists r m', parse_loop md5_hex clk ev setting rule_cnt (before ++ [line2]) todo
      (if is_candidate (An := An) (R := R) b (progress_of line ev)
       then mkBest (Some (length before)) (progress_of line ev) (Some e) else b) = Ret (r, m') /\
    Forall2 kin (seen ++ line :: todo) m' /\ loop_answer ev setting seen (line :: todo) r) as Hblamed.
  { intros e line2 Hv Hk2. rewrite (kin_length _ _ Hkin0).
    destruct (IH (seen ++ [line]) (before ++ [line2]) (if is_candidate (An := An) (R := R) b (progress_of line ev)
       then mkBest (Some (length seen)) (progress_of line ev) (Some e) else b)) as (r & m' & E1 & Hm & Hr); try done.
    - rewrite Hcnt, !length_app. cbn. lia.
    - by apply Forall2_app; [|repeat constructor].
    - by apply blame_step.
    - apply first_ok_snoc; [done|]. intros _ _. unfold refuses. by rewrite Hv.
    - exists r, m'. split; [exact E1|]. rewrite Hsplit. split; [done|].
      unfold loop_answer in *. rewrite Hsplit, Htr. cbn [List.find]. unfold takes at 1 3. by rewrite Hv. }
  assert (takes ev line = true -> first_ok ev (seen ++ line :: todo)) as Hfirst0.
  { intros Hv. rewrite Hsplit. apply first_ok_app; [|rewrite tried_snoc by done; by destruct (tried seen)].
    apply first_ok_snoc; [done|]. intros _ _. unfold takes in Hv. unfold refuses. by destruct (verdict line ev). }
  pose proof (eq_refl (verdict line ev)) as Hv. unfold verdict at 1 in Hv.
  destruct (attempt line ev).1 as [[[tdo un] sides]|e] eqn:Eatt.
  - destruct (raw_is_empty un) eqn:Hun; cbn [negb andb] in Hv.
    + destruct (stamp_all_total tdo sides ev setting) as [[r' sides'] Est]. rewrite Est. cbn.
      do 2 eexists. split; [reflexivity|]. split; [apply Forall2_app; [done|by constructor]|].
      split; [apply Hfirst0; unfold takes; by rewrite <- Hv|]. exists line. rewrite Htr. cbn [List.find]. unfold takes at 1. rewrite <- Hv. split; [done|].
      do 5 eexists. split; [symmetry; exact Hv|]. split; [exact Est|]. by rewrite Hun.
    + destruct (raw_len (ev_payload ev) <? raw_len un * 5) eqn:Hlen.
      * apply (Hblamed _ _ (eq_sym Hv)). apply Hhit.
      * destruct (stamp_all_total tdo sides ev setting) as [[r' sides'] Est]. rewrite Est. cbn.
        do 2 eexists. split; [reflexivity|]. split; [apply Forall2_app; [done|by constructor]|].
        split; [apply Hfirst0; unfold takes; by rewrite <- Hv|]. exists line. rewrite Htr. cbn [List.find]. unfold takes at 1. rewrite <- Hv. split; [done|].
        do 5 eexists. split; [symmetry; exact Hv|]. split; [exact Est|]. by rewrite Hun.
  - destruct (data_error e) eqn:Hde.
    + destruct (Hblamed e (set_stat line st) (eq_sym Hv) Hsame) as (r & m' & E1 & Hm & Hr).
      destruct (length before =? rule_cnt - 1)%nat eqn:Hlast; [|by exists r, m'].
      apply (last_of_all before line todo) in Hlast; [|done]. subst todo. exists r, m'. split; [|done].
      cbn [parse_loop] in E1. injection E1 as <- <-. done.
    + destruct (best_error b) as [e0|] eqn:Hbe.
      * (* skipped: somebody was blamed before *)
        assert (tried seen <> []) as Hne. { intros Hx. apply (best_error_blame ev seen b Hb) in Hx. congruence. }
        destruct (IH (seen ++ [line]) (before ++ [set_stat line st]) b) as (r & m' & E1 & Hm & Hr); try done.
        -- rewrite Hcnt, !length_app. cbn. lia.
        -- by apply Forall2_app; [|repeat constructor].
        -- apply blame_other; [done..|]. intros e' He'. congruence.
        -- apply first_ok_snoc; [done|]. by intros Hx.
        -- assert (loop_answer ev setting seen (line :: todo) r) as Hr2.
           { unfold loop_answer in *. rewrite Hsplit, Htr. cbn [List.find]. unfold takes at 1 3. by rewrite <- Hv. }
           rewrite <- Hsplit in Hm. destruct (length before =? rule_cnt - 1)%nat eqn:Hlast; [|by exists r, m'].
           apply (last_of_all before line todo) in Hlast; [|done]. subst todo. exists r, m'. split; [|done].
           cbn [parse_loop] in E1. injection E1 as <- <-. done.
      * apply (best_error_blame ev seen b Hb) in Hbe. do 2 eexists. split; [reflexivity|].
        split; [apply Forall2_app; [done|by constructor]|]. left. exists seen, line, todo, e.
        rewrite (kin_length _ _ Hkin0). done.
Qed.

Lemma kin_wf (m m' : list Pipeline) : Forall2 kin m m' -> engine_wf m'.
Proof. induction 1 as [|p p' m m' (st & n & -> & Hst) _ IH]; by constructor. Qed.

Lemma blame_first ev l b : first_ok ev l -> blame ev l b -> tried l <> [] ->
  exists pre q post e, deepest ev l pre q post e /\ b = mkBest (Some (length pre)) (progress_of q ev) (Some e).
Proof. unfold blame. destruct (tried l) eqn:Ht; done. Qed.

Lemma tried_nil_first pre (q : Pipeline) post : tried pre = [] -> auto_match q = true ->
  tried (pre ++ q :: post) = q :: tried post.
Proof. intros Hp Hq. rewrite tried_app, Hp. unfold tried at 1. cbn. by rewrite Hq. Qed.

Lemma lookup_kin (m m' : list Pipeline) pre q post : Forall2 kin m m' -> m = pre ++ q :: post ->
  exists q', m' !! length pre = Some q' /\ wpl_key q' = wpl_key q.
Proof.
  intros Hkin ->. destruct (Forall2_lookup_l _ _ _ (length pre) q Hkin) as (q' & Hq & st & n & -> & _).
  { by rewrite list_lookup_middle. }
  eexists. split; [exact Hq|done].
Qed.

(** What [parse_event] must answer. *)
Definition event_answer (ev : SourceEvent) (setting : ParseOption) (now : Z) (m : list Pipeline)
    (r : Result) : Prop :=
  match tried m with
  | [] => r = Miss (mkFail "" (to_err (ParseUvs SystemError)) (consumed (progress_default (An := An) (R := R))) now)
  | first :: _ =>
      match verdict first ev with
      | Refuses e => r = Miss (mkFail (wpl_key first) e (consumed (progress_of first ev)) now)
      | _ =>
          match List.find (takes ev) (tried m) with
          | Some q => answer q ev setting r
          | None => exists pre q post e, deepest ev m pre q post e /\
                      r = Miss (mkFail (wpl_key q) e (consumed (progress_of q ev)) now)
          end
      end
  end.

Lemma parse_event_answer `{!ProgressLaws} clk now ev setting (m : list Pipeline) : engine_wf m ->
  exists r m', parse_event md5_hex clk now ev setting m = Ret (r, m') /\ Forall2 kin m m' /\ event_answer ev setting now m r.
Proof.
  intros Hw. unfold parse_event.
  destruct (parse_loop_spec clk ev setting (length m) [] [] m (no_best (An := An) (R := R)))
    as (r & m' & -> & Hkin & Hr); [done..|constructor|done|done|]. cbn [obind app] in *.
  destruct r as [r|b].
  - exists r, m'. split; [done|]. split; [done|]. destruct Hr as (Hf & q & Hq & Hans). unfold event_answer, first_ok in *. cbn [app] in *.
    destruct (tried m) as [|first l] eqn:Ht; [done|]. unfold refuses in Hf. destruct (verdict first ev); [by rewrite Hq..|done].
  - destruct Hr as [(pre & q & post & e & Hm &  Hpre & Ha & Hv & ->)|(Hnone & Hf & Hb)]; cbn [best_idx best_error best_progress].
    + cbn [app] in Hm. subst m. destruct (lookup_kin _ m' pre q post Hkin eq_refl) as (q' & -> & Hkey). cbn.
      do 2 eexists. split; [reflexivity|]. split; [done|]. unfold event_answer.
      rewrite tried_nil_first by done. by rewrite Hv, Hkey.
    + unfold event_answer, first_ok, blame in *. cbn [app] in *. destruct (tried m) as [|first l] eqn:Ht.
      * subst b. do 2 eexists. by split.
      * destruct Hb as (pre & q & post & e & Hd & ->). cbn [best_idx best_error best_progress].
        destruct (lookup_kin m m' pre q post Hkin (deepest_split _ _ _ _ _ _ Hd)) as (q' & -> & Hkey). cbn [obind default].
        do 2 eexists. split; [reflexivity|]. split; [done|]. unfold refuses in Hf. rewrite Hnone.
        destruct (verdict first ev); [..|done]; exists pre, q, post, e; by rewrite <- Hkey.
Qed.

(** ** Rules between events *)

Lemma kin_trans p q r : kin p q -> kin q r -> kin p r.
Proof. intros (st & n & -> & _) (st' & n' & -> & Hst). exists st', n'. by split. Qed.

Lemma kin_tried (m m' : list Pipeline) : Forall2 kin m m' -> Forall2 kin (tried m) (tried m').
Proof.
  unfold tried. induction 1 as [|p p' m m' (st & n & -> & Hst) _ IH]; cbn; [constructor|].
  destruct (auto_match p); [|done]. constructor; [by exists st, n|done].
Qed.

Lemma kin_find ev (m m' : list Pipeline) : Forall2 kin m m' ->
  match List.find (takes ev) m' with
  | Some q' => exists q, List.find (takes ev) m = Some q /\ kin q q'
  | None => List.find (takes ev) m = None
  end.
Proof.
  induction 1 as [|p p' m m' Hp _ IH]; [done|]. cbn.
  assert (takes ev p' = takes ev p) as -> by (unfold takes; by rewrite (kin_verdict _ _ _ Hp)).
  destruct (takes ev p); [by exists p|done].
Qed.

Lemma kin_answer p p' ev setting r : kin p p' -> answer p' ev setting r -> answer p ev setting r.
Proof.
  intros Hp (x & un & sides & x' & sides' & Hv & Hs & ->). exists x, un, sides, x', sides'.
  rewrite (kin_verdict _ _ _ Hp) in Hv. destruct Hp as (st & n & -> & _). done.
Qed.

Lemma kin_elem (p : Pipeline) (m m' : list Pipeline) : Forall2 kin m m' -> p ∈ m -> exists p', p' ∈ m' /\ kin p p'.
Proof.
  intros Hm (i & Hi)%list_elem_of_lookup. destruct (Forall2_lookup_l _ _ _ _ _ Hm Hi) as (p' & Hi' & Hp).
  exists p'. split; [|done]. apply list_elem_of_lookup. by exists i.
Qed.

Lemma kin_deepest ev (m m' : list Pipeline) pre' q' post' e : Forall2 kin m m' -> deepest ev m' pre' q' post' e ->
  exists pre q post, deepest ev m pre q post e /\ kin q q'.
Proof.
  intros Hm [-> Ha Hv Hb Haf]. apply Forall2_app_inv_r in Hm as (pre & k & Hpre & Hk2 & ->).
  apply Forall2_cons_inv_r in Hk2 as (q & post & Hq & Hpost & ->). exists pre, q, post. split; [|done].
  rewrite (kin_verdict _ _ _ Hq) in Hv. assert (auto_match q = true) as Ha0 by (destruct Hq as (st & n & -> & _); done).
  assert (forall p p' : Pipeline, kin p p' -> progress_of p' ev = progress_of p ev /\ auto_match p' = auto_match p) as Hsame.
  { intros ? ? (st & n & -> & _). done. }
  split; [done..| |].
  - intros p e' Hp Hap Hvp. destruct (kin_elem p _ _ Hpre Hp) as (p' & Hp' & Hpk).
    destruct (Hsame _ _ Hpk) as [<- Hapk], (Hsame _ _ Hq) as [<- _].
    eapply Hb; [done|by rewrite Hapk|by rewrite (kin_verdict _ _ _ Hpk)].
  - intros p e' Hp Hap Hvp. destruct (kin_elem p _ _ Hpost Hp) as (p' & Hp' & Hpk).
    destruct (Hsame _ _ Hpk) as [<- Hapk], (Hsame _ _ Hq) as [<- _].
    eapply Haf; [done|by rewrite Hapk|by rewrite (kin_verdict _ _ _ Hpk)].
Qed.

Lemma kin_event_answer ev setting now (m m' : list Pipeline) r : Forall2 kin m m' ->
  event_answer ev setting now m' r -> event_answer ev setting now m r.
Proof.
  intros Hm. unfold event_answer. pose proof (kin_find ev _ _ (kin_tried _ _ Hm)) as Hfind.
  destruct (kin_tried _ _ Hm) as [|p p' l l' Hp Hl]; [done|]. rewrite (kin_verdict _ _ _ Hp).
  assert (match List.find (takes ev) (p' :: l') with
     | Some q => answer q ev setting r
     | None => exists pre q post e, deepest ev m' pre q post e /\ r = Miss (mkFail (wpl_key q) e (consumed (progress_of q ev)) now)
     end ->
     match List.find (takes ev) (p :: l) with
     | Some q => answer q ev setting r
     | None => exists pre q post e, deepest ev m pre q post e /\ r = Miss (mkFail (wpl_key q) e (consumed (progress_of q ev)) now)
     end) as Hgo.
  { destruct (List.find (takes ev) (p' :: l')) as [q'|].
    - destruct Hfind as (q & -> & Hq). by apply kin_answer.
    - rewrite Hfind. intros (pre & q & post & e & Hd & ->).
      destruct (kin_deepest _ _ _ _ _ _ _ Hm Hd) as (pre0 & q0 & post0 & Hd0 & st & n & -> & _).
      exists pre0, q0, post0, e. by split. }
  destruct (verdict p ev); [exact Hgo..|]. destruct Hp as (st & n & -> & _). done.
Qed.

(** ** A batch *)

(** The units an answer makes, with the rules they are routed by. *)
Definition result_units (ev : SourceEvent) (r : Result) : list (string * Unit) :=
  match r with
  | Success key record sides | Partial key record _ sides => event_units ev key record sides
  | Miss _ => []
  end.

Definition units_for (key : string) (ev : SourceEvent) (r : Result) : list Unit :=
  map snd (filter (fun ku => ku.1 = key) (result_units ev r)).

Definition result_residue (ev : SourceEvent) (r : Result) : list (N * string) :=
  match r with
  | Partial key _ residue _ => [(event_id ev, "wpl:" +:+ key +:+ ",residue:" +:+ residue)]
  | _ => []
  end.

Definition result_miss (ev : SourceEvent) (r : Result) : list (SourceEvent * ParseFailInfo) :=
  match r with
  | Miss info => if payload_is_whitespace (ev_payload ev) then [] else [(ev, info)]
  | _ => []
  end.

Lemma push_units_lookup us g key :
  default [] (push_units (R := R) g us !! key) = default [] (g !! key) ++ map snd (filter (fun ku => ku.1 = key) us).
Proof.
  unfold push_units. revert g. induction us as [|[k u] us IH]; intros g; cbn [foldl fst snd]; [by rewrite app_nil_r|].
  rewrite IH. unfold push_unit. destruct (decide (k = key)) as [->|Hne].
  - rewrite lookup_insert_eq, filter_cons_True by done. cbn. by rewrite <- app_assoc.
  - rewrite lookup_insert_ne, filter_cons_False by done. done.
Qed.

Lemma add_result_spec (s : ParsedDatSet (T := T) (Hk := Hk) (R := R) (E := E)) ev r :
  (forall key, default [] (sink_groups (add_result s ev r) !! key) = default [] (sink_groups s !! key) ++ units_for key ev r) /\
  residue_data (add_result s ev r) = residue_data s ++ result_residue ev r /\
  missed_packets (add_result s ev r) = missed_packets s ++ result_miss ev r.
Proof.
  unfold units_for. destruct r; cbn [add_result result_units result_residue result_miss sink_groups residue_data missed_packets];
    [| |destruct (payload_is_whitespace _); cbn [sink_groups residue_data missed_packets]];
    (split; [intros k0; rewrite ?push_units_lookup, ?filter_nil; cbn [map]; by rewrite ?app_nil_r|by rewrite ?app_nil_r]).
Qed.

(** The answers of a batch, event by event. *)
Fixpoint batch_answers (setting : ParseOption) (now : nat -> Z) (m : list Pipeline) (i : nat)
    (batch : list SourceEvent) (rs : list (Result)) : Prop :=
  match batch, rs with
  | [], [] => True
  | ev :: batch, r :: rs => event_answer ev setting (now i) m r /\ batch_answers setting now m (S i) batch rs
  | _, _ => False
  end.

Lemma kin_batch_answers setting now i batch rs (m m' : list Pipeline) : Forall2 kin m m' ->
  batch_answers setting now m' i batch rs -> batch_answers setting now m i batch rs.
Proof.
  intros Hm. revert i rs. induction batch as [|ev batch IH]; intros i [|r rs]; cbn; try done.
  intros [Hr Hrs]. split; [by eapply kin_event_answer|by apply IH].
Qed.

Lemma Forall2_kin_trans (a b c : list Pipeline) : Forall2 kin a b -> Forall2 kin b c -> Forall2 kin a c.
Proof.
  intros Hab. revert c. induction Hab as [|x y a b Hxy _ IH]; intros c Hbc; inversion Hbc; subst; constructor;
    [by eapply kin_trans|by apply IH].
Qed.

Lemma parse_batch_spec `{!ProgressLaws} clk now i batch setting (m : list Pipeline) s : engine_wf m ->
  exists rs d m', parse_batch md5_hex clk now i batch setting m s = Ret (d, m') /\ Forall2 kin m m' /\
    batch_answers setting now m i batch rs /\
    (forall key, default [] (sink_groups d !! key) = default [] (sink_groups s !! key) ++ concat (zip_with (units_for key) batch rs)) /\
    residue_data d = residue_data s ++ concat (zip_with result_residue batch rs) /\
    missed_packets d = missed_packets s ++ concat (zip_with result_miss batch rs).
Proof.
  revert clk now i m s. induction batch as [|ev batch IH]; intros clk now i m s Hw; cbn [parse_batch].
  { exists [], s, m. split; [done|]. split; [|cbn; split_and!; [done|intros key|..]; by rewrite app_nil_r].
    clear -Hw. induction Hw as [|p m Hp Hm IHm]; constructor; [|done]. exists (stat_ext p), (hit_cnt p). by destruct p. }
  destruct (parse_event_answer (clk i) (now i) ev setting m Hw) as (r & m1 & -> & Hk1 & Hr). cbn [obind].
  destruct (IH clk now (S i) m1 (add_result s ev r) (kin_wf _ _ Hk1)) as (rs & d & m2 & -> & Hk2 & Hrs & Hg & Hd & Hm).
  exists (r :: rs), d, m2. destruct (add_result_spec s ev r) as (Ag & Ad & Am). cbn [batch_answers zip_with concat].
  split_and!; [done|by eapply Forall2_kin_trans|done|by eapply kin_batch_answers| | |].
  - intros key. by rewrite Hg, Ag, <- app_assoc.
  - by rewrite Hd, Ad, <- app_assoc.
  - by rewrite Hm, Am, <- app_assoc.
Qed.

(** ** The tags of the source *)

(** Exactly the tags the record has no field for are added, behind its fields. *)
Lemma enrich_exact (r : R) (t : T) :
  items (enrich_record_with_tags r t)
  = items r ++ map (fun kv => from_chars kv.1 kv.2)
      (List.filter (fun kv => bool_decide (Forall (fun f => get_name f <> kv.1) (items r))) (materialize_tags t)).
Proof.
  unfold enrich_record_with_tags, materialize_tags. destruct (tags_is_empty t); [by rewrite app_nil_r|].
  assert (forall kv, has_no_field r kv = bool_decide (Forall (fun f => get_name f <> kv.1) (items r))) as Hf.
  { intros kv. unfold has_no_field. rewrite field_first. destruct (filter _ _) as [|f l] eqn:Hl; cbn.
    - rewrite bool_decide_true; [done|]. apply Forall_forall. intros f Hin Heq.
      assert (f ∈ filter (fun f => get_name f = kv.1) (items r)) as Hx by (by apply list_elem_of_filter).
      rewrite Hl in Hx. by apply not_elem_of_nil in Hx.
    - assert (f ∈ filter (fun f => get_name f = kv.1) (items r)) as Hx by (rewrite Hl; left).
      apply list_elem_of_filter in Hx as [Hx1 Hx2]. rewrite bool_decide_false; [done|]. intros Hall.
      rewrite Forall_forall in Hall. by apply (Hall f). }
  rewrite (List.filter_ext _ _ Hf). generalize (List.filter (fun kv => bool_decide (Forall (fun f => get_name f <> kv.1) (items r)))
    (default [] (tags_snapshot t))). intros l.
  assert (forall r0, items (foldl (fun r kv => append r (from_chars kv.1 kv.2)) r0 l)
    = items r0 ++ map (fun kv => from_chars kv.1 kv.2) l) as HH; [|apply HH].
  induction l as [|kv l IH]; intros r0; cbn; [by rewrite app_nil_r|]. rewrite IH, append_items. by rewrite <- app_assoc.
Qed.

(** ** The layers of the rules *)

Definition layered (m : list Pipeline) : Prop :=
  exists a b, m = a ++ b /\ Forall (fun p => late p = false) a /\ Forall (fun p => late p = true) b.

Lemma layered_pairs (m : list Pipeline) :
  StronglySorted (fun x y => late x = true -> late y = true) m -> layered m.
Proof.
  induction 1 as [|x m Hm (a & b & -> & Ha & Hb) Hx]; [by exists [], []|]. destruct (late x) eqn:Hl.
  - exists [], (x :: a ++ b). split; [done|]. split; [constructor|]. constructor; [done|].
    eapply Forall_impl; [exact Hx|]. intros y Hy. by apply Hy.
  - exists (x :: a), b. split; [done|]. split; [by constructor|done].
Qed.

Lemma layered_ordered ltb (m : list Pipeline) :
  (forall x y : Pipeline, late x = true -> late y = false -> ltb y x = true) ->
  ordered ltb m -> layered m.
Proof.
  intros Hltb Hm. apply layered_pairs. induction Hm as [|x m Hm IH Hx]; constructor; [done|].
  eapply Forall_impl; [exact Hx|]. intros y Hxy Hl. cbn in Hxy. destruct (late y) eqn:Hy; [done|].
  by rewrite (Hltb x y Hl Hy) in Hxy.
Qed.

Ltac order_cases := unfold late_rank in *; repeat match goal with
  | H : context [if ?b then _ else _] |- _ => destruct b
  | |- context [if ?b then _ else _] => destruct b
  end; lia.

Lemma initial_asym (x y : Pipeline) : initial_order_ltb x y = true -> initial_order_ltb y x = false.
Proof. unfold initial_order_ltb. order_cases. Qed.
Lemma initial_ntrans (x y z : Pipeline) :
  initial_order_ltb x y = false -> initial_order_ltb y z = false -> initial_order_ltb x z = false.
Proof. unfold initial_order_ltb. order_cases. Qed.
Lemma match_asym (x y : Pipeline) : match_order_ltb x y = true -> match_order_ltb y x = false.
Proof. unfold match_order_ltb. order_cases. Qed.
Lemma match_ntrans (x y z : Pipeline) :
  match_order_ltb x y = false -> match_order_ltb y z = false -> match_order_ltb x z = false.
Proof. unfold match_order_ltb. order_cases. Qed.

Lemma new_layered (ps : list Pipeline) : layered (MultiParser_new ps).
Proof.
  apply (layered_ordered initial_order_ltb).
  - intros x y Hx Hy. unfold initial_order_ltb, late_rank. by rewrite Hx, Hy.
  - apply stable_sort_ordered; [apply initial_asym|apply initial_ntrans].
Qed.

(** A re-ordering sorts by the layer, the hits and the declaration, and starts
    a new count. *)
Lemma optimized_sorts (m : list Pipeline) : exists l, l ≡ₚ m /\ ordered match_order_ltb l /\
  optimized m = map (fun p => set_hit p 0) l.
Proof.
  exists (stable_sort match_order_ltb m). split; [apply stable_sort_perm|].
  split; [apply stable_sort_ordered; [apply match_asym|apply match_ntrans]|by destruct m].
Qed.

Lemma map_layered (f : Pipeline -> Pipeline) m : (forall p, late (f p) = late p) -> layered m -> layered (map f m).
Proof.
  intros Hf (a & b & -> & Ha & Hb). exists (map f a), (map f b). rewrite map_app. split; [done|].
  split; apply Forall_map; [eapply Forall_impl; [exact Ha|]|eapply Forall_impl; [exact Hb|]]; intros p; cbn; by rewrite Hf.
Qed.

Lemma optimized_layered (m : list Pipeline) : layered (optimized m).
Proof.
  destruct (optimized_sorts m) as (l & _ & Hl & ->). apply map_layered; [done|].
  apply (layered_ordered match_order_ltb); [|done]. intros x y Hx Hy. unfold match_order_ltb, late_rank. by rewrite Hx, Hy.
Qed.

Lemma kin_layered (m m' : list Pipeline) : Forall2 kin m m' -> layered m -> layered m'.
Proof.
  intros Hm (a & b & -> & Ha & Hb). apply Forall2_app_inv_l in Hm as (a' & b' & Ha' & Hb' & ->).
  assert (forall c l l', Forall2 kin l l' -> Forall (fun p : Pipeline => late p = c) l -> Forall (fun p => late p = c) l') as HH.
  { intros c l l'. induction 1 as [|p p' l l' (st & n & -> & _) _ IH]; [done|]. intros [Hp Hl]%Forall_cons. constructor; auto. }
  exists a', b'. split; [done|]. by split; eapply HH.
Qed.

(** What a worker does to its rules: it matches an event or re-orders them. *)
Inductive RuleOp := Match (clk : nat -> nat -> nat -> Measure.Clock) (now : Z) (ev : SourceEvent) (setting : ParseOption) | Reorder.

Fixpoint run_rules (ops : list RuleOp) (m : list Pipeline) : outcome (list Pipeline) :=
  match ops with
  | [] => Ret m
  | Match clk now ev setting :: ops =>
      let! (_, m) := parse_event md5_hex clk now ev setting m in run_rules ops m
  | Reorder :: ops => run_rules ops (optimized m)
  end.

Definition rule_names (m : list Pipeline) : list string := map wpl_key m.

Lemma kin_names (m m' : list Pipeline) : Forall2 kin m m' -> rule_names m' = rule_names m.
Proof. unfold rule_names. induction 1 as [|p p' m m' (st & n & -> & _) _ IH]; [done|]. cbn. by rewrite IH. Qed.

Lemma optimized_wf (m : list Pipeline) : engine_wf m -> engine_wf (optimized m).
Proof.
  intros Hw. destruct (optimized_sorts m) as (l & Hl & _ & ->). apply Forall_map. unfold engine_wf in Hw.
  rewrite <- Hl in Hw. exact Hw.
Qed.

Lemma optimized_names (m : list Pipeline) : rule_names (optimized m) ≡ₚ rule_names m.
Proof.
  destruct (optimized_sorts m) as (l & Hl & _ & ->). unfold rule_names. rewrite map_map. cbn. by rewrite Hl.
Qed.

Lemma run_rules_layered `{!ProgressLaws} ops (m : list Pipeline) : engine_wf m -> layered m ->
  exists m', run_rules ops m = Ret m' /\ layered m' /\ rule_names m' ≡ₚ rule_names m.
Proof.
  revert m. induction ops as [|[clk now ev setting|] ops IH]; intros m Hw Hl; cbn [run_rules].
  - by exists m.
  - destruct (parse_event_answer clk now ev setting m Hw) as (r & m1 & -> & Hkin & _). cbn [obind].
    destruct (IH m1 (kin_wf _ _ Hkin) (kin_layered _ _ Hkin Hl)) as (m' & -> & Hl' & Hn).
    exists m'. by rewrite Hn, (kin_names _ _ Hkin).
  - destruct (IH (optimized m) (optimized_wf _ Hw) (optimized_layered m)) as (m' & -> & Hl' & Hn).
    exists m'. by rewrite Hn, optimized_names.
Qed.

(** ** Sending *)

Context `{!EndsLaws}.
Variable mode : RobustnessMode.
Variable time_text : Z -> string.
Variable hm_iter : gmap string (list Unit) -> list (string * list Unit).

Notation Engine := (WplEngine (Ev := Ev) (An := An)).
Notation Parsed := (ParsedDatSet (T := T) (Hk := Hk) (R := R) (E := E)).

(** [us] if the channel is the one looked at. *)
Definition at_chan (n k : nat) (us : list Unit) : list Unit := if bool_decide (k = n) then us else [].

Lemma at_chan_app n k us vs : at_chan n k (us ++ vs) = at_chan n k us ++ at_chan n k vs.
Proof. unfold at_chan. by case_bool_decide. Qed.

Definition sent_more (s s' : Net) (d : nat -> list Unit) : Prop :=
  forall k, sent (world s') k = sent (world s) k ++ d k.

Lemma sent_more_trans s1 s2 s3 d1 d2 : sent_more s1 s2 d1 -> sent_more s2 s3 d2 ->
  sent_more s1 s3 (fun k => d1 k ++ d2 k).
Proof. intros H1' H2' k. by rewrite H2', H1', <- app_assoc. Qed.

Lemma sender_try_send_spec n u (s : Net) :
  match sender_try_send n u s with
  | (Sended, s') => sent_more s s' (fun k => at_chan n k [u])
  | (Fulfilled i d, s') => i = id u /\ d = DRec (meta u) (data u) /\ sent_more s s' (fun _ => [])
  | (SendErr e, s') => e = SinkFailed /\ sent_more s s' (fun _ => [])
  end.
Proof.
  unfold sender_try_send. pose proof (try_send_sent n [u] (world s)) as Ht.
  destruct (chan_try_send n [u] (world s)) as [[] w]; unfold sent_more; cbn; split_and?; try done;
    intros k; rewrite Ht; by rewrite ?app_nil_r.
Qed.

(** The channel is open: an awaited send arrives, a refused one is refused
    because the channel is full. *)
Definition always_open : Prop :=
  (forall n us w, (chan_send n us w).1 = true) /\ (forall n us w, (chan_try_send n us w).1 <> Collectors.Closed).

(** The channel has room after at most [fuel] attempts. *)
Fixpoint accepts (fuel : nat) (n : nat) (us : list Unit) (w : W) : bool :=
  match fuel with
  | O => false
  | S fuel => match chan_try_send n us w with (Collectors.Sent, _) => true | (_, w) => accepts fuel n us (idle w) end
  end.

Lemma forward_spec fuel n agent i (d : SinkData (R := R)) u (s : Net) : always_open ->
  end_point agent = Channel n -> accepts fuel n [u] (world s) = true ->
  (d = DRec (meta u) (data u) /\ i = id u \/ exists raw, d = DRaw raw /\ u = raw_unit i raw) ->
  exists s', forward_raw_to_infra (An := An) (E := E) mode fuel agent i d s = Done tt s' /\
    sent_more s s' (fun k => at_chan n k [u]).
Proof.
  intros [_ Hopen] Ha. revert i d s. induction fuel as [|fuel IH]; intros i d s Hacc Hd; [done|].
  cbn [forward_raw_to_infra accepts] in *.
  assert (exists i0, (match d with
     | DRaw body => Some (try_send_raw (end_point agent) i body s)
     | DRec m record => Some (try_send_to_sink (end_point agent) (mkUnit i m record) s)
     | DFfv => None end) = Some (sender_try_send n u s) /\ i0 = id u) as (i0 & -> & _).
  { rewrite Ha. destruct Hd as [[-> ->]|(raw & -> & ->)]; [|by eexists]. exists (id u). split; [|done]. by destruct u. }
  pose proof (sender_try_send_spec n u s) as Hs. unfold sender_try_send in *. specialize (Hopen n [u] (world s)).
  destruct (chan_try_send n [u] (world s)) as [[] w]; [by eexists| |done].
  destruct Hs as (_ & _ & Hs). cbn [world count set_world].
  match goal with |- context [forward_raw_to_infra mode fuel agent ?i' ?d' ?s'] =>
    destruct (IH i' d' s' Hacc (or_introl (conj eq_refl eq_refl))) as (s2 & -> & Hs2) end.
  exists s2. split; [done|]. intros k. rewrite (Hs2 k). cbn [world set_world]. rewrite idle_sent. specialize (Hs k). cbn in Hs. by rewrite Hs, app_nil_r.
Qed.

Lemma send_raws_spec fuel n agent l (s : Net) : always_open -> end_point agent = Channel n ->
  (forall us w, accepts fuel n us w = true) ->
  exists s', send_raws (An := An) (E := E) mode fuel agent l s = Done tt s' /\
    sent_more s s' (fun k => at_chan n k (map (fun x => raw_unit x.1 x.2) l)).
Proof.
  intros Ho Ha Hacc. revert s. induction l as [|[i raw] l IH]; intros s; cbn [send_raws map].
  { exists s. split; [done|]. intros k. unfold at_chan. destruct (bool_decide _); by rewrite app_nil_r. }
  destruct (forward_spec fuel n agent i (DRaw raw) (raw_unit i raw) s Ho Ha (Hacc _ _)
    (or_intror (ex_intro _ raw (conj eq_refl eq_refl)))) as (s1 & -> & Hs1).
  destruct (IH s1) as (s2 & E2 & Hs2). exists s2. split; [exact E2|].
  intros k. rewrite (Hs2 k), (Hs1 k), <- app_assoc. f_equal. by rewrite <- at_chan_app.
Qed.

(** Every way out of every rule is a channel. *)
Definition channel_outputs (m : list Pipeline) : Prop :=
  Forall (fun p => output p <> [] /\ Forall (fun a => exists n, end_point a = Channel n) (output p)) m.

Definition rule_of (m : list Pipeline) (key : string) : option Pipeline := List.find (fun p => String.eqb (wpl_key p) key) m.

(** The groups that are sent: not empty and of a rule of the engine. *)
Definition routable (m : list Pipeline) (g : string * list Unit) : bool :=
  match g.2 with [] => false | _ => match rule_of m g.1 with Some _ => true | None => false end end.

(** Where a group went: one of its rule's outputs, under the rule's name. *)
Definition routed_to (m : list Pipeline) (g : string * list Unit) (rt : nat * list Unit) : Prop :=
  exists p a, rule_of m g.1 = Some p /\ a ∈ output p /\ end_point a = Channel rt.1 /\ rt.2 = update_meta (WplName g.1) g.2.

Definition arrived (routed : list (nat * list Unit)) (k : nat) : list Unit :=
  concat (map (fun rt => at_chan rt.1 k rt.2) routed).

Lemma rolled_end_channel (p : Pipeline) (s : Net) : output p <> [] ->
  Forall (fun a => exists n, end_point a = Channel n) (output p) ->
  exists n a s', get_rolled_end p s = Ret (Channel n, s') /\ a ∈ output p /\ end_point a = Channel n /\ world s' = world s.
Proof.
  intros Hne Hall. unfold get_rolled_end, next_output_index.
  assert (0 < zlen (output p)) as Hlen by (unfold zlen; destruct (output p); [done|cbn; lia]).
  destruct (zlen (output p) =? 0) eqn:Hz; [lia|]. cbn [obind].
  assert (is_Some (output p !! Z.to_nat (rr s (send_rr p) mod zlen (output p)))) as [a Ea].
  { apply lookup_lt_is_Some. pose proof (Z.mod_pos_bound (rr s (send_rr p)) _ Hlen). unfold zlen in *. lia. }
  rewrite Ea. assert (a ∈ output p) as Hin by (by eapply list_elem_of_lookup_2).
  rewrite Forall_forall in Hall. destruct (Hall a Hin) as [n Hn]. rewrite Hn. by do 3 eexists.
Qed.

Lemma send_groups_spec m groups (s : Net) : always_open -> channel_outputs m ->
  exists routed s', send_groups (E := E) mode m groups s = Done tt s' /\
    Forall2 (routed_to m) (List.filter (routable m) groups) routed /\ sent_more s s' (arrived routed).
Proof.
  intros Ho Hm. revert s. induction groups as [|[key [|u us]] groups IH]; intros s; cbn [send_groups List.filter].
  - exists [], s. split; [done|]. split; [constructor|]. intros k. by rewrite app_nil_r.
  - apply IH.
  - unfold routable at 1, rule_of. cbn [fst snd]. destruct (List.find _ m) as [p|] eqn:Hp; [|apply IH].
    pose proof (List.find_some _ _ Hp) as [Hin%list_elem_of_In _].
    unfold channel_outputs in Hm. rewrite Forall_forall in Hm. destruct (Hm p Hin) as [Hne Hall].
    destruct (rolled_end_channel p s Hne Hall) as (n & a & s1 & -> & Hao & Han & Hw).
    unfold sink_batch. cbn [update_meta map]. set (pkg := mkUnit (id u) _ _ :: _).
    destruct Ho as [Hsend Htry]. pose proof (Hsend n pkg (world s1)) as Ht. pose proof (chan_send_sent n pkg (world s1)) as Hs.
    destruct (chan_send n pkg (world s1)) as [b w]. cbn in Ht. subst b. cbn [fbind].
    destruct (IH (set_world s1 w)) as (routed & s' & -> & Hr & Hs').
    exists ((n, pkg) :: routed), s'. split; [done|]. split.
    + constructor; [|done]. exists p, a. unfold rule_of. cbn [fst snd]. by rewrite Hp.
    + intros k. rewrite (Hs' k). cbn [world set_world]. rewrite Hs, Hw, <- app_assoc. done.
Qed.

Definition raw_units (l : list (N * string)) : list Unit := map (fun x => raw_unit x.1 x.2) l.
Definition miss_texts (l : list (SourceEvent * ParseFailInfo (E := E))) : list (N * string) :=
  map (fun m => (event_id m.1, miss_text m.1 (format_error (An := An) (R := R) (Pg := Pg) time_text m.2))) l.

(** ** What the engine does against its intent *)

(** A full file, buffer or view: the record is dropped and the batch goes on as
    if it had been sent. *)
Lemma full_store_drops n us (s : Net) :
  (forall u w, exists i d w', store_try_send n u w = (Fulfilled i d, w')) ->
  exists s', sink_batch (An := An) (E := E) mode (Storage (EpStore n)) us s = Done tt s'.
Proof.
  intros Hfull. destruct us as [|u us]; [by eexists|]. unfold sink_batch. generalize (u :: us). clear u us. intros us.
  revert s. induction us as [|u us IH]; intros s; [by eexists|]. cbn [sink_units]. unfold try_send_record, try_send_to_sink.
  match goal with |- context [store_try_send n ?x ?w] => destruct (Hfull x w) as (i & d & w' & ->) end. apply IH.
Qed.

(** A match that is discarded because too much of the event is left over counts
    as a hit of its rule all the same. *)
Lemma incomplete_match_hits clk now ev setting (p : Pipeline) r un sides pg : mc_wf (stat_ext p) -> auto_match p = true ->
  attempt p ev = (inl (r, un, sides), pg) -> raw_is_empty un = false -> raw_len (ev_payload ev) < raw_len un * 5 ->
  exists info p', parse_event md5_hex clk now ev setting [p] = Ret (Miss info, [p']) /\ hit_cnt p' = wrap_add 64 (hit_cnt p) 1.
Proof.
  intros Hw Ha Hatt Hun Hlen. unfold parse_event. cbn [parse_loop length]. rewrite Ha. cbn [negb].
  destruct (proc_attempt (clk 0%nat) p ev Hw) as (p' & -> & st & -> & _). rewrite Hatt. cbn [obind fst snd].
  rewrite Hun. apply Z.ltb_lt in Hlen. rewrite Hlen. cbn. by do 2 eexists.
Qed.

(** ** Properties *)

Lemma proc_batch_spec `{!ProgressLaws} clk now fuel batch setting (e : Engine) (s : Net)
  (Hw : engine_wf (pipelines e)) (Hopen : always_open) (Hout : channel_outputs (pipelines e))
  (Hiter : forall g, hm_iter g ≡ₚ map_to_list g) nm nr
  (Hmiss : end_point (i_miss (infra_agent e)) = Channel nm) (Hres : end_point (i_residue (infra_agent e)) = Channel nr)
  (Hroom : forall n us w, accepts fuel n us w = true) :
  exists rs (groups : gmap string (list Unit)) routed s' e',
    proc_batch md5_hex mode time_text hm_iter clk now fuel false batch setting e s = (Done tt s', e') /\
    batch_answers setting now (pipelines e) 0 batch rs /\
    (forall key, default [] (groups !! key) = concat (zip_with (units_for key) batch rs)) /\
    Forall2 (routed_to (pipelines e')) (List.filter (routable (pipelines e')) (hm_iter groups)) routed /\
    Forall2 kin (pipelines e) (pipelines e') /\
    sent_more s s' (fun k =>
      at_chan nm k (raw_units (miss_texts (concat (zip_with result_miss batch rs))))
      ++ at_chan nr k (raw_units (concat (zip_with result_residue batch rs)))
      ++ arrived routed k).
Proof.
  destruct batch as [|ev batch].
  - exists [], ∅, [], s, e. split; [done|]. split; [done|]. split; [done|].
    pose proof (Hiter ∅) as Hi. rewrite map_to_list_empty in Hi. apply Permutation_nil_r in Hi. rewrite Hi.
    split; [constructor|]. split; [|intros k; unfold at_chan; repeat case_bool_decide; by rewrite !app_nil_r].
    clear -Hw. induction Hw as [|p m Hp Hm IHm]; constructor; [|done]. exists (stat_ext p), (hit_cnt p). by destruct p.
  - cbn [proc_batch]. unfold batch_parse_package.
    destruct (parse_batch_spec clk now 0 (ev :: batch) setting (pipelines e) (mkSet ∅ [] []) Hw)
      as (rs & d & m' & -> & Hkin & Hrs & Hg & Hd & Hm).
    unfold send_batched_data, send_miss_packets, send_residue_data. cbn [infra_agent].
    destruct (send_raws_spec fuel nm (i_miss (infra_agent e)) (miss_texts (missed_packets d)) s) as (s1 & E1 & Hs1); [done..|].
    unfold miss_texts in E1. rewrite E1. cbn [fbind].
    destruct (send_raws_spec fuel nr (i_residue (infra_agent e)) (residue_data d) s1) as (s2 & -> & Hs2); [done..|]. cbn [fbind].
    assert (channel_outputs m') as Hout'.
    { clear -Hkin Hout. induction Hkin as [|p p' m m' (st & n & -> & _) _ IH]; [constructor|].
      apply Forall_cons in Hout as [Hp Hm]. constructor; [done|by apply IH]. }
    destruct (send_groups_spec m' (hm_iter (sink_groups d)) s2 Hopen Hout') as (routed & s3 & E3 & Hr & Hs3).
    exists rs, (sink_groups d), routed, s3, (mkEngine m' (infra_agent e)).
    split; [unfold send_to_sink_groups; cbn [pipelines]; by rewrite E3|]. split; [done|]. split; [intros key; by rewrite Hg|].
    split; [done|]. split; [done|]. rewrite Hm in Hs1. rewrite Hd in Hs2. cbn [missed_packets residue_data app] in *.
    intros k. by rewrite (Hs3 k), (Hs2 k), (Hs1 k), <- !app_assoc.
Qed.

(** C6: An event is given to the first rule that takes it, in the order of the
    rules, whole or with what is left over.  A rule that may not be matched is
    passed over.  If the very first rule fails other than by the data, the event
    misses at once.  Otherwise, when no rule takes it, the miss is blamed on
    the rule that got deepest, the earliest of them among equals. *)
Theorem parse_event_blames_deepest `{!ProgressLaws} clk now ev setting (m : list Pipeline) (Hw : engine_wf m) :
  exists r m', parse_event md5_hex clk now ev setting m = Ret (r, m') /\ Forall2 kin m m' /\
  match tried m with
  | [] => r = Miss (mkFail "" (to_err (ParseUvs SystemError)) (consumed (progress_default (An := An) (R := R))) now)
  | first :: _ =>
      match verdict first ev with
      | Refuses e => r = Miss (mkFail (wpl_key first) e (consumed (progress_of first ev)) now)
      | _ =>
          match List.find (takes ev) (tried m) with
          | Some q => answer q ev setting r
          | None => exists pre q post e, deepest ev m pre q post e /\
                      r = Miss (mkFail (wpl_key q) e (consumed (progress_of q ev)) now)
          end
      end
  end.
Proof. exact (parse_event_answer clk now ev setting m Hw). Qed.

(** Late rules stay behind the others: whatever sequence of events and
    re-orderings a worker goes through, it ends with all its rules, those that
    are not late first, and a re-ordering sorts each layer by hits. *)
Theorem late_rules_last `{!ProgressLaws} ops (ps : list Pipeline) (Hw : engine_wf ps) :
  exists m, run_rules ops (MultiParser_new ps) = Ret m /\ layered m /\ rule_names m ≡ₚ rule_names ps /\
  exists l, l ≡ₚ m /\ ordered match_order_ltb l /\ optimized m = map (fun p => set_hit p 0) l.
Proof.
  assert (MultiParser_new ps ≡ₚ ps) as Hp by apply stable_sort_perm.
  destruct (run_rules_layered ops (MultiParser_new ps)) as (m & E1 & Hl & Hn).
  - unfold engine_wf. by rewrite Hp.
  - apply new_layered.
  - exists m. split; [exact E1|]. split; [done|]. split; [|apply optimized_sorts].
    rewrite Hn. unfold rule_names. by rewrite Hp.
Qed.

(** When the ends of the sinks are open channels that have room after a
    while, a batch ends with every event delivered: each miss that is not blank
    as a text to the miss sink, each rest as a text to the residue sink, and
    the records of each rule of the engine, in the order of their events, to
    one of that rule's outputs and nowhere else. *)
Theorem proc_batch_delivers `{!ProgressLaws} clk now fuel batch setting (e : Engine) (s : Net)
  (Hw : engine_wf (pipelines e)) (Hopen : always_open) (Hout : channel_outputs (pipelines e))
  (Hiter : forall g, hm_iter g ≡ₚ map_to_list g) nm nr
  (Hmiss : end_point (i_miss (infra_agent e)) = Channel nm) (Hres : end_point (i_residue (infra_agent e)) = Channel nr)
  (Hroom : forall n us w, accepts fuel n us w = true) :
  exists rs (groups : gmap string (list Unit)) routed s' e',
    proc_batch md5_hex mode time_text hm_iter clk now fuel false batch setting e s = (Done tt s', e') /\
    batch_answers setting now (pipelines e) 0 batch rs /\
    (forall key, default [] (groups !! key) = concat (zip_with (units_for key) batch rs)) /\
    Forall2 (routed_to (pipelines e')) (List.filter (routable (pipelines e')) (hm_iter groups)) routed /\
    Forall2 kin (pipelines e) (pipelines e') /\
    sent_more s s' (fun k =>
      at_chan nm k (raw_units (miss_texts (concat (zip_with result_miss batch rs))))
      ++ at_chan nr k (raw_units (concat (zip_with result_residue batch rs)))
      ++ arrived routed k).
Proof. by apply proc_batch_spec. Qed.

(** A closed miss sink costs the batch: as soon as one event misses, the
    worker ends with an error and no record of the batch is sent. *)
Theorem closed_miss_end_loses_batch clk now fuel skip (batch : list SourceEvent) setting (e : Engine) (s : Net) d m nm
  (Hparse : batch_parse_package md5_hex clk now batch setting (pipelines e) = Ret (d, m))
  (Hmissed : missed_packets d <> [])
  (Hmiss : end_point (i_miss (infra_agent e)) = Channel nm)
  (Hclosed : forall us, (chan_try_send nm us (world s)).1 = Collectors.Closed) :
  exists s' e', proc_batch md5_hex mode time_text hm_iter clk now (S fuel) skip batch setting e s
    = (Fails (to_err (ParseUvs SystemError)) s', e') /\ sent_more s s' (fun _ => []).
Proof.
  destruct batch as [|ev batch]; [by injection Hparse as <- <-|]. cbn [proc_batch]. rewrite Hparse.
  unfold send_batched_data, send_miss_packets. destruct (missed_packets d) as [|[x f] l]; [done|]. cbn [map send_raws].
  cbn [forward_raw_to_infra infra_agent]. rewrite Hmiss. cbn [try_send_raw try_send_to_sink]. unfold sender_try_send.
  match goal with |- context [chan_try_send nm ?us _] => pose proof (try_send_sent nm us (world s)) as Hs; specialize (Hclosed us);
    destruct (chan_try_send nm us (world s)) as [r w] end.
  cbn in Hclosed. subst r. unfold handle_try_send_status. cbn. do 2 eexists. split; [reflexivity|].
  intros k. cbn. by rewrite Hs, app_nil_r.
Qed.

End Laws.
