(* ===== verification/WplEngineInst.v ===== *)
(** A concrete parse engine: records as lists, rules as functions of the text,
    channels as lists of units; the theorems of [WplEngineLaws] hold on it. *)
From Stdlib Require Import ZArith Lia String Ascii.
From stdpp Require Import prelude strings gmap pretty.
From S2P Require Import Prelude F64 Text Utf8 DataModel ErrPolicy Picker SinkRuntime Tags Stats StatsLaws Metrics MetricsLaws Dispatcher WplEngine WplEngineLaws.
Local Open Scope string_scope.
Local Open Scope list_scope.
Local Open Scope Z_scope.

#[local] Existing Instances list_types list_api list_laws.
#[local] Existing Instance Dim.StatDim_eq_dec.
#[local] Instance demo_lru : Coll.LruApi Dim.StatDim Slice.SliceRecord := list_lru.
#[local] Instance demo_coll : Coll.CollApi := merge_coll.

Notation VField := (string * Value)%type.
Notation VRec := (list VField).

Definition demo_record_api : RecordApi VField VRec := {|
  record_from l := l; record_default := [];
  set_id r n := r ++ [("wp_event_id", IntV (Z.of_N n))];
  from_ip k a := (k, OtherV 0);
  field_text r k := match field r k with Some (_, Chars s) => Some s | _ => None end
|}.
#[local] Existing Instance demo_record_api.

Lemma demo_record_laws : RecordLaws (F := VField) (R := VRec).
Proof.
  split; try done.
  - intros r n. cbn. rewrite filter_app, filter_cons_True by done. by destruct (filter _ r).
  - intros r n k Hk. cbn. rewrite filter_app, filter_cons_False by (cbn; congruence). by rewrite app_nil_r.
Qed.

#[local] Instance demo_tags : TagsApi (list (string * string)) :=
  {| tags_is_empty t := bool_decide (t = []); tags_iter t := t; tags_snapshot t := Some t |}.

(** A rule reads its keyword: [consumed] of 100, what was read. *)
Inductive DemoRule := Keyword (w : string) | Broken.

Definition demo_proc (r : DemoRule) (d : RawData) : (VRec * string + WparseReason) * nat :=
  match d, r with
  | RawString s, Keyword w =>
      if String.prefix w s then (inl ([("word", Chars w)], substring (String.length w) (String.length s) s), String.length s)
      else if String.prefix (substring 0 1 w) s then (inr (ParseUvs DataError), 1%nat)
      else (inr (ParseUvs DataError), 0%nat)
  | _, _ => (inr ParseNotMatch, 0%nat)
  end.

#[local] Instance demo_wpl : WplApi DemoRule unit WparseReason nat VRec := {|
  proc_ref_progress r _ d _ := demo_proc r d; consumed n := Z.of_nat n; progress_default := 0%nat;
  is_deeper_than a b := Nat.ltb b a; ann_proc _ _ r := (inl [], r); reason e := e; to_err e := e; err_text e := "error"
|}.

Lemma demo_progress_laws : ProgressLaws (Ev := DemoRule) (An := unit) (E := WparseReason) (R := VRec).
Proof.
  split; cbn -[Nat.ltb].
  - intros p. apply Nat.ltb_irrefl.
  - intros p q r. rewrite !Nat.ltb_lt. lia.
  - intros p q r. rewrite !Nat.ltb_ge. lia.
Qed.
#[local] Existing Instance demo_progress_laws.

Notation VUnit := (SinkRecUnit (R := VRec)).

(** Channels are unbounded and open, but for those [closed] names; files are
    full. *)
Definition DemoWorld : Type := nat -> list VUnit.
Definition put_in (n : nat) (us : list VUnit) (w : DemoWorld) : DemoWorld :=
  fun k => w k ++ (if bool_decide (k = n) then us else []).

Definition demo_ends (closed : nat -> bool) : Ends (R := VRec) DemoWorld := {|
  chan_try_send n us w := if closed n then (Collectors.Closed, w) else (Collectors.Sent, put_in n us w);
  chan_send n us w := if closed n then (false, w) else (true, put_in n us w);
  debug_send _ _ w := (Collectors.Sent, w);
  store_try_send _ u w := (Fulfilled (id u) (DRec (meta u) (data u)), w);
  idle w := w; sent w k := w k
|}.

Lemma demo_ends_laws closed : EndsLaws (H := demo_ends closed).
Proof. split; [| |done..]; intros n us w; cbn; by destruct (closed n). Qed.

Definition all_open := demo_ends (fun _ => false).
Definition one_closed := demo_ends (fun n => Nat.eqb n 1).
#[local] Instance all_open_laws : EndsLaws (H := all_open) := demo_ends_laws _.
#[local] Instance one_closed_laws : EndsLaws (H := one_closed) := demo_ends_laws _.

(** ** An engine of two rules *)

Notation VPipeline := (WplPipeline (Ev := DemoRule) (An := unit)).

Definition demo_rule (i : Z) (key : string) (r : DemoRule) (out : SinkTerminal) : VPipeline :=
  WplPipeline_new i key "pkg" key [] r [mkAgent "g" out] (Z.to_nat i) [].

Definition demo_rules (out : SinkTerminal) : list VPipeline :=
  [demo_rule 0 "pkg/get" (Keyword "GET /x") out; demo_rule 1 "pkg/got" (Keyword "GOT!") out].

Definition demo_infra (miss residue : nat) : InfraSinkAgent :=
  mkInfra (mkAgent "default" BlackHole) (mkAgent "miss" (Channel miss)) (mkAgent "residue" (Channel residue))
    (mkAgent "moni" BlackHole) (mkAgent "error" BlackHole).

Definition demo_engine (miss : nat) : WplEngine := mkEngine (demo_rules (Channel 3)) (demo_infra miss 2).

Definition demo_event (i : N) (s : string) : SourceEvent (list (string * string)) unit :=
  mkSourceEvent i "src" (RawString s) [("env", "test")] None None.

Definition demo_net : Net DemoWorld := mkNet (fun _ => []) (fun _ => 0) (fun _ => 0) (fun _ => 0).
Definition demo_clk (a b c : nat) : Measure.Clock := Measure.mkClock 0 0 0.
Definition demo_md5 (d : RawData) : string := "md5".
Definition demo_option : ParseOption := ParseOption_new true false.

Lemma demo_rules_wf out : engine_wf (demo_rules out).
Proof. repeat constructor; apply mc_new_wf. Qed.

(** "Gx": both rules read one byte, and the first is blamed. *)
Lemma parse_event_blames_deepest_witness :
  engine_wf (demo_rules BlackHole) /\
  exists r m', parse_event demo_md5 demo_clk 7 (demo_event 1 "Gx") demo_option (demo_rules BlackHole) = Ret (r, m')
    /\ Forall2 kin (demo_rules BlackHole) m' /\ r = Miss (mkFail "pkg/get" (ParseUvs DataError) 1 7).
Proof.
  split; [apply demo_rules_wf|].
  destruct (parse_event_blames_deepest demo_md5 demo_clk 7 (demo_event 1 "Gx") demo_option
    (demo_rules BlackHole) (demo_rules_wf _)) as (r & m' & E1 & Hk & _).
  exists r, m'. split; [exact E1|]. split; [exact Hk|]. injection E1 as <- _. reflexivity.
Defined.

Lemma late_rules_last_witness :
  let ps := [set_flags (demo_rule 0 "pkg/any" (Keyword "G") BlackHole) true true; demo_rule 1 "pkg/get" (Keyword "GET /x") BlackHole] in
  engine_wf ps /\
  exists m, run_rules demo_md5 [Match demo_clk 0 (demo_event 1 "GET /x!") demo_option; Reorder] (MultiParser_new ps) = Ret m
    /\ layered m /\ rule_names m ≡ₚ ["pkg/any"; "pkg/get"].
Proof.
  intros ps. assert (engine_wf ps) as Hw by (repeat constructor; apply mc_new_wf). split; [exact Hw|].
  destruct (late_rules_last demo_md5 [Match demo_clk 0 (demo_event 1 "GET /x!") demo_option; Reorder] ps Hw)
    as (m & E1 & Hl & Hn & _). exists m. by split_and!.
Defined.

Definition demo_batch : list (SourceEvent (list (string * string)) unit) :=
  [demo_event 1 "GET /x"; demo_event 2 "Gx"; demo_event 3 "  "; demo_event 4 "GET /x!"].

Definition demo_iter (g : gmap string (list VUnit)) : list (string * list VUnit) := map_to_list g.

(** One record whole, one miss, one blank event and one read with a rest. *)
Lemma proc_batch_delivers_witness :
  exists s' e', proc_batch (Ends0 := all_open) demo_md5 Normal (fun _ => "now") demo_iter (fun _ => demo_clk) (fun _ => 0) 1 false
      demo_batch demo_option (demo_engine 1) demo_net = (Done tt s', e')
    /\ Forall2 kin (pipelines (demo_engine 1)) (pipelines e').
Proof.
  destruct (proc_batch_delivers (Ends0 := all_open) demo_md5 Normal (fun _ => "now") demo_iter (fun _ => demo_clk) (fun _ => 0) 1
    demo_batch demo_option (demo_engine 1) demo_net) with (nm := 1%nat) (nr := 2%nat)
    as (rs & groups & routed & s' & e' & E1 & _ & _ & _ & Hk & _).
  - apply demo_rules_wf.
  - split; [done|]. intros n us w. discriminate.
  - repeat constructor; try discriminate; by eexists.
  - done.
  - reflexivity.
  - reflexivity.
  - done.
  - exists s', e'. split; [exact E1|exact Hk].
Defined.

Definition demo_parsed := batch_parse_package demo_md5 (fun _ => demo_clk) (fun _ => 0) demo_batch demo_option (demo_rules (Channel 3)).

Lemma closed_miss_end_loses_batch_witness :
  exists s' e', proc_batch (Ends0 := one_closed) demo_md5 Normal (fun _ => "now") demo_iter (fun _ => demo_clk) (fun _ => 0) 1 false
      demo_batch demo_option (demo_engine 1) demo_net = (Fails (ParseUvs SystemError) s', e')
    /\ sent_more (Ends0 := one_closed) demo_net s' (fun _ => []).
Proof.
  destruct demo_parsed as [[d m]|] eqn:Ep; [|discriminate].
  apply (closed_miss_end_loses_batch (Ends0 := one_closed) demo_md5 Normal (fun _ => "now") demo_iter (fun _ => demo_clk) (fun _ => 0)
    0 false demo_batch demo_option (demo_engine 1) demo_net d m 1 Ep).
  - assert (length (missed_packets d) = 1%nat) as Hl.
    { change (length (missed_packets d)) with (match Ret (d, m) with Ret x => length (missed_packets x.1) | Panic => 0%nat end).
      rewrite <- Ep. vm_compute. reflexivity. }
    destruct (missed_packets d); discriminate.
  - reflexivity.
  - done.
Defined.
