(* ===== verification/Resources.v ===== *)
(** The resources of the engine ([src/src/resources/], [src/src/core/parser/
    {indexing,wpl_engine/repo}.rs], [src/src/sinks/routing/{registry,sink_grp,agent}.rs]):
    loading rules, models and sink routes, which sink a rule and a model go to,
    and the assembly of the pipelines of [WplEngine].

    The rule and model languages and the wildcards are crates of their own: the
    classes [Matcher], [RuleApi] and [ModelApi].  A hash map or set is a [gmap] or
    [gset]; the order it hands its entries out in is a parameter. *)
From Stdlib Require Import ZArith Lia String Ascii.
From stdpp Require Import prelude strings gmap.
From S2P Require Import Prelude F64 Text DataModel ErrPolicy Picker SinkRuntime Tags Stats Metrics Dispatcher WplEngine.
Local Open Scope string_scope.
Local Open Scope list_scope.
Local Open Scope Z_scope.
Local Open Scope wp_scope.

(** The reasons a start fails with. *)
Inductive RunReason := RunValidation | RunCoreConf | RunRule.

Notation res A := (A + RunReason)%type.

(** [?] *)
Definition rbind {A B} (m : res A) (k : A -> res B) : res B := match m with inl a => k a | inr e => inr e end.
Definition ok_or {A} (o : option A) (e : RunReason) : res A := match o with Some a => inl a | None => inr e end.

(** ** [core/parser/indexing.rs] *)
Module Indexer.
Record ResourceIndexer := mkIndexer { unused_idx : Z; idx_map : gmap string Z }.
Definition ResourceIndexer_default : ResourceIndexer := mkIndexer 0 ∅.

Definition checkin (key : string) (x : ResourceIndexer) : Z * ResourceIndexer :=
  match idx_map x !! key with
  | Some idx => (idx, x)
  | None => (unused_idx x, mkIndexer (unused_idx x + 1) (<[key := unused_idx x]> (idx_map x)))
  end.
End Indexer.
Import Indexer.

(** ** [resources/indexing] *)

(** [SinkRuleMapping], [SinkModelIndex]: a set of names per sink. *)
Definition NameSets : Type := gmap string (gset string).

Definition associate (sink name : string) (m : NameSets) : NameSets :=
  match m !! sink with
  | Some s => <[sink := {[name]} ∪ s]> m
  | None => <[sink := {[name]}]> m
  end.

Definition disassociate (sink name : string) (m : NameSets) : NameSets :=
  match m !! sink with
  | Some s => <[sink := s ∖ {[name]}]> m
  | None => m
  end.

Record SinkRuleRegistry := mkRegistry {
  rule_sink_idx : gmap string (string * string);
  sink_rule_relation : NameSets;
}.

Definition registry_update (sink_name rule_key matcher : string) (r : SinkRuleRegistry) : SinkRuleRegistry :=
  match rule_sink_idx r !! rule_key with
  | Some (ori_sink_name, ori_matcher) =>
      if slen ori_matcher <? slen matcher then
        mkRegistry (<[rule_key := (sink_name, matcher)]> (delete rule_key (rule_sink_idx r)))
          (associate sink_name rule_key (disassociate ori_sink_name rule_key (sink_rule_relation r)))
      else r
  | None =>
      mkRegistry (<[rule_key := (sink_name, matcher)]> (rule_sink_idx r))
        (associate sink_name rule_key (sink_rule_relation r))
  end.

(** [RuleMdlMapping::update] *)
Definition rule_mdl_update (rule_key mdl_name matcher : string) (m : gmap string (string * string))
    : gmap string (string * string) :=
  match m !! rule_key with
  | Some (_, old) => if slen old <? slen matcher then <[rule_key := (mdl_name, matcher)]> m else m
  | None => <[rule_key := (mdl_name, matcher)]> m
  end.

(** ** The crates of the languages *)

(** [WildMatch]: a pattern matches a text and prints as it was written. *)
Class Matcher (M : Type) := { wm_matches : M -> string -> bool; wm_text : M -> string }.

(** [DataModel] and [ObjModel]. *)
Class ModelApi (Mdl M : Type) := { mdl_name : Mdl -> string; mdl_enable : Mdl -> bool; mdl_rules : Mdl -> list M }.

(** A rule of a package: [rule.path(package)], its annotations as
    [AnnotationType::convert] gives them, its flags, and the evaluator its code
    compiles to.  [copy_rule] is the target a [CopyEventParse] names,
    [set_target] puts in the evaluator and the full path. *)
Class RuleApi (Ru Ev An : Type) := {
  r_name : Ru -> string;
  r_path : Ru -> string -> string;
  r_annotations : Ru -> list An;
  r_no_match : Ru -> option bool;
  r_late : Ru -> option bool;
  r_compile : Ru -> option Ev;
  ann_null : An -> bool;
  copy_rule : An -> option string;
  set_target : An -> Ev -> string -> An;
}.

Class RuleLaws `{RuleApi Ru Ev An} := {
  set_target_rule a ev k : copy_rule a <> None -> copy_rule (set_target a ev k) = Some k;
}.

Record WplPackage (Ru : Type) := mkPackage { pkg_name : string; rules : list Ru }.
Arguments mkPackage {Ru}. Arguments pkg_name {Ru}. Arguments rules {Ru}.

(** ** The repository of rules ([repo.rs]) *)
Section Repository.
Context {Ru Code : Type} {Ev An : Type} `{RuleApi Ru Ev An}.

Record SpaceIndex := mkSpace { rule_key : gset string; pkg_key : gset string }.

Definition full_name (pkg : string) (rule : Ru) : string := pkg +:+ "/" +:+ r_name rule.

Definition SpaceIndex_from (packages : list (WplPackage Ru)) : SpaceIndex :=
  mkSpace (list_to_set (concat (map (fun p => map (full_name (pkg_name p)) (rules p)) packages)))
    (list_to_set (map pkg_name packages)).

Definition get_rule_names (packages : list (WplPackage Ru)) : gset string :=
  list_to_set (concat (map (fun p => map (full_name (pkg_name p)) (rules p)) packages)).

(** [WplPackage::parse] *)
Variable parse : Code -> WplPackage Ru + WplCodeReason.
Variable mode : RobustnessMode.

Definition err4_load_wpl (e : WplCodeReason) : ErrStrategy :=
  let d := current_error_policy mode in @p_load_wpl _ (dyn_policy d) e.

(** [from_wpl_impl]: [report n] says whether the error sink takes the record
    for the [n]th code; without an error sink nothing is sent. *)
Fixpoint from_wpl_impl (report : option (nat -> bool)) (codes : list Code) (n : nat) (acc : list (WplPackage Ru))
    : list (WplPackage Ru) + WplCodeReason :=
  match codes with
  | [] => inl acc
  | code :: codes =>
      match parse code with
      | inl p => from_wpl_impl report codes (S n) (acc ++ [p])
      | inr e =>
          match err4_load_wpl e with
          | SRetry => from_wpl_impl report codes (S n) acc
          | SIgnore =>
              match report with
              | Some takes => if takes n then from_wpl_impl report codes (S n) acc else inr (WplUvs RunRuleError)
              | None => from_wpl_impl report codes (S n) acc
              end
          | SThrow => inr e
          end
      end
  end.

Definition from_wpl_tolerant (takes : nat -> bool) (codes : list Code) := from_wpl_impl (Some takes) codes 0 [].
Definition from_wpl_strict (codes : list Code) := from_wpl_impl None codes 0 [].
End Repository.

(** The slashes at the front of a name. *)
Fixpoint drop_char (l : list ascii) : list ascii :=
  match l with c :: r => if Ascii.eqb c "/"%char then drop_char r else l | [] => [] end.

(** ** [ResManager] *)
Section Manager.
Context {Ru Ev An Mdl M : Type} `{!RuleApi Ru Ev An} `{!Matcher M} `{!ModelApi Mdl M}.
Context {L : Coll.LruApi Dim.StatDim Slice.SliceRecord}.

Notation Pipeline := (WplPipeline (Ev := Ev) (An := An)).
Notation Package := (WplPackage Ru).

(** [DataModel::is_match] *)
Definition mdl_is_match (m : Mdl) (rule_key : string) : bool := existsb (fun w => wm_matches w rule_key) (mdl_rules m).

(** What the routing reads of a [FlexGroup]. *)
Record RouteGroup := mkRoute { g_name : string; g_rule : list M; g_oml : list M }.

Record ResManager := mkManager {
  name_mdl_res : gmap string Mdl;
  mdl_sink_map : gmap string (string * string);
  rule_mdl_relation : gmap string (string * string);
  rule_sink_db : SinkRuleRegistry;
  sink_mdl_relation : NameSets;
  wpl_space : option (list Package);
  wpl_index : option SpaceIndex;
  route_agent : option (list SinkGroupAgent);
  infra : option InfraSinkAgent;
  parse_units : list Pipeline;
  sink_table : option (list RouteGroup);
}.

Definition ResManager_default : ResManager :=
  mkManager ∅ ∅ ∅ (mkRegistry ∅ ∅) ∅ None None None None [] None.

Definition set_infra_agent (r : ResManager) (a : InfraSinkAgent) : ResManager :=
  mkManager (name_mdl_res r) (mdl_sink_map r) (rule_mdl_relation r) (rule_sink_db r) (sink_mdl_relation r)
    (wpl_space r) (wpl_index r) (route_agent r) (Some a) (parse_units r) (sink_table r).
Definition set_space (r : ResManager) (ps : list Package) : ResManager :=
  mkManager (name_mdl_res r) (mdl_sink_map r) (rule_mdl_relation r) (rule_sink_db r) (sink_mdl_relation r)
    (Some ps) (Some (SpaceIndex_from ps)) (route_agent r) (infra r) (parse_units r) (sink_table r).
Definition set_models (r : ResManager) (names : gmap string Mdl) (rel : gmap string (string * string)) : ResManager :=
  mkManager names (mdl_sink_map r) rel (rule_sink_db r) (sink_mdl_relation r)
    (wpl_space r) (wpl_index r) (route_agent r) (infra r) (parse_units r) (sink_table r).
Definition set_mdl_index (r : ResManager) (sm : gmap string (string * string)) (rel : NameSets) : ResManager :=
  mkManager (name_mdl_res r) sm (rule_mdl_relation r) (rule_sink_db r) rel
    (wpl_space r) (wpl_index r) (route_agent r) (infra r) (parse_units r) (sink_table r).
Definition set_rule_db (r : ResManager) (db : SinkRuleRegistry) : ResManager :=
  mkManager (name_mdl_res r) (mdl_sink_map r) (rule_mdl_relation r) db (sink_mdl_relation r)
    (wpl_space r) (wpl_index r) (route_agent r) (infra r) (parse_units r) (sink_table r).
Definition set_table (r : ResManager) (t : list RouteGroup) : ResManager :=
  mkManager (name_mdl_res r) (mdl_sink_map r) (rule_mdl_relation r) (rule_sink_db r) (sink_mdl_relation r)
    (wpl_space r) (wpl_index r) (route_agent r) (infra r) (parse_units r) (Some t).
Definition set_route_agent (r : ResManager) (a : list SinkGroupAgent) : ResManager :=
  mkManager (name_mdl_res r) (mdl_sink_map r) (rule_mdl_relation r) (rule_sink_db r) (sink_mdl_relation r)
    (wpl_space r) (wpl_index r) (Some a) (infra r) (parse_units r) (sink_table r).
Definition add_units (r : ResManager) (us : list Pipeline) : ResManager :=
  mkManager (name_mdl_res r) (mdl_sink_map r) (rule_mdl_relation r) (rule_sink_db r) (sink_mdl_relation r)
    (wpl_space r) (wpl_index r) (route_agent r) (infra r) (parse_units r ++ us) (sink_table r).

Definition must_get_sink_table (r : ResManager) : res (list RouteGroup) := ok_or (sink_table r) RunValidation.

(** ** Indexing ([indexing.rs])

    The loops as lists of what they look at, in their order. *)
Variable set_iter : gset string -> list string.
Variable mdl_iter : gmap string Mdl -> list (string * Mdl).

(** One model against one matcher of a route: a later, at least as long matcher
    moves the model, but [mdl_sink_map] keeps the first sink and matcher. *)
Definition mdl_index_step (sink : string) (w : M) (r : ResManager) (name : string) : ResManager :=
  if negb (wm_matches w name) then r else
  match mdl_sink_map r !! name with
  | Some (old_sink, matcher) =>
      if slen (wm_text w) <? slen matcher then r
      else set_mdl_index r (mdl_sink_map r)
             (associate sink name (disassociate old_sink name (sink_mdl_relation r)))
  | None =>
      set_mdl_index r (<[name := (sink, wm_text w)]> (mdl_sink_map r)) (associate sink name (sink_mdl_relation r))
  end.

Definition update_sink_mdl_index (conf : RouteGroup) (r : ResManager) : ResManager :=
  foldl (fun r w => foldl (mdl_index_step (g_name conf) w) r (map fst (mdl_iter (name_mdl_res r)))) r (g_oml conf).

(** The updates of the rule index by one route, in their order: rule and matcher. *)
Definition rule_hits (index : SpaceIndex) (conf : RouteGroup) : list (string * string) :=
  concat (map (fun w => map (fun k => (k, wm_text w))
    (List.filter (fun k => wm_matches w k) (set_iter (rule_key index)))) (g_rule conf)).

Definition mdl_hits (index : SpaceIndex) (mdls : gmap string Mdl) (conf : RouteGroup) : list (string * string) :=
  concat (map (fun w => concat (map (fun k => map (fun _ => (k, wm_text w))
    (List.filter (fun nm => wm_matches w nm.1 && mdl_is_match nm.2 k) (mdl_iter mdls)))
    (set_iter (rule_key index)))) (g_oml conf)).

Definition update_sink_rule_index (index : SpaceIndex) (conf : RouteGroup) (r : ResManager) : ResManager :=
  set_rule_db r (foldl (fun db h => registry_update (g_name conf) h.1 h.2 db) (rule_sink_db r)
    (rule_hits index conf ++ mdl_hits index (name_mdl_res r) conf)).

(** ** Loading ([loading.rs])

    [load_all_wpl_code] once the code is read. *)
Definition load_all_wpl_code (space : list Package + WplCodeReason) (r : ResManager) : res ResManager :=
  match space with inl ps => inl (set_space r ps) | inr _ => inr RunRule end.

(** A file of the OML root: whether it is there under a name ending in [.oml],
    and what loading it gives. *)
Record OmlFile := mkOml { oml_usable : bool; oml_load : res Mdl }.

(** The rules a model names, matched against the rules there are. *)
Definition relate_model (index : SpaceIndex) (m : Mdl) (rel : gmap string (string * string)) : gmap string (string * string) :=
  foldl (fun rel w => foldl (fun rel k => if wm_matches w k then rule_mdl_update k (mdl_name m) (wm_text w) rel else rel)
    rel (set_iter (rule_key index))) rel (mdl_rules m).

Fixpoint load_models (index : SpaceIndex) (files : list OmlFile) (r : ResManager) : res ResManager :=
  match files with
  | [] => inl r
  | f :: files =>
      if oml_usable f then
        rbind (oml_load f) (fun m =>
          if mdl_enable m then
            load_models index files
              (set_models r (<[mdl_name m := m]> (name_mdl_res r)) (relate_model index m (rule_mdl_relation r)))
          else load_models index files r)
      else load_models index files r
  end.

Definition load_all_ldm (files : res (list OmlFile)) (r : ResManager) : res ResManager :=
  rbind files (fun files => rbind (ok_or (wpl_index r) RunValidation) (fun index => load_models index files r)).

(** [dirs] is whether one of the route directories exists, [confs] what is read. *)
Definition load_all_sink (dirs : bool) (confs : res (list RouteGroup)) (r : ResManager)
    : res (list RouteGroup * ResManager) :=
  rbind (ok_or (wpl_index r) RunValidation) (fun index =>
    if dirs then
      rbind confs (fun confs =>
        let r := foldl (fun r conf => update_sink_mdl_index conf (update_sink_rule_index index conf r)) r confs in
        inl (confs, set_table r confs))
    else inr RunCoreConf).

(** [ResManager::build] *)
Definition build (agent : InfraSinkAgent) (space : list Package + WplCodeReason) (files : res (list OmlFile))
    (dirs : bool) (confs : res (list RouteGroup)) : res ResManager :=
  rbind (load_all_wpl_code space (set_infra_agent ResManager_default agent)) (fun r =>
  rbind (load_all_ldm files r) (fun r =>
  rbind (load_all_sink dirs confs r) (fun tr => inl tr.2))).

(** ** Allocation ([allocation.rs], [allocator.rs], [sinks/null_resources.rs]) *)

Definition alloc_parse_res (r : ResManager) (rule : string) : res (list SinkGroupAgent) :=
  rbind (ok_or (route_agent r) RunValidation) (fun agents =>
  let found := match rule_sink_idx (rule_sink_db r) !! rule with
               | Some (idx, _) => List.filter (fun a => String.eqb idx (agent_name a)) agents
               | None => []
               end in
  match found with
  | [] => rbind (ok_or (infra r) RunValidation) (fun i => inl [i_default i])
  | _ => inl found
  end).

Definition SinkGroupAgent_null (name : string) : SinkGroupAgent := mkAgent name BlackHole.
Definition null_alloc (default_name : string) (_ : string) : res (list SinkGroupAgent) := inl [SinkGroupAgent_null default_name].
Definition assign_alloc (a : SinkGroupAgent) (_ : string) : res (list SinkGroupAgent) := inl [a].

(** The models of a sink: those still loaded of the names it is related to. *)
Definition alloc_sink_res (r : ResManager) (sink : string) : list Mdl :=
  match sink_mdl_relation r !! sink with
  | Some names => omap (fun n => name_mdl_res r !! n) (set_iter names)
  | None => []
  end.

(** ** The pipelines ([utils.rs]) *)

Definition is_no_match (rule : Ru) : bool := default false (r_no_match rule).
Definition is_late (rule : Ru) : bool := default false (r_late rule).

Definition apply_rule_flags (rule : Ru) (p : Pipeline) : Pipeline :=
  let p := if is_no_match rule then set_flags p false (late p) else p in
  if is_late rule then set_flags p (auto_match p) true else p.

Definition rule_to_parser (rule : Ru) : res Ev := ok_or (r_compile rule) RunRule.

(** Rules in their order, under their packages. *)
Definition all_rules (ps : list Package) : list (string * Ru) :=
  concat (map (fun p => map (fun ru => (pkg_name p, ru)) (rules p)) ps).

Fixpoint build_map (rs : list (string * Ru)) (m : gmap string Ev) : res (gmap string Ev) :=
  match rs with
  | [] => inl m
  | (pkg, ru) :: rs => rbind (rule_to_parser ru) (fun ev => build_map rs (<[r_path ru pkg := ev]> m))
  end.

Definition build_global_parser_map (ps : list Package) : res (gmap string Ev) := build_map (all_rules ps) ∅.

(** The target of a [CopyEventParse]: by its name as it is written, else in the
    rule's own package. *)
Definition resolve_target (pkg name : string) (m : gmap string Ev) : option (Ev * string) :=
  match m !! name with
  | Some p => Some (p, name)
  | None => let full := pkg +:+ "/" +:+ name in p ← m !! full; Some (p, full)
  end.

Fixpoint resolve_all (pkg : string) (m : gmap string Ev) (funs : list An) : res (list An) :=
  match funs with
  | [] => inl []
  | ann :: funs =>
      rbind (match copy_rule ann with
             | Some name =>
                 match resolve_target pkg name m with
                 | Some (p, key) => inl (set_target ann p key)
                 | None => inr RunRule
                 end
             | None => inl ann
             end) (fun ann => rbind (resolve_all pkg m funs) (fun funs => inl (ann :: funs)))
  end.

Definition annotate_funcs (rule : Ru) (pkg : string) (m : gmap string Ev) : res (list An) :=
  resolve_all pkg m (List.filter (fun a => negb (ann_null a)) (r_annotations rule)).

(** [cell] numbers the counters of the pipelines already made. *)
Fixpoint ins_units (alloc : string -> res (list SinkGroupAgent)) (pkg : string) (rs : list Ru) (x : ResourceIndexer)
    (reqs : list Request.StatReq) (m : gmap string Ev) (cell : nat) : outcome (res (list Pipeline * ResourceIndexer)) :=
  match rs with
  | [] => Ret (inl ([], x))
  | rule :: rs =>
      let wpl_path := r_path rule pkg in
      match m !! wpl_path with
      | None => Panic
      | Some ev =>
          match annotate_funcs rule pkg m with
          | inr e => Ret (inr e)
          | inl funcs =>
              match alloc wpl_path with
              | inr e => Ret (inr e)
              | inl agent =>
                  let '(i, x) := checkin wpl_path x in
                  let p := apply_rule_flags rule
                    (WplPipeline_new i wpl_path pkg (r_name rule) funcs ev agent cell reqs) in
                  let! r := ins_units alloc pkg rs x reqs m (S cell) in
                  Ret (rbind r (fun ux => inl (p :: ux.1, ux.2)))
              end
          end
      end
  end.

Definition multi_code_ins_parse_units (alloc : string -> res (list SinkGroupAgent)) (p : Package) (x : ResourceIndexer)
    (reqs : list Request.StatReq) (m : gmap string Ev) (cell : nat) : outcome (res (list Pipeline * ResourceIndexer)) :=
  ins_units alloc (pkg_name p) (rules p) x reqs m cell.

Definition code_ins_parse_units (alloc : string -> res (list SinkGroupAgent)) (p : Package) (x : ResourceIndexer)
    (m : gmap string Ev) (cell : nat) : outcome (res (list Pipeline * ResourceIndexer)) :=
  ins_units alloc (pkg_name p) (rules p) x [] m cell.

(** The loop of [ins_engine_res] over the packages. *)
Fixpoint ins_packages (reqs : list Request.StatReq) (m : gmap string Ev) (ps : list Package) (x : ResourceIndexer)
    (r : ResManager) : outcome (res ResManager) :=
  match ps with
  | [] => Ret (inl r)
  | p :: ps =>
      let! u := multi_code_ins_parse_units (alloc_parse_res r) p x reqs m (length (parse_units r)) in
      match u with
      | inr e => Ret (inr e)
      | inl (us, x) => ins_packages reqs m ps x (add_units r us)
      end
  end.

Definition ins_engine_res (agent : list SinkGroupAgent) (reqs : list Request.StatReq) (r : ResManager)
    : outcome (res ResManager) :=
  let r := set_route_agent r agent in
  match wpl_space r with
  | None => Ret (inr RunValidation)
  | Some ps =>
      match build_global_parser_map ps with
      | inr e => Ret (inr e)
      | inl m => ins_packages reqs m ps ResourceIndexer_default r
      end
  end.

(** ** Routing by rule ([sinks/routing/{registry,sink_grp,agent}.rs]) *)

(** [SinkGroupConf]: a flexible group has rules and sinks, a fixed one sinks. *)
Inductive GroupConf := Flexi (name : string) (rule : list M) (sink_names : list string)
  | Fixed (name : string) (sink_names : list string).

Definition conf_name (c : GroupConf) : string := match c with Flexi n _ _ | Fixed n _ => n end.
Definition conf_sinks (c : GroupConf) : list string := match c with Flexi _ _ s | Fixed _ s => s end.

Record RouteAgent := mkRouteAgent { ra_conf : GroupConf; ra_end : SinkTerminal }.

(** [SinkGroupAgent::is_match] *)
Definition agent_is_match (a : RouteAgent) (rule : string) : bool :=
  match ra_conf a with Flexi _ ws _ => existsb (fun w => wm_matches w rule) ws | Fixed _ _ => false end.

(** [SyncSinkGroup::is_match]: the length of the first matcher that matches. *)
Definition group_is_match (c : GroupConf) (rule : string) : option Z :=
  match c with
  | Flexi _ ws _ => option_map (fun w => slen (wm_text w)) (List.find (fun w => wm_matches w rule) ws)
  | Fixed _ _ => None
  end.

Fixpoint rout_impl (items : list RouteAgent) (target_rule : string) (max_match : Z) (found : option RouteAgent)
    : option RouteAgent :=
  match items with
  | [] => found
  | ins :: items =>
      match group_is_match (ra_conf ins) target_rule with
      | Some match_len =>
          if max_match <? match_len then rout_impl items target_rule match_len (Some ins)
          else rout_impl items target_rule max_match found
      | None => rout_impl items target_rule max_match found
      end
  end.

Definition route (items : list RouteAgent) (target_rule : string) : option RouteAgent := rout_impl items target_rule 0 None.

Definition get_sink_agents (items : list RouteAgent) (sink_name : string) : list SinkTerminal :=
  concat (map (fun it => map (fun _ => ra_end it) (List.filter (String.eqb sink_name) (conf_sinks (ra_conf it)))) items).

(** [trim_matches('/')] *)
Definition trim_slashes (s : string) : string :=
  rev_string (string_of_list_ascii (drop_char (list_ascii_of_string (rev_string
    (string_of_list_ascii (drop_char (list_ascii_of_string s))))))).

Definition get_sink_agents_in_group (items : list RouteAgent) (group sink_name : string) : list SinkTerminal :=
  get_sink_agents (List.filter (fun it => String.eqb (trim_slashes (conf_name (ra_conf it))) (trim_slashes group)) items) sink_name.
End Manager.
