(* ===== verification/ResourcesLaws.v ===== *)
(** What the assembly of the engine guarantees: a rule goes to the sink with the
    longest matcher, whatever order the hash maps have; the pipelines built
    never panic for want of an output and their side records have a rule to go
    to; and where the index of models loses track. *)
From Stdlib Require Import ZArith Lia String Ascii.
From stdpp Require Import prelude strings gmap.
From S2P Require Import Prelude F64 Text DataModel ErrPolicy Picker SinkRuntime Tags Stats StatsLaws Metrics MetricsLaws Dispatcher WplEngine WplEngineLaws Resources.
Import Indexer.
Local Open Scope string_scope.
Local Open Scope list_scope.
Local Open Scope Z_scope.
Local Open Scope wp_scope.

(** ** The rule index *)

(** A candidate replaces one with a shorter matcher. *)
Definition keep (best : option (string * string)) (c : string * string) : option (string * string) :=
  match best with
  | Some b => if slen b.2 <? slen c.2 then Some c else Some b
  | None => Some c
  end.

(** The first of the longest. *)
Definition longest (cs : list (string * string)) : option (string * string) := foldl keep None cs.

Definition Update : Type := string * (string * string).   (* rule, (sink, matcher) *)
Definition apply_update (db : SinkRuleRegistry) (u : Update) : SinkRuleRegistry :=
  registry_update u.2.1 u.1 u.2.2 db.

Lemma update_lookup db u k : rule_sink_idx (apply_update db u) !! k =
  if decide (u.1 = k) then keep (rule_sink_idx db !! k) u.2 else rule_sink_idx db !! k.
Proof.
  destruct u as [k' [s m]]. unfold apply_update, registry_update. cbn [fst snd]. case_decide as Hk.
  - subst k'. destruct (rule_sink_idx db !! k) as [[s0 m0]|] eqn:E; cbn [keep fst snd].
    + destruct (slen m0 <? slen m); cbn; [by rewrite lookup_insert_eq|by rewrite E].
    + cbn. by rewrite lookup_insert_eq.
  - destruct (rule_sink_idx db !! k') as [[s0 m0]|]; cbn [rule_sink_idx].
    + destruct (slen m0 <? slen m); [|done]. cbn. by rewrite lookup_insert_ne, lookup_delete_ne.
    + by rewrite lookup_insert_ne.
Qed.

Lemma updates_lookup us db k : rule_sink_idx (foldl apply_update db us) !! k =
  foldl keep (rule_sink_idx db !! k) (map snd (List.filter (fun u : Update => bool_decide (u.1 = k)) us)).
Proof.
  revert db. induction us as [|u us IH]; intros db; [done|]. cbn [foldl List.filter]. rewrite IH, update_lookup.
  case_decide as Hk; [by rewrite bool_decide_true|by rewrite bool_decide_false].
Qed.

(** The relation of sinks to rules is the index read the other way. *)
Definition related (m : NameSets) (sink name : string) : Prop := exists s, m !! sink = Some s /\ name ∈ s.

Definition registry_wf (db : SinkRuleRegistry) : Prop :=
  forall sink rule, related (sink_rule_relation db) sink rule <-> exists m, rule_sink_idx db !! rule = Some (sink, m).

Lemma related_associate m sink name s k : related (associate sink name m) s k <-> (s = sink /\ k = name) \/ related m s k.
Proof.
  unfold related, associate. destruct (decide (s = sink)) as [->|Hs].
  - destruct (m !! sink) as [x|] eqn:E; setoid_rewrite lookup_insert_eq; split.
    + intros (s & [= <-] & [Hk|Hk]%elem_of_union); [left|right; by exists x]. by apply elem_of_singleton in Hk.
    + intros [[_ ->]|(s & [= <-] & Hk)]; eexists; (split; [done|]); set_solver.
    + intros (s & [= <-] & Hk%elem_of_singleton). by left.
    + intros [[_ ->]|(s & ? & _)]; [|done]. eexists. split; [done|]. set_solver.
  - assert (sink <> s) as Hs' by done. destruct (m !! sink); setoid_rewrite lookup_insert_ne; try done; naive_solver.
Qed.

Lemma related_disassociate m sink name s k :
  related (disassociate sink name m) s k <-> related m s k /\ ~ (s = sink /\ k = name).
Proof.
  unfold related, disassociate. destruct (m !! sink) as [x|] eqn:E; [|naive_solver].
  destruct (decide (s = sink)) as [->|Hs].
  2:{ assert (sink <> s) by done. setoid_rewrite lookup_insert_ne; try done. naive_solver. }
  setoid_rewrite lookup_insert_eq. setoid_rewrite E. split.
  - intros (y & [= <-] & [Hk Hn]%elem_of_difference). split; [by exists x|]. intros [_ ->]. set_solver.
  - intros [(y & [= <-] & Hk) Hn]. eexists. split; [done|]. set_solver.
Qed.

Lemma update_wf db u : registry_wf db -> registry_wf (apply_update db u).
Proof.
  intros Hw s k. pose proof (update_lookup db u k) as Hl. destruct u as [k' [sk mt]].
  unfold apply_update, registry_update in *. cbn [fst snd] in *.
  destruct (rule_sink_idx db !! k') as [[s0 m0]|] eqn:E.
  - destruct (slen m0 <? slen mt) eqn:Elen; [|exact (Hw s k)]. cbn [sink_rule_relation] in *.
    rewrite Hl, related_associate, related_disassociate, (Hw s k). case_decide as Hk.
    + subst k'. rewrite E. cbn. rewrite Elen. naive_solver.
    + naive_solver.
  - cbn [sink_rule_relation] in *. rewrite Hl, related_associate, (Hw s k). case_decide as Hk.
    + subst k'. rewrite E. cbn. naive_solver.
    + naive_solver.
Qed.

Lemma updates_wf us db : registry_wf db -> registry_wf (foldl apply_update db us).
Proof. revert db. induction us as [|u us IH]; intros db H; [done|]. by apply IH, update_wf. Qed.

Lemma longest_spec cs c : longest cs = Some c <->
  exists pre post, cs = pre ++ c :: post /\ Forall (fun d => slen d.2 < slen c.2) pre /\ Forall (fun d => slen d.2 <= slen c.2) post.
Proof.
  unfold longest. revert c. induction cs as [|d cs IH] using rev_ind; intros c.
  { split; [done|]. intros (pre & post & Hx & _). by destruct pre. }
  rewrite foldl_app. cbn [foldl]. split.
  - destruct (foldl keep None cs) as [b|] eqn:Eb; cbn [keep].
    + destruct (slen b.2 <? slen d.2) eqn:El; intros [= <-].
      * exists cs, []. split; [done|]. split; [|constructor].
        destruct (proj1 (IH b) eq_refl) as (pre & post & -> & H1 & H2). apply Forall_app. split.
        -- eapply Forall_impl; [exact H1|]. cbn. lia.
        -- constructor; [lia|]. eapply Forall_impl; [exact H2|]. cbn. lia.
      * destruct (proj1 (IH b) eq_refl) as (pre & post & -> & H1 & H2). exists pre, (post ++ [d]).
        rewrite <- app_assoc. split; [done|]. split; [done|]. apply Forall_app. split; [done|]. repeat constructor. lia.
    + intros [= <-]. exists cs, []. split; [done|]. split; [|constructor].
      destruct cs as [|e cs _] using rev_ind; [constructor|]. rewrite foldl_app in Eb. cbn in Eb.
      unfold keep in Eb. repeat case_match; done.
  - intros (pre & post & Hx & H1 & H2). destruct post as [|e post _] using rev_ind.
    + apply app_inj_tail in Hx as [-> ->]. destruct (foldl keep None pre) as [b|] eqn:Eb; [|done]. cbn.
      destruct (proj1 (IH b) eq_refl) as (p1 & p2 & -> & _ & _). apply Forall_app in H1 as [_ H1].
      apply Forall_cons in H1 as [H1 _]. by rewrite (proj2 (Z.ltb_lt _ _) H1).
    + rewrite app_comm_cons, app_assoc in Hx. apply app_inj_tail in Hx as [-> ->].
      apply Forall_app in H2 as [H2 H3]. apply Forall_cons in H3 as [H3 _].
      rewrite (proj2 (IH c)) by eauto. cbn. by rewrite (proj2 (Z.ltb_ge _ _) H3).
Qed.

(** ** The hits of a route *)

Lemma keep_idem b c : keep (keep b c) c = keep b c.
Proof.
  destruct b as [b|]; cbn; [|by rewrite Z.ltb_irrefl]. destruct (slen b.2 <? slen c.2) eqn:E; cbn; [by rewrite Z.ltb_irrefl|by rewrite E].
Qed.

Lemma keep_copies {A} (l : list A) b c : foldl keep b (map (fun _ => c) l) = match l with [] => b | _ => keep b c end.
Proof. destruct l as [|x l]; [done|]. cbn. induction l as [|y l IH]; [done|]. cbn. by rewrite keep_idem. Qed.

Lemma foldl_concat_map {A B C} (f : B -> C -> B) (g : A -> list C) b (l : list A) :
  foldl f b (concat (map g l)) = foldl (fun b x => foldl f b (g x)) b l.
Proof. revert b. induction l as [|x l IH]; intros b; [done|]. cbn. by rewrite foldl_app, IH. Qed.

Lemma foldl_map_l {A B C} (f : B -> C -> B) (g : A -> C) b (l : list A) : foldl f b (map g l) = foldl (fun b x => f b (g x)) b l.
Proof. revert b. induction l as [|x l IH]; intros b; [done|]. apply IH. Qed.

Lemma foldl_ext_l {A B} (f g : B -> A -> B) b (l : list A) : (forall b x, f b x = g b x) -> foldl f b l = foldl g b l.
Proof. intros H. revert b. induction l as [|x l IH]; intros b; [done|]. cbn. by rewrite H, IH. Qed.

(** Of the hits of all rules those of one. *)
Lemma pick_key {A} (f : string -> list (string * A)) ks k : NoDup ks -> (forall k', Forall (fun h => h.1 = k') (f k')) ->
  List.filter (fun h : string * A => bool_decide (h.1 = k)) (concat (map f ks)) = if decide (k ∈ ks) then f k else [].
Proof.
  intros Hnd Hf. assert (forall k', List.filter (fun h : string * A => bool_decide (h.1 = k)) (f k') = if decide (k' = k) then f k' else []) as Hone.
  { intros k'. generalize (Hf k'). generalize (f k'). induction 1 as [|h l Hh _ IH]; [by case_decide|]. cbn. rewrite IH, Hh.
    case_decide; [by rewrite bool_decide_true|by rewrite bool_decide_false]. }
  induction Hnd as [|k' ks Hn Hnd IH]; [done|]. cbn [map concat]. rewrite List.filter_app, Hone, IH.
  destruct (decide (k' = k)) as [->|Hk].
  - rewrite decide_False, app_nil_r, decide_True by set_solver. done.
  - cbn [app]. destruct (decide (k ∈ ks)); [by rewrite decide_True by set_solver|by rewrite decide_False by set_solver].
Qed.

Section Routes.
Context {Ru Ev An Mdl M : Type} `{!RuleApi Ru Ev An} `{!Matcher M} `{!ModelApi Mdl M}.
Context {L : Coll.LruApi Dim.StatDim Slice.SliceRecord}.
Variable set_iter : gset string -> list string.
Variable mdl_iter : gmap string Mdl -> list (string * Mdl).
Hypothesis Hset : forall X, set_iter X ≡ₚ elements X.
Hypothesis Hmdl : forall g, mdl_iter g ≡ₚ map_to_list g.

Notation Manager := (ResManager (Ru := Ru) (Ev := Ev) (An := An) (Mdl := Mdl) (M := M)).
Notation Route := (RouteGroup (M := M)).

Definition some_model (mdls : gmap string Mdl) (k : string) (w : M) : bool :=
  existsb (fun nm => wm_matches w nm.1 && mdl_is_match nm.2 k) (map_to_list mdls).

(** Who may have a rule, route by route: its matchers of rules, then those of
    models that take the rule. *)
Definition route_candidates (mdls : gmap string Mdl) (k : string) (conf : Route) : list (string * string) :=
  map (fun w => (g_name conf, wm_text w)) (List.filter (fun w => wm_matches w k) (g_rule conf) ++ List.filter (some_model mdls k) (g_oml conf)).

Definition candidates (mdls : gmap string Mdl) (confs : list Route) (k : string) : list (string * string) :=
  concat (map (route_candidates mdls k) confs).

Lemma set_iter_in X k : k ∈ set_iter X <-> k ∈ X.
Proof. by rewrite Hset, elem_of_elements. Qed.

Lemma set_iter_nodup X : NoDup (set_iter X).
Proof. rewrite Hset. apply NoDup_elements. Qed.

Definition to_update (sink : string) (h : string * string) : Update := (h.1, (sink, h.2)).

Lemma updates_of sink hits k :
  map snd (List.filter (fun u : Update => bool_decide (u.1 = k)) (map (to_update sink) hits)) =
  map (fun h => (sink, h.2)) (List.filter (fun h : string * string => bool_decide (h.1 = k)) hits).
Proof. induction hits as [|h hits IH]; [done|]. cbn. case_bool_decide; cbn; by rewrite IH. Qed.

Lemma keep_filter (sink : string) (p : M -> bool) ws b :
  foldl (fun b w => if p w then keep b (sink, wm_text w) else b) b ws =
  foldl keep b (map (fun w => (sink, wm_text w)) (List.filter p ws)).
Proof. revert b. induction ws as [|w ws IH]; intros b; [done|]. cbn. destruct (p w); apply IH. Qed.

(** Per matcher, the hits of a rule are copies of one candidate. *)
Lemma hits_fold {A} (sink k : string) (X : gset string) (per : M -> string -> list A) (p : M -> bool) ws b :
  (forall w, match per w k with [] => p w = false | _ => p w = true end) -> k ∈ X ->
  foldl keep b (map (fun h => (sink, h.2)) (List.filter (fun h : string * string => bool_decide (h.1 = k))
    (concat (map (fun w => concat (map (fun k' => map (fun _ => (k', wm_text w)) (per w k')) (set_iter X))) ws)))) =
  foldl keep b (map (fun w => (sink, wm_text w)) (List.filter p ws)).
Proof.
  intros Hp Hk. rewrite <- keep_filter. revert b. induction ws as [|w ws IH]; intros b; [done|].
  cbn [map concat foldl]. rewrite List.filter_app, map_app, foldl_app, pick_key, decide_True.
  - rewrite map_map. cbn [snd]. rewrite (keep_copies (per w k)), IH. specialize (Hp w). by destruct (per w k); rewrite Hp.
  - by apply set_iter_in.
  - apply set_iter_nodup.
  - intros k'. apply Forall_map, Forall_forall. done.
Qed.

Lemma filter_as_copies (w : M) ks :
  map (fun k => (k, wm_text w)) (List.filter (fun k => wm_matches w k) ks) =
  concat (map (fun k => map (fun _ => (k, wm_text w)) (if wm_matches w k then [tt] else [])) ks).
Proof. induction ks as [|k ks IH]; [done|]. cbn. destruct (wm_matches w k); cbn; by rewrite IH. Qed.

Lemma existsb_filter {A} (p : A -> bool) l : match List.filter p l with [] => existsb p l = false | _ => existsb p l = true end.
Proof. induction l as [|x l IH]; [done|]. cbn. by destruct (p x). Qed.

Lemma existsb_perm {A} (p : A -> bool) l k : l ≡ₚ k -> existsb p l = existsb p k.
Proof. intros Hp. apply eq_iff_eq_true. rewrite !existsb_exists. by setoid_rewrite <- list_elem_of_In; setoid_rewrite Hp. Qed.

Lemma rule_hits_fold index conf k b : k ∈ rule_key index ->
  foldl keep b (map (fun h => (g_name conf, h.2)) (List.filter (fun h : string * string => bool_decide (h.1 = k)) (rule_hits set_iter index conf))) =
  foldl keep b (map (fun w => (g_name conf, wm_text w)) (List.filter (fun w => wm_matches w k) (g_rule conf))).
Proof.
  intros Hk. unfold rule_hits. rewrite (map_ext _ _ (fun w => filter_as_copies w (set_iter (rule_key index)))).
  apply (hits_fold _ _ _ (fun w k => if wm_matches w k then [tt] else []) (fun w => wm_matches w k)); [|done].
  intros w. by destruct (wm_matches w k).
Qed.

Lemma mdl_hits_fold index mdls conf k b : k ∈ rule_key index ->
  foldl keep b (map (fun h => (g_name conf, h.2)) (List.filter (fun h : string * string => bool_decide (h.1 = k)) (mdl_hits set_iter mdl_iter index mdls conf))) =
  foldl keep b (map (fun w => (g_name conf, wm_text w)) (List.filter (some_model mdls k) (g_oml conf))).
Proof.
  intros Hk. unfold mdl_hits.
  apply (hits_fold _ _ _ (fun w k => List.filter (fun nm => wm_matches w nm.1 && mdl_is_match nm.2 k) (mdl_iter mdls)) (some_model mdls k)); [|done].
  intros w. pose proof (existsb_filter (fun nm => wm_matches w nm.1 && mdl_is_match nm.2 k) (mdl_iter mdls)) as Hf.
  unfold some_model. by rewrite <- (existsb_perm _ _ _ (Hmdl mdls)).
Qed.

(** Rules that are not there get no hit. *)
Lemma no_hits index mdls conf k : k ∉ rule_key index ->
  List.filter (fun h : string * string => bool_decide (h.1 = k))
    (rule_hits set_iter index conf ++ mdl_hits set_iter mdl_iter index mdls conf) = [].
Proof.
  intros Hk. assert (k ∉ set_iter (rule_key index)) as Hn by by rewrite set_iter_in.
  rewrite List.filter_app. apply app_nil. split.
  - unfold rule_hits. induction (g_rule conf) as [|w ws IH]; [done|]. cbn. rewrite List.filter_app, IH, filter_as_copies, pick_key, decide_False;
      [done|done|apply set_iter_nodup|intros k'; by apply Forall_map, Forall_forall].
  - unfold mdl_hits. induction (g_oml conf) as [|w ws IH]; [done|]. cbn. rewrite List.filter_app, IH, pick_key, decide_False;
      [done|done|apply set_iter_nodup|intros k'; by apply Forall_map, Forall_forall].
Qed.

Lemma rule_index_step index conf (r : Manager) k :
  rule_sink_idx (rule_sink_db (update_sink_rule_index set_iter mdl_iter index conf r)) !! k =
  if decide (k ∈ rule_key index)
  then foldl keep (rule_sink_idx (rule_sink_db r) !! k) (route_candidates (name_mdl_res r) k conf)
  else rule_sink_idx (rule_sink_db r) !! k.
Proof.
  unfold update_sink_rule_index. cbn [rule_sink_db set_rule_db]. set (hits := rule_hits _ _ _ ++ _).
  rewrite (foldl_ext_l _ (fun db h => apply_update db (to_update (g_name conf) h))) by done.
  rewrite <- (foldl_map_l apply_update (to_update (g_name conf))), updates_lookup, updates_of. case_decide as Hk.
  - unfold hits. rewrite List.filter_app, map_app, foldl_app, rule_hits_fold, mdl_hits_fold by done.
    unfold route_candidates. by rewrite map_app, foldl_app.
  - unfold hits. by rewrite no_hits.
Qed.

Lemma rule_index_wf index conf (r : Manager) : registry_wf (rule_sink_db r) ->
  registry_wf (rule_sink_db (update_sink_rule_index set_iter mdl_iter index conf r)).
Proof.
  intros Hw. unfold update_sink_rule_index. cbn [rule_sink_db set_rule_db].
  rewrite (foldl_ext_l _ (fun db h => apply_update db (to_update (g_name conf) h))) by done.
  rewrite <- (foldl_map_l apply_update (to_update (g_name conf))). by apply updates_wf.
Qed.

(** The index of models leaves everything else alone. *)
Definition same_rules (r r' : Manager) : Prop :=
  name_mdl_res r' = name_mdl_res r /\ rule_sink_db r' = rule_sink_db r /\ wpl_index r' = wpl_index r /\
  route_agent r' = route_agent r /\ infra r' = infra r /\ wpl_space r' = wpl_space r.

Lemma same_rules_trans r1 r2 r3 : same_rules r1 r2 -> same_rules r2 r3 -> same_rules r1 r3.
Proof. unfold same_rules. intuition congruence. Qed.

Lemma foldl_same {A} (f : Manager -> A -> Manager) l r : (forall r x, same_rules r (f r x)) -> same_rules r (foldl f r l).
Proof. intros Hf. revert r. induction l as [|x l IH]; intros r; [done|]. eapply same_rules_trans; [apply Hf|apply IH]. Qed.

Lemma mdl_index_same conf (r : Manager) : same_rules r (update_sink_mdl_index mdl_iter conf r).
Proof.
  apply foldl_same. intros r' w. apply foldl_same. intros r2 n. unfold mdl_index_step.
  destruct (negb _); [done|]. destruct (mdl_sink_map r2 !! n) as [[old m]|]; [|done]. by destruct (_ <? _).
Qed.

Lemma load_sinks_fold index confs (r : Manager) :
  let r' := foldl (fun r conf => update_sink_mdl_index mdl_iter conf (update_sink_rule_index set_iter mdl_iter index conf r)) r confs in
  name_mdl_res r' = name_mdl_res r /\
  (forall k, rule_sink_idx (rule_sink_db r') !! k = if decide (k ∈ rule_key index)
     then foldl keep (rule_sink_idx (rule_sink_db r) !! k) (candidates (name_mdl_res r) confs k)
     else rule_sink_idx (rule_sink_db r) !! k) /\
  (registry_wf (rule_sink_db r) -> registry_wf (rule_sink_db r')).
Proof.
  revert r. induction confs as [|conf confs IH]; intros r; cbn [foldl].
  { split; [done|]. split; [|done]. intros k. by case_decide. }
  set (r1 := update_sink_mdl_index mdl_iter conf _).
  destruct (mdl_index_same conf (update_sink_rule_index set_iter mdl_iter index conf r)) as (Hn & Hd & _).
  destruct (IH r1) as (In & Il & Iw). split; [by rewrite In; unfold r1; rewrite Hn|]. split.
  - intros k. rewrite Il. unfold r1. rewrite Hd, Hn, rule_index_step. case_decide; [|done].
    unfold candidates. cbn [map concat]. by rewrite foldl_app.
  - intros Hw. apply Iw. unfold r1. rewrite Hd. by apply rule_index_wf.
Qed.

(** C8: The routes of a start give every rule to one sink: of all matchers of
    all routes that match the rule, or a model that takes it, the longest wins,
    and of equally long ones the first.  The order in which the hash maps hand
    out rules and models has no influence, and each sink is related to exactly
    the rules that go to it. *)
Theorem rules_go_to_longest index confs (r : Manager)
  (Hidx : wpl_index r = Some index) (Hfresh : rule_sink_db r = mkRegistry ∅ ∅) :
  exists r', load_all_sink set_iter mdl_iter true (inl confs) r = inl (confs, r') /\
    registry_wf (rule_sink_db r') /\
    (forall k, k ∉ rule_key index -> rule_sink_idx (rule_sink_db r') !! k = None) /\
    (forall k, k ∈ rule_key index ->
       (rule_sink_idx (rule_sink_db r') !! k = None <-> candidates (name_mdl_res r) confs k = []) /\
       forall c, rule_sink_idx (rule_sink_db r') !! k = Some c <->
         exists pre post, candidates (name_mdl_res r) confs k = pre ++ c :: post /\
           Forall (fun d => slen d.2 < slen c.2) pre /\ Forall (fun d => slen d.2 <= slen c.2) post).
Proof.
  unfold load_all_sink. rewrite Hidx. cbn [ok_or rbind]. eexists. split; [done|].
  destruct (load_sinks_fold index confs r) as (_ & Hl & Hw). rewrite Hfresh in Hl, Hw. cbn [rule_sink_db set_table].
  split; [apply Hw; intros s k; split; [by intros (x & ? & _)|by intros [m ?]]|].
  split; intros k Hk; rewrite Hl; [by rewrite decide_False|]. rewrite decide_True by done. cbn [rule_sink_idx].
  rewrite lookup_empty. change (foldl keep None ?cs) with (longest cs). split; [|intros c; apply longest_spec].
  split; [|by intros ->]. intros Hn. destruct (candidates (name_mdl_res r) confs k) as [|c cs _] using rev_ind; [done|].
  unfold longest in Hn. rewrite foldl_app in Hn. cbn in Hn. unfold keep in Hn. repeat case_match; done.
Qed.
End Routes.

(** ** The indexes of the pipelines *)

(** Every key has a number of its own below the next free one. *)
Record indexer_wf (x : ResourceIndexer) : Prop := {
  ix_range k i : idx_map x !! k = Some i -> 0 <= i < unused_idx x;
  ix_inj k k' i : idx_map x !! k = Some i -> idx_map x !! k' = Some i -> k = k';
  ix_next : 0 <= unused_idx x;
}.

Lemma checkin_spec key x : indexer_wf x ->
  let '(i, x') := checkin key x in
  indexer_wf x' /\ idx_map x' !! key = Some i /\ (forall k j, idx_map x !! k = Some j -> idx_map x' !! k = Some j) /\
  (idx_map x !! key = None -> i = unused_idx x /\ unused_idx x' = unused_idx x + 1).
Proof.
  intros [Hr Hi Hn]. unfold checkin. destruct (idx_map x !! key) as [i|] eqn:E; [by split_and!|].
  split; [|split; [by cbn; rewrite lookup_insert_eq|]].
  - split; cbn.
    + intros k j Hk. apply lookup_insert_Some in Hk as [[<- <-]|[_ Hk]]; [lia|]. specialize (Hr _ _ Hk). lia.
    + intros k k' j [[<- <-]|[Hk Hj]]%lookup_insert_Some [[<- Hj']|[Hk' Hj']]%lookup_insert_Some; try done.
      * specialize (Hr _ _ Hj'). lia.
      * specialize (Hr _ _ Hj). lia.
      * by eapply Hi.
    + lia.
  - split; [|done]. intros k j Hk. cbn. rewrite lookup_insert_ne; [done|congruence].
Qed.

Section Assembly.
Context {Ru Ev An Mdl M : Type} `{!RuleApi Ru Ev An} `{!RuleLaws} `{!Matcher M} `{!ModelApi Mdl M}.
Context {L : Coll.LruApi Dim.StatDim Slice.SliceRecord}.

Notation Manager := (ResManager (Ru := Ru) (Ev := Ev) (An := An) (Mdl := Mdl) (M := M)).
Notation Pipeline := (WplPipeline (Ev := Ev) (An := An)).

Lemma build_map_keys rs (m0 m : gmap string Ev) : build_map rs m0 = inl m ->
  forall k, is_Some (m !! k) <-> is_Some (m0 !! k) \/ exists pr, pr ∈ rs /\ r_path pr.2 pr.1 = k.
Proof.
  revert m0. induction rs as [|[pkg ru] rs IH]; intros m0 E k; cbn in E.
  { injection E as ->. split; [by left|]. intros [?|(pr & []%not_elem_of_nil & _)]; done. }
  unfold rule_to_parser in E. destruct (r_compile ru) as [ev|]; [|done]. cbn in E. rewrite (IH _ E). split.
  - intros [[ev' [[<- <-]|[_ Hk]]%lookup_insert_Some]|(pr & Hin & Hp)].
    + right. exists (pkg, ru). split; [left|done].
    + left. by eexists.
    + right. exists pr. split; [by right|done].
  - intros [Hk|(pr & [->|Hin]%elem_of_cons & Hp)].
    + left. destruct (decide (r_path ru pkg = k)) as [->|Hne]; [by rewrite lookup_insert_eq|by rewrite lookup_insert_ne].
    + left. cbn in Hp. subst k. by rewrite lookup_insert_eq.
    + right. by exists pr.
Qed.

Lemma build_map_error rs (m0 : gmap string Ev) e : build_map rs m0 = inr e ->
  e = RunRule /\ exists pr, pr ∈ rs /\ r_compile pr.2 = None.
Proof.
  revert m0. induction rs as [|[pkg ru] rs IH]; intros m0 E; [done|]. cbn in E. unfold rule_to_parser in E.
  destruct (r_compile ru) as [ev|] eqn:Ec; cbn in E.
  - destruct (IH _ E) as (-> & pr & Hin & Hc). split; [done|]. exists pr. split; [by right|done].
  - injection E as <-. split; [done|]. exists (pkg, ru). split; [left|done].
Qed.

(** A target that is not there, by its name or in the package. *)
Definition dangling (m : gmap string Ev) (pkg : string) (rule : Ru) : Prop :=
  exists a name, a ∈ r_annotations rule /\ copy_rule a = Some name /\ m !! name = None /\ m !! (pkg +:+ "/" +:+ name) = None.

Lemma resolve_all_spec pkg (m : gmap string Ev) funs :
  match resolve_all pkg m funs with
  | inl fs => forall a k, a ∈ fs -> copy_rule a = Some k -> is_Some (m !! k)
  | inr e => e = RunRule /\ exists a name, a ∈ funs /\ copy_rule a = Some name /\ m !! name = None /\ m !! (pkg +:+ "/" +:+ name) = None
  end.
Proof.
  induction funs as [|ann funs IH]; cbn [resolve_all]; [by intros a k []%not_elem_of_nil|].
  assert (forall ann', (forall k, copy_rule ann' = Some k -> is_Some (m !! k)) ->
    match rbind (inl ann') (fun ann => rbind (resolve_all pkg m funs) (fun funs => inl (ann :: funs))) with
    | inl fs => forall a k, a ∈ fs -> copy_rule a = Some k -> is_Some (m !! k)
    | inr e => e = RunRule /\ exists a name, a ∈ ann :: funs /\ copy_rule a = Some name /\ m !! name = None /\ m !! (pkg +:+ "/" +:+ name) = None
    end) as Hrest.
  { intros ann' Ha. cbn. destruct (resolve_all pkg m funs) as [fs|e]; cbn.
    - intros a k [->|Hin]%elem_of_cons Hk; [by apply Ha|by eapply IH].
    - destruct IH as (-> & a & name & Hin & Hx). split; [done|]. exists a, name. split; [by right|done]. }
  destruct (copy_rule ann) as [name|] eqn:Ec; [|apply Hrest; intros k; by rewrite Ec].
  unfold resolve_target. destruct (m !! name) as [ev|] eqn:Em; cbn [from_option mbind option_bind].
  - apply Hrest. intros k. rewrite set_target_rule by congruence. intros [= <-]. by rewrite Em.
  - destruct (m !! (pkg +:+ "/" +:+ name)) as [ev|] eqn:Ef; cbn.
    + apply Hrest. intros k. rewrite set_target_rule by congruence. intros [= <-]. by rewrite Ef.
    + split; [done|]. exists ann, name. split_and!; [left|done..].
Qed.

Variable reqs : list Request.StatReq.

(** The pipeline a rule gets. *)
Record unit_of (alloc : string -> res (list SinkGroupAgent)) (m : gmap string Ev) (pr : string * Ru) (p : Pipeline) : Prop := {
  uo_key : wpl_key p = r_path pr.2 pr.1;
  uo_names : package_name p = pr.1 /\ rule_name p = r_name pr.2;
  uo_parser : m !! wpl_key p = Some (parser p);
  uo_targets a k : a ∈ fun_vec p -> copy_rule a = Some k -> is_Some (m !! k);
  uo_output : alloc (wpl_key p) = inl (output p);
  uo_flags : auto_match p = negb (is_no_match pr.2) /\ late p = is_late pr.2;
  uo_stat : mc_wf (stat_ext p);
}.

Definition unit_error (alloc : string -> res (list SinkGroupAgent)) (m : gmap string Ev) (prs : list (string * Ru)) (e : RunReason) : Prop :=
  (e = RunRule /\ exists pr, pr ∈ prs /\ dangling m pr.1 pr.2) \/ exists k, alloc k = inr e.

Definition indexed (x : ResourceIndexer) (us : list Pipeline) : Prop :=
  Forall (fun p : Pipeline => idx_map x !! wpl_key p = Some (p_index p)) us.

Lemma indexed_mono x x' us : (forall k j, idx_map x !! k = Some j -> idx_map x' !! k = Some j) -> indexed x us -> indexed x' us.
Proof. intros Hm Hx. eapply Forall_impl; [exact Hx|]. intros p. apply Hm. Qed.

Lemma unit_error_cons alloc m pr prs e : unit_error alloc m prs e -> unit_error alloc m (pr :: prs) e.
Proof. intros [(-> & x & Hin & Hd)|Ha]; [left; split; [done|]; exists x; split; [by right|done]|by right]. Qed.

Lemma ins_units_spec alloc m pkg rs x cell : indexer_wf x -> (forall ru, ru ∈ rs -> is_Some (m !! r_path ru pkg)) ->
  exists res, ins_units alloc pkg rs x reqs m cell = Ret res /\
    match res with
    | inl (us, x') => Forall2 (unit_of alloc m) (map (pair pkg) rs) us /\ map send_rr us = seq cell (length rs) /\
        indexer_wf x' /\ indexed x' us /\ (forall k j, idx_map x !! k = Some j -> idx_map x' !! k = Some j)
    | inr e => unit_error alloc m (map (pair pkg) rs) e
    end.
Proof.
  revert x cell. induction rs as [|ru rs IH]; intros x cell Hx Hm; cbn [ins_units].
  { eexists. split; [done|]. split_and!; [constructor|done..|constructor|done]. }
  destruct (Hm ru ltac:(left)) as [ev Eev]. rewrite Eev.
  pose proof (resolve_all_spec pkg m (List.filter (fun a => negb (ann_null a)) (r_annotations ru))) as Hf.
  unfold annotate_funcs. destruct (resolve_all pkg m _) as [funcs|e].
  2:{ eexists. split; [done|]. destruct Hf as (-> & a & name & Hin & Hx'). left. split; [done|]. exists (pkg, ru).
      split; [left|]. exists a, name. split; [|done]. apply list_elem_of_In, List.filter_In in Hin as [Hin _]. by apply list_elem_of_In. }
  destruct (alloc (r_path ru pkg)) as [agent|e] eqn:Ea; [|eexists; split; [done|]; right; by eexists].
  pose proof (checkin_spec (r_path ru pkg) x Hx) as Hc. destruct (checkin (r_path ru pkg) x) as [i x1].
  destruct Hc as (Hx1 & Hi & Hmono & _).
  destruct (IH x1 (S cell) Hx1 (fun ru' Hin => Hm ru' ltac:(by right))) as (res & -> & Hres). cbn [obind].
  eexists. split; [done|]. destruct res as [[us x2]|e]; cbn [rbind fst snd]; [|by apply unit_error_cons].
  destruct Hres as (Hu & Hrr & Hx2 & Hix & Hm2). split_and!; [| |done| |by eauto].
  - constructor; [|done]. unfold apply_rule_flags.
    destruct (is_no_match ru) eqn:En, (is_late ru) eqn:El; split; cbn; rewrite ?En, ?El; try done; apply mc_new_wf.
  - unfold apply_rule_flags. cbn [map seq length]. rewrite Hrr. f_equal. by destruct (is_no_match ru), (is_late ru).
  - constructor; [|done]. unfold apply_rule_flags. destruct (is_no_match ru), (is_late ru); cbn; by apply Hm2.
Qed.

Definition numbered (us : list Pipeline) : Prop := map send_rr us = seq 0 (length us).

Lemma ins_packages_spec m ps x (r : Manager) : indexer_wf x -> indexed x (parse_units r) -> numbered (parse_units r) ->
  (forall pr, pr ∈ all_rules ps -> is_Some (m !! r_path pr.2 pr.1)) ->
  exists res, ins_packages reqs m ps x r = Ret res /\
    match res with
    | inl r' => exists us x', parse_units r' = parse_units r ++ us /\ Forall2 (unit_of (alloc_parse_res r) m) (all_rules ps) us /\
        numbered (parse_units r') /\ indexer_wf x' /\ indexed x' (parse_units r')
    | inr e => unit_error (alloc_parse_res r) m (all_rules ps) e
    end.
Proof.
  revert x r. induction ps as [|p ps IH]; intros x r Hx Hix Hn Hm; cbn [ins_packages].
  { eexists. split; [done|]. exists [], x. rewrite app_nil_r. split_and!; [done|constructor|done..]. }
  assert (all_rules (p :: ps) = map (pair (pkg_name p)) (rules p) ++ all_rules ps) as Ha by done.
  destruct (ins_units_spec (alloc_parse_res r) m (pkg_name p) (rules p) x (length (parse_units r)) Hx) as (res & E1 & Hres).
  { intros ru Hin. apply (Hm (pkg_name p, ru)). rewrite Ha. apply elem_of_app. left. by apply list_elem_of_fmap_2. }
  unfold multi_code_ins_parse_units. rewrite E1. cbn [obind]. destruct res as [[us x1]|e].
  2:{ eexists. split; [done|]. rewrite Ha. destruct Hres as [(-> & pr & Hin & Hd)|Hb]; [left|by right].
      split; [done|]. exists pr. split; [apply elem_of_app; by left|done]. }
  destruct Hres as (Hu & Hrr & Hx1 & Hix1 & Hmono).
  assert (length us = length (rules p)) as Hlen by (by rewrite <- (Forall2_length _ _ _ Hu), length_map).
  destruct (IH x1 (add_units r us) Hx1) as (res & -> & Hres).
  - apply Forall_app. split; [by eapply indexed_mono|done].
  - unfold numbered in *. cbn. rewrite map_app, Hn, Hrr, length_app, Hlen. by rewrite <- seq_app.
  - intros pr Hin. apply Hm. rewrite Ha. apply elem_of_app. by right.
  - eexists. split; [done|]. destruct res as [r'|e].
    + destruct Hres as (us' & x' & Hp & Hu' & Hrest). exists (us ++ us'), x'. cbn in Hp. rewrite Hp, <- app_assoc.
      split; [done|]. split; [rewrite Ha; by apply Forall2_app|]. by rewrite app_assoc, <- Hp.
    + rewrite Ha. destruct Hres as [(-> & pr & Hin & Hd)|Hb]; [left|by right].
      split; [done|]. exists pr. split; [apply elem_of_app; by right|done].
Qed.

Lemma alloc_some (r : Manager) k out : alloc_parse_res r k = inl out -> out <> [] /\
  forall a, a ∈ out -> (exists i, infra r = Some i /\ a = i_default i) \/
    exists agents m, route_agent r = Some agents /\ a ∈ agents /\ rule_sink_idx (rule_sink_db r) !! k = Some (agent_name a, m).
Proof.
  unfold alloc_parse_res. destruct (route_agent r) as [agents|] eqn:Er; [|done]. cbn [ok_or rbind].
  destruct (rule_sink_idx (rule_sink_db r) !! k) as [[idx m]|] eqn:Ek.
  - destruct (List.filter _ agents) as [|a0 l] eqn:Ef.
    + destruct (infra r) as [i|]; [|done]. intros [= <-]. split; [done|]. intros a ->%list_elem_of_singleton. left. by exists i.
    + intros [= <-]. split; [done|]. intros a Hin. right. rewrite <- Ef in Hin.
      apply list_elem_of_In, List.filter_In in Hin as [Hin <-%String.eqb_eq]. exists agents, m. split; [done|]. by split; [apply list_elem_of_In|].
  - destruct (infra r) as [i|]; [|done]. intros [= <-]. split; [done|]. intros a ->%list_elem_of_singleton. left. by exists i.
Qed.

Lemma alloc_error (r : Manager) k e : alloc_parse_res r k = inr e -> e = RunValidation /\ (route_agent r = None \/ infra r = None).
Proof.
  unfold alloc_parse_res. destruct (route_agent r) as [agents|]; [|intros [= <-]; by auto]. cbn [ok_or rbind].
  destruct (match rule_sink_idx (rule_sink_db r) !! k with Some (idx, _) => _ | None => [] end) as [|a l]; [|done].
  destruct (infra r); [done|]. intros [= <-]. by auto.
Qed.

Lemma lookup_key (m : gmap string Ev) ps (us : list Pipeline) alloc k : Forall2 (unit_of alloc m) (all_rules ps) us ->
  (exists pr, pr ∈ all_rules ps /\ r_path pr.2 pr.1 = k) -> exists p, p ∈ us /\ wpl_key p = k.
Proof.
  induction 1 as [|pr p prs us Hp _ IH]; intros (pr' & Hin & Hk); [by apply not_elem_of_nil in Hin|].
  apply elem_of_cons in Hin as [->|Hin].
  - exists p. split; [left|]. by rewrite (uo_key _ _ _ _ Hp).
  - destruct IH as (q & Hq & Hqk); [by exists pr'|]. exists q. split; [by right|done].
Qed.

(** C9: Over a loaded rule space, and with no pipeline built before, the start
    builds one pipeline for every rule of every package, in their
    order, or fails with a reason; it never panics.  A rule marked [no_match] has
    its pipeline too, left out of the automatic matching: the comment of
    [is_no_match] says such a rule is passed over, the changelog and the test
    beside it say what the code does.  A pipeline has the path and
    the flags of its rule and the evaluator kept under its path; it has an
    output, so that a send never divides by zero: the groups of the sink the
    rule goes to, or the default group.  Where a rule copies its events to
    another, that rule has a pipeline, so the side records have a way out.  No
    two pipelines share a round-robin counter, and two have the same index only
    when they have the same path. *)
Theorem engine_pipelines_sound (r : Manager) agents ps (Hsp : wpl_space r = Some ps) (Hfresh : parse_units r = []) :
  exists res, ins_engine_res agents reqs r = Ret res /\
  match res with
  | inl r' =>
      Forall2 (fun pr p => wpl_key p = r_path pr.2 pr.1 /\ package_name p = pr.1 /\ rule_name p = r_name pr.2 /\
        auto_match p = negb (is_no_match pr.2) /\ late p = is_late pr.2) (all_rules ps) (parse_units r') /\
      (exists m, build_global_parser_map ps = inl m /\ forall p, p ∈ parse_units r' -> m !! wpl_key p = Some (parser p)) /\
      (forall p, p ∈ parse_units r' -> output p <> [] /\ forall a, a ∈ output p ->
         (exists i, infra r = Some i /\ a = i_default i) \/
         (a ∈ agents /\ exists m, rule_sink_idx (rule_sink_db r) !! wpl_key p = Some (agent_name a, m))) /\
      (forall p a k, p ∈ parse_units r' -> a ∈ fun_vec p -> copy_rule a = Some k ->
         exists q, q ∈ parse_units r' /\ wpl_key q = k) /\
      engine_wf (parse_units r') /\ NoDup (map send_rr (parse_units r')) /\
      (forall p q, p ∈ parse_units r' -> q ∈ parse_units r' -> p_index p = p_index q <-> wpl_key p = wpl_key q)
  | inr e => (e = RunValidation /\ infra r = None) \/
      (e = RunRule /\ ((exists pr, pr ∈ all_rules ps /\ r_compile pr.2 = None) \/
         exists m pr, build_global_parser_map ps = inl m /\ pr ∈ all_rules ps /\ dangling m pr.1 pr.2))
  end.
Proof.
  unfold ins_engine_res. cbn [wpl_space set_route_agent]. rewrite Hsp.
  destruct (build_global_parser_map ps) as [m|e] eqn:Em.
  2:{ eexists. split; [done|]. right. apply build_map_error in Em as [-> Hc]. split; [done|by left]. }
  pose proof (build_map_keys _ _ _ Em) as Hkeys.
  destruct (ins_packages_spec m ps ResourceIndexer_default (set_route_agent r agents)) as (res & -> & Hres).
  - split; [by intros k i|by intros k k' i|cbn; lia].
  - cbn. rewrite Hfresh. constructor.
  - unfold numbered. cbn. by rewrite Hfresh.
  - intros pr Hin. apply Hkeys. right. by exists pr.
  - eexists. split; [done|]. destruct res as [r'|e].
    2:{ destruct Hres as [(-> & pr & Hin & Hd)|[k Hk]].
        - right. split; [done|]. right. by exists m, pr.
        - left. apply alloc_error in Hk as [-> [Hk|Hk]]; [done|]. by cbn in Hk. }
    destruct Hres as (us & x' & Hp & Hu & Hn & Hx' & Hix). cbn in Hp. rewrite Hfresh in Hp. cbn in Hp. rewrite Hp in *.
    assert (forall p, p ∈ us -> exists pr, pr ∈ all_rules ps /\ unit_of (alloc_parse_res (set_route_agent r agents)) m pr p) as Hof.
    { intros p Hin. clear -Hu Hin. induction Hu as [|pr q prs us Hq _ IH]; [by apply not_elem_of_nil in Hin|].
      apply elem_of_cons in Hin as [->|Hin]; [exists pr; split; [left|done]|].
      destruct (IH Hin) as (pr' & H1 & H2). exists pr'. split; [by right|done]. }
    split_and!.
    + eapply Forall2_impl; [exact Hu|]. intros pr p [Hk [Hn1 Hn2] _ _ _ [Hf1 Hf2] _]. by split_and!.
    + exists m. split; [done|]. intros p Hin. destruct (Hof p Hin) as (pr & _ & Hq). by destruct Hq.
    + intros p Hin. destruct (Hof p Hin) as (pr & _ & [_ _ _ _ Ho _ _]). apply alloc_some in Ho as [Hne Hall].
      split; [done|]. intros a Ha. destruct (Hall a Ha) as [Hd|(ags & mt & Hr & Hag & Hi)]; [by left|right].
      cbn in Hr. injection Hr as <-. split; [done|by exists mt].
    + intros p a k Hin Ha Hk. destruct (Hof p Hin) as (pr & _ & [_ _ _ Ht _ _ _]). specialize (Ht a k Ha Hk).
      apply Hkeys in Ht as [[? Hx]|Hpr]; [done|]. by eapply lookup_key.
    + unfold engine_wf. apply Forall_forall. intros p Hin. destruct (Hof p Hin) as (pr & _ & Hq). by destruct Hq.
    + rewrite Hn. apply NoDup_ListNoDup, seq_NoDup.
    + intros p q Hip Hiq. unfold indexed in Hix. rewrite Forall_forall in Hix.
      pose proof (Hix p Hip) as Hp1. pose proof (Hix q Hiq) as Hq1. split; intros E.
      * rewrite E in Hp1. by eapply (ix_inj _ Hx').
      * rewrite E in Hp1. congruence.
Qed.
End Assembly.

(** ** The index of models *)
Section Models.
Context {Ru Ev An Mdl M : Type} `{!RuleApi Ru Ev An} `{!Matcher M} `{!ModelApi Mdl M}.
Context {L : Coll.LruApi Dim.StatDim Slice.SliceRecord}.
Variable mdl_iter : gmap string Mdl -> list (string * Mdl).
Hypothesis Hmdl : forall g, mdl_iter g ≡ₚ map_to_list g.

Notation Manager := (ResManager (Ru := Ru) (Ev := Ev) (An := An) (Mdl := Mdl) (M := M)).
Notation Route := (RouteGroup (M := M)).
Notation owners r := (related (sink_mdl_relation r)).

(** What a step over another model leaves alone. *)
Definition same_model (name : string) (r r' : Manager) : Prop :=
  name_mdl_res r' = name_mdl_res r /\ mdl_sink_map r' !! name = mdl_sink_map r !! name /\
  forall s, owners r' s name <-> owners r s name.

Lemma mdl_step_other sink w (r : Manager) n name : n <> name -> same_model name r (mdl_index_step sink w r n).
Proof.
  intros Hn. unfold mdl_index_step. destruct (negb _); [done|].
  destruct (mdl_sink_map r !! n) as [[old m]|] eqn:E; [destruct (_ <? _); [done|]|];
    (split; [done|]); (split; [cbn; rewrite ?lookup_insert_ne by done; done|]); intros s; cbn;
    rewrite related_associate, ?related_disassociate; naive_solver.
Qed.

Lemma mdl_steps_other sink w (r : Manager) ns name : name ∉ ns -> same_model name r (foldl (mdl_index_step sink w) r ns).
Proof.
  revert r. induction ns as [|n ns IH]; intros r Hn; [done|]. apply not_elem_of_cons in Hn as [Hne Hn]. cbn [foldl].
  destruct (mdl_step_other sink w r n name) as (H1 & H2 & H3); [done|].
  destruct (IH (mdl_index_step sink w r n) Hn) as (K1 & K2 & K3).
  split; [congruence|]. split; [congruence|]. intros s. by rewrite K3, H3.
Qed.

(** A route with one matcher, seen from one model it matches. *)
Lemma mdl_route (conf : Route) w (r : Manager) name : g_oml conf = [w] -> wm_matches w name = true ->
  is_Some (name_mdl_res r !! name) ->
  let r' := update_sink_mdl_index mdl_iter conf r in
  name_mdl_res r' = name_mdl_res r /\
  match mdl_sink_map r !! name with
  | None => mdl_sink_map r' !! name = Some (g_name conf, wm_text w) /\
      forall s, owners r' s name <-> s = g_name conf \/ owners r s name
  | Some (old, m) => mdl_sink_map r' !! name = Some (old, m) /\
      forall s, owners r' s name <->
        if slen (wm_text w) <? slen m then owners r s name else s = g_name conf \/ (owners r s name /\ s <> old)
  end.
Proof.
  intros Hw Hm [md Hin]. unfold update_sink_mdl_index. rewrite Hw. cbn [foldl].
  assert (NoDup (map fst (mdl_iter (name_mdl_res r)))) as Hnd by (rewrite Hmdl; apply NoDup_fst_map_to_list).
  assert (name ∈ map fst (mdl_iter (name_mdl_res r))) as Hn.
  { rewrite Hmdl. apply (list_elem_of_fmap_2 fst _ (name, md)). by apply elem_of_map_to_list. }
  apply list_elem_of_split in Hn as (pre & post & E). rewrite E in Hnd |- *.
  apply NoDup_app in Hnd as (_ & Hpre & Hpost). apply NoDup_cons in Hpost as [Hpost _].
  rewrite foldl_app. cbn [foldl].
  destruct (mdl_steps_other (g_name conf) w r pre name) as (P1 & P2 & P3); [intros Hx; apply (Hpre _ Hx); left|].
  set (r1 := foldl _ r pre) in *. destruct (mdl_steps_other (g_name conf) w (mdl_index_step (g_name conf) w r1 name) post name Hpost)
    as (Q1 & Q2 & Q3).
  rewrite Q1, Q2. unfold mdl_index_step in *. rewrite Hm, P2 in *. cbn [negb] in *.
  destruct (mdl_sink_map r !! name) as [[old m]|].
  - destruct (slen (wm_text w) <? slen m).
    + split; [done|]. split; [by rewrite P2|]. intros s. by rewrite Q3, P3.
    + split; [done|]. split; [cbn; by rewrite P2|]. intros s. rewrite Q3. cbn.
      rewrite related_associate, related_disassociate, P3. naive_solver.
  - split; [done|]. split; [cbn; by rewrite lookup_insert_eq|]. intros s. rewrite Q3. cbn.
    rewrite related_associate, P3. naive_solver.
Qed.

(** The index of models forgets who has a model: the sink and the matcher it
    compares with are those of the first route that matched, for ever.  When
    three routes match a model and neither of the later two is shorter than the
    first, the model is taken from the first sink twice and stays with both
    other sinks; a third matcher shorter than the second moves it as well. *)
Theorem model_stays_with_two_sinks (w1 w2 w3 : M) (s1 s2 s3 name : string) (r : Manager)
  (Hin : is_Some (name_mdl_res r !! name)) (Hnew : mdl_sink_map r !! name = None)
  (Hnone : forall s, ~ related (sink_mdl_relation r) s name)
  (Hm : wm_matches w1 name = true /\ wm_matches w2 name = true /\ wm_matches w3 name = true)
  (Hlen : slen (wm_text w1) <= slen (wm_text w2) /\ slen (wm_text w1) <= slen (wm_text w3))
  (Hne : s1 <> s2 /\ s1 <> s3) :
  forall s, related (sink_mdl_relation (foldl (fun r c => update_sink_mdl_index mdl_iter c r) r
      [mkRoute s1 [] [w1]; mkRoute s2 [] [w2]; mkRoute s3 [] [w3]])) s name <-> s = s2 \/ s = s3.
Proof.
  destruct Hm as (H1 & H2 & H3), Hlen as [L2 L3], Hne as [N2 N3]. cbn [foldl]. intros s.
  destruct (mdl_route (mkRoute s1 [] [w1]) w1 r name eq_refl H1 Hin) as [I1 E1]. rewrite Hnew in E1. destruct E1 as [M1 O1].
  set (r1 := update_sink_mdl_index mdl_iter (mkRoute s1 [] [w1]) r) in *. rewrite <- I1 in Hin.
  destruct (mdl_route (mkRoute s2 [] [w2]) w2 r1 name eq_refl H2 Hin) as [I2 E2]. rewrite M1 in E2. cbn [g_name] in E2.
  destruct E2 as [M2 O2]. set (r2 := update_sink_mdl_index mdl_iter (mkRoute s2 [] [w2]) r1) in *. rewrite <- I2 in Hin.
  destruct (mdl_route (mkRoute s3 [] [w3]) w3 r2 name eq_refl H3 Hin) as [_ E3]. rewrite M2 in E3. cbn [g_name] in E3.
  destruct E3 as [_ O3]. rewrite O3. rewrite (proj2 (Z.ltb_ge _ _) L3), (O2 s), (proj2 (Z.ltb_ge _ _) L2), (O1 s).
  cbn [g_name]. specialize (Hnone s). split; [intros [->|[[->|[[->|?] ?]] ?]]; auto; done|intros [->| ->]; [|by left]].
  destruct (decide (s2 = s3)) as [->|]; [by left|]. right. split; [by left|congruence].
Qed.
End Models.

(** ** Loading rules, routing by rule *)
Section Load.
Context {Ru Code Ev An M : Type} `{!RuleApi Ru Ev An} `{!Matcher M}.
Variable parse : Code -> WplPackage Ru + WplCodeReason.
Variable mode : RobustnessMode.

Definition loaded (codes : list Code) : list (WplPackage Ru) :=
  omap (fun c => match parse c with inl p => Some p | inr _ => None end) codes.

(** A file that does not parse is skipped, unless its error is one the mode
    throws or the error sink refuses the record about it. *)
Lemma tolerant_load takes codes : (forall n, takes n = true) ->
  match from_wpl_tolerant parse mode takes codes with
  | inl ps => ps = loaded codes /\ forall c e, c ∈ codes -> parse c = inr e -> err4_load_wpl mode e <> SThrow
  | inr e => exists c, c ∈ codes /\ parse c = inr e /\ err4_load_wpl mode e = SThrow
  end.
Proof.
  intros Ht. unfold from_wpl_tolerant. generalize 0%nat. change (loaded codes) with ([] ++ loaded codes).
  generalize (@nil (WplPackage Ru)). induction codes as [|c codes IH]; intros acc n; cbn [from_wpl_impl].
  { rewrite app_nil_r. split; [done|]. by intros c e Hc%not_elem_of_nil. }
  assert (forall acc', loaded (c :: codes) = (match parse c with inl p => [p] | inr _ => [] end) ++ loaded codes ->
     acc' = acc ++ (match parse c with inl p => [p] | inr _ => [] end) ->
     (forall e, parse c = inr e -> err4_load_wpl mode e <> SThrow) ->
     match from_wpl_impl parse mode (Some takes) codes (S n) acc' with
     | inl ps => ps = acc ++ loaded (c :: codes) /\ forall c0 e, c0 ∈ c :: codes -> parse c0 = inr e -> err4_load_wpl mode e <> SThrow
     | inr e => exists c0, c0 ∈ c :: codes /\ parse c0 = inr e /\ err4_load_wpl mode e = SThrow
     end) as Hgo.
  { intros acc' El -> Hc. specialize (IH (acc ++ match parse c with inl p => [p] | inr _ => [] end) (S n)).
    destruct (from_wpl_impl _ _ _ codes (S n) _) as [ps|e].
    - destruct IH as [-> Hall]. rewrite El, <- app_assoc. split; [done|].
      intros c0 e [->|Hin]%elem_of_cons; [by apply Hc|by apply Hall].
    - destruct IH as (c0 & Hin & Hx). exists c0. split; [by right|done]. }
  destruct (parse c) as [p|e] eqn:Ep.
  - apply Hgo; [unfold loaded; cbn; by rewrite Ep|done|done].
  - destruct (err4_load_wpl mode e) eqn:Ee; [| |exists c; split; [left|done]]; [|rewrite Ht];
      (apply Hgo; [unfold loaded; cbn; by rewrite Ep|by rewrite app_nil_r|intros e' [= <-]; by rewrite Ee]).
Qed.

(** Of the groups that match a rule, one with a longest first matcher. *)
Lemma route_longest (items : list (RouteAgent (M := M))) rule :
  match route items rule with
  | Some a => exists n, a ∈ items /\ group_is_match (ra_conf a) rule = Some n /\
      forall b k, b ∈ items -> group_is_match (ra_conf b) rule = Some k -> k <= n
  | None => forall b k, b ∈ items -> group_is_match (ra_conf b) rule = Some k -> k <= 0
  end.
Proof.
  unfold route. enough (forall mx found, match rout_impl items rule mx found with
    | Some a => (found = Some a /\ forall b k, b ∈ items -> group_is_match (ra_conf b) rule = Some k -> k <= mx) \/
        exists n, a ∈ items /\ group_is_match (ra_conf a) rule = Some n /\ mx < n /\
          forall b k, b ∈ items -> group_is_match (ra_conf b) rule = Some k -> k <= n
    | None => found = None /\ forall b k, b ∈ items -> group_is_match (ra_conf b) rule = Some k -> k <= mx end) as Hx.
  { specialize (Hx 0 None). destruct (rout_impl items rule 0 None); [|naive_solver].
    destruct Hx as [[? _]|(n & ? & ? & _ & ?)]; [done|]. by exists n. }
  induction items as [|it items IH]; intros mx found; cbn [rout_impl].
  { destruct found; [left|]; (split; [done|]); by intros b k Hb%not_elem_of_nil. }
  destruct (group_is_match (ra_conf it) rule) as [n|] eqn:E; [destruct (mx <? n) eqn:El|].
  - specialize (IH n (Some it)). destruct (rout_impl items rule n (Some it)) as [a|]; [|by destruct IH].
    right. destruct IH as [[[= <-] Hall]|(k & Hin & Hk & Hlt & Hall)].
    + exists n. split_and!; [left|done|lia|]. intros b k [->|Hb]%elem_of_cons Hk; [|by eapply Hall]. assert (k = n) by congruence. lia.
    + exists k. split_and!; [by right|done|lia|]. intros b j [->|Hb]%elem_of_cons Hj; [|by eapply Hall]. assert (j = n) by congruence. lia.
  - specialize (IH mx found). destruct (rout_impl items rule mx found) as [a|].
    + destruct IH as [[-> Hall]|(k & Hin & Hk & Hlt & Hall)]; [left|right].
      * split; [done|]. intros b j [->|Hb]%elem_of_cons Hj; [|by eapply Hall]. assert (j = n) by congruence. lia.
      * exists k. split_and!; [by right|done|done|]. intros b j [->|Hb]%elem_of_cons Hj; [|by eapply Hall]. assert (j = n) by congruence. lia.
    + destruct IH as [-> Hall]. split; [done|]. intros b j [->|Hb]%elem_of_cons Hj; [|by eapply Hall]. assert (j = n) by congruence. lia.
  - specialize (IH mx found). destruct (rout_impl items rule mx found) as [a|].
    + destruct IH as [[-> Hall]|(k & Hin & Hk & Hlt & Hall)]; [left|right].
      * split; [done|]. intros b j [->|Hb]%elem_of_cons Hj; [congruence|by eapply Hall].
      * exists k. split_and!; [by right|done|done|]. intros b j [->|Hb]%elem_of_cons Hj; [congruence|by eapply Hall].
    + destruct IH as [-> Hall]. split; [done|]. intros b j [->|Hb]%elem_of_cons Hj; [congruence|by eapply Hall].
Qed.
End Load.
