(* ===== verification/ResourcesInst.v ===== *)
(** Concrete rules, models and routes: matchers are prefixes, a rule is its
    name, its flag and the rule it copies its events to; the theorems of
    [ResourcesLaws] hold on them. *)
From Stdlib Require Import ZArith Lia String Ascii.
From stdpp Require Import prelude strings gmap.
From S2P Require Import Prelude F64 Text DataModel ErrPolicy Picker SinkRuntime Tags Stats StatsLaws Metrics MetricsLaws Dispatcher WplEngine WplEngineLaws WplEngineInst Resources ResourcesLaws.
Local Open Scope string_scope.
Local Open Scope list_scope.
Local Open Scope Z_scope.

#[local] Existing Instance Dim.StatDim_eq_dec.
#[local] Existing Instance demo_lru.

#[local] Instance prefix_matcher : Matcher string := {| wm_matches w s := String.prefix w s; wm_text w := w |}.

Definition DemoMdl : Type := string * list string.
#[local] Instance demo_mdl : ModelApi DemoMdl string := {| mdl_name m := m.1; mdl_enable _ := true; mdl_rules m := m.2 |}.

Record DemoRu := mkDemoRu { dr_name : string; dr_late : bool; dr_copy : option string }.

#[local] Instance demo_rule_api : RuleApi DemoRu DemoRule (option string) := {|
  r_name := dr_name; r_path ru pkg := pkg +:+ "/" +:+ dr_name ru;
  r_annotations ru := [dr_copy ru]; r_no_match _ := None; r_late ru := Some (dr_late ru);
  r_compile ru := Some (if dr_late ru then Broken else Keyword (dr_name ru)); ann_null a := match a with None => true | _ => false end;
  copy_rule a := a; set_target _ _ k := Some k
|}.

#[local] Instance demo_rule_laws : RuleLaws (Ev := DemoRule).
Proof. split. done. Defined.

Definition demo_packages : list (WplPackage DemoRu) :=
  [mkPackage "net" [mkDemoRu "any" true None; mkDemoRu "http" false (Some "raw"); mkDemoRu "raw" false (Some "/sys/log")];
   mkPackage "/sys" [mkDemoRu "log" false None]].

Definition demo_routes : list (RouteGroup (M := string)) :=
  [mkRoute "all" [""] []; mkRoute "net" ["net/"; "net/h"] []; mkRoute "web" ["net/h"] ["web_mod"]].

Notation DManager := (ResManager (Ru := DemoRu) (Ev := DemoRule) (An := option string) (Mdl := DemoMdl) (M := string)).

Definition demo_manager : DManager :=
  set_models (set_space (set_infra_agent ResManager_default (demo_infra 1 2)) demo_packages) {["web_model" := ("web_model", ["net/raw"])]} ∅.

Definition demo_loaded := load_all_sink elements map_to_list true (inl demo_routes) demo_manager.

(** Where the rules go: the longest matcher, the first of equals. *)
Example demo_goes :
  match demo_loaded with
  | inl (_, r) => map (fun k => rule_sink_idx (rule_sink_db r) !! k) ["net/any"; "net/http"; "net/raw"; "/sys/log"]
  | inr _ => []
  end = [Some ("net", "net/"); Some ("net", "net/h"); Some ("web", "web_mod"); Some ("all", "")].
Proof. vm_compute. reflexivity. Qed.

Lemma rules_go_to_longest_witness : exists r', demo_loaded = inl (demo_routes, r') /\ registry_wf (rule_sink_db r').
Proof.
  destruct (rules_go_to_longest elements map_to_list (fun X => reflexivity _) (fun g => reflexivity _)
    (SpaceIndex_from demo_packages) demo_routes demo_manager eq_refl eq_refl) as (r' & E1 & Hw & _).
  exists r'. split; [exact E1|exact Hw].
Defined.

Definition demo_assembled :=
  match demo_loaded with
  | inl (_, r) => ins_engine_res [mkAgent "all" (Channel 5); mkAgent "net" (Channel 6)] [] r
  | inr _ => Panic
  end.

(** The pipelines: their keys, the target of a copy, where they send. *)
Example demo_units :
  match demo_assembled with
  | Ret (inl r) => map (fun p => (wpl_key p, fun_vec p, map end_point (output p), late p)) (parse_units r)
  | _ => []
  end = [("net/any", [], [Channel 6], true); ("net/http", [Some "net/raw"], [Channel 6], false);
         ("net/raw", [Some "/sys/log"], [BlackHole], false); ("/sys/log", [], [Channel 5], false)].
Proof. vm_compute. reflexivity. Qed.

Lemma engine_pipelines_sound_witness :
  wpl_space demo_manager = Some demo_packages /\
  exists rr, ins_engine_res [mkAgent "all" (Channel 5)] [] demo_manager = Ret rr /\
    match rr with inl r' => engine_wf (parse_units r') /\ NoDup (map send_rr (parse_units r')) | inr _ => True end.
Proof.
  split; [reflexivity|].
  destruct (engine_pipelines_sound [] demo_manager [mkAgent "all" (Channel 5)] demo_packages eq_refl eq_refl) as (rr & E1 & Hr).
  exists rr. split; [exact E1|]. destruct rr as [r'|e]; [|exact I]. destruct Hr as (_ & _ & _ & _ & Hw & Hn & _). split; assumption.
Defined.

(** Two rules under one path: both pipelines get the evaluator of the last. *)
Example duplicate_rule_parses_as_last :
  match ins_engine_res [] [] (set_space demo_manager
    [mkPackage "p" [mkDemoRu "r" false None]; mkPackage "p" [mkDemoRu "r" true None]]) with
  | Ret (inl r) => map (fun p => (wpl_key p, p_index p, parser p, late p)) (parse_units r)
  | _ => []
  end = [("p/r", 0, Broken, false); ("p/r", 0, Broken, true)].
Proof. vm_compute. reflexivity. Qed.

Lemma model_stays_with_two_sinks_witness :
  forall s, related (sink_mdl_relation (foldl (fun r c => update_sink_mdl_index map_to_list c r) demo_manager
    [mkRoute "a" [] ["web"]; mkRoute "b" [] ["web_"]; mkRoute "c" [] ["web_mo"]])) s "web_model" <-> s = "b" \/ s = "c".
Proof.
  apply (model_stays_with_two_sinks map_to_list (fun g => reflexivity _) "web" "web_" "web_mo" "a" "b" "c" "web_model" demo_manager).
  - by eexists.
  - reflexivity.
  - intros s (x & Hx & _). change ((∅ : gmap string (gset string)) !! s = Some x) in Hx. by rewrite lookup_empty in Hx.
  - split_and!; reflexivity.
  - split; vm_compute; discriminate.
  - split; discriminate.
Defined.
