(* ===== verification/Recovery.v ===== *)
(** Rescue files and their replay ([src/src/sinks/rescue.rs],
    [src/src/runtime/collector/recovery/mod.rs]): what a sink on its rescue file
    writes, and the task that reads the files back into the sinks.

    A file is its text; the file system is a map from paths to texts, changed by
    the steps and, between them, by others.  The JSON of an entry is a crate's
    (the class [RescueJson]), as is the parsing of the time in a file's name.
    A write that fails is taken to leave nothing. *)
From Stdlib Require Import ZArith Lia String Ascii.
From stdpp Require Import prelude strings gmap.
From S2P Require Import Prelude F64 Text Utf8 RateLimit Actor DataModel ErrPolicy Picker SinkRuntime Tags Stats Metrics Dispatcher WplEngine Resources.
Local Open Scope string_scope.
Local Open Scope list_scope.
Local Open Scope Z_scope.
Local Open Scope wp_scope.

Definition LF : ascii := "010"%char.
Definition CR : ascii := "013"%char.

Notation Fs := (gmap string string).

(** ** Paths of the language's library

    The components of a path: empty ones and [.] say nothing, but for a leading
    [.] of a relative path. *)
Definition component (s : string) : bool := negb (String.eqb s "" || String.eqb s ".").

Definition components (p : string) : bool * list string :=
  if starts_with p "/" then (true, List.filter component (str_split "/" p))
  else (false, match str_split "/" p with
               | s :: r => (if String.eqb s "." then [s] else List.filter component [s]) ++ List.filter component r
               | [] => []
               end).

Fixpoint strip_list (root p : list string) : option (list string) :=
  match root, p with
  | [], _ => Some p
  | r :: root, s :: p => if String.eqb r s then strip_list root p else None
  | _, [] => None
  end.

(** [Path::strip_prefix], as components. *)
Definition strip_prefix (root p : string) : option (list string) :=
  let '(r1, c1) := components root in let '(r2, c2) := components p in
  if Bool.eqb r1 r2 then strip_list c1 c2 else None.

Definition file_name (p : string) : option string :=
  match rev (components p).2 with s :: _ => if String.eqb s ".." || String.eqb s "." then None else Some s | [] => None end.

(** [str::strip_suffix] *)
Definition strip_suffix (s suffix : string) : option string :=
  if ends_with s suffix then Some (substring 0 (String.length s - String.length suffix) s) else None.

(** ** [sinks/rescue.rs] *)
Section Rescue.
Context {R : Type}.

Inductive RescuePayload := PRecord (r : R) | PRaw (raw : string).
Record RescueEntry := mkEntry { version : Z; payload : RescuePayload }.

Definition CURRENT_VERSION : Z := 1.
Definition RESCUE_FLUSH_INTERVAL : Z := 100.
Definition entry_record (r : R) : RescueEntry := mkEntry CURRENT_VERSION (PRecord r).
Definition entry_raw_line (raw : string) : RescueEntry := mkEntry CURRENT_VERSION (PRaw raw).

(** [serde_json] on entries. *)
Class RescueJson := { entry_text : RescueEntry -> string; entry_parse : string -> option RescueEntry }.

(** The text of an entry is one line of UTF-8.  Whether it reads back, and as
    what, is not assumed: a float may come back rounded, and a number JSON has no
    name for does not come back ([reads]). *)
Class RescueJsonLaws `{RescueJson} := {
  text_not_empty e : entry_text e <> "";
  text_one_line e : Forall (fun c => c <> LF /\ c <> CR) (list_ascii_of_string (entry_text e));
  text_utf8 e : utf8_valid (list_ascii_of_string (entry_text e)) = true;
}.

Context `{RescueJson}.

(** [buf] is what the writer has not handed to the file yet. *)
Record RescueFileSink := mkRescueSink { rs_path : string; rs_buf : string; proc_cnt : Z }.

Definition append_to (path text : string) (fs : Fs) : Fs := <[path := default "" (fs !! path) +:+ text]> fs.

Definition RescueFileSink_new (out_path : string) (fs : Fs) : RescueFileSink * Fs :=
  (mkRescueSink out_path "" 0, append_to out_path "" fs).

Definition rs_flush (s : RescueFileSink) (fs : Fs) : RescueFileSink * Fs :=
  (mkRescueSink (rs_path s) "" (proc_cnt s), append_to (rs_path s) (rs_buf s) fs).

(** How a write goes: its error, the writer making room first, the error of the
    regular flush. *)
Record WriteEnv := mkWrite { we_fail : bool; we_spill : bool; we_flush_fail : bool }.

Definition write_entry (w : WriteEnv) (e : RescueEntry) (s : RescueFileSink) (fs : Fs) : bool * (RescueFileSink * Fs) :=
  if we_fail w then (false, (s, fs)) else
  let '(s, fs) := if we_spill w then rs_flush s fs else (s, fs) in
  let cnt := wrap_add 64 (proc_cnt s) 1 in
  let s := mkRescueSink (rs_path s) (rs_buf s +:+ entry_text e +:+ String LF "") cnt in
  if cnt mod RESCUE_FLUSH_INTERVAL =? 0 then
    if we_flush_fail w then (false, (s, fs)) else (true, rs_flush s fs)
  else (true, (s, fs)).

(** [sink_records], [sink_str_batch], [sink_bytes_batch]: one after the other,
    until one fails. *)
Fixpoint write_entries (w : nat -> WriteEnv) (es : list RescueEntry) (s : RescueFileSink) (fs : Fs)
    : bool * (RescueFileSink * Fs) :=
  match es with
  | [] => (true, (s, fs))
  | e :: es =>
      match write_entry (w 0%nat) e s fs with
      | (true, (s, fs)) => write_entries (fun n => w (S n)) es s fs
      | r => r
      end
  end.

Definition sink_record (w : WriteEnv) (r : R) := write_entry w (entry_record r).
Definition sink_records (w : nat -> WriteEnv) (rs : list R) := write_entries w (map entry_record rs).
Definition sink_str (w : WriteEnv) (s : string) := write_entry w (entry_raw_line s).
Definition sink_bytes (w : WriteEnv) (b : list Byte.byte) :=
  write_entry w (entry_raw_line (from_utf8_lossy (map Ascii.ascii_of_byte b))).
Definition sink_str_batch (w : nat -> WriteEnv) (ss : list string) := write_entries w (map entry_raw_line ss).
Definition sink_bytes_batch (w : nat -> WriteEnv) (bs : list (list Byte.byte)) :=
  write_entries w (map (fun b => entry_raw_line (from_utf8_lossy (map Ascii.ascii_of_byte b))) bs).

Definition rename (from to : string) (fs : Fs) : option Fs :=
  match fs !! from with Some t => Some (<[to := t]> (delete from fs)) | None => None end.

(** [stop]: flush and take the [.lock] off the name; an error of the renaming is
    logged only. *)
Definition rescue_stop (flush_fail : bool) (s : RescueFileSink) (fs : Fs) : bool * (RescueFileSink * Fs) :=
  if flush_fail then (false, (s, fs)) else
  let '(s, fs) := rs_flush s fs in
  match strip_suffix (rs_path s) ".lock" with
  | None => (true, (s, fs))
  | Some new_path =>
      match rename (rs_path s) new_path fs with
      | Some fs => (true, (mkRescueSink new_path (rs_buf s) (proc_cnt s), fs))
      | None => (true, (s, fs))
      end
  end.

(** [Drop] *)
Definition rescue_drop (flush_fail : bool) (s : RescueFileSink) (fs : Fs) : Fs :=
  let fs := if flush_fail then fs else (rs_flush s fs).2 in
  match strip_suffix (rs_path s) ".lock" with
  | None => fs
  | Some new_path => default fs (rename (rs_path s) new_path fs)
  end.
End Rescue.
Arguments RescuePayload : clear implicits.
Arguments RescueEntry : clear implicits.
Arguments RescueJson : clear implicits.

(** ** Check points *)
Definition CheckPoint : Type := gmap string Z.
Definition rec_suc (path : string) (c : CheckPoint) : CheckPoint :=
  match c !! path with Some v => <[path := wrap_add 64 v 1]> c | None => <[path := 1]> c end.
Definition remove_point (path : string) (c : CheckPoint) : CheckPoint := delete path c.

(** ** Reading a file

    [read_line] on the rest of a file: the line with its end, and what is left. *)
Fixpoint read_line (l : list ascii) : list ascii * list ascii :=
  match l with
  | [] => ([], [])
  | c :: r => if Ascii.eqb c LF then ([c], r) else let '(a, b) := read_line r in (c :: a, b)
  end.

(** The lines of a file, as repeated [read_line] gives them. *)
Fixpoint lines_loop (fuel : nat) (l : list ascii) : list (list ascii) :=
  match fuel, l with
  | S fuel, _ :: _ => let '(a, b) := read_line l in a :: lines_loop fuel b
  | _, _ => []
  end.
Definition file_lines (text : string) : list (list ascii) :=
  let l := list_ascii_of_string text in lines_loop (length l) l.

(** [trim_end_matches(['\r', '\n'])] *)
Fixpoint drop_ends (l : list ascii) : list ascii :=
  match l with c :: r => if Ascii.eqb c CR || Ascii.eqb c LF then drop_ends r else l | [] => [] end.
Definition trim_line (l : list ascii) : string := string_of_list_ascii (rev (drop_ends (rev l))).

(** ** [ActCovPicker] *)

Inductive RecReason := RecData | RecSystem | RecResource | RecSink.
Definition RECOVER_BUSY_RETRY_MAX : nat := 2500.

Section Recovery.
Context {M W : Type} `{DataApi F R} `{!RecordApi F R} `{!Ends (R := R) W} `{!RescueJson R} `{!Matcher M}.
Context {L : Coll.LruApi Dim.StatDim Slice.SliceRecord} {C : Coll.CollApi}.

Notation Net := (Net W).

(** One payload to one terminal. *)
Definition send_payload (p : RescuePayload R) (t : SinkTerminal) (s : Net) : TrySendStatus (R := R) * Net :=
  match p with
  | PRecord r => try_send_record t 0%N NullMeta r s
  | PRaw raw => try_send_raw t 0%N raw s
  end.

(** The attempts on one candidate: [retries] more on a full channel. *)
Inductive Tried := TSent | TBusy | TFailed.
Fixpoint try_candidate (retries : nat) (p : RescuePayload R) (t : SinkTerminal) (s : Net) : Tried * Net :=
  match send_payload p t s with
  | (Sended, s) => (TSent, s)
  | (SendErr _, s) => (TFailed, s)
  | (Fulfilled _ _, s) =>
      match retries with
      | O => (TBusy, s)
      | S retries => try_candidate retries p t (set_world s (idle (world s)))
      end
  end.

(** [send_with_backpressure]: [todo] candidates to go. *)
Fixpoint failover (todo : nat) (cands : list SinkTerminal) (idx : nat) (p : RescuePayload R) (s : Net) : bool * nat * Net :=
  match todo with
  | O => (false, idx, s)
  | S todo =>
      let i := (idx mod length cands)%nat in
      match cands !! i with
      | None => (false, idx, s)
      | Some t =>
          match try_candidate RECOVER_BUSY_RETRY_MAX p t s with
          | (TSent, s) => (true, i, s)
          | (_, s) => failover todo cands ((i + 1) mod length cands)%nat p s
          end
      end
  end.

Definition send_payload_with_failover (cands : list SinkTerminal) (idx : nat) (p : RescuePayload R) (s : Net) : bool * nat * Net :=
  failover (length cands) cands idx p s.

(** What a picker of a file carries. *)
Record PickFile := mkPick {
  pf_net : Net;
  pf_idx : nat;
  pf_ctrl : TaskController;
  pf_stat : Collectors.MetricCollectors;
  pf_point : CheckPoint;
  pf_saved : CheckPoint;
  pf_reports : list Report.StatReport;
}.

Definition set_pctrl (st : PickFile) (c : TaskController) : PickFile :=
  mkPick (pf_net st) (pf_idx st) c (pf_stat st) (pf_point st) (pf_saved st) (pf_reports st).
Definition set_pstat (st : PickFile) (m : Collectors.MetricCollectors) (out : list Report.StatReport) : PickFile :=
  mkPick (pf_net st) (pf_idx st) (pf_ctrl st) m (pf_point st) (pf_saved st) (pf_reports st ++ out).
Definition set_sent (st : PickFile) (n : Net) (i : nat) : PickFile :=
  mkPick n i (pf_ctrl st) (pf_stat st) (pf_point st) (pf_saved st) (pf_reports st).
Definition set_point (st : PickFile) (c : CheckPoint) : PickFile :=
  mkPick (pf_net st) (pf_idx st) (pf_ctrl st) (pf_stat st) c (pf_saved st) (pf_reports st).
Definition save_point (st : PickFile) : PickFile :=
  mkPick (pf_net st) (pf_idx st) (pf_ctrl st) (pf_stat st) (pf_point st) (pf_point st) (pf_reports st).

Inductive TaskEndReason := SucEnded | Interrupt.

(** How a file ends: with a reason, by an error, or in a panic. *)
Inductive PickEnd := PickOk (e : TaskEndReason) (st : PickFile) | PickErr (e : RecReason) (st : PickFile) | PickPanic.

(** What is read from outside after a unit of lines. *)
Record UnitEnv := mkUnitEnv {
  ue_stat_due : bool;
  ue_mon : nat -> Collectors.TrySend;
  ue_time : Z;
  ue_save : bool;
  ue_limit_now : Z;
  ue_cmd : option ActorCtrlCmd;
  ue_idle : Z * Z * Z;
}.

(** What is read from outside over a file. *)
Record FileEnv := mkFileEnv {
  fe_unit : nat -> UnitEnv;
  fe_clk : nat -> nat -> nat -> Measure.Clock;
  fe_remove : bool;
  fe_last : UnitEnv;
}.

Definition send_pstat (u : UnitEnv) (st : PickFile) : bool * PickFile :=
  let '(out, _, ok, m) := Collectors.send_stat (ue_mon u) (ue_time u) (pf_stat st) in (ok, set_pstat st m out).

Inductive AtUnit := UGo (st : PickFile) | UStop (st : PickFile) | UErr (e : RecReason) (st : PickFile).

(** The end of a unit: statistics and check point when due, then a command or
    the pause of the speed limit. *)
Definition at_unit (u : UnitEnv) (st : PickFile) : AtUnit :=
  let due := if ue_stat_due u then
               match send_pstat u st with
               | (false, st) => UErr RecResource st
               | (true, st) => if ue_save u then UGo (save_point st) else UErr RecSystem st
               end
             else UGo st in
  match due with
  | UGo st =>
      let st := set_pctrl st (unit_speed_limit_left (pf_ctrl st) (ue_limit_now u)).2 in
      match ue_cmd u with
      | Some c => UGo (set_pctrl st (rec_task_unit_reset (update_cmd (pf_ctrl st) c)))
      | None =>
          let '(now, now1, now2) := ue_idle u in
          let st := set_pctrl st (rec_task_idle (pf_ctrl st) now) in
          if is_stop (pf_ctrl st) now1 now2 then UStop st
          else UGo (set_pctrl st (rec_task_unit_reset (pf_ctrl st)))
      end
  | m => m
  end.

(** After the loop was left. *)
Definition interrupted (u : UnitEnv) (st : PickFile) : PickEnd :=
  if ue_save u then
    match send_pstat u (save_point st) with
    | (true, st) => PickOk Interrupt st
    | (false, st) => PickErr RecResource st
    end
  else PickErr RecSystem st.

(** The statistics of a line; [target] is the file's name shown. *)
Definition stat_begin (clk : nat -> Measure.Clock) (target : string) (st : PickFile) : outcome PickFile :=
  let! m := Collectors.mc_record_begin field_text clk (pf_stat st) target None in Ret (set_pstat st m []).
Definition stat_end (clk : nat -> Measure.Clock) (target : string) (st : PickFile) : outcome PickFile :=
  let! m := Collectors.mc_record_end field_text clk (pf_stat st) target None in Ret (set_pstat st m []).
Definition stat_task (clk : nat -> Measure.Clock) (target : string) (st : PickFile) : outcome PickFile :=
  let! m := Collectors.mc_record_task field_text clk (pf_stat st) target None in Ret (set_pstat st m []).

(** One line of the file: an error, or the state after it. *)
Definition take_line (clk : nat -> nat -> Measure.Clock) (target path : string) (cands : list SinkTerminal)
    (line : list ascii) (st : PickFile) : outcome (PickFile + RecReason * PickFile) :=
  if negb (utf8_valid line) then Ret (inr (RecData, st)) else
  let! st := stat_begin (clk 0%nat) target st in
  let trimmed := trim_line line in
  if String.eqb trimmed "" then Ret (inl st) else
  match entry_parse trimmed with
  | None => Ret (inr (RecData, st))
  | Some e =>
      let '(sent, i, n) := send_payload_with_failover cands (pf_idx st) (payload e) (pf_net st) in
      let st := set_sent st n i in
      if sent then
        let! st := stat_end (clk 1%nat) target st in
        let st := set_pctrl st (rec_task_suc (pf_ctrl st)) in
        Ret (inl (set_point st (rec_suc path (pf_point st))))
      else Ret (inr (RecSink, st))
  end.

(** The end of the file: it is removed and its check point forgotten. *)
Definition file_end (e : FileEnv) (i : nat) (target path : string) (st : PickFile) : PickEnd :=
  match stat_task (fe_clk e i 2%nat) target st with
  | Panic => PickPanic
  | Ret st =>
      if fe_remove e then PickOk SucEnded (set_point st (remove_point path (pf_point st)))
      else PickErr RecSystem st
  end.

(** The loop over the lines left; [i] counts lines, [u] units. *)
Fixpoint pick_lines (e : FileEnv) (target path : string) (cands : list SinkTerminal) (lines : list (list ascii)) (i u : nat)
    (st : PickFile) : PickEnd :=
  let at_end := if is_unit_end (pf_ctrl st) then at_unit (fe_unit e u) st else UGo st in
  let u := if is_unit_end (pf_ctrl st) then S u else u in
  match at_end with
  | UErr r st => PickErr r st
  | UStop st => interrupted (fe_last e) st
  | UGo st =>
      match lines with
      | [] => file_end e i target path st
      | line :: lines =>
          match take_line (fe_clk e i) target path cands line st with
          | Panic => PickPanic
          | Ret (inr (r, st)) => PickErr r st
          | Ret (inl st) => pick_lines e target path cands lines (S i) u st
          end
      end
  end.


(** ** Which file, to whom *)

(** [get_sink_name]: the file's name up to the first hyphen. *)
Definition get_sink_name (path : string) : string :=
  match file_name path with
  | Some f => match str_split "-" f with s :: _ => s | [] => "" end
  | None => ""
  end.

(** [get_sink_group]; [canonical] is the root's real path, if it has one. *)
Definition get_sink_group (canonical : string -> option string) (path rescue_root : string) : string :=
  let rel := match strip_prefix rescue_root path with
             | Some l => l
             | None => match (root ← canonical rescue_root; strip_prefix root path) with
                       | Some l => l
                       | None => (components path).2
                       end
             end in
  match rev rel with
  | _ :: before => trim_slashes (join "/" (rev before))
  | [] => ""
  end.

Definition relative_rescue_display_path (path rescue_root : string) : string :=
  match strip_prefix rescue_root path with Some l => join "/" l | None => path end.

(** [sort_key]: the time in the name; a panic when there is none. *)
Definition sort_key (parse_time : string -> option Z) (path : string) : outcome Z :=
  let f := str_split "-" (default "" (strip_suffix (default "" (file_name path)) ".dat")) in
  match f !! 1%nat, f !! 2%nat, f !! 3%nat with
  | Some a, Some b, Some c =>
      match parse_time (a +:+ "-" +:+ b +:+ "-" +:+ map_string (fun x => if Ascii.eqb x "_" then " "%char else x) c) with
      | Some t => Ret t
      | None => Panic
      end
  | _, _, _ => Panic
  end.

(** [tack_lasts_file] on the files the walk found, in its order.  Sorting one
    file looks at no key; of files of one time the last found is taken. *)
Definition tack_lasts_file (parse_time : string -> option Z) (files : list string) : outcome (option string) :=
  match files with
  | [] => Ret None
  | [f] => Ret (Some f)
  | _ =>
      let! keyed := omap_list (fun f => let! k := sort_key parse_time f in Ret (k, f)) files in
      Ret (option_map snd (last (stable_sort (fun a b : Z * string => a.1 <? b.1) keyed)))
  end.

(** The terminals for a file: those of the sink in the group, else those of its
    name in any group. *)
Definition candidates_for (canonical : string -> option string) (root : string) (agents : list (RouteAgent (M := M)))
    (path : string) : list SinkTerminal :=
  let name := get_sink_name path in
  let group := get_sink_group canonical path root in
  match (if String.eqb group "" then [] else get_sink_agents_in_group agents group name) with
  | [] => get_sink_agents agents name
  | l => l
  end.

Record ActCovPicker := mkPicker {
  rescue_path : string;
  speed_limit : Z;
  idle_exit : option Z;
}.

(** The picker between two files. *)
Record PickerState := mkPickerState {
  ps_fs : Fs;
  ps_net : Net;
  ps_point : CheckPoint;
  ps_saved : CheckPoint;
  ps_ctrl : TaskController;
  ps_idle : option Z;
  ps_reports : list Report.StatReport;
}.

Variable canonical : string -> option string.
Variable parse_time : string -> option Z.
Variable reqs : list Request.StatReq.
Variable agents : list (RouteAgent (M := M)).
Variable cfg : ActCovPicker.

(** [pick_file] on a file that is open. *)
Definition pick_file (e : FileEnv) (now : Z) (cands : list SinkTerminal) (path text : string) (ps : PickerState) : PickEnd :=
  let target := relative_rescue_display_path path (rescue_path cfg) in
  let st := mkPick (ps_net ps) 0 (rec_task_unit_reset (from_speed_limit "recover-file" (Some (speed_limit cfg)) 100 now))
              (Collectors.MetricCollectors_new target reqs) (ps_point ps) (ps_saved ps) (ps_reports ps) in
  pick_lines e target path cands (file_lines text) 0 0 st.

Definition after_file (ps : PickerState) (fs : Fs) (st : PickFile) : PickerState :=
  mkPickerState fs (pf_net st) (pf_point st) (pf_saved st) (ps_ctrl ps) (ps_idle ps) (pf_reports st).

(** How a turn of the picker ends. *)
Inductive Turn := TGo (ps : PickerState) | TExit (ps : PickerState) | TErr (e : RecReason) (ps : PickerState) | TPanic.

(** [recov_file] *)
Definition recov_file (e : FileEnv) (now : Z) (path : string) (ps : PickerState) : Turn :=
  match candidates_for canonical (rescue_path cfg) agents path with
  | [] => TGo ps
  | cands =>
      match ps_fs ps !! path with
      | None => TErr RecData ps
      | Some text =>
          match pick_file e now cands path text ps with
          | PickOk SucEnded st => TGo (after_file ps (delete path (ps_fs ps)) st)
          | PickOk Interrupt st => TGo (after_file ps (ps_fs ps) st)
          | PickErr r st => TErr r (after_file ps (ps_fs ps) st)
          | PickPanic => TPanic
          end
      end
  end.

(** What a turn reads from outside: the files the walk finds (or its error), the
    clock of the idling, then a command or the second's pause.  [te_fs] is what
    others did to the files before. *)
Record TurnEnv := mkTurnEnv {
  te_fs : Fs -> Fs;
  te_walk : Fs -> option (list string);
  te_now : Z;
  te_file : FileEnv;
  te_cmd : option ActorCtrlCmd;
  te_idle : Z * Z * Z;
}.

Definition set_ps_ctrl (ps : PickerState) (c : TaskController) : PickerState :=
  mkPickerState (ps_fs ps) (ps_net ps) (ps_point ps) (ps_saved ps) c (ps_idle ps) (ps_reports ps).
Definition set_ps_idle (ps : PickerState) (t : option Z) : PickerState :=
  mkPickerState (ps_fs ps) (ps_net ps) (ps_point ps) (ps_saved ps) (ps_ctrl ps) t (ps_reports ps).

(** Before the pause: a file is replayed, or the idling is looked at. *)
Definition turn_work (t : TurnEnv) (ps : PickerState) : Turn :=
  match te_walk t (ps_fs ps) with
  | None => TErr RecData ps
  | Some files =>
      match tack_lasts_file parse_time files with
      | Panic => TPanic
      | Ret (Some path) =>
          match recov_file (te_file t) (te_now t) path (set_ps_idle ps None) with
          | TGo ps => TGo (set_ps_ctrl ps (rec_task_suc (ps_ctrl ps)))
          | r => r
          end
      | Ret None =>
          match idle_exit cfg with
          | None => TGo ps
          | Some th =>
              match ps_idle ps with
              | None => TGo (set_ps_idle ps (Some (te_now t)))
              | Some t0 => if th <=? Z.max 0 (te_now t - t0) then TExit ps else TGo ps
              end
          end
      end
  end.

Definition turn (t : TurnEnv) (ps : PickerState) : Turn :=
  let ps := mkPickerState (te_fs t (ps_fs ps)) (ps_net ps) (ps_point ps) (ps_saved ps) (ps_ctrl ps) (ps_idle ps) (ps_reports ps) in
  match turn_work t ps with
  | TGo ps =>
      match te_cmd t with
      | Some c => TGo (set_ps_ctrl ps (update_cmd (ps_ctrl ps) c))
      | None =>
          let '(now, now1, now2) := te_idle t in
          let ps := set_ps_ctrl ps (rec_task_idle (ps_ctrl ps) now) in
          if is_stop (ps_ctrl ps) now1 now2 then TExit ps else TGo ps
      end
  | r => r
  end.

(** [pick_data], as far as the turns go; [load_point] gives the check point. *)
Fixpoint pick_data (ts : list TurnEnv) (ps : PickerState) : Turn :=
  match ts with
  | [] => TGo ps
  | t :: ts => match turn t ps with TGo ps => pick_data ts ps | r => r end
  end.

Definition picker_start (fs : Fs) (net : Net) (loaded : CheckPoint) (now : Z) : PickerState :=
  mkPickerState fs net loaded loaded (TaskController_new "recover" (Some (speed_limit cfg)) now) None [].

End Recovery.
