(* ===== verification/RecoveryLaws.v ===== *)
(** What rescue files guarantee: what a sink wrote comes back, entry by entry and
    in order; a replay sends a prefix of its file, whatever ends it, and keeps
    the file until all is sent; and what can keep a file from being replayed. *)
From Stdlib Require Import ZArith Lia String Ascii.
From stdpp Require Import prelude strings gmap.
From S2P Require Import Prelude F64 Text Utf8 RateLimit Actor DataModel ErrPolicy Picker SinkRuntime Tags Stats StatsLaws Metrics MetricsLaws Dispatcher WplEngine WplEngineLaws Resources Recovery.
Local Open Scope string_scope.
Local Open Scope list_scope.
Local Open Scope Z_scope.
Local Open Scope wp_scope.

(** ** Lines *)

Lemma read_line_end l r : Forall (fun c => c <> LF) l -> read_line (l ++ LF :: r) = (l ++ [LF], r).
Proof.
  induction 1 as [|c l Hc _ IH]; [done|]. cbn [app read_line]. rewrite IH.
  destruct (Ascii.eqb c LF) eqn:E; [by apply Ascii.eqb_eq in E|done].
Qed.

Lemma lines_loop_cons fuel l r : Forall (fun c => c <> LF) l -> (length (l ++ LF :: r) <= fuel)%nat ->
  lines_loop fuel (l ++ LF :: r) = (l ++ [LF]) :: lines_loop (pred fuel) r.
Proof.
  intros Hl Hf. destruct fuel as [|fuel]; [rewrite length_app in Hf; cbn in Hf; lia|].
  cbn [lines_loop pred]. rewrite read_line_end by done. by destruct l.
Qed.

Lemma drop_ends_clean l : Forall (fun c => c <> LF /\ c <> CR) l -> drop_ends l = l.
Proof.
  destruct 1 as [|c l [Hl Hc] _]; [done|]. cbn. apply Ascii.eqb_neq in Hl, Hc. by rewrite Hl, Hc.
Qed.

Section Text.
Context {R : Type} `{RescueJsonLaws R}.

Definition entry_line (e : RescueEntry R) : list ascii := list_ascii_of_string (entry_text e) ++ [LF].

(** The text of a file with the entries. *)
Definition file_text (es : list (RescueEntry R)) : string :=
  foldr (fun e s => entry_text e +:+ String LF s) "" es.

Lemma entry_no_lf e : Forall (fun c => c <> LF) (list_ascii_of_string (entry_text e)).
Proof. eapply Forall_impl; [apply text_one_line|]. by intros c []. Qed.

Lemma file_lines_text es : file_lines (file_text es) = map entry_line es.
Proof.
  unfold file_lines. enough (forall fuel, (length (list_ascii_of_string (file_text es)) <= fuel)%nat ->
    lines_loop fuel (list_ascii_of_string (file_text es)) = map entry_line es) as Hx by by apply Hx.
  induction es as [|e es IH]; intros fuel Hf; [by destruct fuel|]. cbn [file_text foldr map] in *.
  rewrite list_ascii_app in *. cbn [list_ascii_of_string] in *.
  rewrite lines_loop_cons; [|apply entry_no_lf|done]. f_equal. apply IH.
  rewrite length_app in Hf. cbn in Hf. unfold file_text in *. lia.
Qed.

Lemma trim_entry e : trim_line (entry_line e) = entry_text e.
Proof.
  unfold trim_line, entry_line. rewrite rev_app_distr. cbn [rev app drop_ends]. cbn [Ascii.eqb orb].
  replace (Ascii.eqb LF CR || Ascii.eqb LF LF) with true by done.
  rewrite drop_ends_clean, rev_involutive by (apply Forall_rev, text_one_line). apply string_of_list_ascii_of_string.
Qed.

Lemma entry_line_utf8 e : utf8_valid (entry_line e) = true.
Proof. apply valid_app; [apply text_utf8|done]. Qed.

(** ** The writer *)

(** What the file will hold once flushed. *)
Definition rescued (s : RescueFileSink) (fs : Fs) : string := default "" (fs !! rs_path s) +:+ rs_buf s.

Definition untouched (p : string) (fs fs' : Fs) : Prop := forall q, q <> p -> fs' !! q = fs !! q.

Lemma append_str_nil (a : string) : a +:+ "" = a.
Proof. induction a as [|x a IH]; [done|]. exact (f_equal (String x) IH). Qed.

Lemma flush_spec s fs : let '(s', fs') := rs_flush s fs in
  rs_path s' = rs_path s /\ rs_buf s' = "" /\ proc_cnt s' = proc_cnt s /\ rescued s' fs' = rescued s fs /\ untouched (rs_path s) fs fs' /\
  fs' !! rs_path s = Some (rescued s fs).
Proof.
  unfold rs_flush, rescued, append_to. cbn. split_and!; try done.
  - by rewrite lookup_insert_eq, append_str_nil.
  - intros q Hq. by rewrite lookup_insert_ne.
  - by rewrite lookup_insert_eq.
Qed.

Definition good_write (w : WriteEnv) : Prop := we_fail w = false /\ we_flush_fail w = false.

Lemma write_entry_spec w e s fs : good_write w -> exists s' fs', write_entry w e s fs = (true, (s', fs')) /\
  rs_path s' = rs_path s /\ rescued s' fs' = rescued s fs +:+ entry_text e +:+ String LF "" /\ untouched (rs_path s) fs fs'.
Proof.
  intros [Hf Hff]. unfold write_entry. rewrite Hf, Hff.
  assert (exists s1 fs1, (if we_spill w then rs_flush s fs else (s, fs)) = (s1, fs1) /\ rs_path s1 = rs_path s /\
    rescued s1 fs1 = rescued s fs /\ untouched (rs_path s) fs fs1) as (s1 & fs1 & -> & Hp & Hr & Hu).
  { destruct (we_spill w); [|by exists s, fs]. pose proof (flush_spec s fs) as Hx. destruct (rs_flush s fs) as [s1 fs1].
    exists s1, fs1. intuition. }
  set (s2 := mkRescueSink (rs_path s1) _ _).
  assert (rescued s2 fs1 = rescued s fs +:+ entry_text e +:+ String LF "") as H2
    by (rewrite <- Hr; unfold rescued, s2; cbn; by rewrite !string_app_assoc).
  destruct (_ =? 0).
  - pose proof (flush_spec s2 fs1) as Hx. destruct (rs_flush s2 fs1) as [s3 fs3].
    destruct Hx as (Hp3 & _ & _ & Hr3 & Hu3 & _). exists s3, fs3. cbn in Hp3, Hu3. rewrite Hp in Hp3, Hu3.
    split; [done|]. split; [done|]. split; [congruence|]. intros q Hq. rewrite Hu3, Hu; done.
  - by exists s2, fs1.
Qed.

Lemma write_entries_spec w es s fs : (forall n, good_write (w n)) -> exists s' fs', write_entries w es s fs = (true, (s', fs')) /\
  rs_path s' = rs_path s /\ rescued s' fs' = rescued s fs +:+ file_text es /\ untouched (rs_path s) fs fs'.
Proof.
  revert w s fs. induction es as [|e es IH]; intros w s fs Hw; cbn [write_entries file_text foldr].
  { exists s, fs. by rewrite append_str_nil. }
  destruct (write_entry_spec (w 0%nat) e s fs (Hw _)) as (s1 & fs1 & -> & Hp & Hr & Hu).
  destruct (IH (fun n => w (S n)) s1 fs1) as (s2 & fs2 & -> & Hp2 & Hr2 & Hu2); [done|].
  exists s2, fs2. split; [done|]. split; [congruence|]. rewrite Hp in Hu2. split.
  - rewrite Hr2, Hr, !string_app_assoc. done.
  - intros q Hq. rewrite Hu2, Hu; done.
Qed.

Lemma rev_string_app a b : rev_string (a +:+ b) = rev_string b +:+ rev_string a.
Proof.
  unfold rev_string. rewrite list_ascii_app, rev_app_distr.
  generalize (rev (list_ascii_of_string b)). intros l. induction l as [|x l IH]; [done|]. exact (f_equal (String x) IH).
Qed.

Lemma strip_suffix_app p x : strip_suffix (p +:+ x) x = Some p.
Proof.
  unfold strip_suffix, ends_with. rewrite rev_string_app.
  rewrite prefix_append. f_equal.
  assert (String.length (p +:+ x) - String.length x = String.length p)%nat as ->.
  { rewrite length_append. lia. }
  induction p as [|c p IH]; [by destruct x|]. exact (f_equal (String c) IH).
Qed.

Lemma lock_other p : p <> p +:+ ".lock".
Proof. intros Hp. apply (f_equal String.length) in Hp. rewrite length_append in Hp. cbn in Hp. lia. Qed.

(** A sink opened on a new file, written to and stopped, leaves the file of its
    entries under the name without [.lock]. *)
Lemma rescue_file_written w es (p : string) (fs : Fs) : (forall n, good_write (w n)) ->
  fs !! (p +:+ ".lock") = None ->
  exists s fs1 s' fs', (let '(s0, fs0) := RescueFileSink_new (p +:+ ".lock") fs in write_entries w es s0 fs0) = (true, (s, fs1)) /\
    rescue_stop false s fs1 = (true, (s', fs')) /\ fs' !! p = Some (file_text es) /\ fs' !! (p +:+ ".lock") = None /\
    (forall q, q <> p -> q <> p +:+ ".lock" -> fs' !! q = fs !! q).
Proof.
  pose proof (strip_suffix_app p ".lock") as Hstrip. pose proof (lock_other p) as Hne. intros Hw Hnew. unfold RescueFileSink_new. set (s0 := mkRescueSink _ "" 0). set (fs0 := append_to _ "" fs).
  destruct (write_entries_spec w es s0 fs0 Hw) as (s1 & fs1 & E1 & Hp & Hr & Hu). cbn in Hp, Hu.
  exists s1, fs1. rewrite E1. unfold rescue_stop.
  pose proof (flush_spec s1 fs1) as Hx. destruct (rs_flush s1 fs1) as [s2 fs2].
  destruct Hx as (Hp2 & _ & _ & _ & Hu2 & Hf2). rewrite Hp2, Hp, Hstrip. rewrite Hp in Hf2, Hu2. unfold rename. rewrite Hf2.
  do 2 eexists. split; [done|]. split; [done|]. split; [|split].
  - rewrite lookup_insert_eq, Hr. f_equal. unfold rescued, s0, fs0, append_to. cbn. by rewrite lookup_insert_eq, Hnew.
  - rewrite lookup_insert_ne, lookup_delete_eq by done. done.
  - intros q Hq Hq'. rewrite lookup_insert_ne, lookup_delete_ne, Hu2, Hu by done. unfold fs0, append_to. by rewrite lookup_insert_ne.
Qed.
End Text.

(** ** The replay of a file *)
Section Replay.
Context {M W : Type} `{DataLaws F R} `{!RecordApi F R} `{!Ends (R := R) W} `{!EndsLaws} `{!RescueJson R} `{!RescueJsonLaws} `{!Matcher M}.
Context {L : Coll.LruApi Dim.StatDim Slice.SliceRecord} {C : Coll.CollApi}.

Notation Net := (Net W).
Notation Unit := (SinkRecUnit (R := R)).
Notation Pick := (PickFile (W := W)).

(** What a terminal gets for a payload. *)
Definition payload_unit (p : RescuePayload R) : Unit :=
  match p with PRecord r => mkUnit 0%N NullMeta r | PRaw raw => raw_unit 0%N raw end.
Definition units_of (es : list (RescueEntry R)) : list Unit := map (fun e => payload_unit (payload e)) es.

(** What the text of an entry is read as. *)
Definition reads (e e' : RescueEntry R) : Prop := entry_parse (entry_text e) = Some e'.

(** The units that entries are replayed as. *)
Definition replays (es : list (RescueEntry R)) (us : list Unit) : Prop :=
  Forall2 (fun e u => exists e', reads e e' /\ u = payload_unit (payload e')) es us.

Lemma reads_replays es es' : Forall2 reads es es' -> replays es (units_of es').
Proof. induction 1 as [|e e' es es' He _ IH]; [constructor|]. constructor; [by exists e'|exact IH]. Qed.

Definition channels (cands : list SinkTerminal) : Prop := Forall (fun t => exists n, t = Channel n) cands.

(** The units sent, each with its channel. *)
Definition logged (log : list (nat * Unit)) (k : nat) : list Unit := concat (map (fun x => at_chan x.1 k [x.2]) log).
Definition replayed (cands : list SinkTerminal) (us : list Unit) (s s' : Net) : Prop :=
  exists log, map snd log = us /\ Forall (fun x => Channel x.1 ∈ cands) log /\ sent_more s s' (logged log).

Lemma replayed_none cands s s' : sent_more s s' (fun _ => []) -> replayed cands [] s s'.
Proof. intros Hs. exists []. split_and!; [done|constructor|done]. Qed.

Lemma replayed_app cands us vs s1 s2 s3 : replayed cands us s1 s2 -> replayed cands vs s2 s3 -> replayed cands (us ++ vs) s1 s3.
Proof.
  intros (l1 & <- & H1' & S1) (l2 & <- & H2' & S2). exists (l1 ++ l2). rewrite map_app. split; [done|].
  split; [by apply Forall_app|]. intros k. unfold logged. rewrite map_app, concat_app. rewrite (S2 k), (S1 k). by rewrite <- app_assoc.
Qed.

Lemma sent_nothing (s1 s2 s3 : Net) : sent_more s1 s2 (fun _ => []) -> sent_more s2 s3 (fun _ => []) -> sent_more s1 s3 (fun _ => []).
Proof. intros H1' H2' k. by rewrite (H2' k), (H1' k), !app_nil_r. Qed.

Lemma sent_nothing_then (s1 s2 s3 : Net) d : sent_more s1 s2 (fun _ => []) -> sent_more s2 s3 d -> sent_more s1 s3 d.
Proof. intros H1' H2' k. by rewrite (H2' k), (H1' k), app_nil_r. Qed.

Lemma idle_nothing (s s' : Net) d : sent_more (set_world s (idle (world s))) s' d -> sent_more s s' d.
Proof. intros Hs k. rewrite (Hs k). cbn [world set_world]. by rewrite idle_sent. Qed.

Lemma send_payload_channel p n (s : Net) : send_payload p (Channel n) s = sender_try_send n (payload_unit p) s.
Proof. by destruct p. Qed.

Lemma try_candidate_spec retries p n (s : Net) :
  match try_candidate retries p (Channel n) s with
  | (TSent, s') => sent_more s s' (fun k => at_chan n k [payload_unit p])
  | (_, s') => sent_more s s' (fun _ => [])
  end.
Proof.
  revert s. induction retries as [|retries IH]; intros s; cbn [try_candidate]; rewrite send_payload_channel;
    pose proof (sender_try_send_spec n (payload_unit p) s) as Hs;
    destruct (sender_try_send n (payload_unit p) s) as [[|i d|e] s1].
  - exact Hs.
  - by destruct Hs as (_ & _ & Hs).
  - by destruct Hs as (_ & Hs).
  - exact Hs.
  - destruct Hs as (_ & _ & Hs). specialize (IH (set_world s1 (idle (world s1)))).
    destruct (try_candidate retries p (Channel n) _) as [[] s2];
      (eapply sent_nothing_then; [exact Hs|]); by apply idle_nothing.
  - by destruct Hs as (_ & Hs).
Qed.

Lemma failover_spec todo cands idx p (s : Net) : channels cands ->
  match failover todo cands idx p s with
  | (true, _, s') => replayed cands [payload_unit p] s s'
  | (false, _, s') => replayed cands [] s s'
  end.
Proof.
  intros Hc. revert idx s. induction todo as [|todo IH]; intros idx s; cbn [failover].
  { apply replayed_none. intros k. by rewrite app_nil_r. }
  destruct (cands !! _) as [t|] eqn:Et; [|apply replayed_none; intros k; by rewrite app_nil_r].
  pose proof (proj1 (Forall_lookup _ _) Hc _ _ Et) as [n ->]. apply list_elem_of_lookup_2 in Et.
  pose proof (try_candidate_spec RECOVER_BUSY_RETRY_MAX p n s) as Ht.
  destruct (try_candidate RECOVER_BUSY_RETRY_MAX p (Channel n) s) as [[] s1].
  - exists [(n, payload_unit p)]. split; [done|]. split; [by repeat constructor|]. intros k. rewrite (Ht k). unfold logged. cbn. by rewrite app_nil_r.
  - specialize (IH ((idx mod length cands + 1) mod length cands)%nat s1). destruct (failover todo cands _ p s1) as [[[] j] s2];
      (eapply (replayed_app cands []); [by apply replayed_none|exact IH]).
  - specialize (IH ((idx mod length cands + 1) mod length cands)%nat s1). destruct (failover todo cands _ p s1) as [[[] j] s2];
      (eapply (replayed_app cands []); [by apply replayed_none|exact IH]).
Qed.

Lemma take_line_spec clk target path cands e (st : Pick) : channels cands -> mc_wf (pf_stat st) ->
  exists r, take_line clk target path cands (entry_line e) st = Ret r /\
    match r with
    | inl st' => exists e', reads e e' /\ replayed cands (units_of [e']) (pf_net st) (pf_net st') /\ mc_wf (pf_stat st')
    | inr (_, st') => replayed cands [] (pf_net st) (pf_net st')
    end.
Proof.
  intros Hc Hw. unfold take_line. rewrite entry_line_utf8, trim_entry. cbn [negb].
  unfold stat_begin. destruct (counts_begin field_text (clk 0%nat) (pf_stat st) target None Hw) as (m1 & -> & Hm1 & _). cbn [obind].
  destruct (String.eqb (entry_text e) "") eqn:Ee; [apply String.eqb_eq in Ee; by apply text_not_empty in Ee|].
  destruct (entry_parse (entry_text e)) as [e'|] eqn:Ep.
  2: { eexists. split; [done|]. apply replayed_none. intros k. cbn. by rewrite app_nil_r. }
  cbn [pf_idx pf_net set_pstat]. unfold send_payload_with_failover.
  pose proof (failover_spec (length cands) cands (pf_idx st) (payload e') (pf_net st) Hc) as Hf.
  destruct (failover _ cands _ _ _) as [[sent i] n]. destruct sent; [|by eexists].
  unfold stat_end. destruct (counts_end field_text (clk 1%nat) m1 target None Hm1) as (m2 & E2 & Hm2 & _).
  cbn [pf_stat set_sent set_pstat]. rewrite E2. cbn [obind]. eexists. split; [done|]. by exists e'.
Qed.

Lemma at_unit_spec u (st : Pick) : mc_wf (pf_stat st) ->
  match at_unit u st with
  | UGo st' => pf_net st' = pf_net st /\ mc_wf (pf_stat st')
  | UStop st' | UErr _ st' => pf_net st' = pf_net st
  end.
Proof.
  intros Hw.
  assert (pf_net (send_pstat u st).2 = pf_net st /\ mc_wf (pf_stat (send_pstat u st).2)) as [Hn Hm].
  { unfold send_pstat, Collectors.send_stat. pose proof (send_loop_wf (ue_mon u) (ue_time u) (pf_stat st) Hw) as Hl.
    destruct (Collectors.send_stat_loop _ _ _ _ _ _) as [[[out full] ok] i]. done. }
  unfold at_unit. destruct (ue_stat_due u).
  - destruct (send_pstat u st) as [[] st1]; cbn [fst snd] in *; [|done]. destruct (ue_save u); [|done].
    destruct (ue_cmd u); [done|]. destruct (ue_idle u) as [[now n1] n2]. by destruct (is_stop _ _ _).
  - destruct (ue_cmd u); [done|]. destruct (ue_idle u) as [[now n1] n2]. by destruct (is_stop _ _ _).
Qed.

Lemma interrupted_net u (st : Pick) :
  match interrupted u st with PickOk Interrupt st' | PickErr _ st' => pf_net st' = pf_net st | _ => False end.
Proof.
  unfold interrupted, send_pstat. destruct (ue_save u); [|done].
  destruct (Collectors.send_stat _ _ _) as [[[out full] []] m]; done.
Qed.

Lemma file_end_spec e i target path (st : Pick) : mc_wf (pf_stat st) ->
  match file_end e i target path st with
  | PickOk SucEnded st' => pf_net st' = pf_net st /\ pf_point st' !! path = None /\ fe_remove e = true
  | PickErr r st' => pf_net st' = pf_net st /\ r = RecSystem /\ fe_remove e = false
  | _ => False
  end.
Proof.
  intros Hw. unfold file_end, stat_task. destruct (counts_task field_text (fe_clk e i 2%nat) (pf_stat st) target None Hw) as (m & -> & _).
  cbn [obind]. destruct (fe_remove e); [|done]. split_and!; [done| |done]. apply (lookup_delete_eq (K := string) (M := gmap string)).
Qed.

(** Whatever happens over a file, the entries sent are its first ones, in
    order, as their lines read; all of them when it is removed. *)
Lemma pick_lines_spec e target path cands es i u (st : Pick) : channels cands -> mc_wf (pf_stat st) ->
  match pick_lines e target path cands (map entry_line es) i u st with
  | PickOk SucEnded st' => (exists us, replays es us /\ replayed cands us (pf_net st) (pf_net st')) /\ pf_point st' !! path = None
  | PickOk Interrupt st' | PickErr _ st' => exists k us, replays (take k es) us /\ replayed cands us (pf_net st) (pf_net st')
  | PickPanic => False
  end.
Proof.
  intros Hc. assert (forall s s' : Net, s' = s -> replayed cands [] s s') as Hnone.
  { intros s s' ->. apply replayed_none. intros k. by rewrite app_nil_r. }
  revert i u st. induction es as [|x es IH]; intros i u st Hw; cbn [pick_lines map].
  all: assert (match (if is_unit_end (pf_ctrl st) then at_unit (fe_unit e u) st else UGo st) with
    | UGo st' => pf_net st' = pf_net st /\ mc_wf (pf_stat st')
    | UStop st' | UErr _ st' => pf_net st' = pf_net st end) as Hu
    by (destruct (is_unit_end (pf_ctrl st)); [by apply at_unit_spec|done]).
  all: destruct (if is_unit_end (pf_ctrl st) then _ else _) as [st1|st1|r st1];
    [destruct Hu as [<- Hw1]
    |pose proof (interrupted_net (fe_last e) st1) as Hi; rewrite Hu in Hi; destruct (interrupted _ _) as [[] st2|r st2|]; try done;
       exists 0%nat, []; (split; [constructor|by apply Hnone])
    |exists 0%nat, []; split; [constructor|by apply Hnone]].
  - pose proof (file_end_spec e i target path st1 Hw1) as Hf. destruct (file_end _ _ _ _ _) as [[] st2|r st2|]; try done.
    + destruct Hf as (-> & Hp & _). split; [|done]. exists []. split; [constructor|by apply Hnone].
    + destruct Hf as (-> & _). exists 0%nat, []. split; [constructor|by apply Hnone].
  - destruct (take_line_spec (fe_clk e i) target path cands x st1 Hc Hw1) as ([st2|[r st2]] & -> & Ht).
    + destruct Ht as (x' & Hx & Hs & Hw2).
      assert (forall l us s, replays l us -> replayed cands us (pf_net st2) s ->
        exists us', replays (x :: l) us' /\ replayed cands us' (pf_net st1) s) as Hnext.
      { intros l us s Hl Hr. exists (payload_unit (payload x') :: us). split; [constructor; [by exists x'|done]|].
        by apply (replayed_app cands (units_of [x']) us _ (pf_net st2)). }
      specialize (IH (S i) (if is_unit_end (pf_ctrl st) then S u else u) st2 Hw2).
      destruct (pick_lines _ _ _ _ _ _ _ _) as [[] st3|r st3|]; [|destruct IH as (k & us & Hl & IH); exists (S k); by eapply Hnext..|done].
      destruct IH as [(us & Hl & IH) Hp]. split; [by eapply Hnext|done].
    + exists 0%nat, []. split; [constructor|exact Ht].
Qed.

Definition grows (s s' : Net) : Prop := exists d, sent_more s s' d.

Lemma grows_refl s : grows s s.
Proof. exists (fun _ => []). intros k. by rewrite app_nil_r. Qed.

Lemma grows_trans s1 s2 s3 : grows s1 s2 -> grows s2 s3 -> grows s1 s3.
Proof. intros [d1 H1'] [d2 H2']. eexists. by eapply sent_more_trans. Qed.

Lemma replayed_grows cands us s s' : replayed cands us s s' -> grows s s'.
Proof. intros (log & _ & _ & Hs). by eexists. Qed.

Definition pick_state (r : PickEnd (W := W)) : option Pick :=
  match r with PickOk _ st | PickErr _ st => Some st | PickPanic => None end.

(** On any lines, only the outlets gain. *)
Lemma take_line_grows clk target path cands line (st : Pick) : channels cands -> mc_wf (pf_stat st) ->
  exists r, take_line clk target path cands line st = Ret r /\
    match r with
    | inl st' => grows (pf_net st) (pf_net st') /\ mc_wf (pf_stat st')
    | inr (_, st') => grows (pf_net st) (pf_net st')
    end.
Proof.
  intros Hc Hw. unfold take_line. destruct (negb (utf8_valid line)); [eexists; split; [done|apply grows_refl]|].
  unfold stat_begin. destruct (counts_begin field_text (clk 0%nat) (pf_stat st) target None Hw) as (m1 & -> & Hm1 & _). cbn [obind].
  destruct (String.eqb (trim_line line) ""); [eexists; split; [done|by split; [apply grows_refl|]]|].
  destruct (entry_parse (trim_line line)) as [e|]; [|eexists; split; [done|apply grows_refl]].
  cbn [pf_idx pf_net set_pstat]. unfold send_payload_with_failover.
  pose proof (failover_spec (length cands) cands (pf_idx st) (payload e) (pf_net st) Hc) as Hf.
  destruct (failover _ cands _ _ _) as [[sent i] n]. destruct sent; apply replayed_grows in Hf; [|by eexists].
  unfold stat_end. destruct (counts_end field_text (clk 1%nat) m1 target None Hm1) as (m2 & E2 & Hm2 & _).
  cbn [pf_stat set_sent set_pstat]. rewrite E2. cbn [obind]. eexists. split; [done|]. split; done.
Qed.

Lemma pick_lines_grows e target path cands lines i u (st : Pick) : channels cands -> mc_wf (pf_stat st) ->
  exists st', pick_state (pick_lines e target path cands lines i u st) = Some st' /\ grows (pf_net st) (pf_net st').
Proof.
  intros Hc. revert i u st. induction lines as [|x lines IH]; intros i u st Hw; cbn [pick_lines].
  all: assert (match (if is_unit_end (pf_ctrl st) then at_unit (fe_unit e u) st else UGo st) with
    | UGo st' => pf_net st' = pf_net st /\ mc_wf (pf_stat st')
    | UStop st' | UErr _ st' => pf_net st' = pf_net st end) as Hu
    by (destruct (is_unit_end (pf_ctrl st)); [by apply at_unit_spec|done]).
  all: destruct (if is_unit_end (pf_ctrl st) then _ else _) as [st1|st1|r st1];
    [destruct Hu as [<- Hw1]
    |pose proof (interrupted_net (fe_last e) st1) as Hi; rewrite Hu in Hi; destruct (interrupted _ _) as [[] st2|r st2|]; try done;
       exists st2; rewrite Hi; (split; [done|apply grows_refl])
    |exists st1; rewrite Hu; split; [done|apply grows_refl]].
  - pose proof (file_end_spec e i target path st1 Hw1) as Hf. destruct (file_end _ _ _ _ _) as [[] st2|r st2|]; try done;
      exists st2; destruct Hf as (-> & _); (split; [done|apply grows_refl]).
  - destruct (take_line_grows (fe_clk e i) target path cands x st1 Hc Hw1) as ([st2|[r st2]] & -> & Ht); [|by exists st2].
    destruct Ht as (Hs & Hw2). destruct (IH (S i) (if is_unit_end (pf_ctrl st) then S u else u) st2 Hw2) as (st3 & E3 & Hs3).
    exists st3. split; [exact E3|]. by eapply grows_trans.
Qed.

(** ** The picker *)
Variable canonical : string -> option string.
Variable parse_time : string -> option Z.
Variable reqs : list Request.StatReq.
Variable agents : list (RouteAgent (M := M)).
Variable cfg : ActCovPicker.

Notation State := (PickerState (W := W)).
Notation cands_of := (candidates_for canonical (rescue_path cfg) agents).
Notation recov := (recov_file canonical reqs agents cfg).

Definition turn_state (r : Turn (W := W)) : option State :=
  match r with TGo ps | TExit ps | TErr _ ps => Some ps | TPanic => None end.

Definition agents_on_channels : Prop := Forall (fun a => exists n, ra_end a = Channel n) agents.

Lemma candidates_channels path : agents_on_channels -> channels (cands_of path).
Proof.
  intros Ha. assert (forall l name, (forall a, a ∈ l -> a ∈ agents) -> channels (get_sink_agents l name)) as Hl.
  { intros l name Hin. unfold channels, get_sink_agents. apply Forall_concat, Forall_fmap, Forall_forall. intros a Hx. cbn.
    apply Forall_fmap, Forall_forall. intros t _. exact (proj1 (Forall_forall _ _) Ha a (Hin a Hx)). }
  unfold candidates_for. set (g := if String.eqb _ "" then _ else _).
  assert (channels g) as Hg.
  { subst g. destruct (String.eqb _ ""); [constructor|]. apply Hl. intros a Hx. apply list_elem_of_In, filter_In in Hx as [Hx _].
    by apply list_elem_of_In. }
  destruct g; [by apply Hl|exact Hg].
Qed.

(** A replay of a file of entries. *)
Lemma recov_file_spec e now path es (ps : State) : agents_on_channels -> ps_fs ps !! path = Some (file_text es) ->
  exists ps', turn_state (recov e now path ps) = Some ps' /\
    ((ps_fs ps' = delete path (ps_fs ps) /\ (exists us, replays es us /\ replayed (cands_of path) us (ps_net ps) (ps_net ps'))
        /\ ps_point ps' !! path = None) \/
     (ps_fs ps' = ps_fs ps /\ exists k us, replays (take k es) us /\ replayed (cands_of path) us (ps_net ps) (ps_net ps'))).
Proof.
  intros Ha Hp. pose proof (candidates_channels path Ha) as Hc. unfold recov_file. destruct (cands_of path) as [|c cs] eqn:Ec.
  { exists ps. split; [done|]. right. split; [done|]. exists 0%nat, []. split; [constructor|]. apply replayed_none. intros k. by rewrite app_nil_r. }
  rewrite Hp. unfold pick_file. rewrite file_lines_text. set (st := mkPick _ _ _ _ _ _ _).
  pose proof (pick_lines_spec e (relative_rescue_display_path path (rescue_path cfg)) path (c :: cs) es 0 0 st Hc
    (mc_new_wf _ _)) as Hl.
  destruct (pick_lines _ _ _ _ _ _ _ _) as [[] st'|r st'|]; [| | |done]; (eexists; split; [done|]).
  - left. by destruct Hl.
  - by right.
  - by right.
Qed.

(** On any file, the outlets gain and no other file changes. *)
Lemma recov_file_grows e now path (ps : State) : agents_on_channels ->
  exists ps', turn_state (recov e now path ps) = Some ps' /\ grows (ps_net ps) (ps_net ps') /\
    (ps_fs ps' = ps_fs ps \/ ps_fs ps' = delete path (ps_fs ps)).
Proof.
  intros Ha. pose proof (candidates_channels path Ha) as Hc. unfold recov_file. destruct (cands_of path) as [|c cs] eqn:Ec.
  { exists ps. split_and!; [done|apply grows_refl|by left]. }
  destruct (ps_fs ps !! path) as [text|]; [|exists ps; split_and!; [done|apply grows_refl|by left]].
  unfold pick_file. set (st := mkPick _ _ _ _ _ _ _).
  destruct (pick_lines_grows e (relative_rescue_display_path path (rescue_path cfg)) path (c :: cs) (file_lines text) 0 0 st Hc
    (mc_new_wf _ _)) as (st' & Hst & Hg).
  destruct (pick_lines _ _ _ _ _ _ _ _) as [[] st2|r st2|]; [injection Hst as ->..|done];
    (eexists; split; [done|]; (split; [exact Hg|])); cbn; auto.
Qed.

(** Each entry of the file reached a terminal of its candidates, as what its
    line reads as. *)
Definition delivered (path : string) (es : list (RescueEntry R)) (ps : State) : Prop :=
  Forall (fun e => exists e' n, reads e e' /\ Channel n ∈ cands_of path /\
    payload_unit (payload e') ∈ sent (world (ps_net ps)) n) es.
Definition kept_or_sent (path : string) (es : list (RescueEntry R)) (ps : State) : Prop :=
  ps_fs ps !! path = Some (file_text es) \/ delivered path es ps.

Lemma replayed_delivered path es us (ps ps' : State) : replays es us ->
  replayed (cands_of path) us (ps_net ps) (ps_net ps') -> delivered path es ps'.
Proof.
  intros Hr (log & Hu & Hin & Hs). unfold delivered. apply Forall_forall. intros e He.
  apply list_elem_of_lookup in He as [i He]. destruct (Forall2_lookup_l _ _ _ i e Hr He) as (u & Hi & e' & Hre & ->).
  rewrite <- Hu in Hi. apply list_elem_of_lookup_2, list_elem_of_fmap in Hi as ([n u] & Eu & Hx). cbn in Eu. subst u.
  exists e', n. split; [done|]. split; [exact (proj1 (Forall_forall _ _) Hin _ Hx)|]. rewrite (Hs n). apply elem_of_app. right.
  apply list_elem_of_In, in_concat. exists (at_chan n n [payload_unit (payload e')]). split.
  - apply in_map_iff. exists (n, payload_unit (payload e')). split; [done|by apply list_elem_of_In].
  - unfold at_chan. rewrite bool_decide_true by done. by left.
Qed.

Lemma delivered_grows path es (ps ps' : State) : delivered path es ps -> grows (ps_net ps) (ps_net ps') -> delivered path es ps'.
Proof.
  intros Hd [d Hs]. eapply Forall_impl; [exact Hd|]. intros e (e' & n & He & Hn & Hu). exists e', n.
  split; [done|]. split; [done|]. rewrite (Hs n). by apply elem_of_app; left.
Qed.

Lemma kept_or_sent_grows path es (ps ps' : State) : kept_or_sent path es ps -> grows (ps_net ps) (ps_net ps') ->
  ps_fs ps' !! path = ps_fs ps !! path -> kept_or_sent path es ps'.
Proof.
  intros [Hp|Hd] Hg Hf; [left; by rewrite Hf|right]. by eapply delivered_grows.
Qed.

Lemma recov_file_kept e now p path es (ps : State) : agents_on_channels -> kept_or_sent path es ps ->
  exists ps', turn_state (recov e now p ps) = Some ps' /\ kept_or_sent path es ps'.
Proof.
  intros Ha Hk. destruct (decide (p = path)) as [->|Hne].
  - destruct Hk as [Hp|Hd].
    + destruct (recov_file_spec e now path es ps Ha Hp) as (ps' & E' & [(_ & (us & Hus & Hr) & _)|(Hf & _)]); exists ps'; (split; [done|]).
      * right. by eapply replayed_delivered.
      * left. by rewrite Hf.
    + destruct (recov_file_grows e now path ps Ha) as (ps' & E' & Hg & _). exists ps'. split; [done|]. right.
      by eapply delivered_grows.
  - destruct (recov_file_grows e now p ps Ha) as (ps' & E' & Hg & Hf). exists ps'. split; [done|].
    eapply kept_or_sent_grows; [done..|]. destruct Hf as [-> | ->]; [done|by rewrite lookup_delete_ne].
Qed.

(** A turn of which the names carry their times, and in which nobody else
    touches [path]. *)
Definition fair_turn (path : string) (t : TurnEnv) : Prop :=
  (forall fs, te_fs t fs !! path = fs !! path) /\
  (forall fs files, te_walk t fs = Some files -> tack_lasts_file parse_time files <> Panic).

Lemma turn_kept t path es (ps : State) : agents_on_channels -> fair_turn path t -> kept_or_sent path es ps ->
  exists ps', turn_state (turn canonical parse_time reqs agents cfg t ps) = Some ps' /\ kept_or_sent path es ps'.
Proof.
  intros Ha [Ht Hn] Hk. unfold turn. set (ps1 := mkPickerState (te_fs t (ps_fs ps)) _ _ _ _ _ _).
  assert (kept_or_sent path es ps1) as H1'.
  { eapply kept_or_sent_grows; [exact Hk|apply grows_refl|apply Ht]. }
  assert (exists ps', turn_state (turn_work canonical parse_time reqs agents cfg t ps1) = Some ps' /\ kept_or_sent path es ps') as Hw.
  { unfold turn_work. destruct (te_walk t (ps_fs ps1)) as [files|] eqn:Ew; [|by exists ps1].
    specialize (Hn _ _ Ew). destruct (tack_lasts_file parse_time files) as [[p|]|]; [| |done].
    - destruct (recov_file_kept (te_file t) (te_now t) p path es (set_ps_idle ps1 None) Ha H1') as (ps' & Hs & Hk').
      destruct (recov _ _ _ _) as [q|q|r q|]; [injection Hs as ->..|done]; eexists; (split; [done|exact Hk']).
    - destruct (idle_exit cfg) as [th|]; [|by exists ps1]. destruct (ps_idle ps1) as [t0|]; [|by eexists].
      destruct (th <=? _); by exists ps1. }
  destruct Hw as (ps2 & Hs & Hk2). destruct (turn_work _ _ _ _ _ _ _) as [q|q|r q|]; [injection Hs as ->..|done];
    [|by exists ps2..]. destruct (te_cmd t); [by eexists|]. destruct (te_idle t) as [[a b] c].
  destruct (is_stop _ _ _); by eexists.
Qed.

(** C3: no rescued entry is lost by the recovery: however the walks, the clocks,
    the channels, the commands and the errors fall, as long as nobody else
    touches the file and names carry their times, after any number of turns it
    is still there in full, or every entry of it, as what its line reads as, is
    in the channel of one of its sinks.  The known sinks are channels. *)
Theorem rescued_entries_kept (ts : list TurnEnv) path es (ps : State) (Ha : agents_on_channels)
    (Ht : Forall (fair_turn path) ts) (Hp : ps_fs ps !! path = Some (file_text es)) :
  exists ps', turn_state (pick_data canonical parse_time reqs agents cfg ts ps) = Some ps' /\ kept_or_sent path es ps'.
Proof.
  assert (kept_or_sent path es ps) as Hk by by left. clear Hp. revert ps Hk.
  induction Ht as [|t ts Hh _ IH]; intros ps Hk; cbn [pick_data]; [by exists ps|].
  destruct (turn_kept t path es ps Ha Hh Hk) as (ps1 & Hs & Hk1).
  destruct (turn _ _ _ _ _ _ _) as [q|q|r q|]; [injection Hs as ->..|done]; [by apply IH|by eexists..].
Qed.

(** ** A file of a sink nobody knows *)

(** C10: the newest file of an unknown sink stops the recovery of all others: as
    long as it is found, whatever commands and clocks come, no turn sends
    anything or removes a file and the picker never fails; it exits by a stop
    command alone: idle or not, it goes on as long as none is given. *)
Theorem unknown_sink_blocks_replay (ts : list TurnEnv) path (ps : State) (Hc : cands_of path = [])
    (Ht : Forall (fun t => forall fs, exists files, te_walk t fs = Some files /\
            tack_lasts_file parse_time files = Ret (Some path)) ts) :
  let r := pick_data canonical parse_time reqs agents cfg ts ps in
  exists ps' k, (r = TGo ps' /\ k = length ts \/ r = TExit ps') /\ ps_net ps' = ps_net ps /\
    ps_fs ps' = foldl (fun fs t => te_fs t fs) (ps_fs ps) (take k ts) /\
    ((forall c, work_cmd (ps_ctrl ps) <> Stop c) -> Forall (fun t => forall c, te_cmd t <> Some (Stop c)) ts -> r = TGo ps').
Proof.
  cbn zeta. revert ps. induction Ht as [|t ts Hw Ht IH]; intros ps; cbn [pick_data].
  { exists ps, 0%nat. split_and!; [by left|done..]. }
  unfold turn, turn_work. destruct (Hw (te_fs t (ps_fs ps))) as (files & Hf & Hl). cbn [ps_fs]. rewrite Hf, Hl.
  unfold recov_file. rewrite Hc. clear Hf Hl Hw Ht.
  set (q := set_ps_ctrl _ (rec_task_suc _)).
  assert (work_cmd (ps_ctrl q) = work_cmd (ps_ctrl ps)) as Hq by done.
  assert (ps_net q = ps_net ps /\ ps_fs q = te_fs t (ps_fs ps)) as [Hn Hs] by done. clearbody q.
  destruct (te_cmd t) as [c|] eqn:Ec.
  - destruct (IH (set_ps_ctrl q (update_cmd (ps_ctrl q) c))) as (ps' & k & Hr & Hn' & Hs' & Hgo). exists ps', (S k).
    split; [destruct Hr as [[Hr ->]|Hr]; [by left|by right]|]. split; [by rewrite Hn'|].
    split; [rewrite Hs'; cbn [ps_fs set_ps_ctrl take foldl]; by rewrite Hs|].
    intros _ [Hc1 Hc2]%Forall_cons. apply Hgo; [|done]. intros c'. cbn. intros ->. by apply (Hc1 c').
  - destruct (te_idle t) as [[a b] c]. set (q1 := set_ps_ctrl q (rec_task_idle (ps_ctrl q) a)).
    assert (work_cmd (ps_ctrl q1) = work_cmd (ps_ctrl ps)) as Hq1
      by (rewrite <- Hq; cbn; unfold rec_task_idle; by destruct (last_miss _)).
    destruct (is_stop (ps_ctrl q1) b c) eqn:Es.
    + exists q1, 1%nat. split; [by right|]. split; [done|]. split; [cbn; by destruct ts|].
      intros Hns _. exfalso. revert Es. unfold is_stop. rewrite Hq1. specialize (Hns).
      destruct (work_cmd (ps_ctrl ps)) as [x| | | |]; cbn; try done. by destruct (Hns x).
    + destruct (IH q1) as (ps' & k & Hr & Hn' & Hs' & Hgo). exists ps', (S k).
      split; [destruct Hr as [[Hr ->]|Hr]; [by left|by right]|]. split; [by rewrite Hn'|].
      split; [rewrite Hs'; cbn [take foldl]; by rewrite <- Hs|].
      intros Hns [_ Hc2]%Forall_cons. apply Hgo; [|done]. by rewrite Hq1.
Qed.

(** ** The round trip *)

(** Nothing from outside ends the replay at a unit. *)
Definition calm (u : UnitEnv) : Prop :=
  ue_cmd u = None /\ (ue_stat_due u = true -> ue_save u = true /\ forall i, ue_mon u i <> Collectors.Closed).

Definition running (st : Pick) : Prop := mc_wf (pf_stat st) /\ work_cmd (pf_ctrl st) = Execute All /\ pf_idx st = 0%nat.

Lemma at_unit_calm u (st : Pick) : calm u -> running st ->
  exists st', at_unit u st = UGo st' /\ running st' /\ pf_net st' = pf_net st.
Proof.
  intros [Hcmd Hdue] (Hw & Hrun & Hi). unfold at_unit. rewrite Hcmd. destruct (ue_idle u) as [[a b] c].
  assert (exists st1, (if ue_stat_due u then
      match send_pstat u st with (false, st) => UErr RecResource st
      | (true, st) => if ue_save u then UGo (save_point st) else UErr RecSystem st end else UGo st) = UGo st1 /\
    running st1 /\ pf_net st1 = pf_net st) as (st1 & -> & (Hw1 & Hrun1 & Hi1) & Hn).
  { destruct (ue_stat_due u); [|by exists st]. destruct (Hdue eq_refl) as [-> Hts]. unfold send_pstat.
    destruct (send_stat_wf (ue_mon u) (ue_time u) (pf_stat st) Hw Hts) as (out & full & m & -> & Hm). by eexists. }
  assert (work_cmd (unit_speed_limit_left (pf_ctrl st1) (ue_limit_now u)).2 = Execute All) as H1'.
  { unfold unit_speed_limit_left. by destruct (limit_speed_time _ _). }
  set (c1 := (unit_speed_limit_left _ _).2) in *.
  assert (work_cmd (rec_task_idle c1 a) = Execute All) as H2' by (unfold rec_task_idle; by destruct (last_miss c1)).
  cbn [pf_ctrl set_pctrl]. unfold is_stop. rewrite H2'. cbn [is_end]. eexists. split; [done|]. split; [|done]. by split_and!.
Qed.

Lemma try_candidate_accepted retries p n (s : Net) : always_open (R := R) (W := W) ->
  accepts (R := R) (S retries) n [payload_unit p] (world s) = true ->
  exists s', try_candidate retries p (Channel n) s = (TSent, s').
Proof.
  intros [_ Hopen]. revert s. induction retries as [|retries IH]; intros s Hacc; cbn [try_candidate];
    rewrite send_payload_channel; unfold sender_try_send; specialize (Hopen n [payload_unit p] (world s)); cbn [accepts] in Hacc;
    destruct (chan_try_send n [payload_unit p] (world s)) as [[] w]; try done; [by eexists|by eexists|].
  by apply IH.
Qed.

Lemma take_line_calm clk target path cands n e e' (st : Pick) : reads e e' -> always_open (R := R) (W := W) ->
  (forall us w, accepts (R := R) (S RECOVER_BUSY_RETRY_MAX) n us w = true) -> running st ->
  exists st', take_line clk target path (Channel n :: cands) (entry_line e) st = Ret (inl st') /\ running st' /\
    sent_more (pf_net st) (pf_net st') (fun k => at_chan n k (units_of [e'])).
Proof.
  intros He Ho Hacc (Hw & Hrun & Hi). unfold take_line. rewrite entry_line_utf8, trim_entry, He. cbn [negb].
  unfold stat_begin. destruct (counts_begin field_text (clk 0%nat) (pf_stat st) target None Hw) as (m1 & -> & Hm1 & _). cbn [obind].
  destruct (String.eqb (entry_text e) "") eqn:Ee; [apply String.eqb_eq in Ee; by apply text_not_empty in Ee|].
  cbn [pf_idx pf_net set_pstat]. rewrite Hi. unfold send_payload_with_failover. cbn [length failover].
  replace (0 mod S (length cands))%nat with 0%nat by (symmetry; by apply Nat.mod_0_l). cbn [lookup list_lookup].
  destruct (try_candidate_accepted RECOVER_BUSY_RETRY_MAX (payload e') n (pf_net st) Ho (Hacc _ _)) as (s' & Et).
  pose proof (try_candidate_spec RECOVER_BUSY_RETRY_MAX (payload e') n (pf_net st)) as Hs. rewrite Et in Hs |- *.
  unfold stat_end. destruct (counts_end field_text (clk 1%nat) m1 target None Hm1) as (m2 & E2 & Hm2 & _).
  cbn [pf_stat set_sent set_pstat]. rewrite E2. cbn [obind]. eexists. split; [done|]. split; [by split_and!|exact Hs].
Qed.

Lemma pick_lines_calm e target path cands n es es' i u (st : Pick) : Forall2 reads es es' -> always_open (R := R) (W := W) ->
  (forall us w, accepts (R := R) (S RECOVER_BUSY_RETRY_MAX) n us w = true) -> (forall k, calm (fe_unit e k)) ->
  fe_remove e = true -> running st ->
  exists st', pick_lines e target path (Channel n :: cands) (map entry_line es) i u st = PickOk SucEnded st' /\
    sent_more (pf_net st) (pf_net st') (fun k => at_chan n k (units_of es')).
Proof.
  intros Hes Ho Hacc Hcalm Hrm. revert i u st. induction Hes as [|x x' es es' Hx _ IH]; intros i u st Hr; cbn [pick_lines map].
  all: assert (exists st1, (if is_unit_end (pf_ctrl st) then at_unit (fe_unit e u) st else UGo st) = UGo st1 /\
    running st1 /\ pf_net st1 = pf_net st) as (st1 & -> & Hr1 & <-)
    by (destruct (is_unit_end (pf_ctrl st)); [by apply at_unit_calm|by exists st]).
  - pose proof (file_end_spec e i target path st1 (proj1 Hr1)) as Hf. destruct (file_end _ _ _ _ _) as [[] st2|r st2|]; try done.
    + destruct Hf as (Hn & _). exists st2. split; [done|]. intros k. rewrite Hn. unfold at_chan. cbn. by destruct (bool_decide _); rewrite app_nil_r.
    + destruct Hf as (_ & _ & Hf). by rewrite Hrm in Hf.
  - destruct (take_line_calm (fe_clk e i) target path cands n x x' st1 Hx Ho Hacc Hr1) as (st2 & -> & Hr2 & Hs2).
    destruct (IH (S i) (if is_unit_end (pf_ctrl st) then S u else u) st2 Hr2) as (st3 & -> & Hs3).
    exists st3. split; [done|]. intros k. rewrite (Hs3 k), (Hs2 k), <- app_assoc. f_equal. by rewrite <- at_chan_app.
Qed.

(** C5: what a sink rescued comes back, when no write, flush or removal of a
    file fails, the first of the file's sinks is an open channel with room after
    the retries, and neither a command nor the monitor ends the replay: the
    entries written to a new rescue file by a sink that is stopped, however the
    writer spills them, are found under the name without [.lock], and its replay
    sends every one, as what the JSON of it reads as, to that sink, in the
    order they were written, and removes the file. *)
Theorem rescue_then_replay w es es' (p : string) (fs : Fs) e now n cands (ps : State)
    (Hread : Forall2 reads es es') (Hw : forall k, good_write (w k)) (Hnew : fs !! (p +:+ ".lock") = None)
    (Hcand : cands_of p = Channel n :: cands) (Ho : always_open (R := R) (W := W))
    (Hacc : forall us w, accepts (R := R) (S RECOVER_BUSY_RETRY_MAX) n us w = true)
    (Hcalm : forall k, calm (fe_unit e k)) (Hrm : fe_remove e = true) :
  exists s fs1 s' fs', (let '(s0, fs0) := RescueFileSink_new (p +:+ ".lock") fs in write_entries w es s0 fs0) = (true, (s, fs1)) /\
    rescue_stop false s fs1 = (true, (s', fs')) /\
    (ps_fs ps = fs' -> exists ps', recov e now p ps = TGo ps' /\ ps_fs ps' = delete p fs' /\
      sent_more (ps_net ps) (ps_net ps') (fun k => at_chan n k (units_of es'))).
Proof.
  destruct (rescue_file_written w es p fs Hw Hnew) as (s & fs1 & s' & fs' & E1 & E2 & Hp & _).
  exists s, fs1, s', fs'. split; [done|]. split; [done|]. intros Hfs. unfold recov_file. rewrite Hcand, Hfs, Hp.
  unfold pick_file. rewrite file_lines_text. set (st := mkPick _ _ _ _ _ _ _).
  destruct (pick_lines_calm e (relative_rescue_display_path p (rescue_path cfg)) p cands n es es' 0 0 st Hread Ho Hacc Hcalm Hrm)
    as (st' & -> & Hs); [by split_and!; [apply mc_new_wf|..]|]. by eexists.
Qed.

End Replay.
