(* ===== verification/RecoveryInst.v ===== *)
(** A concrete recovery: entries as binary digits of their code, unbounded
    channels; the theorems of [RecoveryLaws] hold on it, and what happens to
    names the recovery does not expect. *)
From Stdlib Require Import ZArith Lia String Ascii.
From stdpp Require Import prelude strings gmap countable.
From S2P Require Import Prelude F64 Text Utf8 RateLimit Actor DataModel ErrPolicy Picker SinkRuntime Tags Stats StatsLaws Metrics MetricsLaws Dispatcher WplEngine WplEngineLaws WplEngineInst Resources ResourcesLaws ResourcesInst Recovery RecoveryLaws.
Local Open Scope string_scope.
Local Open Scope list_scope.
Local Open Scope Z_scope.

#[local] Existing Instances list_types list_api list_laws.
#[local] Existing Instance Dim.StatDim_eq_dec.
#[local] Existing Instances demo_lru demo_coll demo_record_api all_open_laws prefix_matcher.
#[local] Existing Instance all_open.

(** ** Entries as text *)

(** A value as its constructor's number and what it holds. *)
Definition value_code (v : Value) : nat * string * Z :=
  match v with
  | Null => (0%nat, "", 0) | Ignore_ => (1%nat, "", 0) | Chars s => (2%nat, s, 0) | Symbol s => (3%nat, s, 0)
  | TimeV t => (4%nat, "", t) | BoolV b => (5%nat, "", if b then 1 else 0) | IntV n => (6%nat, "", n)
  | BigUint n => (7%nat, "", Z.of_N n) | Hex n => (8%nat, "", Z.of_N n) | FloatV x => (9%nat, "", x)
  | IpNetV n => (10%nat, "", n) | IpAddrV a => (11%nat, "", a) | Domain s => (12%nat, s, 0) | Email s => (13%nat, s, 0)
  | Url s => (14%nat, s, 0) | IdCard s => (15%nat, s, 0) | MobilePhone s => (16%nat, s, 0)
  | ArrayV _ => (17%nat, "", 0) | ObjV _ => (18%nat, "", 0) | OtherV d => (19%nat, "", d)
  end.

Definition value_of (c : nat * string * Z) : Value :=
  let '(k, s, n) := c in
  match k with
  | 0 => Null | 1 => Ignore_ | 2 => Chars s | 3 => Symbol s | 4 => TimeV n | 5 => BoolV (Z.eqb n 1) | 6 => IntV n
  | 7 => BigUint (Z.to_N n) | 8 => Hex (Z.to_N n) | 9 => FloatV n | 10 => IpNetV n | 11 => IpAddrV n | 12 => Domain s
  | 13 => Email s | 14 => Url s | 15 => IdCard s | 16 => MobilePhone s | 17 => ArrayV tt | 18 => ObjV tt
  | _ => OtherV n
  end%nat.

Lemma value_of_code v : value_of (value_code v) = v.
Proof.
  destruct v; cbn; rewrite ?N2Z.id; try done.
  - by destruct b.
  - by destruct l.
  - by destruct o.
Qed.

Definition entry_code (e : RescueEntry VRec) : Z * (list (string * (nat * string * Z)) + string) :=
  (version e, match payload e with PRecord r => inl (map (fun f => (f.1, value_code f.2)) r) | PRaw s => inr s end).
Definition entry_of (c : Z * (list (string * (nat * string * Z)) + string)) : RescueEntry VRec :=
  mkEntry c.1 (match c.2 with inl l => PRecord (map (fun f => (f.1, value_of f.2)) l) | inr s => PRaw s end).

Lemma entry_of_code e : entry_of (entry_code e) = e.
Proof.
  destruct e as [v [r|s]]; [|done]. unfold entry_of, entry_code. cbn. do 2 f_equal.
  induction r as [|[k x] r IH]; [done|]. cbn. by rewrite value_of_code, IH.
Qed.

Fixpoint pos_bits (p : positive) : list ascii :=
  match p with xH => ["1"%char] | xO p => "0"%char :: pos_bits p | xI p => "1"%char :: pos_bits p end.
Fixpoint bits_pos (l : list ascii) : option positive :=
  match l with
  | [] => None
  | [_] => Some xH
  | c :: l => p ← bits_pos l; Some (if Ascii.eqb c "0" then xO p else xI p)
  end.

Lemma bits_pos_bits p : bits_pos (pos_bits p) = Some p.
Proof. induction p as [p IH|p IH|]; cbn; [| |done]; rewrite IH; by destruct p. Qed.

#[local] Instance demo_json : RescueJson VRec := {|
  entry_text e := string_of_list_ascii (pos_bits (encode (entry_code e)));
  entry_parse s := p ← bits_pos (list_ascii_of_string s); c ← decode p; Some (entry_of c)
|}.

Definition digit (c : ascii) : Prop := c = "0"%char \/ c = "1"%char.

Lemma bits_digits p : Forall digit (pos_bits p).
Proof. induction p; cbn; constructor; try done; unfold digit; auto. Qed.

Lemma digits_utf8 l : Forall digit l -> utf8_valid l = true.
Proof.
  induction 1 as [|c l [->| ->] _ IH]; [done|..]; apply (valid_app [_] l); done.
Qed.

#[local] Instance demo_json_laws : RescueJsonLaws (R := VRec).
Proof.
  split; cbn [entry_text entry_parse demo_json].
  - intros e. by destruct (encode (entry_code e)).
  - intros e. rewrite list_ascii_of_string_of_list_ascii. eapply Forall_impl; [|apply bits_digits]. by intros c [->| ->].
  - intros e. rewrite list_ascii_of_string_of_list_ascii. apply digits_utf8, bits_digits.
Qed.

(** This text reads back as it was. *)
Lemma demo_reads (es : list (RescueEntry VRec)) : Forall2 reads es es.
Proof.
  induction es as [|e es IH]; [constructor|]. constructor; [|exact IH]. unfold reads. cbn [entry_text entry_parse demo_json].
  rewrite list_ascii_of_string_of_list_ascii, bits_pos_bits. cbn. rewrite decode_encode. cbn. by rewrite entry_of_code.
Qed.

(** ** The picker *)

Definition rescue_dat : string := "rescue/web/file-2024-05-01_10:00:00.dat".

Definition demo_agents (n : nat) : list (RouteAgent (M := string)) :=
  [mkRouteAgent (Flexi "web" [""] ["file"]) (Channel n); mkRouteAgent (Flexi "web2" [""] ["file"]) (Channel 8)].

Definition demo_picker : ActCovPicker := mkPicker "rescue" 1000 (Some 5000).
Definition no_canonical (s : string) : option string := None.
Definition demo_time (s : string) : option Z := if String.eqb s "2024-05-01 10:00:00" then Some 1 else None.

Definition demo_unit_env : UnitEnv := mkUnitEnv true (fun _ => Collectors.Sent) 1 true 1 None (1, 1, 1).
Definition demo_file_env : FileEnv := mkFileEnv (fun _ => demo_unit_env) demo_clk true demo_unit_env.
Definition demo_turn (files : list string) : TurnEnv :=
  mkTurnEnv (fun fs => fs) (fun _ => Some files) 1 demo_file_env None (1, 1, 1).

Definition demo_entries : list (RescueEntry VRec) :=
  [entry_record [("a", Chars "x")]; entry_raw_line "raw text"; entry_record []].

Definition demo_state (fs : Fs) : PickerState (W := DemoWorld) := picker_start demo_picker fs demo_net ∅ 1.

(** The sink of the path's group is asked, not its namesake. *)
Example group_of_path :
  candidates_for no_canonical "rescue" (demo_agents 3) rescue_dat = [Channel 3]
  /\ candidates_for no_canonical "rescue" (demo_agents 3) "rescue/gone/file-2024-05-01_10:00:00.dat" = [Channel 3; Channel 8].
Proof. vm_compute. done. Qed.

(** A sink named with a hyphen: its file is taken for another sink's, and as
    soon as there are two files, the recovery panics over its time. *)
Example hyphenated_sink :
  get_sink_name "rescue/web/file-a-2024-05-01_10:00:00.dat" = "file"
  /\ tack_lasts_file demo_time ["rescue/web/file-a-2024-05-01_10:00:00.dat"] = Ret (Some "rescue/web/file-a-2024-05-01_10:00:00.dat")
  /\ tack_lasts_file demo_time ["rescue/web/file-a-2024-05-01_10:00:00.dat"; rescue_dat] = Panic.
Proof. vm_compute. done. Qed.

(** A line that is no entry ends the recovery, before and after a restart. *)
Example broken_line_ends_recovery :
  let fs : Fs := {[rescue_dat := "{}"]} in
  match pick_data no_canonical demo_time [] (demo_agents 3) demo_picker [demo_turn [rescue_dat]] (demo_state fs) with
  | TErr RecData ps => ps_fs ps !! rescue_dat
  | _ => None
  end = Some "{}".
Proof. vm_compute. reflexivity. Qed.

Lemma demo_on_channels n : agents_on_channels (demo_agents n).
Proof. constructor; [by exists n|]. constructor; [by exists 8%nat|]. constructor. Qed.

Lemma demo_open : always_open (R := VRec) (Ends0 := all_open).
Proof. split; [done|intros n us w; discriminate]. Qed.

Lemma demo_accepts fuel n us w : accepts (R := VRec) (Ends0 := all_open) (S fuel) n us w = true.
Proof. reflexivity. Qed.

Lemma demo_calm k : calm (fe_unit demo_file_env k).
Proof. split; [done|]. intros _. split; [done|]. intros i. discriminate. Qed.

Lemma rescue_then_replay_witness :
  let fs : Fs := ∅ in
  exists s fs1 s' fs', (let '(s0, fs0) := RescueFileSink_new (rescue_dat +:+ ".lock") fs in
      write_entries (fun _ => mkWrite false true false) demo_entries s0 fs0) = (true, (s, fs1)) /\
    rescue_stop false s fs1 = (true, (s', fs')) /\
    exists ps', recov_file no_canonical [] (demo_agents 3) demo_picker demo_file_env 1 rescue_dat (demo_state fs') = TGo ps' /\
      ps_fs ps' = delete rescue_dat fs' /\ sent (world (ps_net ps')) 3 = units_of demo_entries.
Proof.
  assert (forall k : nat, good_write (mkWrite false true false)) as Hg by (intros _; split; reflexivity).
  pose proof (rescue_then_replay no_canonical [] (demo_agents 3) demo_picker (fun _ => mkWrite false true false) demo_entries demo_entries rescue_dat ∅ demo_file_env 1 3 []) as Hx.
  assert (forall fs, exists s fs1 s' fs', (let '(s0, fs0) := RescueFileSink_new (rescue_dat +:+ ".lock") ∅ in
      write_entries (fun _ => mkWrite false true false) demo_entries s0 fs0) = (true, (s, fs1)) /\
    rescue_stop false s fs1 = (true, (s', fs')) /\
    (ps_fs (demo_state fs) = fs' -> exists ps', recov_file no_canonical [] (demo_agents 3) demo_picker demo_file_env 1 rescue_dat (demo_state fs) = TGo ps' /\
      ps_fs ps' = delete rescue_dat fs' /\ sent_more (ps_net (demo_state fs)) (ps_net ps') (fun k => at_chan 3 k (units_of demo_entries)))) as Hall.
  { intros fs. exact (Hx (demo_state fs) (demo_reads demo_entries) Hg eq_refl eq_refl demo_open (demo_accepts RECOVER_BUSY_RETRY_MAX 3) demo_calm eq_refl). }
  clear Hx. destruct (Hall ∅) as (s & fs1 & s' & fs' & E1 & E2 & _).
  destruct (Hall fs') as (t & gs1 & t' & gs' & F1 & F2 & Hr). rewrite E1 in F1. injection F1 as <- <-. rewrite E2 in F2. injection F2 as <- <-.
  destruct (Hr eq_refl) as (ps' & E3 & E4 & Hs). exists s, fs1, s', fs'. split; [exact E1|]. split; [exact E2|].
  exists ps'. split; [exact E3|]. split; [exact E4|]. exact (Hs 3%nat).
Defined.

Lemma rescued_entries_kept_witness :
  let fs : Fs := {[rescue_dat := file_text demo_entries]} in
  exists ps', turn_state (pick_data no_canonical demo_time [] (demo_agents 3) demo_picker [demo_turn [rescue_dat]] (demo_state fs)) = Some ps'
    /\ kept_or_sent no_canonical (demo_agents 3) demo_picker rescue_dat demo_entries ps'.
Proof.
  intros fs.
  apply (rescued_entries_kept no_canonical demo_time [] (demo_agents 3) demo_picker [demo_turn [rescue_dat]] rescue_dat demo_entries
    (demo_state fs) (demo_on_channels 3)).
  - constructor; [|constructor]. split; [reflexivity|]. intros fs' files [= <-]. discriminate.
  - exact (lookup_singleton_eq (M := gmap string) rescue_dat (file_text demo_entries)).
Defined.

Lemma unknown_sink_blocks_replay_witness :
  let path := "rescue/old/gone-2024-05-01_10:00:00.dat" in
  let fs : Fs := {[path := "x"]} in
  exists ps', pick_data no_canonical demo_time [] (demo_agents 3) demo_picker [demo_turn [path]; demo_turn [path]] (demo_state fs) = TGo ps'
    /\ ps_net ps' = demo_net.
Proof.
  intros path fs.
  destruct (unknown_sink_blocks_replay no_canonical demo_time [] (demo_agents 3) demo_picker [demo_turn [path]; demo_turn [path]] path (demo_state fs))
    as (ps' & k & _ & Hn & _ & Hgo).
  - vm_compute. reflexivity.
  - constructor; [|constructor; [|constructor]]; intros fs'; exists [path]; split; reflexivity.
  - exists ps'. split; [|exact Hn]. apply Hgo; [discriminate|]. repeat constructor; discriminate.
Defined.
