(* ===== verification/GenSpeed.v ===== *)
(** The generator's speed ([src/runtime/generator/speed/], [types.rs],
    [crates/wp-config/src/generator/speed_profile.rs]): profiles of a rate over
    time, the controller that evaluates them, the token bucket that paces a
    pipeline.

    Instants are nanoseconds; what a call reads, the clock and the random
    numbers, is a stream with a counter of the reads.  The sine is the platform's
    (an argument). *)
From Stdlib Require Import ZArith Lia.
From Stdlib Require Import Floats.SpecFloat.
From stdpp Require Import prelude.
From S2P Require Import Prelude F64.
Local Open Scope list_scope.
Local Open Scope Z_scope.
Local Open Scope wp_scope.

(** ** More of [f64] *)

Notation f64 := spec_float.
Definition f_lit (digits e10 : Z) : f64 := f64_decimal false digits e10.
Definition f_zero : f64 := S754_zero false.
Definition f_one : f64 := as_f64 1.

(** [<] on numbers, by their values [m * 2 ^ e]; false on a NaN. *)
Definition fval_lt (a b : f64) : bool :=
  match a, b with
  | S754_nan, _ | _, S754_nan => false
  | S754_infinity s, S754_infinity t => s && negb t
  | S754_infinity s, _ => s
  | _, S754_infinity t => negb t
  | _, _ =>
      let num x := match x with S754_finite s m e => (if s then Zneg m else Zpos m, e) | _ => (0, 0) end in
      let '(m, d) := num a in let '(n, e) := num b in
      m * 2 ^ (d - Z.min d e) <? n * 2 ^ (e - Z.min d e)
  end.

(** [f64::max], [f64::min], [f64::clamp]. *)
Definition fmax (a b : f64) : f64 :=
  match a, b with S754_nan, _ => b | _, S754_nan => a | _, _ => if fval_lt a b then b else a end.
Definition fmin (a b : f64) : f64 :=
  match a, b with S754_nan, _ => b | _, S754_nan => a | _, _ => if fval_lt b a then b else a end.
Definition fclamp (x lo hi : f64) : f64 := if fval_lt x lo then lo else if fval_lt hi x then hi else x.

Definition fneg (x : f64) : f64 := SFopp x.

(** [%]: the exact remainder, with the sign of the dividend. *)
Definition frem (a b : f64) : f64 :=
  match a, b with
  | S754_nan, _ | _, S754_nan | S754_infinity _, _ | _, S754_zero _ => S754_nan
  | S754_zero s, _ => S754_zero s
  | _, S754_infinity _ => a
  | S754_finite s m d, S754_finite _ n e =>
      let k := Z.min d e in
      let r := (Zpos m * 2 ^ (d - k)) mod (Zpos n * 2 ^ (e - k)) in
      if r =? 0 then S754_zero s else binary_normalize 53 1024 (if s then - r else r) k s
  end.

(** [as usize]: towards zero, saturating, [0] for a NaN. *)
Definition f64_as_usize (x : f64) : Z :=
  match x with
  | S754_zero _ | S754_nan => 0
  | S754_infinity s => if s then 0 else USIZE_MAX
  | S754_finite s m e =>
      if s then 0 else Z.min USIZE_MAX (if 0 <=? e then Zpos m * 2 ^ e else Zpos m / 2 ^ (- e))
  end.

Definition NANOS : Z := 1000000000.

(** [Duration::as_secs_f64] *)
Definition as_secs_f64 (ns : Z) : f64 := fadd (as_f64 (ns / NANOS)) (fdiv (as_f64 (ns mod NANOS)) (as_f64 NANOS)).

(** [Duration::from_secs_f64]: to the nearest nanosecond, ties to even; a
    negative number, a NaN or too long a time panics. *)
Definition from_secs_f64 (x : f64) : outcome Z :=
  match x with
  | S754_zero _ => Ret 0
  | S754_finite false m e =>
      let '(n, d) := if 0 <=? e then (Zpos m * 2 ^ e * NANOS, 1) else (Zpos m * NANOS, 2 ^ (- e)) in
      let q := n / d in let r := n mod d in
      let ns := if (d <? 2 * r) || ((d =? 2 * r) && Z.odd q) then q + 1 else q in
      if ns <? 2 ^ 64 * NANOS then Ret ns else Panic
  | _ => Panic
  end.

(** ** Profiles *)

Inductive CombineMode := Average | Max | Min | Sum.

Inductive SpeedProfile :=
  | Constant (rate : Z)
  | Sinusoidal (base amplitude : Z) (period_secs : f64)
  | Stepped (steps : list (f64 * Z)) (loop_forever : bool)
  | Burst (base burst_rate burst_duration_ms : Z) (burst_probability : f64)
  | Ramp (start end_ : Z) (duration_secs : f64)
  | RandomWalk (base : Z) (variance : f64)
  | Composite (profiles : list SpeedProfile) (combine_mode : CombineMode).

Definition SpeedProfile_default : SpeedProfile := Constant 1000.
Definition constant (rate : Z) : SpeedProfile := Constant rate.
Definition sinusoidal (base amplitude : Z) (period_secs : f64) : SpeedProfile := Sinusoidal base amplitude period_secs.
Definition stepped (steps : list (f64 * Z)) (loop_forever : bool) : SpeedProfile := Stepped steps loop_forever.
Definition burst (base burst_rate burst_duration_ms : Z) (p : f64) : SpeedProfile :=
  Burst base burst_rate burst_duration_ms (fclamp p f_zero f_one).
Definition ramp (start end_ : Z) (duration_secs : f64) : SpeedProfile := Ramp start end_ duration_secs.
Definition random_walk (base : Z) (variance : f64) : SpeedProfile := RandomWalk base (fclamp variance f_zero f_one).
Definition composite (profiles : list SpeedProfile) (m : CombineMode) : SpeedProfile := Composite profiles m.

(** [iter().sum::<usize>()] *)
Definition wrap_sum (l : list Z) : Z := foldl (fun a b => a +w b) 0 l.

Definition first_rate (steps : list (f64 * Z)) : Z := match steps with s :: _ => s.2 | [] => 1000 end.

Fixpoint base_rate (p : SpeedProfile) : Z :=
  match p with
  | Constant rate => rate
  | Sinusoidal base _ _ | Burst base _ _ _ | RandomWalk base _ => base
  | Stepped steps _ => first_rate steps
  | Ramp start _ _ => start
  | Composite profiles _ => wrap_sum (map base_rate profiles) / Z.max 1 (zlen profiles)
  end.

Definition is_constant (p : SpeedProfile) : bool := match p with Constant _ => true | _ => false end.

(** The profiles of the configuration file. *)
Module Cfg.
Inductive SpeedProfileConfig :=
  | Constant (rate : Z)
  | Sinusoidal (base amplitude : Z) (period_secs : f64)
  | Stepped (steps : list (f64 * Z)) (loop_forever : bool)
  | Burst (base burst_rate burst_duration_ms : Z) (burst_probability : f64)
  | Ramp (start end_ : Z) (duration_secs : f64)
  | RandomWalk (base : Z) (variance : f64)
  | Composite (profiles : list SpeedProfileConfig) (combine_mode : CombineMode).

Definition SpeedProfileConfig_default : SpeedProfileConfig := Constant 1000.

Fixpoint conf_base_rate (p : SpeedProfileConfig) : Z :=
  match p with
  | Constant rate => rate
  | Sinusoidal base _ _ | Burst base _ _ _ | RandomWalk base _ => base
  | Stepped steps _ => first_rate steps
  | Ramp start _ _ => start
  | Composite profiles _ => wrap_sum (map conf_base_rate profiles) / Z.max 1 (zlen profiles)
  end.

Definition conf_is_constant (p : SpeedProfileConfig) : bool := match p with Constant _ => true | _ => false end.
End Cfg.

(** [From<SpeedProfileConfig>] *)
Fixpoint from_config (c : Cfg.SpeedProfileConfig) : SpeedProfile :=
  match c with
  | Cfg.Constant rate => Constant rate
  | Cfg.Sinusoidal base amplitude period_secs => Sinusoidal base amplitude period_secs
  | Cfg.Stepped steps loop_forever => Stepped steps loop_forever
  | Cfg.Burst base burst_rate ms p => Burst base burst_rate ms (fclamp p f_zero f_one)
  | Cfg.Ramp start end_ duration_secs => Ramp start end_ duration_secs
  | Cfg.RandomWalk base variance => RandomWalk base (fclamp variance f_zero f_one)
  | Cfg.Composite profiles m => Composite (map from_config profiles) m
  end.

(** ** [DynamicSpeedController] *)

(** What the calls read, by the number of the read. *)
Record Reads := mkReads { rd_now : nat -> Z; rd_random : nat -> f64 }.

(** The random generator is the stream. *)
Inductive Controller := mkController {
  profile : SpeedProfile;
  start_time : Z;
  step_idx : Z;
  step_start_time : f64;
  in_burst : bool;
  burst_end : option Z;
  composite_children : list Controller;
}.

Fixpoint with_start_time (p : SpeedProfile) (start_time : Z) : Controller :=
  mkController p start_time 0 f_zero false None
    match p with
    | Composite profiles _ => map (fun p => with_start_time p start_time) profiles
    | _ => []
    end.

Fixpoint reset_with_start_time (start_time : Z) (c : Controller) : Controller :=
  mkController (profile c) start_time 0 f_zero false None (map (reset_with_start_time start_time) (composite_children c)).

Section Controller.
Variable sin : f64 -> f64.
Variable rd : Reads.

Definition PI : f64 := f_lit 314159265358979323846264338327950288 (-35).

Definition calc_sinusoidal (base amplitude : Z) (period_secs elapsed_secs : f64) : Z :=
  if fle period_secs f_zero then base else
  let phase := fmul (fmul (fdiv elapsed_secs period_secs) (as_f64 2)) PI in
  let variation := fmul (as_f64 amplitude) (sin phase) in
  f64_as_usize (fmax (fadd (as_f64 base) variation) f_one).

(** The step whose accumulated end is behind the time. *)
Fixpoint find_step (steps : list (f64 * Z)) (accumulated t : f64) : option Z :=
  match steps with
  | [] => None
  | (duration, rate) :: steps =>
      let accumulated := fadd accumulated duration in
      if flt t accumulated then Some rate else find_step steps accumulated t
  end.

Definition calc_stepped (steps : list (f64 * Z)) (loop_forever : bool) (elapsed_secs : f64) : Z :=
  match steps with
  | [] => 1000
  | (_, r) :: _ =>
      let total_duration := foldl fadd (S754_zero true) (map fst steps) in
      if fle total_duration f_zero then r else
      let t := if loop_forever then frem elapsed_secs total_duration else fmin elapsed_secs total_duration in
      match find_step steps f_zero t with
      | Some rate => rate
      | None => default 1000 (option_map snd (last steps))
      end
  end.

Definition calc_burst (base burst_rate burst_duration_ms : Z) (burst_probability : f64) (c : Controller) (k : nat)
    : Z * Controller * nat :=
  let now := rd_now rd k in
  let set b e := mkController (profile c) (start_time c) (step_idx c) (step_start_time c) b e (composite_children c) in
  match burst_end c with
  | Some e => if now <? e then (burst_rate, c, S k) else
      if flt (rd_random rd (S k)) (fdiv burst_probability (as_f64 10))
      then (burst_rate, set true (Some (now + burst_duration_ms * 1000000)), S (S k))
      else (base, set false None, S (S k))
  | None =>
      if flt (rd_random rd (S k)) (fdiv burst_probability (as_f64 10))
      then (burst_rate, set true (Some (now + burst_duration_ms * 1000000)), S (S k))
      else (base, c, S (S k))
  end.

Definition calc_ramp (start end_ : Z) (duration_secs elapsed_secs : f64) : Z :=
  if fle duration_secs f_zero then end_ else
  let progress := fclamp (fdiv elapsed_secs duration_secs) f_zero f_one in
  let rate := fadd (as_f64 start) (fmul (fsub (as_f64 end_) (as_f64 start)) progress) in
  f64_as_usize (fmax rate f_one).

Definition calc_random_walk (base : Z) (variance : f64) (k : nat) : Z * nat :=
  let noise := fsub (fmul (fmul (rd_random rd k) (as_f64 2)) variance) variance in
  (f64_as_usize (fmax (fmul (as_f64 base) (fadd f_one noise)) f_one), S k).

Definition combine (m : CombineMode) (rates : list Z) : Z :=
  match m with
  | Average => wrap_sum rates / zlen rates
  | Max => match rates with [] => 1000 | r :: l => foldl Z.max r l end
  | Min => match rates with [] => 1000 | r :: l => foldl Z.min r l end
  | Sum => wrap_sum rates
  end.

(** [calculate_speed] from read [k] on: the rate, the controller and the next
    read. *)
Fixpoint calculate_speed (elapsed_secs : f64) (c : Controller) (k : nat) {struct c} : Z * Controller * nat :=
  match c with
  | mkController p st si ss ib be children =>
      match p with
      | Composite _ mode =>
          match children with
          | [] => (1000, c, k)
          | _ =>
              let '(rates, children, k) :=
                (fix each (l : list Controller) (k : nat) : list Z * list Controller * nat :=
                   match l with
                   | [] => ([], [], k)
                   | x :: l =>
                       let '(r, x, k) := calculate_speed elapsed_secs x k in
                       let '(rs, l, k) := each l k in (r :: rs, x :: l, k)
                   end) children k in
              (combine mode rates, mkController p st si ss ib be children, k)
          end
      | Constant rate => (rate, c, k)
      | Sinusoidal base amplitude period_secs => (calc_sinusoidal base amplitude period_secs elapsed_secs, c, k)
      | Stepped steps loop_forever => (calc_stepped steps loop_forever elapsed_secs, c, k)
      | Burst base burst_rate ms p => calc_burst base burst_rate ms p c k
      | Ramp start end_ duration_secs => (calc_ramp start end_ duration_secs elapsed_secs, c, k)
      | RandomWalk base variance => let '(r, k) := calc_random_walk base variance k in (r, c, k)
      end
  end.

Definition current_speed (c : Controller) (k : nat) : Z * Controller * nat :=
  calculate_speed (as_secs_f64 (Z.max 0 (rd_now rd k - start_time c))) c (S k).

(** [DynamicSpeedController::new], [reset]: they read the clock. *)
Definition DynamicSpeedController_new (p : SpeedProfile) (k : nat) : Controller * nat := (with_start_time p (rd_now rd k), S k).
Definition reset_controller (c : Controller) (k : nat) : Controller * nat := (reset_with_start_time (rd_now rd k) c, S k).

(** ** [DynamicRateLimiter] *)

Record DynamicRateLimiter := mkLimiter {
  controller : Controller;
  tokens : f64;
  max_tokens : f64;
  last_refill : Z;
  current_rate : Z;
  last_rate_update : Z;
  rate_update_interval_ms : Z;
  total_consumed : Z;
  total_waited_ms : Z;
}.

Definition calc_max_tokens (rate : Z) : f64 := fmax (fmul (as_f64 rate) (f_lit 2 (-1))) (as_f64 10).

Definition DynamicRateLimiter_new (p : SpeedProfile) (k : nat) : DynamicRateLimiter * nat :=
  let '(c, k) := DynamicSpeedController_new p k in
  let '(rate, c, k) := current_speed c k in
  (mkLimiter c (calc_max_tokens rate) (calc_max_tokens rate) (rd_now rd k) rate (rd_now rd (S k)) 100 0 0, S (S k)).

Definition from_constant (rate : Z) : nat -> DynamicRateLimiter * nat := DynamicRateLimiter_new (Constant rate).

Definition refill_tokens_at (now : Z) (l : DynamicRateLimiter) : DynamicRateLimiter :=
  let elapsed := as_secs_f64 (Z.max 0 (now - last_refill l)) in
  let t := if 0 <? current_rate l
           then fmin (fadd (tokens l) (fmul elapsed (as_f64 (current_rate l)))) (max_tokens l)
           else tokens l in
  mkLimiter (controller l) t (max_tokens l) now (current_rate l) (last_rate_update l) (rate_update_interval_ms l)
    (total_consumed l) (total_waited_ms l).

Definition maybe_update_rate_at (now : Z) (l : DynamicRateLimiter) (k : nat) : bool * DynamicRateLimiter * nat :=
  let elapsed := Z.max 0 (now - last_rate_update l) / 1000000 in
  if rate_update_interval_ms l <=? elapsed then
    let '(new_rate, c, k) := current_speed (controller l) k in
    let l := mkLimiter c (tokens l) (max_tokens l) (last_refill l) (current_rate l) (last_rate_update l)
               (rate_update_interval_ms l) (total_consumed l) (total_waited_ms l) in
    let changed := negb (new_rate =? current_rate l) in
    let l := if changed then
               let l := refill_tokens_at now l in
               mkLimiter (controller l) (fmin (tokens l) (calc_max_tokens new_rate)) (calc_max_tokens new_rate) (last_refill l)
                 new_rate (last_rate_update l) (rate_update_interval_ms l) (total_consumed l) (total_waited_ms l)
             else l in
    (changed, mkLimiter (controller l) (tokens l) (max_tokens l) (last_refill l) (current_rate l) now
                (rate_update_interval_ms l) (total_consumed l) (total_waited_ms l), k)
  else (false, l, k).

Definition maybe_update_rate (l : DynamicRateLimiter) (k : nat) : DynamicRateLimiter * nat :=
  let '(_, l, k) := maybe_update_rate_at (rd_now rd k) l (S k) in (l, k).

Definition set_taken (l : DynamicRateLimiter) (t : f64) (consumed waited : Z) : DynamicRateLimiter :=
  mkLimiter (controller l) t (max_tokens l) (last_refill l) (current_rate l) (last_rate_update l)
    (rate_update_interval_ms l) consumed waited.

(** [consume]: the time to wait, in nanoseconds. *)
Definition consume (count : Z) (l : DynamicRateLimiter) (k : nat) : outcome (Z * DynamicRateLimiter * nat) :=
  if current_rate l =? 0 then Ret (0, set_taken l (tokens l) (total_consumed l +w count) (total_waited_ms l), k) else
  let now := rd_now rd k in
  let '(rate_changed, l, k) := maybe_update_rate_at now l (S k) in
  let l := if rate_changed then l else refill_tokens_at now l in
  let l := set_taken l (fsub (tokens l) (as_f64 count)) (total_consumed l +w count) (total_waited_ms l) in
  if flt (tokens l) f_zero then
    let! wait := from_secs_f64 (fdiv (fneg (tokens l)) (as_f64 (current_rate l))) in
    Ret (wait, set_taken l (tokens l) (total_consumed l) (total_waited_ms l +w (wait / 1000000)), k)
  else Ret (0, l, k).

Definition rec_beg (l : DynamicRateLimiter) (k : nat) : DynamicRateLimiter * nat := maybe_update_rate l k.
Definition limit_speed_time : DynamicRateLimiter -> nat -> outcome (Z * DynamicRateLimiter * nat) := consume 0.

Definition reset_stats (l : DynamicRateLimiter) : DynamicRateLimiter := set_taken l (tokens l) 0 0.

Definition reset_limiter (l : DynamicRateLimiter) (k : nat) : DynamicRateLimiter * nat :=
  let '(c, k) := reset_controller (controller l) k in
  let '(rate, c, k) := current_speed c k in
  (mkLimiter c (calc_max_tokens rate) (calc_max_tokens rate) (rd_now rd k) rate (rd_now rd (S k))
     (rate_update_interval_ms l) 0 0, S (S k)).
End Controller.

(** ** The generator's arguments ([types.rs]) *)

Record GenGRA := mkGra {
  total_line : option Z;
  gen_speed : Z;
  speed_profile : option SpeedProfile;
  parallel : Z;
  stat_sec : Z;
  stat_print : bool;
}.

Definition GenGRA_default : GenGRA := mkGra (Some 1000) 1000 None 1 1 false.
Definition gen_conf_or_default_speed (g : GenGRA) : Z := gen_speed g.
Definition get_speed_profile (g : GenGRA) : SpeedProfile := default (Constant (gen_speed g)) (speed_profile g).
Definition base_speed (g : GenGRA) : Z := default (gen_speed g) (option_map base_rate (speed_profile g)).
Definition with_speed_profile (g : GenGRA) (p : SpeedProfile) : GenGRA :=
  mkGra (total_line g) (gen_speed g) (Some p) (parallel g) (stat_sec g) (stat_print g).
Definition with_constant_speed (g : GenGRA) (rate : Z) : GenGRA :=
  mkGra (total_line g) rate None (parallel g) (stat_sec g) (stat_print g).

(** A pipeline's share of the profile ([rule.rs], [sample.rs]). *)
Fixpoint adjust_profile_for_pipeline (p : SpeedProfile) (pipe_cnt : Z) : SpeedProfile :=
  if pipe_cnt <=? 1 then p else
  match p with
  | Constant rate => Constant (rate / pipe_cnt)
  | Sinusoidal base amplitude period_secs => Sinusoidal (base / pipe_cnt) (amplitude / pipe_cnt) period_secs
  | Stepped steps loop_forever => Stepped (map (fun s => (s.1, s.2 / pipe_cnt)) steps) loop_forever
  | Burst base burst_rate ms pr => Burst (base / pipe_cnt) (burst_rate / pipe_cnt) ms pr
  | Ramp start end_ duration_secs => Ramp (start / pipe_cnt) (end_ / pipe_cnt) duration_secs
  | RandomWalk base variance => RandomWalk (base / pipe_cnt) variance
  | Composite profiles m => Composite (map (fun p => adjust_profile_for_pipeline p pipe_cnt) profiles) m
  end.
