(* ===== verification/GenConf.v ===== *)
(** The generator's configuration ([crates/wp-config/src/generator/wpgen.rs]):
    the parts the generator runs on and their validation.

    Texts are lowercased in ASCII: the words compared with have no letter that
    another script lowercases to. *)
From Stdlib Require Import ZArith Lia String Ascii.
From Stdlib Require Import Floats.SpecFloat.
From stdpp Require Import prelude strings.
From S2P Require Import Prelude F64 Text Tags GenSpeed.
Local Open Scope string_scope.
Local Open Scope list_scope.
Local Open Scope Z_scope.

Record GeneratorConfig := mkGeneratorConfig {
  g_count : option Z;
  g_speed : Z;
  g_speed_profile : option Cfg.SpeedProfileConfig;
  g_parallel : Z;
  rule_root : option string;
  sample_pattern : option string;
}.

Definition GeneratorConfig_default : GeneratorConfig := mkGeneratorConfig (Some 1000) 1000 None 1 None None.

Definition conf_base_speed (g : GeneratorConfig) : Z := default (g_speed g) (option_map Cfg.conf_base_rate (g_speed_profile g)).
Definition conf_speed_profile (g : GeneratorConfig) : Cfg.SpeedProfileConfig :=
  default (Cfg.Constant (g_speed g)) (g_speed_profile g).
Definition is_constant_speed (g : GeneratorConfig) : bool := default true (option_map Cfg.conf_is_constant (g_speed_profile g)).

(** [OutputConfig] without the parameters of the connector. *)
Record OutputConfig := mkOutputConfig { connect : option string; o_name : option string }.
Definition OutputConfig_default : OutputConfig := mkOutputConfig (Some "file_json_sink") None.

Record LoggingConfig := mkLoggingConfig { level : string; output : string; file_path : option string }.
Definition LoggingConfig_default : LoggingConfig := mkLoggingConfig "info" "file" (Some "./data/logs").

Record WpGenConfig := mkWpGenConfig {
  version : string;
  generator : GeneratorConfig;
  output_conf : OutputConfig;
  logging : LoggingConfig;
}.
Definition WpGenConfig_default : WpGenConfig :=
  mkWpGenConfig "1.0" GeneratorConfig_default OutputConfig_default LoggingConfig_default.

(** ** Validation: the reason it fails for *)

Inductive ProfileError :=
  | ConstantRate | SinusoidalBase | SinusoidalPeriod
  | SteppedEmpty | SteppedDuration (i : nat) | SteppedRate (i : nat)
  | BurstBase | BurstRate | BurstDuration | BurstProbability
  | RampStart | RampEnd | RampDuration
  | WalkBase | WalkVariance | CompositeEmpty.

(** [(0.0..=1.0).contains] *)
Definition in_unit (x : spec_float) : bool := fle f_zero x && fle x f_one.

Fixpoint validate_steps (i : nat) (steps : list (spec_float * Z)) : option ProfileError :=
  match steps with
  | [] => None
  | (duration_secs, rate) :: steps =>
      if fle duration_secs f_zero then Some (SteppedDuration i)
      else if rate =? 0 then Some (SteppedRate i)
      else validate_steps (S i) steps
  end.

Fixpoint validate_speed_profile (p : Cfg.SpeedProfileConfig) : option ProfileError :=
  match p with
  | Cfg.Constant rate => if rate =? 0 then Some ConstantRate else None
  | Cfg.Sinusoidal base _ period_secs =>
      if base =? 0 then Some SinusoidalBase
      else if fle period_secs f_zero then Some SinusoidalPeriod else None
  | Cfg.Stepped steps _ => match steps with [] => Some SteppedEmpty | _ => validate_steps 0 steps end
  | Cfg.Burst base burst_rate burst_duration_ms burst_probability =>
      if base =? 0 then Some BurstBase
      else if burst_rate =? 0 then Some BurstRate
      else if burst_duration_ms =? 0 then Some BurstDuration
      else if negb (in_unit burst_probability) then Some BurstProbability else None
  | Cfg.Ramp start end_ duration_secs =>
      if start =? 0 then Some RampStart
      else if end_ =? 0 then Some RampEnd
      else if fle duration_secs f_zero then Some RampDuration else None
  | Cfg.RandomWalk base variance =>
      if base =? 0 then Some WalkBase else if negb (in_unit variance) then Some WalkVariance else None
  | Cfg.Composite profiles _ =>
      match profiles with
      | [] => Some CompositeEmpty
      | _ => (fix each (l : list Cfg.SpeedProfileConfig) : option ProfileError :=
                match l with
                | [] => None
                | sub :: l => match validate_speed_profile sub with Some e => Some e | None => each l end
                end) profiles
      end
  end.

Definition VALID_LEVELS : list string := ["trace"; "debug"; "info"; "warn"; "error"].

Definition is_valid_level_string (level : string) : bool :=
  forallb (fun seg =>
    let seg := str_trim seg in
    if String.eqb seg "" then false else
    let level_part := match str_split_once "=" seg with Some (_, lvl) => str_trim lvl | None => seg end in
    existsb (String.eqb level_part) VALID_LEVELS) (str_split "," level).

Definition validate_logging_level (c : WpGenConfig) : bool := is_valid_level_string (to_ascii_lowercase (level (logging c))).

Definition validate_logging_output (c : WpGenConfig) : bool :=
  existsb (String.eqb (to_ascii_lowercase (output (logging c)))) ["stdout"; "console"; "file"; "both"].

Inductive WpGenError := VersionEmpty | CountZero | ParallelZero | BadProfile (e : ProfileError) | ConnectMissing | BadLevel | BadOutput.

Definition validate (c : WpGenConfig) : option WpGenError :=
  if String.eqb (str_trim (version c)) "" then Some VersionEmpty else
  if match g_count (generator c) with Some n => n =? 0 | None => false end then Some CountZero else
  if g_parallel (generator c) =? 0 then Some ParallelZero else
  match (p ← g_speed_profile (generator c); validate_speed_profile p) with
  | Some e => Some (BadProfile e)
  | None =>
      if match option_map str_trim (connect (output_conf c)) with Some s => String.eqb s "" | None => true end
      then Some ConnectMissing
      else if negb (validate_logging_level c) then Some BadLevel
      else if negb (validate_logging_output c) then Some BadOutput
      else None
  end.

(** [to_log_conf]: the level, where to, and the file. *)
Inductive LogOutput := Console | Both | File.
Definition to_log_conf (l : LoggingConfig) : string * LogOutput * string :=
  (level l,
   if String.eqb (output l) "stdout" || String.eqb (output l) "console" then Console
   else if String.eqb (output l) "both" then Both else File,
   default "./logs" (file_path l)).
