(* ===== verification/GenSpeedLaws.v ===== *)
(** What the generator's pace guarantees ([GenSpeed], [GenConf]): a validated
    profile never stops limiting a pipeline, whatever the clock, the random
    numbers and the sine, as long as every rate it names is at least the number
    of pipelines; below that, the share of a pipeline is zero, which the limiter
    takes for no limit. *)
From Stdlib Require Import ZArith Lia.
From Stdlib Require Import Floats.SpecFloat.
From stdpp Require Import prelude strings.
From S2P Require Import Prelude F64 Text Tags GenSpeed GenConf.
Local Open Scope list_scope.
Local Open Scope Z_scope.
Local Open Scope wp_scope.

(** ** Casts *)

Lemma as_usize_range x : 0 <= f64_as_usize x <= USIZE_MAX.
Proof.
  assert (0 <= USIZE_MAX) by (unfold USIZE_MAX; lia).
  destruct x as [s|[]| |[] m e]; cbn [f64_as_usize]; try lia.
  assert (0 <= (if 0 <=? e then Zpos m * 2 ^ e else Zpos m / 2 ^ (- e))); [|lia].
  destruct (0 <=? e) eqn:E; [apply Z.leb_le in E; apply Z.mul_nonneg_nonneg; [lia|by apply Z.pow_nonneg]|].
  apply Z.div_pos; [lia|]. apply Z.pow_pos_nonneg; lia.
Qed.

Lemma one_is : f_one = S754_finite false 4503599627370496 (-52).
Proof. vm_compute. reflexivity. Qed.

(** A number kept at one or more is cast to one or more. *)
Lemma fmax_one x : 1 <= f64_as_usize (fmax x f_one).
Proof.
  assert (1 <= f64_as_usize f_one) as H1 by (vm_compute; discriminate).
  unfold fmax. rewrite one_is in *. destruct x as [s|s| |s m e]; try done.
  - by destruct s; cbn.
  - destruct (fval_lt (S754_finite s m e) _) eqn:E; [done|]. unfold fval_lt in E. apply Z.ltb_ge in E.
    set (k := Z.min e (-52)) in *. assert (0 < 2 ^ (e - k)) by (apply Z.pow_pos_nonneg; lia).
    assert (0 < 2 ^ (-52 - k)) by (apply Z.pow_pos_nonneg; lia).
    destruct s; [exfalso; nia|]. cbn [f64_as_usize]. apply Z.min_glb; [vm_compute; discriminate|].
    destruct (0 <=? e) eqn:He; [apply Z.leb_le in He; assert (0 < 2 ^ e) by (apply Z.pow_pos_nonneg; lia); nia|].
    apply Z.leb_gt in He. assert (0 < 2 ^ (- e)) as Hp by (apply Z.pow_pos_nonneg; lia).
    apply Z.div_le_lower_bound; [done|]. rewrite Z.mul_1_r.
    change 4503599627370496%Z with (2 ^ 52) in E. rewrite <- Z.pow_add_r in E by lia.
    replace (52 + (-52 - k)) with (- e + (e - k)) in E by lia. rewrite Z.pow_add_r in E by lia. nia.
Qed.

(** ** Profiles *)

Lemma profile_ind (P : SpeedProfile -> Prop) :
  (forall r, P (Constant r)) -> (forall b a t, P (Sinusoidal b a t)) -> (forall s l, P (Stepped s l)) ->
  (forall b r d p, P (Burst b r d p)) -> (forall s e d, P (Ramp s e d)) -> (forall b v, P (RandomWalk b v)) ->
  (forall ps m, Forall P ps -> P (Composite ps m)) -> forall p, P p.
Proof.
  intros H1 H2 H3 H4 H5 H6 H7. fix IH 1. intros [| | | | | |ps m]; [apply H1|apply H2|apply H3|apply H4|apply H5|apply H6|].
  apply H7. induction ps as [|p ps IHps]; constructor; [apply IH|exact IHps].
Qed.

(** Every rate the profile names is [n] or more. *)
Fixpoint at_least (n : Z) (p : SpeedProfile) : bool :=
  match p with
  | Constant r => n <=? r
  | Sinusoidal b _ _ => n <=? b
  | Stepped steps _ => forallb (fun s => n <=? s.2) steps
  | Burst b r _ _ => (n <=? b) && (n <=? r)
  | Ramp s e _ => (n <=? s) && (n <=? e)
  | RandomWalk b _ => n <=? b
  | Composite ps _ => forallb (at_least n) ps
  end.

(** The largest rate that is added up, and how many. *)
Definition CAP : Z := 4294967296.

Fixpoint capped (p : SpeedProfile) : bool :=
  match p with
  | Constant r => r <=? CAP
  | Stepped steps _ => forallb (fun s => s.2 <=? CAP) steps
  | Burst b r _ _ => (b <=? CAP) && (r <=? CAP)
  | Composite ps (Max | Min | Average) => forallb capped ps
  | _ => false
  end.

(** No sum of rates can overflow. *)
Fixpoint no_overflow (p : SpeedProfile) : bool :=
  match p with
  | Composite ps m =>
      forallb no_overflow ps && match m with Average | Sum => forallb capped ps && (zlen ps <? CAP) | _ => true end
  | _ => true
  end.

(** A controller of the profile. *)
Fixpoint shaped (p : SpeedProfile) (c : Controller) : Prop :=
  profile c = p /\
  match p with
  | Composite ps _ =>
      (fix all (ps : list SpeedProfile) (cs : list Controller) : Prop :=
         match ps, cs with
         | [], [] => True
         | p :: ps, c :: cs => shaped p c /\ all ps cs
         | _, _ => False
         end) ps (composite_children c)
  | _ => True
  end.

Lemma shaped_composite ps m c : shaped (Composite ps m) c <-> profile c = Composite ps m /\ Forall2 shaped ps (composite_children c).
Proof.
  cbn [shaped]. apply and_iff_compat_l. generalize (composite_children c). induction ps as [|p ps IH]; intros [|x cs].
  - split; [constructor|done].
  - split; [done|inversion 1].
  - split; [done|inversion 1].
  - rewrite Forall2_cons, IH. done.
Qed.

Lemma new_shaped p t : shaped p (with_start_time p t).
Proof.
  induction p as [| | | | | |ps m IH] using profile_ind; try done. apply shaped_composite. split; [done|]. cbn.
  induction IH as [|p ps Hp _ IHps]; constructor; done.
Qed.

Lemma shaped_profile p c : shaped p c -> profile c = p.
Proof. destruct p; by intros []. Qed.

(** ** Sums *)

Lemma wrap_sum_from l a : 0 <= a -> Forall (fun r => 0 <= r) l -> a + foldr Z.add 0 l < 2 ^ 64 ->
  foldl (fun a b => a +w b) a l = a + foldr Z.add 0 l.
Proof.
  revert a. induction l as [|x l IH]; intros a Ha Hl Hs; cbn [foldl foldr] in *; [lia|].
  apply Forall_cons in Hl as [Hx Hl]. assert (0 <= foldr Z.add 0 l) by (clear -Hl; induction Hl; cbn [foldr]; lia).
  unfold wrap_add at 2. rewrite Z.mod_small by lia. rewrite IH by (done || lia). lia.
Qed.

(** The sum of capped rates is exact. *)
Lemma wrap_sum_capped l n : Forall (fun r => n <= r <= CAP) l -> 0 <= n -> zlen l < CAP ->
  n * zlen l <= wrap_sum l <= CAP * zlen l.
Proof.
  intros Hl Hn Hlen. assert (n * zlen l <= foldr Z.add 0 l <= CAP * zlen l) as Hs.
  { clear Hlen. induction Hl as [|x l Hx _ IH]; rewrite ?zlen_nil, ?zlen_cons; cbn [foldr]; [lia|].
    rewrite !Z.mul_add_distr_l, !Z.mul_1_r. lia. }
  pose proof (zlen_nonneg l). unfold wrap_sum. rewrite wrap_sum_from; [lia|lia| |unfold CAP in *; nia].
  eapply Forall_impl; [exact Hl|]. cbn. lia.
Qed.

Lemma foldl_max_bounds n b r l : n <= r <= b -> Forall (fun x => n <= x <= b) l -> n <= foldl Z.max r l <= b.
Proof. intros Hr Hl. revert r Hr. induction Hl as [|x l Hx _ IH]; intros r Hr; cbn [foldl]; [done|]. apply IH. lia. Qed.

Lemma foldl_min_bounds n b r l : n <= r <= b -> Forall (fun x => n <= x <= b) l -> n <= foldl Z.min r l <= b.
Proof. intros Hr Hl. revert r Hr. induction Hl as [|x l Hx _ IH]; intros r Hr; cbn [foldl]; [done|]. apply IH. lia. Qed.

Lemma combine_bounds m rates : rates <> [] -> Forall (fun r => 1 <= r) rates ->
  (match m with Average | Sum => Forall (fun r => r <= CAP) rates /\ zlen rates < CAP | _ => True end) ->
  1 <= combine m rates /\ (Forall (fun r => r <= CAP) rates -> m <> Sum -> combine m rates <= CAP).
Proof.
  intros Hne H1 Hm. pose proof (zlen_nonneg rates).
  assert (1 <= zlen rates) by (destruct rates; [done|rewrite zlen_cons; pose proof (zlen_nonneg rates); lia]).
  assert (Forall (fun r => r <= CAP) rates -> zlen rates < CAP -> zlen rates <= wrap_sum rates <= CAP * zlen rates) as Hs.
  { intros Hc Hl. rewrite <- (Z.mul_1_l (zlen rates)) at 1. apply wrap_sum_capped; [|lia|done].
    apply Forall_and. split; [exact H1|exact Hc]. }
  destruct m; cbn [combine].
  - destruct Hm as [Hc Hl]. specialize (Hs Hc Hl). split.
    + apply Z.div_le_lower_bound; lia.
    + intros _ _. apply Z.div_le_upper_bound; lia.
  - destruct rates as [|r l]; [done|]. apply Forall_cons in H1 as [Hr Hl]. split.
    + assert (exists b, r <= b /\ Forall (fun x => x <= b) l) as (b & Hb & Hlb).
      { exists (foldr Z.max r l). clear. induction l as [|x l [IH1 IH2]]; cbn [foldr]; [by split|]. split; [lia|].
        constructor; [lia|]. eapply Forall_impl; [exact IH2|]. cbn. lia. }
      apply (foldl_max_bounds 1 b); [lia|]. apply Forall_and. by split.
    + intros Hc _. apply Forall_cons in Hc as [Hrc Hc]. apply (foldl_max_bounds 1 CAP); [lia|]. apply Forall_and. by split.
  - destruct rates as [|r l]; [done|]. apply Forall_cons in H1 as [Hr Hl]. split.
    + assert (exists b, r <= b /\ Forall (fun x => x <= b) l) as (b & Hb & Hlb).
      { exists (foldr Z.max r l). clear. induction l as [|x l [IH1 IH2]]; cbn [foldr]; [by split|]. split; [lia|].
        constructor; [lia|]. eapply Forall_impl; [exact IH2|]. cbn. lia. }
      apply (foldl_min_bounds 1 b); [lia|]. apply Forall_and. by split.
    + intros Hc _. apply Forall_cons in Hc as [Hrc Hc]. apply (foldl_min_bounds 1 CAP); [lia|]. apply Forall_and. by split.
  - destruct Hm as [Hc Hl]. specialize (Hs Hc Hl). split; [lia|done].
Qed.

Lemma find_step_in steps acc t r : find_step steps acc t = Some r -> exists d, (d, r) ∈ steps.
Proof.
  revert acc. induction steps as [|[d x] steps IH]; intros acc; cbn [find_step]; [done|].
  destruct (flt t _); [intros [= <-]; exists d; by left|]. intros Hf. destruct (IH _ Hf) as [d' Hd]. exists d'. by right.
Qed.

Lemma calc_stepped_in steps l t : (exists s, s ∈ steps /\ calc_stepped steps l t = s.2) \/ (steps = [] /\ calc_stepped steps l t = 1000).
Proof.
  destruct steps as [|[d r] steps]; [by right|]. left. unfold calc_stepped. set (ss := (d, r) :: steps).
  destruct (fle _ f_zero); [exists (d, r); split; [by left|done]|].
  destruct (find_step ss _ _) as [x|] eqn:Ef.
  - destruct (find_step_in _ _ _ _ Ef) as [d' Hd]. by exists (d', x).
  - destruct (last ss) as [s|] eqn:El; [|by apply last_None in El]. exists s. split; [by apply last_Some_elem_of|done].
Qed.

Section Speed.
Variable sin : f64 -> f64.
Variable rd : Reads.

(** The children of a composite, one after the other. *)
Definition speeds (t : f64) : list Controller -> nat -> list Z * list Controller * nat :=
  fix each l k :=
    match l with
    | [] => ([], [], k)
    | x :: l =>
        let '(r, x, k) := calculate_speed sin rd t x k in
        let '(rs, l, k) := each l k in (r :: rs, x :: l, k)
    end.

Lemma speeds_cons t x l k : speeds t (x :: l) k =
  let '(r, x, k) := calculate_speed sin rd t x k in let '(rs, l, k) := speeds t l k in (r :: rs, x :: l, k).
Proof. done. Qed.

Lemma composite_speed t ps m st si ss ib be x l k :
  calculate_speed sin rd t (mkController (Composite ps m) st si ss ib be (x :: l)) k =
  let '(rates, cs, k) := speeds t (x :: l) k in (combine m rates, mkController (Composite ps m) st si ss ib be cs, k).
Proof. reflexivity. Qed.

Definition good_speed (p : SpeedProfile) (r : Z * Controller * nat) : Prop :=
  let '(v, c, _) := r in 1 <= v /\ (capped p = true -> v <= CAP) /\ shaped p c.

Lemma speeds_good t ps : Forall (fun p => forall c k, at_least 1 p = true -> no_overflow p = true -> shaped p c ->
    good_speed p (calculate_speed sin rd t c k)) ps ->
  forall cs k, forallb (at_least 1) ps = true -> forallb no_overflow ps = true -> Forall2 shaped ps cs ->
  let '(rates, cs', _) := speeds t cs k in length rates = length ps /\ Forall (fun r => 1 <= r) rates /\
    (forallb capped ps = true -> Forall (fun r => r <= CAP) rates) /\ Forall2 shaped ps cs'.
Proof.
  induction 1 as [|p ps Hp _ IH]; intros cs k H1 H2 Hs; inversion Hs as [|? c ? cs' Hc Hcs]; subst; [by split_and!|]. rewrite speeds_cons.
  cbn [forallb] in H1, H2. apply andb_prop in H1 as [H1 H1'], H2 as [H2 H2']. specialize (Hp c k H1 H2 Hc).
  destruct (calculate_speed sin rd t c k) as [[v c1] k1]. destruct Hp as (Hv & Hcap & Hc1).
  specialize (IH cs' k1 H1' H2' Hcs). destruct (speeds t cs' k1) as [[rs cs1] k2]. destruct IH as (Hl & Hr & Hrc & Hss).
  split_and!; [cbn; by f_equal|by constructor| |by constructor].
  cbn [forallb]. intros Hb. apply andb_prop in Hb as [Hb Hb']. constructor; auto.
Qed.

(** A profile whose rates are positive gives a positive rate at every time. *)
Lemma calculate_speed_good t p c k : at_least 1 p = true -> no_overflow p = true -> shaped p c ->
  good_speed p (calculate_speed sin rd t c k).
Proof.
  revert c k. induction p as [r|b a d|steps l|b br d pr|s e d|b v|ps m IH] using profile_ind;
    intros [p' st si ss ib be ch] k H1 H2 Hs; pose proof (shaped_profile _ _ Hs) as Hp; cbn in Hp; subst p'; cbn [at_least] in H1.
  - cbn. split_and!; [lia|lia|done|done].
  - cbn. split_and!; [|done|done|done]. unfold calc_sinusoidal. destruct (fle _ _); [lia|apply fmax_one].
  - cbn [calculate_speed good_speed]. split_and!; [| |done].
    + destruct (calc_stepped_in steps l t) as [(x & Hx & ->)|[_ ->]]; [|lia].
      rewrite forallb_forall in H1. apply list_elem_of_In in Hx. specialize (H1 x Hx). lia.
    + intros Hc. cbn [capped] in Hc. destruct (calc_stepped_in steps l t) as [(x & Hx & ->)|[_ ->]]; [|unfold CAP; lia].
      rewrite forallb_forall in Hc. apply list_elem_of_In in Hx. specialize (Hc x Hx). lia.
  - cbn [calculate_speed good_speed capped]. unfold calc_burst. cbn [burst_end profile].
    apply andb_prop in H1 as [H1 H1'].
    destruct be as [e|]; [destruct (_ <? e); [|]|]; try destruct (flt _ _); (split_and!; [lia|intros Hc; apply andb_prop in Hc; lia|done]).
  - cbn. split_and!; [|done|done|done]. unfold calc_ramp. destruct (fle _ _); [lia|apply fmax_one].
  - cbn. split_and!; [|done|done|done]. apply fmax_one.
  - apply shaped_composite in Hs as [_ Hs]. cbn [composite_children] in Hs. destruct ch as [|x l].
    { cbn. inversion Hs; subst. split_and!; [lia|unfold CAP; lia|done|done]. }
    cbn [no_overflow] in H2. apply andb_prop in H2 as [H2 Hm].
    pose proof (speeds_good t ps IH (x :: l) k H1 H2 Hs) as Hg. rewrite composite_speed.
    destruct (speeds t (x :: l) k) as [[rates cs] k2]. destruct Hg as (Hl & Hr & Hcap & Hss).
    assert (rates <> []) as Hne by (intros ->; inversion Hs; subst; done).
    assert (zlen rates = zlen ps) as Hz by (unfold zlen; by rewrite Hl).
    destruct (combine_bounds m rates Hne Hr) as [Hc1 Hc2].
    { destruct m; try done; apply andb_prop in Hm as [Hm Hlen]; rewrite Hz; (split; [by apply Hcap|lia]). }
    cbn [good_speed]. split_and!; [done| |by apply shaped_composite].
    intros Hc. cbn [capped] in Hc. destruct m; try done; apply Hc2; (done || by apply Hcap).
Qed.
End Speed.

(** ** Validated profiles *)

Lemma config_ind (P : Cfg.SpeedProfileConfig -> Prop) :
  (forall r, P (Cfg.Constant r)) -> (forall b a t, P (Cfg.Sinusoidal b a t)) -> (forall s l, P (Cfg.Stepped s l)) ->
  (forall b r d p, P (Cfg.Burst b r d p)) -> (forall s e d, P (Cfg.Ramp s e d)) -> (forall b v, P (Cfg.RandomWalk b v)) ->
  (forall ps m, Forall P ps -> P (Cfg.Composite ps m)) -> forall p, P p.
Proof.
  intros H1 H2 H3 H4 H5 H6 H7. fix IH 1. intros [| | | | | |ps m]; [apply H1|apply H2|apply H3|apply H4|apply H5|apply H6|].
  apply H7. induction ps as [|p ps IHps]; constructor; [apply IH|exact IHps].
Qed.

Definition validate_each : list Cfg.SpeedProfileConfig -> option ProfileError :=
  fix each l := match l with
    | [] => None
    | sub :: l => match validate_speed_profile sub with Some e => Some e | None => each l end
    end.

Lemma validated_steps i steps : validate_steps i steps = None -> forallb (fun s => 0 <=? s.2) steps = true ->
  forallb (fun s => 1 <=? s.2) steps = true.
Proof.
  revert i. induction steps as [|[d r] steps IH]; intros i; cbn [validate_steps forallb]; [done|].
  destruct (fle d f_zero); [done|]. destruct (r =? 0) eqn:E; [done|]. intros Hv Ho. apply andb_prop in Ho as [Ho Ho'].
  cbn [snd] in *. rewrite (IH (S i)) by done. assert (1 <=? r = true) as -> by lia. done.
Qed.

Lemma validated_at_least c : at_least 0 (from_config c) = true -> validate_speed_profile c = None -> at_least 1 (from_config c) = true.
Proof.
  induction c as [r|b a d|steps l|b br d pr|s e d|b v|ps m IH] using config_ind; cbn [from_config at_least validate_speed_profile].
  - destruct (r =? 0) eqn:E; [done|]. lia.
  - destruct (b =? 0) eqn:E; [done|]. lia.
  - destruct steps as [|x steps]; [done|]. intros H0 Hv. by apply (validated_steps 0).
  - destruct (b =? 0) eqn:E; [done|]. destruct (br =? 0) eqn:E2; [done|]. intros H0 _. apply andb_prop in H0. lia.
  - destruct (s =? 0) eqn:E; [done|]. destruct (e =? 0) eqn:E2; [done|]. intros H0 _. apply andb_prop in H0. lia.
  - destruct (b =? 0) eqn:E; [done|]. lia.
  - intros H0 Hv. assert (validate_each ps = None) as He by (destruct ps; [done|exact Hv]). clear Hv. revert H0 He.
    induction IH as [|p ps Hp _ IHps]; [done|]. cbn [map forallb validate_each]. intros H0 He. apply andb_prop in H0 as [H0 H0'].
    destruct (validate_speed_profile p) eqn:Ep; [done|]. by rewrite Hp, IHps.
Qed.

(** The shares of a profile of which no rate is below the number of pipelines. *)
Lemma div_share n r : 1 <= n -> n <= r -> 1 <= r / n /\ r / n <= r.
Proof. intros Hn Hr. split; [apply Z.div_le_lower_bound; lia|]. apply Z.div_le_upper_bound; nia. Qed.

Lemma adjust_shares n p : 1 < n -> at_least n p = true -> let q := adjust_profile_for_pipeline p n in
  at_least 1 q = true /\ (capped p = true -> capped q = true) /\ (no_overflow p = true -> no_overflow q = true).
Proof.
  intros Hn. assert (n <=? 1 = false) as Hn' by lia.
  induction p as [r|b a d|steps l|b br d pr|s e d|b v|ps m IH] using profile_ind; cbn [at_least];
    intros H0; cbn [adjust_profile_for_pipeline]; rewrite Hn'; cbn [at_least capped no_overflow];
    rewrite ?andb_true_iff in *; rewrite ?Z.leb_le in *.
  - pose proof (div_share n r). lia.
  - pose proof (div_share n b). split_and!; [lia|done|done].
  - assert (forall x, x ∈ steps -> 1 <= x.2 / n /\ x.2 / n <= x.2) as Hx.
    { intros x Hx. apply list_elem_of_In in Hx. rewrite forallb_forall in H0. specialize (H0 x Hx). apply div_share; lia. }
    rewrite !forallb_forall. split_and!; [| |done].
    + intros y Hy. apply in_map_iff in Hy as (x & <- & Hin). apply list_elem_of_In in Hin. cbn. specialize (Hx x Hin). lia.
    + intros Hc y Hy. apply in_map_iff in Hy as (x & <- & Hin). specialize (Hc x Hin). apply list_elem_of_In in Hin. cbn.
      specialize (Hx x Hin). lia.
  - pose proof (div_share n b). pose proof (div_share n br). lia.
  - pose proof (div_share n s). pose proof (div_share n e). split_and!; [lia|lia|done|done].
  - pose proof (div_share n b). split_and!; [lia|done|done].
  - assert (forallb (at_least 1) (map (fun p => adjust_profile_for_pipeline p n) ps) = true /\
      (forallb capped ps = true -> forallb capped (map (fun p => adjust_profile_for_pipeline p n) ps) = true) /\
      (forallb no_overflow ps = true -> forallb no_overflow (map (fun p => adjust_profile_for_pipeline p n) ps) = true)) as (A1 & A2 & A3).
    { revert H0. induction IH as [|p ps Hp _ IHps]; cbn [map forallb]; [by intros _; split_and!|]. rewrite !andb_true_iff. intros [H0 H0'].
      destruct (Hp H0) as (B1 & B2 & B3), (IHps H0') as (C1 & C2 & C3). split_and!; try done; intros []; split; auto. }
    assert (zlen (map (fun p => adjust_profile_for_pipeline p n) ps) = zlen ps) as -> by (unfold zlen; by rewrite length_map).
    split_and!; [done|by destruct m; auto|].
    intros [B1 B2]. split; [auto|]. destruct m; try done; rewrite andb_true_iff in *; destruct B2; split; auto.
Qed.

(** ** The limiter *)

Section Limiter.
Variable sin : f64 -> f64.
Variable rd : Reads.

(** The calls a pipeline makes: the waits, the limiter, the next read. *)
Fixpoint run_consumes (counts : list Z) (l : DynamicRateLimiter) (k : nat) : outcome (list Z * DynamicRateLimiter * nat) :=
  match counts with
  | [] => Ret ([], l, k)
  | n :: counts =>
      let! (w, l, k) := consume sin rd n l k in
      let! (ws, l, k) := run_consumes counts l k in Ret (w :: ws, l, k)
  end.

(** A limiter that limits: its profile is positive and so is its rate. *)
Definition limiting (p : SpeedProfile) (l : DynamicRateLimiter) : Prop :=
  at_least 1 p = true /\ no_overflow p = true /\ shaped p (controller l) /\ 1 <= current_rate l.

Lemma current_speed_good p c k : at_least 1 p = true -> no_overflow p = true -> shaped p c ->
  good_speed p (current_speed sin rd c k).
Proof. apply calculate_speed_good. Qed.

Lemma refill_same now l : controller (refill_tokens_at now l) = controller l /\ current_rate (refill_tokens_at now l) = current_rate l
  /\ total_consumed (refill_tokens_at now l) = total_consumed l.
Proof. done. Qed.

Lemma update_limiting p now l k : limiting p l -> let '(_, l', _) := maybe_update_rate_at sin rd now l k in
  limiting p l' /\ total_consumed l' = total_consumed l.
Proof.
  intros (H1 & H2 & Hs & Hr). unfold maybe_update_rate_at. destruct (_ <=? _); [|by split_and!].
  pose proof (current_speed_good p (controller l) k H1 H2 Hs) as Hg.
  destruct (current_speed sin rd (controller l) k) as [[v c] k1]. destruct Hg as (Hv & _ & Hc).
  destruct (negb _); by split_and!.
Qed.

Lemma consume_limiting p n l k : limiting p l ->
  match consume sin rd n l k with
  | Ret (_, l', _) => limiting p l' /\ total_consumed l' = total_consumed l +w n
  | Panic => True
  end.
Proof.
  intros Hl. pose proof Hl as (_ & _ & _ & Hr). unfold consume. destruct (current_rate l =? 0) eqn:E; [lia|].
  pose proof (update_limiting p (rd_now rd k) l (S k) Hl) as Hu.
  destruct (maybe_update_rate_at sin rd (rd_now rd k) l (S k)) as [[ch l1] k1]. destruct Hu as [Hl1 Ht].
  set (l2 := if ch then l1 else refill_tokens_at (rd_now rd k) l1).
  assert (limiting p l2 /\ total_consumed l2 = total_consumed l) as [Hl2 Ht2] by (subst l2; by destruct ch).
  destruct (flt _ _); [|by rewrite <- Ht2].
  destruct (from_secs_f64 _); [|done]. cbn [obind]. by rewrite <- Ht2.
Qed.

Lemma run_limiting p counts l k : limiting p l ->
  match run_consumes counts l k with
  | Ret (ws, l', _) => limiting p l' /\ length ws = length counts /\ total_consumed l' = foldl (fun a b => a +w b) (total_consumed l) counts
  | Panic => True
  end.
Proof.
  revert l k. induction counts as [|n counts IH]; intros l k Hl; cbn [run_consumes]; [by split_and!|].
  pose proof (consume_limiting p n l k Hl) as Hc. destruct (consume sin rd n l k) as [[[w l1] k1]|]; [|done]. cbn [obind].
  destruct Hc as [Hl1 Ht]. specialize (IH l1 k1 Hl1). destruct (run_consumes counts l1 k1) as [[[ws l2] k2]|]; [|done]. cbn [obind].
  destruct IH as (Hl2 & Hlen & Ht2). split_and!; [done|cbn; by f_equal|]. by rewrite Ht2, Ht.
Qed.

Lemma new_limiting p k : at_least 1 p = true -> no_overflow p = true ->
  let '(l, _) := DynamicRateLimiter_new sin rd p k in limiting p l /\ total_consumed l = 0.
Proof.
  intros H1 H2. unfold DynamicRateLimiter_new, DynamicSpeedController_new.
  pose proof (current_speed_good p (with_start_time p (rd_now rd k)) (S k) H1 H2 (new_shaped _ _)) as Hg.
  destruct (current_speed _ _ _ _) as [[v c] k1]. destruct Hg as (Hv & _ & Hc). by split_and!.
Qed.

(** A generator whose profile was validated stays limited.  When every rate
    it names is at least the number of pipelines, or there is one pipeline, and
    no sum of a composite overflows, the share of every pipeline has a limiter
    whose rate is positive at the start and after every call, whatever the
    clock, the random numbers and the platform's sine: it never takes the way
    out of the unlimited.  It counts what it was asked for.  (A wait too long
    for a duration panics.) *)
Theorem validated_speed_stays_limited (c : Cfg.SpeedProfileConfig) n counts k
    (Hv : validate_speed_profile c = None) (Hu : at_least 0 (from_config c) = true)
    (Hn : n = 1 \/ 1 < n /\ at_least n (from_config c) = true) (Ho : no_overflow (from_config c) = true) :
  let '(l, k) := DynamicRateLimiter_new sin rd (adjust_profile_for_pipeline (from_config c) n) k in
  1 <= current_rate l /\
  match run_consumes counts l k with
  | Ret (ws, l', _) => 1 <= current_rate l' /\ length ws = length counts /\ total_consumed l' = wrap_sum counts
  | Panic => True
  end.
Proof.
  set (p := adjust_profile_for_pipeline (from_config c) n).
  assert (at_least 1 p = true /\ no_overflow p = true) as [H1 H2].
  { subst p. destruct Hn as [->|[Hn Hl]].
    - assert (adjust_profile_for_pipeline (from_config c) 1 = from_config c) as -> by by destruct c.
      split; [by apply validated_at_least|done].
    - destruct (adjust_shares n (from_config c) Hn Hl) as (A & _ & B). auto. }
  pose proof (new_limiting p k H1 H2) as Hnew. destruct (DynamicRateLimiter_new sin rd p k) as [l k1]. destruct Hnew as [Hl Ht].
  split; [by destruct Hl as (_ & _ & _ & ?)|]. pose proof (run_limiting p counts l k1 Hl) as Hr.
  destruct (run_consumes counts l k1) as [[[ws l'] k2]|]; [|done]. destruct Hr as ((_ & _ & _ & Hr) & Hlen & Hc).
  split_and!; [done|done|]. by rewrite Hc, Ht.
Qed.

(** A limiter at rate zero never limits again, whatever its profile says. *)
Lemma zero_rate_forever counts l k : current_rate l = 0 ->
  exists l', run_consumes counts l k = Ret (map (fun _ => 0) counts, l', k) /\ current_rate l' = 0.
Proof.
  revert l. induction counts as [|n counts IH]; intros l Hl; cbn [run_consumes map]; [by exists l|].
  unfold consume. rewrite Hl. cbn [Z.eqb obind].
  destruct (IH (set_taken l (tokens l) (total_consumed l +w n) (total_waited_ms l)) Hl) as (l' & -> & Hl'). cbn [obind]. by exists l'.
Qed.

(** A rate below the number of pipelines is no limit at all: the share of a
    pipeline is zero, and its limiter lets every batch pass at once, for ever. *)
Theorem share_below_one_is_unlimited rate n counts k (Hr : 0 <= rate < n) (Hn : 1 < n) :
  let '(l, k) := DynamicRateLimiter_new sin rd (adjust_profile_for_pipeline (Constant rate) n) k in
  exists l' k', run_consumes counts l k = Ret (map (fun _ => 0) counts, l', k').
Proof.
  cbn [adjust_profile_for_pipeline]. assert (n <=? 1 = false) as -> by lia. rewrite Z.div_small by lia.
  unfold DynamicRateLimiter_new, DynamicSpeedController_new, current_speed. cbn [with_start_time calculate_speed start_time].
  match goal with |- exists l' k', run_consumes counts ?l ?k1 = _ => destruct (zero_rate_forever counts l k1 eq_refl) as (l' & E & _) end.
  by exists l', (S (S (S (S k)))).
Qed.
End Limiter.

(** ** Witnesses *)

Definition demo_reads : Reads := mkReads (fun k => Z.of_nat k * 50000000) (fun k => f_lit (Z.of_nat k) (-1)).
Definition demo_cfg : Cfg.SpeedProfileConfig :=
  Cfg.Composite [Cfg.Stepped [(as_f64 1, 40); (as_f64 2, 90)] true; Cfg.Burst 30 60 100 (f_lit 5 (-1))] Average.

Lemma validated_speed_stays_limited_witness :
  validate_speed_profile demo_cfg = None /\
  let '(l, k) := DynamicRateLimiter_new (fun x => x) demo_reads (adjust_profile_for_pipeline (from_config demo_cfg) 4) 0 in
  1 <= current_rate l /\
  match run_consumes (fun x => x) demo_reads [25; 100] l k with
  | Ret (ws, l', _) => 1 <= current_rate l' /\ length ws = 2%nat /\ total_consumed l' = 125
  | Panic => True
  end.
Proof.
  split; [reflexivity|].
  exact (validated_speed_stays_limited (fun x => x) demo_reads demo_cfg 4 [25; 100] 0 eq_refl eq_refl
    (or_intror (conj eq_refl eq_refl)) eq_refl).
Defined.

Lemma share_below_one_is_unlimited_witness :
  let '(l, k) := DynamicRateLimiter_new (fun x => x) demo_reads (adjust_profile_for_pipeline (Constant 3) 4) 0 in
  exists l' k', run_consumes (fun x => x) demo_reads [1000; 1000000] l k = Ret ([0; 0], l', k').
Proof. apply (share_below_one_is_unlimited (fun x => x) demo_reads 3 4 [1000; 1000000] 0); lia. Defined.

(** The waits of the composite: the second batch overdraws the bucket. *)
Example demo_waits :
  let '(l, k) := DynamicRateLimiter_new (fun x => x) demo_reads (adjust_profile_for_pipeline (from_config demo_cfg) 4) 0 in
  match run_consumes (fun x => x) demo_reads [5; 100] l k with
  | Ret (ws, _, _) => match ws with [a; b] => (a =? 0) && (1000000000 <? b) | _ => false end
  | Panic => false
  end = true.
Proof. vm_compute. reflexivity. Qed.

(** A validated output is mapped without its lower case. *)
Example uppercase_output_goes_to_file :
  let c := mkWpGenConfig "1.0" GeneratorConfig_default OutputConfig_default (mkLoggingConfig "info" "STDOUT" None) in
  validate c = None /\ (to_log_conf (logging c)).1.2 = File.
Proof. vm_compute. done. Qed.
