(* ===== verification/Generator.v ===== *)
(** The data generator ([src/runtime/generator/{common,sample,rule}.rs]): batches
    of lines cut to a budget of bytes, pipelines that share a quota of lines or
    have one each, the pace between two units.

    What a pipeline does to its sink and to its statistics is the list of its
    calls; whether a write succeeds is read from outside.  The lines of a rule are
    made by the WPL crate (an argument). *)
From Stdlib Require Import ZArith Lia String Ascii.
From Stdlib Require Import Floats.SpecFloat.
From stdpp Require Import prelude strings.
From S2P Require Import Prelude F64 GenSpeed.
Local Open Scope string_scope.
Local Open Scope list_scope.
Local Open Scope Z_scope.
Local Open Scope wp_scope.

(** ** [common.rs] *)

Definition DEFAULT_BATCH : Z := 128.
Definition DEFAULT_UNIT_SIZE : Z := 50000.
Definition BATCH_FLUSH_LINES : Z := 4096.
Definition BATCH_BUDGET_MIN : Z := 8 * 1024.
Definition BATCH_BUDGET_MAX : Z := 1024 * 1024.
Definition BATCH_SEED_BUDGET : Z := 256 * 1024.
Definition BATCH_EMA_ALPHA : f64 := f_lit 2 (-2).
Definition BATCH_TIME_WINDOW_SECS : f64 := f_lit 1 (-1).

Record BatchSizePolicy := mkPolicy { bp_base_rate : Z; avg_line_bytes : f64; initialized : bool }.
Definition BatchSizePolicy_new (base_rate : Z) : BatchSizePolicy := mkPolicy base_rate f_zero false.

Definition observe_line (len : Z) (p : BatchSizePolicy) : BatchSizePolicy :=
  if initialized p then
    mkPolicy (bp_base_rate p)
      (fadd (fmul BATCH_EMA_ALPHA (as_f64 len)) (fmul (fsub f_one BATCH_EMA_ALPHA) (avg_line_bytes p))) true
  else mkPolicy (bp_base_rate p) (as_f64 len) true.

Definition budget_bytes (p : BatchSizePolicy) : Z :=
  if bp_base_rate p =? 0 then BATCH_BUDGET_MAX
  else if negb (initialized p) then BATCH_SEED_BUDGET
  else
    let byte_rate := fmul (as_f64 (bp_base_rate p)) (avg_line_bytes p) in
    let budget := fmul byte_rate BATCH_TIME_WINDOW_SECS in
    Z.max BATCH_BUDGET_MIN (Z.min BATCH_BUDGET_MAX (f64_as_usize budget)).

Definition split_total_among_parallel (parallel : Z) (total : option Z) : list (option Z) :=
  let p := Z.max 1 parallel in
  match total with
  | Some t =>
      let base := t / p in let rem := t mod p in
      map (fun i => Some (base + (if Z.of_nat i <? rem then 1 else 0))) (seq 0 (Z.to_nat p))
  | None => replicate (Z.to_nat p) None
  end.

Definition per_pipeline_speed (global_speed parallel : Z) : option Z :=
  if 0 <? global_speed then Some (Z.max 1 (global_speed / Z.max 1 parallel)) else None.

(** How many lines a unit has. *)
Definition unit_size (base_rate : Z) : Z :=
  if 0 <? base_rate then Z.max 1 (Z.min 1000 (base_rate / 10)) else Z.max 1 DEFAULT_UNIT_SIZE.

(** ** One unit *)

Inductive GenCall := CWrite (batch : list string) | CTask | CStat.

(** The lines written by the calls. *)
Definition written (calls : list GenCall) : list string :=
  concat (map (fun c => match c with CWrite b => b | _ => [] end) calls).

(** What gives the line at an index: nothing when the index is out of range or
    the generation fails. *)
Inductive LineRes := Line (s : string) | LineErr | LineOut.

Record UnitState := mkUnitState {
  u_cur : nat;
  u_policy : BatchSizePolicy;
  u_batch : list string;
  u_bytes : Z;
  u_sent : Z;
  u_calls : list GenCall;
  u_writes : nat;
}.

Inductive UnitRes := UOk (st : UnitState) | UErr (st : UnitState) | UPanic (st : UnitState).

Section Unit.
(** Whether a write succeeds, by its number. *)
Variable write : nat -> bool.
(** The line at an index, by its number. *)
Variable line_at : nat -> nat -> LineRes.
Variable lines_len : nat.

Definition flush_batch (st : UnitState) : UnitRes :=
  if write (u_writes st) then
    UOk (mkUnitState (u_cur st) (u_policy st) [] 0 (u_sent st + zlen (u_batch st))
           (u_calls st ++ CWrite (u_batch st) :: replicate (length (u_batch st)) CTask) (S (u_writes st)))
  else UErr (mkUnitState (u_cur st) (u_policy st) [] 0 (u_sent st) (u_calls st) (S (u_writes st))).

Definition unit_line (i : nat) (st : UnitState) : UnitRes :=
  match line_at i (u_cur st) with
  | LineOut => UPanic st
  | LineErr => UErr st
  | Line line =>
      let len := slen line in
      let flushed :=
        if ((budget_bytes (u_policy st) <? u_bytes st + len) && negb (bool_decide (u_batch st = [])))
           || (BATCH_FLUSH_LINES <=? zlen (u_batch st))
        then flush_batch st else UOk st in
      match flushed with
      | UOk st => UOk (mkUnitState ((u_cur st + 1) mod lines_len) (observe_line len (u_policy st)) (u_batch st ++ [line])
                         (u_bytes st + len) (u_sent st) (u_calls st) (u_writes st))
      | r => r
      end
  end.

(** [n] lines from number [i] on. *)
Fixpoint unit_lines (n i : nat) (st : UnitState) : UnitRes :=
  match n with
  | O => match u_batch st with [] => UOk st | _ => flush_batch st end
  | S n => match unit_line i st with UOk st => unit_lines n (S i) st | r => r end
  end.

Definition send_unit (unit_cnt : Z) (cur_idx : nat) (policy : BatchSizePolicy) : UnitRes :=
  unit_lines (Z.to_nat unit_cnt) 0 (mkUnitState cur_idx policy [] 0 0 [] 0).
End Unit.

(** [send_unit_samples]: the samples in turn; an index out of range panics. *)
Definition sample_line (samples : list string) (_ cur_idx : nat) : LineRes :=
  match samples !! cur_idx with Some s => Line s | None => LineOut end.
Definition send_unit_samples (write : nat -> bool) (samples : list string) : Z -> nat -> BatchSizePolicy -> UnitRes :=
  send_unit write (sample_line samples) (Nat.max 1 (length samples)).

(** [send_unit_rules]: the rules in turn; [gen] makes a line of a rule. *)
Definition rule_line (gen : nat -> nat -> option string) (rules_len i cur_idx : nat) : LineRes :=
  match gen i (cur_idx mod rules_len)%nat with Some s => Line s | None => LineErr end.
Definition send_unit_rules (write : nat -> bool) (gen : nat -> nat -> option string) (rules_len : nat)
    : Z -> nat -> BatchSizePolicy -> UnitRes :=
  send_unit write (rule_line gen rules_len) (Nat.max 1 rules_len).

(** ** Pipelines with a shared quota ([sample.rs])

    The counter of the lines reserved is one atomic; a pipeline touches it once
    a step.  [reserve] is a load and a compare-and-swap, tried again when
    another pipeline came between. *)
Inductive PipeAt :=
  | AtTake                               (* before [quota.take] *)
  | AtSwap (current to_take : Z)         (* loaded, before the exchange *)
  | AtUnit (reserved : Z)                (* before the unit is sent *)
  | AtRelease (amount sent : Z)          (* before the rest goes back *)
  | AtGiveBack (reserved : Z)            (* a unit failed *)
  | Ended | Failed | Panicked (reserved : Z).

Record Pipe := mkPipe {
  p_at : PipeAt;
  p_cur : nat;
  p_policy : BatchSizePolicy;
  p_limiter : DynamicRateLimiter;
  p_read : nat;
  p_produced : Z;
  p_calls : list GenCall;
}.

Definition set_at (p : Pipe) (a : PipeAt) : Pipe :=
  mkPipe a (p_cur p) (p_policy p) (p_limiter p) (p_read p) (p_produced p) (p_calls p).

Section Quota.
Variable sin : f64 -> f64.
Variable samples : list string.
(** [None]: no limit. *)
Variable limit : option Z.
Variable unit_cnt : Z.

(** What a pipeline reads: its clock and random numbers, and how the writes of
    its next unit go. *)
Variable rd : Reads.

(** After a unit: the lines are counted, a snapshot, the limiter's wait. *)
Definition pace (sent : Z) (p : Pipe) : Pipe :=
  match consume sin rd sent (p_limiter p) (p_read p) with
  | Ret (_, l, k) => mkPipe AtTake (p_cur p) (p_policy p) l k (p_produced p + sent) (p_calls p ++ [CStat])
  | Panic => mkPipe (Panicked 0) (p_cur p) (p_policy p) (p_limiter p) (p_read p) (p_produced p + sent) (p_calls p ++ [CStat])
  end.

(** One step of a pipeline on the shared counter. *)
Definition pipe_step (write : nat -> bool) (produced : Z) (p : Pipe) : Z * Pipe :=
  match p_at p with
  | AtTake =>
      match limit with
      | None => (produced, set_at p (if unit_cnt =? 0 then Ended else AtUnit unit_cnt))
      | Some limit =>
          if (unit_cnt =? 0) || (limit <=? produced) then (produced, set_at p Ended)
          else (produced, set_at p (AtSwap produced (Z.min unit_cnt (limit - produced))))
      end
  | AtSwap current to_take =>
      if produced =? current then (current + to_take, set_at p (AtUnit to_take)) else (produced, set_at p AtTake)
  | AtUnit reserved =>
      match send_unit_samples write samples reserved (p_cur p) (p_policy p) with
      | UPanic st => (produced, mkPipe (Panicked reserved) (u_cur st) (u_policy st) (p_limiter p) (p_read p) (p_produced p)
                                  (p_calls p ++ u_calls st))
      | UErr st => (produced, mkPipe (AtGiveBack reserved) (u_cur st) (u_policy st) (p_limiter p) (p_read p) (p_produced p)
                                (p_calls p ++ u_calls st))
      | UOk st =>
          let sent := u_sent st in
          let p := mkPipe AtTake (u_cur st) (u_policy st) (p_limiter p) (p_read p) (p_produced p) (p_calls p ++ u_calls st) in
          if sent <? reserved then (produced, set_at p (AtRelease (reserved - sent) sent)) else (produced, pace sent p)
      end
  | AtRelease amount sent => (match limit with Some _ => produced - amount | None => produced end, pace sent p)
  | AtGiveBack amount => (match limit with Some _ => produced - amount | None => produced end, set_at p Failed)
  | Ended | Failed | Panicked _ => (produced, p)
  end.

(** [run_pipeline] before its loop. *)
Definition pipe_start (profile : SpeedProfile) : Pipe :=
  let '(l, k) := DynamicRateLimiter_new sin rd profile 0 in
  mkPipe AtTake 0 (BatchSizePolicy_new (base_rate profile)) l k 0 [].
End Quota.

(** The pipelines of a run: any of them makes the next step. *)
Record GenRun := mkRun { r_produced : Z; r_pipes : list Pipe }.

Inductive gen_step (sin : f64 -> f64) (rd : nat -> Reads) (samples : list string) (limit : option Z) (unit_cnt : Z)
    : GenRun -> GenRun -> Prop :=
  | step_pipe i write r p produced p' :
      r_pipes r !! i = Some p -> pipe_step sin samples limit unit_cnt (rd i) write (r_produced r) p = (produced, p') ->
      gen_step sin rd samples limit unit_cnt r (mkRun produced (<[i := p']> (r_pipes r))).

(** [run_sample_direct] on the samples loaded: [parallel] pipelines on their share
    of the profile. *)
Definition run_sample_start (sin : f64 -> f64) (rd : nat -> Reads) (g : GenGRA) : GenRun :=
  let parallel := Z.max 1 (parallel g) in
  mkRun 0 (map (fun i => pipe_start sin (rd i) (adjust_profile_for_pipeline (get_speed_profile g) parallel))
             (seq 0 (Z.to_nat parallel))).

(** ** Pipelines with a quota of their own ([rule.rs]) *)

Definition REPORT_LINES_PER_TASK : Z := 10000.

(** The reports of the lines accumulated: tasks, and a snapshot if any. *)
Definition report_tasks (acc_lines : Z) : list GenCall * Z :=
  let n := acc_lines / REPORT_LINES_PER_TASK in
  (replicate (Z.to_nat n) CTask ++ (if 0 <? n then [CStat] else []), acc_lines mod REPORT_LINES_PER_TASK).

Inductive RuleEnd := RDone (produced : Z) (calls : list GenCall) | RErr (produced : Z) (calls : list GenCall) | RPanic
  | RRunning (produced : Z) (calls : list GenCall).

Section Rule.
Variable sin : f64 -> f64.
Variable rd : Reads.
Variable rules_len : nat.
(** The lines made and the writes, by the number of the unit. *)
Variable gen : nat -> nat -> nat -> option string.
Variable write : nat -> nat -> bool.

(** [run_rule_pipeline], as far as [fuel] units go. *)
Fixpoint rule_loop (fuel u : nat) (count : option Z) (unit_cnt produced acc_lines : Z) (cur : nat) (policy : BatchSizePolicy)
    (l : DynamicRateLimiter) (k : nat) (calls : list GenCall) : RuleEnd :=
  let left_global := match count with Some c => c ⊖ produced | None => USIZE_MAX end in
  if left_global =? 0 then RDone produced calls else
  match fuel with
  | O => RRunning produced calls
  | S fuel =>
      match send_unit_rules (write u) (gen u) rules_len (Z.min unit_cnt left_global) cur policy with
      | UPanic _ => RPanic
      | UErr st => RErr produced (calls ++ u_calls st)
      | UOk st =>
          let '(reports, acc) := report_tasks (acc_lines + u_sent st) in
          match consume sin rd (u_sent st) l k with
          | Panic => RPanic
          | Ret (_, l, k) =>
              rule_loop fuel (S u) count unit_cnt (produced + u_sent st) acc (u_cur st) (u_policy st) l k
                (calls ++ u_calls st ++ reports)
          end
      end
  end.

Definition run_rule_pipeline (fuel : nat) (count : option Z) (profile : SpeedProfile) (pipe_cnt : Z) : RuleEnd :=
  let adjusted := adjust_profile_for_pipeline profile pipe_cnt in
  let base := base_rate adjusted in
  let '(l, k) := DynamicRateLimiter_new sin rd adjusted 0 in
  rule_loop fuel 0 count (unit_size base) 0 0 0 (BatchSizePolicy_new base) l k [].
End Rule.
