(* ===== verification/GeneratorLaws.v ===== *)
(** What the generator guarantees ([Generator]): a unit sends its lines in
    order, cut to batches within the budget; pipelines that share a quota
    produce exactly its lines in every interleaving; so do those that split it. *)
From Stdlib Require Import ZArith Lia String Ascii.
From Stdlib Require Import Floats.SpecFloat.
From stdpp Require Import prelude strings.
From S2P Require Import Prelude F64 GenSpeed GenConf GenSpeedLaws Generator.
Local Open Scope string_scope.
Local Open Scope list_scope.
Local Open Scope Z_scope.
Local Open Scope wp_scope.

(** ** One unit *)

Definition bytes_of (b : list string) : Z := foldr (fun s n => slen s + n) 0 b.

Lemma bytes_snoc b s : bytes_of (b ++ [s]) = bytes_of b + slen s.
Proof. unfold bytes_of. induction b as [|x b IH]; cbn [app foldr]; [lia|]. rewrite IH. lia. Qed.

Lemma budget_max p : budget_bytes p <= BATCH_BUDGET_MAX.
Proof.
  unfold budget_bytes. destruct (_ =? 0); [done|]. destruct (negb _); [vm_compute; discriminate|].
  unfold BATCH_BUDGET_MIN, BATCH_BUDGET_MAX. lia.
Qed.

(** A batch that may be written: one line, or a few within the budget. *)
Definition batch_ok (b : list string) : Prop :=
  zlen b <= BATCH_FLUSH_LINES /\ (zlen b <= 1 \/ bytes_of b <= BATCH_BUDGET_MAX).

Definition call_ok (c : GenCall) : Prop := match c with CWrite b => b <> [] /\ batch_ok b | _ => True end.

Definition tasks (calls : list GenCall) : nat := length (List.filter (fun c => match c with CTask => true | _ => false end) calls).

Lemma written_app a b : written (a ++ b) = written a ++ written b.
Proof. unfold written. by rewrite map_app, concat_app. Qed.

Lemma written_tasks n : written (replicate n CTask) = [].
Proof. by induction n. Qed.

Lemma written_write b : written [CWrite b] = b.
Proof. unfold written. cbn. by rewrite app_nil_r. Qed.

Lemma tasks_app a b : tasks (a ++ b) = (tasks a + tasks b)%nat.
Proof. unfold tasks. by rewrite List.filter_app, length_app. Qed.

Lemma tasks_replicate n : tasks (replicate n CTask) = n.
Proof. unfold tasks. induction n as [|n IH]; [done|]. cbn. by f_equal. Qed.

(** The state after the lines [ls]: those written, then those held. *)
Record after_lines (ls : list string) (st : UnitState) : Prop := {
  al_lines : written (u_calls st) ++ u_batch st = ls;
  al_sent : u_sent st = zlen (written (u_calls st));
  al_bytes : u_bytes st = bytes_of (u_batch st);
  al_batch : batch_ok (u_batch st);
  al_calls : Forall call_ok (u_calls st);
  al_tasks : tasks (u_calls st) = length (written (u_calls st));
}.

(** A unit that failed wrote a part of them. *)
Definition part_of (ls : list string) (st : UnitState) : Prop :=
  (exists rest, ls = written (u_calls st) ++ rest) /\ Forall call_ok (u_calls st).

Section Unit.
Variable write : nat -> bool.
Variable line_at : nat -> nat -> LineRes.
Variable lines_len : nat.

Lemma unit_flush_spec ls st : after_lines ls st -> u_batch st <> [] ->
  match flush_batch write st with
  | UOk st' => after_lines ls st' /\ u_batch st' = [] /\ u_cur st' = u_cur st /\ u_policy st' = u_policy st
  | UErr st' => part_of ls st'
  | UPanic _ => False
  end.
Proof.
  intros [Hl Hs Hb Ho Hc Ht] Hne. unfold flush_batch. destruct (write (u_writes st)).
  - split; [|done]. split; cbn [u_calls u_batch u_sent u_bytes].
    + rewrite cons_middle, app_assoc, !written_app, written_tasks, written_write, !app_nil_r. done.
    + rewrite Hs, cons_middle, app_assoc, !written_app, written_tasks, app_nil_r, zlen_app, written_write. done.
    + done.
    + unfold batch_ok. rewrite zlen_nil. split; [vm_compute; discriminate|left; lia].
    + apply Forall_app. split; [done|]. constructor; [done|]. by apply Forall_replicate.
    + rewrite cons_middle, app_assoc, !tasks_app, !written_app, tasks_replicate, written_tasks, app_nil_r, length_app, written_write, Ht.
      change (tasks [CWrite (u_batch st)]) with 0%nat. lia.
  - split; [|done]. by exists (u_batch st).
Qed.

Lemma unit_line_spec i ls st : after_lines ls st ->
  match unit_line write line_at lines_len i st with
  | UOk st' => exists line, line_at i (u_cur st) = Line line /\ after_lines (ls ++ [line]) st' /\ u_cur st' = ((u_cur st + 1) mod lines_len)%nat
  | UErr st' => part_of ls st'
  | UPanic st' => part_of ls st' /\ line_at i (u_cur st) = LineOut
  end.
Proof.
  intros Hst. assert (part_of ls st) as Hpart.
  { destruct Hst as [Hl Hs Hb Ho Hc Ht]. split; [by exists (u_batch st)|done]. }
  unfold unit_line. destruct (line_at i (u_cur st)) as [line| |] eqn:E; [|done|done].
  set (cond := _ || _).
  assert (match (if cond then flush_batch write st else UOk st) with
    | UOk s => after_lines ls s /\ u_cur s = u_cur st /\ (zlen (u_batch s) < BATCH_FLUSH_LINES) /\
        (u_batch s = [] \/ u_bytes s + slen line <= BATCH_BUDGET_MAX)
    | UErr s => part_of ls s
    | UPanic _ => False end) as Hf.
  { destruct cond eqn:Ec; subst cond.
    - assert (u_batch st <> []) as Hne.
      { intros Hn. rewrite Hn in Ec. rewrite bool_decide_true in Ec by done. rewrite andb_false_r in Ec. done. }
      pose proof (unit_flush_spec ls st Hst Hne) as Hf. destruct (flush_batch write st) as [s|s|]; [|done|done].
      destruct Hf as (Hs & He & Hc & _). rewrite He. split_and!; [done|done|done|by left].
    - apply orb_false_elim in Ec as [E1 E2]. split_and!; [done|done|lia|].
      apply andb_false_iff in E1 as [E1|E1]; [right; pose proof (budget_max (u_policy st)); lia|].
      left. apply negb_false_iff, bool_decide_eq_true in E1. done. }
  destruct (if cond then _ else _) as [s|s|s]; [|done|done]. destruct Hf as ([Hl Hs Hb Ho Hc Ht] & Hcur & Hlen & Hfit).
  exists line. split; [done|]. rewrite <- Hcur. split; [|done]. split; cbn [u_calls u_batch u_sent u_bytes]; try done.
  - by rewrite app_assoc, Hl.
  - by rewrite bytes_snoc, Hb.
  - split; [rewrite zlen_app, zlen_cons, zlen_nil; lia|]. rewrite zlen_app, zlen_cons, zlen_nil, bytes_snoc.
    destruct Hfit as [->|Hfit]; [left; rewrite zlen_nil; lia|right; lia].
Qed.

(** The lines of a unit from number [i] on, if there are [n]. *)
Fixpoint unit_text (n i cur : nat) (ls : list string) : Prop :=
  match n with
  | O => ls = []
  | S n => exists line rest, ls = line :: rest /\ line_at i cur = Line line /\ unit_text n (S i) ((cur + 1) mod lines_len) rest
  end.

Fixpoint end_cur (n cur : nat) : nat := match n with O => cur | S n => end_cur n ((cur + 1) mod lines_len) end.

Lemma unit_lines_spec n i ls st : after_lines ls st ->
  match unit_lines write line_at lines_len n i st with
  | UOk st' => exists more, unit_text n i (u_cur st) more /\ after_lines (ls ++ more) st' /\ u_batch st' = [] /\ u_cur st' = end_cur n (u_cur st)
  | UErr st' => exists m more, (m <= n)%nat /\ unit_text m i (u_cur st) more /\ part_of (ls ++ more) st'
  | UPanic st' => exists j cur, line_at j cur = LineOut
  end.
Proof.
  revert i ls st. induction n as [|n IH]; intros i ls st Hst; cbn [unit_lines unit_text end_cur].
  - destruct (u_batch st) as [|b bs] eqn:Eb.
    + exists []. by rewrite app_nil_r.
    + pose proof (unit_flush_spec ls st Hst) as Hf. rewrite Eb in Hf. specialize (Hf ltac:(done)).
      destruct (flush_batch write st) as [s|s|s]; [|exists 0%nat, []; by rewrite app_nil_r|done].
      destruct Hf as (Hs & He & Hc & _). exists []. by rewrite app_nil_r.
  - pose proof (unit_line_spec i ls st Hst) as Hl. destruct (unit_line write line_at lines_len i st) as [s|s|s].
    + destruct Hl as (line & E & Hs & Hc). specialize (IH (S i) (ls ++ [line]) s Hs). rewrite Hc in IH.
      destruct (unit_lines _ _ _ n (S i) s) as [s'|s'|s']; [| |done].
      * destruct IH as (more & Ht & Ha & Hb & Hcur). exists (line :: more). rewrite <- app_assoc in Ha. split_and!; [by exists line, more|done|done|done].
      * destruct IH as (m & more & Hm & Ht & Hp). exists (S m), (line :: more). rewrite <- app_assoc in Hp.
        split_and!; [lia|by exists line, more|done].
    + exists 0%nat, []. rewrite app_nil_r. split_and!; [lia|done|done].
    + destruct Hl as [_ Hl]. by eexists _, _.
Qed.

Lemma start_after cur policy : after_lines [] (mkUnitState cur policy [] 0 0 [] 0).
Proof. split; try done. split; [vm_compute; discriminate|left; by rewrite zlen_nil]. Qed.

Lemma unit_text_length n i cur ls : unit_text n i cur ls -> length ls = n.
Proof. revert i cur ls. induction n as [|n IH]; intros i cur ls; cbn; [by intros ->|]. intros (l & r & -> & _ & Hr). cbn. f_equal. by eapply IH. Qed.
End Unit.

(** ** Units of samples *)

(** [n] samples in turn from [cur] on. *)
Definition turn_of (samples : list string) (cur n : nat) : list string :=
  map (fun j => nth ((cur + j) mod length samples) samples "") (seq 0 n).

Lemma turn_of_S samples cur n : (cur < length samples)%nat ->
  turn_of samples cur (S n) = nth cur samples "" :: turn_of samples ((cur + 1) mod length samples) n.
Proof.
  intros Hc. unfold turn_of. rewrite seq_S_start || cbn [seq map]. f_equal; [rewrite Nat.add_0_r, Nat.mod_small by done; done|].
  rewrite <- seq_shift, map_map. apply map_ext. intros j. f_equal. rewrite Nat.Div0.add_mod_idemp_l. f_equal. lia.
Qed.

Lemma turn_of_app samples cur k n : turn_of samples cur (k + n) = turn_of samples cur k ++ turn_of samples (cur + k) n.
Proof.
  unfold turn_of. rewrite seq_app, map_app. f_equal. rewrite Nat.add_0_l.
  rewrite <- (Nat.add_0_r k) at 1. generalize 0%nat. induction n as [|n IH]; intros a; [done|]. cbn [seq map].
  rewrite <- (IH (S a)). rewrite Nat.add_succ_r. f_equal. f_equal. f_equal. lia.
Qed.

Lemma sample_text samples n i cur ls : (cur < length samples)%nat ->
  unit_text (sample_line samples) (Nat.max 1 (length samples)) n i cur ls -> ls = turn_of samples cur n.
Proof.
  revert i cur ls. induction n as [|n IH]; intros i cur ls Hc; cbn [unit_text]; [done|]. intros (line & rest & -> & Hl & Hr).
  rewrite turn_of_S by done. unfold sample_line in Hl. destruct (samples !! cur) eqn:E; [|done]. injection Hl as <-.
  rewrite (Nat.max_r 1) in Hr by lia. f_equal; [by rewrite (nth_lookup_Some _ _ _ _ E)|].
  eapply IH; [apply Nat.mod_upper_bound; lia|]. rewrite (Nat.max_r 1) by lia. exact Hr.
Qed.

Lemma end_cur_mod len n cur : (cur < len)%nat -> end_cur len n cur = ((cur + n) mod len)%nat.
Proof.
  revert cur. induction n as [|n IH]; intros cur Hc; cbn [end_cur]; [by rewrite Nat.add_0_r, Nat.mod_small|].
  rewrite IH by (apply Nat.mod_upper_bound; lia). rewrite Nat.Div0.add_mod_idemp_l. f_equal. lia.
Qed.

Lemma samples_never_out samples write n i st : (u_cur st < length samples)%nat ->
  forall st', unit_lines write (sample_line samples) (Nat.max 1 (length samples)) n i st <> UPanic st'.
Proof.
  revert i st. induction n as [|n IH]; intros i st Hc st'; cbn [unit_lines].
  - destruct (u_batch st); [done|]. unfold flush_batch. by destruct (write _).
  - unfold unit_line. unfold sample_line at 1. destruct (lookup_lt_is_Some_2 samples (u_cur st) Hc) as [s ->].
    destruct (_ || _).
    + unfold flush_batch. destruct (write _); [|done]. apply IH. cbn [u_cur]. rewrite Nat.max_r by lia. apply Nat.mod_upper_bound. lia.
    + apply IH. cbn [u_cur]. rewrite Nat.max_r by lia. apply Nat.mod_upper_bound. lia.
Qed.

Lemma good_writes write line_at len n i st : (forall k, write k = true) -> (forall j c, exists s, line_at j c = Line s) ->
  exists st', unit_lines write line_at len n i st = UOk st'.
Proof.
  intros Hw Hl. revert i st. induction n as [|n IH]; intros i st; cbn [unit_lines].
  - destruct (u_batch st); [by eexists|]. unfold flush_batch. rewrite Hw. by eexists.
  - unfold unit_line. destruct (Hl i (u_cur st)) as [s ->]. destruct (_ || _); [|apply IH].
    unfold flush_batch. rewrite Hw. apply IH.
Qed.

Lemma samples_unit_spec write samples m cur policy (Hm : 0 <= m) (Hc : (cur < length samples)%nat) :
  let lines := turn_of samples cur (Z.to_nat m) in
  match send_unit_samples write samples m cur policy with
  | UOk st => written (u_calls st) = lines /\ u_sent st = m /\ u_cur st = ((cur + Z.to_nat m) mod length samples)%nat
      /\ Forall call_ok (u_calls st) /\ tasks (u_calls st) = length lines
  | UErr st => (exists rest, lines = written (u_calls st) ++ rest) /\ Forall call_ok (u_calls st)
  | UPanic _ => False
  end.
Proof.
  unfold send_unit_samples, send_unit.
  pose proof (samples_never_out samples write (Z.to_nat m) 0 (mkUnitState cur policy [] 0 0 [] 0) Hc) as Hp.
  pose proof (unit_lines_spec write (sample_line samples) (Nat.max 1 (length samples)) (Z.to_nat m) 0 [] _ (start_after cur policy)) as Hu.
  destruct (unit_lines _ _ _ _ _ _) as [st|st|st]; [| |by destruct (Hp st)].
  - destruct Hu as (more & Ht & [Hl Hs Hb Ho Hcalls Htasks] & He & Hcur). cbn [u_cur app] in *.
    rewrite He, app_nil_r in Hl. apply (sample_text samples) in Ht as Hmore; [|done]. rewrite Hl, Hmore in *.
    assert (length (turn_of samples cur (Z.to_nat m)) = Z.to_nat m) as Hlen by (unfold turn_of; by rewrite length_map, length_seq).
    split_and!; [done| | |done|done].
    + rewrite Hs. unfold zlen. rewrite Hlen. lia.
    + rewrite Hcur, Nat.max_r by lia. by apply end_cur_mod.
  - destruct Hu as (k & more & Hk & Ht & (rest & Hr) & Hcalls). split; [|done]. cbn [u_cur app] in *.
    apply (sample_text samples) in Ht; [|done]. subst more. exists (rest ++ turn_of samples (cur + k) (Z.to_nat m - k)).
    rewrite app_assoc, <- Hr, <- turn_of_app. f_equal. lia.
Qed.

(** A unit of samples sends its lines in turn, each once and in order, in
    batches that are never empty, have at most 4096 lines and more than a
    mebibyte only as a single line, with one task counted for a line.  When a write fails, what was written is
    the beginning of them.  It never panics on samples. *)
Theorem unit_sends_in_turn write samples m cur policy (Hm : 0 <= m) (Hc : (cur < length samples)%nat) :
  let lines := turn_of samples cur (Z.to_nat m) in
  match send_unit_samples write samples m cur policy with
  | UOk st => written (u_calls st) = lines /\ u_sent st = m /\ u_cur st = ((cur + Z.to_nat m) mod length samples)%nat
      /\ Forall call_ok (u_calls st) /\ tasks (u_calls st) = length lines
  | UErr st => (exists rest, lines = written (u_calls st) ++ rest) /\ Forall call_ok (u_calls st)
  | UPanic _ => False
  end.
Proof. exact (samples_unit_spec write samples m cur policy Hm Hc). Qed.

(** ** The shared quota *)

Definition sum_of {A} (f : A -> Z) (l : list A) : Z := foldr (fun x n => f x + n) 0 l.

Lemma sum_insert {A} (f : A -> Z) l i x y : l !! i = Some x -> sum_of f (<[i := y]> l) = sum_of f l - f x + f y.
Proof.
  revert i. induction l as [|z l IH]; intros [|i]; try done.
  - intros [= <-]. cbn. lia.
  - intros Hi. change (f z + sum_of f (<[i := y]> l) = f z + sum_of f l - f x + f y). rewrite (IH i Hi). lia.
Qed.

Lemma sum_le {A} (f g : A -> Z) l : (forall x, x ∈ l -> f x <= g x) -> sum_of f l <= sum_of g l.
Proof.
  unfold sum_of. induction l as [|x l IH]; intros H; cbn [foldr]; [lia|]. pose proof (H x (list_elem_of_here _ _)).
  specialize (IH (fun y Hy => H y (list_elem_of_further _ _ _ Hy))). lia.
Qed.

Lemma sum_ext {A} (f g : A -> Z) l : (forall x, x ∈ l -> f x = g x) -> sum_of f l = sum_of g l.
Proof. intros H. apply Z.le_antisymm; apply sum_le; intros x Hx; rewrite H by done; lia. Qed.

(** What a pipeline has reserved and not produced. *)
Definition held (p : Pipe) : Z :=
  match p_at p with AtUnit r | AtGiveBack r | Panicked r => r | AtRelease r sent => r + sent | _ => 0 end.
Definition failed (p : Pipe) : Prop := match p_at p with AtGiveBack _ | Failed | Panicked _ => True | _ => False end.
Definition owned (p : Pipe) : Z := p_produced p + held p.
Definition lines_of (p : Pipe) : Z := zlen (written (p_calls p)).

Section Shared.
Variable sin : f64 -> f64.
Variable rd : nat -> Reads.
Variable samples : list string.
Variable lim unit_cnt : Z.
Hypothesis Hunit : 1 <= unit_cnt.

Notation step := (gen_step sin rd samples (Some lim) unit_cnt).
Notation pipe := (pipe_step sin samples (Some lim) unit_cnt).

(** A pipeline by itself: it holds what it may, and unless it failed its index
    is in range and it wrote what it produced. *)
Definition pipe_ok (p : Pipe) : Prop :=
  0 <= p_produced p /\ 0 <= held p /\
  match p_at p with AtSwap current to_take => 1 <= to_take /\ current + to_take <= lim | AtRelease _ _ => False | _ => True end /\
  (failed p \/ (p_cur p < length samples)%nat /\ lines_of p = p_produced p).

Definition run_ok (r : GenRun) : Prop :=
  Forall pipe_ok (r_pipes r) /\ r_produced r = sum_of owned (r_pipes r) /\ r_produced r <= lim /\
  (Exists failed (r_pipes r) \/ (forall p, p ∈ r_pipes r -> p_at p = Ended -> r_produced r = lim)).

(** A step of a pipeline moves what it owns and the counter together; without a
    failure the counter does not go back. *)
Lemma pipe_step_ok i write r p produced p' : pipe_ok p -> r <= lim -> pipe (rd i) write r p = (produced, p') ->
  pipe_ok p' /\ produced - owned p' = r - owned p /\ produced <= lim /\ (failed p -> failed p') /\
  (failed p' \/ (r <= produced /\ (p_at p' = Ended -> p_at p = Ended \/ r = lim))).
Proof.
  intros (Hp & Hh & Ha & Hf) Hr. unfold pipe_step, owned, pipe_ok, failed, held, lines_of in *.
  destruct p as [a cur policy l k prod calls]. cbn [p_at p_cur p_policy p_limiter p_read p_produced p_calls set_at] in *.
  destruct a as [|current to_take|reserved|amount|amount| | |reserved].
  - destruct (_ || _) eqn:E; intros [= <- <-]; cbn [p_at p_produced p_calls p_cur set_at]; split_and!; try done; try lia.
    right. by split; [lia|].
  - destruct (r =? current) eqn:E; intros [= <- <-]; cbn [p_at p_produced p_calls p_cur set_at]; split_and!; try done; try lia; right; try done; split; try lia; done.
  - destruct Hf as [[]|[Hc Hl]]. pose proof (samples_unit_spec write samples reserved cur policy Hh Hc) as Hu. cbn zeta in Hu.
    destruct (send_unit_samples write samples reserved cur policy) as [st|st|st]; [| |done].
    + destruct Hu as (Hw & Hs & Hcur & _). rewrite Hs. assert (reserved <? reserved = false) as -> by lia.
      assert (zlen (written ((calls ++ u_calls st) ++ [CStat])) = prod + reserved) as Hlines.
      { rewrite !written_app. change (written [CStat]) with (@nil string). rewrite app_nil_r, zlen_app, Hl, Hw. f_equal.
        unfold zlen, turn_of. rewrite length_map, length_seq. lia. }
      assert (u_cur st < length samples)%nat by (rewrite Hcur; apply Nat.mod_upper_bound; lia).
      unfold pace. cbn [p_limiter p_read p_cur p_policy p_produced p_calls].
      destruct (consume sin (rd i) reserved l k) as [[[w l'] k']|]; intros [= <- <-]; cbn [p_at p_produced p_calls p_cur];
        split_and!; try done; try lia; try (by left); right; by split; [lia|].
    + intros [= <- <-]; cbn [p_at p_produced p_calls p_cur]. split_and!; try done; by left.
  - done.
  - destruct Hf as [_|[Hc Hl]]; intros [= <- <-]; cbn [p_at p_produced p_calls p_cur set_at]; split_and!; try done; try lia; by left.
  - intros [= <- <-]; cbn [p_at p_produced p_calls p_cur set_at]; split_and!; try done; try lia. right. split; [lia|]. by left.
  - intros [= <- <-]; cbn [p_at p_produced p_calls p_cur set_at]; split_and!; try done; try lia; by left.
  - intros [= <- <-]; cbn [p_at p_produced p_calls p_cur set_at]; split_and!; try done; try lia; by left.
Qed.
Lemma gen_step_ok r r' : run_ok r -> step r r' -> run_ok r'.
Proof.
  intros H1 H2. destruct H2 as [i write r0 p produced p' Hi Hp]. destruct H1 as (Hall & Hsum & Hle & Hend).
  destruct (pipe_step_ok i write (r_produced r0) p produced p' (proj1 (Forall_lookup _ _) Hall i p Hi) Hle Hp) as (Hok & Ho & Hl & Hf & Hm).
  split_and!; cbn [r_pipes r_produced].
  - by apply Forall_insert.
  - rewrite (sum_insert owned _ _ _ _ Hi). lia.
  - done.
  - pose proof (lookup_lt_Some _ _ _ Hi) as Hlt.
    assert (forall q, q ∈ <[i:=p']> (r_pipes r0) -> q = p' \/ q ∈ r_pipes r0) as Hin.
    { intros q Hq. apply list_elem_of_lookup_1 in Hq as [j Hj]. destruct (decide (i = j)) as [<-|Hne].
      - rewrite list_lookup_insert_eq in Hj by done. left. congruence.
      - rewrite list_lookup_insert_ne in Hj by done. right. by apply list_elem_of_lookup_2 in Hj. }
    assert (p' ∈ <[i:=p']> (r_pipes r0)) as Hp'.
    { apply (list_elem_of_lookup_2 _ i). by apply list_lookup_insert_eq. }
    destruct Hm as [Hm|[Hge Hm]]; [left; apply Exists_exists; by exists p'|].
    destruct Hend as [Hx|Hend].
    + left. apply Exists_exists in Hx as (q & Hq & Hqf). apply Exists_exists. apply list_elem_of_lookup_1 in Hq as [j Hj].
      destruct (decide (i = j)) as [<-|Hne].
      * exists p'. split; [done|]. apply Hf. congruence.
      * exists q. split; [|done]. apply (list_elem_of_lookup_2 _ j). by rewrite list_lookup_insert_ne.
    + right. intros q Hq Hqe. destruct (Hin q Hq) as [->|Hq'].
      * destruct (Hm Hqe) as [Hpe|<-]; [|lia]. assert (r_produced r0 = lim) by (eapply Hend; [by eapply list_elem_of_lookup_2|done]). lia.
      * specialize (Hend q Hq' Hqe). lia.
Qed.

Lemma reachable_ok r r' : run_ok r -> rtc step r r' -> run_ok r'.
Proof. intros H1 H2. induction H2 as [|r1 r2 r3 Hs _ IH]; [done|]. apply IH. by eapply gen_step_ok. Qed.
End Shared.

Lemma start_ok sin rd samples lim g : samples <> [] -> 0 <= lim -> run_ok samples lim (run_sample_start sin rd g).
Proof.
  intros Hs Hl. unfold run_sample_start. set (ps := map _ _).
  assert (forall p, p ∈ ps -> p_at p = AtTake /\ p_cur p = 0%nat /\ p_produced p = 0 /\ p_calls p = []) as Hps.
  { intros p Hp. apply list_elem_of_In, in_map_iff in Hp as (i & <- & _). unfold pipe_start.
    by destruct (DynamicRateLimiter_new _ _ _ _) as [l k]. }
  split_and!; cbn [r_pipes r_produced].
  - apply Forall_forall. intros p Hp. destruct (Hps p Hp) as (Ha & Hc & Hpr & Hcalls). unfold pipe_ok, held, failed, lines_of.
    rewrite Ha, Hc, Hpr, Hcalls. split_and!; try done. right. split; [destruct samples; [done|cbn; lia]|done].
  - rewrite (sum_ext owned (fun _ => 0)); [unfold sum_of; generalize ps; intros l; induction l as [|p l IH]; cbn [foldr]; lia|].
    intros p Hp. destruct (Hps p Hp) as (Ha & _ & Hpr & _). unfold owned, held. by rewrite Ha, Hpr.
  - done.
  - right. intros p Hp He. destruct (Hps p Hp) as (Ha & _). congruence.
Qed.

(** C38: However the pipelines of a run interleave on the shared counter, they
    never produce more than the lines asked for, and a pipeline that has not
    failed wrote exactly what it produced; when all ended without failing, they
    wrote exactly the lines asked for, together. *)
Theorem shared_quota_exact sin rd samples g total unit_cnt r (Hsamples : samples <> []) (Hunit : 1 <= unit_cnt)
    (Hl : 0 <= total) (Hr : rtc (gen_step sin rd samples (Some total) unit_cnt) (run_sample_start sin rd g) r) :
  sum_of p_produced (r_pipes r) <= total /\
  Forall (fun p => failed p \/ lines_of p = p_produced p) (r_pipes r) /\
  (Forall (fun p => p_at p = Ended) (r_pipes r) -> r_pipes r <> [] -> sum_of lines_of (r_pipes r) = total).
Proof.
  pose proof (reachable_ok sin rd samples total unit_cnt Hunit _ _ (start_ok sin rd samples total g Hsamples Hl) Hr)
    as (Hall & Hsum & Hle & Hend).
  assert (forall p, p ∈ r_pipes r -> pipe_ok samples total p) as Hok by by apply Forall_forall.
  split_and!.
  - assert (sum_of p_produced (r_pipes r) <= sum_of owned (r_pipes r)); [|lia].
    apply sum_le. intros p Hp. destruct (Hok p Hp) as (_ & Hh & _). unfold owned. lia.
  - eapply Forall_impl; [exact Hall|]. intros p (_ & _ & _ & [Hf|[_ Hf]]); [by left|by right].
  - intros He Hne. assert (forall p, p ∈ r_pipes r -> p_at p = Ended) as He' by by apply Forall_forall.
    assert (sum_of lines_of (r_pipes r) = sum_of owned (r_pipes r)) as ->.
    { apply sum_ext. intros p Hp. destruct (Hok p Hp) as (_ & _ & _ & Hf). unfold owned, held, failed in *. rewrite (He' p Hp) in *.
      destruct Hf as [[]|[_ ->]]. lia. }
    rewrite <- Hsum. destruct Hend as [Hx|Hend].
    + apply Exists_exists in Hx as (p & Hp & Hf). unfold failed in Hf. by rewrite (He' p Hp) in Hf.
    + destruct (r_pipes r) as [|p ps]; [done|]. apply (Hend p); [by left|]. apply He'. by left.
Qed.

(** ** Quotas of their own *)

Lemma rules_unit_spec write gen rules_len m cur policy : 0 <= m ->
  match send_unit_rules write gen rules_len m cur policy with
  | UOk st => zlen (written (u_calls st)) = m /\ u_sent st = m
  | UErr st => zlen (written (u_calls st)) <= m
  | UPanic _ => False
  end.
Proof.
  intros Hm. unfold send_unit_rules, send_unit.
  pose proof (unit_lines_spec write (rule_line gen rules_len) (Nat.max 1 rules_len) (Z.to_nat m) 0 [] _ (start_after cur policy)) as Hu.
  destruct (unit_lines _ _ _ _ _ _) as [st|st|st].
  - destruct Hu as (more & Ht & [Hl Hs _ _ _ _] & He & _). rewrite He, app_nil_r in Hl. cbn [app] in Hl.
    apply unit_text_length in Ht. rewrite Hs, Hl. unfold zlen. rewrite Ht. lia.
  - destruct Hu as (k & more & Hk & Ht & (rest & Hr) & _). apply unit_text_length in Ht. cbn [app] in Hr.
    apply (f_equal length) in Hr. rewrite length_app in Hr. unfold zlen. lia.
  - destruct Hu as (j & c & Hu). unfold rule_line in Hu. by destruct (gen j _).
Qed.

Lemma split_exact parallel total : 0 <= total ->
  exists counts, split_total_among_parallel parallel (Some total) = map Some counts /\
    length counts = Z.to_nat (Z.max 1 parallel) /\ sum_of (fun c => c) counts = total /\
    Forall (fun c => total / Z.max 1 parallel <= c <= total / Z.max 1 parallel + 1) counts.
Proof.
  intros Ht. set (p := Z.max 1 parallel). set (base := total / p). set (rem := total mod p).
  assert (1 <= p) as Hp by lia. assert (0 <= rem < p) as Hrem by (apply Z.mod_pos_bound; lia).
  assert (total = p * base + rem) as Heq by (apply Z.div_mod; lia).
  exists (map (fun i => base + (if Z.of_nat i <? rem then 1 else 0)) (seq 0 (Z.to_nat p))).
  unfold split_total_among_parallel. fold p base rem. rewrite map_map. split; [done|]. split; [by rewrite length_map, length_seq|]. split.
  - assert (forall n, (n <= Z.to_nat p)%nat ->
      sum_of (fun c => c) (map (fun i => base + (if Z.of_nat i <? rem then 1 else 0)) (seq 0 n)) = Z.of_nat n * base + Z.min (Z.of_nat n) rem) as Hn.
    { induction n as [|n IH]; intros Hle; [cbn; lia|]. rewrite seq_S, map_app. cbn [map].
      assert (forall l x, sum_of (fun c => c) (l ++ [x]) = sum_of (fun c => c) l + x) as ->.
      { intros l x. unfold sum_of. induction l as [|y l IHl]; cbn [app foldr]; lia. }
      rewrite IH by lia. rewrite Nat.add_0_l. destruct (Z.of_nat n <? rem) eqn:E; lia. }
    rewrite Hn by lia. lia.
  - apply Forall_forall. intros c Hc. apply list_elem_of_In, in_map_iff in Hc as (i & <- & _). destruct (_ <? rem); lia.
Qed.

Section Rules.
Variable sin : f64 -> f64.
Variable rd : Reads.
Variable rules_len : nat.
Variable gen : nat -> nat -> nat -> option string.
Variable write : nat -> nat -> bool.

Lemma tasks_written acc : written (report_tasks acc).1 = [].
Proof.
  unfold report_tasks. cbn [fst]. rewrite written_app, written_tasks. by destruct (0 <? _).
Qed.

Lemma rule_loop_spec fuel u c unit_cnt produced acc cur policy l k calls :
  1 <= unit_cnt -> 0 <= produced <= c -> (Z.to_nat (c - produced) <= fuel)%nat -> zlen (written calls) = produced ->
  match rule_loop sin rd rules_len gen write fuel u (Some c) unit_cnt produced acc cur policy l k calls with
  | RDone n calls' => n = c /\ zlen (written calls') = c
  | RErr n calls' => n <= zlen (written calls') <= c
  | RPanic => True
  | RRunning _ _ => False
  end.
Proof.
  intros Hu. revert u produced acc cur policy l k calls.
  induction fuel as [|fuel IH]; intros u produced acc cur policy l k calls Hp Hf Hw; cbn [rule_loop]; unfold sat_sub.
  - destruct (Z.max 0 (c - produced) =? 0) eqn:E; lia.
  - destruct (Z.max 0 (c - produced) =? 0) eqn:E; [lia|].
    pose proof (rules_unit_spec (write u) (gen u) rules_len (Z.min unit_cnt (Z.max 0 (c - produced))) cur policy ltac:(lia)) as Hs.
    destruct (send_unit_rules _ _ _ _ _ _) as [st|st|st]; [| |done].
    + destruct Hs as [Hs1 Hs2]. destruct (report_tasks (acc + u_sent st)) as [reports acc'] eqn:Er.
      destruct (consume sin rd (u_sent st) l k) as [[[w l'] k']|]; [|done].
      apply IH; [lia|lia|]. rewrite !written_app, !zlen_app.
      assert (written reports = []) as -> by (pose proof (tasks_written (acc + u_sent st)) as Hx; by rewrite Er in Hx).
      rewrite zlen_nil. lia.
    + rewrite written_app, zlen_app. pose proof (zlen_nonneg (written (u_calls st))). lia.
Qed.
End Rules.

Lemma unit_size_pos base : 1 <= unit_size base.
Proof. unfold unit_size, DEFAULT_UNIT_SIZE. destruct (0 <? base); lia. Qed.

(** A pipeline with a quota ends within as many units. *)
Lemma rule_pipeline_spec sin rd rules_len gen write fuel c profile n : 0 <= c -> (Z.to_nat c <= fuel)%nat ->
  match run_rule_pipeline sin rd rules_len gen write fuel (Some c) profile n with
  | RDone m calls => m = c /\ zlen (written calls) = c
  | RErr m calls => m <= zlen (written calls) <= c
  | RPanic => True
  | RRunning _ _ => False
  end.
Proof.
  intros Hc Hf. unfold run_rule_pipeline. destruct (DynamicRateLimiter_new _ _ _ _) as [l k].
  apply rule_loop_spec; [apply unit_size_pos|lia|by rewrite Z.sub_0_r|done].
Qed.

(** The pipelines of a run of rules: each its part, on its share of the speed. *)
Definition rule_results sin (rd : nat -> Reads) rules_len gen write (fuel : nat) (parallel total : Z) (profile : SpeedProfile) : list RuleEnd :=
  imap (fun i c => run_rule_pipeline sin (rd i) rules_len (gen i) (write i) fuel c profile (Z.max 1 parallel))
    (split_total_among_parallel parallel (Some total)).

Definition done_lines (r : RuleEnd) : Z := match r with RDone _ calls => zlen (written calls) | _ => 0 end.

Lemma elem_le_sum c l : Forall (fun x => 0 <= x) l -> c ∈ l -> c <= sum_of (fun x => x) l.
Proof.
  unfold sum_of. induction 1 as [|x l Hx Hl IH]; intros Hc; [by apply not_elem_of_nil in Hc|]. cbn [foldr].
  assert (0 <= foldr (fun x n => x + n) 0 l) by (clear -Hl; induction Hl; cbn [foldr]; lia).
  apply elem_of_cons in Hc as [->|Hc]; [lia|]. specialize (IH Hc). lia.
Qed.

(** The pipelines of a run of rules split its lines to within one, and none of
    them runs on for ever: each ends after at most as many units as it has
    lines.  When none failed, they wrote exactly the lines asked for,
    together. *)
Theorem rule_pipelines_exact sin rd rules_len gen write fuel parallel total profile (Ht : 0 <= total)
    (Hf : (Z.to_nat total <= fuel)%nat) :
  let rs := rule_results sin rd rules_len gen write fuel parallel total profile in
  let part := total / Z.max 1 parallel in
  length rs = Z.to_nat (Z.max 1 parallel) /\
  Forall (fun r => match r with
    | RRunning _ _ => False
    | RDone n calls => zlen (written calls) = n /\ part <= n <= part + 1
    | _ => True end) rs /\
  (Forall (fun r => exists n calls, r = RDone n calls) rs -> sum_of done_lines rs = total).
Proof.
  destruct (split_exact parallel total Ht) as (counts & Hs & Hlen & Hsum & Hb). cbn zeta. unfold rule_results. rewrite Hs.
  set (part := total / Z.max 1 parallel) in *. assert (0 <= part) by (apply Z.div_pos; lia).
  assert (Forall (fun c => 0 <= c <= total) counts) as Hc.
  { apply Forall_forall. intros c Hc. pose proof (proj1 (Forall_forall _ _) Hb c Hc) as Hx. cbn in Hx. split; [lia|].
    rewrite <- Hsum. apply elem_le_sum; [|done]. eapply Forall_impl; [exact Hb|]. cbn. lia. }
  set (rs := imap _ _).
  assert (Forall2 (fun c r => part <= c <= part + 1 /\ match r with
    | RDone m calls => m = c /\ zlen (written calls) = c
    | RRunning _ _ => False
    | _ => True end) counts rs) as Hrs.
  { apply Forall2_lookup. intros i. subst rs. rewrite list_lookup_imap, list_lookup_fmap.
    destruct (counts !! i) as [c|] eqn:Ei; cbn; [|constructor]. constructor.
    split; [exact (proj1 (Forall_lookup _ _) Hb i c Ei)|]. pose proof (proj1 (Forall_lookup _ _) Hc i c Ei) as Hci. cbn in Hci.
    pose proof (rule_pipeline_spec sin (rd i) rules_len (gen i) (write i) fuel c profile (Z.max 1 parallel)) as Hp.
    destruct (run_rule_pipeline _ _ _ _ _ _ _ _ _); try done; apply Hp; lia. }
  clearbody rs. split_and!.
  - by rewrite <- Hlen, (Forall2_length _ _ _ Hrs).
  - clear -Hrs. induction Hrs as [|c r counts rs [Hc Hr] _ IH]; constructor; [|done]. destruct r; try done. destruct Hr as [-> Hr]. done.
  - rewrite <- Hsum. clear -Hrs. unfold sum_of. induction Hrs as [|c r counts rs [_ Hr] _ IH]; intros Hd; cbn [foldr]; [done|].
    apply Forall_cons in Hd as [(n & calls & ->) Hd]. cbn [done_lines]. destruct Hr as [_ ->]. rewrite IH by done. done.
Qed.

(** ** Witnesses *)

Definition demo_samples : list string := ["a"; "bb"; "ccc"].
Definition demo_gra : GenGRA := mkGra (Some 5) 1000 None 2 1 false.
Definition all_ok (k : nat) : bool := true.

Lemma unit_sends_in_turn_witness : exists st, send_unit_samples all_ok demo_samples 5 2 (BatchSizePolicy_new 0) = UOk st /\
  written (u_calls st) = ["ccc"; "a"; "bb"; "ccc"; "a"] /\ u_cur st = 1%nat.
Proof.
  assert (2 < length demo_samples)%nat as Hc by (cbn; lia).
  pose proof (unit_sends_in_turn all_ok demo_samples 5 2 (BatchSizePolicy_new 0) ltac:(lia) Hc) as Hu.
  destruct (send_unit_samples all_ok demo_samples 5 2 (BatchSizePolicy_new 0)) as [st|st|st] eqn:E; [|vm_compute in E; discriminate|destruct Hu].
  exists st. split; [reflexivity|]. destruct Hu as (Hw & _ & Hcur & _). split; [rewrite Hw; reflexivity|rewrite Hcur; reflexivity].
Defined.

(** The steps of a schedule: which pipeline, all writes succeed. *)
Fixpoint run_schedule (rd : nat -> Reads) (samples : list string) (limit : option Z) (unit_cnt : Z) (sched : list nat) (r : GenRun) : GenRun :=
  match sched with
  | [] => r
  | i :: sched =>
      match r_pipes r !! i with
      | Some p =>
          let '(produced, p') := pipe_step (fun x => x) samples limit unit_cnt (rd i) all_ok (r_produced r) p in
          run_schedule rd samples limit unit_cnt sched (mkRun produced (<[i := p']> (r_pipes r)))
      | None => run_schedule rd samples limit unit_cnt sched r
      end
  end.

Lemma run_schedule_steps rd samples limit unit_cnt sched r :
  rtc (gen_step (fun x => x) rd samples limit unit_cnt) r (run_schedule rd samples limit unit_cnt sched r).
Proof.
  revert r. induction sched as [|i sched IH]; intros r; cbn [run_schedule]; [constructor|].
  destruct (r_pipes r !! i) as [p|] eqn:Ei; [|apply IH].
  destruct (pipe_step _ _ _ _ _ _ _ _) as [produced p'] eqn:Ep. eapply rtc_l; [|apply IH]. by eapply step_pipe.
Qed.

(** Two pipelines race for five lines by units of three. *)
Definition demo_end : GenRun :=
  run_schedule (fun _ => demo_reads) demo_samples (Some 5) 3 [0; 1; 0; 1; 1; 1; 0; 1; 0; 1; 0; 1]%nat
    (run_sample_start (fun x => x) (fun _ => demo_reads) demo_gra).

Lemma two_ended ps : map p_at ps = [Ended; Ended] -> Forall (fun p => p_at p = Ended) ps /\ ps <> [].
Proof. destruct ps as [|p [|q [|? ?]]]; intros He; try (discriminate He). injection He as Hp Hq. by repeat constructor. Qed.

Lemma shared_quota_exact_witness :
  map p_at (r_pipes demo_end) = [Ended; Ended] /\ map p_produced (r_pipes demo_end) = [3; 2] /\
  sum_of lines_of (r_pipes demo_end) = 5.
Proof.
  assert (map p_at (r_pipes demo_end) = [Ended; Ended]) as He by (vm_compute; reflexivity).
  split; [exact He|]. split; [vm_compute; reflexivity|].
  destruct (shared_quota_exact (fun x => x) (fun _ => demo_reads) demo_samples demo_gra 5 3 demo_end ltac:(discriminate) ltac:(lia) ltac:(lia)
    (run_schedule_steps _ _ _ _ _ _)) as (_ & _ & Hx).
  exact (Hx (proj1 (two_ended _ He)) (proj2 (two_ended _ He))).
Defined.

Definition demo_gen (u i r : nat) : option string := Some "line".

Lemma three_done rs n m k : map (fun r => match r with RDone n _ => Some n | _ => None end) rs = [Some n; Some m; Some k] ->
  Forall (fun r => exists n calls, r = RDone n calls) rs.
Proof.
  destruct rs as [|a [|b [|c [|? ?]]]]; intros Hm; try (discriminate Hm). injection Hm as Ha Hb Hc.
  destruct a; try (discriminate Ha). destruct b; try (discriminate Hb). destruct c; try (discriminate Hc).
  repeat constructor; by eexists _, _.
Qed.

Lemma rule_pipelines_exact_witness :
  let rs := rule_results (fun x => x) (fun _ => demo_reads) 2 (fun _ => demo_gen) (fun _ _ => all_ok) 7 3 7 (Constant 30) in
  map (fun r => match r with RDone n _ => Some n | _ => None end) rs = [Some 3; Some 2; Some 2] /\ sum_of done_lines rs = 7.
Proof.
  intros rs. assert (map (fun r => match r with RDone n _ => Some n | _ => None end) rs = [Some 3; Some 2; Some 2]) as Hm
    by (vm_compute; reflexivity).
  split; [exact Hm|].
  destruct (rule_pipelines_exact (fun x => x) (fun _ => demo_reads) 2 (fun _ => demo_gen) (fun _ _ => all_ok) 7 3 7 (Constant 30)
    ltac:(lia) ltac:(cbn; lia)) as (_ & _ & Hx).
  exact (Hx (three_done _ _ _ _ Hm)).
Defined.

(** No sample at all: the first line is out of range. *)
Example no_samples_panics : exists st, send_unit_samples all_ok [] 1 0 (BatchSizePolicy_new 0) = UPanic st.
Proof. vm_compute. by eexists. Qed.
