(* ===== verification/ParserActor.v ===== *)
(** The parser workers ([src/src/runtime/parser/{act_parser,workflow}.rs],
    [src/src/runtime/tasks/parse.rs]): the loop that takes batches from the
    worker's channel, runs the hooks of the events and hands the batch to the
    parse engine, the report of its end to a reload, and the group of workers.

    As for the sinks, the loop is a function of the branches its [select!]
    takes.  The channel of batches is part of the state: what the router sends
    and the end of all senders are steps of the environment.  What the loop asks
    of the engine is the interface [BatchEngine]; the engine of [WplEngine]
    implements it ([engine_batches]). *)
From Stdlib Require Import ZArith Lia String.
From stdpp Require Import prelude strings gmap pretty.
From S2P Require Import Prelude F64 Actor ExitPolicy ErrPolicy ReloadDrain DataModel Picker SinkRuntime Tags Stats Metrics Dispatcher WplEngine.
Local Open Scope string_scope.
Local Open Scope list_scope.
Local Open Scope Z_scope.

(** What an awaited call of the engine comes to: done, an error of the worker,
    still waiting for a full end, or a panic. *)
Inductive Answer (E : Type) := AOk | AErr (e : E) | AWaits | APanics.
Arguments AOk {E}. Arguments AErr {E}. Arguments AWaits {E}. Arguments APanics {E}.

Class BatchEngine (D E SE : Type) := {
  be_proc_batch : list SE -> D -> Answer E * D;
  be_optimized : D -> D;
  be_send_stat : D -> Answer E * D;
}.

Section Actor.
Context {D E SE : Type} `{!BatchEngine D E SE}.
(** [if let Some(hook) = event.preproc.clone() { hook(event) }] *)
Variable preprocess : SE -> SE.
(** The constant of the [wpl] crate. *)
Variable OPTIMIZE_TIMES : Z.
(** The process-wide flag. *)
Variable skip_parse : bool.

Definition is_multiple_of (a b : Z) : bool := if b =? 0 then a =? 0 else a mod b =? 0.

Record ParserTask := mkParser {
  p_engine : D;
  p_queue : list (list SE);
  p_open : bool;
  p_ctrl : TaskController;
  p_need_stat : bool;
  p_reporter : ReloadDrainReporter;
  p_reported : list ReloadDrainEvent;
}.

Definition set_eng (a : ParserTask) (d : D) : ParserTask :=
  mkParser d (p_queue a) (p_open a) (p_ctrl a) (p_need_stat a) (p_reporter a) (p_reported a).
Definition set_queue (a : ParserTask) (q : list (list SE)) (o : bool) : ParserTask :=
  mkParser (p_engine a) q o (p_ctrl a) (p_need_stat a) (p_reporter a) (p_reported a).
Definition set_pctrl (a : ParserTask) (c : TaskController) : ParserTask :=
  mkParser (p_engine a) (p_queue a) (p_open a) c (p_need_stat a) (p_reporter a) (p_reported a).
Definition set_need_stat (a : ParserTask) (b : bool) : ParserTask :=
  mkParser (p_engine a) (p_queue a) (p_open a) (p_ctrl a) b (p_reporter a) (p_reported a).

(** [ActorWork::with_drain_reporter], [ActorWork::new] without a reporter. *)
Definition ActorWork_new (d : D) (now : Z) (r : ReloadDrainReporter) : ParserTask :=
  mkParser d [] true (TaskController_new "lang" None now) false r [].

(** What the environment does to the channel and what the loop's [select!] takes. *)
Inductive ParserEvent :=
  | PtSend (batch : list SE)
  | PtSendersGone
  | PtRecv
  | PtCommand (cmd : ActorCtrlCmd) (now1 now2 : Z)
  | PtIdle (now now1 now2 : Z)
  | PtStat.

Inductive Step := PGo (a : ParserTask) | PBreak (a : ParserTask) | PFail (e : E) (a : ParserTask)
  | PWait | PPanic (a : ParserTask) | PDisabled.

(** One event of a batch: counted, and the pipelines reordered now and then. *)
Definition take_event (s : D * TaskController) : D * TaskController :=
  let c := rec_task_suc s.2 in
  (if is_multiple_of (total_count c) OPTIMIZE_TIMES then be_optimized s.1 else s.1, c).

Definition take_batch (batch : list SE) (s : D * TaskController) : D * TaskController :=
  foldl (fun s _ => take_event s) s batch.

(** The continuation of a call of the engine. *)
Definition after (m : Answer E * D) (a : ParserTask) (k : ParserTask -> Step) : Step :=
  match m with
  | (AOk, d) => k (set_eng a d)
  | (AErr e, d) => PFail e (set_eng a d)
  | (AWaits, _) => PWait
  | (APanics, d) => PPanic (set_eng a d)
  end.

Definition recv_batch (a : ParserTask) (batch : list SE) : Step :=
  let '(d, c) := take_batch batch (p_engine a, p_ctrl a) in
  let a := set_pctrl (set_eng a d) c in
  if skip_parse then PGo a
  else after (be_proc_batch (map preprocess batch) d) a (fun a => PGo (set_need_stat a true)).

Definition parser_step (a : ParserTask) (ev : ParserEvent) : Step :=
  match ev with
  | PtSend batch => if p_open a then PGo (set_queue a (p_queue a ++ [batch]) true) else PDisabled
  | PtSendersGone => PGo (set_queue a (p_queue a) false)
  | PtRecv =>
      match p_queue a with
      | batch :: q => recv_batch (set_queue a q (p_open a)) batch
      | [] => if p_open a then PDisabled else PBreak a
      end
  | PtCommand cmd now1 now2 =>
      let a := set_pctrl a (update_cmd (p_ctrl a) cmd) in
      if is_stop (p_ctrl a) now1 now2 then PBreak a else PGo a
  | PtIdle now now1 now2 =>
      let a := set_pctrl a (rec_task_idle (p_ctrl a) now) in
      if is_stop (p_ctrl a) now1 now2 then PBreak a else PGo a
  | PtStat =>
      if p_need_stat a then
        let a := set_need_stat a false in after (be_send_stat (p_engine a)) a PGo
      else PGo a
  end.

(** [ActorWork::proc] after [parse_events] returned [Ok]. *)
Definition parser_notify (a : ParserTask) : ParserTask :=
  let '(evs, r) := notify (p_reporter a) in
  mkParser (p_engine a) (p_queue a) (p_open a) (p_ctrl a) (p_need_stat a) r (p_reported a ++ evs).

Definition parser_drop (a : ParserTask) : ParserTask :=
  mkParser (p_engine a) (p_queue a) (p_open a) (p_ctrl a) (p_need_stat a) (mkReporter None)
    (p_reported a ++ drop (p_reporter a)).

(** How a worker stands after the events. *)
Inductive WorkStatus := WInLoop (a : ParserTask) | WReturned (a : ParserTask) | WErrored (e : E) (a : ParserTask)
  | WWaiting | WPanicked (a : ParserTask) | WStuck.

(** The end of a step that left the loop: nothing is left to run. *)
Definition work_end (m : Step) : WorkStatus :=
  match m with
  | PGo a | PBreak a => WReturned (parser_drop (parser_notify a))
  | PFail e a => WErrored e (parser_drop a)
  | PWait => WWaiting
  | PPanic a => WPanicked (parser_drop a)
  | PDisabled => WStuck
  end.

(** [ActorWork::proc]; after the loop the last statistics are sent. *)
Fixpoint work_proc (a : ParserTask) (evs : list ParserEvent) : WorkStatus :=
  match evs with
  | [] => WInLoop a
  | ev :: evs =>
      match parser_step a ev with
      | PGo a => work_proc a evs
      | PBreak a => work_end (after (be_send_stat (p_engine a)) a PGo)
      | m => work_end m
      end
  end.

(** [start_parser_tasks_frames]: [parallel] workers on engines of their own;
    [build] is the factory's, an error of it ends the start. *)
Fixpoint start_parser_tasks (build : nat -> option D) (now : nat -> Z) (b : ReloadDrainBus) (n idx : nat)
    : option (list ParserTask) :=
  match n with
  | O => Some []
  | S n =>
      match build idx with
      | None => None
      | Some d =>
          rest ← start_parser_tasks build now b n (S idx);
          Some (ActorWork_new d (now idx) (reporter b Parser ("wparse-parse-" +:+ pretty (N.of_nat idx))) :: rest)
      end
  end.

End Actor.

(** ** The engine of [WplEngine] behind the loop *)
Section Engine.
Context {Ev An E Pg T Hk W : Type} `{DataApi F R} `{!RecordApi F R} `{!TagsApi T} `{!WplApi Ev An E Pg R}.
Context `{!Ends (R := R) W} {L : Coll.LruApi Dim.StatDim Slice.SliceRecord} {C : Coll.CollApi}.
Variable md5_hex : RawData -> string.
Variable mode : RobustnessMode.
Variable time_text : Z -> string.
Variable hm_iter : gmap string (list (SinkRecUnit (R := R))) -> list (string * list (SinkRecUnit (R := R))).
(** What the calls read from outside, by their number: the clocks of a batch
    and of the statistics, and the answers of the monitor's channel. *)
Variable batch_clk : nat -> nat -> nat -> nat -> nat -> Measure.Clock.
Variable batch_now : nat -> nat -> Z.
Variable stat_clk : nat -> nat -> nat -> Measure.Clock.
Variable stat_time : nat -> nat -> Z.
Variable mon_ts : nat -> nat -> nat -> Collectors.TrySend.
(** How often a worker may retry one text on a full end. *)
Variable fuel : nat.
Variable skip_sink : bool.
Variable setting : ParseOption.
Variable run_hook : Hk -> SourceEvent T Hk -> SourceEvent T Hk.

Definition run_preproc (ev : SourceEvent T Hk) : SourceEvent T Hk :=
  match preproc ev with Some hook => run_hook hook ev | None => ev end.

Record ActParser := mkActParser {
  ap_engine : WplEngine (Ev := Ev) (An := An);
  ap_net : Net W;
  ap_reports : list Report.StatReport;
  ap_calls : nat;
}.

Definition from_all_model (ps : list (WplPipeline (Ev := Ev) (An := An))) (infra : InfraSinkAgent) (s : Net W) : ActParser :=
  mkActParser (engine_from ps infra) s [] 0.

Definition ap_proc_batch (batch : list (SourceEvent T Hk)) (a : ActParser) : Answer E * ActParser :=
  let '(r, e) := proc_batch md5_hex mode time_text hm_iter (batch_clk (ap_calls a)) (batch_now (ap_calls a)) fuel
                   skip_sink batch setting (ap_engine a) (ap_net a) in
  match r with
  | Done _ s => (AOk, mkActParser e s (ap_reports a) (S (ap_calls a)))
  | Fails err s => (AErr err, mkActParser e s (ap_reports a) (S (ap_calls a)))
  | Waits => (AWaits, mkActParser e (ap_net a) (ap_reports a) (S (ap_calls a)))
  | Panics => (APanics, mkActParser e (ap_net a) (ap_reports a) (S (ap_calls a)))
  end.

Definition ap_optimized (a : ActParser) : ActParser :=
  mkActParser (engine_optimized (ap_engine a)) (ap_net a) (ap_reports a) (ap_calls a).

(** A closed channel of the monitor is a system error of the worker. *)
Definition ap_send_stat (a : ActParser) : Answer E * ActParser :=
  match parser_send_stat (stat_clk (ap_calls a)) (mon_ts (ap_calls a)) (stat_time (ap_calls a)) 0 (pipelines (ap_engine a)) with
  | Ret (out, ok, m) =>
      let a := mkActParser (mkEngine m (infra_agent (ap_engine a))) (ap_net a) (ap_reports a ++ out) (S (ap_calls a)) in
      (if ok then AOk else AErr (to_err (ParseUvs SystemError)), a)
  | Panic => (APanics, a)
  end.

Definition engine_batches : BatchEngine ActParser E (SourceEvent T Hk) := {|
  be_proc_batch := ap_proc_batch;
  be_optimized := ap_optimized;
  be_send_stat := ap_send_stat;
|}.
End Engine.
