(* ===== verification/ParserActorLaws.v ===== *)
(** What the parser workers guarantee: every batch sent to a worker is handed to
    the engine once, in order, still queued, or lost with the worker's error; a
    worker reports once, and [Drained] exactly when it returned; a worker without
    senders, or stopped by a timeout, ends.  The first two groups are proved for
    any engine with the laws [EngineLaws]; [engine_batches] has them. *)
From Stdlib Require Import ZArith Lia String.
From stdpp Require Import prelude strings gmap pretty.
From S2P Require Import Prelude F64 Actor ExitPolicy ErrPolicy ReloadDrain DataModel Picker SinkRuntime Tags Stats StatsLaws Metrics MetricsLaws Dispatcher WplEngine WplEngineLaws ParserActor.
Local Open Scope string_scope.
Local Open Scope list_scope.
Local Open Scope Z_scope.
Local Open Scope wp_scope.

Section Loop.
Context {D E SE : Type} `{!BatchEngine D E SE}.
Variable preprocess : SE -> SE.
Variable OPTIMIZE_TIMES : Z.

Notation Task := (ParserTask (D := D) (SE := SE)).
Notation Event := (ParserEvent (SE := SE)).
Notation step := (parser_step (D := D) (E := E) (SE := SE) preprocess OPTIMIZE_TIMES false).
Notation run := (work_proc (D := D) (E := E) (SE := SE) preprocess OPTIMIZE_TIMES false).

(** The engine went from [d] to [d'] over the batches, in their order, with
    reorderings and statistics in between. *)
Inductive path : list (list SE) -> D -> D -> Prop :=
  | path_nil d : path [] d d
  | path_opt bs d d' : path bs d d' -> path bs d (be_optimized d')
  | path_stat bs d d' r d2 : path bs d d' -> be_send_stat d' = (r, d2) -> path bs d d2
  | path_batch bs b d d' d2 : path bs d d' -> be_proc_batch (map preprocess b) d' = (AOk, d2) -> path (bs ++ [b]) d d2.

Definition sent_of (ev : Event) : list (list SE) := match ev with PtSend b => [b] | _ => [] end.
Definition sends (evs : list Event) : list (list SE) := concat (map sent_of evs).

(** The number of events of some batches. *)
Definition event_count (bs : list (list SE)) : Z := foldr (fun b n => zlen b + n) 0 bs.

Lemma event_count_snoc bs b : event_count (bs ++ [b]) = event_count bs + zlen b.
Proof. unfold event_count. induction bs as [|x bs IH]; cbn; lia. Qed.

Definition is_stop_cmd (c : ActorCtrlCmd) : Prop := exists s, c = Stop s.

Lemma stops_by_command (c : TaskController) n1 n2 : is_stop c n1 n2 = true -> is_stop_cmd (work_cmd c).
Proof. unfold is_stop. destruct (work_cmd c) as [s| | | |]; cbn; [by eexists|done..]. Qed.

(** The worker's books: [d0] is the engine it started with, [bs] what it was
    sent, [done] what the engine has had. *)
Record books (d0 : D) (r : ReloadDrainReporter) (bs done : list (list SE)) (a : Task) : Prop := {
  bk_split : bs = done ++ p_queue a;
  bk_path : path done d0 (p_engine a);
  bk_count : total_suc_cnt (p_ctrl a) = event_count done mod 2 ^ 64;
  bk_quiet : p_reported a = [] /\ p_reporter a = r;
}.

(** Of a batch whose processing failed nothing is left. *)
Record closed_books (d0 : D) (bs done lost : list (list SE)) (a : Task) : Prop := {
  cb_split : bs = done ++ lost ++ p_queue a;
  cb_lost : (length lost <= 1)%nat;
  cb_path : exists d, path done d0 d;
}.

Lemma take_batch_path bs d0 b d c d' c' : take_batch OPTIMIZE_TIMES b (d, c) = (d', c') ->
  path bs d0 d ->
  path bs d0 d' /\ total_suc_cnt c' = (total_suc_cnt c + zlen b) mod 2 ^ 64 \/
  b = [] /\ d' = d /\ c' = c.
Proof.
  destruct b as [|x b]; [intros [= <- <-]; by right|]. intros E1 Hp. left. revert d c x E1 Hp.
  induction b as [|y b IH]; intros d c x E1 Hp.
  - cbn in E1. injection E1 as <- <-. split; [case_match; [by apply path_opt|done]|done].
  - unfold take_batch in E1. cbn [foldl] in E1.
    destruct (take_event OPTIMIZE_TIMES (d, c)) as [d1 c1] eqn:E2. cbn in E2. injection E2 as <- <-.
    destruct (IH _ _ y E1) as [Hp' Hc]; [case_match; [by apply path_opt|done]|]. split; [exact Hp'|].
    rewrite Hc. cbn [rec_task_suc rec_task_suc_cnt total_suc_cnt]. unfold wrap_add.
    rewrite Z.add_mod_idemp_l by lia. f_equal. unfold zlen. cbn. lia.
Qed.

Lemma take_batch_keeps b d c : work_cmd (take_batch OPTIMIZE_TIMES b (d, c)).2 = work_cmd c /\
  (b <> [] -> last_miss (take_batch OPTIMIZE_TIMES b (d, c)).2 = None).
Proof.
  unfold take_batch. revert d c. induction b as [|x b IH]; intros d c; cbn [foldl]; [done|].
  change (take_event OPTIMIZE_TIMES (d, c)) with ((take_event OPTIMIZE_TIMES (d, c)).1, rec_task_suc c).
  destruct (IH (take_event OPTIMIZE_TIMES (d, c)).1 (rec_task_suc c)) as [-> Hl]. split; [done|].
  intros _. destruct b; [done|by apply Hl].
Qed.

(** What one step does to the books. *)
Definition step_books d0 r bs done (ev : Event) (a : Task) (m : Step (D := D) (E := E) (SE := SE)) : Prop :=
  match m with
  | PGo a' => exists done', books d0 r (bs ++ sent_of ev) done' a'
  | PBreak a' => books d0 r bs done a' /\ sent_of ev = [] /\
      (p_open a' = false /\ p_queue a' = [] \/ is_stop_cmd (work_cmd (p_ctrl a')))
  | PFail _ a' | PPanic a' => sent_of ev = [] /\ (exists lost, closed_books d0 bs done lost a') /\
      p_reported a' = [] /\ p_reporter a' = r
  | PWait | PDisabled => True
  end.

Lemma recv_books d0 r bs done a b q : p_queue a = b :: q -> books d0 r bs done a ->
  step_books d0 r bs done PtRecv a
    (recv_batch preprocess OPTIMIZE_TIMES false (set_queue a q (p_open a)) b).
Proof.
  intros Hq [Hs Hp Hc [Hr Hr']]. unfold recv_batch. cbn [p_engine p_ctrl set_queue].
  destruct (take_batch OPTIMIZE_TIMES b (p_engine a, p_ctrl a)) as [d c] eqn:Et.
  assert (path done d0 d /\ total_suc_cnt c = event_count (done ++ [b]) mod 2 ^ 64) as [Hp1 Hc1].
  { rewrite event_count_snoc. destruct (take_batch_path _ d0 _ _ _ _ _ Et Hp) as [[? ->]|(-> & -> & ->)].
    - split; [done|]. rewrite Hc, Z.add_mod_idemp_l by lia. done.
    - split; [done|]. by rewrite Hc, Z.add_0_r. }
  unfold after. destruct (be_proc_batch (map preprocess b) d) as [[|err| |] d2] eqn:Eb;
    cbn [step_books sent_of set_eng set_pctrl set_queue set_need_stat p_reported p_reporter]; try done.
  - exists (done ++ [b]). split; cbn; try done; [by rewrite app_nil_r, Hs, Hq, <- app_assoc|].
    by eapply path_batch.
  - split_and!; try done. exists [b]. split; cbn; [by rewrite Hs, Hq|lia|by exists d].
  - split_and!; try done. exists [b]. split; cbn; [by rewrite Hs, Hq|lia|by exists d].
Qed.

Lemma step_keeps_books d0 r bs done a ev : books d0 r bs done a -> step_books d0 r bs done ev a (step a ev).
Proof.
  intros Hb. pose proof Hb as [Hs Hp Hc [Hr Hr']]. destruct ev as [b| | |cmd n1 n2|now n1 n2|]; cbn [parser_step].
  - destruct (p_open a); [|done]. exists done. split; cbn; try done. by rewrite Hs, app_assoc.
  - exists done. split; cbn; try done. by rewrite app_nil_r.
  - destruct (p_queue a) as [|b q] eqn:Hq; [destruct (p_open a) eqn:Ho; [done|]|by apply recv_books].
    cbn. rewrite Ho. by auto.
  - destruct (is_stop _ n1 n2) eqn:Es.
    + split; [split; done|]. split; [done|]. right. by eapply stops_by_command.
    + exists done. split; cbn; try done. by rewrite app_nil_r.
  - assert (total_suc_cnt (rec_task_idle (p_ctrl a) now) = event_count done mod 2 ^ 64) as Hi
      by (unfold rec_task_idle; by destruct (last_miss _)).
    destruct (is_stop _ n1 n2) eqn:Es.
    + split; [split; done|]. split; [done|]. right. by eapply stops_by_command.
    + exists done. split; cbn; try done. by rewrite app_nil_r.
  - destruct (p_need_stat a); [|exists done; split; cbn; try done; by rewrite app_nil_r].
    unfold after. cbn [p_engine set_need_stat]. destruct (be_send_stat (p_engine a)) as [[|err| |] d2] eqn:Eb; cbn.
    + exists done. split; cbn; try done; [by rewrite app_nil_r|by eapply path_stat].
    + split_and!; try done. exists []. split; cbn; try done; [lia|by eexists].
    + done.
    + split_and!; try done. exists []. split; cbn; try done; [lia|by eexists].
Qed.

(** How a run ends, for a worker that was sent [bs]. *)
Definition ended_ok d0 (r : ReloadDrainReporter) (bs : list (list SE)) (a : Task) : Prop :=
  exists done rest, bs = done ++ p_queue a ++ rest /\ path done d0 (p_engine a) /\
    total_suc_cnt (p_ctrl a) = event_count done mod 2 ^ 64 /\
    (p_open a = false /\ p_queue a = [] \/ is_stop_cmd (work_cmd (p_ctrl a))) /\
    p_reported a = (notify r).1 ++ drop (notify r).2.

Definition ended_bad d0 (r : ReloadDrainReporter) (bs : list (list SE)) (a : Task) : Prop :=
  exists done lost rest, bs = done ++ lost ++ p_queue a ++ rest /\ (length lost <= 1)%nat /\
    (exists d, path done d0 d) /\ p_reported a = drop r.

Definition run_books d0 r (bs : list (list SE)) (m : WorkStatus (D := D) (E := E) (SE := SE)) : Prop :=
  match m with
  | WInLoop a => exists done, books d0 r bs done a
  | WReturned a => ended_ok d0 r bs a
  | WErrored _ a | WPanicked a => ended_bad d0 r bs a
  | WWaiting | WStuck => True
  end.

Lemma bad_end d0 r bs rest done lost a : closed_books d0 bs done lost a -> p_reported a = [] -> p_reporter a = r ->
  ended_bad d0 r (bs ++ rest) (parser_drop a).
Proof.
  intros [Hs Hl Hp] Hr Hr'. exists done, lost, rest; cbn; rewrite Hs, Hr, Hr', <- !app_assoc; done.
Qed.

Lemma break_end d0 r bs rest done a : books d0 r bs done a ->
  (p_open a = false /\ p_queue a = [] \/ is_stop_cmd (work_cmd (p_ctrl a))) ->
  run_books d0 r (bs ++ rest) (work_end (after (be_send_stat (p_engine a)) a PGo)).
Proof.
  intros [Hs Hp Hc [Hr Hr']] Hst. unfold after.
  destruct (be_send_stat (p_engine a)) as [[|err| |] d2] eqn:Eb; cbn [work_end]; [| | done|].
  - exists done, rest. unfold parser_notify, parser_drop, notify. cbn. rewrite Hr, Hr'.
    destruct (send_pending r Drained) as [es r2] eqn:En. cbn.
    split; [by rewrite Hs, <- app_assoc|]. split; [by eapply path_stat|]. done.
  - apply (bad_end _ _ _ _ done []); [|done..]. split; [exact Hs|cbn; lia|by eexists].
  - apply (bad_end _ _ _ _ done []); [|done..]. split; [exact Hs|cbn; lia|by eexists].
Qed.

Lemma run_keeps_books d0 r bs done a evs : books d0 r bs done a -> run_books d0 r (bs ++ sends evs) (run a evs).
Proof.
  revert bs done a. induction evs as [|ev evs IH]; intros bs done a Hb.
  { exists done. by rewrite app_nil_r. }
  cbn [work_proc]. pose proof (step_keeps_books d0 r bs done a ev Hb) as Hstep.
  destruct (step a ev) as [a'|a'|e a'| |a'|]; cbn [step_books] in Hstep.
  - destruct Hstep as [done' Hb']. specialize (IH _ _ _ Hb'). by rewrite <- app_assoc in IH.
  - destruct Hstep as (Hb' & Hn & Hst). by eapply break_end.
  - destruct Hstep as (_ & [lost Hl] & Hr & Hr'). by eapply bad_end.
  - done.
  - destruct Hstep as (_ & [lost Hl] & Hr & Hr'). cbn [work_end].
    by eapply bad_end.
  - done.
Qed.

(** ** Workers that end *)

(** An engine in service: no call of it fails, waits for ever or panics. *)
Class EngineLaws (ok : D -> Prop) := {
  el_proc b d : ok d -> exists d', be_proc_batch b d = (AOk, d') /\ ok d';
  el_opt d : ok d -> ok (be_optimized d);
  el_stat d : ok d -> exists d', be_send_stat d = (AOk, d') /\ ok d';
}.

(** A call of the engine may come to [x]. *)
Definition engine_answers (x : Answer E) : Prop :=
  exists d, (exists b, (be_proc_batch b d).1 = x) \/ (be_send_stat d).1 = x.

(** A worker ended, or hangs, by what a call of its engine came to. *)
Definition engine_failed (m : WorkStatus (D := D) (E := E) (SE := SE)) : Prop :=
  match m with
  | WErrored e _ => engine_answers (AErr e)
  | WPanicked _ => engine_answers APanics
  | WWaiting => engine_answers AWaits
  | _ => False
  end.

Definition step_failed (m : Step (D := D) (E := E) (SE := SE)) : Prop :=
  match m with
  | PFail e _ => engine_answers (AErr e)
  | PPanic _ => engine_answers APanics
  | PWait => engine_answers AWaits
  | _ => False
  end.

Lemma failed_ends m : step_failed m -> engine_failed (work_end m).
Proof. by destruct m. Qed.

(** A call ends the step or lets it go on with the engine it left. *)
Lemma after_cases (x : Answer E * D) (a : Task) k : engine_answers x.1 ->
  step_failed (after x a k) \/ x.1 = AOk /\ after x a k = k (set_eng a x.2).
Proof. destruct x as [[|e| |] d]; intros H; [by right|by left..]. Qed.

Lemma stat_answers d : engine_answers (be_send_stat d).1.
Proof. exists d. by right. Qed.
Lemma proc_answers b d : engine_answers (be_proc_batch b d).1.
Proof. exists d. left. by exists b. Qed.

Section Ends.
(** Whether parsing is skipped. *)
Variable skip : bool.
Notation step := (parser_step (D := D) (E := E) (SE := SE) preprocess OPTIMIZE_TIMES skip).
Notation run := (work_proc (D := D) (E := E) (SE := SE) preprocess OPTIMIZE_TIMES skip).

Lemma recv_cases (a : Task) b q : p_queue a = b :: q ->
  step_failed (step a PtRecv) \/
  exists a' : Task, step a PtRecv = PGo a' /\ p_queue a' = q /\ p_open a' = p_open a /\ work_cmd (p_ctrl a') = work_cmd (p_ctrl a).
Proof.
  intros Hq. cbn [parser_step]. rewrite Hq. unfold recv_batch. cbn [p_engine p_ctrl set_queue].
  pose proof (take_batch_keeps b (p_engine a) (p_ctrl a)) as [Hc _].
  destruct (take_batch OPTIMIZE_TIMES b (p_engine a, p_ctrl a)) as [d c]. cbn [fst snd] in *.
  destruct skip; [right; by eexists|].
  match goal with |- context [after ?x ?y ?k] => destruct (after_cases x y k (proc_answers _ _)) as [?|[_ ->]] end;
    [by left|right; by eexists].
Qed.

Lemma stat_cases (a : Task) :
  step_failed (step a PtStat) \/
  exists a' : Task, step a PtStat = PGo a' /\ p_queue a' = p_queue a /\ p_open a' = p_open a /\ p_ctrl a' = p_ctrl a.
Proof.
  cbn [parser_step]. destruct (p_need_stat a); [|right; by eexists].
  match goal with |- context [after ?x ?y ?k] => destruct (after_cases x y k (stat_answers _)) as [?|[_ ->]] end;
    [by left|right; by eexists].
Qed.

(** A worker that left its loop has returned, unless its engine failed. *)
Lemma break_cases (a : Task) :
  engine_failed (work_end (E := E) (after (be_send_stat (p_engine a)) a PGo)) \/
  exists a' : Task, work_end (E := E) (after (be_send_stat (p_engine a)) a PGo) = WReturned a' /\ p_queue a' = p_queue a.
Proof.
  destruct (after_cases (be_send_stat (p_engine a)) a PGo (stat_answers _)) as [Hf|[_ ->]].
  - left. by apply failed_ends.
  - right. eexists. split; [done|]. unfold parser_notify, parser_drop. cbn. by destruct (notify _).
Qed.

(** What may still happen once the senders are gone and no stop is sent. *)
Definition drain_event (ev : Event) : Prop :=
  match ev with PtSend _ => False | PtCommand c _ _ => ~ is_stop_cmd c | _ => True end.
Definition is_recv (ev : Event) : bool := match ev with PtRecv => true | _ => false end.

Lemma failed_run (a : Task) ev evs : step_failed (step a ev) -> engine_failed (run a (ev :: evs)).
Proof. intros Hf. cbn [work_proc]. apply failed_ends in Hf as Hf'. by destruct (step a ev). Qed.

Lemma drains (a : Task) evs : p_open a = false -> ~ is_stop_cmd (work_cmd (p_ctrl a)) ->
  Forall drain_event evs -> (length (p_queue a) < length (List.filter is_recv evs))%nat ->
  engine_failed (run a evs) \/ exists a' : Task, run a evs = WReturned a' /\ p_queue a' = [].
Proof.
  intros Ho Hc Hevs. revert a Ho Hc. induction Hevs as [|ev evs He Hevs IH]; intros a Ho Hc Hn; [cbn in Hn; lia|].
  assert (forall (c : TaskController) n1 n2, ~ is_stop_cmd (work_cmd c) -> is_stop c n1 n2 = false) as Hns.
  { intros c n1 n2 H'. destruct (is_stop c n1 n2) eqn:Es; [|done]. by apply stops_by_command in Es. }
  destruct ev as [b| | |cmd n1 n2|now n1 n2|]; [done|..].
  - cbn [work_proc]. by apply IH.
  - destruct (p_queue a) as [|b q] eqn:Hq.
    + cbn [work_proc parser_step]. rewrite Hq, Ho. destruct (break_cases a) as [?|(a' & -> & Ha')]; [by left|].
      right. exists a'. by rewrite Ha'.
    + destruct (recv_cases a b q Hq) as [Hf|(a' & Ea & Hq' & Ho' & Hc')]; [left; by apply failed_run|].
      cbn [work_proc]. rewrite Ea. apply IH; [congruence|congruence|]. rewrite Hq'. cbn in Hn. lia.
  - cbn [work_proc parser_step]. cbn in He. cbn [p_ctrl set_pctrl]. rewrite Hns by done. by apply IH.
  - cbn [work_proc parser_step p_ctrl set_pctrl].
    assert (work_cmd (rec_task_idle (p_ctrl a) now) = work_cmd (p_ctrl a)) as Hi
      by (unfold rec_task_idle; by destruct (last_miss _)).
    rewrite Hns by (by rewrite Hi). apply IH; [done| |done]. cbn [p_ctrl set_pctrl]. by rewrite Hi.
  - destruct (stat_cases a) as [Hf|(a' & Ea & Hq' & Ho' & Hc')]; [left; by apply failed_run|].
    cbn [work_proc]. rewrite Ea. apply IH; [congruence|congruence|]. by rewrite Hq'.
Qed.

(** What may happen to a worker that is sent batches but takes none. *)
Definition quiet_event (ev : Event) : Prop :=
  match ev with PtSend _ | PtIdle _ _ _ | PtStat => True | _ => False end.

(** The worker is told to end after [ms] milliseconds of idling and idles since [m]. *)
Record idling (ms m : Z) (a : Task) : Prop := {
  id_cmd : work_cmd (p_ctrl a) = Stop (Timeout_ ms);
  id_since : last_miss (p_ctrl a) = Some m;
}.

Definition kept (a a' : Task) : Prop := exists more, p_queue a' = p_queue a ++ more.

Lemma kept_refl a : kept a a.
Proof. exists []. by rewrite app_nil_r. Qed.

Lemma queue_kept_trans a b c : kept a b -> kept b c -> kept a c.
Proof. intros [k Hk] [l Hl]. exists (k ++ l). by rewrite Hl, Hk, app_assoc. Qed.

Lemma break_kept (a0 a : Task) : kept a0 a ->
  engine_failed (work_end (E := E) (after (be_send_stat (p_engine a)) a PGo)) \/
  exists a' : Task, work_end (E := E) (after (be_send_stat (p_engine a)) a PGo) = WReturned a' /\ kept a0 a'.
Proof.
  intros Hk. destruct (break_cases a) as [?|(a' & -> & Hq)]; [by left|right]. exists a'. split; [done|].
  eapply queue_kept_trans; [exact Hk|]. exists []. by rewrite Hq, app_nil_r.
Qed.

Lemma quiet_step ms m (a : Task) ev : p_open a = true -> idling ms m a -> quiet_event ev ->
  step_failed (step a ev) \/
  exists a' : Task, kept a a' /\ (step a ev = PGo a' /\ p_open a' = true /\ idling ms m a' \/ step a ev = PBreak a').
Proof.
  intros Ho [Hc Hm] Hq. destruct ev as [b| | |cmd n1 n2|now n1 n2|]; try done.
  - right. cbn [parser_step]. rewrite Ho. exists (set_queue a (p_queue a ++ [b]) true). split; [by exists [b]|]. left. by split_and!.
  - right. cbn [parser_step]. unfold rec_task_idle. rewrite Hm.
    replace (set_pctrl a (p_ctrl a)) with a by (by destruct a).
    exists a. split; [apply kept_refl|]. destruct (is_stop _ n1 n2); [by right|left; by split_and!].
  - destruct (stat_cases a) as [?|(a' & E1 & Hq' & Ho' & Hc')]; [by left|right].
    exists a'. split; [exists []; by rewrite Hq', app_nil_r|]. left. split_and!; [done|congruence|split; congruence].
Qed.

Lemma idling_ends ms m (a : Task) evs u u1 u2 rest :
  p_open a = true -> idling ms m a -> 0 <= ms -> Forall quiet_event evs -> ms * 1000000 < u2 - m ->
  engine_failed (run a (evs ++ PtIdle u u1 u2 :: rest)) \/
  exists a' : Task, run a (evs ++ PtIdle u u1 u2 :: rest) = WReturned a' /\ kept a a'.
Proof.
  intros Ho Hi Hms Hevs Hu. revert a Ho Hi. induction Hevs as [|ev evs Hev Hevs IH]; intros a Ho Hi; cbn [app].
  - destruct Hi as [Hc Hm]. cbn [work_proc parser_step]. unfold rec_task_idle. rewrite Hm.
    replace (is_stop (p_ctrl (set_pctrl a (p_ctrl a))) u1 u2) with true; [apply break_kept; exists []; by rewrite app_nil_r|].
    unfold is_stop, get_miss_time. cbn [p_ctrl set_pctrl]. rewrite Hc, Hm. cbn. lia.
  - destruct (quiet_step ms m a ev Ho Hi Hev) as [Hf|(a1 & Hk & [(E1 & Ho1 & Hi1)|E1])]; [left; by apply failed_run|..];
      cbn [work_proc]; rewrite E1; [|by apply break_kept].
    destruct (IH a1 Ho1 Hi1) as [?|(a2 & E2 & Hk2)]; [by left|right]. exists a2. split; [done|]. by eapply queue_kept_trans.
Qed.

Lemma take_batch_ok ok `{!EngineLaws ok} b d c : ok d -> ok (take_batch OPTIMIZE_TIMES b (d, c)).1.
Proof.
  unfold take_batch. revert d c. induction b as [|x b IH]; intros d c Hd; cbn [foldl]; [done|].
  change (take_event OPTIMIZE_TIMES (d, c)) with ((take_event OPTIMIZE_TIMES (d, c)).1, rec_task_suc c).
  apply IH. unfold take_event. cbn. case_match; [by apply el_opt|done].
Qed.

(** A worker on an engine in service runs on or returns. *)
Lemma step_ok ok `{!EngineLaws ok} (a : Task) ev : ok (p_engine a) ->
  match step a ev with PGo a' | PBreak a' => ok (p_engine a') | PDisabled => True | _ => False end.
Proof.
  intros Hok. destruct ev as [b| | |cmd n1 n2|now n1 n2|]; cbn [parser_step].
  - by destruct (p_open a).
  - done.
  - destruct (p_queue a) as [|b q] eqn:Hq; [by destruct (p_open a)|]. unfold recv_batch. cbn [p_engine p_ctrl set_queue].
    pose proof (take_batch_ok ok b (p_engine a) (p_ctrl a) Hok) as Hd.
    destruct (take_batch OPTIMIZE_TIMES b (p_engine a, p_ctrl a)) as [d c]. cbn [fst] in Hd. destruct skip; [done|].
    destruct (el_proc (map preprocess b) d Hd) as (d' & -> & Hd'). done.
  - by destruct (is_stop _ n1 n2).
  - by destruct (is_stop _ n1 n2).
  - destruct (p_need_stat a); [|done]. cbn [p_engine set_need_stat].
    destruct (el_stat (p_engine a) Hok) as (d' & E1 & Hd'). unfold after. by rewrite E1.
Qed.

Lemma run_ok ok `{!EngineLaws ok} (a : Task) evs : ok (p_engine a) ->
  match run a evs with WInLoop _ | WReturned _ | WStuck => True | _ => False end.
Proof.
  revert a. induction evs as [|ev evs IH]; intros a Hok; [done|]. cbn [work_proc].
  pose proof (step_ok ok a ev Hok) as Hs. destruct (step a ev) as [a'|a'|e a'| |a'|]; try done.
  - by apply IH.
  - destruct (el_stat (p_engine a') Hs) as (d' & E1 & _). unfold after. by rewrite E1.
Qed.
End Ends.

(** ** The properties of the loop *)

(** Every batch sent to a worker is accounted for.  Processed ones have been
    through the engine once each, in the order they were sent, with the hooks of
    their events applied; the others are still queued, or came later, and at most
    one is lost, by a worker that ends with an error or a panic.  The worker
    counts the events it took, modulo 2^64.  It reports nothing while it runs and
    once at its end: [Drained] exactly when it returned.  It returns when its
    senders are gone and the queue is empty, or by a stop command. *)
Theorem parser_accounts_for_batches d0 now (b : ReloadDrainBus) name evs :
  let report o := [mkEvent (bus_epoch b) Parser name o] in
  match run (ActorWork_new d0 now (reporter b Parser name)) evs with
  | WInLoop a => exists done, sends evs = done ++ p_queue a /\ path done d0 (p_engine a) /\
      total_suc_cnt (p_ctrl a) = event_count done mod 2 ^ 64 /\ p_reported a = []
  | WReturned a => exists done rest, sends evs = done ++ p_queue a ++ rest /\ path done d0 (p_engine a) /\
      total_suc_cnt (p_ctrl a) = event_count done mod 2 ^ 64 /\
      (p_open a = false /\ p_queue a = [] \/ exists c, work_cmd (p_ctrl a) = Stop c) /\
      p_reported a = report Drained
  | WErrored _ a | WPanicked a => exists done lost rest, sends evs = done ++ lost ++ p_queue a ++ rest /\
      (length lost <= 1)%nat /\ (exists d, path done d0 d) /\ p_reported a = report Aborted
  | WWaiting | WStuck => True
  end.
Proof.
  assert (books d0 (reporter b Parser name) [] [] (ActorWork_new d0 now (reporter b Parser name))) as Hb
    by (split; [done|apply path_nil|done|done]).
  pose proof (run_keeps_books _ _ _ _ _ evs Hb) as H. cbn [app] in H.
  destruct (run _ evs) as [a|a|e a| |a|]; cbn [run_books] in H; try done.
  destruct H as [done [Hs Hp Hc [Hr _]]]. by exists done.
Qed.

(** C7: A worker, skipping the parsing or not, whose senders are gone and that
    gets no stop command ends: as
    soon as its loop has taken one more receive than it has batches queued, it
    has returned with nothing queued, whatever ticks come in between, unless a
    call of its engine failed, panicked or waits for ever.  A worker
    told to stop by a timeout, that takes no batch any more, ends too: once it
    has been idle for longer than
    the timeout it returns, and every batch queued then is left unparsed, with
    the same reservation.  On an engine whose calls all succeed no worker, after
    whatever events, ends or hangs by its engine. *)
Theorem parser_worker_ends (skip : bool) (a : Task) :
  let run := work_proc (D := D) (E := E) (SE := SE) preprocess OPTIMIZE_TIMES skip in
  (forall evs, p_open a = false -> (forall c, work_cmd (p_ctrl a) <> Stop c) -> Forall drain_event evs ->
     (length (p_queue a) < length (List.filter is_recv evs))%nat ->
     engine_failed (run a evs) \/ exists a' : Task, run a evs = WReturned a' /\ p_queue a' = []) /\
  (forall ms t t1 t2 evs u u1 u2 rest, p_open a = true -> work_cmd (p_ctrl a) = Stop (Timeout_ ms) -> 0 <= ms ->
     Forall quiet_event evs -> ms * 1000000 < u2 - default t (last_miss (p_ctrl a)) ->
     let m := run a (PtIdle t t1 t2 :: evs ++ PtIdle u u1 u2 :: rest) in
     engine_failed m \/ exists a' : Task, m = WReturned a' /\ exists more, p_queue a' = p_queue a ++ more) /\
  (forall ok evs, EngineLaws ok -> ok (p_engine a) -> ~ engine_failed (run a evs)).
Proof.
  cbn zeta. split; [|split].
  - intros evs Ho Hc. apply (drains skip a evs Ho). intros [c Hs]. by apply (Hc c).
  - intros ms t t1 t2 evs u u1 u2 rest Ho Hc Hms Hevs Hu. cbn [work_proc parser_step].
    set (a1 := set_pctrl a (rec_task_idle (p_ctrl a) t)).
    assert (idling ms (default t (last_miss (p_ctrl a))) a1) as Hi
      by (subst a1; unfold rec_task_idle; destruct (last_miss (p_ctrl a)) eqn:El; split; cbn; by rewrite ?El).
    destruct (is_stop (p_ctrl a1) t1 t2); [apply (break_kept a a1); exists []; by rewrite app_nil_r|].
    exact (idling_ends skip ms _ a1 evs u u1 u2 rest Ho Hi Hms Hevs Hu).
  - intros ok evs HL Hok Hf. pose proof (run_ok skip ok a evs Hok) as Hr. by destruct (work_proc _ _ _ a evs).
Qed.
End Loop.

(** ** The workers of the parse engine *)
Section Workers.
Context {Ev An E Pg T Hk W : Type} `{DataLaws F R} `{!RecordApi F R} `{!TagsApi T} `{!WplApi Ev An E Pg R}.
Context `{!Ends (R := R) W} {L : Coll.LruApi Dim.StatDim Slice.SliceRecord} {C : Coll.CollApi}.
Context `{!EndsLaws} `{!ProgressLaws}.
Variable md5_hex : RawData -> string.
Variable mode : RobustnessMode.
Variable time_text : Z -> string.
Variable hm_iter : gmap string (list (SinkRecUnit (R := R))) -> list (string * list (SinkRecUnit (R := R))).
Variable batch_clk : nat -> nat -> nat -> nat -> nat -> Measure.Clock.
Variable batch_now : nat -> nat -> Z.
Variable stat_clk : nat -> nat -> nat -> Measure.Clock.
Variable stat_time : nat -> nat -> Z.
Variable mon_ts : nat -> nat -> nat -> Collectors.TrySend.
Variable fuel : nat.
Variable setting : ParseOption.
Variable run_hook : Hk -> SourceEvent T Hk -> SourceEvent T Hk.
Variable infra : InfraSinkAgent.
Variable nm nr : nat.

Notation Pipeline := (WplPipeline (Ev := Ev) (An := An)).
Notation Unit := (SinkRecUnit (R := R)).
Notation Parser := (ActParser (Ev := Ev) (An := An) (W := W)).
Notation Batch := (list (SourceEvent T Hk)).

#[local] Instance worker_engine : BatchEngine Parser E (SourceEvent T Hk) :=
  engine_batches md5_hex mode time_text hm_iter batch_clk batch_now stat_clk stat_time mon_ts fuel false setting.

(** The sinks the workers send to are open and have room after a while, and
    the monitor takes the statistics. *)
Hypothesis Hopen : always_open (R := R) (W := W).
Hypothesis Hroom : forall n us w, accepts (R := R) (W := W) fuel n us w = true.
Hypothesis Hiter : forall g, hm_iter g ≡ₚ map_to_list g.
Hypothesis Hmiss : end_point (i_miss infra) = Channel nm.
Hypothesis Hres : end_point (i_residue infra) = Channel nr.
Hypothesis Hmon : forall c i k, mon_ts c i k <> Collectors.Closed.

(** Rules that still are those of [ps]: each pipeline of [ps] once, whatever
    the order, with its evaluator, its outputs, its name and its flags; only the
    statistics and the hit count may differ ([kin]).  The late rules are last. *)
Record rules_of (ps m : list Pipeline) : Prop := {
  ro_wf : engine_wf m;
  ro_out : channel_outputs m;
  ro_layers : layered m;
  ro_same : exists l, l ≡ₚ ps /\ Forall2 kin l m;
}.

Lemma kin_outputs (m m' : list Pipeline) : Forall2 kin m m' -> channel_outputs m -> channel_outputs m'.
Proof.
  unfold channel_outputs. induction 1 as [|p p' m m' (st & n & -> & _) _ IH]; [constructor|].
  intros [Hp Hm]%Forall_cons. constructor; [done|by apply IH].
Qed.

(** Reordering the rules keeps them the same. *)
Lemma kin_reorder ps (m m' : list Pipeline) : m ≡ₚ m' -> (exists l, l ≡ₚ ps /\ Forall2 kin l m) ->
  exists l, l ≡ₚ ps /\ Forall2 kin l m'.
Proof.
  intros Hm (l & Hl & HK). apply Forall2_flip in HK.
  destruct (Permutation_Forall2 Hm HK) as (l' & Hl' & HK').
  exists l'. split; [by rewrite <- Hl'|by apply Forall2_flip].
Qed.

Lemma kin_self (m : list Pipeline) : engine_wf m -> Forall2 kin m m.
Proof.
  induction 1 as [|p m Hp _ IH]; [constructor|]. constructor; [|done].
  exists (stat_ext p), (hit_cnt p). split; [by destruct p|done].
Qed.

Lemma kin_rules ps (m m' : list Pipeline) : Forall2 kin m m' -> rules_of ps m -> rules_of ps m'.
Proof.
  intros Hkin [W1 W2 W3 (l & Hl & HK)]. split; [by eapply kin_wf|by eapply kin_outputs|by eapply kin_layered|].
  exists l. split; [done|]. by eapply Forall2_kin_trans.
Qed.

Lemma optimized_rules ps (m : list Pipeline) : rules_of ps m -> rules_of ps (optimized m).
Proof.
  intros [W1 W2 W3 W4]. split; [by apply optimized_wf| |by apply optimized_layered|];
    destruct (optimized_sorts m) as (l & Hl & _ & ->).
  - unfold channel_outputs in *. rewrite <- Hl in W2. apply Forall_map. exact W2.
  - symmetry in Hl. destruct (kin_reorder ps m l Hl W4) as (k & HK & Hkin). exists k. split; [done|].
    eapply Forall2_kin_trans; [exact Hkin|]. unfold engine_wf in W1. rewrite Hl in W1. clear -W1.
    induction W1 as [|p l Hp _ IH]; [constructor|]. constructor; [|done].
    exists (stat_ext p), 0. split; [by destruct p|done].
Qed.

Lemma new_rules ps : engine_wf ps -> channel_outputs ps -> rules_of ps (MultiParser_new ps).
Proof.
  intros Hw Ho. assert (MultiParser_new ps ≡ₚ ps) as Hp by apply stable_sort_perm.
  assert (engine_wf (MultiParser_new ps)) as Hw' by (unfold engine_wf in *; by rewrite Hp).
  split; [done| |apply new_layered|].
  - unfold channel_outputs in *. by rewrite Hp.
  - exists (MultiParser_new ps). split; [done|by apply kin_self].
Qed.

Definition in_service (ps : list Pipeline) (a : Parser) : Prop :=
  rules_of ps (pipelines (ap_engine a)) /\ infra_agent (ap_engine a) = infra.

(** What a batch leaves in the channels: every event got the answer some order
    of the rules gives it, late rules last; misses, rests and records went where
    [proc_batch_spec] says. *)
Definition delivered (ps : list Pipeline) (b : Batch) (d : nat -> list Unit) : Prop :=
  exists now m rs (groups : gmap string (list Unit)) routed m',
    rules_of ps m /\ Forall2 kin m m' /\
    batch_answers md5_hex setting now m 0 b rs /\
    (forall key, default [] (groups !! key) = concat (zip_with (units_for key) b rs)) /\
    Forall2 (routed_to m') (List.filter (routable m') (hm_iter groups)) routed /\
    forall k, d k = at_chan nm k (raw_units (miss_texts time_text (concat (zip_with result_miss b rs))))
      ++ at_chan nr k (raw_units (concat (zip_with result_residue b rs)))
      ++ arrived routed k.

Lemma proc_batch_step ps b (a : Parser) : in_service ps a ->
  exists a' d, be_proc_batch b a = (AOk, a') /\ in_service ps a' /\ delivered ps b d /\ sent_more (ap_net a) (ap_net a') d.
Proof.
  intros [Hr Hi]. pose proof Hr as [W1 W2 W3 W4].
  destruct (proc_batch_spec md5_hex mode time_text hm_iter (batch_clk (ap_calls a)) (batch_now (ap_calls a)) fuel b setting
    (ap_engine a) (ap_net a) W1 Hopen W2 Hiter nm nr ltac:(by rewrite Hi) ltac:(by rewrite Hi) Hroom)
    as (rs & groups & routed & s' & e' & E1 & Hrs & Hg & Hroute & Hkin & Hs).
  assert (infra_agent e' = infra_agent (ap_engine a)) as Hie.
  { revert E1. unfold proc_batch. destruct b as [|x b]; [by intros [= _ <-]|].
    destruct (batch_parse_package _ _ _ _ _ _) as [[dd mm]|]; by intros [= _ <-]. }
  cbn [be_proc_batch worker_engine engine_batches]. unfold ap_proc_batch. rewrite E1.
  eexists _, _. split; [reflexivity|]. split; [|split; [|exact Hs]].
  - split; cbn; [by eapply kin_rules|congruence].
  - exists (batch_now (ap_calls a)), (pipelines (ap_engine a)), rs, groups, routed, (pipelines e'). by split_and!.
Qed.

Lemma pipeline_stat_spec clk ts t (p : Pipeline) : mc_wf (stat_ext p) -> (forall i, ts i <> Collectors.Closed) ->
  exists out full p', pipeline_send_stat clk ts t p = Ret (out, full, true, p') /\ kin p p'.
Proof.
  intros Hw Hts. unfold pipeline_send_stat.
  assert (exists st, (if Collectors.has_pending_data (stat_ext p) then Ret (stat_ext p)
    else if stat_need_pkg_rule p then
      Collectors.touch_task_record field_text clk (stat_ext p) (wpl_key p) (pkg_rule_record p)
    else Ret (Collectors.touch_task_unit clk (stat_ext p) (wpl_key p))) = Ret st /\ mc_wf st) as (st & -> & Hst).
  { destruct (Collectors.has_pending_data _); [by eexists|]. destruct (stat_need_pkg_rule p).
    - by apply touch_record_wf.
    - eexists. split; [done|]. by apply touch_unit_wf. }
  cbn [obind]. destruct (send_stat_wf ts t st Hst Hts) as (out & full & st' & -> & Hst').
  do 3 eexists. split; [done|]. exists st', (hit_cnt p). split; [by destruct p|done].
Qed.

Lemma parser_stat_spec clk ts t i (m : list Pipeline) : engine_wf m -> (forall i k, ts i k <> Collectors.Closed) ->
  exists out m', parser_send_stat clk ts t i m = Ret (out, true, m') /\ Forall2 kin m m'.
Proof.
  intros Hw Hts. revert i. induction Hw as [|p m Hp Hm IH]; intros i; cbn [parser_send_stat]; [by do 2 eexists|].
  destruct (pipeline_stat_spec (clk i) (ts i) (t i) p Hp (Hts i)) as (out & full & p' & -> & Hk'). cbn [obind].
  destruct (IH (S i)) as (out' & m' & -> & Hm'). cbn [obind]. do 2 eexists. split; [done|]. by constructor.
Qed.

#[local] Instance worker_laws ps : EngineLaws (SE := SourceEvent T Hk) (E := E) (in_service ps).
Proof.
  split.
  - intros b a Ha. destruct (proc_batch_step ps b a Ha) as (a' & d & E1 & Ha' & _). by exists a'.
  - intros a [Hr Hi]. split; [by apply optimized_rules|done].
  - intros a [Hr Hi]. cbn [be_send_stat worker_engine engine_batches]. unfold ap_send_stat.
    destruct (parser_stat_spec (stat_clk (ap_calls a)) (mon_ts (ap_calls a)) (stat_time (ap_calls a)) 0
      (pipelines (ap_engine a)) (ro_wf _ _ Hr) (Hmon _)) as (out & m' & -> & Hk').
    eexists. split; [done|]. split; cbn; [by eapply kin_rules|done].
Qed.

Variable OPTIMIZE_TIMES : Z.
Notation preprocess := (run_preproc run_hook).
Notation run := (work_proc (D := Parser) (E := E) preprocess OPTIMIZE_TIMES false).

Lemma path_delivers ps done (a a' : Parser) : path (E := E) preprocess done a a' -> in_service ps a ->
  exists ds, in_service ps a' /\ Forall2 (delivered ps) (map (map preprocess) done) ds /\
    sent_more (ap_net a) (ap_net a') (fun k => concat (map (fun d => d k) ds)).
Proof.
  intros Hp Ha. induction Hp as [a|bs a a' Hp IH|bs a a' r a2 Hp IH Hst|bs b a a' a2 Hp IH Hb].
  - exists []. split; [done|]. split; [constructor|]. intros k. by rewrite app_nil_r.
  - destruct (IH Ha) as (ds & Ha' & Hds & Hs). exists ds. split; [by apply (el_opt (E := E) (SE := SourceEvent T Hk))|done].
  - destruct (IH Ha) as (ds & Ha' & Hds & Hs). exists ds.
    destruct (el_stat (E := E) (SE := SourceEvent T Hk) a' Ha') as (a3 & E3 & Ha3). rewrite Hst in E3. injection E3 as _ <-.
    split; [done|]. split; [done|]. revert Hst. cbn. unfold ap_send_stat.
    destruct (parser_send_stat _ _ _ _ _) as [[[out ok] m]|]; by intros [= _ <-].
  - destruct (IH Ha) as (ds & Ha' & Hds & Hs).
    destruct (proc_batch_step ps (map preprocess b) a' Ha') as (a3 & d & E3 & Ha3 & Hd & Hs3).
    rewrite Hb in E3. injection E3 as <-. exists (ds ++ [d]). split; [done|]. split.
    + rewrite map_app. apply Forall2_app; [done|]. by constructor.
    + intros k. rewrite map_app, concat_app. cbn. rewrite app_nil_r, (Hs3 k), (Hs k). by rewrite <- app_assoc.
Qed.

End Workers.
