(* ===== verification/ParserActorInst.v ===== *)
(** Concrete workers: a worker over an engine that logs its batches, and one
    over the parse engine of [WplEngineInst]; the theorems of [ParserActorLaws]
    hold on them. *)
From Stdlib Require Import ZArith Lia String Ascii.
From stdpp Require Import prelude strings gmap pretty.
From S2P Require Import Prelude F64 Text Utf8 Actor ExitPolicy DataModel ErrPolicy ReloadDrain Picker SinkRuntime Tags Stats StatsLaws Metrics MetricsLaws Dispatcher WplEngine WplEngineLaws WplEngineInst ParserActor ParserActorLaws.
Local Open Scope string_scope.
Local Open Scope list_scope.
Local Open Scope Z_scope.

(** ** An engine that logs *)

#[local] Instance log_engine : BatchEngine (list (list nat)) unit nat := {|
  be_proc_batch b d := (AOk, d ++ [b]); be_optimized d := d; be_send_stat d := (AOk, d)
|}.

#[local] Instance log_laws : EngineLaws (E := unit) (SE := nat) (fun _ : list (list nat) => True).
Proof. split; [intros b d _; by eexists|done|intros d _; by eexists]. Defined.

Definition log_run := work_proc (D := list (list nat)) (E := unit) (fun n => n) 1000 false.

Definition log_task (c : ActorCtrlCmd) (open : bool) (q : list (list nat)) : ParserTask (D := list (list nat)) (SE := nat) :=
  mkParser [] q open (update_cmd (TaskController_new "lang" None 0) c) false (reporter (bus_new 1) Parser "w") [].

(** An immediate stop leaves the queue unparsed, and the worker still reports
    [Drained]. *)
Example immediate_stop_leaves_queue :
  log_run (log_task (Execute All) true [[1%nat]; [2%nat]]) [PtCommand (Stop Immediate) 0 0] =
  WReturned (mkParser [] [[1%nat]; [2%nat]] true (update_cmd (TaskController_new "lang" None 0) (Stop Immediate)) false
    (mkReporter None) [mkEvent 1 Parser "w" Drained]).
Proof. reflexivity. Qed.

Lemma parser_worker_ends_witness :
  (exists a', log_run (log_task (Execute All) false [[1%nat]; [2%nat]]) [PtRecv; PtStat; PtRecv; PtIdle 5 5 5; PtRecv]
     = WReturned a' /\ p_queue a' = []) /\
  exists a', log_run (log_task (Stop (Timeout_ 200)) true [[1%nat]]) [PtIdle 0 0 0; PtStat; PtIdle 300000000 300000000 300000000]
     = WReturned a' /\ exists more, p_queue a' = [[1%nat]] ++ more.
Proof.
  split.
  - destruct (parser_worker_ends (E := unit) (fun n => n) 1000 false (log_task (Execute All) false [[1%nat]; [2%nat]])) as (H & _ & Hok).
    destruct (H [PtRecv; PtStat; PtRecv; PtIdle 5 5 5; PtRecv]) as [Hf|Hr];
      [reflexivity|discriminate|repeat constructor|cbn; lia| |exact Hr].
    exfalso. revert Hf. apply (Hok (fun _ => True)); [exact log_laws|exact I].
  - destruct (parser_worker_ends (E := unit) (fun n => n) 1000 false (log_task (Stop (Timeout_ 200)) true [[1%nat]])) as (_ & H & Hok).
    destruct (H 200 0 0 0 [PtStat] 300000000 300000000 300000000 []) as [Hf|Hr];
      [reflexivity..|lia|repeat constructor|cbn; lia| |exact Hr].
    exfalso. revert Hf. apply (Hok (fun _ => True)); [exact log_laws|exact I].
Defined.

(** ** The parse engine *)

#[local] Existing Instances list_types list_api list_laws.
#[local] Existing Instance Dim.StatDim_eq_dec.
#[local] Existing Instances demo_lru demo_coll demo_record_api demo_tags demo_wpl demo_progress_laws all_open_laws.

Definition no_clk (c a b d e : nat) : Measure.Clock := Measure.mkClock 0 0 0.

Definition demo_worker : BatchEngine (ActParser (Ev := DemoRule) (An := unit) (W := DemoWorld)) WparseReason (SourceEvent (list (string * string)) unit) :=
  worker_engine (Ends0 := all_open) demo_md5 Normal (fun _ => "now") demo_iter no_clk (fun _ _ => 0) (fun _ _ _ => Measure.mkClock 0 0 0)
    (fun _ _ => 0) (fun _ _ _ => Collectors.Sent) 1 demo_option.

(** A worker sent a batch with a record, a miss, a blank event and a rest, then
    left by its senders. *)
Definition demo_events : list ParserEvent := [PtSend demo_batch; PtSendersGone; PtRecv; PtStat; PtRecv].

Definition demo_actor :=
  ActorWork_new (SE := SourceEvent (list (string * string)) unit) (from_all_model (demo_rules (Channel 3)) (demo_infra 1 2) demo_net) 0 (mkReporter None).

Lemma demo_outputs : channel_outputs (demo_rules (Channel 3)).
Proof.
  assert (forall i key r, output (demo_rule i key r (Channel 3)) <> [] /\
    Forall (fun a => exists n, end_point a = Channel n) (output (demo_rule i key r (Channel 3)))) as Hr.
  { intros i key r. split; [discriminate|]. apply Forall_cons. split; [by exists 3%nat|by apply Forall_nil]. }
  apply Forall_cons. split; [apply Hr|]. apply Forall_cons. split; [apply Hr|by apply Forall_nil].
Qed.

