(* ===== verification/SinkActor.v ===== *)
(** The tasks that run the sinks ([src/src/runtime/sink/{drain,act_sink}.rs]):
    the drain state, the loop of a sink group ([SinkWork::async_proc]) and of the
    five infrastructure groups ([async_proc_infra]).

    A loop is a function of the events its [select!] takes, in the order it takes
    them: what a channel's [recv] answered, a timer tick.  A branch whose guard
    is off takes no event ([Disabled]).  What the loops ask of a group of sinks is
    the interface [SinkGroup]; the dispatcher of [Dispatcher] implements it
    ([dispatcher_group]). *)
From Stdlib Require Import ZArith Lia String.
From stdpp Require Import base gmap list strings.
From S2P Require Import Prelude RateLimit Actor ExitPolicy ErrPolicy ReloadDrain.
Local Open Scope string_scope.
Local Open Scope list_scope.
Local Open Scope Z_scope.

(** ** [drain.rs] *)
Module Drain.

Record DrainState := mkDrain { draining : bool; open_channels : Z }.

Inductive DrainEvent := Pending | AllClosed | Drained.

Definition DrainState_new (n : Z) : DrainState := mkDrain false n.
Definition is_draining (d : DrainState) : bool := draining d.
Definition start_draining (d : DrainState) : DrainState := mkDrain true (open_channels d).

Definition channel_closed_is_drained (d : DrainState) : DrainEvent * DrainState :=
  let d := if 0 <? open_channels d then mkDrain (draining d) (open_channels d - 1) else d in
  ((if open_channels d =? 0 then (if draining d then Drained else AllClosed) else Pending), d).

End Drain.
Import Drain.

(** ** What the loops ask of a group of sinks

    [P] is a package, [H] a handle back from repair; an error is a
    [SinkReason]. *)
Class SinkGroup (D P H : Type) := {
  (** [group_sink_package] or [group_sink_batch_direct]: the count processed *)
  sg_ingest : P -> D -> (Z + SinkReason) * D;
  sg_record_ingress : P -> D -> D;
  sg_freeze_all : D -> D;
  sg_active_one : string -> D -> D;
  sg_close_channel : D -> D;
  (** the handle comes back when no sink takes it *)
  sg_proc_fix : H -> D -> (option H + SinkReason) * D;
  (** over all sinks, until the first error *)
  sg_flush : D -> option SinkReason * D;
  sg_send_stat : D -> option SinkReason * D;
  sg_send_ingress_stat : D -> option SinkReason * D;
  sg_proc_end : D -> option SinkReason * D;
}.

Section Actor.
Context {D P H : Type} `{SinkGroup D P H}.

(** What a step leaves: the loop goes on, is left by [break], or the task
    returns an error; [Disabled] is no step. *)
Inductive Flow (A : Type) :=
  | Go (a : A)
  | Break (a : A)
  | Fail (e : SinkReason) (a : A)
  | Disabled.

(** ** [SinkWork::async_proc] *)
Inductive Event :=
  | EvPackage (pkg : P) (now : Z)            (* the data channel had a package *)
  | EvClosed                                 (* the data channel is closed and empty *)
  | EvCommand (cmd : ActorCtrlCmd) (now1 now2 : Z)
  | EvCommandClosed
  | EvFix (h : H)
  | EvStatTick
  | EvFlushTick.

Record SinkTask := mkTask {
  group : D;
  run_ctrl : TaskController;
  drain_state : DrainState;
  need_send_stat : bool;
  drain_reporter : ReloadDrainReporter;
  reported : list ReloadDrainEvent;
}.

Definition set_group (a : SinkTask) (d : D) : SinkTask :=
  mkTask d (run_ctrl a) (drain_state a) (need_send_stat a) (drain_reporter a) (reported a).
Definition set_ctrl (a : SinkTask) (c : TaskController) : SinkTask :=
  mkTask (group a) c (drain_state a) (need_send_stat a) (drain_reporter a) (reported a).
Definition set_drain (a : SinkTask) (s : DrainState) : SinkTask :=
  mkTask (group a) (run_ctrl a) s (need_send_stat a) (drain_reporter a) (reported a).
Definition set_need (a : SinkTask) (b : bool) : SinkTask :=
  mkTask (group a) (run_ctrl a) (drain_state a) b (drain_reporter a) (reported a).

(** [drain_reporter.notify()]. *)
Definition notify_drained (a : SinkTask) : SinkTask :=
  let '(evs, r) := notify (drain_reporter a) in
  mkTask (group a) (run_ctrl a) (drain_state a) (need_send_stat a) r (reported a ++ evs).

Definition SinkTask_new (d : D) (name : string) (now : Z) (r : ReloadDrainReporter) : SinkTask :=
  mkTask d (TaskController_new ("work-sink:" +:+ name) None now) (DrainState_new 1) false r [].

(** A call on the group: its error ends the task. *)
Definition call (f : D -> option SinkReason * D) (a : SinkTask) : Flow SinkTask :=
  match f (group a) with
  | (Some e, d) => Fail _ e (set_group a d)
  | (None, d) => Go _ (set_group a d)
  end.

Definition bind_flow {A : Type} (m : Flow A) (k : A -> Flow A) : Flow A :=
  match m with Go _ a => k a | m => m end.

(** Entering the drain: commands and fixes are no longer taken, the channel is
    closed on this side. *)
Definition enter_draining (a : SinkTask) : SinkTask :=
  set_group (set_drain a (start_draining (drain_state a))) (sg_close_channel (group a)).

Definition task_step (a : SinkTask) (ev : Event) : Flow SinkTask :=
  match ev with
  | EvPackage pkg now =>
      match sg_ingest pkg (sg_record_ingress pkg (group a)) with
      | (inr e, d) => Fail _ e (set_group a d)
      | (inl processed, d) =>
          let c := if 0 <? processed then rec_task_suc_cnt (run_ctrl a) processed
                   else rec_task_idle (run_ctrl a) now in
          Go _ (set_need (set_ctrl (set_group a d) c) true)
      end
  | EvClosed =>
      let '(ev, s) := channel_closed_is_drained (drain_state a) in
      let a := set_drain a s in
      match ev with
      | Drained | AllClosed => Break _ (notify_drained a)
      | Pending => Go _ a
      end
  | EvCommand cmd now1 now2 =>
      if is_draining (drain_state a) then Disabled _
      else
        let a := match cmd with
                 | Execute (One target) => set_group a (sg_active_one target (sg_freeze_all (group a)))
                 | _ => a
                 end in
        let a := set_ctrl a (update_cmd (run_ctrl a) cmd) in
        Go _ (if is_stop (run_ctrl a) now1 now2 then enter_draining a else a)
  | EvCommandClosed =>
      if is_draining (drain_state a) then Disabled _ else Go _ (enter_draining a)
  | EvFix h =>
      if is_draining (drain_state a) then Disabled _
      else match sg_proc_fix h (group a) with
           | (inr e, d) => Fail _ e (set_group a d)
           | (inl _, d) => Go _ (set_group a d)
           end
  | EvStatTick =>
      if need_send_stat a
      then bind_flow (call sg_send_stat (set_need a false)) (call sg_send_ingress_stat)
      else Go _ a
  | EvFlushTick => bind_flow (call sg_flush a) (fun a => Go _ (set_need a true))
  end.

(** After the loop: flush, the last statistics, the end of the sinks. *)
Definition task_end (a : SinkTask) : Flow SinkTask :=
  bind_flow (call sg_flush a) (fun a =>
  bind_flow (call sg_send_stat a) (fun a =>
  bind_flow (call sg_send_ingress_stat a) (fun a =>
  call sg_proc_end a))).

(** How the task stands after the events: still in its loop, returned [Ok] or
    an error, or asked to take a disabled branch.  An ended task drops its
    reporter. *)
Inductive Status := InLoop (a : SinkTask) | Returned (a : SinkTask) | Errored (e : SinkReason) (a : SinkTask) | Stuck.

Definition drop_reporter (a : SinkTask) : SinkTask :=
  mkTask (group a) (run_ctrl a) (drain_state a) (need_send_stat a) (mkReporter None)
    (reported a ++ drop (drain_reporter a)).

Definition finish_flow (m : Flow SinkTask) : Status :=
  match m with
  | Go _ a | Break _ a => Returned (drop_reporter a)
  | Fail _ e a => Errored e (drop_reporter a)
  | Disabled _ => Stuck
  end.

Fixpoint async_proc (a : SinkTask) (evs : list Event) : Status :=
  match evs with
  | [] => InLoop a
  | ev :: evs =>
      match task_step a ev with
      | Go _ a => async_proc a evs
      | Break _ a => finish_flow (task_end a)
      | Fail _ e a => Errored e (drop_reporter a)
      | Disabled _ => Stuck
      end
  end.

(** [sink_group_fix]: the handle goes from group to group until one takes it. *)
Fixpoint sink_group_fix (ds : list D) (h : H) : option SinkReason * list D :=
  match ds with
  | [] => (None, [])
  | d :: ds =>
      match sg_proc_fix h d with
      | (inr e, d) => (Some e, d :: ds)
      | (inl None, d) => (None, d :: ds)
      | (inl (Some h), d) => let '(e, ds) := sink_group_fix ds h in (e, d :: ds)
      end
  end.

(** ** [SinkWork::async_proc_infra]

    The five channels are a list: default, miss, residue, monitor, error. *)
Record InfraChannel := mkChannel { dispatcher : D; closed : bool }.

Record InfraTask := mkInfra {
  channels : list InfraChannel;
  i_ctrl : TaskController;
  i_drain : DrainState;
  i_need : bool;
  i_reporter : ReloadDrainReporter;
  i_reported : list ReloadDrainEvent;
}.

Inductive InfraEvent :=
  | InPackage (i : nat) (pkg : P) (now : Z)
  | InClosed (i : nat)
  | InCommand (cmd : ActorCtrlCmd) (now1 now2 : Z)
  | InCommandClosed
  | InFix (h : H)
  | InStatTick
  | InFlushTick.

Definition InfraTask_new (ds : list D) (now : Z) (r : ReloadDrainReporter) : InfraTask :=
  mkInfra ((fun d => mkChannel d false) <$> ds) (TaskController_new "infra sinks " None now)
    (DrainState_new (zlen ds)) false r [].

Definition set_channels (a : InfraTask) (l : list InfraChannel) : InfraTask :=
  mkInfra l (i_ctrl a) (i_drain a) (i_need a) (i_reporter a) (i_reported a).
Definition set_i_ctrl (a : InfraTask) (c : TaskController) : InfraTask :=
  mkInfra (channels a) c (i_drain a) (i_need a) (i_reporter a) (i_reported a).
Definition set_i_drain (a : InfraTask) (s : DrainState) : InfraTask :=
  mkInfra (channels a) (i_ctrl a) s (i_need a) (i_reporter a) (i_reported a).
Definition set_i_need (a : InfraTask) (b : bool) : InfraTask :=
  mkInfra (channels a) (i_ctrl a) (i_drain a) b (i_reporter a) (i_reported a).

Definition i_notify (a : InfraTask) : InfraTask :=
  let '(evs, r) := notify (i_reporter a) in
  mkInfra (channels a) (i_ctrl a) (i_drain a) (i_need a) r (i_reported a ++ evs).

Definition on_channel (f : D -> D) (c : InfraChannel) : InfraChannel := mkChannel (f (dispatcher c)) (closed c).

(** A call on every channel's group in turn, until the first error. *)
Fixpoint each_channel (f : D -> option SinkReason * D) (l : list InfraChannel)
    : option SinkReason * list InfraChannel :=
  match l with
  | [] => (None, [])
  | c :: l =>
      match f (dispatcher c) with
      | (Some e, d) => (Some e, mkChannel d (closed c) :: l)
      | (None, d) => let '(e, l) := each_channel f l in (e, mkChannel d (closed c) :: l)
      end
  end.

Definition i_call (f : D -> option SinkReason * D) (a : InfraTask) : Flow InfraTask :=
  match each_channel f (channels a) with
  | (Some e, l) => Fail _ e (set_channels a l)
  | (None, l) => Go _ (set_channels a l)
  end.

(** The handle goes from channel to channel until one takes it. *)
Fixpoint fix_channels (h : H) (l : list InfraChannel) : option SinkReason * list InfraChannel :=
  match l with
  | [] => (None, [])
  | c :: l =>
      match sg_proc_fix h (dispatcher c) with
      | (inr e, d) => (Some e, mkChannel d (closed c) :: l)
      | (inl None, d) => (None, mkChannel d (closed c) :: l)
      | (inl (Some h), d) => let '(e, l) := fix_channels h l in (e, mkChannel d (closed c) :: l)
      end
  end.

Definition i_enter_draining (a : InfraTask) : InfraTask :=
  set_channels (set_i_drain a (start_draining (i_drain a))) (on_channel sg_close_channel <$> channels a).

(** [handle_pkg] on a package and on the end of channel [i]. *)
Definition handle_pkg (a : InfraTask) (i : nat) (c : InfraChannel) (pkg : P) (now : Z) : Flow InfraTask :=
  match sg_ingest pkg (dispatcher c) with
  | (inr e, d) => Fail _ e (set_channels a (<[i := mkChannel d (closed c)]> (channels a)))
  | (inl processed, d) =>
      let ctrl := if 0 <? processed then rec_task_suc_cnt (i_ctrl a) processed
                  else rec_task_idle (i_ctrl a) now in
      Go _ (set_i_need (set_i_ctrl (set_channels a (<[i := mkChannel d (closed c)]> (channels a))) ctrl) true)
  end.

Definition handle_end (a : InfraTask) (i : nat) (c : InfraChannel) : Flow InfraTask :=
  let a := set_channels a (<[i := mkChannel (dispatcher c) true]> (channels a)) in
  let '(ev, s) := channel_closed_is_drained (i_drain a) in
  let a := set_i_drain a s in
  match ev with
  | Drained | AllClosed => Break _ (i_notify a)
  | Pending => Go _ (set_i_need a true)
  end.

Definition infra_step (a : InfraTask) (ev : InfraEvent) : Flow InfraTask :=
  match ev with
  | InPackage i pkg now =>
      match channels a !! i with
      | Some c => if closed c then Disabled _ else handle_pkg a i c pkg now
      | None => Disabled _
      end
  | InClosed i =>
      match channels a !! i with
      | Some c => if closed c then Disabled _ else handle_end a i c
      | None => Disabled _
      end
  | InCommand cmd now1 now2 =>
      if is_draining (i_drain a) then Disabled _
      else
        let a := match cmd with
                 | Execute (One nm) =>
                     set_channels a (on_channel (sg_active_one nm) <$> (on_channel sg_freeze_all <$> channels a))
                 | _ => a
                 end in
        let a := set_i_ctrl a (update_cmd (i_ctrl a) cmd) in
        Go _ (if is_stop (i_ctrl a) now1 now2 then i_enter_draining a else a)
  | InCommandClosed =>
      if is_draining (i_drain a) then Disabled _ else Go _ (i_enter_draining a)
  | InFix h =>
      if is_draining (i_drain a) then Disabled _
      else match fix_channels h (channels a) with
           | (Some e, l) => Fail _ e (set_channels a l)
           | (None, l) => Go _ (set_channels a l)
           end
  | InStatTick =>
      if i_need a then i_call sg_send_stat (set_i_need a false) else Go _ a
  | InFlushTick => bind_flow (i_call sg_flush a) (fun a => Go _ (set_i_need a true))
  end.

Definition infra_end (a : InfraTask) : Flow InfraTask :=
  bind_flow (i_call sg_flush a) (fun a =>
  bind_flow (i_call sg_send_stat a) (fun a =>
  i_call sg_proc_end a)).

Inductive InfraStatus :=
  | IInLoop (a : InfraTask) | IReturned (a : InfraTask) | IErrored (e : SinkReason) (a : InfraTask) | IStuck.

Definition i_drop_reporter (a : InfraTask) : InfraTask :=
  mkInfra (channels a) (i_ctrl a) (i_drain a) (i_need a) (mkReporter None) (i_reported a ++ drop (i_reporter a)).

Definition i_finish (m : Flow InfraTask) : InfraStatus :=
  match m with
  | Go _ a | Break _ a => IReturned (i_drop_reporter a)
  | Fail _ e a => IErrored e (i_drop_reporter a)
  | Disabled _ => IStuck
  end.

Fixpoint async_proc_infra (a : InfraTask) (evs : list InfraEvent) : InfraStatus :=
  match evs with
  | [] => IInLoop a
  | ev :: evs =>
      match infra_step a ev with
      | Go _ a => async_proc_infra a evs
      | Break _ a => i_finish (infra_end a)
      | Fail _ e a => IErrored e (i_drop_reporter a)
      | Disabled _ => IStuck
      end
  end.

End Actor.
Arguments Go {A} a.
Arguments Break {A} a.
Arguments Fail {A} e a.
Arguments Disabled {A}.
