(* ===== verification/SinkActorLaws.v ===== *)
(** What the sink tasks ([SinkActor]) promise: every package the channel gives
    is sent, in order, before the final flush; a draining task ends with its
    channel; its end is reported once; the infrastructure task outlives its last
    channel only.  And the dispatcher of a group as such a group of sinks: a task
    that returns leaves no record buffered. *)
From Stdlib Require Import ZArith Lia String.
From stdpp Require Import base gmap list strings.
From S2P Require Import Prelude RateLimit Actor ExitPolicy ErrPolicy ReloadDrain SinkActor.
Import Drain.
Local Open Scope string_scope.
Local Open Scope list_scope.
Local Open Scope Z_scope.

Section TaskLaws.
Context {D P H : Type} `{SinkGroup D P H}.
Local Abbreviation Task := (SinkTask (D:=D)).
Local Abbreviation Ev := (Event (P:=P) (H:=H)).

(** ** The calls a task makes on its sinks *)
Inductive Act :=
  | APackage (p : P) | AExecuteOne (name : string) | AClose | AFix (h : H)
  | AStat | AIngressStat | AFlush | AEnd.

Definition perform (x : Act) (d : D) : option SinkReason * D :=
  match x with
  | APackage p => match sg_ingest p (sg_record_ingress p d) with (inr e, d) => (Some e, d) | (inl _, d) => (None, d) end
  | AExecuteOne nm => (None, sg_active_one nm (sg_freeze_all d))
  | AClose => (None, sg_close_channel d)
  | AFix h => match sg_proc_fix h d with (inr e, d) => (Some e, d) | (inl _, d) => (None, d) end
  | AStat => sg_send_stat d
  | AIngressStat => sg_send_ingress_stat d
  | AFlush => sg_flush d
  | AEnd => sg_proc_end d
  end.

(** The calls in order, up to the first error. *)
Fixpoint replay (xs : list Act) (d : D) : option SinkReason * D :=
  match xs with
  | [] => (None, d)
  | x :: xs => match perform x d with (Some e, d) => (Some e, d) | (None, d) => replay xs d end
  end.

Lemma replay_app xs ys d :
  replay (xs ++ ys) d = match replay xs d with (Some e, d) => (Some e, d) | (None, d) => replay ys d end.
Proof.
  revert d. induction xs as [|x xs IH]; intros d; [done|]. cbn [app replay].
  destruct (perform x d) as [[e|] d']; [done|apply IH].
Qed.

Definition acts_of (a : Task) (ev : Ev) : list Act :=
  match ev with
  | EvPackage p _ => [APackage p]
  | EvClosed => []
  | EvCommand c n1 n2 =>
      match c with Execute (One nm) => [AExecuteOne nm] | _ => [] end ++
      (if is_stop (update_cmd (run_ctrl a) c) n1 n2 then [AClose] else [])
  | EvCommandClosed => [AClose]
  | EvFix h => [AFix h]
  | EvStatTick => if need_send_stat a then [AStat; AIngressStat] else []
  | EvFlushTick => [AFlush]
  end.

(** The end of a task: flush, statistics, stop. *)
Definition last_acts : list Act := [AFlush; AStat; AIngressStat; AEnd].

Fixpoint trace (a : Task) (evs : list Ev) : list Act :=
  match evs with
  | [] => []
  | ev :: evs =>
      match task_step a ev with
      | Go a' => acts_of a ev ++ trace a' evs
      | Break _ => last_acts
      | _ => acts_of a ev
      end
  end.

Definition package_of (ev : Ev) : option P := match ev with EvPackage p _ => Some p | _ => None end.
Definition act_package (x : Act) : option P := match x with APackage p => Some p | _ => None end.

Lemma call_spec f (a : Task) :
  match call f a with
  | Go a' => f (group a) = (None, group a') /\ a' = set_group a (group a')
  | Fail e a' => f (group a) = (Some e, group a') /\ a' = set_group a (group a')
  | _ => False
  end.
Proof. unfold call. by destruct (f (group a)) as [[e|] d] eqn:E. Qed.

Lemma notify_spec (a : Task) :
  group (notify_drained a) = group a /\ drain_reporter (notify_drained a) = (notify (drain_reporter a)).2 /\
  reported (notify_drained a) = reported a ++ (notify (drain_reporter a)).1.
Proof. unfold notify_drained. by destruct (notify (drain_reporter a)). Qed.

(** One event: what it did to the sinks, and how it left the loop. *)
Lemma step_replay (a : Task) (ev : Ev) :
  match task_step a ev with
  | Go a' => replay (acts_of a ev) (group a) = (None, group a') /\
      drain_reporter a' = drain_reporter a /\ reported a' = reported a
  | Fail e a' => replay (acts_of a ev) (group a) = (Some e, group a') /\
      drain_reporter a' = drain_reporter a /\ reported a' = reported a
  | Break a' => ev = EvClosed /\ group a' = group a /\
      drain_reporter a' = (notify (drain_reporter a)).2 /\ reported a' = reported a ++ (notify (drain_reporter a)).1
  | Disabled => True
  end.
Proof.
  destruct ev as [p now| |c n1 n2| |h| |]; cbn [task_step acts_of replay perform].
  - destruct (sg_ingest _ _) as [[n|e] d]; done.
  - destruct (channel_closed_is_drained (drain_state a)) as [[] s]; [done|..];
      (split; [done|]); apply (notify_spec (set_drain a s)).
  - destruct (is_draining _); [done|]. destruct c as [s|[|nm]|s| |]; cbn [app replay perform run_ctrl set_ctrl set_group];
      destruct (is_stop _ n1 n2); done.
  - destruct (is_draining _); done.
  - destruct (is_draining _); [done|]. destruct (sg_proc_fix h (group a)) as [[o|e] d]; done.
  - destruct (need_send_stat a); [|done]. cbn [replay perform].
    pose proof (call_spec sg_send_stat (set_need a false)) as C1.
    destruct (call sg_send_stat (set_need a false)) as [a1|a1|e a1|]; try done; cbn [bind_flow group set_need] in *.
    + destruct C1 as [-> E1]. pose proof (call_spec sg_send_ingress_stat a1) as C2.
      destruct (call sg_send_ingress_stat a1) as [a2|a2|e a2|]; try done; destruct C2 as [-> E2]; by rewrite E2, E1.
    + destruct C1 as [-> E1]. by rewrite E1.
  - pose proof (call_spec sg_flush a) as C1.
    destruct (call sg_flush a) as [a1|a1|e a1|]; try done; cbn [bind_flow]; destruct C1 as [-> E1]; by rewrite E1.
Qed.

Lemma end_replay (a : Task) :
  match task_end a with
  | Go a' => replay last_acts (group a) = (None, group a') /\ a' = set_group a (group a')
  | Fail e a' => replay last_acts (group a) = (Some e, group a') /\ a' = set_group a (group a')
  | _ => False
  end.
Proof.
  unfold task_end, last_acts. cbn [replay perform].
  pose proof (call_spec sg_flush a) as C1. destruct (call sg_flush a) as [a1|a1|e a1|]; try done; cbn [bind_flow];
    destruct C1 as [-> E1]; [|done].
  pose proof (call_spec sg_send_stat a1) as C2. destruct (call sg_send_stat a1) as [a2|a2|e a2|]; try done; cbn [bind_flow];
    destruct C2 as [-> E2]; [|by rewrite E2, E1].
  pose proof (call_spec sg_send_ingress_stat a2) as C3.
  destruct (call sg_send_ingress_stat a2) as [a3|a3|e a3|]; try done; cbn [bind_flow];
    destruct C3 as [-> E3]; [|by rewrite E3, E2, E1].
  pose proof (call_spec sg_proc_end a3) as C4. destruct (call sg_proc_end a3) as [a4|a4|e a4|]; try done;
    destruct C4 as [-> E4]; by rewrite E4, E3, E2, E1.
Qed.

Lemma acts_packages (a : Task) (ev : Ev) a' : task_step a ev = Go a' ->
  omap act_package (acts_of a ev) = match package_of ev with Some p => [p] | None => [] end.
Proof.
  destruct ev as [p now| |c n1 n2| |h| |]; cbn; intros _; try done.
  - destruct c as [s|[|nm]|s| |]; cbn; repeat case_match; done.
  - by destruct (need_send_stat a).
Qed.

(** C34: what a sink task does is the calls of its trace, in order, up to the
    first error: every package received is sent, in order of arrival and
    once; a task returns only when its channel is closed and empty, and then,
    after the last package, flushes, sends its statistics and stops its sinks. *)
Theorem sink_task_trace (a : Task) (evs : list Ev) :
  match async_proc a evs with
  | InLoop a' => replay (trace a evs) (group a) = (None, group a') /\
      omap act_package (trace a evs) = omap package_of evs
  | Returned a' => replay (trace a evs) (group a) = (None, group a') /\
      exists pre post tr, evs = pre ++ EvClosed :: post /\ trace a evs = tr ++ last_acts /\
        omap act_package tr = omap package_of pre
  | Errored e a' => replay (trace a evs) (group a) = (Some e, group a')
  | Stuck => True
  end.
Proof.
  revert a. induction evs as [|ev evs IH]; intros a; [done|]. cbn [async_proc trace].
  pose proof (step_replay a ev) as S. pose proof (acts_packages a ev) as A.
  destruct (task_step a ev) as [a1|a1|e a1|]; [|..|done].
  - specialize (A a1 eq_refl). destruct S as (S & _ & _). specialize (IH a1).
    destruct (async_proc a1 evs) as [a2|a2|e a2|]; [| | |done]; rewrite replay_app, S.
    + destruct IH as [-> IH]. split; [done|]. rewrite omap_app, A, IH. cbn. by destruct (package_of ev).
    + destruct IH as [-> (pre & post & tr & -> & -> & IH)]. split; [done|].
      exists (ev :: pre), post, (acts_of a ev ++ tr). split; [done|]. split; [by rewrite app_assoc|].
      rewrite omap_app, A, IH. cbn. by destruct (package_of ev).
    + done.
  - destruct S as (-> & E & _ & _). pose proof (end_replay a1) as T. rewrite E in T.
    destruct (task_end a1) as [a2|a2|e a2|]; try done; cbn [finish_flow]; destruct T as [T _]; [|done].
    split; [done|]. exists [], evs, []. done.
  - by destruct S as (S & _ & _).
Qed.

(** ** A draining task ends *)
Definition data_or_tick (ev : Ev) : Prop :=
  match ev with EvPackage _ _ | EvStatTick | EvFlushTick => True | _ => False end.

(** Events other than commands leave the drain state alone, and are taken. *)
Lemma data_step (a : Task) (ev : Ev) : data_or_tick ev ->
  match task_step a ev with
  | Go a' => drain_state a' = drain_state a
  | Fail _ _ => True
  | _ => False
  end.
Proof.
  destruct ev as [p now| |c n1 n2| |h| |]; try done; intros _; cbn [task_step].
  - by destruct (sg_ingest _ _) as [[n|e] d].
  - destruct (need_send_stat a); [|done]. unfold call.
    destruct (sg_send_stat _) as [[e|] d]; cbn; [done|]. by destruct (sg_send_ingress_stat d) as [[e|] d'].
  - unfold call. by destruct (sg_flush (group a)) as [[e|] d].
Qed.

(** C35: once its channel reports the end, a task with its one channel open ends,
    whatever came before and whatever would come after: it takes every package
    and tick in between, never waits for a command, and returns or fails
    without looking at the rest. *)
Theorem draining_task_ends (a : Task) (pre post : list Ev)
  (Hopen : open_channels (drain_state a) = 1) (Hpre : Forall data_or_tick pre) :
  match async_proc a (pre ++ EvClosed :: post) with
  | Returned _ | Errored _ _ => async_proc a (pre ++ EvClosed :: post) = async_proc a (pre ++ [EvClosed])
  | _ => False
  end.
Proof.
  revert a Hopen. induction Hpre as [|ev pre Hev Hpre IH]; intros a Hopen; cbn [app async_proc].
  - assert (exists a1, task_step a EvClosed = Break a1) as [a1 ->].
    { cbn [task_step]. unfold channel_closed_is_drained. rewrite Hopen.
      destruct (draining (drain_state a)) eqn:E; cbn; rewrite ?E; eauto. }
    pose proof (end_replay a1) as T. by destruct (task_end a1).
  - pose proof (data_step a ev Hev) as S. destruct (task_step a ev) as [a1|a1|e a1|]; try done.
    apply IH. by rewrite S.
Qed.
(** ** Reporting *)

(** What was reported while the reporter still holds its event. *)
Lemma async_reports (a : Task) evs e : drain_reporter a = mkReporter (Some e) -> reported a = [] ->
  match async_proc a evs with
  | InLoop a' => drain_reporter a' = mkReporter (Some e) /\ reported a' = []
  | Returned a' => reported a' = [mkEvent (ev_epoch e) (ev_role e) (worker_name e) ReloadDrain.Drained]
  | Errored _ a' => exists o, reported a' = [mkEvent (ev_epoch e) (ev_role e) (worker_name e) o]
  | Stuck => True
  end.
Proof.
  revert a. induction evs as [|ev evs IH]; intros a Hr Hn; [done|]. cbn [async_proc].
  pose proof (step_replay a ev) as S. destruct (task_step a ev) as [a1|a1|e1 a1|]; [..|done].
  - destruct S as (_ & S1 & S2). apply IH; congruence.
  - destruct S as (_ & _ & S1 & S2). rewrite Hr, Hn in *. cbn in S1, S2.
    pose proof (end_replay a1) as T. destruct (task_end a1) as [a2|a2|e2 a2|]; try done; cbn [finish_flow];
      destruct T as [_ ->]; cbn [reported drop_reporter set_group drain_reporter]; rewrite S1, S2; cbn; eauto.
  - destruct S as (_ & S1 & S2). cbn [reported drop_reporter]. rewrite S1, S2, Hr, Hn. cbn. eauto.
Qed.

(** A sink task reports its end to the reload exactly once, while it runs
    not at all, whatever its events: as drained when it returns. *)
Theorem sink_task_reports_once (d : D) (name : string) (now : Z) (b : ReloadDrainBus) (nm : string) (evs : list Ev) :
  let event := mkEvent (bus_epoch b) ExitPolicy.Sink nm in
  match async_proc (SinkTask_new d name now (reporter b ExitPolicy.Sink nm)) evs with
  | InLoop a' => reported a' = []
  | Returned a' => reported a' = [event ReloadDrain.Drained]
  | Errored _ a' => exists o, reported a' = [event o]
  | Stuck => True
  end.
Proof.
  pose proof (async_reports (SinkTask_new d name now (reporter b ExitPolicy.Sink nm)) evs _ eq_refl eq_refl) as R.
  by destruct (async_proc _ evs); cbn in R; [destruct R|..].
Qed.

(** The drain is announced before the last flush: when that fails, the reload has
    been told that the group is drained and the task returns an error. *)
Theorem drained_before_flush (a : Task) (e : SinkReason)
  (ev : ReloadDrainEvent)
  (Hrep : drain_reporter a = mkReporter (Some ev)) (Hnone : reported a = [])
  (Hopen : open_channels (drain_state a) = 1) (Hflush : (sg_flush (group a)).1 = Some e) :
  exists a', async_proc a [EvClosed] = Errored e a' /\
    reported a' = [mkEvent (ev_epoch ev) (ev_role ev) (worker_name ev) ReloadDrain.Drained].
Proof.
  cbn [async_proc]. assert (exists a1, task_step a EvClosed = Break a1) as [a1 E1].
  { cbn [task_step]. unfold channel_closed_is_drained. rewrite Hopen.
    destruct (draining (drain_state a)) eqn:E; cbn; rewrite ?E; eauto. }
  pose proof (step_replay a EvClosed) as S. rewrite E1 in *. destruct S as (_ & Hg & S1 & S2).
  unfold task_end, call. rewrite Hg. destruct (sg_flush (group a)) as [[e'|] d]; [|done]. cbn in Hflush. injection Hflush as ->.
  cbn [bind_flow finish_flow]. eexists. split; [reflexivity|].
  cbn [reported drop_reporter set_group drain_reporter]. rewrite S1, S2, Hrep, Hnone. done.
Qed.

(** ** A timeout stop *)

(** Every event but a command and the end of a channel. *)
Definition no_command (ev : Ev) : Prop :=
  match ev with EvPackage _ _ | EvFix _ | EvStatTick | EvFlushTick => True | _ => False end.

Lemma no_command_step a ev : no_command ev -> is_draining (drain_state a) = false ->
  match task_step a ev with
  | Go a' => drain_state a' = drain_state a
  | Fail _ _ => True
  | _ => False
  end.
Proof.
  intros Hev Hd. destruct ev; try done; try (by apply (data_step a)).
  cbn [task_step]. rewrite Hd. by destruct (sg_proc_fix h (group a)) as [[o|e] d].
Qed.

Lemma no_command_run a evs : Forall no_command evs -> is_draining (drain_state a) = false ->
  match async_proc a evs with
  | InLoop a' => is_draining (drain_state a') = false
  | Errored _ _ => True
  | _ => False
  end.
Proof.
  intros Hevs. revert a. induction Hevs as [|ev evs Hev Hevs IH]; intros a Hd; [done|]. cbn [async_proc].
  pose proof (no_command_step a ev Hev Hd) as S. destruct (task_step a ev); try done. apply IH. by rewrite S.
Qed.

(** A stop with a timeout reaches a task that has just been working as
    nothing: it is looked at only when it arrives, the time idle is counted from
    then, and no package, tick or fix looks at it again, however long the task
    is idle; only another command or the end of its channel ends the task. *)
Theorem timeout_stop_ignored (a : Task) (millis now1 now2 : Z) (evs : list Ev)
  (Hrun : is_draining (drain_state a) = false) (Hbusy : last_miss (run_ctrl a) = None)
  (Hsoon : 0 <= now2 - now1 <= millis * 1000000) (Hevs : Forall no_command evs) :
  match async_proc a (EvCommand (Stop (Timeout_ millis)) now1 now2 :: evs) with
  | InLoop a' => is_draining (drain_state a') = false
  | Errored _ _ => True
  | _ => False
  end.
Proof.
  cbn [async_proc task_step]. rewrite Hrun.
  replace (is_stop (run_ctrl (set_ctrl a (update_cmd (run_ctrl a) (Stop (Timeout_ millis))))) now1 now2) with false.
  - by apply no_command_run.
  - symmetry. cbn. unfold get_miss_time. cbn. rewrite Hbusy. cbn. apply Z.ltb_ge. lia.
Qed.
End TaskLaws.

(** ** The infrastructure task *)
Section InfraLaws.
Context {D P H : Type} `{SinkGroup D P H}.
Local Abbreviation Task := (InfraTask (D:=D)).
Local Abbreviation Ev := (InfraEvent (P:=P) (H:=H)).
Local Abbreviation Chan := (InfraChannel (D:=D)).

(** The drain state counts the open channels. *)
Definition open_count (l : list Chan) : Z := countb (fun c => negb (closed c)) l.

Definition infra_inv (a : Task) : Prop :=
  open_channels (i_drain a) = open_count (channels a) /\ 0 < open_count (channels a).

Lemma each_channel_closed f (l : list Chan) : closed <$> (each_channel f l).2 = closed <$> l.
Proof.
  induction l as [|c l IH]; [done|]. cbn. destruct (f (dispatcher c)) as [[e|] d]; [done|].
  destruct (each_channel f l) as [e l']. cbn in *. by rewrite IH.
Qed.

Lemma fix_channels_closed (h : H) (l : list Chan) : closed <$> (fix_channels h l).2 = closed <$> l.
Proof.
  revert h. induction l as [|c l IH]; intros h; [done|]. cbn.
  destruct (sg_proc_fix h (dispatcher c)) as [[[h'|]|e] d]; [|done..].
  specialize (IH h'). destruct (fix_channels h' l) as [e l']. cbn in *. by rewrite IH.
Qed.

Lemma open_count_closed (l k : list Chan) : closed <$> l = closed <$> k -> open_count l = open_count k.
Proof.
  revert k. induction l as [|c l IH]; intros [|c' k] E; try done. cbn in E. injection E as Ec E.
  unfold open_count in *. cbn [countb]. by rewrite Ec, (IH k E).
Qed.

Lemma i_call_inv f (a : Task) : infra_inv a ->
  match i_call f a with
  | Go a' => infra_inv a' /\ i_reporter a' = i_reporter a /\ i_reported a' = i_reported a /\ closed <$> channels a' = closed <$> channels a
  | Fail _ a' => i_reporter a' = i_reporter a /\ i_reported a' = i_reported a
  | _ => False
  end.
Proof.
  intros [I1 I2]. unfold i_call. pose proof (each_channel_closed f (channels a)) as E.
  destruct (each_channel f (channels a)) as [[e|] l]; [done|]. cbn in E. split; [|done].
  pose proof (open_count_closed _ _ E) as Ec. unfold infra_inv. cbn [channels i_drain set_channels i_reporter i_reported].
  by rewrite Ec.
Qed.
Lemma set_closed_flag (l : list Chan) i d c : l !! i = Some c ->
  closed <$> <[i := mkChannel (D:=D) d (closed c)]> l = closed <$> l.
Proof. intros Hi. rewrite list_fmap_insert. cbn. apply list_insert_id. by rewrite list_lookup_fmap, Hi. Qed.

Lemma open_count_close (l : list Chan) i d c : l !! i = Some c -> closed c = false ->
  open_count (<[i := mkChannel d true]> l) = open_count l - 1.
Proof.
  unfold open_count. revert i. induction l as [|x l IH]; intros [|i] Hi Hc; try done; cbn in Hi.
  - injection Hi as ->. cbn [countb]. change (<[0%nat := ?y]> (c :: l)) with (y :: l). cbn [countb closed]. rewrite Hc. cbn. lia.
  - change (<[S i := ?y]> (x :: l)) with (x :: <[i := y]> l). cbn [countb]. rewrite (IH i Hi Hc).
    destruct (negb (closed x)); lia.
Qed.

Lemma open_count_zero (l : list Chan) : open_count l = 0 -> Forall (fun c => closed c = true) l.
Proof.
  unfold open_count. induction l as [|c l IH]; intros E; [constructor|]. cbn [countb] in E.
  pose proof (countb_nonneg (fun c => negb (closed c)) l). destruct (closed c) eqn:Ec; cbn in E; [|lia].
  constructor; [done|by apply IH].
Qed.

(** The reporter and what it said. *)
Local Abbreviation quiet a a' := (i_reporter a' = i_reporter a /\ i_reported a' = i_reported a).

Lemma infra_step_inv (a : Task) (ev : Ev) : infra_inv a ->
  match infra_step a ev with
  | Go a' => infra_inv a' /\ quiet a a'
  | Break a' => Forall (fun c => closed c = true) (channels a') /\
      i_reporter a' = (notify (i_reporter a)).2 /\ i_reported a' = i_reported a ++ (notify (i_reporter a)).1
  | Fail _ a' => quiet a a'
  | Disabled => True
  end.
Proof.
  intros I. pose proof I as [I1 I2].
  assert (forall a' : Task, closed <$> channels a' = closed <$> channels a ->
    open_channels (i_drain a') = open_channels (i_drain a) -> infra_inv a') as Hsame.
  { intros a' E Ho. pose proof (open_count_closed _ _ E) as Ec. unfold infra_inv. by rewrite Ho, Ec. }
  destruct ev as [i p now|i|c n1 n2| |h| |]; cbn [infra_step].
  - destruct (channels a !! i) as [c|] eqn:Hi; [|done]. destruct (closed c) eqn:Hc; [done|]. unfold handle_pkg.
    destruct (sg_ingest p (dispatcher c)) as [[n|e] d]; [|done]. split; [|done].
    apply Hsame; [by apply set_closed_flag|done].
  - destruct (channels a !! i) as [c|] eqn:Hi; [|done]. destruct (closed c) eqn:Hc; [done|]. unfold handle_end, channel_closed_is_drained.
    cbn [i_drain set_channels]. pose proof (open_count_close _ i (dispatcher c) c Hi Hc) as Ec.
    rewrite (proj2 (Z.ltb_lt _ _)) by lia. cbn [open_channels draining].
    destruct (Z.eqb_spec (open_channels (i_drain a) - 1) 0) as [Hz|Hz].
    + assert (Forall (fun c => closed c = true) (<[i := mkChannel (dispatcher c) true]> (channels a))) as Hall
        by (apply open_count_zero; lia).
      destruct (draining (i_drain a)); unfold i_notify; cbn; destruct (notify (i_reporter a)); done.
    + split; [|done]. unfold infra_inv. cbn [channels i_drain set_i_need set_i_drain set_channels open_channels].
      rewrite Ec. lia.
  - destruct (is_draining _); [done|].
    assert (forall b, closed <$> (if b : bool then on_channel sg_close_channel <$> channels a else channels a) = closed <$> channels a) as E1.
    { intros []; [|done]. rewrite <- list_fmap_compose. by apply list_fmap_ext. }
    destruct c as [s|[|nm]|s| |]; cbn [i_ctrl set_i_ctrl set_channels]; destruct (is_stop _ n1 n2); cbn [set_i_ctrl];
      (split; [|done]); (apply Hsame; [|done]); cbn [channels set_i_ctrl i_enter_draining set_channels set_i_drain];
      rewrite <- ?list_fmap_compose; done.
  - destruct (is_draining _); [done|]. split; [|done]. apply Hsame; [|done]. cbn. by rewrite <- list_fmap_compose.
  - destruct (is_draining _); [done|]. pose proof (fix_channels_closed h (channels a)) as E.
    destruct (fix_channels h (channels a)) as [[e|] l]; [done|]. split; [|done]. by apply Hsame.
  - destruct (i_need a); [|done]. pose proof (i_call_inv sg_send_stat (set_i_need a false) ltac:(done)) as C.
    destruct (i_call sg_send_stat (set_i_need a false)); try done. by destruct C as (C1 & C2 & C3 & _).
  - pose proof (i_call_inv sg_flush a I) as C. destruct (i_call sg_flush a) as [a1|a1|e a1|]; try done.
    cbn [bind_flow]. by destruct C as (C1 & C2 & C3 & _).
Qed.

Lemma i_call_quiet f (a : Task) :
  match i_call f a with
  | Go a' => quiet a a' /\ closed <$> channels a' = closed <$> channels a
  | Fail _ a' => quiet a a'
  | _ => False
  end.
Proof.
  unfold i_call. pose proof (each_channel_closed f (channels a)) as E.
  by destruct (each_channel f (channels a)) as [[e|] l].
Qed.

Lemma infra_end_quiet (a : Task) :
  match infra_end a with
  | Go a' => quiet a a' /\ closed <$> channels a' = closed <$> channels a
  | Fail _ a' => quiet a a'
  | _ => False
  end.
Proof.
  unfold infra_end. pose proof (i_call_quiet sg_flush a) as C1. destruct (i_call sg_flush a) as [a1|a1|e a1|]; try done; cbn [bind_flow].
  pose proof (i_call_quiet sg_send_stat a1) as C2. destruct (i_call sg_send_stat a1) as [a2|a2|e a2|]; try done; cbn [bind_flow].
  2: { destruct C1 as [[? ?] _], C2. split; congruence. }
  pose proof (i_call_quiet sg_proc_end a2) as C3. destruct (i_call sg_proc_end a2) as [a3|a3|e a3|]; try done;
    destruct C1 as [[? ?] ?], C2 as [[? ?] ?], C3; split_and?; intuition congruence.
Qed.

(** The infrastructure task runs as long as one of its channels is open, and
    its drain state counts exactly those; it ends with the last of them, when
    every channel has been read to its end, and only then reports the drain,
    once. *)
Theorem infra_ends_with_last_channel (ds : list D) (now : Z) (b : ReloadDrainBus) (nm : string) (evs : list Ev)
  (Hds : ds <> []) :
  let event := mkEvent (bus_epoch b) Infra nm in
  match async_proc_infra (InfraTask_new ds now (reporter b Infra nm)) evs with
  | IInLoop a' => infra_inv a' /\ i_reported a' = []
  | IReturned a' => Forall (fun c => closed c = true) (channels a') /\ i_reported a' = [event ReloadDrain.Drained]
  | IErrored _ a' => exists o, i_reported a' = [event o]
  | IStuck => True
  end.
Proof.
  cbn zeta. set (a0 := InfraTask_new ds now (reporter b Infra nm)).
  assert (infra_inv a0) as I0.
  { assert (open_count (channels a0) = zlen ds) as E.
    { unfold open_count. cbn. clear Hds. induction ds as [|d l IH]; [done|]. cbn [fmap list_fmap countb closed negb].
      rewrite zlen_cons. cbn in IH. by rewrite IH. }
    split; rewrite E; [done|]. destruct ds; [done|]. rewrite zlen_cons. pose proof (zlen_nonneg ds). lia. }
  assert (i_reporter a0 = reporter b Infra nm /\ i_reported a0 = []) as Q0 by done.
  revert I0 Q0. generalize a0. induction evs as [|ev evs IH]; intros a I [Q1 Q2]; [done|]. cbn [async_proc_infra].
  pose proof (infra_step_inv a ev I) as S. destruct (infra_step a ev) as [a1|a1|e a1|]; [..|done].
  - destruct S as (S1 & S2 & S3). apply IH; [done|split; congruence].
  - destruct S as (S1 & S2 & S3). rewrite Q1, Q2 in *. cbn in S2, S3.
    pose proof (infra_end_quiet a1) as T. destruct (infra_end a1) as [a2|a2|e2 a2|]; try done; cbn [i_finish].
    + destruct T as [[T1 T2] T3]. cbn [channels i_reported i_drop_reporter]. split.
      * clear -S1 T3. revert T3. generalize (channels a2). induction S1 as [|c l Hc Hl IHl]; intros [|c2 l2] E; try done.
        cbn in E. injection E as E1 E2. constructor; [congruence|by apply IHl].
      * by rewrite T1, T2, S2, S3.
    + destruct T as [T1 T2]. cbn [i_reported i_drop_reporter]. rewrite T1, T2, S2, S3. eauto.
  - destruct S as [S1 S2]. cbn [i_reported i_drop_reporter]. rewrite S1, S2, Q1, Q2. cbn. eauto.
Qed.
End InfraLaws.
