(* ===== verification/SinkTasks.v ===== *)
(** A sink task over the dispatcher of its group: [SinkDispatcher] of [Dispatcher]
    implements the interface of [SinkActor], so that what the runtime of a sink
    guarantees ([SinkLaws]) and what the task does ([SinkActorLaws]) meet: a task
    that returns has no record left in any buffer. *)
From Stdlib Require Import ZArith Lia Ascii String.
From stdpp Require Import prelude strings gmap.
From S2P Require Import Prelude Actor ExitPolicy ErrPolicy ReloadDrain SinkHealth SinkRuntime SinkLaws.
From S2P Require Import DataModel Expr Tags Dispatcher DispatcherLaws SinkActor SinkActorLaws.
Local Open Scope string_scope.
Local Open Scope list_scope.
Local Open Scope Z_scope.

Section DispatcherGroup.
Context {V B M Q : Type} `{DataLaws F R} `{!Backend R B} `{!OmlApi M R Q}.
Context {W : Type}.
Variable wildmatch_new : string -> W.
Variable wm_matches : W -> string -> bool.
Variable hm_iter : gmap string (list (SinkRecUnit (R := R))) -> list (string * list (SinkRecUnit (R := R))).

Local Abbreviation Disp := (SinkDispatcher (V := V) (B := B) (M := M) (F := F) (R := R)).
Local Abbreviation DSink := (Sink (V := V) (B := B) (F := F) (R := R)).
Local Abbreviation Unit := (SinkRecUnit (R := R)).

(** What the calls of a task answer from outside, by the number of the call. *)
Variable env : nat -> nat -> nat -> CallEnv (S := B).
Variable oenv : nat -> nat -> OmlEnv.
(** the monitor's channel: the error of a closed one *)
Variable mon_err : nat -> option SinkReason.

(** The dispatcher with the query cache, what the error channel took, and the
    number of calls made. *)
Record TaskGroup := mkTaskGroup { disp : Disp; cache : Q; errors : list Unit; calls : nat }.

Definition with_disp (g : TaskGroup) (d : Disp) : TaskGroup := mkTaskGroup d (cache g) (errors g) (S (calls g)).

(** [for s in sinks { s.flush(..).await?; }]. *)
Fixpoint flush_loop (e : nat -> CallEnv (S := B)) (i : nat) (ss : list DSink) (w : Shared (B := B))
    : option SinkReason * (list DSink * Shared (B := B)) :=
  match ss with
  | [] => (None, ([], w))
  | s :: rest =>
      match flush (F := V) (e i) (to_state s w) with
      | Some (Some err, st) => let '(s, w) := of_state s st in (Some err, (s :: rest, w))
      | Some (None, st) =>
          let '(s, w) := of_state s st in
          let '(r, (rest, w)) := flush_loop e (S i) rest w in (r, (s :: rest, w))
      | None => (Some (SinkUvs LogicError), (s :: rest, w))
      end
  end.

Definition group_flush (g : TaskGroup) : option SinkReason * TaskGroup :=
  let '(e, (ss, w)) := flush_loop (env (calls g) 0) 0 (sinks (disp g)) (shared (disp g)) in
  (e, with_disp g (set_sinks (disp g) ss w)).

(** The dispatcher's panic, which [fanout_exact] excludes, ends the task as an
    error does. *)
Definition group_ingest (pkg : list Unit) (g : TaskGroup) : (Z + SinkReason) * TaskGroup :=
  match group_sink_package wildmatch_new wm_matches hm_iter (env (calls g)) (oenv (calls g)) pkg (disp g) (cache g) with
  | Some (res, o) => (res, mkTaskGroup (out_d o) (out_cache o) (errors g ++ out_errors o) (S (calls g)))
  | None => (inr (SinkUvs LogicError), g)
  end.

(** Sending the statistics fails only when the monitor's channel is closed. *)
Definition group_send_stat (g : TaskGroup) : option SinkReason * TaskGroup :=
  (match sinks (disp g) with [] => None | _ => mon_err (calls g) end, with_disp g (disp g)).

Definition group_send_ingress_stat (g : TaskGroup) : option SinkReason * TaskGroup :=
  (mon_err (calls g), with_disp g (send_ingress_stat (disp g)).2).

Definition dispatcher_group : SinkGroup TaskGroup (list Unit) (ASinkHandle (S := B)) := {|
  sg_ingest := group_ingest;
  sg_record_ingress pkg g := mkTaskGroup (record_ingress_batch (disp g) (zlen pkg)) (cache g) (errors g) (calls g);
  sg_freeze_all g := with_disp g (freeze_all (disp g));
  sg_active_one nm g := with_disp g (active_one (disp g) nm);
  sg_close_channel g := g;
  sg_proc_fix h g := let '(r, d) := proc_fix (disp g) h (mon_err (calls g)) in (r, with_disp g d);
  sg_flush := group_flush;
  sg_send_stat := group_send_stat;
  sg_send_ingress_stat := group_send_ingress_stat;
  sg_proc_end g := let '(e, d) := proc_end (disp g) in (e, with_disp g d);
|}.

(** ** What a sink of the group holds

    The records that had a fate and those buffered, each under its metadata, in
    the order in which they were handed over. *)
Definition logged (s : DSink) : list (BatchMeta * R) := concat (map fate_items (sink_fates s)).
Definition buffered (s : DSink) : list (BatchMeta * R) := map (pair (pending_meta (runtime s))) (pending_records (runtime s)).
Definition held (s : DSink) : list (BatchMeta * R) := logged s ++ buffered s.

(** As the constructor makes a sink: a batch is never empty, the buffer never
    full. *)
Definition sink_ok (s : DSink) : Prop :=
  1 <= batch_size (runtime s) /\ zlen (pending_records (runtime s)) < batch_size (runtime s).

(** The units as the records they hand over. *)
Definition unit_items (s : DSink) (us : list Unit) : list (BatchMeta * R) :=
  pkg_items (output_disabled (runtime s)) (map (fun u => (meta u, data u)) us).

(** What the dispatcher reads of a sink. *)
Definition alike (s s' : DSink) : Prop :=
  get_cond s' = get_cond s /\ filter_expect s' = filter_expect s /\ pre_tags s' = pre_tags s.

(** A sink that took [us] and lost nothing. *)
Definition took (s : DSink) (us : list Unit) (s' : DSink) : Prop :=
  sink_ok s -> sink_ok s' /\ held s' = held s ++ unit_items s us /\ output_disabled (runtime s') = output_disabled (runtime s).
Definition step (s : DSink) (us : list Unit) (s' : DSink) : Prop := took s us s' /\ alike s s'.

Definition moved : list DSink -> list (list Unit) -> list DSink -> Prop := Forall3 step.
Definition nothing (ss : list DSink) : list (list Unit) := map (fun _ => []) ss.

Lemma unit_items_app s us vs : unit_items s (us ++ vs) = unit_items s us ++ unit_items s vs.
Proof. unfold unit_items, pkg_items. by rewrite !map_app. Qed.

Lemma step_trans s us s1 vs s2 : step s us s1 -> step s1 vs s2 -> step s (us ++ vs) s2.
Proof.
  intros (T1 & A1 & A2 & A3) (T2 & B1 & B2 & B3). split; [|split_and!; congruence].
  intros Hs. destruct (T1 Hs) as (Hs1 & E1 & O1). destruct (T2 Hs1) as (Hs2 & E2 & O2). split; [done|]. split; [|congruence].
  rewrite E2, E1, unit_items_app, <- app_assoc. unfold unit_items. by rewrite O1.
Qed.

Lemma moved_trans ss us s1 vs s2 : moved ss us s1 -> moved s1 vs s2 -> moved ss (zip_with app us vs) s2.
Proof.
  intros Hm. revert vs s2. induction Hm as [|x u y ss us s1 Hx _ IH]; intros vs s2 Hm2; inversion Hm2; subst; cbn; constructor;
    [by eapply step_trans|by apply IH].
Qed.

Lemma step_same s s' : runtime s' = runtime s -> sink_fates s' = sink_fates s -> alike s s' -> step s [] s'.
Proof.
  intros Hr Hf Ha. split; [|done]. intros Hs. unfold sink_ok, held, logged, buffered. rewrite Hr, Hf.
  split; [exact Hs|]. unfold unit_items. cbn. by rewrite app_nil_r.
Qed.

Lemma step_status s b : step s [] (with_runtime s (set_status (runtime s) b)).
Proof.
  split; [|done]. unfold took, sink_ok, held, logged, buffered. cbn. intros Hs. split; [exact Hs|].
  unfold unit_items. cbn. by rewrite app_nil_r.
Qed.

(** A call that keeps the buffer, the fates and the configuration. *)
Lemma step_frame s w (st : SinkState (S := B) (R := R) (F := V)) :
  frame st = frame (to_state s w) -> step s [] (of_state s st).1.
Proof.
  unfold frame. cbn. intros E. injection E as E1 E2 E3 E4 E5 E6. split; [|done].
  unfold took, sink_ok, held, logged, buffered. cbn. rewrite E1, E3, E4, E5, E6. intros Hs. split; [exact Hs|].
  unfold unit_items. cbn. by rewrite app_nil_r.
Qed.

Lemma moved_refl ss : moved ss (nothing ss) ss.
Proof. induction ss as [|s ss IH]; constructor; [by apply step_same|exact IH]. Qed.

Lemma moved_map f ss : (forall s, step s [] (f s)) -> moved ss (nothing ss) (map f ss).
Proof. intros Hf. induction ss as [|s ss IH]; constructor; [apply Hf|exact IH]. Qed.

Lemma moved_length ss us ss' : moved ss us ss' -> length us = length ss /\ length ss' = length ss.
Proof. induction 1 as [|x u y ss us s1 _ _ [IH1 IH2]]; cbn; [done|by rewrite IH1, IH2]. Qed.

Lemma moved_alike ss us ss' : moved ss us ss' -> Forall2 alike ss ss'.
Proof. induction 1 as [|x u y ss us s1 [_ Ha] _ IH]; constructor; done. Qed.

Lemma nothing_length ss ss' : length ss = length ss' -> nothing ss = nothing ss'.
Proof. revert ss'; induction ss as [|s ss IH]; intros [|s' ss']; try done. intros [= E]. unfold nothing in *. cbn. f_equal. by apply IH. Qed.

(** A call of the runtime that hands over [us], from [call_ok]. *)
Lemma call_step s w us (st : SinkState (S := B) (R := R) (F := V)) m :
  (1 <= batch_size (runtime s) -> zlen (pending_records (runtime s)) < batch_size (runtime s) ->
    call_ok (to_state s w) m (unit_items s us)) ->
  m = Some (None, st) -> step s us (of_state s st).1.
Proof.
  intros Hc ->. split; [|done].
  intros [Hb Hp]. destruct (Hc Hb Hp) as (res & s' & [= <- <-] & Hcf & Hok & _). destruct (Hok eq_refl) as [Hi Hs].
  unfold conf in Hcf. cbn in Hcf. injection Hcf as C1 C2 C3. split_and!; [split; cbn; [by rewrite C1|exact Hs]| |exact C3].
  unfold held, logged, buffered. cbn. rewrite <- app_assoc. exact Hi.
Qed.

(** ** The calls of a task on its sinks

    Flushing: the records buffered are given a fate, in order. *)
Lemma flush_empties e (st st' : SinkState (S := B) (R := R) (F := V)) :
  flush_pending_buffer e st = Some (None, st') -> pending_records (rt st') = [].
Proof.
  unfold flush_pending_buffer. destruct (pending_records (rt st)) as [|x xs] eqn:Ep; [by intros [= <-]|].
  destruct (send_records_batch_spec (F := V) e (x :: xs) (pending_meta (rt st)) true
    (set_rt st (set_pending (rt st) [] BatchMeta_default)) ltac:(done)) as (res & s' & -> & Hd).
  intros [= -> ->]. destruct Hd as [k Hf]. unfold frame in Hf. by injection Hf as _ _ _ -> _ _.
Qed.

Lemma flush_loop_moves e i ss w ss' w' : flush_loop e i ss w = (None, (ss', w')) ->
  moved ss (nothing ss) ss' /\ Forall (fun s : DSink => pending_records (runtime s) = []) ss'.
Proof.
  revert i w ss' w'. induction ss as [|s ss IH]; intros i w ss' w' E; cbn in E; [injection E as <- <-; split; constructor|].
  unfold flush in E. destruct (flush_pending_buffer (e i) (to_state s w)) as [[[err|] st]|] eqn:Ef; [done| |done].
  destruct (flush_loop e (S i) ss _) as [r [rest w2]] eqn:El. cbn in E. injection E as -> <- <-.
  destruct (IH _ _ _ _ El) as [IH1 IH2]. pose proof (flush_empties _ _ _ Ef) as Hp.
  split; constructor; [|done|exact Hp|done].
  apply (call_step s w [] st (flush_pending_buffer (e i) (to_state s w))); [|exact Ef].
  intros Hb _. by apply flush_call.
Qed.

Lemma stop_backends_frame (st : SinkState (S := B) (R := R) (F := V)) : frame (stop_backends st).2 = frame st.
Proof.
  unfold stop_backends. destruct (retired_rescue (rt st)); destruct (SinkRuntime.stop _) as [p e]; done.
Qed.

Lemma proc_end_moves (ss : list DSink) w : moved ss (nothing ss) (proc_end_loop ss w).2.1 /\
  (fun s => pending_records (runtime s)) <$> (proc_end_loop ss w).2.1 = (fun s => pending_records (runtime s)) <$> ss.
Proof.
  revert w. induction ss as [|s ss IH]; intros w; [split; [constructor|done]|]. cbn [proc_end_loop].
  pose proof (stop_backends_frame (to_state s w)) as Hf. destruct (stop_backends (to_state s w)) as [e st]. cbn [snd] in Hf.
  pose proof (step_frame s w st Hf) as Hs. unfold frame in Hf. cbn in Hf. injection Hf as _ _ _ Hp _ _.
  destruct e as [e|]; cbn [of_state fst snd] in *.
  - split; [constructor; [exact Hs|apply moved_refl]|]. by rewrite !fmap_cons; cbn; rewrite Hp.
  - specialize (IH (mkShared (opened st) (bad_queue st))). destruct (proc_end_loop ss _) as [e' [rest w']].
    cbn [fst snd] in *. destruct IH as [IH1 IH2]. split; [by constructor|]. rewrite !fmap_cons, IH2. cbn. by rewrite Hp.
Qed.

Lemma recover_frame (st : SinkState (S := B) (R := R) (F := V)) h me : frame (recover_sink st h me).2 = frame st.
Proof.
  unfold recover_sink. destruct (_ || _); [done|]. cbn zeta.
  match goal with |- context [match ?x with Some e => (inr e, _) | None => _ end] => destruct x end; [done|]. by destruct me.
Qed.

Lemma fix_moves h me (ss : list DSink) w : moved ss (nothing ss) (proc_fix_loop h me ss w).2.1.
Proof.
  revert w. induction ss as [|s ss IH]; intros w; [constructor|]. cbn [proc_fix_loop]. destruct (_ && _).
  - pose proof (recover_frame (to_state s w) h me) as Hf. destruct (recover_sink (to_state s w) h me) as [r st]. cbn [snd] in Hf.
    pose proof (step_frame s w st Hf). destruct r; (constructor; [done|apply moved_refl]).
  - specialize (IH w). destruct (proc_fix_loop h me ss w) as [r [rest w']]. cbn [fst snd] in *.
    constructor; [by apply step_same|exact IH].
Qed.

(** ** Packages

    The sends of one rule's units: a sink that is ready takes its vector. *)
Definition ready_units (ss : list DSink) (per : list (list Unit)) : list (list Unit) :=
  zip_with (fun s us => if is_ready s then us else []) ss per.

Lemma send_group_moves e i ss per w ss' w' : length per = length ss ->
  send_group e i ss per w = Some (None, (ss', w')) -> moved ss (ready_units ss per) ss'.
Proof.
  revert i per w ss' w'. induction ss as [|s ss IH]; intros i [|us per] w ss' w' Hl; try done; cbn [send_group].
  { intros [= <- <-]. constructor. }
  injection Hl as Hl. cbn [ready_units zip_with].
  assert (Hnil : forall s1 w1 us1, step s us1 s1 -> match send_group e (S i) ss per w1 with
      | Some (res, (rest, w2)) => Some (res, (s1 :: rest, w2)) | None => None end = Some (None, (ss', w')) ->
      moved (s :: ss) (us1 :: ready_units ss per) ss').
  { intros s1 w1 us1 Hs. destruct (send_group e (S i) ss per w1) as [[r [rest w2]]|] eqn:E; [|done].
    intros [= -> <- <-]. constructor; [exact Hs|by eapply IH]. }
  destruct (is_ready s); [|apply Hnil; by apply step_same]. destruct us as [|u us]; [apply Hnil; by apply step_same|].
  unfold send_package.
  destruct (send_package_to_sink (e i) _ (to_state s w)) as [[[er|] st]|] eqn:Es; [done| |done].
  apply Hnil. apply (call_step s w (u :: us) st _ (fun Hb Hp => package_call (e i) _ (to_state s w) Hb Hp) Es).
Qed.

Lemma emit_entry_length (d : Disp) ss u per per' : emit_entry d ss u per = Some per' -> length per' = length per.
Proof.
  revert per per'. induction ss as [|s ss IH]; intros [|x per] per'; cbn; try by intros [= <-].
  destruct (match pre_tags s with [] => _ | _ => _ end); [|done]. cbn.
  destruct (emit_entry d ss u per) as [rest|] eqn:E; [|done]. cbn. intros [= <-]. cbn. by rewrite (IH _ _ E).
Qed.

Lemma push_targets_length (d : Disp) u ss ms slot n per per' : push_targets d u ss ms slot n per = Some per' -> length per' = length per.
Proof.
  revert ms slot n per per'. induction ss as [|s ss IH]; intros [|m ms] slot n [|x per] per'; cbn; try by intros [= <-].
  destruct m.
  - destruct slot; [|done]. cbn. destruct (enrich d s _); [|done]. cbn.
    destruct (push_targets d u ss ms _ _ per) as [rest|] eqn:E; [|done]. cbn. intros [= <-]. cbn. by rewrite (IH _ _ _ _ _ E).
  - destruct (push_targets d u ss ms _ _ per) as [rest|] eqn:E; [|done]. cbn. intros [= <-]. cbn. by rewrite (IH _ _ _ _ _ E).
Qed.

Lemma push_all_length push entries (per per' : list (list Unit)) :
  (forall u per per', push u per = Some per' -> length per' = length per) ->
  push_all push entries per = Some per' -> length per' = length per.
Proof.
  intros Hp. revert per. induction entries as [|u l IH]; intros per; cbn; [by intros [= <-]|].
  destruct (push u per) as [p1|] eqn:E; [|done]. cbn. intros E2. rewrite (IH _ E2). by eapply Hp.
Qed.

Lemma oml_proc_length oe (d : Disp) us q m per errs q' :
  oml_proc_batch wildmatch_new wm_matches oe d us q m = Some (inl per, errs, q') -> length per = length (sinks d).
Proof.
  assert (Hn : length (no_units d) = length (sinks d)) by (unfold no_units; apply length_map).
  unfold oml_proc_batch. destruct us as [|u us]; [by intros [= <- _ _]|]. destruct (_ && _).
  - unfold emit_without_transform_batch. destruct (push_all _ _ _) as [p|] eqn:E; [|done]. cbn. intros [= <- _ _].
    rewrite <- Hn. eapply push_all_length, E. intros ? ? ?. apply emit_entry_length.
  - destruct (run_oml_pipeline_vec _ _ _ _ _) as [[[su fa] q1]|]; [|done]. cbn.
    destruct (emit_failures _ _ _ _) as [[er|] out]; [done|]. unfold fanout_transformed_batch.
    destruct (push_all _ _ _) as [p|] eqn:E; [|done]. cbn. intros [= <- _ _].
    rewrite <- Hn. eapply push_all_length, E. intros v p1 p2. unfold push_transformed_record. destruct p1 as [|x p1]; [by intros [= <-]|].
    destruct (stamp _ _); [|done]. cbn. destruct (_ =? 0); [by intros [= <-]|]. apply push_targets_length.
Qed.

(** The same group later: the conditions, tags and models of its sinks do not
    change, their state does. *)
Definition same_conf (d d1 : Disp) : Prop :=
  conf_name d1 = conf_name d /\ aggregate_mdl d1 = aggregate_mdl d /\ global_tags d1 = global_tags d
  /\ Forall2 alike (sinks d) (sinks d1).

Lemma alike_refl s : alike s s.
Proof. done. Qed.
Lemma alike_trans ss s1 s2 : Forall2 alike ss s1 -> Forall2 alike s1 s2 -> Forall2 alike ss s2.
Proof.
  intros Ha. revert s2. induction Ha as [|x y ss s1 (A1 & A2 & A3) _ IH]; intros s2 Hb; inversion Hb as [|? z ? ? (B1 & B2 & B3)]; subst;
    constructor; [split_and!; congruence|by apply IH].
Qed.

(** The units that the sinks of the group [d] are given of a package, by rule:
    what the fan-out of [oml_proc_batch] puts into their vectors, if they are
    ready when their turn comes. *)
Inductive dealt (d : Disp) : list (string * list Unit) -> list (list Unit) -> Prop :=
  | dealt_nil : dealt d [] (nothing (sinks d))
  | dealt_none nm gs per : dealt d gs per -> dealt d ((nm, []) :: gs) per
  | dealt_rule nm u us gs d1 oe q per errs q' per' :
      same_conf d d1 ->
      oml_proc_batch wildmatch_new wm_matches oe d1 (u :: us) q (meta u) = Some (inl per, errs, q') ->
      dealt d gs per' ->
      dealt d ((nm, u :: us) :: gs) (zip_with app (ready_units (sinks d1) per) per').

Lemma send_groups_moves d0 e oe k gs o o' : same_conf d0 (out_d o) ->
  send_groups wildmatch_new wm_matches e oe k gs o = Some (None, o') ->
  same_conf d0 (out_d o') /\ exists per, dealt d0 gs per /\ moved (sinks (out_d o)) per (sinks (out_d o')).
Proof.
  revert k o. induction gs as [|[nm us] gs IH]; intros k o Hc; cbn [send_groups].
  { intros [= <-]. split; [done|]. exists (nothing (sinks d0)). split; [constructor|].
    rewrite (nothing_length _ (sinks (out_d o))); [apply moved_refl|]. destruct Hc as (_ & _ & _ & Hl). by eapply Forall2_length. }
  destruct us as [|u us].
  { intros E. destruct (IH _ _ Hc E) as (Hc' & per & Hd & Hm). split; [done|]. exists per. split; [by constructor|done]. }
  destruct (oml_proc_batch _ _ _ _ _ _ _) as [[[[per|er] errs] q']|] eqn:Eo; cbn [mbind option_bind]; [|done..].
  cbn [out_d out_errors out_cache]. destruct (send_group (e k) 0 _ per _) as [[res [ss w]]|] eqn:Es; [|done]. cbn.
  destruct res as [er|]; [done|]. intros E.
  pose proof (send_group_moves _ _ _ _ _ _ _ (oml_proc_length _ _ _ _ _ _ _ _ Eo) Es) as Hm1.
  assert (Hc1 : same_conf d0 (set_sinks (out_d o) ss w)).
  { destruct Hc as (C1 & C2 & C3 & C4). split_and!; [done..|]. cbn. eapply alike_trans; [exact C4|by eapply moved_alike]. }
  destruct (IH _ (mkOut (set_sinks (out_d o) ss w) _ _) Hc1 E) as (Hc' & per' & Hd & Hm). split; [done|].
  exists (zip_with app (ready_units (sinks (out_d o)) per) per'). split; [by econstructor|]. eapply moved_trans; [exact Hm1|exact Hm].
Qed.

(** ** A whole task *)

#[local] Existing Instance dispatcher_group.
Local Abbreviation Ev := (Event (P := list Unit) (H := ASinkHandle (S := B))).

(** The calls of a task that returns: those of the events before the end of its
    channel, then the last ones. *)
Lemma returned_trace (a : SinkTask (D := TaskGroup)) (evs : list Ev) a' : async_proc a evs = Returned a' ->
  exists pre post tr g, evs = pre ++ EvClosed :: post /\ replay tr (group a) = (None, g)
    /\ omap act_package tr = omap package_of pre
    /\ replay (P := list Unit) (H := ASinkHandle (S := B)) last_acts g = (None, group a').
Proof.
  revert a. induction evs as [|ev evs IH]; intros a; [done|]. cbn [async_proc].
  pose proof (step_replay a ev) as T. pose proof (acts_packages a ev) as Ha.
  destruct (task_step a ev) as [a1|a1|e a1|]; [| |done..].
  - intros E. destruct (IH _ E) as (pre & post & tr & g & -> & Hr & Hp & Hl). destruct T as (T & _).
    exists (ev :: pre), post, (acts_of a ev ++ tr), g. split; [done|]. rewrite replay_app, T. split; [exact Hr|].
    rewrite omap_app, (Ha _ eq_refl), Hp. split; [|exact Hl]. cbn. by destruct (package_of ev).
  - destruct T as (-> & Hg & _). pose proof (end_replay a1) as T. destruct (task_end a1) as [a2|a2|e a2|]; try done.
    cbn [finish_flow]. intros [= <-]. exists [], evs, [], (group a). rewrite <- Hg. split_and!; [done..|]. apply T.
Qed.

(** No record waits in a buffer. *)
Definition nothing_buffered (g : TaskGroup) : Prop :=
  Forall (fun s : DSink => pending_records (runtime s) = []) (sinks (disp g)).

(** What the sinks of [d] are given of a package, and of several. *)
Definition package_dealt (d : Disp) (pkg : list Unit) (per : list (list Unit)) : Prop := dealt d (hm_iter (group_by_rule pkg)) per.
Definition total (ss : list DSink) (pers : list (list (list Unit))) : list (list Unit) := foldr (zip_with app) (nothing ss) pers.

Lemma with_sinks_conf d0 (d : Disp) us ss w : same_conf d0 d -> moved (sinks d) us ss -> same_conf d0 (set_sinks d ss w).
Proof. intros (C1 & C2 & C3 & C4) Hm. split_and!; [done..|]. cbn. eapply alike_trans; [exact C4|by eapply moved_alike]. Qed.

Lemma active_first_moves nm (ss : list DSink) : moved ss (nothing ss) (active_first nm ss).
Proof.
  induction ss as [|s ss IH]; [constructor|]. cbn. case_bool_decide; constructor;
    [apply step_status|apply moved_refl|by apply step_same|exact IH].
Qed.

Lemma ingress_sinks (d : Disp) : sinks (send_ingress_stat d).2 = sinks d /\ forall d0, same_conf d0 d -> same_conf d0 (send_ingress_stat d).2.
Proof. unfold send_ingress_stat. by destruct (0 <? _). Qed.

Lemma record_sinks (d : Disp) n : sinks (record_ingress_batch d n) = sinks d /\ forall d0, same_conf d0 d -> same_conf d0 (record_ingress_batch d n).
Proof. unfold record_ingress_batch. by destruct (n =? 0). Qed.

Local Abbreviation Act' := (Act (P := list Unit) (H := ASinkHandle (S := B))).

(** What one call does to the sinks. *)
Definition act_moves (d0 : Disp) (x : Act') (g g' : TaskGroup) : Prop :=
  same_conf d0 (disp g') /\ exists per,
    match act_package x with Some p => package_dealt d0 p per | None => per = nothing (sinks (disp g)) end
    /\ moved (sinks (disp g)) per (sinks (disp g')).

Lemma quiet_act d0 x (g g' : TaskGroup) : act_package x = None -> same_conf d0 (disp g') ->
  moved (sinks (disp g)) (nothing (sinks (disp g))) (sinks (disp g')) -> act_moves d0 x g g'.
Proof. intros E Hc Hm. split; [done|]. exists (nothing (sinks (disp g))). by rewrite E. Qed.

Lemma nothing_right ss us ss' : moved ss us ss' -> zip_with app us (nothing ss) = us.
Proof. intros Hm. induction Hm as [|x u y ss us s1 _ _ IH]; [done|]. unfold nothing in *. cbn. by rewrite app_nil_r, IH. Qed.

Lemma package_moves d0 p g g' : same_conf d0 (disp g) -> perform (APackage p : Act') g = (None, g') -> act_moves d0 (APackage p) g g'.
Proof.
  intros Hc. cbn [perform sg_ingest sg_record_ingress dispatcher_group]. unfold group_ingest, group_sink_package.
  cbn [disp cache errors calls]. destruct (record_sinks (disp g) (zlen p)) as [Er Hr].
  destruct (send_groups _ _ _ _ _ _ _) as [[res o]|] eqn:E; cbn; [|done]. destruct res as [er|]; [done|]. intros [= <-].
  destruct (send_groups_moves d0 _ _ _ _ (mkOut _ _ _) _ (Hr _ Hc) E) as (Hc' & per & Hd & Hm). split; [exact Hc'|].
  exists per. split; [exact Hd|]. cbn in Hm. by rewrite Er in Hm.
Qed.

Lemma perform_moves d0 (x : Act') g g' : same_conf d0 (disp g) -> perform x g = (None, g') -> act_moves d0 x g g'.
Proof.
  intros Hc. destruct x as [p|nm| |h| | | |]; [by apply package_moves|..]; intros Hp; apply quiet_act; try done; revert Hp;
    cbn [perform sg_active_one sg_freeze_all sg_close_channel sg_proc_fix sg_flush sg_send_stat sg_send_ingress_stat sg_proc_end dispatcher_group].
  all: unfold proc_fix, group_flush, group_send_stat, group_send_ingress_stat, proc_end.
  - intros [= <-]. eapply with_sinks_conf; [|apply active_first_moves]. eapply with_sinks_conf; [done|].
    apply moved_map. intros s. apply step_status.
  - intros [= <-]. cbn. pose proof (moved_map freeze (sinks (disp g)) (fun s => step_status s false)) as Hm.
    rewrite <- (nothing_right _ _ _ Hm). eapply moved_trans; [exact Hm|].
    rewrite (nothing_length _ (map freeze (sinks (disp g)))) by (by rewrite length_map). apply active_first_moves.
  - by intros [= <-].
  - intros [= <-]. apply moved_refl.
  - destruct (proc_fix_loop _ _ _ _) as [r [ss w]] eqn:E. pose proof (fix_moves h (mon_err (calls g)) (sinks (disp g)) (shared (disp g))) as Hm.
    rewrite E in Hm. destruct r; [|done]. intros [= <-]. by eapply with_sinks_conf.
  - destruct (proc_fix_loop _ _ _ _) as [r [ss w]] eqn:E. pose proof (fix_moves h (mon_err (calls g)) (sinks (disp g)) (shared (disp g))) as Hm.
    rewrite E in Hm. destruct r; [|done]. by intros [= <-].
  - destruct (match sinks (disp g) with [] => _ | _ => _ end); [done|]. by intros [= <-].
  - destruct (match sinks (disp g) with [] => _ | _ => _ end); [done|]. intros [= <-]. apply moved_refl.
  - destruct (mon_err _); [done|]. intros [= <-]. by apply ingress_sinks.
  - destruct (mon_err _); [done|]. intros [= <-]. cbn. rewrite (proj1 (ingress_sinks _)). apply moved_refl.
  - destruct (flush_loop _ _ _ _) as [r [ss w]] eqn:E. intros [= -> <-]. apply flush_loop_moves in E as [E _]. by eapply with_sinks_conf.
  - destruct (flush_loop _ _ _ _) as [r [ss w]] eqn:E. intros [= -> <-]. by apply flush_loop_moves in E as [E _].
  - pose proof (proc_end_moves (sinks (disp g)) (shared (disp g))) as [Hm _]. destruct (proc_end_loop _ _) as [r [ss w]].
    intros [= -> <-]. by eapply with_sinks_conf.
  - pose proof (proc_end_moves (sinks (disp g)) (shared (disp g))) as [Hm _]. destruct (proc_end_loop _ _) as [r [ss w]].
    by intros [= -> <-].
Qed.

Lemma nothing_left ss us ss' : moved ss us ss' -> zip_with app (nothing ss) us = us.
Proof. intros Hm. induction Hm as [|x u y ss us s1 _ _ IH]; [done|]. unfold nothing in *. cbn. by rewrite IH. Qed.

Lemma total_length ss ss' pers : length ss = length ss' -> total ss pers = total ss' pers.
Proof. intros E. unfold total. by rewrite (nothing_length ss ss' E). Qed.

Lemma replay_moves d0 (xs : list Act') g g' : same_conf d0 (disp g) -> replay xs g = (None, g') ->
  same_conf d0 (disp g') /\ exists pers, Forall2 (package_dealt d0) (omap act_package xs) pers
    /\ moved (sinks (disp g)) (total (sinks (disp g)) pers) (sinks (disp g')).
Proof.
  revert g. induction xs as [|x xs IH]; intros g Hc; cbn [replay].
  { intros [= <-]. split; [done|]. exists []. split; [constructor|apply moved_refl]. }
  destruct (perform x g) as [[er|] g1] eqn:E; [done|]. intros Hr.
  destruct (perform_moves d0 x g g1 Hc E) as (Hc1 & per & Hd1 & Hm1). destruct (IH g1 Hc1 Hr) as (Hc' & pers & Hd2 & Hm2).
  split; [done|]. pose proof (proj2 (moved_length _ _ _ Hm1)) as El. rewrite (total_length _ (sinks (disp g))) in Hm2 by done.
  cbn [omap list_omap]. destruct (act_package x) as [p|].
  - exists (per :: pers). split; [by constructor|]. by eapply moved_trans.
  - exists pers. split; [done|]. subst per. pose proof (moved_trans _ _ _ _ _ Hm1 Hm2) as Hm.
    by rewrite (nothing_length _ _ (eq_sym El)), (nothing_left _ _ _ Hm2) in Hm.
Qed.

Lemma last_acts_empty (g g' : TaskGroup) : replay (last_acts : list Act') g = (None, g') -> nothing_buffered g'.
Proof.
  unfold last_acts. cbn [replay perform sg_flush dispatcher_group]. intros Hg.
  unfold group_flush in Hg. destruct (flush_loop _ 0 _ _) as [e1 [ss w]] eqn:Ef. destruct e1; [done|].
  apply flush_loop_moves in Ef as [_ Ef]. cbn [sg_send_stat dispatcher_group] in Hg. unfold group_send_stat in Hg.
  match type of Hg with context [match ?e with Some _ => _ | None => _ end] => destruct e end; [done|].
  cbn [sg_send_ingress_stat dispatcher_group] in Hg. unfold group_send_ingress_stat in Hg.
  match type of Hg with context [match ?e with Some _ => _ | None => _ end] => destruct e end; [done|].
  cbn [sg_proc_end dispatcher_group] in Hg. unfold proc_end in Hg.
  match type of Hg with context [proc_end_loop ?s ?w] =>
    pose proof (proc_end_moves s w) as [_ Hb]; destruct (proc_end_loop s w) as [e3 [ss3 w3]] end.
  cbn [fst snd] in *. destruct e3; [done|]. injection Hg as <-. unfold nothing_buffered. cbn [disp with_disp sinks set_sinks].
  apply Forall_fmap with (f := fun s : DSink => pending_records (runtime s)) (P := fun l => l = []).
  rewrite Hb. apply Forall_fmap. revert Ef. unfold send_ingress_stat. by destruct (0 <? _).
Qed.

(** A sink whose buffer is empty at the end: all it held has a fate. *)
Lemma moved_logged ss us ss' : Forall sink_ok ss -> moved ss us ss' ->
  Forall (fun s : DSink => pending_records (runtime s) = []) ss' ->
  Forall3 (fun s us s' => logged s' = held s ++ unit_items s us) ss us ss'.
Proof.
  intros Hok Hm. induction Hm as [|s u s' ss us ss' [Ht _] _ IH]; intros Hp; [constructor|].
  apply Forall_cons in Hok as [Hs Hok]. apply Forall_cons in Hp as [Hp0 Hp]. constructor; [|by apply IH].
  destruct (Ht Hs) as (_ & He & _). unfold held in He at 1. unfold buffered in He at 1. rewrite Hp0 in He. cbn in He.
  by rewrite app_nil_r in He.
Qed.

End DispatcherGroup.

(** ** A concrete task *)

#[local] Existing Instances list_types list_api list_laws log_backend no_oml.

Definition demo_env (n k i : nat) : CallEnv (S := list (list LRec)) :=
  mkEnv Normal None None (fun _ => 0) (fun _ => inl []).
Definition demo_oenv (n k : nat) : OmlEnv := mkOmlEnv (fun _ => None) (fun _ => None).

Definition demo_task_group : SinkGroup (TaskGroup (V := unit) (B := list (list LRec)) (M := unit) (Q := unit) (F := LField) (R := LRec))
    (list (SinkRecUnit (R := LRec))) (ASinkHandle (S := list (list LRec))) :=
  dispatcher_group (V := unit) (fun p : string => p) (fun p t => bool_decide (p = t)) map_to_list
    demo_env demo_oenv (fun _ => None).

Definition demo_task := SinkTask_new (mkTaskGroup (DispatcherLaws.demo_group None) tt [] 0) "g" 0 (reporter (bus_new 1) ExitPolicy.Sink "g").
Definition demo_events : list (Event (P := list (SinkRecUnit (R := LRec))) (H := ASinkHandle (S := list (list LRec)))) :=
  [EvPackage [mkUnit 0 (WplName "r") [("lvl", Chars "x")]] 1; EvFlushTick; EvCommandClosed; EvStatTick; EvClosed].

Lemma demo_sinks_ok : Forall sink_ok (sinks (DispatcherLaws.demo_group None)).
Proof. by repeat (constructor; [split; vm_compute; congruence|]). Qed.


Lemma draining_task_ends_witness :
  match async_proc (H0 := demo_task_group) demo_task ([EvStatTick] ++ EvClosed :: [EvFlushTick]) with
  | Returned _ | Errored _ _ => True | _ => False end.
Proof.
  pose proof (draining_task_ends (H0 := demo_task_group) demo_task [EvStatTick] [EvFlushTick] eq_refl
    ltac:(repeat constructor)) as T.
  by destruct (async_proc (H0 := demo_task_group) demo_task ([EvStatTick] ++ EvClosed :: [EvFlushTick])).
Defined.

Lemma timeout_stop_ignored_witness :
  match async_proc (H0 := demo_task_group) demo_task [EvCommand (Stop (Timeout_ 200)) 5 6; EvFlushTick] with
  | InLoop a' => Drain.is_draining (drain_state a') = false | Errored _ _ => True | _ => False end.
Proof.
  apply (timeout_stop_ignored (H0 := demo_task_group) demo_task 200 5 6 [EvFlushTick]);
    [reflexivity|reflexivity|lia|repeat constructor].
Defined.

Lemma infra_ends_with_last_channel_witness :
  match async_proc_infra (H0 := demo_task_group)
    (InfraTask_new [mkTaskGroup (DispatcherLaws.demo_group None) tt [] 0] 0 (reporter (bus_new 1) Infra "i")) [InClosed 0] with
  | IReturned a' => i_reported a' = [mkEvent 1 Infra "i" ReloadDrain.Drained] | _ => True end.
Proof.
  pose proof (infra_ends_with_last_channel (H0 := demo_task_group)
    [mkTaskGroup (DispatcherLaws.demo_group None) tt [] 0] 0 (bus_new 1) "i" [InClosed 0] ltac:(done)) as T.
  destruct (async_proc_infra _ _); try exact I. by destruct T.
Defined.
