(* ===== verification/Control.v ===== *)
(** The control plane of the engine ([src/facade/runtime_ctrl.rs]): the state
    that a status snapshot shows, the requests that clients send to the main
    loop, and the semaphore of one permit that lets a single reload through.

    The state sits behind a mutex and the requests run concurrently, so the bus
    is a step relation: one step per critical section, per semaphore operation
    and per channel operation.  A permit is not a separate object: it travels
    inside the request ([_reload_permit]) and is given back when the request is
    dropped.  A client's future is assumed to run to its end. *)
From Stdlib Require Import ZArith Lia String.
From stdpp Require Import prelude strings relations.
From S2P Require Import Prelude.
Local Open Scope string_scope.
Local Open Scope list_scope.
Local Open Scope Z_scope.

(** ** Commands and results *)

Inductive CommandType := LoadModel.

Inductive RuntimeCommandResult :=
  | ReloadDone
  | ReloadDoneWithForceReplace
  | ReloadFailed (reason : string).

Inductive RuntimeCommandSendError := RuntimeNotReady | ReloadBusy | ChannelClosed.

Record RuntimeCommandResp := mkResp {
  resp_id : string;
  resp_accepted : bool;
  resp_result : RuntimeCommandResult;
}.

Definition resp_of (id : string) (r : RuntimeCommandResult) : RuntimeCommandResp := mkResp id true r.

(** [_reload_permit] is [Some] of a permit for a reload. *)
Record RuntimeCommandReq := mkReq {
  request_id : string;
  command : CommandType;
  has_permit : bool;
}.

(** ** The shared state *)

Record RuntimeControlState := mkControl {
  accepting_commands : bool;
  current_request_id : option string;
  last_reload_request_id : option string;
  last_reload_result : option RuntimeCommandResult;
  last_reload_started_at : option Z;
  last_reload_finished_at : option Z;
}.

Definition control_default : RuntimeControlState := mkControl false None None None None None.

Record RuntimeStatusSnapshot := mkStatus {
  s_accepting : bool;
  s_reloading : bool;
  s_current : option string;
  s_last_id : option string;
  s_last_result : option RuntimeCommandResult;
  s_started_at : option Z;
  s_finished_at : option Z;
}.

Definition status_snapshot (s : RuntimeControlState) : RuntimeStatusSnapshot :=
  mkStatus (accepting_commands s) (bool_decide (is_Some (current_request_id s)))
    (current_request_id s) (last_reload_request_id s) (last_reload_result s)
    (last_reload_started_at s) (last_reload_finished_at s).

Definition set_accepting (b : bool) (s : RuntimeControlState) : RuntimeControlState :=
  mkControl b (current_request_id s) (last_reload_request_id s) (last_reload_result s)
    (last_reload_started_at s) (last_reload_finished_at s).

Definition activate : RuntimeControlState -> RuntimeControlState := set_accepting true.
Definition deactivate : RuntimeControlState -> RuntimeControlState := set_accepting false.

Definition mark_reload_submitted (id : string) (now : Z) (s : RuntimeControlState) : RuntimeControlState :=
  mkControl (accepting_commands s) (Some id) (last_reload_request_id s) (last_reload_result s)
    (Some now) None.

Definition mark_reload_running (id : string) (now : Z) (s : RuntimeControlState) : RuntimeControlState :=
  if bool_decide (current_request_id s = Some id) then s
  else mkControl (accepting_commands s) (Some id) (last_reload_request_id s) (last_reload_result s)
         (Some now) None.

Definition mark_running (id : string) (c : CommandType) (now : Z) (s : RuntimeControlState)
    : RuntimeControlState :=
  match c with LoadModel => mark_reload_running id now s end.

Definition finish_reload (id : string) (r : RuntimeCommandResult) (now : Z) (s : RuntimeControlState)
    : RuntimeControlState :=
  mkControl (accepting_commands s) None (Some id) (Some r) (last_reload_started_at s) (Some now).

Definition rollback_reload_submission (id : string) (s : RuntimeControlState) : RuntimeControlState :=
  if bool_decide (current_request_id s = Some id)
  then mkControl (accepting_commands s) None (last_reload_request_id s) (last_reload_result s) None None
  else s.

(** ** The bus

    Where a call of [RuntimeCommandSender::request] stands: past the readiness
    check, past the semaphore, past the mark (about to send, the request built
    with its permit), after a failed send, after the rollback (the request is
    still owned by the error value). *)
Inductive Caller :=
  | Checked (id : string) (c : CommandType)
  | Acquired (id : string) (c : CommandType)
  | Sending (r : RuntimeCommandReq)
  | SendFailed (r : RuntimeCommandReq)
  | RolledBack (r : RuntimeCommandReq).

(** Where the main loop stands in [handle_runtime_command]. *)
Inductive Handler :=
  | Waiting
  | Received (r : RuntimeCommandReq)
  | Handling (r : RuntimeCommandReq)
  | Finished (r : RuntimeCommandReq) (res : RuntimeCommandResult).

(** What the calls returned and what the main loop answered. *)
Inductive Outcome :=
  | Refused (id : string) (e : RuntimeCommandSendError)
  | Accepted (id : string)
  | Answered (r : RuntimeCommandResp).

Record Bus := mkBus {
  control : RuntimeControlState;
  permits : Z;
  capacity : nat;
  queue : list RuntimeCommandReq;
  rx_open : bool;
  callers : list Caller;
  handler : Handler;
  outcomes : list Outcome;
}.

(** [runtime_command_bus]: a semaphore of one permit. *)
Definition runtime_command_bus (buffer : nat) : Bus :=
  mkBus control_default 1 (Nat.max buffer 1) [] true [] Waiting [].

Definition is_reload (c : CommandType) : bool := match c with LoadModel => true end.

Definition released (r : RuntimeCommandReq) : Z := if has_permit r then 1 else 0.

(** What a call does next, on its own: the state it leaves the bus in, what it
    becomes ([None] when it returned) and its outcome.  [None] as a whole: the
    call waits. *)
Definition caller_step (b : Bus) (now : Z) (c : Caller)
    : option (RuntimeControlState * Z * list RuntimeCommandReq * option Caller * list Outcome) :=
  match c with
  | Checked id cmd =>
      if is_reload cmd then
        if permits b <=? 0 then Some (control b, permits b, queue b, None, [Refused id ReloadBusy])
        else Some (control b, permits b - 1, queue b, Some (Acquired id cmd), [])
      else Some (control b, permits b, queue b, Some (Sending (mkReq id cmd false)), [])
  | Acquired id cmd =>
      Some (mark_reload_submitted id now (control b), permits b, queue b,
            Some (Sending (mkReq id cmd true)), [])
  | Sending r =>
      if rx_open b then
        if (length (queue b) <? capacity b)%nat
        then Some (control b, permits b, queue b ++ [r], None, [Accepted (request_id r)])
        else None
      else Some (control b, permits b, queue b, Some (SendFailed r), [])
  | SendFailed r =>
      Some (if is_reload (command r) then rollback_reload_submission (request_id r) (control b)
            else control b,
            permits b, queue b, Some (RolledBack r), [])
  | RolledBack r =>
      Some (control b, permits b + released r, queue b, None, [Refused (request_id r) ChannelClosed])
  end.

Inductive bus_step : Bus -> Bus -> Prop :=
  | step_accepting b v :
      bus_step b (mkBus (set_accepting v (control b)) (permits b) (capacity b) (queue b) (rx_open b)
                        (callers b) (handler b) (outcomes b))
  | step_request b id cmd :
      bus_step b
        (if accepting_commands (control b)
         then mkBus (control b) (permits b) (capacity b) (queue b) (rx_open b)
                    (callers b ++ [Checked id cmd]) (handler b) (outcomes b)
         else mkBus (control b) (permits b) (capacity b) (queue b) (rx_open b)
                    (callers b) (handler b) (outcomes b ++ [Refused id RuntimeNotReady]))
  | step_caller b now l c r st p q c' out :
      callers b = l ++ c :: r ->
      caller_step b now c = Some (st, p, q, c', out) ->
      bus_step b (mkBus st p (capacity b) q (rx_open b) (l ++ option_list c' ++ r) (handler b)
                        (outcomes b ++ out))
  | step_recv b r q :
      handler b = Waiting -> queue b = r :: q -> rx_open b = true ->
      bus_step b (mkBus (control b) (permits b) (capacity b) q (rx_open b) (callers b)
                        (Received r) (outcomes b))
  | step_running b r now :
      handler b = Received r ->
      bus_step b (mkBus (mark_running (request_id r) (command r) now (control b)) (permits b) (capacity b)
                        (queue b) (rx_open b) (callers b) (Handling r) (outcomes b))
  | step_finish b r res now :
      handler b = Handling r ->
      bus_step b (mkBus (finish_reload (request_id r) res now (control b)) (permits b) (capacity b)
                        (queue b) (rx_open b) (callers b) (Finished r res) (outcomes b))
  | step_respond b r res :
      handler b = Finished r res ->
      bus_step b (mkBus (control b) (permits b + released r) (capacity b) (queue b) (rx_open b)
                        (callers b) Waiting (outcomes b ++ [Answered (resp_of (request_id r) res)]))
  | step_close b :
      (** the engine ends its loop: the receiver goes with the queued requests *)
      handler b = Waiting ->
      bus_step b (mkBus (control b) (permits b + foldr (fun r => Z.add (released r)) 0 (queue b))
                        (capacity b) [] false (callers b) Waiting (outcomes b)).

Definition reachable (buffer : nat) : Bus -> Prop := rtc bus_step (runtime_command_bus buffer).

(** ** Specification: a lock with an owner *)

Inductive Lock := Free | Held (id : string).

Inductive lock_step : Lock -> Lock -> Prop :=
  | lock_acquire id : lock_step Free (Held id)
  | lock_release id : lock_step (Held id) Free.

(** Who holds the permit. *)
Definition caller_holds (c : Caller) : option string :=
  match c with
  | Checked _ _ => None
  | Acquired id _ => Some id
  | Sending r | SendFailed r | RolledBack r => Some (request_id r)
  end.

Definition handler_holds (h : Handler) : option string :=
  match h with
  | Waiting => None
  | Received r | Handling r | Finished r _ => Some (request_id r)
  end.

Definition holders (b : Bus) : list string :=
  omap caller_holds (callers b) ++ (request_id <$> queue b) ++ option_list (handler_holds (handler b)).

Definition owner (b : Bus) : Lock :=
  match holders b with [] => Free | id :: _ => Held id end.

(** Whether the state already shows the holder's id. *)
Definition caller_shows (c : Caller) : option string :=
  match c with
  | Checked _ _ | Acquired _ _ | RolledBack _ => None
  | Sending r | SendFailed r => Some (request_id r)
  end.

Definition handler_shows (h : Handler) : option string :=
  match h with
  | Waiting | Finished _ _ => None
  | Received r | Handling r => Some (request_id r)
  end.

Definition shown (b : Bus) : list string :=
  omap caller_shows (callers b) ++ (request_id <$> queue b) ++ option_list (handler_shows (handler b)).

(** * Laws

    The control bus: one reload at a time, and a status that tells it. *)

(** ** Invariant *)

(** Every request carries the permit its client took. *)
Definition caller_ok (c : Caller) : Prop :=
  match c with
  | Checked _ _ | Acquired _ _ => True
  | Sending r | SendFailed r | RolledBack r => has_permit r = true
  end.

Definition handler_ok (h : Handler) : Prop :=
  match h with
  | Waiting => True
  | Received r | Handling r | Finished r _ => has_permit r = true
  end.

Record bus_inv (buffer : nat) (b : Bus) : Prop := {
  inv_callers : Forall caller_ok (callers b);
  inv_queue : Forall (fun r => has_permit r = true) (queue b);
  inv_handler : handler_ok (handler b);
  inv_capacity : capacity b = Nat.max buffer 1;
  inv_permit : permits b + zlen (holders b) = 1;
  inv_positive : 0 <= permits b;
  inv_status : rx_open b = true -> current_request_id (control b) = head (shown b);
  inv_closed : rx_open b = false -> handler b = Waiting /\ queue b = [];
}.

Lemma omap_middle {A B} (f : A -> option B) l c r :
  omap f (l ++ c :: r) = omap f l ++ option_list (f c) ++ omap f r.
Proof. rewrite omap_app. cbn. destruct (f c); done. Qed.

Lemma omap_option_list {A B} (f : A -> option B) l c r :
  omap f (l ++ option_list c ++ r) = omap f l ++ option_list (c ≫= f) ++ omap f r.
Proof. rewrite !omap_app. destruct c as [c|]; [cbn; destruct (f c)|]; done. Qed.

Lemma caller_shows_holds c id : caller_shows c = Some id -> caller_holds c = Some id.
Proof. destruct c; cbn; congruence. Qed.

Lemma handler_shows_holds h id : handler_shows h = Some id -> handler_holds h = Some id.
Proof. destruct h; cbn; congruence. Qed.

Lemma omap_shows_holds l : (length (omap caller_shows l) <= length (omap caller_holds l))%nat.
Proof.
  induction l as [|c l IH]; [done|]. cbn.
  destruct (caller_shows c) eqn:E; [rewrite (caller_shows_holds _ _ E); cbn; lia|].
  destruct (caller_holds c); cbn; lia.
Qed.

Lemma released_queue q :
  Forall (fun r => has_permit r = true) q -> foldr (fun r => Z.add (released r)) 0 q = zlen q.
Proof.
  induction 1 as [|r q Hr Hq IH]; [done|]. cbn [foldr]. unfold released at 1.
  rewrite IH, Hr. unfold zlen. cbn [length]. lia.
Qed.

(** Lists of at most one element, split at one of its members. *)
Lemma alone_app {A} (x : A) (l1 l2 : list A) :
  zlen (l1 ++ x :: l2) <= 1 -> l1 = [] /\ l2 = [].
Proof.
  unfold zlen. rewrite length_app. cbn.
  destruct l1; [|cbn; lia]. destruct l2; [done|cbn; lia].
Qed.

Lemma cons_app_head {A} (x : A) l : [x] ++ l = x :: l.
Proof. done. Qed.

Lemma omap_nil_shows l : omap caller_holds l = [] -> omap caller_shows l = [].
Proof. intros H. pose proof (omap_shows_holds l) as L. rewrite H in L. by destruct (omap caller_shows l); [|cbn in L; lia]. Qed.

Lemma handler_nil h : handler_holds h = None -> h = Waiting.
Proof. by destruct h. Qed.

(** A caller that holds the permit is alone: nobody else holds it, the queue
    is empty and the main loop waits. *)
Lemma holder_alone buffer b l c r id :
  bus_inv buffer b -> callers b = l ++ c :: r -> caller_holds c = Some id ->
  permits b = 0 /\ omap caller_holds l = [] /\ omap caller_holds r = [] /\ queue b = [] /\ handler b = Waiting.
Proof.
  intros I E Hc. pose proof (inv_permit _ _ I) as P. pose proof (inv_positive _ _ I).
  unfold holders in P. rewrite E, omap_middle, Hc, <- !app_assoc in P.
  change (option_list (Some id)) with [id] in P. rewrite cons_app_head in P.
  destruct (alone_app id (omap caller_holds l)
    (omap caller_holds r ++ (request_id <$> queue b) ++ option_list (handler_holds (handler b)))) as [A B].
  { lia. }
  rewrite A, B in P. unfold zlen in P. cbn in P.
  apply app_nil in B as [B1 B]. apply app_nil in B as [B2 B3].
  apply fmap_nil_inv in B2. repeat split; [lia|done..|].
  apply handler_nil. by destruct (handler_holds (handler b)).
Qed.

(** So does the main loop when it has a request. *)
Lemma handler_alone buffer b id :
  bus_inv buffer b -> handler_holds (handler b) = Some id ->
  permits b = 0 /\ omap caller_holds (callers b) = [] /\ queue b = [].
Proof.
  intros I Hc. pose proof (inv_permit _ _ I) as P. pose proof (inv_positive _ _ I).
  unfold holders in P. rewrite Hc, app_assoc in P. change (option_list (Some id)) with [id] in P.
  destruct (alone_app id (omap caller_holds (callers b) ++ (request_id <$> queue b)) []) as [A _]; [lia|].
  rewrite A in P. unfold zlen in P. cbn in P. apply app_nil in A as [A1 A2].
  apply fmap_nil_inv in A2. split_and!; [lia|done..].
Qed.

(** And a queued request. *)
Lemma queue_alone buffer b r q :
  bus_inv buffer b -> queue b = r :: q ->
  permits b = 0 /\ omap caller_holds (callers b) = [] /\ q = [] /\ handler b = Waiting.
Proof.
  intros I Eq. pose proof (inv_permit _ _ I) as P. pose proof (inv_positive _ _ I).
  unfold holders in P. rewrite Eq, fmap_cons, <- app_comm_cons in P.
  destruct (alone_app (request_id r) (omap caller_holds (callers b))
    ((request_id <$> q) ++ option_list (handler_holds (handler b)))) as [A B]; [lia|].
  rewrite A, B in P. unfold zlen in P. cbn in P. apply app_nil in B as [B1 B2].
  apply fmap_nil_inv in B1. split_and!; [lia|done..|].
  apply handler_nil. by destruct (handler_holds (handler b)).
Qed.

(** What a holder that is alone has to leave. *)
Lemma alone_inv buffer cap h ro l r st p q c' outs :
  Forall caller_ok l -> Forall caller_ok r -> omap caller_holds l = [] -> omap caller_holds r = [] ->
  h = Waiting -> cap = Nat.max buffer 1 ->
  Forall caller_ok (option_list c') -> Forall (fun r => has_permit r = true) q ->
  p + zlen (option_list (c' ≫= caller_holds)) + zlen q = 1 -> 0 <= p ->
  (ro = true -> current_request_id st = head (option_list (c' ≫= caller_shows) ++ (request_id <$> q))) ->
  (ro = false -> q = []) ->
  bus_inv buffer (mkBus st p cap q ro (l ++ option_list c' ++ r) h outs).
Proof.
  intros Fl Fr Al Ar Hw Cap Fc Fq P P0 St Cl.
  split; cbn; unfold holders, shown; cbn;
    rewrite ?omap_option_list, ?Al, ?Ar, ?(omap_nil_shows _ Al), ?(omap_nil_shows _ Ar), ?Hw, ?app_nil_r, ?app_nil_l;
    try done.
  - by rewrite !Forall_app.
  - unfold zlen in *. rewrite length_app, length_fmap. lia.
  - auto.
Qed.

(** A step of a caller that does not change what the status shows. *)
Lemma caller_step_inv buffer b now l c r st p q c' out :
  bus_inv buffer b -> callers b = l ++ c :: r ->
  caller_step b now c = Some (st, p, q, c', out) ->
  bus_inv buffer (mkBus st p (capacity b) q (rx_open b) (l ++ option_list c' ++ r) (handler b)
                        (outcomes b ++ out)).
Proof.
  intros I E. pose proof (inv_callers _ _ I) as F. rewrite E in F.
  apply Forall_app in F as [Fl F]. apply Forall_cons_1 in F as [Fc Fr].
  pose proof (inv_status _ _ I) as St. pose proof (inv_permit _ _ I) as P.
  unfold shown, holders in *. rewrite E in St, P. rewrite omap_middle in St, P.
  destruct (caller_holds c) as [id|] eqn:Hc.
  - destruct (holder_alone _ _ _ _ _ _ I E Hc) as (P0 & Al & Ar & Q & Hw).
    rewrite (omap_nil_shows _ Al), (omap_nil_shows _ Ar), Q, Hw in St. cbn in St.
    destruct c as [? ?|? cmd|rq|rq|rq]; cbn in Hc; simplify_eq; cbn [caller_step];
      repeat case_match; intros; simplify_eq; apply alone_inv; cbn [mbind option_bind caller_holds];
      try done; try (by apply I); rewrite ?P0, ?Q; unfold released; try rewrite Fc; try done;
      try (by constructor; [done|constructor]); try (by destruct (command rq)).
    intros O. apply St in O. cbn in O. unfold rollback_reload_submission.
    by rewrite bool_decide_eq_true_2.
  - destruct c as [id cmd|? ?|rq|rq|rq]; cbn in Hc; try done.
    cbn [caller_step]. destruct cmd. cbn [is_reload].
    destruct (Z.leb_spec (permits b) 0); intros; simplify_eq; cbn [option_list app] in *.
    + split; cbn; unfold holders, shown; cbn; rewrite ?omap_app; try apply I.
      * by apply Forall_app.
      * exact P.
      * exact St.
    + split; cbn; unfold holders, shown; cbn; rewrite ?omap_option_list; try apply I.
      * by rewrite Forall_app, Forall_cons.
      * rewrite omap_middle. unfold zlen in *. rewrite !length_app in *. cbn [caller_holds] in *.
        change (length (option_list (Some id))) with 1%nat.
        change (length (@option_list string None)) with 0%nat in P. lia.
      * lia.
      * rewrite omap_middle. exact St.
Qed.

Lemma bus_step_inv buffer b b' : bus_inv buffer b -> bus_step b b' -> bus_inv buffer b'.
Proof.
  intros I S. destruct S as [b v|b id cmd|b now l c r st p q c' out E1 E2|b r q Hw Eq Ho|b r now Eh|b r res now Eh|b r res Eh|b Hw].
  - destruct I; split; done.
  - case_match; destruct I; split; try done.
    + cbn. apply Forall_app; split; [done|]. by repeat constructor.
    + unfold holders in *. cbn. rewrite omap_app. cbn. by rewrite app_nil_r.
    + unfold shown in *. cbn. rewrite omap_app. cbn. by rewrite app_nil_r.
  - by eapply caller_step_inv.
  - destruct (queue_alone _ _ _ _ I Eq) as (P & A & -> & _).
    pose proof (inv_queue _ _ I) as Q. rewrite Eq in Q. apply Forall_cons_1 in Q as [Q _].
    split; cbn; try apply I; try done.
    + pose proof (inv_permit _ _ I) as P'. unfold holders in *. cbn. rewrite A, Eq, Hw in *. exact P'.
    + pose proof (inv_status _ _ I) as P'. unfold shown in *. cbn. rewrite Eq, Hw in P'.
      rewrite (omap_nil_shows _ A) in *. exact P'.
    + congruence.
  - pose proof (inv_handler _ _ I) as Hh. pose proof (inv_closed _ _ I) as C. rewrite Eh in Hh, C.
    split; cbn; try apply I; try done.
    + pose proof (inv_permit _ _ I) as P. unfold holders in *. cbn. by rewrite Eh in P.
    + destruct (handler_alone buffer b (request_id r) I) as (P & A & Q); [by rewrite Eh|].
      intros O. pose proof (inv_status _ _ I O) as St. unfold shown in *. rewrite Eh in St. cbn.
      rewrite (omap_nil_shows _ A), Q in *. cbn in *.
      destruct (command r). cbn. unfold mark_reload_running. by rewrite bool_decide_eq_true_2.
    + intros O. by destruct (C O).
  - pose proof (inv_handler _ _ I) as Hh. pose proof (inv_closed _ _ I) as C. rewrite Eh in Hh, C.
    destruct (handler_alone buffer b (request_id r) I) as (P & A & Q); [by rewrite Eh|].
    split; cbn; try apply I; try done.
    + pose proof (inv_permit _ _ I) as P'. unfold holders in *. cbn. by rewrite Eh in P'.
    + intros O. unfold shown. cbn. by rewrite (omap_nil_shows _ A), Q.
    + intros O. by destruct (C O).
  - pose proof (inv_handler _ _ I) as Hh. pose proof (inv_closed _ _ I) as C. rewrite Eh in Hh, C.
    destruct (handler_alone buffer b (request_id r) I) as (P & A & Q); [by rewrite Eh|].
    cbn in Hh. split; cbn; try apply I; try done; unfold holders, shown, released; cbn; rewrite ?Hh, ?A, ?Q.
    + unfold zlen. cbn. lia.
    + lia.
    + intros O. pose proof (inv_status _ _ I O) as St. unfold shown in St. by rewrite Eh, Q in St.
  - pose proof (released_queue _ (inv_queue _ _ I)) as R. pose proof (inv_permit _ _ I) as P.
    pose proof (inv_positive _ _ I). unfold holders in P. rewrite Hw in P.
    split; cbn; try apply I; try done; unfold holders; cbn; rewrite ?R.
    + unfold zlen in *. rewrite !length_app, length_fmap in *. cbn in *. lia.
    + unfold zlen. lia.
Qed.

Lemma reachable_inv buffer b : reachable buffer b -> bus_inv buffer b.
Proof.
  intros R. unfold reachable in R.
  assert (I : bus_inv buffer (runtime_command_bus buffer)) by (split; try done; cbn; auto).
  revert I. induction R as [|b1 b2 b3 S _ IH]; [done|]. eauto using bus_step_inv.
Qed.

(** ** The theorems *)

Lemma holders_at_most_one buffer b : bus_inv buffer b -> holders b = [] \/ exists id, holders b = [id].
Proof.
  intros I. pose proof (inv_permit _ _ I) as P. pose proof (inv_positive _ _ I).
  destruct (holders b) as [|x [|y l]]; [auto|eauto|]. unfold zlen in P. cbn [length] in P. lia.
Qed.

(** One reload at a time, whatever the interleaving of the clients and the
    main loop: the permit and its holders add up to one, so at most one request
    is past the semaphore; a client about to send finds room in the channel, so
    its send does not wait; and while the main loop lives the status shows the
    id of the request in flight and no other, so that it says reloading only
    while the permit is out. *)
Theorem reload_single_flight (buffer : nat) (b : Bus) :
  reachable buffer b ->
  permits b + zlen (holders b) = 1 /\
  (holders b = [] \/ exists id, holders b = [id]) /\
  (forall rq, Sending rq ∈ callers b -> queue b = [] /\ (length (queue b) < capacity b)%nat) /\
  (rx_open b = true ->
     s_current (status_snapshot (control b)) = head (shown b) /\
     (s_reloading (status_snapshot (control b)) = true -> permits b = 0)).
Proof.
  intros R. apply reachable_inv in R as I. split_and!.
  - apply I.
  - by eapply holders_at_most_one.
  - intros rq Hin. apply list_elem_of_split in Hin as (l & r & E).
    destruct (holder_alone _ _ _ _ _ (request_id rq) I E) as (_ & _ & _ & Q & _); [done|].
    rewrite Q, (inv_capacity _ _ I). cbn. split; [done|lia].
  - intros O. cbn. pose proof (inv_status _ _ I O) as St. split; [done|].
    rewrite bool_decide_eq_true. intros [id Hid]. rewrite St in Hid.
    pose proof (inv_permit _ _ I) as P. pose proof (inv_positive _ _ I).
    enough (length (shown b) <= length (holders b))%nat as L.
    { destruct (shown b); [done|]. cbn in L. unfold zlen in P. lia. }
    unfold shown, holders. rewrite !length_app, !length_fmap.
    pose proof (omap_shows_holds (callers b)).
    assert (length (option_list (handler_shows (handler b)))
      <= length (option_list (handler_holds (handler b))))%nat by (destruct (handler b); cbn; lia).
    lia.
Qed.

Definition demo_req : RuntimeCommandReq := mkReq "r1" LoadModel true.

(** A client takes the permit while a second one is checked, and sends. *)
Definition demo_sent : Bus :=
  mkBus (mark_reload_submitted "r1" 5 (activate control_default)) 0 1 [demo_req] true
    [Checked "r2" LoadModel] Waiting [Accepted "r1"].

Ltac caller_turn n now :=
  eapply rtc_l; [
    match goal with
    | |- bus_step ?b _ =>
        let cs := eval vm_compute in (callers b) in
        let l := eval vm_compute in (take n cs) in
        let r := eval vm_compute in (drop (S n) cs) in
        refine (step_caller b now l _ r _ _ _ _ _ _ _); reflexivity
    end |]; cbn.

Lemma demo_sent_reachable : reachable 1 demo_sent.
Proof.
  unfold reachable.
  eapply rtc_l; [apply (step_accepting _ true)|]. cbn.
  eapply rtc_l; [apply (step_request _ "r1" LoadModel)|]. cbn.
  eapply rtc_l; [apply (step_request _ "r2" LoadModel)|]. cbn.
  do 3 caller_turn 0%nat 5. apply rtc_refl.
Qed.

Lemma reload_single_flight_witness :
  permits demo_sent + zlen (holders demo_sent) = 1 /\ s_current (status_snapshot (control demo_sent)) = Some "r1".
Proof.
  destruct (reload_single_flight 1 demo_sent demo_sent_reachable) as (A & _ & _ & B).
  split; [exact A|]. exact (proj1 (B eq_refl)).
Defined.

(** Only the permit decides who owns the lock. *)
Lemma owner_same b b' : holders b' = holders b -> owner b' = owner b.
Proof. unfold owner. by intros ->. Qed.

Lemma owner_acquires b b' id : holders b = [] -> holders b' = [id] -> lock_step (owner b) (owner b').
Proof. unfold owner. intros -> ->. constructor. Qed.

Lemma owner_releases b b' id : holders b = [id] -> holders b' = [] -> lock_step (owner b) (owner b').
Proof. unfold owner. intros -> ->. constructor. Qed.

Lemma released_or_kept buffer b b' :
  bus_inv buffer b -> holders b' = [] -> owner b' = owner b \/ lock_step (owner b) (owner b').
Proof.
  intros I H. destruct (holders_at_most_one _ _ I) as [E|[id E]].
  - left. apply owner_same. congruence.
  - right. eauto using owner_releases.
Qed.

Lemma caller_step_lock buffer b now l c r st p q c' out :
  bus_inv buffer b -> callers b = l ++ c :: r ->
  caller_step b now c = Some (st, p, q, c', out) ->
  let b' := mkBus st p (capacity b) q (rx_open b) (l ++ option_list c' ++ r) (handler b) (outcomes b ++ out) in
  owner b' = owner b \/ lock_step (owner b) (owner b').
Proof.
  intros I E S b'.
  destruct (caller_holds c) as [id|] eqn:Hc.
  - destruct (holder_alone _ _ _ _ _ _ I E Hc) as (_ & Al & Ar & Q & Hw).
    assert (Hb : holders b = [id]).
    { unfold holders. by rewrite E, omap_middle, Al, Ar, Q, Hw, Hc. }
    assert (Hb' : holders b' = option_list (c' ≫= caller_holds) ++ (request_id <$> q)).
    { unfold holders, b'. cbn [callers queue handler].
      by rewrite omap_option_list, Al, Ar, Hw, !app_nil_r, app_nil_l. }
    clearbody b'. destruct c as [?|? cmd|rq|rq|rq]; cbn in Hc; simplify_eq; cbn [caller_step] in S;
      repeat case_match; simplify_eq; rewrite ?Q in Hb'; cbn in Hb';
      first [by apply (released_or_kept buffer) | left; apply owner_same; by rewrite Hb', Hb].
  - destruct c as [id [] | | | |]; cbn in Hc; try done. cbn [caller_step is_reload] in S.
    destruct (Z.leb_spec (permits b) 0) as [|P]; simplify_eq.
    + left. apply owner_same. unfold holders, b'. cbn [callers queue handler].
      by rewrite omap_option_list, E, omap_middle.
    + right. apply (owner_acquires _ _ id).
      * pose proof (inv_permit _ _ I) as P'. unfold zlen in P'.
        destruct (holders b); [done|]. cbn [length] in P'. lia.
      * pose proof (inv_permit _ _ I) as P'. unfold holders in P'. rewrite E, omap_middle in P'.
        unfold holders, b'. cbn [callers queue handler]. rewrite omap_option_list.
        change (option_list (Some (Acquired id LoadModel) ≫= caller_holds)) with [id].
        change (option_list (caller_holds (Checked id LoadModel))) with (@nil string) in P'.
        destruct (omap caller_holds l); [|unfold zlen in P'; cbn in P'; lia].
        destruct (omap caller_holds r); [|unfold zlen in P'; cbn in P'; lia].
        destruct (queue b); [|unfold zlen in P'; cbn in P'; lia].
        destruct (handler_holds (handler b)); [unfold zlen in P'; cbn in P'; lia|done].
Qed.

(** C30: the bus refines a lock with an owner: whatever its clients and the main
    loop do, a step of the bus leaves the owner of the permit as it is, or gives
    the free lock to one request, or takes it back from its owner. *)
Theorem reload_gate_refines_lock (buffer : nat) (b b' : Bus) :
  reachable buffer b -> bus_step b b' ->
  owner b' = owner b \/ lock_step (owner b) (owner b').
Proof.
  intros R S. apply reachable_inv in R as I.
  destruct S as [b v|b id cmd|b now l c r st p q c' out E1 E2|b r q Hw Eq Ho|b r now Eh|b r res now Eh|b r res Eh|b Hw].
  - by left.
  - left. apply owner_same. destruct (accepting_commands (control b)); [|done].
    unfold holders. cbn. rewrite omap_app. cbn. by rewrite app_nil_r.
  - by eapply caller_step_lock.
  - left. apply owner_same. destruct (queue_alone _ _ _ _ I Eq) as (_ & A & -> & _).
    unfold holders. cbn. by rewrite A, Eq, Hw.
  - left. apply owner_same. unfold holders. cbn. by rewrite Eh.
  - left. apply owner_same. unfold holders. cbn. by rewrite Eh.
  - destruct (handler_alone buffer b (request_id r) I) as (_ & A & Q); [by rewrite Eh|].
    apply (released_or_kept buffer); [done|]. unfold holders. cbn. by rewrite A, Q.
  - destruct (queue b) as [|r q] eqn:Q.
    + left. apply owner_same. unfold holders. cbn. by rewrite Q, Hw.
    + destruct (queue_alone _ _ _ _ I Q) as (_ & A & -> & _).
      apply (released_or_kept buffer); [done|]. unfold holders. cbn. by rewrite A.
Qed.

(** The main loop takes the queued request. *)
Definition demo_received : Bus :=
  mkBus (control demo_sent) 0 1 [] true (callers demo_sent) (Received demo_req) (outcomes demo_sent).

Lemma reload_gate_refines_lock_witness : owner demo_received = Held "r1".
Proof.
  destruct (reload_gate_refines_lock 1 demo_sent demo_received demo_sent_reachable) as [E|S].
  - by apply (step_recv demo_sent demo_req []).
  - exact E.
  - inversion S.
Defined.

(** The queued request of a loop that ended is dropped without a rollback: the
    permit is back, the status says reloading for good. *)
Theorem closed_bus_reports_reloading :
  exists b, reachable 1 b /\ permits b = 1 /\ holders b = [] /\
    s_reloading (status_snapshot (control b)) = true.
Proof.
  eexists. split; [|split_and!].
  - unfold reachable. eapply (transitivity (R := rtc bus_step)); [exact demo_sent_reachable|].
    eapply rtc_l; [by apply step_close|]. apply rtc_refl.
  - reflexivity.
  - reflexivity.
  - reflexivity.
Qed.
