(* ===== verification/Reload.v ===== *)
(** Reloading the processing tasks while the engine runs: the task manager's
    operations on one role ([src/runtime/actor/routine.rs]), the runtime that
    owns the groups, the parse router and the drain tracker
    ([src/orchestrator/engine/service.rs]), and the reload command of the main
    loop ([src/facade/engine.rs]).

    The operations thread the runtime and stop at the first error, as [?] does.
    What happens outside of them is an [Env]: what the tasks of a group have
    become by the [k]-th time the code looks at the groups, the clock at that
    time, and the drain events that arrive. *)
From Stdlib Require Import ZArith Lia String.
From stdpp Require Import prelude strings.
From S2P Require Import Prelude Actor ExitPolicy Router ReloadDrain Control.
Local Open Scope string_scope.
Local Open Scope list_scope.
Local Open Scope Z_scope.

(** ** One role of the task manager *)

Definition of_role (r : TaskRole) (rg : RoleTaskGroup) : bool := bool_decide (role rg = r).

(** [for rg in &self.role_groups]: a command to the groups of a role that still
    run. *)
Fixpoint command_role (gs : Groups) (r : TaskRole)
    (send : TaskGroup -> Log -> option RunError * Log) (lg : Log) : option RunError * Log :=
  match gs with
  | [] => (None, lg)
  | rg :: gs =>
      if of_role r rg && negb (routin_is_finished (group rg)) then
        match send (group rg) lg with
        | (None, lg) => command_role gs r send lg
        | res => res
        end
      else command_role gs r send lg
  end.

Definition isolate_role (gs : Groups) (r : TaskRole) : Log -> option RunError * Log :=
  command_role gs r cmd_alone.

Definition execute_role_all (gs : Groups) (r : TaskRole) : Log -> option RunError * Log :=
  command_role gs r cmd_execute_all.

(** [for mut rg in self.role_groups.drain(..)]: an error drops the groups kept
    so far and the rest of the drain, the vector stays empty. *)
Fixpoint stop_role (gs : Groups) (r : TaskRole) (stop : ShutdownCmd) (lg : Log)
    : Groups * option RunError * Log :=
  match gs with
  | [] => ([], None, lg)
  | rg :: gs =>
      if of_role r rg then
        match wait_grace_down (group rg) (Some (Stop stop)) lg with
        | (_, Some e, lg) => ([], Some e, lg)
        | (_, None, lg) => stop_role gs r stop lg
        end
      else
        match stop_role gs r stop lg with
        | (kept, None, lg) => (rg :: kept, None, lg)
        | res => res
        end
  end.

(** ** Starting the processing tasks *)

Section Reload.
Context {B C M : Type} `{Channel B C}.

(** What the code outside answers when the tasks of a new configuration are
    spawned: the channel and the handle of every parser worker (or the error of
    building one), the infrastructure task and the sink tasks when the resource
    has them, whether it has the parsing rules, the maintainer task. *)
Record EngineResource := mkResource {
  parsers : list ((C * Handle) + RunError);
  infra_task : option Handle;
  sink_tasks : option (list Handle);
  has_resc : bool;
  maint_task : Handle;
  moni_agent : M;
}.

Record ProcessingTaskSet := mkProcessing {
  parser_senders : list C;
  parser_group : TaskGroup;
  infra_group : TaskGroup;
  sink_group : option TaskGroup;
  maint_group : TaskGroup;
  drain_tracker : ReloadDrainTracker;
}.

Definition append_all (g : TaskGroup) (hs : list Handle) : TaskGroup := foldl append g hs.

(** The loop over [0..args.parallel]; a failed build stops the workers already
    started and ends the start. *)
Fixpoint start_parsers (ps : list ((C * Handle) + RunError)) (cs : list C) (g : TaskGroup) (lg : Log)
    : (list C * TaskGroup + RunError) * Log :=
  match ps with
  | [] => (inl (cs, g), lg)
  | inl (c, h) :: ps => start_parsers ps (cs ++ [c]) (append g h) lg
  | inr e :: _ => (inr e, (wait_grace_down g (Some (Stop Immediate)) lg).2)
  end.

Definition start_parser_tasks_frames (r : EngineResource) (lg : Log) : (list C * TaskGroup + RunError) * Log :=
  let g := TaskGroup_new "wpl-parse" (Timeout_ 200) in
  match infra_task r, has_resc r, sink_tasks r with
  | Some _, true, Some _ => start_parsers (parsers r) [] g lg
  | _, _, _ => (inl ([], g), lg)
  end.

Definition start_processing_tasks (r : EngineResource) (epoch : Z) (lg : Log)
    : (ProcessingTaskSet + RunError) * Log :=
  match start_parser_tasks_frames r lg with
  | (inr e, lg) => (inr e, lg)
  | (inl (cs, pg), lg) =>
      let infra := append_all (TaskGroup_new "infra" (Timeout_ 200)) (option_list (infra_task r)) in
      let sinks := match infra_task r with Some _ => sink_tasks r | None => None end in
      (inl (mkProcessing cs pg infra
              (append_all (TaskGroup_new "oml-sink" (Timeout_ 200)) <$> sinks)
              (append (TaskGroup_new "amt" (Timeout_ 200)) (maint_task r))
              (mkTracker epoch (zlen cs) (default 0 (zlen <$> sinks)) (zlen (option_list (infra_task r))))),
       lg)
  end.

(** The groups in the order [install] registers them. *)
Definition installed (p : ProcessingTaskSet) : Groups :=
  mkRoleTaskGroup Infra (infra_group p) ::
  option_list (mkRoleTaskGroup Sink <$> sink_group p) ++
  [mkRoleTaskGroup Maintainer (maint_group p); mkRoleTaskGroup Parser (parser_group p)].

Definition install (p : ProcessingTaskSet) (gs : Groups) : Groups :=
  foldl (fun gs rg => append_group_with_role gs (role rg) (group rg)) gs (installed p).

Fixpoint down_all (gs : list TaskGroup) (lg : Log) : option RunError * Log :=
  match gs with
  | [] => (None, lg)
  | g :: gs =>
      match wait_grace_down g (Some (Stop Immediate)) lg with
      | (_, Some e, lg) => (Some e, lg)
      | (_, None, lg) => down_all gs lg
      end
  end.

Definition shutdown_unused (p : ProcessingTaskSet) : Log -> option RunError * Log :=
  down_all (parser_group p :: option_list (sink_group p) ++ [infra_group p; maint_group p]).

(** ** The runtime *)

Record DetachedProcessingGroup := mkDetached { d_group : TaskGroup; stop_deadline : Z }.

Record EngineRuntime := mkRuntime {
  task_manager : Groups;
  parse_router : ParseDispatchRouter C;
  monitor_sink : option M;
  reload_timeout : Z;
  active_processing : ReloadDrainTracker;
  detached_groups : list DetachedProcessingGroup;
  commands : Log;
}.

Record Env := mkEnv {
  tasks : nat -> TaskGroup -> TaskGroup;
  clock : nat -> Z;
  arrivals : list (Z * option ReloadDrainEvent);
}.

Definition ms (n : Z) : Z := n * 1000000.

Definition detached_force_stop_timeout (reload_timeout : Z) : Z :=
  Z.max (Z.min reload_timeout (ms 1000)) (ms 50).

(** [checked_duration_since] is [None] once the deadline has passed. *)
Definition remaining_timeout (deadline now : Z) : Z + RunError :=
  if now <=? deadline then inl (deadline - now) else inr ValidationError.

Definition RT (A : Type) : Type := EngineRuntime -> (A + RunError) * EngineRuntime.

Definition rret {A} (x : A) : RT A := fun rt => (inl x, rt).

Definition rbind {A D} (m : RT A) (k : A -> RT D) : RT D := fun rt =>
  match m rt with
  | (inl x, rt) => k x rt
  | (inr e, rt) => (inr e, rt)
  end.

(** [if let Err(err) = m]: the error is a value. *)
Definition rtry {A} (m : RT A) : RT (A + RunError) := fun rt => let '(r, rt) := m rt in (inl r, rt).

Definition rfail {A} (e : RunError) : RT A := fun rt => (inr e, rt).

Local Notation "'do!' x ':=' m 'in' k" := (rbind m (fun x => k))
  (at level 10, x pattern, m at level 100, k at level 200).

Definition set_groups (rt : EngineRuntime) (gs : Groups) (ds : list DetachedProcessingGroup) (lg : Log)
    : EngineRuntime :=
  mkRuntime gs (parse_router rt) (monitor_sink rt) (reload_timeout rt) (active_processing rt) ds lg.

Definition set_router (rt : EngineRuntime) (r : ParseDispatchRouter C) : EngineRuntime :=
  mkRuntime (task_manager rt) r (monitor_sink rt) (reload_timeout rt) (active_processing rt)
    (detached_groups rt) (commands rt).

Definition set_tracker (rt : EngineRuntime) (t : ReloadDrainTracker) : EngineRuntime :=
  mkRuntime (task_manager rt) (parse_router rt) (monitor_sink rt) (reload_timeout rt) t
    (detached_groups rt) (commands rt).

(** What the tasks have become since the last look. *)
Definition map_group (f : TaskGroup -> TaskGroup) (rg : RoleTaskGroup) : RoleTaskGroup :=
  mkRoleTaskGroup (role rg) (f (group rg)).

Definition look (e : Env) (k : nat) : RT unit := fun rt =>
  (inl tt, set_groups rt (map (map_group (tasks e k)) (task_manager rt))
     (map (fun d => mkDetached (tasks e k (d_group d)) (stop_deadline d)) (detached_groups rt))
     (commands rt)).

Definition on_role (f : Groups -> Log -> option RunError * Log) : RT unit := fun rt =>
  match f (task_manager rt) (commands rt) with
  | (None, lg) => (inl tt, set_groups rt (task_manager rt) (detached_groups rt) lg)
  | (Some e, lg) => (inr e, set_groups rt (task_manager rt) (detached_groups rt) lg)
  end.

Definition rt_stop_role (r : TaskRole) : RT unit := fun rt =>
  match stop_role (task_manager rt) r Immediate (commands rt) with
  | (gs, None, lg) => (inl tt, set_groups rt gs (detached_groups rt) lg)
  | (gs, Some e, lg) => (inr e, set_groups rt gs (detached_groups rt) lg)
  end.

(** The drain over the detached groups: joined when finished, stopped with a
    bounded wait when overdue, kept otherwise. *)
Fixpoint prune_detached (ds : list DetachedProcessingGroup) (now wait : Z) (lg : Log)
    : list DetachedProcessingGroup * option RunError * Log :=
  match ds with
  | [] => ([], None, lg)
  | d :: ds =>
      if routin_is_finished (d_group d) then
        match (wait_finished (d_group d)).2 with
        | Some e => ([], Some e, lg)
        | None => prune_detached ds now wait lg
        end
      else if stop_deadline d <=? now then
        match wait_grace_down_with_timeout (d_group d) (Some (Stop Immediate)) wait lg with
        | (_, Some e, lg) => ([], Some e, lg)
        | (_, None, lg) => prune_detached ds now wait lg
        end
      else
        match prune_detached ds now wait lg with
        | (kept, None, lg) => (d :: kept, None, lg)
        | res => res
        end
  end.

Definition prune_finished_background_processing (now : Z) : RT unit := fun rt =>
  match prune_finished_groups (task_manager rt) with
  | (gs, Some e) => (inr e, set_groups rt gs (detached_groups rt) (commands rt))
  | (gs, None) =>
      match prune_detached (detached_groups rt) now (detached_force_stop_timeout (reload_timeout rt))
              (commands rt) with
      | (ds, None, lg) => (inl tt, set_groups rt gs ds lg)
      | (ds, Some e, lg) => (inr e, set_groups rt gs ds lg)
      end
  end.

Definition isolate_picker (e : Env) (k : nat) : RT unit :=
  do! _ := look e k in
  do! _ := prune_finished_background_processing (clock e k) in
  on_role (fun gs => isolate_role gs Picker).

Definition resume_picker (e : Env) (k : nat) : RT unit :=
  do! _ := look e k in
  do! _ := prune_finished_background_processing (clock e k) in
  on_role (fun gs => execute_role_all gs Picker).

Definition disconnect_parse_router : RT unit := fun rt => (inl tt, set_router rt (begin_reload (parse_router rt))).

Definition install_processing_tasks (p : ProcessingTaskSet) : RT unit := fun rt =>
  (inl tt, mkRuntime (install p (task_manager rt)) (replace (parse_router rt) (parser_senders p))
     (monitor_sink rt) (reload_timeout rt) (drain_tracker p) (detached_groups rt) (commands rt)).

Definition replace_monitor_sink (s : option M) : RT unit := fun rt =>
  (inl tt, mkRuntime (task_manager rt) (parse_router rt) s (reload_timeout rt) (active_processing rt)
     (detached_groups rt) (commands rt)).

(** The [while] loop: each entry of [arrivals] is the clock at the loop head and
    what the receive gives before the timeout ([None]: the timeout, or a closed
    channel); when there is no entry left nothing arrives. *)
Fixpoint drain_loop (evs : list (Z * option ReloadDrainEvent)) (deadline : Z) (t : ReloadDrainTracker)
    : ReloadDrainTracker * option RunError :=
  if is_fully_quiesced t then (t, None)
  else
    match evs with
    | [] => (t, Some ValidationError)
    | (now, ev) :: evs =>
        match remaining_timeout deadline now with
        | inr e => (t, Some e)
        | inl _ =>
            match ev with
            | None => (t, Some ValidationError)
            | Some ev =>
                match observe t ev with
                | None => (t, Some ValidationError)
                | Some t => drain_loop evs deadline t
                end
            end
        end
    end.

Definition detach_processing_roles (deadline : Z) : RT unit := fun rt =>
  let '(gs, ds) :=
    foldl (fun '(gs, ds) r =>
             let '(detached, kept) := detach_role gs r in
             (kept, ds ++ map (fun g => mkDetached g deadline) detached))
          (task_manager rt, detached_groups rt) [Parser; Sink; Infra] in
  (inl tt, set_groups rt gs ds (commands rt)).

Definition wait_processing_drained (e : Env) (k : nat) (deadline : Z) : RT unit :=
  do! _ := (fun rt => match drain_loop (arrivals e) deadline (active_processing rt) with
                      | (t, None) => (inl tt, set_tracker rt t)
                      | (t, Some er) => (inr er, set_tracker rt t)
                      end) in
  do! _ := look e k in
  do! _ := rt_stop_role Maintainer in
  do! _ := (fun rt => detach_processing_roles (clock e k + reload_timeout rt) rt) in
  do! _ := look e (S k) in
  prune_finished_background_processing (clock e (S k)).

Definition force_stop_processing (e : Env) (k : nat) : RT unit :=
  do! _ := look e k in
  do! _ := rt_stop_role Parser in
  do! _ := look e (k + 1) in
  do! _ := rt_stop_role Sink in
  do! _ := look e (k + 2) in
  do! _ := rt_stop_role Infra in
  do! _ := look e (k + 3) in
  do! _ := rt_stop_role Maintainer in
  do! _ := look e (k + 4) in
  prune_finished_background_processing (clock e (k + 4)).

(** ** The reload *)

Definition rt_start (r : EngineResource) : RT ProcessingTaskSet := fun rt =>
  let '(res, lg) := start_processing_tasks r (next_epoch (active_processing rt)) (commands rt) in
  (res, set_groups rt (task_manager rt) (detached_groups rt) lg).

Definition rt_shutdown_unused (p : ProcessingTaskSet) : RT unit := fun rt =>
  (inl tt, set_groups rt (task_manager rt) (detached_groups rt) (shutdown_unused p (commands rt)).2).

(** [res]: what loading the configuration gave.  [true]: force replaced. *)
Definition reload_processing_p0 (e : Env) (res : EngineResource + RunError) : RT bool :=
  match res with
  | inr err => rfail err
  | inl r =>
      do! processing := rt_start r in
      do! deadline := (fun rt => (inl (clock e 0 + reload_timeout rt), rt)) in
      do! isolated := rtry (isolate_picker e 1) in
      match isolated with
      | inr err => do! _ := rt_shutdown_unused processing in rfail err
      | inl _ =>
          do! _ := disconnect_parse_router in
          do! drained := rtry (wait_processing_drained e 2 deadline) in
          do! force_replaced :=
            match drained with
            | inl _ => rret false
            | inr _ =>
                do! forced := rtry (force_stop_processing e 4) in
                match forced with
                | inl _ => rret true
                | inr err => do! _ := rt_shutdown_unused processing in rfail err
                end
            end in
          do! _ := install_processing_tasks processing in
          do! _ := replace_monitor_sink ((fun _ => moni_agent r) <$> infra_task r) in
          do! _ := resume_picker e 9 in
          rret force_replaced
      end
  end.

(** The result the command is answered with. *)
Definition command_result (show : RunError -> string) (r : bool + RunError) : RuntimeCommandResult :=
  match r with
  | inl false => ReloadDone
  | inl true => ReloadDoneWithForceReplace
  | inr err => ReloadFailed (show err)
  end.

(** [handle_runtime_command] between the receive and the answer: what it does to
    the control state and to the runtime, and what it answers. *)
Definition handle_runtime_command (show : RunError -> string) (e : Env) (res : EngineResource + RunError)
    (t0 t1 : Z) (req : RuntimeCommandReq) (s : RuntimeControlState) (rt : EngineRuntime)
    : RuntimeControlState * EngineRuntime * RuntimeCommandResp :=
  let s := mark_running (request_id req) (command req) t0 s in
  let '(r, rt) := match command req with LoadModel => reload_processing_p0 e res rt end in
  let result := command_result show r in
  (finish_reload (request_id req) result t1 s, rt, resp_of (request_id req) result).

End Reload.
Arguments EngineResource C M : clear implicits.
Arguments EngineRuntime C M : clear implicits.
Arguments ProcessingTaskSet C : clear implicits.
