(* ===== verification/ReloadLaws.v ===== *)
(** What a reload leaves: the new processing tasks and no other behind the
    router, the pickers resumed, the old workers alive until their deadline; and
    what a reload that failed half-way leaves. *)
From Stdlib Require Import ZArith Lia String.
From stdpp Require Import prelude strings.
From S2P Require Import Prelude Actor ExitPolicy Router ReloadDrain Control Reload.
Local Open Scope string_scope.
Local Open Scope list_scope.
Local Open Scope Z_scope.

Definition processing (r : TaskRole) : bool :=
  match r with Parser | Sink | Infra | Maintainer => true | _ => false end.

Definition running (rg : RoleTaskGroup) : Prop := routin_is_finished (group rg) = false.

#[export] Instance running_dec rg : Decision (running rg).
Proof. unfold running. apply _. Defined.

Lemma running_cases rg :
  (running rg /\ routin_is_finished (group rg) = false) \/
  (~ running rg /\ routin_is_finished (group rg) = true).
Proof. unfold running. destruct (routin_is_finished (group rg)); auto. Qed.

(** ** The operations on groups *)

Lemma finished_joins g : routin_is_finished g = true -> (wait_finished g).2 = None.
Proof.
  unfold routin_is_finished, wait_finished. intros H.
  rewrite join_all_ok; [done|]. apply Forall_rev, Forall_forall. intros h Hh. left.
  apply (proj1 (forallb_forall _ _) H). by apply list_elem_of_In.
Qed.

(** Pruning never fails and keeps the groups still running. *)
Lemma prune_finished_running (gs : list RoleTaskGroup) : prune_finished_groups gs = (filter running gs, None).
Proof.
  unfold prune_finished_groups. induction gs as [|rg gs IH]; [done|]. cbn [prune_loop].
  rewrite filter_cons. destruct (running_cases rg) as [[R E]|[R E]]; rewrite E.
  - by rewrite IH, decide_True.
  - by rewrite finished_joins, IH, decide_False.
Qed.

Lemma command_role_log (gs : list RoleTaskGroup) r send c lg lg' :
  (forall g l, send g l = broadcast g c l) ->
  command_role gs r send lg = (None, lg') ->
  lg' = lg ++ group_names c (filter (fun rg => role rg = r /\ running rg) gs).
Proof.
  intros Hs. revert lg. induction gs as [|rg gs IH]; intros lg; cbn [command_role].
  { intros. simplify_eq. by rewrite app_nil_r. }
  rewrite filter_cons. unfold of_role. case_bool_decide as Hr; cbn [andb].
  - destruct (running_cases rg) as [[R E]|[R E]]; rewrite E; cbn [negb].
    + rewrite Hs. unfold broadcast. destruct (pub_open (group rg)); [|done].
      intros H. apply IH in H. rewrite decide_True by done. cbn [group_names map].
      by rewrite H, <- app_assoc.
    + intros H. rewrite decide_False by naive_solver. by apply IH.
  - intros H. rewrite decide_False by naive_solver. by apply IH.
Qed.

(** A stop that succeeds removes the role; one that fails leaves no group. *)
Lemma stop_role_kept (gs : list RoleTaskGroup) r stop lg (gs' : list RoleTaskGroup) er lg' :
  stop_role gs r stop lg = (gs', er, lg') ->
  match er with
  | None => gs' = filter (fun rg => role rg <> r) gs
  | Some _ => gs' = []
  end.
Proof.
  revert lg gs' er lg'. induction gs as [|rg gs IH]; intros lg gs' er lg'; cbn [stop_role].
  { intros. by simplify_eq. }
  rewrite filter_cons. unfold of_role. case_bool_decide as Hr.
  - destruct (wait_grace_down (group rg) _ lg) as [[g' [e|]] lg1]; intros H; simplify_eq; [done|].
    apply IH in H. destruct er; [done|]. by rewrite decide_False by naive_solver.
  - destruct (stop_role gs r stop lg) as [[kept [e|]] lg1] eqn:E; intros H; simplify_eq.
    + by apply IH in E.
    + apply IH in E. rewrite decide_True by done. by rewrite E.
Qed.

Lemma prune_detached_kept ds now wait lg ds' lg' :
  prune_detached ds now wait lg = (ds', None, lg') ->
  ds' = filter (fun d => routin_is_finished (d_group d) = false /\ now < stop_deadline d) ds.
Proof.
  revert lg ds' lg'. induction ds as [|d ds IH]; intros lg ds' lg'; cbn [prune_detached].
  { intros. by simplify_eq. }
  rewrite filter_cons. destruct (routin_is_finished (d_group d)) eqn:E.
  - rewrite finished_joins by done. intros H. rewrite decide_False by naive_solver. eauto.
  - destruct (Z.leb_spec (stop_deadline d) now).
    + destruct (wait_grace_down_with_timeout _ _ _ _) as [[g' [e|]] lg1]; [done|].
      intros H'. rewrite decide_False by (intros [_ ?]; lia). eauto.
    + destruct (prune_detached ds now wait lg) as [[kept [e|]] lg1] eqn:E1; intros H'; simplify_eq.
      rewrite decide_True by done. f_equal. eauto.
Qed.

Lemma install_app {C} (p : ProcessingTaskSet C) gs : install p gs = gs ++ installed p.
Proof.
  unfold install. generalize (installed p). intros l. revert gs.
  induction l as [|rg l IH]; intros gs; cbn; [by rewrite app_nil_r|].
  rewrite IH. unfold append_group_with_role. rewrite <- app_assoc. by destruct rg.
Qed.

(** *** What is broadcast

    Commands sent, none of which lets a group run. *)
Definition quiet (lg lg' : Log) : Prop := exists l, lg' = lg ++ l /\ Forall (fun c => c.2 <> Execute All) l.

Lemma quiet_refl lg : quiet lg lg.
Proof. exists []. by rewrite app_nil_r. Qed.
Lemma quiet_trans lg1 lg2 lg3 : quiet lg1 lg2 -> quiet lg2 lg3 -> quiet lg1 lg3.
Proof. intros (l & -> & Hl) (k & -> & Hk). exists (l ++ k). rewrite <- app_assoc. split; [done|]. by apply Forall_app. Qed.

Lemma broadcast_quiet g c lg : c <> Execute All -> quiet lg (broadcast g c lg).2.
Proof. unfold broadcast. destruct (pub_open g); [|intros; apply quiet_refl]. intros Hc. exists [(name g, c)]. split; [done|]. by repeat constructor. Qed.

Lemma grace_down_quiet g s lg : quiet lg (wait_grace_down g (Some (Stop s)) lg).2.
Proof.
  unfold wait_grace_down. cbn. pose proof (broadcast_quiet g (Stop s) lg ltac:(done)) as Hb.
  destruct (broadcast _ _ _) as [[er|] lg1]; [exact Hb|]. by destruct (wait_finished g).
Qed.

Lemma grace_down_timeout_quiet g s w lg : quiet lg (wait_grace_down_with_timeout g (Some (Stop s)) w lg).2.
Proof.
  unfold wait_grace_down_with_timeout. cbn. pose proof (broadcast_quiet g (Stop s) lg ltac:(done)) as Hb.
  destruct (broadcast _ _ _) as [[er|] lg1]; [exact Hb|]. by destruct (join_all_timeout _ _).
Qed.

Lemma command_role_quiet (gs : list RoleTaskGroup) r c lg : c <> Execute All -> quiet lg (command_role gs r (fun g => broadcast g c) lg).2.
Proof.
  intros Hc. revert lg; induction gs as [|rg gs IH]; intros lg; cbn [command_role]; [apply quiet_refl|].
  destruct (_ && _); [|apply IH]. pose proof (broadcast_quiet (group rg) c lg Hc) as Hb.
  destruct (broadcast _ _ _) as [[er|] lg1]; [exact Hb|]. eapply quiet_trans; [exact Hb|apply IH].
Qed.

Lemma stop_role_quiet (gs : list RoleTaskGroup) r s lg : quiet lg (stop_role gs r s lg).2.
Proof.
  revert lg; induction gs as [|rg gs IH]; intros lg; cbn [stop_role]; [apply quiet_refl|]. destruct (of_role r rg).
  - pose proof (grace_down_quiet (group rg) s lg) as Hb. destruct (wait_grace_down _ _ _) as [[g' [er|]] lg1]; [exact Hb|].
    eapply quiet_trans; [exact Hb|apply IH].
  - pose proof (IH lg) as Hi. by destruct (stop_role gs r s lg) as [[k [er|]] lg1].
Qed.

Lemma prune_detached_quiet ds now w lg : quiet lg (prune_detached ds now w lg).2.
Proof.
  revert lg; induction ds as [|d ds IH]; intros lg; cbn [prune_detached]; [apply quiet_refl|]. destruct (routin_is_finished _).
  - destruct (wait_finished _).2; [apply quiet_refl|apply IH].
  - destruct (_ <=? _).
    + pose proof (grace_down_timeout_quiet (d_group d) Immediate w lg) as Hb.
      destruct (wait_grace_down_with_timeout _ _ _ _) as [[g' [er|]] lg1]; [exact Hb|]. eapply quiet_trans; [exact Hb|apply IH].
    + pose proof (IH lg) as Hi. by destruct (prune_detached ds now w lg) as [[k [er|]] lg1].
Qed.

Lemma down_all_quiet gs lg : quiet lg (down_all gs lg).2.
Proof.
  revert lg; induction gs as [|g gs IH]; intros lg; cbn [down_all]; [apply quiet_refl|].
  pose proof (grace_down_quiet g Immediate lg) as Hb. destruct (wait_grace_down _ _ _) as [[g' [er|]] lg1]; [exact Hb|].
  eapply quiet_trans; [exact Hb|apply IH].
Qed.

(** ** The operations on the runtime *)

Section Laws.
Context {C M : Type}.
Implicit Types rt : EngineRuntime C M.

Lemma bind_ok {A D} (m : RT A) (k : A -> RT D) rt (y : D) rt' :
  rbind m k rt = (inl y, rt') -> exists x rt1, m rt = (inl x, rt1) /\ k x rt1 = (inl y, rt').
Proof. unfold rbind. destruct (m rt) as [[x|er] rt1]; [eauto|done]. Qed.

Lemma bind_ok' {D} (m : RT unit) (k : unit -> RT D) rt r rt' :
  rbind m k rt = (r, rt') -> (m rt).1 = inl tt -> exists rt1, m rt = (inl tt, rt1) /\ k tt rt1 = (r, rt').
Proof. unfold rbind. destruct (m rt) as [[[]|er] rt1]; [eauto|done]. Qed.

Lemma bind_err {A D} (m : RT A) (k : A -> RT D) rt er rt' :
  rbind m k rt = (inr er, rt') ->
  m rt = (inr er, rt') \/ exists x rt1, m rt = (inl x, rt1) /\ k x rt1 = (inr er, rt').
Proof. unfold rbind. destruct (m rt) as [[x|e'] rt1]; [eauto|]. intros. simplify_eq. auto. Qed.

Lemma bind_cases {A D} (m : RT A) (k : A -> RT D) rt r rt' :
  rbind m k rt = (r, rt') ->
  (exists er, r = inr er /\ m rt = (inr er, rt')) \/ exists x rt1, m rt = (inl x, rt1) /\ k x rt1 = (r, rt').
Proof. unfold rbind. destruct (m rt) as [[x|e'] rt1]; [eauto|]. intros. simplify_eq. eauto. Qed.

Lemma try_ok {A} (m : RT A) rt r rt' : rtry m rt = (inl r, rt') -> m rt = (r, rt').
Proof. unfold rtry. destruct (m rt). intros. by simplify_eq. Qed.

Lemma try_err {A} (m : RT A) rt er rt' : rtry m rt <> (inr er, rt').
Proof. unfold rtry. by destruct (m rt). Qed.

(** What the operations on groups do not touch. *)
Definition wiring rt : ParseDispatchRouter C * option M * Z * ReloadDrainTracker :=
  (parse_router rt, monitor_sink rt, reload_timeout rt, active_processing rt).

Lemma look_wiring e k rt r rt' : look e k rt = (r, rt') -> wiring rt' = wiring rt.
Proof. unfold look. intros. by simplify_eq. Qed.

Lemma on_role_wiring f rt r rt' : on_role f rt = (r, rt') -> wiring rt' = wiring rt.
Proof. unfold on_role. intros. split_cases; done. Qed.

Lemma stop_wiring x rt r rt' : rt_stop_role x rt = (r, rt') -> wiring rt' = wiring rt.
Proof. unfold rt_stop_role. intros. split_cases; done. Qed.

Lemma prune_wiring now rt r rt' :
  prune_finished_background_processing now rt = (r, rt') -> wiring rt' = wiring rt.
Proof. unfold prune_finished_background_processing. intros. split_cases; done. Qed.

Lemma bind_wiring {A D} (m : RT A) (k : A -> RT D) rt r rt' :
  (forall r rt1, m rt = (r, rt1) -> wiring rt1 = wiring rt) ->
  (forall x rt1, k x rt1 = (r, rt') -> wiring rt' = wiring rt1) ->
  rbind m k rt = (r, rt') -> wiring rt' = wiring rt.
Proof.
  unfold rbind. intros Hm Hk. destruct (m rt) as [[x|er] rt1]; intros H.
  - rewrite (Hk x rt1 H). by eapply Hm.
  - simplify_eq. by eapply Hm.
Qed.

Hint Resolve look_wiring on_role_wiring stop_wiring prune_wiring : wp.

Lemma picker_wiring f e k rt r rt' :
  rbind (look e k) (fun _ => rbind (prune_finished_background_processing (clock e k)) (fun _ => on_role f)) rt
    = (r, rt') -> wiring rt' = wiring rt.
Proof. apply bind_wiring; [eauto with wp|]. intros _ rt1. apply bind_wiring; eauto with wp. Qed.

Lemma prune_groups now rt r rt' :
  prune_finished_background_processing now rt = (r, rt') ->
  task_manager rt' = filter running (task_manager rt : list RoleTaskGroup) /\
  (r = inl tt ->
   detached_groups rt' =
     filter (fun d => routin_is_finished (d_group d) = false /\ now < stop_deadline d) (detached_groups rt)).
Proof.
  unfold prune_finished_background_processing. rewrite prune_finished_running.
  destruct (prune_detached _ _ _ _) as [[ds [er|]] lg] eqn:E; intros; simplify_eq; (split; [done|]); [done|].
  intros _. cbn. by eapply prune_detached_kept.
Qed.

Lemma on_role_groups f rt r rt' :
  on_role f rt = (r, rt') ->
  task_manager rt' = task_manager rt /\ detached_groups rt' = detached_groups rt.
Proof. unfold on_role. intros. split_cases; done. Qed.

Lemma rt_stop_groups x rt r rt' :
  rt_stop_role x rt = (r, rt') ->
  detached_groups rt' = detached_groups rt /\
  match r with
  | inl _ => task_manager rt' = filter (fun rg => role rg <> x) (task_manager rt : list RoleTaskGroup)
  | inr _ => task_manager rt' = []
  end.
Proof.
  unfold rt_stop_role. destruct (stop_role _ _ _ _) as [[gs [er|]] lg] eqn:E; intros; simplify_eq;
    apply stop_role_kept in E; done.
Qed.

(** Detaching takes the three roles out of the task manager. *)
Lemma detach_groups D rt r rt' :
  detach_processing_roles D rt = (r, rt') ->
  task_manager rt' =
    filter (fun rg => role rg <> Infra) (filter (fun rg => role rg <> Sink)
      (filter (fun rg => role rg <> Parser) (task_manager rt : list RoleTaskGroup))) /\
  (forall d, d ∈ detached_groups rt -> d ∈ detached_groups rt') /\
  (forall rg, rg ∈ task_manager rt -> role rg ∈ [Parser; Sink; Infra] ->
     mkDetached (group rg) D ∈ detached_groups rt').
Proof.
  unfold detach_processing_roles, detach_role. cbn. intros. simplify_eq. cbn. split; [done|].
  split; intros.
  - rewrite !elem_of_app. auto.
  - rewrite !elem_of_app, !list_elem_of_fmap. destruct rg as [x g]. cbn in *.
    assert (forall l, mkRoleTaskGroup x g ∈ l -> exists y, mkDetached g D = mkDetached y D /\ y ∈ map group l) as Hin.
    { intros l Hl. exists g. split; [done|]. apply (list_elem_of_fmap_2 group l (mkRoleTaskGroup x g)). done. }
    set_unfold. destruct_or?; subst; try done.
    + left. left. right. apply Hin. apply list_elem_of_filter. done.
    + left. right. apply Hin. rewrite !list_elem_of_filter. done.
    + right. apply Hin. rewrite !list_elem_of_filter. done.
Qed.

(** *** Groups that run on

    [P] describes groups whose tasks do not end during the reload. *)
Definition runs_on (e : Env) (P : TaskGroup -> Prop) : Prop :=
  forall g, P g -> routin_is_finished g = false /\ forall k, P (tasks e k g).

Section Kept.
Variables (e : Env) (P : TaskGroup -> Prop).
Hypothesis (HP : runs_on e P).

(** The [P]-groups of the roles [Q] are still in the task manager. *)
Definition kept (Q : TaskRole -> Prop) rt rt' : Prop :=
  forall rg, rg ∈ task_manager rt -> Q (role rg) -> P (group rg) ->
    exists g, mkRoleTaskGroup (role rg) g ∈ task_manager rt' /\ P g.

(** The detached [P]-groups of deadline [D] are still there. *)
Definition kept_detached (D : Z) rt rt' : Prop :=
  forall d, d ∈ detached_groups rt -> stop_deadline d = D -> P (d_group d) ->
    exists g, mkDetached g D ∈ detached_groups rt' /\ P g.

Lemma kept_trans Q rt1 rt2 rt3 : kept Q rt1 rt2 -> kept Q rt2 rt3 -> kept Q rt1 rt3.
Proof.
  intros H1 H2 rg Hin Hq Hp. destruct (H1 rg Hin Hq Hp) as (g & Hg & Pg).
  destruct (H2 _ Hg Hq Pg) as (g' & Hg' & Pg'). eauto.
Qed.

Lemma kept_detached_trans D rt1 rt2 rt3 :
  kept_detached D rt1 rt2 -> kept_detached D rt2 rt3 -> kept_detached D rt1 rt3.
Proof.
  intros H1 H2 d Hin Hd Hp. destruct (H1 d Hin Hd Hp) as (g & Hg & Pg).
  exact (H2 (mkDetached g D) Hg eq_refl Pg).
Qed.

Lemma kept_subset Q rt rt' :
  (forall rg, rg ∈ task_manager rt -> Q (role rg) -> running rg -> rg ∈ task_manager rt') -> kept Q rt rt'.
Proof.
  intros H [x g] Hin Hq Hp. exists g. split; [|done]. apply H; [done..|]. by apply HP.
Qed.

Lemma kept_detached_same D rt rt' :
  (forall d, d ∈ detached_groups rt -> d ∈ detached_groups rt') -> kept_detached D rt rt'.
Proof. intros H [g D'] Hin Hd Hp. cbn in Hd. subst. eauto. Qed.

Lemma look_kept Q k rt r rt' : look e k rt = (r, rt') -> kept Q rt rt'.
Proof.
  unfold look. intros H [x g] Hin Hq Hp. simplify_eq. cbn in *. exists (tasks e k g). split.
  - by apply (list_elem_of_fmap_2 (map_group (tasks e k)) (task_manager rt) (mkRoleTaskGroup x g)).
  - by apply HP.
Qed.

Lemma look_kept_detached D k rt r rt' : look e k rt = (r, rt') -> kept_detached D rt rt'.
Proof.
  unfold look. intros H [g D'] Hin Hd Hp. simplify_eq. cbn in *. exists (tasks e k g). split.
  - apply list_elem_of_fmap. by exists (mkDetached g D').
  - by apply HP.
Qed.

Lemma prune_kept Q now rt r rt' :
  prune_finished_background_processing now rt = (r, rt') -> kept Q rt rt'.
Proof.
  intros H. apply prune_groups in H as [H _]. apply kept_subset. intros rg Hin _ R. rewrite H.
  by apply list_elem_of_filter.
Qed.

Lemma prune_kept_detached D now rt rt' :
  now < D -> prune_finished_background_processing now rt = (inl tt, rt') -> kept_detached D rt rt'.
Proof.
  intros L H. apply prune_groups in H as [_ H]. specialize (H eq_refl).
  intros [g D'] Hin Hd Hp. cbn in *. subst. exists g. split; [|done]. rewrite H.
  apply list_elem_of_filter. split; [|done]. cbn. split; [by apply HP|done].
Qed.

Lemma on_role_kept Q f rt r rt' : on_role f rt = (r, rt') -> kept Q rt rt'.
Proof. intros H. apply on_role_groups in H as [H _]. apply kept_subset. intros. by rewrite H. Qed.

Lemma on_role_kept_detached D f rt r rt' : on_role f rt = (r, rt') -> kept_detached D rt rt'.
Proof. intros H. apply on_role_groups in H as [_ H]. apply kept_detached_same. intros. by rewrite H. Qed.

Lemma stop_kept (Q : TaskRole -> Prop) x rt rt' :
  (forall y, Q y -> y <> x) -> rt_stop_role x rt = (inl tt, rt') -> kept Q rt rt'.
Proof.
  intros Hx H. apply rt_stop_groups in H as [_ H]. apply kept_subset. intros rg Hin Hq _. rewrite H.
  apply list_elem_of_filter. auto.
Qed.

Lemma picker_kept Q f k rt rt' :
  rbind (look e k) (fun _ => rbind (prune_finished_background_processing (clock e k)) (fun _ => on_role f)) rt
    = (inl tt, rt') -> kept Q rt rt'.
Proof.
  intros H. apply bind_ok in H as (? & rt1 & H1 & H). apply bind_ok in H as (? & rt2 & H2 & H3).
  eapply kept_trans; [by eapply look_kept|]. eapply kept_trans; [by eapply prune_kept|]. by eapply on_role_kept.
Qed.

Lemma picker_kept_detached D f k rt rt' :
  clock e k < D ->
  rbind (look e k) (fun _ => rbind (prune_finished_background_processing (clock e k)) (fun _ => on_role f)) rt
    = (inl tt, rt') -> kept_detached D rt rt'.
Proof.
  intros L H. apply bind_ok in H as (? & rt1 & H1 & H). apply bind_ok in H as ([] & rt2 & H2 & H3).
  eapply kept_detached_trans; [by eapply look_kept_detached|].
  eapply kept_detached_trans; [by eapply prune_kept_detached|]. by eapply on_role_kept_detached.
Qed.

(** A graceful wait: the groups outside the processing roles stay; the workers
    are detached. *)
Lemma wait_drained_kept k deadline rt rt' :
  wait_processing_drained e k deadline rt = (inl tt, rt') ->
  kept (fun x => processing x = false) rt rt' /\
  (clock e (S k) < clock e k + reload_timeout rt ->
   forall rg, rg ∈ task_manager rt -> role rg ∈ [Parser; Sink; Infra] -> P (group rg) ->
     exists g, mkDetached g (clock e k + reload_timeout rt) ∈ detached_groups rt' /\ P g).
Proof.
  intros H. unfold wait_processing_drained in H. apply bind_ok in H as ([] & rt1 & H1 & H).
  assert (task_manager rt1 = task_manager rt /\ reload_timeout rt1 = reload_timeout rt) as [E1 T1].
  { destruct (drain_loop _ _ _) as [t [er|]]; by simplify_eq. }
  apply bind_ok in H as ([] & rt2 & H2 & H). apply bind_ok in H as ([] & rt3 & H3 & H).
  apply bind_ok in H as ([] & rt4 & H4 & H). apply bind_ok in H as ([] & rt5 & H5 & H6).
  assert (reload_timeout rt3 = reload_timeout rt) as T3.
  { pose proof (stop_wiring _ _ _ _ H3) as W3. pose proof (look_wiring _ _ _ _ _ H2) as W2.
    unfold wiring in *. congruence. }
  rewrite T3 in H4.
  assert (K13 : forall Q : TaskRole -> Prop, (forall y, Q y -> y <> Maintainer) -> kept Q rt rt3).
  { intros Q HQ. eapply (kept_trans _ _ rt1); [apply kept_subset; intros; congruence|].
    eapply kept_trans; [by eapply look_kept|]. by eapply stop_kept. }
  apply detach_groups in H4 as (E4 & _ & D4). split.
  - eapply kept_trans; [apply K13; by intros []|].
    eapply (kept_trans _ _ rt4).
    { apply kept_subset. intros [x g] Hin Hq _. cbn in Hq. rewrite E4.
      rewrite !list_elem_of_filter. cbn. destruct x; done. }
    eapply kept_trans; [by eapply look_kept|by eapply prune_kept].
  - intros L rg Hin Hr Hp.
    destruct (K13 (fun x => x ∈ [Parser; Sink; Infra])) with rg as (g & Hg & Pg); [set_solver|done..|].
    assert (K : kept_detached (clock e k + reload_timeout rt) rt4 rt').
    { eapply kept_detached_trans; [by eapply look_kept_detached|].
      by eapply prune_kept_detached. }
    exact (K _ (D4 _ Hg Hr) eq_refl Pg).
Qed.

End Kept.

(** No processing group is left. *)
Definition cleared rt : Prop := forall rg, rg ∈ task_manager rt -> processing (role rg) = false.

Lemma wait_drained_cleared e k deadline rt rt' :
  wait_processing_drained e k deadline rt = (inl tt, rt') -> cleared rt'.
Proof.
  intros H. unfold wait_processing_drained in H.
  apply bind_ok in H as ([] & rt1 & H1 & H). apply bind_ok in H as ([] & rt2 & H2 & H).
  apply bind_ok in H as ([] & rt3 & H3 & H). apply bind_ok in H as ([] & rt4 & H4 & H).
  apply bind_ok in H as ([] & rt5 & H5 & H6).
  apply rt_stop_groups in H3 as [_ E3]. apply detach_groups in H4 as (E4 & _).
  unfold look in H5. simplify_eq. apply prune_groups in H6 as [E6 _]. intros rg Hin.
  rewrite E6 in Hin. apply list_elem_of_filter in Hin as [_ Hin]. cbn in Hin.
  apply list_elem_of_fmap in Hin as (rg0 & -> & Hin). cbn. rewrite E4, E3 in Hin.
  rewrite !list_elem_of_filter in Hin. by destruct (role rg0); naive_solver.
Qed.

Ltac stop_failed := left; eexists; split; [done|];
  match goal with S : rt_stop_role _ _ = (inr _, _) |- _ => by apply rt_stop_groups in S as [_ S] end.

(** A forced stop: the four roles are stopped one after the other; one that
    fails leaves no group at all. *)
Lemma stop_all_cases e k rt r rt' :
  force_stop_processing e k rt = (r, rt') ->
  (exists er, r = inr er /\ task_manager rt' = []) \/
  exists rt9, cleared rt9 /\ (forall P, runs_on e P -> kept P (fun x => processing x = false) rt rt9) /\
    prune_finished_background_processing (clock e (k + 4)) rt9 = (r, rt').
Proof.
  unfold force_stop_processing. intros H.
  apply bind_ok' in H as (rt1 & H1 & H); [|done]. apply bind_cases in H as [(er & -> & H2)|([] & rt2 & H2 & H)]; [stop_failed|].
  apply bind_ok' in H as (rt3 & H3 & H); [|done]. apply bind_cases in H as [(er & -> & H4)|([] & rt4 & H4 & H)]; [stop_failed|].
  apply bind_ok' in H as (rt5 & H5 & H); [|done]. apply bind_cases in H as [(er & -> & H6)|([] & rt6 & H6 & H)]; [stop_failed|].
  apply bind_ok' in H as (rt7 & H7 & H); [|done]. apply bind_cases in H as [(er & -> & H8)|([] & rt8 & H8 & H)]; [stop_failed|].
  apply bind_ok' in H as (rt9 & H9 & H); [|done]. right. exists rt9. split_and!; [..|exact H].
  - apply rt_stop_groups in H2 as [_ E2]. apply rt_stop_groups in H4 as [_ E4].
    apply rt_stop_groups in H6 as [_ E6]. apply rt_stop_groups in H8 as [_ E8].
    unfold look in *. simplify_eq. cbn in *. intros rg Hin.
    apply list_elem_of_fmap in Hin as (rg9 & -> & Hin). rewrite E8 in Hin.
    apply list_elem_of_filter in Hin as [N8 Hin].
    apply list_elem_of_fmap in Hin as (rg7 & -> & Hin). rewrite E6 in Hin.
    apply list_elem_of_filter in Hin as [N6 Hin].
    apply list_elem_of_fmap in Hin as (rg5 & -> & Hin). rewrite E4 in Hin.
    apply list_elem_of_filter in Hin as [N4 Hin].
    apply list_elem_of_fmap in Hin as (rg3 & -> & Hin). rewrite E2 in Hin.
    apply list_elem_of_filter in Hin as [N2 Hin]. cbn in *. by destruct (role rg3).
  - intros P HP.
    assert (forall x, x ∈ [Parser; Sink; Infra; Maintainer] ->
      forall y, processing y = false -> y <> x) as N by (intros x Hx y; set_unfold; naive_solver).
    eapply kept_trans; [by eapply look_kept|]. eapply kept_trans; [eapply stop_kept, H2; [done|apply N; set_solver]|].
    eapply kept_trans; [by eapply look_kept|]. eapply kept_trans; [eapply stop_kept, H4; [done|apply N; set_solver]|].
    eapply kept_trans; [by eapply look_kept|]. eapply kept_trans; [eapply stop_kept, H6; [done|apply N; set_solver]|].
    eapply kept_trans; [by eapply look_kept|]. eapply kept_trans; [eapply stop_kept, H8; [done|apply N; set_solver]|].
    by eapply look_kept.
Qed.

Lemma prune_cleared now rt r rt' : prune_finished_background_processing now rt = (r, rt') -> cleared rt -> cleared rt'.
Proof. intros H Hc rg. apply prune_groups in H as [-> _]. intros [_ Hin]%list_elem_of_filter. by apply Hc. Qed.

(** What a forced stop leaves, whether it ended well or not. *)
Lemma force_stop_roles e k rt r rt' :
  force_stop_processing e k rt = (r, rt') ->
  cleared rt' /\ ((exists er, r = inr er /\ task_manager rt' = []) \/
    forall P, runs_on e P -> kept P (fun x => processing x = false) rt rt').
Proof.
  intros [(er & -> & E)|(rt9 & Hc & Hk & H)]%stop_all_cases.
  - split; [|eauto]. intros rg. rewrite E. intros []%not_elem_of_nil.
  - split; [by eapply prune_cleared|]. right. intros P HP. eapply kept_trans; [by apply Hk|]. by eapply prune_kept.
Qed.

(** The wait ends with an error of the drain, nothing having been touched, or
    later. *)
Definition drain_fails e deadline (t : ReloadDrainTracker) : Prop :=
  (drain_loop (arrivals e) deadline t).2 <> None.

Lemma wait_drained_error e k deadline rt er rt' :
  wait_processing_drained e k deadline rt = (inr er, rt') ->
  drain_fails e deadline (active_processing rt) -> task_manager rt' = task_manager rt.
Proof.
  intros H F. unfold drain_fails in F. unfold wait_processing_drained, rbind in H.
  destruct (drain_loop _ _ _) as [t [er'|]]; [|done]. by simplify_eq.
Qed.

(** *** A reload that succeeded *)

Definition started rt lg : EngineRuntime C M := set_groups rt (task_manager rt) (detached_groups rt) lg.
Definition disconnected rt : EngineRuntime C M := set_router rt (begin_reload (parse_router rt)).
Definition reinstalled (r : EngineResource C M) (p : ProcessingTaskSet C) rt : EngineRuntime C M :=
  mkRuntime (install p (task_manager rt)) (replace (parse_router rt) (parser_senders p))
    ((fun _ => moni_agent r) <$> infra_task r) (reload_timeout rt) (drain_tracker p)
    (detached_groups rt) (commands rt).

Lemma reload_ok e r rt force rt' :
  reload_processing_p0 e (inl r) rt = (inl force, rt') ->
  exists p lg rt1 rt4,
    start_processing_tasks r (next_epoch (active_processing rt)) (commands rt) = (inl p, lg) /\
    isolate_picker e 1 (started rt lg) = (inl tt, rt1) /\
    (if force
     then exists er rt3,
       wait_processing_drained e 2 (clock e 0 + reload_timeout rt) (disconnected rt1) = (inr er, rt3) /\
       force_stop_processing e 4 rt3 = (inl tt, rt4)
     else wait_processing_drained e 2 (clock e 0 + reload_timeout rt) (disconnected rt1) = (inl tt, rt4)) /\
    resume_picker e 9 (reinstalled r p rt4) = (inl tt, rt').
Proof.
  intros H. unfold reload_processing_p0 in H. apply bind_ok in H as (p & rt0 & H0 & H).
  unfold rt_start in H0. destruct (start_processing_tasks _ _ _) as [res lg]. simplify_eq.
  apply bind_ok in H as (dl & rt0 & H0 & H). simplify_eq.
  apply bind_ok in H as (iso & rt1 & H1 & H). apply try_ok in H1.
  destruct iso as [[]|er]; [|apply bind_ok in H as (? & ? & _ & H); done].
  apply bind_ok in H as ([] & rt2 & H2 & H). unfold disconnect_parse_router in H2. simplify_eq.
  apply bind_ok in H as (dr & rt3 & H3 & H). apply try_ok in H3.
  apply bind_ok in H as (f & rt4 & H4 & H). apply bind_ok in H as ([] & rt5 & H5 & H).
  apply bind_ok in H as ([] & rt6 & H6 & H). apply bind_ok in H as ([] & rt7 & H7 & H).
  unfold install_processing_tasks, replace_monitor_sink, rret in *. simplify_eq.
  exists p, lg, rt1, rt4. split_and!; [done|done| |exact H7].
  destruct dr as [[]|er].
  - unfold rret in H4. by simplify_eq.
  - apply bind_ok in H4 as (fo & rt5 & H5 & H4). apply try_ok in H5. destruct fo as [[]|er'].
    + unfold rret in H4. simplify_eq. eauto.
    + apply bind_ok in H4 as (? & ? & _ & H4). done.
Qed.

Lemma resume_commands e k rt rt' :
  resume_picker e k rt = (inl tt, rt') ->
  wiring rt' = wiring rt /\
  task_manager rt' = filter running (map (map_group (tasks e k)) (task_manager rt)) /\
  exists lg, commands rt' =
    lg ++ group_names (Execute All) (filter (fun rg => role rg = Picker) (task_manager rt' : list RoleTaskGroup)).
Proof.
  intros H. split; [by eapply picker_wiring|]. unfold resume_picker in H.
  apply bind_ok in H as ([] & rt1 & H1 & H). apply bind_ok in H as ([] & rt2 & H2 & H3).
  unfold look in H1. simplify_eq. apply prune_groups in H2 as [E2 _]. cbn in E2.
  unfold on_role in H3. destruct (execute_role_all _ _ _) as [[er|] lg] eqn:E; [done|].
  simplify_eq. cbn. split; [done|]. exists (commands rt2).
  apply (command_role_log _ _ _ (Execute All)) in E; [|done]. rewrite E. do 2 f_equal.
  rewrite E2, !list_filter_filter. apply list_filter_iff. naive_solver.
Qed.

(** The graceful wait and the forced stop leave no processing group. *)
Lemma reload_old_gone e (force : bool) dl rt2 rt4 :
  (if force
   then exists er rt3,
     wait_processing_drained e 2 dl rt2 = (inr er, rt3) /\ force_stop_processing e 4 rt3 = (inl tt, rt4)
   else wait_processing_drained e 2 dl rt2 = (inl tt, rt4)) ->
  cleared rt4.
Proof.
  destruct force; intros Hw.
  - destruct Hw as (er & rt3 & _ & Hf). by apply force_stop_roles in Hf as [Hf _].
  - by apply wait_drained_cleared in Hw.
Qed.

Lemma kept_same P Q rt rt' : task_manager rt' = task_manager rt -> kept P Q rt rt'.
Proof. intros E [x g] Hin Hq Hp. exists g. by rewrite E. Qed.

Lemma isolate_task_manager e k rt rt' P Q :
  runs_on e P -> isolate_picker e k rt = (inl tt, rt') -> kept P Q rt rt'.
Proof. intros HP H. by eapply picker_kept. Qed.

(** *** What a configuration asks for

    The parser workers that are built: none without the infrastructure, the rules
    and the sinks they need. *)
Definition parses (r : EngineResource C M) : bool :=
  match infra_task r, sink_tasks r with Some _, Some _ => has_resc r | _, _ => false end.
Definition workers (r : EngineResource C M) : list (C * Handle) :=
  if parses r then omap (fun w => match w with inl w => Some w | inr _ => None end) (parsers r) else [].
Definition sink_workers (r : EngineResource C M) : option (list Handle) :=
  match infra_task r with Some _ => sink_tasks r | None => None end.

(** The four groups, each with exactly its own tasks, that take commands. *)
Definition task_group (n : string) (hs : list Handle) : TaskGroup := mkTaskGroup n (Stop (Timeout_ 200)) hs true.
Definition new_groups (r : EngineResource C M) : list RoleTaskGroup :=
  [mkRoleTaskGroup Infra (task_group "infra" (option_list (infra_task r)))] ++
  (match sink_workers r with Some hs => [mkRoleTaskGroup Sink (task_group "oml-sink" hs)] | None => [] end) ++
  [mkRoleTaskGroup Maintainer (task_group "amt" [maint_task r]); mkRoleTaskGroup Parser (task_group "wpl-parse" (snd <$> workers r))].
Definition new_tracker (r : EngineResource C M) (ep : Z) : ReloadDrainTracker :=
  mkTracker ep (zlen (workers r)) (default 0 (zlen <$> sink_workers r)) (zlen (option_list (infra_task r))).
Definition all_built (r : EngineResource C M) : Prop := parses r = true -> Forall (fun w => exists ch, w = inl ch) (parsers r).

Lemma append_all_handles g hs : append_all g hs = mkTaskGroup (name g) (cmd g) (handles g ++ hs) (pub_open g).
Proof.
  unfold append_all. revert g; induction hs as [|h hs IH]; intros g; cbn; [rewrite app_nil_r; by destruct g|].
  rewrite IH. cbn. by rewrite <- app_assoc.
Qed.

Lemma start_parsers_ok (ps : list ((C * Handle) + RunError)) cs g lg cs' g' lg' :
  start_parsers ps cs g lg = (inl (cs', g'), lg') ->
  let ws := omap (fun w => match w with inl w => Some w | inr _ => None end) ps in
  cs' = cs ++ (fst <$> ws) /\ g' = append_all g (snd <$> ws) /\ lg' = lg /\ Forall (fun w => exists ch, w = inl ch) ps.
Proof.
  revert cs g; induction ps as [|[[c h]|er] ps IH]; intros cs g; cbn; [|intros H|done].
  - intros [= <- <- <-]. rewrite app_nil_r. done.
  - destruct (IH _ _ H) as (-> & -> & -> & Hf). split_and!; [by rewrite <- app_assoc|done|done|].
    constructor; [by eexists|done].
Qed.

Lemma start_exact (r : EngineResource C M) ep lg p lg' :
  start_processing_tasks r ep lg = (inl p, lg') ->
  installed p = new_groups r /\ parser_senders p = fst <$> workers r /\ drain_tracker p = new_tracker r ep /\ all_built r /\ lg' = lg.
Proof.
  unfold start_processing_tasks, start_parser_tasks_frames, installed, new_groups, new_tracker, all_built, workers, parses, sink_workers.
  destruct (infra_task r) as [ih|], (sink_tasks r) as [hs|], (has_resc r);
    try (intros [= <- <-]; cbn; rewrite ?append_all_handles; done).
  destruct (start_parsers _ _ _ lg) as [[[cs g]|er] lg1] eqn:E; [|done]. intros [= <- <-].
  apply start_parsers_ok in E as (-> & -> & -> & Hf). cbn. rewrite !append_all_handles. cbn. unfold zlen. by rewrite length_fmap.
Qed.

Definition outside (rg : RoleTaskGroup) : Prop := processing (role rg) = false.

Lemma processing_groups (f : TaskGroup -> TaskGroup) (old new : list RoleTaskGroup) :
  Forall outside old -> Forall (fun rg => processing (role rg) = true) new ->
  filter (fun rg => processing (role rg) = true) (filter running (map (map_group f) (old ++ new)))
    = filter running (map (map_group f) new).
Proof.
  intros Ho Hn. rewrite map_app, !filter_app, filter_none, filter_all; [done| |].
  - apply Forall_forall. intros x [_ Hx]%list_elem_of_filter. revert x Hx. apply Forall_forall, Forall_fmap.
    eapply Forall_impl; [exact Hn|]. done.
  - apply Forall_forall. intros x [_ Hx]%list_elem_of_filter. revert x Hx. apply Forall_forall, Forall_fmap.
    eapply Forall_impl; [exact Ho|]. unfold outside. cbn. intros rg ->. done.
Qed.

Lemma new_groups_processing (r : EngineResource C M) : Forall (fun rg => processing (role rg) = true) (new_groups r).
Proof. unfold new_groups. destruct (sink_workers r); repeat constructor. Qed.

(** C25: a reload that succeeded, by draining or by force, leaves exactly the
    tasks the new configuration asks for.  The router dispatches to the channels
    of its parser workers, all of which were built, from the first one and no
    longer reloading; the tracker counts its tasks, under the next epoch.  The
    parser, sink, infrastructure and maintainer groups of the task manager are
    its groups, each with its own tasks and in the order of their registration,
    but for those whose tasks have all ended by the time of the last look; none
    of the old ones is left.  The pickers, acceptors and monitors that run on
    are all still there, unless the drain had succeeded and a later step of the
    graceful path failed; and the last thing broadcast is to let every picker
    group run. *)
Theorem reload_replaces_processing (e : Env) (r : EngineResource C M) (force : bool) (P : TaskGroup -> Prop) rt rt' :
  runs_on e P ->
  reload_processing_p0 e (inl r) rt = (inl force, rt') ->
  all_built r /\
  parse_router rt' = new (fst <$> workers r) /\
  active_processing rt' = new_tracker r (next_epoch (active_processing rt)) /\
  monitor_sink rt' = (fun _ => moni_agent r) <$> infra_task r /\
  filter (fun rg => processing (role rg) = true) (task_manager rt' : list RoleTaskGroup)
    = filter running (map (map_group (tasks e 9)) (new_groups r)) /\
  (force = false \/ drain_fails e (clock e 0 + reload_timeout rt) (active_processing rt) ->
   kept P (fun x => processing x = false) rt rt') /\
  exists lg', commands rt' =
    lg' ++ group_names (Execute All) (filter (fun rg => role rg = Picker) (task_manager rt' : list RoleTaskGroup)).
Proof.
  intros HP H. apply reload_ok in H as (p & lg & rt1 & rt4 & Hs & H1 & Hw & H9).
  pose proof (reload_old_gone _ _ _ _ _ Hw) as Hc. apply resume_commands in H9 as R9.
  destruct R9 as (W & T & Hl). unfold wiring in W. injection W as W1 W2 W3 W4.
  apply start_exact in Hs as (Hg & Hch & Ht & Hb & ->).
  split_and!; [done|by rewrite W1; cbn; rewrite Hch|by rewrite W4|done| |..|done].
  - rewrite T. change (task_manager (reinstalled r p rt4)) with (install p (task_manager rt4)).
    rewrite install_app, Hg. apply processing_groups; [by apply Forall_forall|apply new_groups_processing].
  - intros Hf. assert (K14 : kept P (fun x => processing x = false) rt1 rt4).
    { destruct force.
      - destruct Hf as [|Hf]; [done|]. destruct Hw as (er & rt3 & Hw & Hfs).
        apply force_stop_roles in Hfs as [_ [(er' & [=] & _)|Hfs]]. eapply kept_trans; [|by apply Hfs].
        apply kept_same. rewrite (wait_drained_error _ _ _ _ _ _ Hw); [done|]. cbn.
        pose proof (picker_wiring _ _ _ _ _ _ H1) as Wi. unfold wiring in Wi. injection Wi as _ _ _ ->. done.
      - eapply (kept_trans _ _ _ (disconnected rt1)); [by apply kept_same|].
        by eapply wait_drained_kept. }
    eapply (kept_trans _ _ _ (started rt (commands rt))); [by apply kept_same|].
    eapply kept_trans; [by eapply isolate_task_manager|]. eapply kept_trans; [exact K14|].
    eapply (kept_trans _ _ _ (reinstalled r p rt4)).
    { apply (kept_subset e); [done|]. intros rg Hin _ _.
      change (task_manager (reinstalled r p rt4)) with (install p (task_manager rt4)).
      rewrite install_app, elem_of_app. auto. }
    by eapply picker_kept.
Qed.

(** A graceful reload drained its workers and lets them finish: the drain
    events received up to then made the tracker fully quiesced, and every parser,
    sink or infrastructure group still running is detached, with the deadline
    counted from the drain, not stopped, as long as the rest of the reload ends
    before that deadline. *)
Theorem graceful_reload_detaches (e : Env) (r : EngineResource C M) (P : TaskGroup -> Prop) rt rt' :
  runs_on e P ->
  reload_processing_p0 e (inl r) rt = (inl false, rt') ->
  (exists evs t, observe_all (active_processing rt) evs = Some t /\ is_fully_quiesced t = true /\
     map Some evs `prefix_of` (snd <$> arrivals e)) /\
  (let deadline := clock e 2 + reload_timeout rt in
   clock e 3 < deadline -> clock e 9 < deadline ->
   forall rg, rg ∈ task_manager rt -> role rg ∈ [Parser; Sink; Infra] -> P (group rg) ->
     exists g, mkDetached g deadline ∈ detached_groups rt' /\ P g).
Proof.
  intros HP H. apply reload_ok in H as (p & lg & rt1 & rt4 & Hs & H1 & Hw & H9).
  pose proof (picker_wiring _ _ _ _ _ _ H1) as W1. unfold wiring in W1. injection W1 as _ _ W1 W2.
  split.
  - unfold wait_processing_drained in Hw. apply bind_ok in Hw as (? & rt2 & H2 & _).
    cbn in H2. rewrite W2 in H2.
    destruct (drain_loop (arrivals e) _ _) as [t [er|]] eqn:E; [done|]. clear -E.
    revert E. generalize (active_processing rt) as t0. generalize (arrivals e) as evs.
    induction evs as [|[now ev] evs IH]; intros t0; cbn [drain_loop].
    + destruct (is_fully_quiesced t0) eqn:Q; [|done]. intros. exists [], t0. split_and!; [done..|].
      apply prefix_nil.
    + destruct (is_fully_quiesced t0) eqn:Q.
      { intros. exists [], t0. split_and!; [done..|]. apply prefix_nil. }
      destruct (remaining_timeout _ now); [|done]. destruct ev as [ev|]; [|done].
      destruct (observe t0 ev) as [t1|] eqn:O; [|done]. intros E.
      apply IH in E as (evs' & t' & E & Q' & Pre). exists (ev :: evs'), t'. split_and!; [|done|].
      * cbn. by rewrite O.
      * cbn. by apply prefix_cons.
  - intros deadline L3 L9 rg Hin Hr Hp.
    destruct (isolate_task_manager e 1 (started rt lg) rt1 P (fun x => x ∈ [Parser; Sink; Infra]) HP H1 rg Hin Hr Hp)
      as (g & Hg & Pg).
    eapply wait_drained_kept in Hw as [_ Hw]; [|done].
    replace (clock e 2 + reload_timeout (disconnected rt1)) with deadline in Hw
      by (cbn; rewrite W1; done).
    destruct (Hw L3 (mkRoleTaskGroup (role rg) g) Hg Hr Pg) as (g' & Hg' & Pg').
    eapply (picker_kept_detached e P HP deadline) in H9; [|done].
    by eapply (H9 (mkDetached g' deadline)).
Qed.

(** *** A reload that failed *)

Lemma wait_drained_wiring e k deadline rt r rt' :
  wait_processing_drained e k deadline rt = (r, rt') ->
  (parse_router rt', monitor_sink rt') = (parse_router rt, monitor_sink rt).
Proof.
  intros H. unfold wait_processing_drained, rbind at 1 in H.
  assert (forall t, wiring rt' = wiring (set_tracker rt t) ->
    (parse_router rt', monitor_sink rt') = (parse_router rt, monitor_sink rt)) as Hw
    by (unfold wiring; cbn; congruence).
  destruct (drain_loop _ _ _) as [t [er|]]; [by simplify_eq|]. apply (Hw t). revert H.
  apply bind_wiring; [eauto with wp|]. intros _ rt2. apply bind_wiring; [eauto with wp|]. intros _ rt3.
  apply bind_wiring; [intros ? ?; unfold detach_processing_roles; cbn; intros; by simplify_eq|]. intros _ rt4.
  apply bind_wiring; eauto with wp.
Qed.

Lemma force_stop_wiring e k rt r rt' :
  force_stop_processing e k rt = (r, rt') -> wiring rt' = wiring rt.
Proof.
  unfold force_stop_processing.
  repeat (apply bind_wiring; [eauto with wp|intros _ ?]). eauto with wp.
Qed.

Lemma isolate_picker_kept e k rt r rt' P Q :
  runs_on e P -> isolate_picker e k rt = (r, rt') -> kept P Q rt rt'.
Proof.
  intros HP. unfold isolate_picker, rbind.
  destruct (look e k rt) as [[[]|er] rt1] eqn:E1; intros H; simplify_eq.
  eapply kept_trans; [by eapply look_kept|].
  destruct (prune_finished_background_processing _ rt1) as [[[]|er] rt2] eqn:E2; simplify_eq;
    [|by eapply prune_kept].
  eapply kept_trans; [by eapply prune_kept|]. by eapply on_role_kept.
Qed.

(** **** Commands, on the runtime *)

Definition calm rt rt' : Prop := quiet (commands rt) (commands rt').

Lemma calm_trans rt1 rt2 rt3 : calm rt1 rt2 -> calm rt2 rt3 -> calm rt1 rt3.
Proof. apply quiet_trans. Qed.

Lemma calm_same rt rt' : commands rt' = commands rt -> calm rt rt'.
Proof. unfold calm. intros ->. apply quiet_refl. Qed.

Lemma bind_calm {A D} (m : RT A) (k : A -> RT D) rt r rt' :
  (forall r rt1, m rt = (r, rt1) -> calm rt rt1) -> (forall x rt1, k x rt1 = (r, rt') -> calm rt1 rt') ->
  rbind m k rt = (r, rt') -> calm rt rt'.
Proof.
  intros Hm Hk [(er & _ & H)|(x & rt1 & H1 & H2)]%bind_cases; [by eapply Hm|]. eapply calm_trans; [by eapply Hm|by eapply Hk].
Qed.

Lemma look_calm e k rt r rt' : look e k rt = (r, rt') -> calm rt rt'.
Proof. unfold look. intros. simplify_eq. by apply calm_same. Qed.

Lemma stop_calm x rt r rt' : rt_stop_role x rt = (r, rt') -> calm rt rt'.
Proof.
  unfold rt_stop_role, calm. pose proof (stop_role_quiet (task_manager rt) x Immediate (commands rt)) as Hq.
  destruct (stop_role _ _ _ _) as [[gs [er|]] lg]; intros; by simplify_eq.
Qed.

Lemma prune_calm now rt r rt' : prune_finished_background_processing now rt = (r, rt') -> calm rt rt'.
Proof.
  unfold prune_finished_background_processing, calm. destruct (prune_finished_groups _) as [gs [er|]]; [intros; simplify_eq; apply quiet_refl|].
  match goal with |- context [prune_detached ?a ?b ?c ?d] => pose proof (prune_detached_quiet a b c d) as Hq; destruct (prune_detached a b c d) as [[ds [er|]] lg] end;
    intros; by simplify_eq.
Qed.

Lemma isolate_on_role_calm rt r rt' : on_role (fun gs => isolate_role gs Picker) rt = (r, rt') -> calm rt rt'.
Proof.
  unfold on_role, isolate_role, calm. pose proof (command_role_quiet (task_manager rt) Picker Isolate (commands rt) ltac:(done)) as Hq.
  unfold cmd_alone. destruct (command_role _ _ _ _) as [[er|] lg]; intros; by simplify_eq.
Qed.

Hint Resolve look_calm stop_calm prune_calm isolate_on_role_calm : wp.

Lemma isolate_calm e k rt r rt' : isolate_picker e k rt = (r, rt') -> calm rt rt'.
Proof. unfold isolate_picker. repeat (apply bind_calm; [eauto with wp|intros _ ?]). eauto with wp. Qed.

Lemma force_stop_calm e k rt r rt' : force_stop_processing e k rt = (r, rt') -> calm rt rt'.
Proof. unfold force_stop_processing. repeat (apply bind_calm; [eauto with wp|intros _ ?]). eauto with wp. Qed.

Lemma wait_drained_calm e k deadline rt r rt' : wait_processing_drained e k deadline rt = (r, rt') -> calm rt rt'.
Proof.
  unfold wait_processing_drained. apply bind_calm.
  { intros r1 rt1. destruct (drain_loop _ _ _) as [t [er|]]; intros; simplify_eq; by apply calm_same. }
  intros _ rt1. do 2 (apply bind_calm; [eauto with wp|intros _ ?]). apply bind_calm.
  { intros r1 rtd. unfold detach_processing_roles. cbn. intros. simplify_eq. by apply calm_same. }
  intros _ ?. apply bind_calm; [eauto with wp|intros _ ?]. eauto with wp.
Qed.

(** *** How a reload can fail

    The runtime once the tasks that were started are told to stop. *)
Definition stopped (p : ProcessingTaskSet C) rt : EngineRuntime C M :=
  set_groups rt (task_manager rt) (detached_groups rt) (shutdown_unused p (commands rt)).2.

(** The groups as they are at the [k]-th look, without those that have ended. *)
Definition surviving (e : Env) (k : nat) (gs : list RoleTaskGroup) : list RoleTaskGroup :=
  filter running (map (map_group (tasks e k)) gs).

(** The configuration did not load, or its tasks could not be started: nothing
    is changed but that tasks already started were told to stop. *)
Definition not_started (res : EngineResource C M + RunError) (er : RunError) rt rt' : Prop :=
  (res = inr er /\ rt' = rt) \/
  exists r lg, res = inl r /\ start_processing_tasks r (next_epoch (active_processing rt)) (commands rt) = (inr er, lg)
    /\ rt' = started rt lg.

(** The pickers could not be isolated: the router, its tracker and the monitor
    sink are the old ones, and so is every group that has not ended; the new tasks
    are told to stop. *)
Definition not_isolated (e : Env) (p : ProcessingTaskSet C) (er : RunError) rt rt' : Prop :=
  exists rt1, isolate_picker e 1 rt = (inr er, rt1) /\ rt' = stopped p rt1
    /\ wiring rt' = wiring rt /\ (task_manager rt' : list RoleTaskGroup) = surviving e 1 (task_manager rt).

(** Neither the wait for the drain nor the forced stop ended well: the router is
    disconnected and reloading, the monitor sink is the old one, no processing
    group is left, old or new; and no group of another role either, or they are
    all there if it was the drain itself that failed. *)
Definition stranded (e : Env) (p : ProcessingTaskSet C) (er : RunError) rt rt' : Prop :=
  (exists rt1 er3 rt3 rt4, isolate_picker e 1 rt = (inl tt, rt1)
     /\ wait_processing_drained e 2 (clock e 0 + reload_timeout rt) (disconnected rt1) = (inr er3, rt3)
     /\ force_stop_processing e 4 rt3 = (inr er, rt4) /\ rt' = stopped p rt4)
  /\ parse_router rt' = begin_reload (parse_router rt) /\ monitor_sink rt' = monitor_sink rt /\ cleared rt'
  /\ (task_manager rt' = [] \/
      (drain_fails e (clock e 0 + reload_timeout rt) (active_processing rt) ->
       forall P, runs_on e P -> kept P (fun x => processing x = false) rt rt')).

(** Only resuming the pickers failed: the engine is the new one, as after a
    reload that succeeded, and no picker was told to run, or one of them could not
    be. *)
Definition not_resumed (e : Env) (r : EngineResource C M) (p : ProcessingTaskSet C) (er : RunError) rt rt' : Prop :=
  (exists rt4, resume_picker e 9 (reinstalled r p rt4) = (inr er, rt'))
  /\ parse_router rt' = new (fst <$> workers r)
  /\ active_processing rt' = new_tracker r (next_epoch (active_processing rt))
  /\ monitor_sink rt' = (fun _ => moni_agent r) <$> infra_task r
  /\ filter (fun rg => processing (role rg) = true) (task_manager rt' : list RoleTaskGroup) = surviving e 9 (new_groups r)
  /\ (calm rt rt' \/ exists rg, rg ∈ task_manager rt' /\ role rg = Picker /\ pub_open (group rg) = false).

Lemma started_same rt : started rt (commands rt) = rt.
Proof. by destruct rt. Qed.

Lemma stopped_calm p rt : calm rt (stopped p rt).
Proof. apply down_all_quiet. Qed.

Lemma isolate_groups f e k rt r rt' :
  rbind (look e k) (fun _ => rbind (prune_finished_background_processing (clock e k)) (fun _ => on_role f)) rt = (r, rt') ->
  (task_manager rt' : list RoleTaskGroup) = surviving e k (task_manager rt).
Proof.
  intros (rt1 & H1 & H)%bind_ok'; [|done]. unfold look in H1. simplify_eq.
  apply bind_cases in H as [(er & _ & H)|([] & rt2 & H & H3)]; apply prune_groups in H as [E _]; [exact E|].
  apply on_role_groups in H3 as [-> _]. exact E.
Qed.

(** Resuming fails before any picker is told to run, or at one whose channel is
    closed. *)
Lemma command_role_closed (gs : list RoleTaskGroup) r c lg er lg' :
  command_role gs r (fun g => broadcast g c) lg = (Some er, lg') -> exists rg, rg ∈ gs /\ role rg = r /\ pub_open (group rg) = false.
Proof.
  revert lg; induction gs as [|rg gs IH]; intros lg; cbn [command_role]; [done|].
  assert (Hr : (exists rg0, rg0 ∈ gs /\ role rg0 = r /\ pub_open (group rg0) = false) ->
    exists rg0, rg0 ∈ rg :: gs /\ role rg0 = r /\ pub_open (group rg0) = false).
  { intros (x & Hx & ?). exists x. split; [by apply list_elem_of_further|done]. }
  unfold of_role. case_bool_decide as E; cbn [andb]; [|eauto]. destruct (negb _); [|eauto].
  unfold broadcast. destruct (pub_open (group rg)) eqn:Eo; [eauto|]. intros _. exists rg. split; [apply list_elem_of_here|done].
Qed.

Lemma resume_failed e k rt er rt' : resume_picker e k rt = (inr er, rt') ->
  calm rt rt' \/ exists rg, rg ∈ task_manager rt' /\ role rg = Picker /\ pub_open (group rg) = false.
Proof.
  unfold resume_picker. intros (rt1 & H1 & H)%bind_ok'; [|done]. apply look_calm in H1.
  apply bind_cases in H as [(er' & _ & H)|([] & rt2 & H & H3)]; [left; eapply calm_trans; [done|by eapply prune_calm]|].
  right. unfold on_role in H3. destruct (execute_role_all _ _ _) as [[er'|] lg] eqn:E; [|done]. injection H3 as <- <-.
  by eapply command_role_closed.
Qed.

Lemma start_failed_quiet (r : EngineResource C M) ep lg er lg' : start_processing_tasks r ep lg = (inr er, lg') -> quiet lg lg'.
Proof.
  unfold start_processing_tasks, start_parser_tasks_frames. destruct (infra_task r), (has_resc r), (sink_tasks r); try done.
  assert (Hq : forall ps cs g er' lg1, start_parsers (C := C) ps cs g lg = (inr er', lg1) -> quiet lg lg1).
  { induction ps as [|[[c h']|er0] ps IH]; intros cs g er' lg1; cbn; [done|by apply IH|]. intros [= _ <-]. apply grace_down_quiet. }
  destruct (start_parsers _ _ _ _) as [[[cs g]|er'] lg1] eqn:E; [done|]. intros [= _ <-]. by eapply Hq.
Qed.

Lemma reinstall_error e (r : EngineResource C M) p (f : bool) rt er rt' :
  rbind (install_processing_tasks p) (fun _ => rbind (replace_monitor_sink ((fun _ => moni_agent r) <$> infra_task r))
    (fun _ => rbind (resume_picker e 9) (fun _ => rret f))) rt = (inr er, rt') -> resume_picker e 9 (reinstalled r p rt) = (inr er, rt').
Proof.
  intros H. apply bind_ok' in H as (rt5 & H5 & H); [|done]. apply bind_ok' in H as (rt6 & H6 & H); [|done].
  unfold install_processing_tasks, replace_monitor_sink in *. simplify_eq.
  apply bind_err in H as [H|([] & rt7 & H7 & H)]; [exact H|done].
Qed.

(** What installing and resuming give when resuming fails. *)
Lemma reinstalled_failed e r p rt rt4 er rt' : start_processing_tasks r (next_epoch (active_processing rt)) (commands rt) = (inl p, commands rt) ->
  calm rt rt4 -> cleared rt4 -> resume_picker e 9 (reinstalled r p rt4) = (inr er, rt') -> not_resumed e r p er rt rt'.
Proof.
  intros (Hg & Hch & Ht & _ & _)%start_exact Hc Hcl H. pose proof (picker_wiring _ _ _ _ _ _ H) as W.
  unfold wiring in W. injection W as W1 W2 _ W4. split; [eauto|].
  split; [by rewrite W1; cbn; rewrite Hch|]. split; [by rewrite W4|]. split; [done|]. split.
  - rewrite (isolate_groups _ _ _ _ _ _ H). change (task_manager (reinstalled r p rt4)) with (install p (task_manager rt4)).
    rewrite install_app, Hg. apply processing_groups; [by apply Forall_forall|apply new_groups_processing].
  - apply resume_failed in H as [H|H]; [|by right]. left. eapply calm_trans; [exact Hc|exact H].
Qed.


End Laws.

(** ** Witnesses *)

Definition busy : Handle := mkHandle false true true.
Definition panicked : Handle := mkHandle false false true.
Definition one_task (n : string) (h : Handle) : TaskGroup := append (TaskGroup_new n Immediate) h.

(** A running engine of epoch 1: a picker, one parser, one sink, one
    infrastructure task and a maintainer. *)
Definition demo_runtime (parser maint : Handle) : EngineRuntime nat nat :=
  mkRuntime
    [mkRoleTaskGroup Picker (one_task "pick" busy); mkRoleTaskGroup Infra (one_task "infra" busy);
     mkRoleTaskGroup Sink (one_task "sink" busy); mkRoleTaskGroup Maintainer (one_task "amt" maint);
     mkRoleTaskGroup Parser (one_task "parse" parser)]
    (new [1%nat]) None (ms 1000) (mkTracker 1 1 1 1) [] [].

Definition demo_resource : EngineResource nat nat :=
  mkResource [inl (7%nat, busy); inl (8%nat, busy)] (Some busy) (Some [busy]) true busy 3%nat.

Definition drained_event (r : TaskRole) : Z * option ReloadDrainEvent := (0, Some (mkEvent 1 r "w" Drained)).

Definition demo_env (evs : list (Z * option ReloadDrainEvent)) : Env :=
  mkEnv (fun _ g => g) (fun _ => 0) evs.

Definition demo_drained : Env := demo_env [drained_event Parser; drained_event Sink; drained_event Infra].

Definition unfinished (g : TaskGroup) : Prop := routin_is_finished g = false.

Lemma demo_runs_on evs : runs_on (demo_env evs) unfinished.
Proof. intros g H. split; [exact H|intros k; exact H]. Qed.

Definition demo_after : EngineRuntime nat nat :=
  (reload_processing_p0 demo_drained (inl demo_resource) (demo_runtime busy busy)).2.

Lemma reload_replaces_processing_witness :
  parse_router demo_after = new [7; 8]%nat /\
  filter (fun rg => processing (role rg) = true) (task_manager demo_after : list RoleTaskGroup)
    = [mkRoleTaskGroup Infra (task_group "infra" [busy]); mkRoleTaskGroup Sink (task_group "oml-sink" [busy]);
       mkRoleTaskGroup Maintainer (task_group "amt" [busy]); mkRoleTaskGroup Parser (task_group "wpl-parse" [busy; busy])] /\
  exists g, mkRoleTaskGroup Picker g ∈ task_manager demo_after /\ unfinished g.
Proof.
  destruct (reload_replaces_processing demo_drained demo_resource false unfinished
    (demo_runtime busy busy) demo_after (demo_runs_on _)) as (_ & Hr & _ & _ & Hg & Hk & _).
  - vm_compute. reflexivity.
  - split; [exact Hr|]. split; [exact Hg|].
    refine (Hk (or_introl eq_refl) (mkRoleTaskGroup Picker (one_task "pick" busy)) _ eq_refl eq_refl).
    apply list_elem_of_here.
Defined.

Lemma graceful_reload_detaches_witness :
  exists g, mkDetached g (ms 1000) ∈ detached_groups demo_after /\ unfinished g.
Proof.
  destruct (graceful_reload_detaches demo_drained demo_resource unfinished
    (demo_runtime busy busy) demo_after (demo_runs_on _)) as [_ Hd].
  - vm_compute. reflexivity.
  - refine (Hd _ _ (mkRoleTaskGroup Sink (one_task "sink" busy)) _ _ _); [vm_compute; reflexivity|vm_compute; reflexivity| | |vm_compute; reflexivity].
    + cbn. do 2 apply list_elem_of_further. apply list_elem_of_here.
    + cbn. apply list_elem_of_further, list_elem_of_here.
Defined.

(** Nothing drains in time, and a parser worker that panicked makes the forced
    stop fail. *)
Definition demo_failed : EngineRuntime nat nat :=
  (reload_processing_p0 (demo_env []) (inl demo_resource) (demo_runtime panicked busy)).2.


(** After that failure the engine is stranded: no group is left in the task
    manager, not even the picker's, which was told to isolate and never to run
    again, and the router has no channel. *)
Theorem failed_force_stop_strands_engine :
  task_manager demo_failed = [] /\
  parse_router demo_failed = begin_reload (new [1%nat]) /\
  ("pick", Isolate) ∈ commands demo_failed /\
  ~ ("pick", Execute All) ∈ commands demo_failed.
Proof.
  split_and!; [vm_compute; reflexivity|vm_compute; reflexivity| |].
  - apply (bool_decide_unpack _). vm_compute. exact I.
  - intros H. apply (bool_decide_pack _) in H. vm_compute in H. exact H.
Qed.

(** The drain succeeds, the join of a maintainer that panicked fails: the reload
    reports success by force, and the pickers have left the task manager. *)
Theorem panicked_maintainer_loses_pickers :
  exists rt', reload_processing_p0 demo_drained (inl demo_resource) (demo_runtime busy panicked) = (inl true, rt') /\
    Forall (fun rg => role rg <> Picker) (task_manager rt') /\
    ~ ("pick", Execute All) ∈ commands rt'.
Proof.
  eexists. split; [vm_compute; reflexivity|]. split.
  - repeat constructor; done.
  - intros H. apply (bool_decide_pack _) in H. vm_compute in H. exact H.
Qed.

(** *** The command *)

(** Handling a command leaves the control state idle with the result of the
    reload, under the request's id, whatever it was before, and answers with that
    same result. *)
Theorem command_reports_result (show : RunError -> string) (e : Env) (res : EngineResource nat nat + RunError)
    (t0 t1 : Z) (req : RuntimeCommandReq) (s : RuntimeControlState) (rt : EngineRuntime nat nat) :
  let '(s', rt', a) := handle_runtime_command show e res t0 t1 req s rt in
  let st := status_snapshot s' in
  s_reloading st = false /\ s_accepting st = s_accepting (status_snapshot s) /\
  s_last_id st = Some (request_id req) /\ s_last_result st = Some (resp_result a) /\
  resp_id a = request_id req /\
  resp_result a = command_result show (reload_processing_p0 e res rt).1 /\
  (current_request_id s = Some (request_id req) -> s_started_at st = s_started_at (status_snapshot s)).
Proof.
  unfold handle_runtime_command. destruct (command req).
  destruct (reload_processing_p0 e res rt) as [r rt']. cbn. unfold mark_reload_running.
  split_and!; [done| |done..|]; case_bool_decide; done.
Qed.
