(* ===== verification/QueryCache.v ===== *)
(** The cache of the lookups of a transform ([FieldQueryCache],
    [crates/wp-data-utils/src/cache.rs]): parameter values are numbered, and the
    results kept in an LRU cache keyed by one to six of those numbers.

    The LRU cache is the [lru] crate's: an interface with the documented
    behaviour of [put] and [peek].  A cache of six arities is one definition on
    lists of parameters; [EnumSizeIndex] keeps the arities apart.  The entries are
    bounded by the capacity, the numbers of the values are never given back. *)
From Stdlib Require Import ZArith Lia String.
From stdpp Require Import prelude strings gmap pretty.
From S2P Require Import Prelude DataModel.
Local Open Scope string_scope.
Local Open Scope list_scope.
Local Open Scope Z_scope.
Local Open Scope wp_scope.

(** ** The LRU cache *)

(** Most recently put first. *)
Definition lru_put_list {K V} `{EqDecision K} (cap : Z) (l : list (K * V)) (k : K) (v : V) : list (K * V) :=
  (k, v) :: match list_find (fun p : K * V => p.1 = k) l with
            | Some (i, _) => delete i l
            | None => if decide (cap <= zlen l) then take (length l - 1) l else l
            end.

Definition lru_peek_list {K V} `{EqDecision K} (l : list (K * V)) (k : K) : option V :=
  snd <$> (snd <$> list_find (fun p : K * V => p.1 = k) l).

Class LruCache (K V : Type) := {
  lru_cache : Type;
  lru_cache_new : Z -> lru_cache;
  lru_put : lru_cache -> K -> V -> lru_cache;
  lru_peek : lru_cache -> K -> option V;
}.

Class LruCacheLaws (K V : Type) `{EqDecision K} (L : LruCache K V) := {
  entries : lru_cache (K:=K) (V:=V) -> list (K * V);
  capacity_of : lru_cache (K:=K) (V:=V) -> Z;
  entries_new n : entries (lru_cache_new n) = [];
  capacity_new n : capacity_of (lru_cache_new n) = n;
  entries_put c k v : entries (lru_put c k v) = lru_put_list (capacity_of c) (entries c) k v;
  capacity_put c k v : capacity_of (lru_put c k v) = capacity_of c;
  peek_entries c k : lru_peek c k = lru_peek_list (entries c) k;
}.

(** ** The numbering *)

Inductive EnumSizeIndex :=
  | Idx1 (a : Z)
  | Idx2 (a b : Z)
  | Idx3 (a b c : Z)
  | Idx4 (a b c d : Z)
  | Idx5 (a b c d e : Z)
  | Idx6 (a b c d e f : Z).

#[export] Instance EnumSizeIndex_eq_dec : EqDecision EnumSizeIndex.
Proof. solve_decision. Defined.

(** The key of each [CacheAble] implementation, by the number of parameters. *)
Definition enum_index (l : list Z) : option EnumSizeIndex :=
  match l with
  | [a] => Some (Idx1 a)
  | [a; b] => Some (Idx2 a b)
  | [a; b; c] => Some (Idx3 a b c)
  | [a; b; c; d] => Some (Idx4 a b c d)
  | [a; b; c; d; e] => Some (Idx5 a b c d e)
  | [a; b; c; d; e; f] => Some (Idx6 a b c d e f)
  | _ => None
  end.

Section Cache.
Context {VT : ValueTypes} {F R : Type} {DA : DataApi F R}.
Context {Eip : EqDecision IpAddr} {Cip : Countable IpAddr}.
Context {L : LruCache EnumSizeIndex (list F)}.

Record FieldQueryCache := mkCache {
  str_idx : gmap string Z;
  i64_idx : gmap Z Z;
  ip_idx : gmap IpAddr Z;
  biguint_idx : gmap string Z;
  cache_data : lru_cache (K := EnumSizeIndex) (V := list F);
  idx_num : Z;
}.

Definition with_capacity (size : Z) : FieldQueryCache :=
  mkCache ∅ ∅ ∅ ∅ (lru_cache_new (Z.max size 1)) 0.

Definition cache_default : FieldQueryCache := mkCache ∅ ∅ ∅ ∅ (lru_cache_new 100) 0.

Definition get_idx (c : FieldQueryCache) (param : F) : option Z :=
  match get_value param with
  | Chars v => str_idx c !! v
  | IntV v => i64_idx c !! v
  | IpAddrV v => ip_idx c !! v
  | BigUint v => biguint_idx c !! (pretty v)
  | _ => None
  end.

(** The number of a value, a new one when the value has none. *)
Definition try_up_idx (c : FieldQueryCache) (param : F) : option Z * FieldQueryCache :=
  let n := idx_num c +w 1 in
  match get_value param with
  | Chars v =>
      match str_idx c !! v with
      | Some i => (Some i, c)
      | None => (Some n, mkCache (<[v := n]> (str_idx c)) (i64_idx c) (ip_idx c) (biguint_idx c) (cache_data c) n)
      end
  | IntV v =>
      match i64_idx c !! v with
      | Some i => (Some i, c)
      | None => (Some n, mkCache (str_idx c) (<[v := n]> (i64_idx c)) (ip_idx c) (biguint_idx c) (cache_data c) n)
      end
  | IpAddrV v =>
      match ip_idx c !! v with
      | Some i => (Some i, c)
      | None => (Some n, mkCache (str_idx c) (i64_idx c) (<[v := n]> (ip_idx c)) (biguint_idx c) (cache_data c) n)
      end
  | BigUint v =>
      let key := pretty v in
      match biguint_idx c !! key with
      | Some i => (Some i, c)
      | None => (Some n, mkCache (str_idx c) (i64_idx c) (ip_idx c) (<[key := n]> (biguint_idx c)) (cache_data c) n)
      end
  | _ => (None, c)
  end.

(** The tuple of the calls: all are made, whatever the first ones answer. *)
Fixpoint try_up_all (c : FieldQueryCache) (params : list F) : list (option Z) * FieldQueryCache :=
  match params with
  | [] => ([], c)
  | p :: params =>
      let '(i, c) := try_up_idx c p in
      let '(ids, c) := try_up_all c params in
      (i :: ids, c)
  end.

Definition save (c : FieldQueryCache) (params : list F) (result : list F) : FieldQueryCache :=
  let '(ids, c) := try_up_all c params in
  match mapM (fun i => i) ids ≫= enum_index with
  | Some k =>
      mkCache (str_idx c) (i64_idx c) (ip_idx c) (biguint_idx c) (lru_put (cache_data c) k result) (idx_num c)
  | None => c
  end.

Definition fetch (c : FieldQueryCache) (params : list F) : option (list F) :=
  match mapM (get_idx c) params ≫= enum_index with
  | Some k => lru_peek (cache_data c) k
  | None => None
  end.

(** ** Reference: a cache keyed by the values themselves *)

Inductive CacheOp := Save (params result : list F) | Fetch (params : list F).

Definition cache_run (c : FieldQueryCache) (o : CacheOp) : option (list F) * FieldQueryCache :=
  match o with
  | Save ps r => (None, save c ps r)
  | Fetch ps => (fetch c ps, c)
  end.

Fixpoint cache_runs (c : FieldQueryCache) (ops : list CacheOp) : list (option (list F)) * FieldQueryCache :=
  match ops with
  | [] => ([], c)
  | o :: ops =>
      let '(out, c) := cache_run c o in
      let '(outs, c) := cache_runs c ops in
      (out :: outs, c)
  end.

Inductive ParamKey := KStr (s : string) | KInt (n : Z) | KIp (a : IpAddr) | KBig (n : N).

#[export] Instance ParamKey_eq_dec : EqDecision ParamKey.
Proof. solve_decision. Defined.

(** The values that are cached; names do not count. *)
Definition param_key (f : F) : option ParamKey :=
  match get_value f with
  | Chars v => Some (KStr v)
  | IntV v => Some (KInt v)
  | IpAddrV v => Some (KIp v)
  | BigUint v => Some (KBig v)
  | _ => None
  end.

Definition RefCache : Type := list (list ParamKey * list F).

Definition ref_run (cap : Z) (l : RefCache) (o : CacheOp) : option (list F) * RefCache :=
  match o with
  | Save ps r =>
      (None, match mapM param_key ps with Some ks => lru_put_list cap l ks r | None => l end)
  | Fetch ps => (mapM param_key ps ≫= lru_peek_list l, l)
  end.

Fixpoint ref_runs (cap : Z) (l : RefCache) (ops : list CacheOp) : list (option (list F)) * RefCache :=
  match ops with
  | [] => ([], l)
  | o :: ops =>
      let '(out, l) := ref_run cap l o in
      let '(outs, l) := ref_runs cap l ops in
      (out :: outs, l)
  end.

Definition params_of (o : CacheOp) : list F := match o with Save ps _ | Fetch ps => ps end.

(** One to six parameters: the arities that are implemented. *)
Definition arity_ok (o : CacheOp) : Prop := (1 <= length (params_of o) <= 6)%nat.

(** ** Simulation *)

Definition idx_of (c : FieldQueryCache) (k : ParamKey) : option Z :=
  match k with
  | KStr v => str_idx c !! v
  | KInt v => i64_idx c !! v
  | KIp v => ip_idx c !! v
  | KBig v => biguint_idx c !! (pretty v)
  end.

Record numbering (c : FieldQueryCache) : Prop := {
  idx_range k i : idx_of c k = Some i -> 1 <= i <= idx_num c;
  idx_inj k1 k2 i : idx_of c k1 = Some i -> idx_of c k2 = Some i -> k1 = k2;
  idx_num_pos : 0 <= idx_num c;
}.

(** The entry of the code's cache that stands for a key of the reference. *)
Definition stands_for (c : FieldQueryCache) (e : EnumSizeIndex) (ks : list ParamKey) : Prop :=
  mapM (idx_of c) ks ≫= enum_index = Some e.

Definition extends (c c' : FieldQueryCache) : Prop :=
  (forall k i, idx_of c k = Some i -> idx_of c' k = Some i) /\ cache_data c' = cache_data c.

Lemma get_idx_of c p : get_idx c p = param_key p ≫= idx_of c.
Proof. unfold get_idx, param_key. by destruct (get_value p). Qed.

Lemma try_up_spec c p :
  numbering c -> idx_num c + 1 <= USIZE_MAX ->
  let '(i, c') := try_up_idx c p in
  numbering c' /\ extends c c' /\ idx_num c <= idx_num c' <= idx_num c + 1 /\
  (is_Some (param_key p) -> is_Some i) /\ (forall c'', extends c' c'' -> i = param_key p ≫= idx_of c'').
Proof.
  intros Hn Hmax. unfold try_up_idx, param_key.
  assert (W : idx_num c +w 1 = idx_num c + 1).
  { unfold wrap_add. rewrite Z.mod_small; [done|]. pose proof (idx_num_pos _ Hn).
    unfold USIZE_MAX in Hmax. lia. }
  rewrite W. pose proof (idx_num_pos _ Hn).
  assert (Hsame : forall k i, idx_of c k = Some i -> numbering c /\ extends c c /\
    idx_num c <= idx_num c <= idx_num c + 1 /\
    (is_Some (Some k) -> is_Some (Some i)) /\ (forall c'', extends c c'' -> Some i = Some k ≫= idx_of c'')).
  { intros k i Hk. split_and!; [done|done|lia..|done|]. intros c'' [Hx _]. symmetry. by apply Hx. }
  assert (Hnew : forall k c', idx_of c k = None -> cache_data c' = cache_data c -> idx_num c' = idx_num c + 1 ->
    (forall k', idx_of c' k' = if decide (k' = k) then Some (idx_num c + 1) else idx_of c k') ->
    numbering c' /\ extends c c' /\ idx_num c <= idx_num c' <= idx_num c + 1 /\
    (is_Some (Some k) -> is_Some (Some (idx_num c + 1))) /\
    (forall c'', extends c' c'' -> Some (idx_num c + 1) = Some k ≫= idx_of c'')).
  { intros k c' Hk Hd Hi Ho. split_and!; [|split; [|done]|lia..|done|].
    - split; [| |lia].
      + intros k' i. rewrite Ho, Hi. case_decide; intros E; [injection E as <-; lia|].
        pose proof (idx_range _ Hn _ _ E). lia.
      + intros k1 k2 i. rewrite !Ho. repeat case_decide; intros E1 E2; simplify_eq; [done|..].
        * pose proof (idx_range _ Hn _ _ E2). lia.
        * pose proof (idx_range _ Hn _ _ E1). lia.
        * by eapply idx_inj.
    - intros k' i E. rewrite Ho. case_decide; [congruence|done].
    - intros c'' [Hx _]. symmetry. apply Hx. rewrite Ho. by rewrite decide_True. }
  destruct (get_value p) as [| |v|v|v|v|v|v|v|v|v|v|v|v|v|v|v|v|v|v];
    try (split_and!; [done|done|lia..|by intros []|done]).
  - destruct (str_idx c !! v) as [i|] eqn:E; [by apply (Hsame (KStr v))|].
    apply (Hnew (KStr v)); [done..|]. intros [] ; cbn; try done. rewrite lookup_insert.
    repeat case_decide; simplify_eq; done.
  - destruct (i64_idx c !! v) as [i|] eqn:E; [by apply (Hsame (KInt v))|].
    apply (Hnew (KInt v)); [done..|]. intros [] ; cbn; try done. rewrite lookup_insert.
    repeat case_decide; simplify_eq; done.
  - destruct (biguint_idx c !! pretty v) as [i|] eqn:E; [by apply (Hsame (KBig v))|].
    apply (Hnew (KBig v)); [done..|]. intros [] ; cbn; try done. rewrite lookup_insert.
    repeat case_decide; simplify_eq; done.
  - destruct (ip_idx c !! v) as [i|] eqn:E; [by apply (Hsame (KIp v))|].
    apply (Hnew (KIp v)); [done..|]. intros [] ; cbn; try done. rewrite lookup_insert.
    repeat case_decide; simplify_eq; done.
Qed.

Lemma extends_trans c1 c2 c3 : extends c1 c2 -> extends c2 c3 -> extends c1 c3.
Proof. intros [H1 E1] [H2 E2]. split; [eauto|congruence]. Qed.

Lemma mapM_bind {A B D} (f : A -> option B) (g : B -> option D) l :
  mapM (fun x => f x ≫= g) l = mapM f l ≫= mapM g.
Proof.
  induction l as [|x l IH]; [done|]. cbn. destruct (f x) as [y|]; [|done]. cbn. rewrite IH.
  destruct (mapM f l) as [ys|]; cbn; [|by destruct (g y)]. done.
Qed.

Lemma try_up_all_spec ps c :
  numbering c -> idx_num c + Z.of_nat (length ps) <= USIZE_MAX ->
  let '(ids, c') := try_up_all c ps in
  numbering c' /\ extends c c' /\ idx_num c' <= idx_num c + Z.of_nat (length ps) /\
  mapM (fun i => i) ids = mapM param_key ps ≫= mapM (idx_of c') /\
  (is_Some (mapM param_key ps) -> is_Some (mapM (fun i => i) ids)).
Proof.
  revert c. induction ps as [|p ps IH]; intros c Hn Hmax.
  { cbn. split_and!; [done|done|lia|done|by eexists]. }
  cbn [try_up_all length] in *. pose proof (try_up_spec c p Hn) as H1.
  destruct (try_up_idx c p) as [i c1]. destruct H1 as (N1 & X1 & I1 & S1 & E1); [lia|].
  specialize (IH c1 N1). destruct (try_up_all c1 ps) as [ids c2].
  destruct IH as (N2 & X2 & I2 & E2 & S2); [lia|].
  split_and!; [done|by eapply extends_trans|lia|..].
  - rewrite <- mapM_bind in *. cbn. rewrite <- (E1 c2 X2), E2. done.
  - cbn. destruct (param_key p) as [k|]; [|by intros []].
    destruct S1 as [j ->]; [done|]. cbn. destruct (mapM param_key ps); [|by intros []].
    destruct S2 as [js ->]; [done|]. done.
Qed.

Definition index_list (e : EnumSizeIndex) : list Z :=
  match e with
  | Idx1 a => [a]
  | Idx2 a b => [a; b]
  | Idx3 a b c => [a; b; c]
  | Idx4 a b c d => [a; b; c; d]
  | Idx5 a b c d e => [a; b; c; d; e]
  | Idx6 a b c d e f => [a; b; c; d; e; f]
  end.

Lemma enum_index_list l e : enum_index l = Some e -> l = index_list e.
Proof. destruct l as [|? [|? [|? [|? [|? [|? [|? ?]]]]]]]; cbn; intros; by simplify_eq. Qed.

Lemma enum_index_ok l : (1 <= length l <= 6)%nat -> is_Some (enum_index l).
Proof. destruct l as [|? [|? [|? [|? [|? [|? [|? ?]]]]]]]; cbn; intros; try lia; by eexists. Qed.

Lemma mapM_idx_inj c ks1 ks2 l :
  numbering c -> mapM (idx_of c) ks1 = Some l -> mapM (idx_of c) ks2 = Some l -> ks1 = ks2.
Proof.
  intros Hn. rewrite !mapM_Some. intros H1. revert ks2.
  induction H1 as [|k i ks1 l Hk _ IH]; intros ks2 H2; inversion H2; subst; [done|].
  f_equal; [by eapply idx_inj|auto].
Qed.

Lemma stands_for_iff c e1 ks1 e2 ks2 :
  numbering c -> stands_for c e1 ks1 -> stands_for c e2 ks2 -> (e1 = e2 <-> ks1 = ks2).
Proof.
  unfold stands_for. intros Hn H1 H2. split; [|by intros ->; simplify_eq].
  intros ->. destruct (mapM (idx_of c) ks1) as [l1|] eqn:E1; [|done].
  destruct (mapM (idx_of c) ks2) as [l2|] eqn:E2; [|done]. cbn in *.
  apply enum_index_list in H1, H2. subst. by eapply mapM_idx_inj.
Qed.

Lemma stands_for_extends c c' e ks : extends c c' -> stands_for c e ks -> stands_for c' e ks.
Proof.
  intros [X _]. unfold stands_for. destruct (mapM (idx_of c) ks) as [l|] eqn:E; [|done].
  enough (mapM (idx_of c') ks = Some l) as -> by done.
  rewrite mapM_Some in *. eapply Forall2_impl; [exact E|]. auto.
Qed.


(** ** The two caches side by side *)

Section Related.
Context {K1 K2 V : Type} `{EqDecision K1, EqDecision K2} (Rel : K1 -> K2 -> Prop).
Hypothesis (HR : forall a b a' b', Rel a b -> Rel a' b' -> (a = a' <-> b = b')).
Local Abbreviation rel := (fun (p : K1 * V) (q : K2 * V) => Rel p.1 q.1 /\ p.2 = q.2).

Lemma list_find_related l1 l2 k1 k2 :
  Forall2 rel l1 l2 -> Rel k1 k2 ->
  match list_find (fun p : K1 * V => p.1 = k1) l1, list_find (fun p : K2 * V => p.1 = k2) l2 with
  | Some (i, p), Some (j, q) => i = j /\ p.2 = q.2
  | None, None => True
  | _, _ => False
  end.
Proof.
  intros HF HK. induction HF as [|p q l1 l2 [Hr Hv] HF IH]; [done|]. cbn.
  pose proof (HR _ _ _ _ Hr HK) as Hiff. repeat case_decide; try tauto.
  destruct (list_find _ l1) as [[i p']|], (list_find _ l2) as [[j q']|]; cbn; try done.
  destruct IH as [-> E]. done.
Qed.

Lemma peek_related l1 l2 k1 k2 :
  Forall2 rel l1 l2 -> Rel k1 k2 -> lru_peek_list l1 k1 = lru_peek_list l2 k2.
Proof.
  intros HF HK. pose proof (list_find_related _ _ _ _ HF HK) as H. unfold lru_peek_list.
  destruct (list_find _ l1) as [[i p']|], (list_find _ l2) as [[j q']|]; cbn; try done.
  by destruct H as [_ ->].
Qed.

Lemma put_related cap l1 l2 k1 k2 v :
  Forall2 rel l1 l2 -> Rel k1 k2 -> Forall2 rel (lru_put_list cap l1 k1 v) (lru_put_list cap l2 k2 v).
Proof.
  intros HF HK. pose proof (list_find_related _ _ _ _ HF HK) as H. unfold lru_put_list.
  constructor; [done|].
  destruct (list_find _ l1) as [[i p']|], (list_find _ l2) as [[j q']|]; try done.
  - destruct H as [-> _]. by apply Forall2_delete.
  - unfold zlen. rewrite (Forall2_length _ _ _ HF). case_decide; [by apply Forall2_take|done].
Qed.
End Related.

Context {LL : LruCacheLaws EnumSizeIndex (list F) L}.

Record cache_sim (cap n : Z) (c : FieldQueryCache) (l : RefCache) : Prop := {
  sim_numbering : numbering c;
  sim_bound : idx_num c <= n;
  sim_capacity : capacity_of (cache_data c) = cap;
  sim_entries : Forall2 (fun p q => stands_for c p.1 q.1 /\ p.2 = q.2) (entries (cache_data c)) l;
}.

Lemma cache_sim_new size : cache_sim (Z.max size 1) 0 (with_capacity size) [].
Proof.
  split.
  - split; [..|done]; intros []; cbn; rewrite lookup_empty; done.
  - done.
  - apply capacity_new.
  - cbn. rewrite entries_new. constructor.
Qed.

Lemma peek_not_in (l : RefCache) ks :
  Forall (fun q => q.1 <> ks) l -> lru_peek_list l ks = None.
Proof.
  intros H. unfold lru_peek_list.
  destruct (list_find (fun p => p.1 = ks) l) as [[i p]|] eqn:E; [|done].
  apply list_find_Some in E as (Hl & Hp & _). rewrite Forall_lookup in H. by apply H in Hl.
Qed.

Lemma cache_step cap n c l o :
  cache_sim cap n c l -> arity_ok o -> n + 6 <= USIZE_MAX ->
  let '(out, c') := cache_run c o in
  let '(out', l') := ref_run cap l o in
  out = out' /\ cache_sim cap (n + 6) c' l'.
Proof.
  intros S Ha Hmax. pose proof (sim_numbering _ _ _ _ S) as Hn. pose proof (sim_bound _ _ _ _ S).
  unfold arity_ok in Ha. destruct o as [ps r|ps]; cbn [cache_run ref_run params_of] in *.
  - split; [done|]. unfold save. pose proof (try_up_all_spec ps c Hn) as T.
    destruct (try_up_all c ps) as [ids c1]. destruct T as (N1 & [X1 D1] & I1 & E1 & S1); [lia|].
    assert (F1 : Forall2 (fun p q => stands_for c1 p.1 q.1 /\ p.2 = q.2) (entries (cache_data c1)) l).
    { rewrite D1. eapply Forall2_impl; [apply S|]. intros p q [Hs He]. split; [|done].
      by eapply stands_for_extends. }
    rewrite E1. destruct (mapM param_key ps) as [ks|] eqn:Ek; cbn [mbind option_bind] in *.
    + destruct S1 as [js Ej]; [by eexists|]. rewrite Ej in E1.
      destruct (enum_index_ok js) as [e Ee].
      { symmetry in E1. apply length_mapM in E1. apply length_mapM in Ek. lia. }
      rewrite <- E1. cbn. rewrite Ee. split; cbn; [destruct N1; by split|lia|rewrite capacity_put, D1; apply S|].
      rewrite entries_put, D1, (sim_capacity _ _ _ _ S). rewrite D1 in F1.
      refine (put_related (stands_for c1) (fun a b a' b' => stands_for_iff c1 a b a' b' N1) cap _ _ e ks r F1 _).
      unfold stands_for. rewrite <- E1. done.
    + split; [done|lia|rewrite D1; apply S|done].
  - split; [|destruct S; split; [done|lia|done|done]].
    unfold fetch. rewrite (mapM_ext _ (fun p => param_key p ≫= idx_of c)) by (intros; apply get_idx_of).
    rewrite mapM_bind. destruct (mapM param_key ps) as [ks|] eqn:Ek; cbn [mbind option_bind]; [|done].
    destruct (mapM (idx_of c) ks) as [js|] eqn:Ej; cbn [mbind option_bind].
    + destruct (enum_index_ok js) as [e Ee].
      { apply length_mapM in Ej. apply length_mapM in Ek. lia. }
      rewrite Ee, peek_entries.
      refine (peek_related (stands_for c) (fun a b a' b' => stands_for_iff c a b a' b' Hn) _ _ e ks _ _);
        [apply S|]. unfold stands_for. by rewrite Ej.
    + symmetry. apply peek_not_in. pose proof (sim_entries _ _ _ _ S) as HF.
      apply Forall_lookup. intros j q Hq Hks.
      destruct (Forall2_lookup_r _ _ _ _ _ HF Hq) as (p & _ & Hs & _).
      unfold stands_for in Hs. by rewrite Hks, Ej in Hs.
Qed.

(** Numbering the parameter values and keying the results by the numbers is
    invisible: whatever the sequence of saves and fetches of one to six
    parameters, every fetch answers what an LRU cache of the same capacity, keyed
    by the values themselves, answers; a value of an unsupported type is never
    cached, the field names do not matter, and tuples of different arity never
    collide. *)
Theorem query_cache_by_value (size : Z) (ops : list CacheOp) :
  Forall arity_ok ops -> 6 * zlen ops <= USIZE_MAX ->
  (cache_runs (with_capacity size) ops).1 = (ref_runs (Z.max size 1) [] ops).1.
Proof.
  intros Ha Hn.
  enough (G : forall n c l, cache_sim (Z.max size 1) n c l -> n + 6 * zlen ops <= USIZE_MAX ->
    (cache_runs c ops).1 = (ref_runs (Z.max size 1) l ops).1) by (eapply G; [apply cache_sim_new|lia]).
  clear Hn. induction Ha as [|o ops Ho _ IH]; intros n c l S Hn; [done|].
  cbn [cache_runs ref_runs]. unfold zlen in *. cbn [length] in Hn.
  pose proof (cache_step _ n c l o S Ho) as H1.
  destruct (cache_run c o) as [out c1], (ref_run (Z.max size 1) l o) as [out' l1].
  destruct H1 as [-> S1]; [lia|]. specialize (IH _ _ _ S1).
  destruct (cache_runs c1 ops), (ref_runs (Z.max size 1) l1 ops). cbn in *. f_equal. apply IH. lia.
Qed.

End Cache.

(** ** Witness *)

Definition list_lru_cache (K V : Type) `{EqDecision K} : LruCache K V := {|
  lru_cache := Z * list (K * V);
  lru_cache_new n := (n, []);
  lru_put c k v := (c.1, lru_put_list c.1 c.2 k v);
  lru_peek c k := lru_peek_list c.2 k;
|}.

Definition list_lru_cache_laws (K V : Type) `{EqDecision K} : LruCacheLaws K V (list_lru_cache K V).
Proof.
  refine {| entries := (snd : lru_cache (LruCache := list_lru_cache K V) -> list (K * V));
            capacity_of := (fst : lru_cache (LruCache := list_lru_cache K V) -> Z) |}; done.
Defined.

Definition demo_field : Type := string * Value (H := list_types).
#[local] Existing Instance list_types.
#[local] Existing Instance list_api.
#[local] Existing Instance list_lru_cache.
#[local] Existing Instance list_lru_cache_laws.
#[local] Instance demo_ip_dec : EqDecision IpAddr := Z.eq_dec.
#[local] Instance demo_ip_countable : Countable IpAddr := Z_countable.

(** The string and the integer [1] do not collide, names do not count, the
    capacity of two drops the oldest entry. *)
Definition demo_ops : list (CacheOp (F := demo_field)) :=
  [Save [("a", Chars "1")] [("x", IntV 1)];
   Save [("a", IntV 1)] [("x", IntV 2)];
   Fetch [("b", Chars "1")]; Fetch [("b", IntV 1)];
   Save [("a", Chars "1"); ("b", IntV 1)] [("x", IntV 3)];
   Fetch [("a", Chars "1")]; Fetch [("c", Chars "1"); ("d", IntV 1)];
   Fetch [("a", BoolV true)]].

Lemma query_cache_by_value_witness :
  (cache_runs (with_capacity 2) demo_ops).1 =
  [None; None; Some [("x", IntV 1)]; Some [("x", IntV 2)]; None; None; Some [("x", IntV 3)]; None].
Proof.
  rewrite (query_cache_by_value (F := demo_field) 2 demo_ops).
  - vm_compute. reflexivity.
  - unfold demo_ops, arity_ok. repeat constructor.
  - vm_compute. discriminate.
Defined.
