(* ===== verification/OmlData.v ===== *)
(** Records as the object-model language (OML) sees them
    ([src/crates/wp-oml]): the interface of the data-model crate it is built on,
    and its accessors ([core/model/record.rs], [core/evaluator/extract/basic],
    [language/syntax/accessors], [language/types/target.rs]).

    The data-model crate is outside the repository: [OmlData] has the operations
    the evaluator calls, [OmlLaws] what their documentation says of them.  A
    [FieldStorage] owns its field or shares one ([Arc]); renaming a shared one
    puts a name over the field without touching it. *)
From Stdlib Require Import ZArith Lia String.
From Stdlib Require Import Floats.SpecFloat.
From stdpp Require Import prelude strings gmap.
From S2P Require Import Prelude F64 Text DataModel.
Local Open Scope string_scope.
Local Open Scope list_scope.
Local Open Scope Z_scope.

(** ** Values *)

(** The payload types of other crates. *)
Class OmlTypes := {
  TimeT : Type;
  time_cmp : Comparable TimeT;
  IpNetT : Type;
  ipnet_eq : IpNetT -> IpNetT -> bool;
  ArrayT : Type;
  ObjectT : Type;
}.

(** [WildcardMatcher for f64], with the constant [0.0001]. *)
Definition f64_comparable : Comparable spec_float := {|
  partial_eq := feq;
  partial_cmp := SFcompare;
  matches self other :=
    let eps := S754_finite false 7378697629483821 (-66) in
    if flt other self then flt (fsub self other) eps else flt (fsub other self) eps
|}.

(** [WildcardMatcher for IpAddr] *)
Definition ip_comparable : Comparable ip_addr := {|
  partial_eq a b := bool_decide (a = b);
  partial_cmp a b := Some (ip_compare a b);
  matches self other := bool_decide (self = other)
|}.

#[export] Instance oml_value_types `{OmlTypes} : ValueTypes := {|
  Time := TimeT; Float := spec_float; IpNet := IpNetT; IpAddr := ip_addr;
  Array := ArrayT; Object := ObjectT;
  time_comparable := time_cmp; float_comparable := f64_comparable; ipaddr_comparable := ip_comparable;
  ipnet_eqb := ipnet_eq
|}.

(** The data types the evaluator names; the others by a number. *)
Inductive DataType :=
  | TAuto | TChars | TBool | TInt | TFloat | TIP | TBigInt | TJson | TIgnore
  | TOther (k : Z).

#[export] Instance DataType_eq_dec : EqDecision DataType.
Proof. solve_decision. Defined.

(** ** Fields, stored fields, arrays and objects *)

Class OmlData `{OmlTypes} (F St : Type) := {
  type_default : DataType;
  type_display : DataType -> string;
  value_is_empty : Value -> bool;
  field_new : DataType -> string -> Value -> F;
  f_meta : F -> DataType;
  f_name : F -> string;
  f_value : F -> Value;
  f_set_name : F -> string -> F;
  f_set_value : F -> Value -> F;
  from_ignore : string -> F;
  mk_chars : string -> string -> F;
  mk_int : string -> Z -> F;
  mk_float : string -> spec_float -> F;
  mk_bool : string -> bool -> F;
  mk_ip : string -> ip_addr -> F;
  mk_time : string -> TimeT -> F;
  from_arr : string -> list F -> F;
  from_obj : string -> ObjectT -> F;
  from_owned : F -> St;
  from_shared : F -> St;
  is_shared : St -> bool;
  as_field : St -> F;
  into_owned : St -> F;
  st_name : St -> string;
  st_meta : St -> DataType;
  st_set_name : St -> string -> St;
  arr_items : ArrayT -> list St;
  obj_default : ObjectT;
  obj_is_empty : ObjectT -> bool;
  obj_get : ObjectT -> string -> option St;
  obj_insert : ObjectT -> string -> St -> ObjectT;
  obj_remove : ObjectT -> string -> ObjectT;
  obj_iter : ObjectT -> list (string * St);
  rec_field : list St -> string -> option St;
}.

Class OmlLaws `{OmlData F St} := {
  new_meta m k v : f_meta (field_new m k v) = m;
  new_name m k v : f_name (field_new m k v) = k;
  new_value m k v : f_value (field_new m k v) = v;
  set_name_name f k : f_name (f_set_name f k) = k;
  set_name_meta f k : f_meta (f_set_name f k) = f_meta f;
  set_name_value f k : f_value (f_set_name f k) = f_value f;
  set_value_value f v : f_value (f_set_value f v) = v;
  set_value_name f v : f_name (f_set_value f v) = f_name f;
  set_value_meta f v : f_meta (f_set_value f v) = f_meta f;
  ignore_name k : f_name (from_ignore k) = k;
  ignore_meta k : f_meta (from_ignore k) = TIgnore;
  ignore_value k : f_value (from_ignore k) = Ignore_;
  chars_field k s : mk_chars k s = field_new TChars k (Chars s);
  int_field k n : mk_int k n = field_new TInt k (IntV n);
  float_field k x : mk_float k x = field_new TFloat k (FloatV x);
  bool_field k b : mk_bool k b = field_new TBool k (BoolV b);
  ip_field k a : mk_ip k a = field_new TIP k (IpAddrV a);
  owned_shared f : is_shared (from_owned f) = false;
  owned_field f : as_field (from_owned f) = f;
  owned_eta s : is_shared s = false -> from_owned (as_field s) = s;
  owned_into f : into_owned (from_owned f) = f;
  shared_shared f : is_shared (from_shared f) = true;
  shared_field f : as_field (from_shared f) = f;
  owned_name f : st_name (from_owned f) = f_name f;
  shared_name f : st_name (from_shared f) = f_name f;
  meta_field s : st_meta s = f_meta (as_field s);
  rename_name s k : st_name (st_set_name s k) = k;
  rename_shared s k : is_shared (st_set_name s k) = is_shared s;
  rename_field s k : is_shared s = true -> as_field (st_set_name s k) = as_field s;
  into_meta s : f_meta (into_owned s) = f_meta (as_field s);
  into_value s : f_value (into_owned s) = f_value (as_field s);
  into_name s : f_name (into_owned s) = st_name s;
  obj_get_insert o k s k' :
    obj_get (obj_insert o k s) k' = if bool_decide (k = k') then Some s else obj_get o k';
  obj_get_remove o k k' :
    obj_get (obj_remove o k) k' = if bool_decide (k = k') then None else obj_get o k';
  obj_get_default k : obj_get obj_default k = None;
  rec_field_first l k : rec_field l k = head (filter (fun s => st_name s = k) l);
}.

(** Compiled wildcard patterns: the [wildmatch] crate. *)
Class WildMatch := {
  Wild : Type;
  wild_new : string -> Wild;
  wild_matches : Wild -> string -> bool;
}.

(** The clock of [Local::now], split by the [chrono] crate. *)
Record LocalNow `{OmlTypes} := mkNow {
  naive_local : TimeT; year : Z; month : Z; day : Z; hour : Z;
}.

(** ** Targets ([language/types/target.rs]) *)

Record EvaluationTarget := mkTarget { t_name : option string; data_type : DataType }.

Definition target_new (name : string) (meta : DataType) : EvaluationTarget := mkTarget (Some name) meta.
Definition auto_default : EvaluationTarget := mkTarget None TAuto.
(** [Display] *)
Definition target_display `{OmlData F St} (t : EvaluationTarget) : string :=
  (default "_" (t_name t) +:+ " : " +:+ type_display (data_type t) +:+ " ")%string.

Definition safe_name (t : EvaluationTarget) : string := default "_" (t_name t).

Section Access.
Context `{OmlTypes} {F St : Type} `{!OmlData F St} `{WildMatch}.

(** The source record is a list of borrowed fields, the target record a list
    of stored ones. *)
Definition Src : Type := list F.
Definition Dst : Type := list St.

(** The evaluator's state and results: a panic, or a value and the records. *)
Definition ev (A : Type) : Type := Src -> Dst -> outcome (A * (Src * Dst)).

Definition eret {A} (a : A) : ev A := fun src dst => Ret (a, (src, dst)).
Definition epanic {A} : ev A := fun _ _ => Panic.
Definition ebind {A B} (m : ev A) (k : A -> ev B) : ev B := fun src dst =>
  match m src dst with
  | Ret (a, (src, dst)) => k a src dst
  | Panic => Panic
  end.

(** *** [RecordRef] *)

Definition get_pos (src : Src) (key : string) : option (nat * F) :=
  list_find (fun f => f_name f = key) src.

Definition ref_remove (src : Src) (idx : nat) : Src := delete idx src.

(** *** Batch targets *)

Record BatchEvalTarget := mkBatchTarget { origin : EvaluationTarget; wild : Wild }.

Definition batch_target_new (origin : EvaluationTarget) : BatchEvalTarget :=
  mkBatchTarget origin (wild_new (default "_" (t_name origin))).

Definition match_it (t : BatchEvalTarget) (tdo : F) : bool :=
  wild_matches (wild t) (str_trim (f_name tdo))
  && (bool_decide (data_type (origin t) = TAuto) || bool_decide (f_meta tdo = data_type (origin t))).

(** *** Built-in functions ([core/evaluator/functions/time.rs]) *)

Inductive BuiltinFunction := NowTime | NowDate | NowHour.

Definition fun_extract_one (now : LocalNow) (f : BuiltinFunction) (target : EvaluationTarget) : option F :=
  match f with
  | NowTime => Some (mk_time (safe_name target) (naive_local now))
  | NowDate => Some (mk_int (safe_name target) (year now * 10000 + month now * 100 + day now))
  | NowHour => Some (mk_int (safe_name target)
                       (year now * 1000000 + month now * 10000 + day now * 100 + hour now))
  end.

(** *** Accessors ([language/syntax/accessors]) *)

Inductive GenericAccessor :=
  | GField (f : F) | GFieldArc (f : F) | GFun (f : BuiltinFunction) | GStaticSymbol (sym : string).

Record GenericBinding := mkGenericBinding { gb_target : EvaluationTarget; accessor : GenericAccessor }.

Record FieldTake := mkTake {
  take_get : option string; take_option : list string; take_collect : list string;
  take_default_acq : option GenericAccessor;
}.

Record FieldRead := mkRead {
  read_get : option string; read_option : list string; read_collect : list string;
  read_default_acq : option GenericAccessor; collect_wild : list Wild;
}.

(** [From<ReadOption> for FieldRead] *)
Definition field_read (get : option string) (option collect : list string)
    (default_acq : Datatypes.option GenericAccessor) : FieldRead :=
  mkRead get option collect default_acq (wild_new <$> collect).

Definition field_read_new (name : string) : FieldRead := mkRead (Some name) [] [] None [].

Inductive DirectAccessor := Take (t : FieldTake) | Read (r : FieldRead).

Definition field_name (a : DirectAccessor) : option string :=
  match a with Take t => take_get t | Read r => read_get r end.

Record RecordOperation := mkRecordOp { dat_get : DirectAccessor; default_val : option GenericBinding }.

(** *** [take] ([extract/basic/take.rs]) *)

(** The first field of the name, kept when it is an empty option. *)
Definition find_move_tdo (key : string) (option : bool) : ev (Datatypes.option F) := fun src dst =>
  match get_pos src key with
  | Some (idx, found) =>
      if option && value_is_empty (f_value found) then Ret (None, (src, dst))
      else Ret (Some found, (ref_remove src idx, dst))
  | None => Ret (None, (src, dst))
  end.

(** The first item of the name, empty ones passed over for an option. *)
Definition find_move_tdc (key : string) (option : bool) : ev (Datatypes.option F) := fun src dst =>
  match list_find (fun s => st_name s = key /\ (option && value_is_empty (f_value (as_field s))) = false) dst with
  | Some (idx, s) => Ret (Some (into_owned s), (src, delete idx dst))
  | None => Ret (None, (src, dst))
  end.

(** Both records lose the field; the target record's one is the answer. *)
Definition take_both (key : string) (option : bool) : ev (Datatypes.option F) :=
  ebind (find_move_tdc key option) (fun dst_val =>
  ebind (find_move_tdo key option) (fun src_val =>
  eret (match dst_val with Some v => Some v | None => src_val end))).

Fixpoint take_options (options : list string) : ev (option F) :=
  match options with
  | [] => eret None
  | o :: options =>
      ebind (take_both o true) (fun v =>
      match v with Some v => eret (Some v) | None => take_options options end)
  end.

Definition take_extract_one (t : FieldTake) (target : EvaluationTarget) : ev (option F) :=
  let key := default (safe_name target) (take_get t) in
  ebind (take_both key false) (fun v =>
  match v with Some v => eret (Some v) | None => take_options (take_option t) end).

(** [collect_item]: every field a pattern matches, once per pattern. *)
Definition take_collect_item (t : FieldTake) (src : Src) (dst : Dst) : list F :=
  let hits (name : string) (f : F) :=
    omap (fun key => if wild_matches (wild_new key) (str_trim name) then Some f else None) (take_collect t) in
  (src ≫= fun f => hits (f_name f) f) ++ (dst ≫= fun s => hits (st_name s) (as_field s)).

(** *** [read] ([extract/basic/read.rs]) *)

Definition read_key (r : FieldRead) (target : EvaluationTarget) : string :=
  match read_get r with Some k => k | None => safe_name target end.

Definition find_tdc_target (dst : Dst) (key : string) (option : bool) : Datatypes.option F :=
  match rec_field dst key with
  | Some found => if option && value_is_empty (f_value (as_field found)) then None else Some (as_field found)
  | None => None
  end.

Definition find_tdr_target (src : Src) (key : string) (option : bool) : Datatypes.option F :=
  match get_pos src key with
  | Some (_, found) => if option && value_is_empty (f_value found) then None else Some found
  | None => None
  end.

Definition find_tdc_target_storage (dst : Dst) (key : string) (option : bool) : Datatypes.option St :=
  match list_find (fun s => st_name s = key) dst with
  | Some (_, s) => if option && value_is_empty (f_value (as_field s)) then None else Some s
  | None => None
  end.

Definition find_tdr_target_storage (src : Src) (key : string) (option : bool) : Datatypes.option St :=
  match list_find (fun f => f_name f = key) src with
  | Some (_, f) => if option && value_is_empty (f_value f) then None else Some (from_owned f)
  | None => None
  end.

Definition or_else {A} (a b : option A) : option A := match a with Some a => Some a | None => b end.

Definition read_lookup {A} (in_dst in_src : string -> bool -> option A) (key : string) (options : list string) : option A :=
  or_else (in_dst key false) (or_else (in_src key false)
    (foldr (fun o rest => or_else (in_dst o true) (or_else (in_src o true) rest)) None options)).

Definition read_extract_one (r : FieldRead) (target : EvaluationTarget) : ev (option F) := fun src dst =>
  Ret (read_lookup (find_tdc_target dst) (find_tdr_target src) (read_key r target) (read_option r), (src, dst)).

Definition read_extract_storage (r : FieldRead) (target : EvaluationTarget) : ev (option St) := fun src dst =>
  Ret (read_lookup (find_tdc_target_storage dst) (find_tdr_target_storage src) (read_key r target) (read_option r),
       (src, dst)).

(** [collect_item]: for each pattern the first match, the target record first. *)
Definition read_collect_item (r : FieldRead) (src : Src) (dst : Dst) : list F :=
  omap (fun cw =>
    match list_find (fun s => wild_matches cw (str_trim (st_name s)) = true) dst with
    | Some (_, s) => Some (as_field s)
    | None => snd <$> list_find (fun f => wild_matches cw (str_trim (f_name f)) = true) src
    end) (collect_wild r).

(** *** [DirectAccessor] ([extract/basic/mod.rs]) *)

Definition direct_extract_one (a : DirectAccessor) (target : EvaluationTarget) : ev (option F) :=
  match a with Take t => take_extract_one t target | Read r => read_extract_one r target end.

(** The asynchronous [read] keeps a shared field shared; [DirectAccessor]'s
    own synchronous [extract_storage] does not. *)
Definition direct_extract_storage (a : DirectAccessor) (target : EvaluationTarget) : ev (option St) :=
  ebind (direct_extract_one a target) (fun v => eret (from_owned <$> v)).

Definition direct_extract_storage_async (a : DirectAccessor) (target : EvaluationTarget) : ev (option St) :=
  match a with
  | Take t => ebind (take_extract_one t target) (fun v => eret (from_owned <$> v))
  | Read r => read_extract_storage r target
  end.

Definition direct_collect_item (a : DirectAccessor) (src : Src) (dst : Dst) : list F :=
  match a with Take t => take_collect_item t src dst | Read r => read_collect_item r src dst end.

(** [operand_target] ([extract/operations/mod.rs]) *)
Definition operand_target (a : DirectAccessor) (fallback : EvaluationTarget) : EvaluationTarget :=
  target_new (default (safe_name fallback) (field_name a)) TAuto.

(** *** Defaults ([extract/operations/{other,record}.rs]) *)

Variable now : LocalNow.

Definition generic_extract_storage (g : GenericAccessor) (target : EvaluationTarget) : ev (option St) :=
  match g with
  | GFieldArc f => eret (Some (from_shared f))
  | GField f => eret (Some (from_owned f))
  | GFun f => eret (from_owned <$> fun_extract_one now f target)
  | GStaticSymbol _ => epanic
  end.

Definition generic_extract_storage_async (g : GenericAccessor) (target : EvaluationTarget) : ev (option St) :=
  match g with
  | GFieldArc f | GField f => eret (Some (from_owned f))
  | GFun f => eret (from_owned <$> fun_extract_one now f target)
  | GStaticSymbol _ => epanic
  end.

(** A default renamed: a shared one under the new name, an owned one itself. *)
Definition rename_storage (s : St) (name : string) : St :=
  if is_shared s then st_set_name s name else from_owned (f_set_name (into_owned s) name).

Definition record_extract_one (op : RecordOperation) (target : EvaluationTarget) : ev (option F) :=
  ebind (direct_extract_one (dat_get op) target) (fun v =>
  match v with
  | Some x => eret (Some x)
  | None =>
      match default_val op with
      | Some d =>
          ebind (generic_extract_storage (accessor d) target) (fun s =>
          eret ((fun s => f_set_name (into_owned s) (safe_name target)) <$> s))
      | None => eret None
      end
  end).

Definition record_extract_one_async (op : RecordOperation) (target : EvaluationTarget) : ev (option F) :=
  ebind (direct_extract_one (dat_get op) target) (fun v =>
  match v with
  | Some x => eret (Some x)
  | None =>
      match default_val op with
      | Some d =>
          ebind (generic_extract_storage_async (accessor d) target) (fun s =>
          eret ((fun s => f_set_name (into_owned s) (safe_name target)) <$> s))
      | None => eret None
      end
  end).

Definition record_extract_storage (op : RecordOperation) (target : EvaluationTarget) : ev (option St) :=
  ebind (direct_extract_storage (dat_get op) target) (fun v =>
  match v with
  | Some x => eret (Some x)
  | None =>
      match default_val op with
      | Some d =>
          ebind (generic_extract_storage (accessor d) target) (fun s =>
          eret ((fun s => rename_storage s (safe_name target)) <$> s))
      | None => eret None
      end
  end).

Definition record_extract_storage_async (op : RecordOperation) (target : EvaluationTarget) : ev (option St) :=
  ebind (direct_extract_storage_async (dat_get op) target) (fun v =>
  match v with
  | Some x => eret (Some x)
  | None =>
      match default_val op with
      | Some d =>
          ebind (generic_extract_storage_async (accessor d) target) (fun s =>
          eret ((fun s => rename_storage s (safe_name target)) <$> s))
      | None => eret None
      end
  end).

(** [ArrOperation] ([extract/operations/array.rs]): a collected list, nothing
    when it is empty; nothing is taken out of the records. *)
Definition arr_extract_one (dat_crate : DirectAccessor) (target : EvaluationTarget) : ev (option F) := fun src dst =>
  let arr := direct_collect_item dat_crate src dst in
  Ret (match arr with [] => None | _ => Some (from_arr (safe_name target) arr) end, (src, dst)).

End Access.

Notation "'let*' x ':=' m 'in' k" := (ebind m (fun x => k))
  (at level 10, x pattern, m at level 100, k at level 200) : wp_scope.
