(* ===== verification/OmlAccessLaws.v ===== *)
(** What the accessors of OML do to the records ([OmlData]): they never panic,
    what they answer was in the records, and a record only loses fields. *)
From Stdlib Require Import ZArith Lia String.
From stdpp Require Import prelude strings.
From S2P Require Import Prelude F64 Text DataModel OmlData.
Local Open Scope string_scope.
Local Open Scope list_scope.
Local Open Scope wp_scope.

Lemma Forall_sublist {A} (P : A -> Prop) l k : l `sublist_of` k -> Forall P k -> Forall P l.
Proof. induction 1; rewrite ?Forall_cons; intuition. Qed.

Section Laws.
Context `{OmlTypes} {F St : Type} `{!OmlData F St} `{WildMatch}.
Implicit Types (src : list F) (dst : list St).

(** The field [f] is one of the records'. *)
Definition from_records src dst (f : F) : Prop :=
  f ∈ src \/ exists s, s ∈ dst /\ (f = as_field s \/ f = into_owned s).

Lemma from_records_weaken src dst src' dst' f :
  src' `sublist_of` src -> dst' `sublist_of` dst -> from_records src' dst' f -> from_records src dst f.
Proof.
  intros Hs Hd [Hf|(s & Hf & Hc)]; [left|right; exists s; split; [|done]];
    eapply elem_of_submseteq; eauto using sublist_submseteq.
Qed.

(** An access: a total step that answers fields of the records. *)
Definition access (m : ev (F := F) (St := St) (option F)) : Prop := forall src dst, exists r src' dst',
  m src dst = Ret (r, (src', dst')) /\ src' `sublist_of` src /\ dst' `sublist_of` dst
  /\ forall f, r = Some f -> from_records src dst f.

Lemma find_move_tdo_access key o : access (find_move_tdo key o).
Proof.
  intros src dst. unfold find_move_tdo. destruct (get_pos src key) as [[i f]|] eqn:E.
  - apply list_find_Some in E as (E & _). apply list_elem_of_lookup_2 in E.
    case_match; do 3 eexists; (split; [reflexivity|]); repeat split; try done.
    + apply sublist_delete.
    + intros f' [= <-]. by left.
  - do 3 eexists; split; [reflexivity|]. done.
Qed.

Lemma find_move_tdc_access key o : access (find_move_tdc key o).
Proof.
  intros src dst. unfold find_move_tdc. destruct (list_find _ _) as [[i s]|] eqn:E.
  - apply list_find_Some in E as (E & _). apply list_elem_of_lookup_2 in E.
    do 3 eexists; (split; [reflexivity|]); repeat split; try done.
    + apply sublist_delete.
    + intros f' [= <-]. right. eauto.
  - do 3 eexists; split; [reflexivity|]. done.
Qed.

(** One access after another, the first one's answer first. *)
Lemma access_or m n : access m -> access n ->
  access (ebind m (fun v => match v with Some v => eret (Some v) | None => n end)).
Proof.
  intros Hm Hn src dst. unfold ebind. destruct (Hm src dst) as (r & s & d & -> & Hs & Hd & Hr).
  destruct r as [f|]; [unfold eret; do 3 eexists; eauto|].
  destruct (Hn s d) as (r' & s' & d' & -> & Hs' & Hd' & Hr'). do 3 eexists; split; [reflexivity|].
  repeat split; [by etrans|by etrans|]. intros f ->. eapply from_records_weaken; eauto.
Qed.

Lemma take_both_access key o : access (take_both key o).
Proof.
  intros src dst. unfold take_both, ebind.
  destruct (find_move_tdc_access key o src dst) as (r & s & d & -> & Hs & Hd & Hr).
  destruct (find_move_tdo_access key o s d) as (r' & s' & d' & -> & Hs' & Hd' & Hr').
  unfold eret. do 3 eexists; split; [reflexivity|]. repeat split; [by etrans|by etrans|].
  intros f Hf. destruct r as [g|]; [auto|]. eapply from_records_weaken; eauto.
Qed.

Lemma take_options_access l : access (take_options l).
Proof.
  induction l as [|o l IH]; [intros src dst; do 3 eexists; split; [reflexivity|]; done|].
  apply access_or; [apply take_both_access|done].
Qed.

Lemma find_target_from src dst key o f :
  find_tdr_target src key o = Some f \/ (exists s, s ∈ dst /\ f = as_field s) -> from_records src dst f.
Proof.
  unfold find_tdr_target, get_pos. intros [E|(s & Hs & ->)]; [|right; eauto].
  destruct (list_find _ _) as [[i g]|] eqn:Eg; [|done]. apply list_find_Some in Eg as (Eg & _).
  apply list_elem_of_lookup_2 in Eg. case_match; simplify_eq. by left.
Qed.

Context `{!OmlLaws}.

Lemma rec_field_elem dst key s : rec_field dst key = Some s -> s ∈ dst /\ st_name s = key.
Proof.
  rewrite rec_field_first. destruct (filter _ dst) as [|x l] eqn:E; [done|]. intros [= ->].
  assert (Hin : s ∈ filter (fun s => st_name s = key) dst) by (rewrite E; apply list_elem_of_here).
  apply list_elem_of_filter in Hin as [Hn Hin]. done.
Qed.

Lemma read_lookup_from src dst key options f :
  read_lookup (find_tdc_target dst) (find_tdr_target src) key options = Some f -> from_records src dst f.
Proof.
  unfold read_lookup, or_else.
  assert (Hd : forall k o g, find_tdc_target dst k o = Some g -> from_records src dst g).
  { intros k o g. unfold find_tdc_target. destruct (rec_field dst k) as [s|] eqn:E; [|done].
    apply rec_field_elem in E as [E _]. case_match; [done|]. intros [= <-]. right; eauto. }
  assert (Hs : forall k o g, find_tdr_target src k o = Some g -> from_records src dst g).
  { intros k o g E. eapply find_target_from; eauto. }
  destruct (find_tdc_target dst key false) eqn:E1; [intros [= <-]; eauto|].
  destruct (find_tdr_target src key false) eqn:E2; [intros [= <-]; eauto|].
  induction options as [|o l IH]; cbn; [done|]. unfold or_else in IH |- *.
  destruct (find_tdc_target dst o true) eqn:E3; [intros [= <-]; eauto|].
  destruct (find_tdr_target src o true) eqn:E4; [intros [= <-]; eauto|done].
Qed.

Lemma direct_access a t : access (direct_extract_one a t).
Proof.
  destruct a as [k|r]; cbn.
  - apply access_or; [apply take_both_access|apply take_options_access].
  - intros src dst. unfold read_extract_one. do 3 eexists; split; [reflexivity|]. repeat split; [done..|].
    intros f. apply read_lookup_from.
Qed.

End Laws.
