(* ===== verification/OmlCalc.v ===== *)
(** OML calculations ([src/crates/wp-oml/src/language/syntax/operations/calc.rs],
    [core/evaluator/extract/operations/calc.rs]): integer and binary64
    arithmetic on operands taken from the records.

    Integers never wrap ([OmlCalc.calc_int_exact]), and the value of a
    calculation is an [i64], a finite number or an ignored field
    ([OmlCalc.calc_field_typed]). *)
From Stdlib Require Import ZArith Lia String.
From Stdlib Require Import Floats.SpecFloat.
From stdpp Require Import prelude strings.
From S2P Require Import Prelude F64 Text DataModel OmlData OmlAccessLaws.
Local Open Scope string_scope.
Local Open Scope list_scope.
Local Open Scope Z_scope.
Local Open Scope wp_scope.

(** ** Numbers and operators *)

Inductive CalcNumber := Digit (v : Z) | FloatN (v : spec_float).
Inductive CalcOp := Add | Sub | Mul | Div | Mod.
Inductive CalcFun := Abs | Round | Floor | Ceil.

Inductive CalcEvalError :=
  | DivideByZero | ModByZero | Overflow (op : string) | NonFinite (op : string)
  | SilentMissing (name : string) | NonNumericOperand (detail : string)
  | InvalidModOperand | InvalidArgument (detail : string).

(** [Result<CalcNumber, CalcEvalError>] *)
Notation calc_result := (CalcNumber + CalcEvalError)%type.

Definition ensure_finite (op : string) (n : CalcNumber) : calc_result :=
  match n with
  | Digit _ => inl n
  | FloatN v => if is_finite v then inl (FloatN v) else inr (NonFinite op)
  end.

(** [checked_*().map(Digit).ok_or(Overflow)] *)
Definition digit_checked (op : string) (z : Z) : calc_result :=
  match i64_checked z with Some v => inl (Digit v) | None => inr (Overflow op) end.

Definition negate (n : CalcNumber) : calc_result :=
  match n with
  | Digit v => digit_checked "neg" (- v)
  | FloatN v => ensure_finite "neg" (FloatN (SFopp v))
  end.

Definition to_f64 (n : CalcNumber) : spec_float := match n with Digit v => as_f64 v | FloatN v => v end.

Definition to_i64_checked (value : spec_float) (fun_ : string) : Z + CalcEvalError :=
  if negb (is_finite value) || flt value (as_f64 I64_MIN) || flt (as_f64 I64_MAX) value
  then inr (InvalidArgument (fun_ +:+ " result out of i64 range"))
  else inl (f64_as_i64 value).

(** The four mixed cases of an operator: integers exactly, otherwise the
    integer operand is converted. *)
Definition mixed (op : string) (onz : Z -> Z -> Z) (onf : spec_float -> spec_float -> spec_float)
    (lhs rhs : CalcNumber) : calc_result :=
  match lhs, rhs with
  | Digit a, Digit b => digit_checked op (onz a b)
  | _, _ => ensure_finite op (FloatN (onf (to_f64 lhs) (to_f64 rhs)))
  end.

Definition eval_binary (op : CalcOp) (lhs rhs : CalcNumber) : calc_result :=
  match op with
  | Add => mixed "add" Z.add fadd lhs rhs
  | Sub => mixed "sub" Z.sub fsub lhs rhs
  | Mul => mixed "mul" Z.mul fmul lhs rhs
  | Div =>
      let denom := to_f64 rhs in
      if feq denom (S754_zero false) then inr DivideByZero
      else ensure_finite "div" (FloatN (fdiv (to_f64 lhs) denom))
  | Mod =>
      match lhs, rhs with
      | Digit _, Digit 0 => inr ModByZero
      | Digit a, Digit b =>
          (* [checked_rem]: the quotient of the least integer by -1 overflows *)
          if bool_decide (a = I64_MIN /\ b = -1) then inr (Overflow "mod") else inl (Digit (Z.rem a b))
      | _, _ => inr InvalidModOperand
      end
  end.

Definition rounded (name : string) (f : spec_float -> spec_float) (arg : CalcNumber) : calc_result :=
  match arg with
  | Digit v => inl (Digit v)
  | FloatN v => match to_i64_checked (f v) name with inl n => inl (Digit n) | inr e => inr e end
  end.

Definition eval_fun (fun_ : CalcFun) (arg : CalcNumber) : calc_result :=
  match fun_ with
  | Abs => match arg with
           | Digit v => digit_checked "abs" (Z.abs v)
           | FloatN v => ensure_finite "abs" (FloatN (SFabs v))
           end
  | Round => rounded "round" fround arg
  | Floor => rounded "floor" ffloor arg
  | Ceil => rounded "ceil" fceil arg
  end.

(** ** Expressions and their evaluation *)

Section Calc.
Context `{OmlTypes} {F St : Type} `{!OmlData F St} `{WildMatch}.

Inductive CalcExpr :=
  | Const (v : CalcNumber)
  | Accessor (a : DirectAccessor (F := F))
  | UnaryNeg (inner : CalcExpr)
  | Binary (op : CalcOp) (lhs rhs : CalcExpr)
  | Func (fun_ : CalcFun) (arg : CalcExpr).

(** The texts of errors are the interface's names and types of a field. *)
Variable describe : F -> string.

Definition field_to_number (field : F) : calc_result :=
  match f_value field with
  | IntV v => inl (Digit v)
  | FloatV v => ensure_finite "operand" (FloatN v)
  | Ignore_ | Null => inr (SilentMissing (f_name field))
  | Chars value => if bool_decide (str_trim value = "") then inr (SilentMissing (f_name field))
                   else inr (NonNumericOperand (describe field))
  | _ => inr (NonNumericOperand (describe field))
  end.

Fixpoint eval_expr (e : CalcExpr) (target : EvaluationTarget) : ev (F := F) (St := St) calc_result :=
  match e with
  | Const v => eret (inl v)
  | Accessor a =>
      let tmp_target := operand_target a target in
      let* found := direct_extract_one a tmp_target in
      eret (match found with
            | Some field => field_to_number field
            | None => inr (SilentMissing (safe_name tmp_target))
            end)
  | UnaryNeg inner =>
      let* v := eval_expr inner target in
      eret (match v with inl n => negate n | inr e => inr e end)
  | Binary op lhs rhs =>
      let* l := eval_expr lhs target in
      match l with
      | inr e => eret (inr e)
      | inl l =>
          let* r := eval_expr rhs target in
          eret (match r with inl r => eval_binary op l r | inr e => inr e end)
      end
  | Func fun_ arg =>
      let* v := eval_expr arg target in
      eret (match v with inl n => eval_fun fun_ n | inr e => inr e end)
  end.

Definition into_field (n : CalcNumber) (name : string) : F :=
  match n with Digit v => mk_int name v | FloatN v => mk_float name v end.

(** A failed calculation is an ignored field; only the log and the
    diagnostics tell a missing operand from an error. *)
Definition calc_extract_one (expr : CalcExpr) (target : EvaluationTarget) : ev (option F) :=
  let* r := eval_expr expr target in
  eret (Some (match r with
              | inl n => into_field n (safe_name target)
              | inr _ => from_ignore (safe_name target)
              end)).

(** Whether the failure is reported as a [MathEvalFail] diagnostic. *)
Definition calc_reports (r : calc_result) : bool :=
  match r with inl _ | inr (SilentMissing _) => false | inr _ => true end.

End Calc.
Arguments CalcExpr F {_}.

(** * Laws

    What OML calculations guarantee: integer expressions are exact
    or report an overflow, the value is always an [i64], a finite number or an
    ignored field, and evaluation never panics. *)

Section Laws.
Context `{OmlTypes} {F St : Type} `{!OmlData F St} `{WildMatch} `{!OmlLaws}.
Variable describe : F -> string.

Notation eval := (eval_expr describe).
Notation ev := (ev (F := F) (St := St)).

(** ** Values that accessors read *)

(** What holds of the values of both records holds of what an accessor reads
    and of the records it leaves. *)
Definition all_values (P : Value -> Prop) (src : list F) (dst : list St) : Prop :=
  Forall (fun f => P (f_value f)) src /\ Forall (fun s => P (f_value (as_field s))) dst.

Lemma direct_values P a t (src : list F) (dst : list St) :
  all_values P src dst ->
  exists r src' dst', direct_extract_one a t src dst = Ret (r, (src', dst')) /\ all_values P src' dst'
    /\ forall f, r = Some f -> P (f_value f).
Proof.
  intros [Hs Hd]. destruct (direct_access a t src dst) as (r & s & d & -> & Ss & Sd & Hr).
  do 3 eexists; split; [reflexivity|]. split; [split; eapply Forall_sublist; eauto|].
  intros f ->. destruct (Hr _ eq_refl) as [Hf|(x & Hx & [->| ->])]; [|rewrite ?into_value..].
  - by rewrite Forall_forall in Hs; apply Hs.
  - by rewrite Forall_forall in Hd; apply Hd.
  - by rewrite Forall_forall in Hd; apply Hd.
Qed.

(** An expression evaluates to a result, whatever the records. *)
Lemma eval_total e t src dst : exists r, eval e t src dst = Ret r.
Proof.
  revert src dst; induction e as [v|a|i IH|op l IHl r IHr|f i IH]; intros src dst; cbn; unfold ebind, eret; [eauto|..].
  - destruct (direct_access a (operand_target a t) src dst) as (o & s & d & -> & _). eauto.
  - destruct (IH src dst) as [[? []] ->]. eauto.
  - destruct (IHl src dst) as [[[v|e] [s d]] ->]; [|eauto]. destruct (IHr s d) as [[? []] ->]. eauto.
  - destruct (IH src dst) as [[? []] ->]. eauto.
Qed.

(** A result a field can hold: an [i64] or a finite number. *)
Definition result_ok (r : calc_result) : Prop :=
  match r with
  | inl (Digit v) => I64_MIN <= v <= I64_MAX
  | inl (FloatN v) => is_finite v = true
  | inr _ => True
  end.

(** The constants of an expression, as the parser builds them. *)
Fixpoint consts_ok (e : CalcExpr F) : Prop :=
  match e with
  | Const v => result_ok (inl v)
  | Accessor _ => True
  | UnaryNeg i | Func _ i => consts_ok i
  | Binary _ l r => consts_ok l /\ consts_ok r
  end.

Definition int_ok (v : Value) : Prop := match v with IntV z => I64_MIN <= z <= I64_MAX | _ => True end.

Lemma ensure_ok op n : result_ok (inl n) \/ (exists x, n = FloatN x) -> result_ok (ensure_finite op n).
Proof. destruct n; cbn; [intros [?|[? ?]]; done|]. intros _. destruct (is_finite v) eqn:E; done. Qed.

Lemma digit_ok op z : result_ok (digit_checked op z).
Proof.
  unfold digit_checked. destruct (i64_checked z) eqn:E; [|done]. apply i64_checked_some in E as [-> ?]. done.
Qed.

Lemma mixed_ok op fz ff a b : result_ok (mixed op fz ff a b).
Proof. destruct a, b; cbn [mixed]; [apply digit_ok|apply ensure_ok; eauto..]. Qed.

Lemma rem_ok a b : I64_MIN <= a <= I64_MAX -> b <> 0 -> I64_MIN <= Z.rem a b <= I64_MAX.
Proof.
  intros Ha Hb. pose proof (Z.rem_bound_abs a b Hb) as Hr. pose proof (Z.rem_le (Z.abs a) (Z.abs b)) as Hl.
  rewrite Z.rem_abs in Hl by done. pose proof (Z.rem_nonneg a b Hb). pose proof (Z.rem_nonpos a b Hb). unfold I64_MIN, I64_MAX in *. lia.
Qed.

Lemma binary_ok op a b : result_ok (inl a) -> result_ok (inl b) -> result_ok (eval_binary op a b).
Proof.
  intros Ha Hb. destruct op; cbn [eval_binary]; [apply mixed_ok..| |].
  - case_match; [done|]. apply ensure_ok. eauto.
  - destruct a as [x|], b as [[|p|p]|]; try done; (case_bool_decide; [done|]); cbn; apply rem_ok; done.
Qed.

Lemma fun_ok f a : result_ok (inl a) -> result_ok (eval_fun f a).
Proof.
  intros Ha. destruct f, a as [v|x]; cbn [eval_fun rounded]; try done;
    try (apply digit_ok || (apply ensure_ok; by eauto));
    unfold to_i64_checked; destruct (_ || _); cbn -[I64_MIN I64_MAX f64_as_i64]; auto using f64_as_i64_range.
Qed.

Lemma negate_ok a : result_ok (negate a).
Proof. destruct a; [apply digit_ok|apply ensure_ok; eauto]. Qed.

Lemma field_ok f : int_ok (f_value f) -> result_ok (field_to_number describe f).
Proof.
  unfold int_ok, field_to_number. destruct (f_value f); try done; try (case_match; done).
  intros _. apply ensure_ok. eauto.
Qed.

(** Evaluation answers, keeps the values in range and its result is one. *)
Lemma eval_ok e t src dst :
  consts_ok e -> all_values int_ok src dst ->
  exists r src' dst', eval e t src dst = Ret (r, (src', dst')) /\ all_values int_ok src' dst' /\ result_ok r.
Proof.
  revert src dst; induction e as [v|a|i IH|op l IHl r IHr|f i IH]; intros src dst He Hv; cbn in He |- *;
    unfold ebind, eret.
  - eauto 6.
  - destruct (direct_values int_ok a (operand_target a t) src dst Hv) as (o & s & d & -> & Hv' & Ho).
    do 3 eexists; split; [reflexivity|]. split; [done|]. destruct o; [auto using field_ok|done].
  - destruct (IH src dst He Hv) as (o & s & d & -> & Hv' & Ho). do 3 eexists; split; [reflexivity|].
    split; [done|]. destruct o; [apply negate_ok|done].
  - destruct He as [Hl Hr]. destruct (IHl src dst Hl Hv) as (o & s & d & -> & Hv' & Ho).
    destruct o as [a|]; [|eauto 6]. destruct (IHr s d Hr Hv') as (o & s' & d' & -> & Hv'' & Ho').
    do 3 eexists; split; [reflexivity|]. split; [done|]. destruct o; [auto using binary_ok|done].
  - destruct (IH src dst He Hv) as (o & s & d & -> & Hv' & Ho). do 3 eexists; split; [reflexivity|].
    split; [done|]. destruct o; [auto using fun_ok|done].
Qed.

(** ** Exactness of integer expressions *)

(** No fractions: no division, no float constant, no rounding. *)
Fixpoint int_only (e : CalcExpr F) : bool :=
  match e with
  | Const (Digit _) => true
  | Const (FloatN _) => false
  | Accessor (Read _) => true
  | Accessor (Take _) => false
  | UnaryNeg i => int_only i
  | Binary Div _ _ => false
  | Binary _ l r => int_only l && int_only r
  | Func Abs i => int_only i
  | Func _ _ => false
  end.

(** The integer an operand reads. *)
Definition operand (t : EvaluationTarget) (src : list F) (dst : list St) (a : DirectAccessor (F := F)) : option Z :=
  match direct_extract_one a (operand_target a t) src dst with
  | Ret (Some f, _) => match f_value f with IntV v => Some v | _ => None end
  | _ => None
  end.

Section Reference.
Variable rho : DirectAccessor (F := F) -> option Z.

Definition zop (op : CalcOp) (a b : Z) : option Z :=
  match op with
  | Add => Some (a + b) | Sub => Some (a - b) | Mul => Some (a * b) | Div => None
  | Mod => if b =? 0 then None else Some (Z.rem a b)
  end.

(** The value in unbounded integers, and whether every step is an [i64] the
    machine operation reaches. *)
Fixpoint zvalue (e : CalcExpr F) : option Z :=
  match e with
  | Const (Digit v) => Some v
  | Const (FloatN _) => None
  | Accessor a => rho a
  | UnaryNeg i => Z.opp <$> zvalue i
  | Binary op l r =>
      match zvalue l, zvalue r with Some a, Some b => zop op a b | _, _ => None end
  | Func _ i => Z.abs <$> zvalue i
  end.

Definition is_i64 (o : option Z) : bool :=
  match o with Some z => (I64_MIN <=? z) && (z <=? I64_MAX) | None => true end.

Fixpoint no_overflow (e : CalcExpr F) : bool :=
  match e with
  | Const _ | Accessor _ => true
  | UnaryNeg i | Func _ i => no_overflow i && is_i64 (zvalue e)
  | Binary op l r =>
      no_overflow l && no_overflow r &&
      match op with
      | Mod => negb (bool_decide (zvalue l = Some I64_MIN /\ zvalue r = Some (-1)))
      | _ => is_i64 (zvalue e)
      end
  end.
End Reference.

Definition exact_or_overflow (r : calc_result) (z : option Z) (fits_ : bool) : Prop :=
  match z with
  | Some z => if fits_ then r = inl (Digit z) else exists op, r = inr (Overflow op)
  | None => forall z, r <> inl (Digit z)
  end.

Lemma digit_checked_spec op z : digit_checked op z = if is_i64 (Some z) then inl (Digit z) else inr (Overflow op).
Proof. unfold digit_checked, i64_checked, is_i64. destruct (_ && _); reflexivity. Qed.

Lemma not_digit (r : calc_result) : (forall z, r <> inl (Digit z)) -> (exists x, r = inl (FloatN x)) \/ exists e, r = inr e.
Proof. intros Hn. destruct r as [[z|x]|e]; [destruct (Hn z)|..]; eauto. Qed.

Lemma ensure_not_digit op x z : ensure_finite op (FloatN x) <> inl (Digit z).
Proof. cbn. case_match; discriminate. Qed.

(** A binary operation on results that are exact or overflown. *)
Lemma binary_exact op a (b : calc_result) za zb fa fb :
  op <> Div ->
  exact_or_overflow (inl a) za fa -> exact_or_overflow b zb fb ->
  exact_or_overflow (match b with inl r => eval_binary op a r | inr e => inr e end)
    (match za, zb with Some x, Some y => zop op x y | _, _ => None end)
    (fa && fb && match op with
                 | Mod => negb (bool_decide (za = Some I64_MIN /\ zb = Some (-1)))
                 | _ => is_i64 (match za, zb with Some x, Some y => zop op x y | _, _ => None end)
                 end).
Proof.
  intros Hop Ha Hb. destruct za as [x|]; cbn in Ha.
  - destruct fa; [|destruct Ha; discriminate]. injection Ha as ->.
    destruct zb as [y|]; cbn in Hb.
    + destruct fb.
      * subst b. destruct op; try done; cbn [eval_binary mixed zop andb].
        1-3: rewrite digit_checked_spec; cbn; case_match; eauto.
        destruct (Z.eqb_spec y 0) as [->|Hy]; cbn; [discriminate|].
        assert (Hd : bool_decide (Some x = Some I64_MIN /\ Some y = Some (-1)) = bool_decide (x = I64_MIN /\ y = -1)).
        { apply bool_decide_ext. split; intros [? ?]; split; congruence. }
        rewrite Hd; clear Hd. destruct y; [done|..]; destruct (bool_decide (x = I64_MIN /\ _)); cbn; eauto.
      * destruct Hb as [o ->]. rewrite andb_false_r; cbn.
        destruct (zop op x y); cbn; [eauto|discriminate].
    + apply not_digit in Hb as [[w ->]|[e ->]]; cbn; [|discriminate]. intros z.
      destruct op; cbn; try apply ensure_not_digit; destruct x; discriminate || done.
  - intros z. destruct a as [v|w]; [destruct (Ha v); done|].
    destruct b as [[v|v]|e]; [..|discriminate]; destruct op; cbn;
      try apply ensure_not_digit; try discriminate; done.
Qed.

Lemma unary_exact (r : calc_result) zi fi (un : CalcNumber -> calc_result) (f : Z -> Z) name :
  (forall v, un (Digit v) = digit_checked name (f v)) ->
  (forall x z, un (FloatN x) <> inl (Digit z)) ->
  exact_or_overflow r zi fi ->
  exact_or_overflow (match r with inl n => un n | inr e => inr e end) (f <$> zi) (fi && is_i64 (f <$> zi)).
Proof.
  intros Hd Hf Hr. destruct zi as [x|]; cbn in *.
  - destruct fi; cbn.
    + subst r. rewrite Hd, digit_checked_spec. cbn. case_match; eauto.
    + destruct Hr as [o ->]. eauto.
  - apply not_digit in Hr as [[w ->]|[e ->]]; [apply Hf|discriminate].
Qed.

Lemma int_expr_exact e t src dst :
  int_only e = true ->
  exists r, eval e t src dst = Ret (r, (src, dst))
            /\ exact_or_overflow r (zvalue (operand t src dst) e) (no_overflow (operand t src dst) e).
Proof.
  induction e as [v|a|i IH|op l IHl r IHr|f i IH]; intros He; cbn in He |- *; unfold ebind, eret.
  - destruct v; [|discriminate]. cbn. eauto.
  - destruct a as [|rd]; [discriminate|]. unfold operand, direct_extract_one, read_extract_one.
    eexists; split; [reflexivity|]. destruct (read_lookup _ _ _ _) as [f|]; cbn; [|discriminate].
    unfold field_to_number. destruct (f_value f); cbn;
      first [reflexivity | intros z; first [discriminate | apply ensure_not_digit | case_match; discriminate]].
  - destruct (IH He) as (r & -> & Hr). eexists; split; [reflexivity|].
    apply (unary_exact _ _ _ negate Z.opp "neg"); [done| |done]. intros; apply ensure_not_digit.
  - assert (Hop : op <> Div /\ int_only l = true /\ int_only r = true)
      by (destruct op; try discriminate; bool_to_prop; intuition congruence).
    destruct Hop as (Hop & Hl & Hr). destruct (IHl Hl) as (rl & -> & El). destruct (IHr Hr) as (rr & Er & Er').
    destruct rl as [a|er].
    + rewrite Er. eexists; split; [reflexivity|]. apply binary_exact; done.
    + eexists; split; [reflexivity|]. destruct (zvalue _ l) as [x|]; cbn in El |- *; [|discriminate].
      destruct (no_overflow _ l); [discriminate|]. cbn.
      destruct (match zvalue _ r with Some _ => _ | None => None end); [exact El|discriminate].
  - destruct f; try discriminate. destruct (IH He) as (r & -> & Hr). eexists; split; [reflexivity|].
    apply (unary_exact _ _ _ (eval_fun Abs) Z.abs "abs"); [done| |done]. intros; apply ensure_not_digit.
Qed.

(** C15: An expression of integer operations over fields that are read has the
    value it has in unbounded integers, if every step of it is an [i64], and is
    reported as an overflow otherwise; nothing wraps.  Where it has no integer
    value (a missing or other operand, a zero modulus) its result is none. *)
Theorem calc_int_exact e t src dst : int_only e = true ->
  exists r, eval e t src dst = Ret (r, (src, dst))
    /\ match zvalue (operand t src dst) e with
       | Some z => if no_overflow (operand t src dst) e then r = inl (Digit z) else exists op, r = inr (Overflow op)
       | None => forall z, r <> inl (Digit z)
       end.
Proof. exact (int_expr_exact e t src dst). Qed.

(** Over records of [i64] integers a calculation answers a field under its
    target's name, an integer in [i64], a finite number or an ignored one; it
    never panics, and the records hold [i64] integers still. *)
Theorem calc_field_typed e t src dst : consts_ok e -> all_values int_ok src dst ->
  exists f src' dst', calc_extract_one describe e t src dst = Ret (Some f, (src', dst')) /\ all_values int_ok src' dst'
    /\ f_name f = safe_name t
    /\ match f_value f with
       | IntV z => I64_MIN <= z <= I64_MAX | FloatV x => is_finite x = true | Ignore_ => True | _ => False
       end.
Proof.
  intros He Hv. destruct (eval_ok e t src dst He Hv) as (r & s & d & E & Hv' & Hr).
  unfold calc_extract_one, ebind, eret. rewrite E. do 3 eexists; split; [reflexivity|]. split; [done|].
  destruct r as [[v|v]|x]; cbn in Hr |- *; rewrite ?int_field, ?float_field, ?new_name, ?new_value, ?ignore_name, ?ignore_value; done.
Qed.

End Laws.
