(* ===== verification/OmlMatch.v ===== *)
(** OML match conditions
    ([src/crates/wp-oml/src/language/syntax/operations/matchs.rs]): comparisons,
    ranges and functions of one value, and the conditions on one or several
    values of a case.

    A case is built for one source or for several ones; evaluating it on the
    other kind is [unreachable!].  The [regex] crate is an argument. *)
From Stdlib Require Import ZArith Lia String.
From Stdlib Require Import Floats.SpecFloat.
From stdpp Require Import prelude strings gmap.
From S2P Require Import Prelude F64 Text DataModel Expr OmlData.
Local Open Scope string_scope.
Local Open Scope list_scope.
Local Open Scope Z_scope.
Local Open Scope wp_scope.

Record MatchFun := mkMatchFun { fun_name : string; args : list string }.

Definition arg (f : MatchFun) : option string := head (args f).

Section Match.
Context `{OmlTypes} {F St : Type} `{!OmlData F St} `{UnicodeCase} `{WildMatch}.

(** [Regex::new(pattern)], then [is_match]: nothing for a bad pattern. *)
Variable regex_is_match : string -> string -> option bool.

Inductive MatchCond :=
  | CEq (x : F) | CNeq (x : F) | CIn (beg fin : F)
  | CFun (f : MatchFun) | COr (alternatives : list MatchCond)
  | CEqArc (x : F) | CNeqArc (x : F) | CInArc (beg fin : F)
  | CEqSym (sym : string) | CNeqSym (sym : string) | CInSym (beg fin : string)
  | CDefault.

Inductive MatchCondition := MSingle (c : MatchCond) | MMulti (l : list MatchCond) | MDefault.

(** *** Numbers *)

Definition extract_numeric (value : F) : option spec_float :=
  match f_value value with
  | IntV n => Some (as_f64 n)
  | FloatV x => Some x
  | Chars s => parse_f64 s
  | _ => None
  end.

Definition numeric_compare (value : F) (threshold : string) (op : spec_float -> spec_float -> bool) : bool :=
  match extract_numeric value with
  | Some v => match parse_f64 threshold with Some t => op v t | None => false end
  | None => false
  end.

Definition numeric_in_range (value : F) (lo hi : string) : bool :=
  match extract_numeric value with
  | Some v =>
      match parse_f64 lo with
      | Some lo => match parse_f64 hi with
                   | Some hi => fle lo v && fle v hi
                   | None => false
                   end
      | None => false
      end
  | None => false
  end.

(** *** Functions *)

Definition on_text (value : F) (test : string -> bool) : bool :=
  match f_value value with Chars s => test s | _ => false end.

Definition with_arg (f : MatchFun) (test : string -> bool) : bool :=
  match arg f with Some a => test a | None => false end.

Definition match_with_function (value : F) (f : MatchFun) : bool :=
  let name := fun_name f in
  if bool_decide (name = "starts_with") then with_arg f (fun a => on_text value (fun s => starts_with s a))
  else if bool_decide (name = "ends_with") then with_arg f (fun a => on_text value (fun s => ends_with s a))
  else if bool_decide (name = "contains") then with_arg f (fun a => on_text value (fun s => contains s a))
  else if bool_decide (name = "regex_match") then
    with_arg f (fun a => on_text value (fun s => default false (regex_is_match a s)))
  else if bool_decide (name = "is_empty") then on_text value (fun s => bool_decide (s = ""))
  else if bool_decide (name = "iequals") then
    with_arg f (fun a => on_text value (fun s => bool_decide (to_lowercase s = to_lowercase a)))
  else if bool_decide (name = "iequals_any") then
    match args f with
    | [] => false
    | _ => on_text value (fun s => existsb (fun a => bool_decide (to_lowercase s = to_lowercase a)) (args f))
    end
  else if bool_decide (name = "gt") then with_arg f (fun a => numeric_compare value a (fun v t => flt t v))
  else if bool_decide (name = "lt") then with_arg f (fun a => numeric_compare value a flt)
  else if bool_decide (name = "eq") then
    with_arg f (fun a => numeric_compare value a (fun v t => flt (SFabs (fsub v t)) (f64_decimal false 1 (-10))))
  else if bool_decide (name = "in_range") then
    match args f with
    | lo :: hi :: _ => numeric_in_range value lo hi
    | _ => false
    end
  else false.

(** *** Conditions; the type tests of the code only choose a warning *)

Definition test_cmp (value x : F) (op : CmpOperator) : bool := compare_values wild_new wild_matches (f_value value) (f_value x) op.

Fixpoint is_match (c : MatchCond) (value : F) : bool :=
  match c with
  | CEq x | CEqArc x => test_cmp value x OpEq
  | CNeq x | CNeqArc x => test_cmp value x OpNe
  | CIn beg fin | CInArc beg fin => test_cmp value beg OpGe && test_cmp value fin OpLe
  | CFun f => match_with_function value f
  | COr alternatives => existsb (fun alt => is_match alt value) alternatives
  | CEqSym _ | CNeqSym _ | CInSym _ _ => false
  | CDefault => true
  end.

(** [MatchAble<&DataField>] and [MatchAble<&[&DataField]>] of a condition. *)
Definition is_match_one (c : MatchCondition) (value : F) : outcome bool :=
  match c with
  | MSingle s => Ret (is_match s value)
  | MMulti _ => Panic
  | MDefault => Ret true
  end.

Definition is_match_all (c : MatchCondition) (values : list F) : outcome bool :=
  match c with
  | MMulti conds =>
      Ret ((length conds =? length values)%nat
           && forallb (fun cv => is_match cv.1 cv.2) (combine conds values))
  | MDefault => Ret true
  | MSingle _ => Panic
  end.

End Match.
