(* ===== verification/OmlSql.v ===== *)
(** OML look-ups in the knowledge base
    ([src/crates/wp-oml/src/core/evaluator/query/sql.rs],
    [language/syntax/operations/sql.rs], the accessors of its parameters in
    [language/syntax/accessors/mod.rs]): which named parameters a statement has,
    the values bound to them, and the query.

    The knowledge base is the class [KnowledgeApi]; its answers are those of
    one transformation. *)
From Stdlib Require Import ZArith Lia String Ascii.
From stdpp Require Import prelude strings gmap.
From S2P Require Import Prelude F64 Text DataModel OmlData.
Local Open Scope string_scope.
Local Open Scope list_scope.
Local Open Scope Z_scope.
Local Open Scope wp_scope.

(** ** Named parameters of a statement *)

(** After the opening quote: a doubled quote is part of the text. *)
Fixpoint skip_quoted (q : ascii) (l : list ascii) : list ascii :=
  match l with
  | [] => []
  | c :: r =>
      if bool_decide (c = q) then
        match r with
        | d :: r' => if bool_decide (d = q) then skip_quoted q r' else r
        | [] => []
        end
      else skip_quoted q r
  end.

(** After the opening bracket. *)
Fixpoint skip_bracket (l : list ascii) : list ascii :=
  match l with
  | c :: r => if bool_decide (c = "]"%char) then r else skip_bracket r
  | [] => []
  end.

(** After [--]: up to the line feed. *)
Fixpoint skip_line (l : list ascii) : list ascii :=
  match l with
  | c :: r => if bool_decide (code c = 10) then l else skip_line r
  | [] => []
  end.

(** After the opening of a block comment. *)
Fixpoint skip_block (l : list ascii) : list ascii :=
  match l with
  | c :: (d :: r') as r => if bool_decide (c = "*"%char /\ d = "/"%char) then r' else skip_block r
  | _ => []
  end.

Definition name_char (c : ascii) : bool :=
  let n := code c in
  (n =? 95) || ((48 <=? n) && (n <=? 57)) || ((65 <=? n) && (n <=? 90)) || ((97 <=? n) && (n <=? 122)).

Fixpoint take_name (l : list ascii) : list ascii * list ascii :=
  match l with
  | c :: r => if name_char c then let '(n, r) := take_name r in (c :: n, r) else ([], l)
  | [] => ([], [])
  end.

(** One iteration of the scan: what is left, and the name it found. *)
Definition scan_step (l : list ascii) : list ascii * option string :=
  match l with
  | [] => ([], None)
  | c :: r =>
      if bool_decide (c = "'"%char \/ code c = 34 \/ c = "`"%char) then (skip_quoted c r, None)
      else if bool_decide (c = "["%char) then (skip_bracket r, None)
      else match c, r with
           | "-"%char, "-"%char :: r => (skip_line r, None)
           | "/"%char, "*"%char :: r => (skip_block r, None)
           | ":"%char, _ =>
               match take_name r with
               | ([], _) => (r, None)
               | (n, rest) => (rest, Some (string_of_list_ascii n))
               end
           | _, _ => (r, None)
           end
  end.

Fixpoint scan_loop (fuel : nat) (l : list ascii) : list string :=
  match fuel, l with
  | S fuel, _ :: _ =>
      let '(r, found) := scan_step l in
      match found with Some n => n :: scan_loop fuel r | None => scan_loop fuel r end
  | _, _ => []
  end.

(** Each iteration leaves less ([OmlSql.scan_step_shorter]). *)
Definition scan (l : list ascii) : list string := scan_loop (length l) l.

Section Sql.
Context `{OmlTypes} {F St : Type} `{!OmlData F St} `{WildMatch}.
Variable now : LocalNow.

Inductive CondAccessor : Type :=
  | CTdc (x : RecordOperation (F := F)) | CFun (x : BuiltinFunction) | CVal (x : Value) | CSqlFn (x : SqlFnExpr)
with SqlFnExpr : Type := mkSqlFn (name : string) (args : list SqlFnArg)
with SqlFnArg : Type := Column (c : string) | Literal (v : Value) | Param (acc : CondAccessor).

Inductive SqlKnowledgeRoute := Provider | Sqlite | Unknown.

Record SqlQuery := mkSql {
  oml_sql : string; sql_md5 : string; vars : gmap string CondAccessor; route : SqlKnowledgeRoute;
}.

Definition value_extract_one (value : Value) (target : EvaluationTarget) : option F :=
  Some (field_new TAuto (safe_name target) value).

Definition cond_extract_one (c : CondAccessor) (target : EvaluationTarget) : ev (F := F) (St := St) (option F) :=
  match c with
  | CTdc x => record_extract_one now x target
  | CFun x => eret (fun_extract_one now x target)
  | CVal x => eret (value_extract_one x target)
  | CSqlFn _ => eret None
  end.

Definition cond_extract_storage (c : CondAccessor) (target : EvaluationTarget) : ev (F := F) (St := St) (option St) :=
  let* v := cond_extract_one c target in eret (from_owned <$> v).

(** ** Routes *)

Record TableRouteConfig := mkRoute { sqlite_tables : gset string; provider_tables : gset string }.

(** [first_table_name] is the knowledge base's. *)
Definition resolve_sql_route (first_table_name : string -> option string)
    (config : option TableRouteConfig) (sql : string) : SqlKnowledgeRoute :=
  match first_table_name sql with
  | None => Unknown
  | Some table =>
      match config with
      | None => Provider
      | Some route =>
          if bool_decide (table ∈ sqlite_tables route) then Sqlite
          else if bool_decide (table ∈ provider_tables route) then Provider else Provider
      end
  end.

(** ** Queries *)

Class KnowledgeApi := {
  table_route_config : option TableRouteConfig;
  sqlite_query_row : string -> option (list F);
  sqlite_query_named_fields : string -> list F -> option (list F);
  route_provider_sql : string -> option (string * string);
  cache_query_fields_route : option string -> string -> list F -> list F -> list F;
}.
Context `{KnowledgeApi}.

Definition ordered_sql_param_names (sql : string) (query : SqlQuery) : list string :=
  filter (fun n => is_Some (vars query !! n)) (scan (list_ascii_of_string sql)).

Definition norm_query_field (f : F) : F := field_new type_default (f_name f) (f_value f).
Definition null_query_field (name : string) : F := field_new type_default name Null.

(** A name without accessor is the code's [expect]. *)
Fixpoint collect_params (query : SqlQuery) (names : list string) : ev (F := F) (St := St) (list F) :=
  match names with
  | [] => eret []
  | v :: names =>
      match vars query !! v with
      | None => epanic
      | Some acq =>
          let* s := cond_extract_storage acq auto_default in
          let tdo := match s with
                     | Some s => into_owned s
                     | None => null_query_field (":" +:+ v)%string
                     end in
          let tdo := f_set_name tdo (":" +:+ v)%string in
          let* rest := collect_params query names in
          eret (tdo :: rest)
      end
  end.

Definition collect_sql_params (query : SqlQuery) : ev (F := F) (St := St) (string * F * list F * bool) :=
  let sql := oml_sql query in
  let* params := collect_params query (ordered_sql_param_names sql query) in
  let md5 := mk_chars "sql" (sql_md5 query) in
  let all_null := match params with
                  | [] => false
                  | _ => forallb (fun p => match f_value p with Null => true | _ => false end) params
                  end in
  eret (sql, md5, params, all_null).

(** [extract_more] and [extract_more_async]. *)
Definition sql_extract_more (query : SqlQuery) : ev (F := F) (St := St) (list F) :=
  let* (sql, md5, params, all_params_null) := collect_sql_params query in
  if all_params_null then eret []
  else match route query, table_route_config with
       | Sqlite, Some _ =>
           eret (default [] (match params with
                             | [] => sqlite_query_row sql
                             | _ => sqlite_query_named_fields sql params
                             end))
       | _, _ =>
           let routed := route_provider_sql sql in
           let provider := fst <$> routed in
           let exec_sql := match routed with Some (_, stripped) => stripped | None => sql end in
           if (length params <=? 5)%nat then
             eret (cache_query_fields_route provider exec_sql
                     (norm_query_field md5 :: (norm_query_field <$> params)) (norm_query_field <$> params))
           else eret []
       end.

End Sql.

(** * Laws

    The named parameters of a query: the scan ends, and on a
    text put together from quoted texts, identifiers, comments, parameters and
    other characters it finds exactly the parameters. *)
Local Open Scope nat_scope.

(** ** Termination *)

Lemma skip_quoted_length q l : length (skip_quoted q l) <= length l.
Proof.
  remember (length l) as n eqn:E. assert (Hn : length l <= n) by lia. clear E. revert l Hn.
  induction n as [|n IH]; intros [|c l] Hn; cbn in *; try lia.
  case_bool_decide; [|assert (length (skip_quoted q l) <= n) by (apply IH; lia); lia].
  destruct l as [|d l]; cbn in *; [lia|]. case_bool_decide; cbn; [|lia].
  assert (length (skip_quoted q l) <= n) by (apply IH; lia). lia.
Qed.

Lemma skip_bracket_length l : length (skip_bracket l) <= length l.
Proof. induction l as [|c l IH]; cbn; [lia|]. case_bool_decide; lia. Qed.

Lemma skip_line_length l : length (skip_line l) <= length l.
Proof. induction l as [|c l IH]; cbn; [lia|]. case_bool_decide; cbn; lia. Qed.

Lemma skip_block_length l : length (skip_block l) <= length l.
Proof.
  induction l as [|c l IH]; cbn; [lia|]. destruct l as [|d l]; cbn in *; [lia|]. case_bool_decide; lia.
Qed.

Lemma take_name_length l : length (take_name l).2 <= length l.
Proof. induction l as [|c l IH]; cbn; [lia|]. destruct (name_char c); cbn; [|lia]. destruct (take_name l); cbn in *; lia. Qed.

(** Every iteration consumes a character. *)
Lemma scan_step_shorter c l : length (scan_step (c :: l)).1 <= length l.
Proof.
  unfold scan_step. case_bool_decide; [apply skip_quoted_length|]. case_bool_decide; [apply skip_bracket_length|].
  pose proof (skip_line_length l). pose proof (skip_block_length l). pose proof (take_name_length l).
  repeat case_match; cbn in *; subst; try lia;
    match goal with
    | |- length (skip_line ?k) <= _ => pose proof (skip_line_length k); lia
    | |- length (skip_block ?k) <= _ => pose proof (skip_block_length k); lia
    | |- _ => lia
    end.
Qed.

Lemma scan_loop_fuel l n m : length l <= n -> length l <= m -> scan_loop n l = scan_loop m l.
Proof.
  revert l m; induction n as [|n IH]; intros [|c l] [|m] Hn Hm; cbn -[scan_step] in *; try lia; try done.
  pose proof (scan_step_shorter c l) as Hs. destruct (scan_step (c :: l)) as [r [x|]]; cbn in Hs;
    rewrite (IH r m) by lia; done.
Qed.

(** The loop unrolled. *)
Lemma scan_cons c l : scan (c :: l) =
  let '(r, found) := scan_step (c :: l) in match found with Some n => n :: scan r | None => scan r end.
Proof.
  unfold scan. cbn -[scan_step]. pose proof (scan_step_shorter c l) as Hs.
  destruct (scan_step (c :: l)) as [r [x|]]; cbn in Hs; rewrite (scan_loop_fuel r (length l) (length r)) by lia; done.
Qed.

(** ** Texts of pieces *)

Inductive Piece :=
  | Quoted (q : ascii) (body : list ascii) | Bracketed (body : list ascii)
  | LineComment (body : list ascii) | BlockComment (body : list ascii)
  | NamedParam (name : list ascii) | Other (c : ascii).

(** A quote inside is doubled. *)
Definition double (q : ascii) (body : list ascii) : list ascii :=
  body ≫= fun c => if Ascii.eqb c q then [c; c] else [c].

Definition render_piece (p : Piece) : list ascii :=
  match p with
  | Quoted q body => q :: double q body ++ [q]
  | Bracketed body => "["%char :: body ++ ["]"%char]
  | LineComment body => "-"%char :: "-"%char :: body
  | BlockComment body => "/"%char :: "*"%char :: body ++ ["*"%char; "/"%char]
  | NamedParam name => ":"%char :: name
  | Other c => [c]
  end.

Fixpoint render (l : list Piece) : list ascii :=
  match l with [] => [] | p :: l => render_piece p ++ render l end.

Definition next (P : ascii -> bool) (rest : list ascii) : bool := match rest with c :: _ => P c | [] => false end.

Definition is_quote (c : ascii) : bool := Ascii.eqb c "'" || Z.eqb (code c) 34 || Ascii.eqb c "`".

(** No comment ends inside. *)
Fixpoint no_close (l : list ascii) : bool :=
  match l with
  | c :: (d :: _) as r => negb (Ascii.eqb c "*" && Ascii.eqb d "/") && no_close r
  | _ => true
  end.

(** A piece that [rest] does not prolong. *)
Definition piece_ok (p : Piece) (rest : list ascii) : bool :=
  match p with
  | Quoted q _ => is_quote q && negb (next (Ascii.eqb q) rest)
  | Bracketed body => forallb (fun c => negb (Ascii.eqb c "]")) body
  | LineComment body =>
      forallb (fun c => negb (Z.eqb (code c) 10)) body
      && match rest with [] => true | c :: _ => Z.eqb (code c) 10 end
  | BlockComment body => no_close (body ++ ["*"%char])
  | NamedParam name => negb (bool_decide (name = [])) && forallb name_char name && negb (next name_char rest)
  | Other c =>
      negb (is_quote c) && negb (Ascii.eqb c "[")
      && negb (Ascii.eqb c "-" && next (Ascii.eqb "-") rest)
      && negb (Ascii.eqb c "/" && next (Ascii.eqb "*") rest)
      && negb (Ascii.eqb c ":" && next name_char rest)
  end.

Fixpoint pieces_ok (l : list Piece) : bool :=
  match l with [] => true | p :: l => piece_ok p (render l) && pieces_ok l end.

Definition names (l : list Piece) : list string :=
  omap (fun p => match p with NamedParam n => Some (string_of_list_ascii n) | _ => None end) l.

Lemma skip_quoted_body q body rest : next (Ascii.eqb q) rest = false -> skip_quoted q (double q body ++ q :: rest) = rest.
Proof.
  intros Hr. induction body as [|c body IH]; cbn.
  - rewrite bool_decide_true by done. destruct rest as [|d rest]; [done|]. cbn in Hr.
    rewrite bool_decide_false; [done|]. intros ->. by rewrite Ascii.eqb_refl in Hr.
  - destruct (Ascii.eqb_spec c q) as [->|Hc]; cbn.
    + by rewrite !bool_decide_true by done.
    + by rewrite bool_decide_false by done.
Qed.

Lemma skip_bracket_body body rest : forallb (fun c => negb (Ascii.eqb c "]")) body = true ->
  skip_bracket (body ++ "]"%char :: rest) = rest.
Proof.
  induction body as [|c body IH]; cbn; [done|]. intros Hb. apply andb_prop in Hb as [Hc Hb].
  rewrite bool_decide_false; [by apply IH|]. intros ->. done.
Qed.

Lemma skip_line_body body rest : forallb (fun c => negb (Z.eqb (code c) 10)) body = true ->
  match rest with [] => true | c :: _ => Z.eqb (code c) 10 end = true -> skip_line (body ++ rest) = rest.
Proof.
  intros Hb Hr. induction body as [|c body IH]; cbn.
  - destruct rest as [|d rest]; [done|]. cbn. apply Z.eqb_eq in Hr. by rewrite bool_decide_true.
  - cbn in Hb. apply andb_prop in Hb as [Hc Hb]. rewrite bool_decide_false; [by apply IH|].
    intros E. by rewrite E in Hc.
Qed.

Lemma skip_block_body body rest : no_close (body ++ ["*"%char]) = true ->
  skip_block (body ++ "*"%char :: "/"%char :: rest) = rest.
Proof.
  induction body as [|c body IH]; intros Hb; [done|].
  assert (Hn : no_close (body ++ ["*"%char]) = true
    /\ next (fun d => Ascii.eqb d "/") (body ++ ["*"%char]) && Ascii.eqb c "*" = false).
  { destruct body as [|d body]; cbn -[Ascii.eqb] in Hb |- *; [done|].
    apply andb_prop in Hb as [Hc Hb]. split; [exact Hb|].
    destruct (Ascii.eqb c "*"), (Ascii.eqb d "/"); done. }
  destruct Hn as [Hn Hc]. specialize (IH Hn). destruct body as [|d body]; cbn in *.
  - rewrite bool_decide_false; [done|]. intros [_ E]. discriminate.
  - rewrite bool_decide_false; [exact IH|]. intros [-> ->]. done.
Qed.

Lemma take_name_body n rest : forallb name_char n = true -> next name_char rest = false -> take_name (n ++ rest) = (n, rest).
Proof.
  intros Hn Hr. induction n as [|c n IH]; cbn in *.
  - destruct rest as [|d rest]; [done|]. cbn in Hr |- *. by rewrite Hr.
  - apply andb_prop in Hn as [Hc Hn]. by rewrite Hc, IH.
Qed.

Lemma quote_test q : is_quote q = bool_decide (q = "'"%char \/ code q = 34%Z \/ q = "`"%char).
Proof.
  apply eq_true_iff_eq. rewrite bool_decide_eq_true. unfold is_quote.
  rewrite !orb_true_iff, Z.eqb_eq, !Ascii.eqb_eq. tauto.
Qed.

(** One piece is one step. *)
Lemma step_other c rest : piece_ok (Other c) rest = true -> scan_step (c :: rest) = (rest, None).
Proof.
  cbn [piece_ok]. rewrite !andb_true_iff, !negb_true_iff. intros ((((Hq & Hb) & Hl) & Hc) & Hn).
  unfold scan_step. rewrite <- quote_test, Hq. rewrite bool_decide_false; [|by intros ->].
  destruct c as [[] [] [] [] [] [] [] []]; try done; destruct rest as [|d rest]; try done; cbn -[name_char] in Hl, Hc, Hn |- *;
    first [by rewrite Hn | by destruct d as [[] [] [] [] [] [] [] []]].
Qed.

Lemma step_piece p rest : piece_ok p rest = true ->
  exists c l, render_piece p ++ rest = c :: l
    /\ scan_step (c :: l) = (rest, match p with NamedParam n => Some (string_of_list_ascii n) | _ => None end).
Proof.
  intros Hp. destruct p as [q body|body|body|body|n|c]; cbn in Hp |- *; do 2 eexists; (split; [reflexivity|]).
  - apply andb_prop in Hp as [Hq Hr]. apply negb_true_iff in Hr. unfold scan_step. rewrite <- quote_test, Hq.
    rewrite <- app_assoc; cbn. by rewrite skip_quoted_body.
  - unfold scan_step. rewrite <- quote_test. cbn. rewrite <- app_assoc; cbn. by rewrite skip_bracket_body.
  - apply andb_prop in Hp as [Hb Hr]. unfold scan_step. rewrite <- quote_test. cbn. by rewrite skip_line_body.
  - unfold scan_step. rewrite <- quote_test. cbn. rewrite <- app_assoc; cbn. by rewrite skip_block_body.
  - apply andb_prop in Hp as [Hp Hr]. apply andb_prop in Hp as [Hn Hp]. apply negb_true_iff in Hr, Hn.
    unfold scan_step. rewrite <- quote_test. cbn. rewrite take_name_body by done. by destruct n.
  - by apply (step_other c rest).
Qed.

(** The scan for parameters ends and finds, in order, exactly the named
    parameters of a statement: whatever is quoted, bracketed or commented out is
    passed over, doubled quotes and unclosed looks of comments included. *)
Theorem scan_finds_parameters l : pieces_ok l = true -> scan (render l) = names l.
Proof.
  induction l as [|p l IH]; [done|]. cbn [pieces_ok render]. intros Hp. apply andb_prop in Hp as [Hp Hl].
  destruct (step_piece p (render l) Hp) as (c & k & -> & Hs). rewrite scan_cons, Hs, IH by done.
  by destruct p.
Qed.

(** [select ':a''x', "b", [c:d] -- :e LF /* :f */ where k = :key and z=:z]. *)
Definition sample_pieces : list Piece :=
  let t (s : string) := list_ascii_of_string s in
  (Other <$> t "select ") ++ [Quoted "'" (t ":a'x"); Other ","; Bracketed (t "c:d"); Other " ";
   LineComment (t " :e"); Other (ascii_of_nat 10); BlockComment (t " :f *")]
  ++ (Other <$> t " where k = ") ++ [NamedParam (t "key")] ++ (Other <$> t " and z=") ++ [NamedParam (t "z")].

Lemma scan_finds_parameters_witness :
  pieces_ok sample_pieces = true /\ scan (render sample_pieces) = ["key"; "z"].
Proof. split; [vm_compute; reflexivity|]. exact (scan_finds_parameters sample_pieces eq_refl). Defined.
