(* ===== verification/OmlEval.v ===== *)
(** The OML evaluator ([src/crates/wp-oml/src/core]): the syntax of a model
    ([language/syntax], [language/types/model.rs]), the synchronous and the
    asynchronous evaluation of an expression ([core/mod.rs],
    [core/evaluator/extract]), type conversion ([core/evaluator/transform/conv.rs])
    and the transformation of a record ([core/model/object.rs]).

    The pipe functions are the interface [PipeApi] ([OmlPipe] implements it).
    Formatting, the string template and the network table are external crates.
    Diagnostics and warnings are logs and left out. *)
From Stdlib Require Import ZArith Lia String.
From stdpp Require Import prelude strings gmap.
From S2P Require Import Prelude F64 Text DataModel OmlData OmlCalc OmlMatch OmlSql.
Local Open Scope string_scope.
Local Open Scope list_scope.
Local Open Scope Z_scope.
Local Open Scope wp_scope.

(** [ValueProcessor] of a pipe function: it may panic; [remove] is told apart.
    [PipeFun] takes the trait's own [value_cacu_storage]. *)
Class PipeApi (PF F : Type) := {
  value_cacu : PF -> F -> outcome F;
  pf_is_remove : PF -> bool;
}.

Definition value_cacu_storage `{OmlData F St} `{!PipeApi PF F} (p : PF) (in_val : St) : outcome St :=
  let! result := value_cacu p (into_owned in_val) in Ret (from_owned result).

(** Crates the evaluator calls: [wp_data_fmt]'s text of a value, the [strfmt]
    template, [wp_knowledge]'s table of internal networks, [regex]. *)
Class OmlEnv `{OmlTypes} (St : Type) := {
  raw_format : Value -> string;
  strfmt : string -> gmap string St -> option string;
  is_intranet : ip_addr -> bool;
  regex_is_match : string -> string -> option bool;
}.

Section Eval.
Context `{OmlTypes} {F St PF : Type} `{!OmlData F St} `{WildMatch} `{UnicodeCase}.
Context `{!PipeApi PF F} `{!OmlEnv St} `{!KnowledgeApi (F := F)}.
Variable now : LocalNow.

Notation ev := (ev (F := F) (St := St)).

(** ** Syntax *)

Inductive MatchSource := Single (a : DirectAccessor (F := F)) | Multi (l : list (DirectAccessor (F := F))).

Record FmtOperation := mkFmt { fmt_str : string; subs : list (RecordOperation (F := F)) }.

Unset Elimination Schemes.
Inductive PreciseEvaluator : Type :=
  | Sql (x : SqlQuery (F := F))
  | Calc (expr : CalcExpr F)
  | AccessDirect (a b : DirectAccessor (F := F))
  | Match (x : MatchOperation)
  | Lookup (dict_symbol : string) (key default_ : PreciseEvaluator) (compiled : option (gmap string F))
  | Obj (x : F)
  | ObjArc (x : F)
  | Tdc (x : RecordOperation (F := F))
  | Map (x : list NestedBinding)
  | ObjArray (items : list PreciseEvaluator)
  | Pipe (x : PiPeOperation)
  | Fun (x : BuiltinFunction)
  | Fmt (x : FmtOperation)
  | Collect (dat_crate : DirectAccessor (F := F))
  | Val (x : Value)
  | StaticSymbol (sym : string)
with NestedAccessor : Type :=
  | NField (x : F)
  | NFieldArc (x : F)
  | NDirect (x : RecordOperation (F := F))
  | NFun (x : BuiltinFunction)
  | NCollect (dat_crate : DirectAccessor (F := F))
  | NMap (x : list NestedBinding)
  | NObjArray (items : list PreciseEvaluator)
  | NPipe (x : PiPeOperation)
  | NStaticSymbol (sym : string)
with NestedBinding : Type := mkNested (target : EvaluationTarget) (acquirer : NestedAccessor)
with PiPeOperation : Type := mkPipe (from : PipeSource) (items : list PF)
with PipeSource : Type :=
  | SAccessor (a : DirectAccessor (F := F))
  | SAccessDirect (a b : DirectAccessor (F := F))
  | SPrecise (op : PreciseEvaluator)
with MatchOperation : Type := mkMatch (dat_crate : MatchSource) (items : list MatchCase) (default_ : option MatchCase)
with MatchCase : Type := mkCase (cond : MatchCondition (F := F)) (result : NestedAccessor).
Set Elimination Schemes.

Record SingleEvalExp := mkSingle { target : list EvaluationTarget; eval_way : PreciseEvaluator; sync : bool }.

Inductive BatchEvaluation := BGet (x : RecordOperation (F := F)) | BPipe (x : RecordOperation (F := F)) (funs : list PF).

Record BatchEvalExp := mkBatch { b_target : BatchEvalTarget; b_eval_way : BatchEvaluation }.

Inductive EvalExp := ESingle (x : SingleEvalExp) | EBatch (x : BatchEvalExp).

Record ObjModel := mkModel {
  name : string;
  rules : list Wild;
  enable : bool;
  items : list EvalExp;
  static_items : list EvalExp;
  has_temp_fields : bool;
  static_fields : gmap string F;
}.

(** ** Conversion to a declared type ([transform/conv.rs]) *)

Definition null_ip_field (name : string) : F := field_new TIP name Null.

Definition chars_to_omlobj (target : EvaluationTarget) (value : string) : F :=
  let name := safe_name target in
  if bool_decide (str_trim value = "") then field_new (data_type target) name Null
  else match data_type target with
       | TBool => match parse_bool value with Some v => mk_bool name v | None => mk_chars name value end
       | TInt => match parse_i64 value with Some v => mk_int name v | None => mk_chars name value end
       | TFloat => match parse_f64 value with Some v => mk_float name v | None => mk_chars name value end
       | TIP => match parse_ip (str_trim value) with Some ip => mk_ip name ip | None => null_ip_field name end
       | _ => mk_chars name value
       end.

Definition omlobj_meta_conv (ori : F) (target : EvaluationTarget) : F :=
  if bool_decide (data_type target = f_meta ori) then ori
  else match data_type target with
       | TChars => mk_chars (safe_name target) (raw_format (f_value ori))
       | TAuto => ori
       | _ => match f_value ori with
              | Chars value => chars_to_omlobj target value
              | _ => ori
              end
       end.

(** ** Direction of an access ([operations/access_direct.rs]) *)

Inductive IpProbe := POk (ip : ip_addr) | PMissing | PInvalid.

Definition probe_ip (field : option F) : IpProbe :=
  match field with
  | None => PMissing
  | Some field =>
      match f_value field with
      | IpAddrV ip => POk ip
      | Chars s =>
          let s := str_trim s in
          if bool_decide (s = "") then PMissing
          else match parse_ip s with Some ip => POk ip | None => PInvalid end
      | Null | Ignore_ => PMissing
      | _ => PInvalid
      end
  end.

Definition access_direction_str (src dst : ip_addr) : string :=
  match is_intranet src, is_intranet dst with
  | true, true => "L2L"
  | true, false => "L2W"
  | false, true => "W2L"
  | false, false => "W2W"
  end.

Definition access_direct_extract_one (a b : DirectAccessor (F := F)) (target : EvaluationTarget) : ev (option F) :=
  let* s := direct_extract_one a (operand_target a target) in
  let* d := direct_extract_one b (operand_target b target) in
  eret (Some (match probe_ip s, probe_ip d with
              | POk s, POk d => mk_chars (safe_name target) (access_direction_str s d)
              | _, _ => from_ignore (safe_name target)
              end)).

(** ** Templates ([transform/fmt.rs]) *)

Fixpoint fmt_args (subs : list (RecordOperation (F := F))) (args : gmap string St) : ev (gmap string St) :=
  match subs with
  | [] => eret args
  | item :: subs =>
      let cur := target_new (default "_fmt_" (field_name (dat_get item))) TAuto in
      let* s := record_extract_storage now item cur in
      fmt_args subs (match s with Some s => <[st_name s := s]> args | None => args end)
  end.

Definition fmt_extract_one (op : FmtOperation) (target : EvaluationTarget) : ev (option F) :=
  let* args := fmt_args (subs op) ∅ in
  eret (Some (mk_chars (safe_name target) (default "" (strfmt (fmt_str op) args)))).

(** ** Steps shared by both evaluations *)

Definition lift {A} (o : outcome A) : ev A := fun src dst =>
  match o with Ret a => Ret (a, (src, dst)) | Panic => Panic end.

Definition own (m : ev (option F)) : ev (option St) := let* v := m in eret (from_owned <$> v).

(** A [remove] marker: the type [Ignore] with the value [Null]. *)
Definition is_marker (meta : DataType) (v : Value) : bool :=
  bool_decide (meta = TIgnore) && match v with Null => true | _ => false end.

(** One sub-target of an object ([operations/map.rs]). *)
Definition map_insert (obj : ObjectT) (sub : EvaluationTarget) (storage : option St) : ObjectT :=
  match storage with
  | None => obj
  | Some storage =>
      let sub_name := safe_name sub in
      if is_marker (st_meta storage) (f_value (as_field storage)) then obj_remove obj sub_name
      else
        let needs_conversion :=
          negb (bool_decide (data_type sub = st_meta storage)) && negb (bool_decide (data_type sub = TAuto)) in
        if is_shared storage && negb needs_conversion
        then obj_insert obj sub_name (st_set_name storage sub_name)
        else
          let field := f_set_name (into_owned storage) sub_name in
          let field := if needs_conversion then omlobj_meta_conv field sub else field in
          obj_insert obj sub_name (from_owned field)
  end.

(** Elements without a value do not enter an array ([operations/obj_array.rs]). *)
Definition arr_push (items : list F) (v : option F) : list F :=
  match v with
  | Some f => match f_value f with Null | Ignore_ => items | _ => items ++ [f] end
  | None => items
  end.

Definition arr_result (name : string) (items : list F) : option F :=
  match items with [] => None | _ => Some (from_arr name items) end.

(** The functions of a pipe ([transform/pipe/pipe_operation.rs]). *)
Fixpoint run_pipe (items : list PF) (from : F) : outcome F :=
  match items with
  | [] => Ret from
  | p :: items => let! from := value_cacu p from in run_pipe items from
  end.

Fixpoint run_pipe_storage (items : list PF) (from : St) : outcome St :=
  match items with
  | [] => Ret from
  | p :: items => let! from := value_cacu_storage p from in run_pipe_storage items from
  end.

Definition has_remove (items : list PF) : bool := existsb pf_is_remove items.

Definition remove_marker (target : EvaluationTarget) : F := field_new TIgnore (safe_name target) Null.

Definition pipe_result (items : list PF) (target : EvaluationTarget) (from : option F) : ev (option F) :=
  match from with
  | Some from => let* f := lift (run_pipe items from) in eret (Some f)
  | None => eret (if has_remove items then Some (remove_marker target) else None)
  end.

Definition pipe_result_storage (items : list PF) (target : EvaluationTarget) (from : option St) : ev (option St) :=
  match from with
  | Some from => let* s := lift (run_pipe_storage items from) in eret (Some s)
  | None => eret (if has_remove items then Some (from_owned (remove_marker target)) else None)
  end.

(** The values a match is about, or nothing when one is missing
    ([operations/matchs.rs]). *)
Definition match_key (a : DirectAccessor (F := F)) (target : EvaluationTarget) : EvaluationTarget :=
  target_new (default (target_display target) (field_name a)) TAuto.

Fixpoint match_values (l : list (DirectAccessor (F := F))) (target : EvaluationTarget) : ev (option (list F)) :=
  match l with
  | [] => eret (Some [])
  | s :: l =>
      let* v := direct_extract_one s (match_key s target) in
      match v with
      | None => eret None
      | Some v => let* vs := match_values l target in eret (cons v <$> vs)
      end
  end.

(** The test of a case against what the source gave: a missing value matches
    no case. *)
Inductive Matched := OneValue (v : F) | AllValues (l : list F) | NoValue.

Definition match_source (m : MatchSource) (target : EvaluationTarget) : ev Matched :=
  match m with
  | Single dat =>
      let* x := direct_extract_one dat (match_key dat target) in
      eret (match x with Some x => OneValue x | None => NoValue end)
  | Multi sources =>
      let* vs := match_values sources target in
      eret (match vs with Some vs => AllValues vs | None => NoValue end)
  end.

Definition case_matches (c : MatchCondition (F := F)) (m : Matched) : outcome bool :=
  match m with
  | OneValue v => is_match_one regex_is_match c v
  | AllValues l => is_match_all regex_is_match c l
  | NoValue => Ret false
  end.

(** The loops of an object, an array and a match over what evaluates their
    parts; a pipe over what evaluates its source. *)
Definition object_loop (ex : NestedAccessor -> EvaluationTarget -> ev (option St)) :
    list NestedBinding -> ObjectT -> ev ObjectT :=
  fix go subs obj :=
    match subs with
    | [] => eret obj
    | mkNested t acq :: subs => let* s := ex acq t in go subs (map_insert obj t s)
    end.

Definition array_loop (ex : PreciseEvaluator -> EvaluationTarget -> ev (option F)) (item_target : EvaluationTarget) :
    list PreciseEvaluator -> list F -> ev (list F) :=
  fix go items acc :=
    match items with
    | [] => eret acc
    | i :: items => let* v := ex i item_target in go items (arr_push acc v)
    end.

Definition match_loop {A} (ex : NestedAccessor -> EvaluationTarget -> ev (option A)) (m : Matched)
    (target : EvaluationTarget) (default_ : option MatchCase) : list MatchCase -> ev (option A) :=
  fix go cases :=
    match cases with
    | mkCase c r :: cases =>
        let* b := lift (case_matches c m) in
        if b then ex r target else go cases
    | [] => match default_ with
            | Some (mkCase _ r) => ex r target
            | None => eret None
            end
    end.

Definition object_result (target : EvaluationTarget) (m : ev ObjectT) : ev (option F) :=
  let* obj := m in eret (Some (from_obj (safe_name target) obj)).

Definition array_of (ex : PreciseEvaluator -> EvaluationTarget -> ev (option F)) (items : list PreciseEvaluator)
    (target : EvaluationTarget) : ev (option F) :=
  let* l := array_loop ex (target_new (safe_name target) TAuto) items [] in
  eret (arr_result (safe_name target) l).

(** ** Synchronous evaluation *)

(** [NestedAccessor::extract_storage]: a shared symbol stays shared. *)
Definition nested_storage (extract_one : NestedAccessor -> EvaluationTarget -> ev (option F))
    (n : NestedAccessor) (target : EvaluationTarget) : ev (option St) :=
  match n with
  | NFieldArc arc => eret (Some (from_shared arc))
  | _ => own (extract_one n target)
  end.

(** [source_extract_one] over the evaluation of an expression. *)
Definition source_one (ex : PreciseEvaluator -> EvaluationTarget -> ev (option F)) (from : PipeSource)
    (target : EvaluationTarget) : ev (option F) :=
  match from with
  | SAccessor a => direct_extract_one a target
  | SAccessDirect a b => access_direct_extract_one a b target
  | SPrecise op => ex op target
  end.

(** [eval_item_sync] of an array, [PreciseEvaluator::extract_storage_sync] and
    [NestedAccessor::extract_one]. *)
Fixpoint eval_item_sync (p : PreciseEvaluator) (target : EvaluationTarget) {struct p} : ev (option F) :=
  match p with
  | Map subs => object_result target
      (object_loop (fun n t => nested_storage (fun n t => nested_extract_one n t) n t) subs obj_default)
  | Tdc o => record_extract_one now o target
  | Fun o => eret (fun_extract_one now o target)
  | Collect o => arr_extract_one o target
  | Obj o | ObjArc o => eret (Some o)
  | Val v => eret (value_extract_one v target)
  | Calc o => calc_extract_one (fun _ => "") o target
  | ObjArray items => array_of (fun p t => eval_item_sync p t) items target
  | Pipe (mkPipe from funs) =>
      let* f := source_one (fun p t => let* s := extract_storage_sync p t in eret (into_owned <$> s)) from target in
      pipe_result funs target f
  | AccessDirect a b => access_direct_extract_one a b target
  | Fmt o => fmt_extract_one o target
  | Match (mkMatch dat cases default_) =>
      let* m := match_source dat target in
      match_loop (fun n t => nested_extract_one n t) m target default_ cases
  | Sql _ | Lookup _ _ _ _ | StaticSymbol _ => eret None
  end
with extract_storage_sync (p : PreciseEvaluator) (target : EvaluationTarget) {struct p} : ev (option St) :=
  match p with
  | Sql _ | Lookup _ _ _ _ | StaticSymbol _ => eret None
  | Tdc o => record_extract_storage now o target
  | Map subs => own (object_result target
      (object_loop (fun n t => nested_storage (fun n t => nested_extract_one n t) n t) subs obj_default))
  | ObjArray items => own (array_of (fun p t => eval_item_sync p t) items target)
  | Pipe (mkPipe from funs) =>
      let* s := match from with
                | SAccessor a => direct_extract_storage a target
                | SAccessDirect a b => own (access_direct_extract_one a b target)
                | SPrecise op => extract_storage_sync op target
                end in
      pipe_result_storage funs target s
  | Fun o => eret (from_owned <$> fun_extract_one now o target)
  | Fmt o => own (fmt_extract_one o target)
  | Collect o => own (arr_extract_one o target)
  | Calc o => own (calc_extract_one (fun _ => "") o target)
  | AccessDirect a b => own (access_direct_extract_one a b target)
  | Match (mkMatch dat cases default_) =>
      let* m := match_source dat target in
      match_loop (fun n t => nested_storage (fun n t => nested_extract_one n t) n t) m target default_ cases
  | Obj o => eret (Some (from_owned o))
  | ObjArc arc => eret (Some (from_shared arc))
  | Val o => eret (from_owned <$> value_extract_one o target)
  end
with nested_extract_one (n : NestedAccessor) (target : EvaluationTarget) {struct n} : ev (option F) :=
  match n with
  | NField o | NFieldArc o => eret (Some o)
  | NDirect o => record_extract_one now o target
  | NFun o => eret (fun_extract_one now o target)
  | NCollect o => arr_extract_one o target
  | NMap subs => object_result target
      (object_loop (fun n t => nested_storage (fun n t => nested_extract_one n t) n t) subs obj_default)
  | NObjArray items => array_of (fun p t => eval_item_sync p t) items target
  | NPipe (mkPipe from funs) =>
      let* f := source_one (fun p t => let* s := extract_storage_sync p t in eret (into_owned <$> s)) from target in
      pipe_result funs target f
  | NStaticSymbol _ => epanic
  end.

(** ** Asynchronous evaluation *)

(** [normalize_lookup_key] *)
Definition normalize_lookup_key (raw : string) : string := to_lowercase (str_trim raw).

(** The entry a key names ([operations/lookup.rs]): only text is looked up. *)
Definition lookup_found (compiled : option (gmap string F)) (key_field : option F) : option F :=
  match key_field with
  | Some field =>
      match f_value field with
      | Chars raw => match compiled with
                     | Some dict => dict !! normalize_lookup_key raw
                     | None => None
                     end
      | _ => None
      end
  | None => None
  end.

(** [extract_one_async] and [extract_storage_async] of [PreciseEvaluator] and
    of [NestedAccessor]. *)
Fixpoint extract_one_async (p : PreciseEvaluator) (target : EvaluationTarget) {struct p} : ev (option F) :=
  match p with
  | Sql _ => eret None
  | Match (mkMatch dat cases default_) =>
      let* m := match_source dat target in
      match_loop (fun n t => nested_extract_one_async n t) m target default_ cases
  | Lookup _ key default_ compiled =>
      let* key_field := extract_one_async key target in
      match lookup_found compiled key_field with
      | Some found => eret (Some (into_owned (from_shared found)))
      | None => let* s := extract_storage_async default_ target in eret (into_owned <$> s)
      end
  | Tdc o => record_extract_one_async now o target
  | Map subs => object_result target
      (object_loop (fun n t => nested_extract_storage_async n t) subs obj_default)
  | ObjArray items => array_of (fun p t => extract_one_async p t) items target
  | Pipe (mkPipe from funs) =>
      let* f := source_one (fun p t => extract_one_async p t) from target in pipe_result funs target f
  | Fun o => eret (fun_extract_one now o target)
  | Collect o => arr_extract_one o target
  | Val v => eret (value_extract_one v target)
  | Obj o | ObjArc o => eret (Some o)
  | Calc o => calc_extract_one (fun _ => "") o target
  | AccessDirect a b => access_direct_extract_one a b target
  | Fmt o => fmt_extract_one o target
  | StaticSymbol _ => epanic
  end
with extract_storage_async (p : PreciseEvaluator) (target : EvaluationTarget) {struct p} : ev (option St) :=
  match p with
  | Sql _ => eret None
  | Match (mkMatch dat cases default_) =>
      let* m := match_source dat target in
      match_loop (fun n t => nested_extract_storage_async n t) m target default_ cases
  | Lookup _ key default_ compiled =>
      let* key_field := extract_one_async key target in
      match lookup_found compiled key_field with
      | Some found => eret (Some (from_shared found))
      | None => extract_storage_async default_ target
      end
  | Tdc o => record_extract_storage_async now o target
  | Map subs => own (object_result target
      (object_loop (fun n t => nested_extract_storage_async n t) subs obj_default))
  | ObjArray items => own (array_of (fun p t => extract_one_async p t) items target)
  | Pipe (mkPipe from funs) =>
      let* s := match from with
                | SAccessor a => direct_extract_storage_async a target
                | SAccessDirect a b => own (access_direct_extract_one a b target)
                | SPrecise op => extract_storage_async op target
                end in
      pipe_result_storage funs target s
  | Fun o => eret (from_owned <$> fun_extract_one now o target)
  | Collect o => own (arr_extract_one o target)
  | Val v => eret (from_owned <$> value_extract_one v target)
  | Obj o => eret (Some (from_owned o))
  | Calc o => own (calc_extract_one (fun _ => "") o target)
  | AccessDirect a b => own (access_direct_extract_one a b target)
  | Fmt o => own (fmt_extract_one o target)
  | ObjArc arc => eret (Some (from_shared arc))
  | StaticSymbol _ => epanic
  end
with nested_extract_one_async (n : NestedAccessor) (target : EvaluationTarget) {struct n} : ev (option F) :=
  match n with
  | NField o | NFieldArc o => eret (Some o)
  | NDirect o => record_extract_one_async now o target
  | NFun o => eret (fun_extract_one now o target)
  | NCollect o => arr_extract_one o target
  | NMap subs => object_result target
      (object_loop (fun n t => nested_extract_storage_async n t) subs obj_default)
  | NObjArray items => array_of (fun p t => extract_one_async p t) items target
  | NPipe (mkPipe from funs) =>
      let* f := source_one (fun p t => extract_one_async p t) from target in pipe_result funs target f
  | NStaticSymbol _ => epanic
  end
with nested_extract_storage_async (n : NestedAccessor) (target : EvaluationTarget) {struct n} : ev (option St) :=
  match n with
  | NField o | NFieldArc o => eret (Some (from_owned o))
  | NDirect o => record_extract_storage_async now o target
  | NFun o => eret (from_owned <$> fun_extract_one now o target)
  | NCollect o => own (arr_extract_one o target)
  | NMap subs => own (object_result target
      (object_loop (fun n t => nested_extract_storage_async n t) subs obj_default))
  | NObjArray items => own (array_of (fun p t => extract_one_async p t) items target)
  | NPipe (mkPipe from funs) =>
      let* s := match from with
                | SAccessor a => direct_extract_storage_async a target
                | SAccessDirect a b => own (access_direct_extract_one a b target)
                | SPrecise op => extract_storage_async op target
                end in
      pipe_result_storage funs target s
  | NStaticSymbol _ => epanic
  end.

(** ** Which evaluation an expression takes ([core/mod.rs]) *)

Fixpoint support_sync (p : PreciseEvaluator) : bool :=
  match p with
  | Sql _ | Lookup _ _ _ _ | StaticSymbol _ => false
  | Pipe (mkPipe (SPrecise op) _) => support_sync op
  | _ => true
  end.

(** Only a query answers several fields; a symbol left unresolved panics. *)
Definition support_batch_async (p : PreciseEvaluator) : outcome bool :=
  match p with
  | Sql _ => Ret true
  | StaticSymbol _ => Panic
  | _ => Ret false
  end.

Definition extract_more_async (p : PreciseEvaluator) : ev (list F) :=
  match p with
  | Sql o => sql_extract_more now o
  | StaticSymbol _ => epanic
  | _ => eret []
  end.

(** ** Statements ([operations/other.rs], [extract/basic/batch.rs]) *)

Definition is_null (v : Value) : bool := match v with Null => true | _ => false end.

(** [emit_single_storage] *)
Definition emit_single_storage (storage : St) (target : EvaluationTarget) (dst : list St) : list St :=
  if is_marker (st_meta storage) (f_value (as_field storage))
  then filter (fun item => f_name (as_field item) <> safe_name target) dst
  else
    let needs_conversion :=
      negb (bool_decide (data_type target = st_meta storage)) && negb (bool_decide (data_type target = TAuto)) in
    if is_shared storage && negb needs_conversion then
      if is_null (f_value (as_field storage)) then dst else dst ++ [st_set_name storage (safe_name target)]
    else
      let field := into_owned storage in
      if is_null (f_value field) then dst
      else
        let field := f_set_name field (safe_name target) in
        let field := if needs_conversion then omlobj_meta_conv field target else field in
        if is_null (f_value field) then dst else dst ++ [from_owned field].

(** The fields of a query, in the order of the targets. *)
Fixpoint emit_more (targets : list EvaluationTarget) (obj : list F) (dst : list St) : list St :=
  match targets, obj with
  | target :: targets, v :: obj =>
      let dst :=
        if is_null (f_value v) then dst
        else let v := match t_name target with Some n => f_set_name v n | None => v end in
             dst ++ [from_owned (omlobj_meta_conv v target)] in
      emit_more targets obj dst
  | _, _ => dst
  end.

Definition modify_dst (f : list St -> list St) : ev unit := fun src dst => Ret (tt, (src, f dst)).

Definition single_eval_proc (x : SingleEvalExp) : ev unit :=
  let* batch := lift (support_batch_async (eval_way x)) in
  if batch then
    let* obj := extract_more_async (eval_way x) in modify_dst (emit_more (target x) obj)
  else
    match target x with
    | [] => eret tt
    | t :: _ =>
        let* s := (if sync x then extract_storage_sync (eval_way x) t else extract_storage_async (eval_way x) t) in
        match s with
        | Some storage => modify_dst (emit_single_storage storage t)
        | None => eret tt
        end
    end.

(** [BatchFetcher for RecordOperation]: the matching fields the target record
    does not have yet leave the source record. *)
Definition record_extract_batch (t : BatchEvalTarget) (src : list F) (dst : list St) : list F * list F :=
  let wanted (f : F) := negb (existsb (fun s => bool_decide (st_name s = f_name f)) dst) && match_it t f in
  (filter (fun f => wanted f = true) src, filter (fun f => wanted f = false) src).

(** One field through the functions of a batch pipe; markers are kept. *)
Definition batch_pipe_field (origin : EvaluationTarget) (funs : list PF) (field : F) : outcome (option F) :=
  let! field := run_pipe funs field in
  Ret (if is_marker (f_meta field) (f_value field) then Some field
       else if is_null (f_value field) then None
       else
         let field := if negb (bool_decide (data_type origin = TAuto))
                         && negb (bool_decide (f_meta field = data_type origin))
                      then omlobj_meta_conv field origin else field in
         if is_null (f_value field) then None else Some field).

Fixpoint batch_pipe_loop (origin : EvaluationTarget) (funs : list PF) (needs : list F) : outcome (list F) :=
  match needs with
  | [] => Ret []
  | f :: needs =>
      let! r := batch_pipe_field origin funs f in
      let! rest := batch_pipe_loop origin funs needs in
      Ret (match r with Some f => f :: rest | None => rest end)
  end.

Definition extract_batch (way : BatchEvaluation) (t : BatchEvalTarget) : ev (list F) := fun src dst =>
  match way with
  | BGet _ => let '(needs, src) := record_extract_batch t src dst in Ret (needs, (src, dst))
  | BPipe _ funs =>
      let '(needs, src) := record_extract_batch t src (if has_remove funs then [] else dst) in
      let! out := batch_pipe_loop (origin t) funs needs in
      Ret (out, (src, dst))
  end.

(** The loop of [BatchEvalExp::eval_proc]: markers delete, the other fields are
    appended after the loop. *)
Fixpoint batch_emit (needs : list F) (wrapped : list St) (dst : list St) : list St :=
  match needs with
  | [] => dst ++ wrapped
  | field :: needs =>
      if is_marker (f_meta field) (f_value field)
      then batch_emit needs wrapped (filter (fun item => f_name (as_field item) <> f_name field) dst)
      else batch_emit needs (wrapped ++ [from_owned field]) dst
  end.

Definition batch_eval_proc (x : BatchEvalExp) : ev unit :=
  let* needs := extract_batch (b_eval_way x) (b_target x) in
  modify_dst (batch_emit needs []).

Definition eval_proc (e : EvalExp) : ev unit :=
  match e with ESingle x => single_eval_proc x | EBatch x => batch_eval_proc x end.

(** ** Models ([core/model/object.rs]) *)

Fixpoint eval_items (l : list EvalExp) : ev unit :=
  match l with
  | [] => eret tt
  | e :: l => let* _ := eval_proc e in eval_items l
  end.

Definition cleanup_temp_fields (m : ObjModel) (out : list St) : list St :=
  if has_temp_fields m
  then (fun item => if starts_with (st_name item) "__" then from_owned (from_ignore (st_name item)) else item) <$> out
  else out.

(** [transform_ref_async]: the record's fields, the new record. *)
Definition transform_ref (m : ObjModel) (data : list F) : outcome (list St) :=
  let! (_, (_, out)) := eval_items (items m) data [] in
  Ret (cleanup_temp_fields m out).

(** [transform_batch_async] and [transform_batch_ref_async]. *)
Fixpoint transform_batch (m : ObjModel) (records : list (list F)) : outcome (list (list St)) :=
  match records with
  | [] => Ret []
  | r :: records =>
      let! out := transform_ref m r in
      let! rest := transform_batch m records in
      Ret (out :: rest)
  end.

End Eval.
