(* ===== verification/OmlEvalLaws.v ===== *)
(** What the OML evaluator guarantees ([OmlEval]): a mutual induction principle
    for its syntax, when the synchronous evaluation is the asynchronous one, and
    when a model never panics. *)
From Stdlib Require Import ZArith Lia String.
From stdpp Require Import prelude strings gmap.
From S2P Require Import Prelude F64 Text DataModel OmlData OmlAccessLaws OmlCalc OmlMatch OmlSql OmlEval.
Local Open Scope string_scope.
Local Open Scope list_scope.
Local Open Scope wp_scope.

Definition all_Forall {A} (R : A -> Prop) (f : forall x, R x) : forall l, Forall R l :=
  fix go l := match l with [] => Forall_nil_2 _ | x :: l => Forall_cons_2 _ _ _ (f x) (go l) end.

(** ** Induction over expressions and nested accessors *)

Section Syntax.
Context `{OmlTypes} {F St PF : Type} `{!OmlData F St} `{WildMatch}.

Notation PreciseEvaluator := (PreciseEvaluator (F := F) (PF := PF)).
Notation NestedAccessor := (NestedAccessor (F := F) (PF := PF)).

Definition of_binding {A} (f : NestedAccessor -> A) (b : NestedBinding (F := F) (PF := PF)) : A :=
  match b with mkNested _ a => f a end.
Definition of_case {A} (f : NestedAccessor -> A) (c : MatchCase (F := F) (PF := PF)) : A :=
  match c with mkCase _ r => f r end.

Section Ind.
Variables (P : PreciseEvaluator -> Prop) (Q : NestedAccessor -> Prop).

Definition source_ok (s : PipeSource (F := F) (PF := PF)) : Prop := match s with SPrecise p => P p | _ => True end.
Definition opt_case_ok (d : option (MatchCase (F := F) (PF := PF))) : Prop :=
  match d with Some c => of_case Q c | None => True end.

Hypotheses
  (HSql : forall x, P (Sql x)) (HCalc : forall e, P (Calc e)) (HAccess : forall a b, P (AccessDirect a b))
  (HMatch : forall m l d, Forall (of_case Q) l -> opt_case_ok d -> P (Match (mkMatch m l d)))
  (HLookup : forall s k d c, P k -> P d -> P (Lookup s k d c))
  (HObj : forall x, P (Obj x)) (HObjArc : forall x, P (ObjArc x)) (HTdc : forall x, P (Tdc x))
  (HMap : forall l, Forall (of_binding Q) l -> P (Map l))
  (HArr : forall l, Forall P l -> P (ObjArray l))
  (HPipe : forall s l, source_ok s -> P (Pipe (mkPipe s l)))
  (HFun : forall x, P (Fun x)) (HFmt : forall x, P (Fmt x)) (HCollect : forall x, P (Collect x))
  (HVal : forall x, P (Val x)) (HSym : forall x, P (StaticSymbol x))
  (HNField : forall x, Q (NField x)) (HNArc : forall x, Q (NFieldArc x)) (HNDirect : forall x, Q (NDirect x))
  (HNFun : forall x, Q (NFun x)) (HNCollect : forall x, Q (NCollect x))
  (HNMap : forall l, Forall (of_binding Q) l -> Q (NMap l))
  (HNArr : forall l, Forall P l -> Q (NObjArray l))
  (HNPipe : forall s l, source_ok s -> Q (NPipe (mkPipe s l)))
  (HNSym : forall x, Q (NStaticSymbol x)).

Fixpoint precise_ind (p : PreciseEvaluator) : P p :=
  match p with
  | Sql x => HSql x
  | Calc e => HCalc e
  | AccessDirect a b => HAccess a b
  | Match (mkMatch m l d) =>
      HMatch m l d
        (all_Forall (of_case Q) (fun c => match c with mkCase _ r => nested_ind r end) l)
        match d with Some (mkCase _ r) => nested_ind r | None => I end
  | Lookup s k d c => HLookup s k d c (precise_ind k) (precise_ind d)
  | Obj x => HObj x
  | ObjArc x => HObjArc x
  | Tdc x => HTdc x
  | Map l => HMap l (all_Forall (of_binding Q) (fun b => match b with mkNested _ a => nested_ind a end) l)
  | ObjArray l => HArr l (all_Forall P (fun i => precise_ind i) l)
  | Pipe (mkPipe s l) =>
      HPipe s l match s with SPrecise p => precise_ind p | SAccessor _ | SAccessDirect _ _ => I end
  | Fun x => HFun x
  | Fmt x => HFmt x
  | Collect x => HCollect x
  | Val x => HVal x
  | StaticSymbol x => HSym x
  end
with nested_ind (n : NestedAccessor) : Q n :=
  match n with
  | NField x => HNField x
  | NFieldArc x => HNArc x
  | NDirect x => HNDirect x
  | NFun x => HNFun x
  | NCollect x => HNCollect x
  | NMap l => HNMap l (all_Forall (of_binding Q) (fun b => match b with mkNested _ a => nested_ind a end) l)
  | NObjArray l => HNArr l (all_Forall P (fun i => precise_ind i) l)
  | NPipe (mkPipe s l) =>
      HNPipe s l match s with SPrecise p => precise_ind p | SAccessor _ | SAccessDirect _ _ => I end
  | NStaticSymbol x => HNSym x
  end.

Lemma syntax_ind : (forall p, P p) /\ (forall n, Q n).
Proof. split; [apply precise_ind|apply nested_ind]. Qed.

End Ind.

(** A test of every part of an expression: [okP], [okN] on each node. *)
Section Every.
Variables (okP : PreciseEvaluator -> bool) (okN : NestedAccessor -> bool).

Fixpoint everyP (p : PreciseEvaluator) : bool :=
  okP p &&
  match p with
  | Match (mkMatch _ l d) =>
      forallb (fun c => match c with mkCase _ r => everyN r end) l
      && match d with Some (mkCase _ r) => everyN r | None => true end
  | Lookup _ k d _ => everyP k && everyP d
  | Map l => forallb (fun b => match b with mkNested _ a => everyN a end) l
  | ObjArray l => forallb (fun i => everyP i) l
  | Pipe (mkPipe (SPrecise p) _) => everyP p
  | _ => true
  end
with everyN (n : NestedAccessor) : bool :=
  okN n &&
  match n with
  | NMap l => forallb (fun b => match b with mkNested _ a => everyN a end) l
  | NObjArray l => forallb (fun i => everyP i) l
  | NPipe (mkPipe (SPrecise p) _) => everyP p
  | _ => true
  end.
End Every.
End Syntax.

(** ** Agreement of two evaluations *)

Section Agree.
Context `{OmlTypes} {F St PF : Type} `{!OmlData F St} `{!OmlLaws} `{WildMatch} `{UnicodeCase}.
Context `{!PipeApi PF F} `{!OmlEnv St} `{!KnowledgeApi (F := F)}.
Variable now : LocalNow.

Notation ev := (ev (F := F) (St := St)).

(** A record that shares no field. *)
Definition owned (dst : list St) : Prop := Forall (fun s => is_shared s = false) dst.

(** The same result on such records, which stay such. *)
Definition agree {A} (m n : ev A) : Prop := forall src dst, owned dst ->
  m src dst = n src dst /\ match n src dst with Ret (_, (_, d)) => owned d | Panic => True end.

Lemma agree_sym {A} (m n : ev A) : agree m n -> agree n m.
Proof. intros Hm src dst Hd. destruct (Hm src dst Hd) as [-> Ho]. done. Qed.

Lemma agree_trans {A} (m n o : ev A) : agree m n -> agree n o -> agree m o.
Proof. intros Hm Hn src dst Hd. destruct (Hm src dst Hd) as [-> _]. apply Hn, Hd. Qed.

Lemma agree_bind {A B} (m n : ev A) (k l : A -> ev B) :
  agree m n -> (forall a, agree (k a) (l a)) -> agree (ebind m k) (ebind n l).
Proof.
  intros Hm Hk src dst Hd. unfold ebind. destruct (Hm src dst Hd) as [-> Ho].
  destruct (n src dst) as [[a [s d]]|]; [apply Hk, Ho|done].
Qed.

Lemma agree_ret {A} (a : A) : agree (eret a) (eret a).
Proof. intros src dst Hd. done. Qed.

Lemma agree_panic {A} : agree (A := A) epanic epanic.
Proof. intros src dst Hd. done. Qed.

Lemma agree_lift {A} (o : outcome A) : agree (lift o) (lift o).
Proof. intros src dst Hd. unfold lift. destruct o; done. Qed.

(** The same evaluation written in two ways. *)
Lemma agree_eq {A} (m n o : ev A) : (forall src dst, m src dst = n src dst) -> agree n o -> agree m o.
Proof. intros E Hn src dst Hd. rewrite E. apply Hn, Hd. Qed.

Lemma agree_access m : access m -> agree m m.
Proof.
  intros Hm src dst Hd. split; [done|]. destruct (Hm src dst) as (r & s & d & -> & _ & Sd & _).
  eapply Forall_sublist; eauto.
Qed.

Lemma agree_own (m n : ev (option F)) : agree m n -> agree (own m) (own n).
Proof. intros Hm. apply agree_bind; [done|]. intros a. apply agree_ret. Qed.

Lemma agree_assoc {A B C} (n : ev C) (m : ev A) (k : A -> ev B) (l : B -> ev C) :
  agree n (ebind m (fun a => ebind (k a) l)) -> agree n (ebind (ebind m k) l).
Proof.
  intros Hn src dst Hd. specialize (Hn src dst Hd). unfold ebind in *. by destruct (m src dst) as [[a [s d]]|].
Qed.

Lemma direct_agree a t : agree (direct_extract_one a t) (direct_extract_one a t).
Proof. apply agree_access, direct_access. Qed.

Lemma access_direct_agree a b t : agree (access_direct_extract_one a b t) (access_direct_extract_one a b t).
Proof. repeat (apply agree_bind; [apply direct_agree|intros ?]). apply agree_ret. Qed.

Lemma arr_agree a t : agree (arr_extract_one a t) (arr_extract_one a t).
Proof. intros src dst Hd. done. Qed.

Lemma calc_agree (describe : F -> string) e t : agree (calc_extract_one describe e t) (calc_extract_one describe e t).
Proof.
  apply agree_bind; [|intros ?; apply agree_ret].
  induction e as [v|a|i IH|op l IHl r IHr|f i IH]; cbn; [apply agree_ret|..].
  - apply agree_bind; [apply direct_agree|intros ?; apply agree_ret].
  - apply agree_bind; [done|intros ?; apply agree_ret].
  - apply agree_bind; [done|intros [x|x]; [|apply agree_ret]]. apply agree_bind; [done|intros ?; apply agree_ret].
  - apply agree_bind; [done|intros ?; apply agree_ret].
Qed.

(** A record's own evaluations, sync and async, one field and storage. *)
Definition op_plain (o : RecordOperation (F := F)) : bool :=
  match default_val o with
  | Some d => match accessor d with GFieldArc _ => false | _ => true end
  | None => true
  end.

Lemma generic_agree g t :
  match g with GFieldArc _ => false | _ => true end = true ->
  generic_extract_storage (St := St) now g t = generic_extract_storage_async now g t
  /\ agree (generic_extract_storage_async now g t) (generic_extract_storage_async now g t)
  /\ forall src dst r s d, generic_extract_storage_async now g t src dst = Ret (Some r, (s, d)) -> is_shared r = false.
Proof.
  destruct g; try done; intros _; (split; [reflexivity|]); (split; [apply agree_ret || apply agree_panic|]);
    cbn; unfold eret, epanic; intros src dst r s d Hr; simplify_eq; try done.
  - apply owned_shared.
  - destruct (fun_extract_one now f t); simplify_eq/=. apply owned_shared.
Qed.

Lemma record_one_agree o t : op_plain o = true ->
  agree (record_extract_one_async (St := St) now o t) (record_extract_one now o t).
Proof.
  unfold op_plain, record_extract_one_async, record_extract_one. intros Ho.
  apply agree_bind; [apply direct_agree|]. intros [x|]; [apply agree_ret|].
  destruct (default_val o) as [d|]; [|apply agree_ret].
  destruct (generic_agree (accessor d) t Ho) as (-> & Hg & _). apply agree_bind; [done|intros ?; apply agree_ret].
Qed.

Lemma rename_owned r k : is_shared r = false -> rename_storage r k = from_owned (F := F) (f_set_name (into_owned r) k).
Proof. unfold rename_storage. intros ->. done. Qed.

(** The default renamed, as a stored field and as a field. *)
Definition with_default (o : RecordOperation (F := F)) (t : EvaluationTarget) (g : GenericAccessor -> ev (option St))
    (v : option St) : ev (option St) :=
  match v with
  | Some x => eret (Some x)
  | None =>
      match default_val o with
      | Some d => ebind (g (accessor d)) (fun s => eret ((fun s => rename_storage s (safe_name t)) <$> s))
      | None => eret None
      end
  end.

Lemma default_agree o t m g : op_plain o = true ->
  agree m (own (direct_extract_one (dat_get o) t)) ->
  (forall d, default_val o = Some d ->
     agree (g (accessor d)) (generic_extract_storage_async (St := St) now (accessor d) t)) ->
  agree (ebind m (with_default o t g)) (own (record_extract_one now o t)).
Proof.
  intros Ho Hm Hg.
  apply (agree_trans _ (ebind (own (direct_extract_one (dat_get o) t))
                          (with_default o t (fun a => generic_extract_storage_async now a t)))).
  - apply agree_bind; [done|]. intros [x|]; cbn; [apply agree_ret|].
    destruct (default_val o) as [d|]; [|apply agree_ret].
    apply agree_bind; [by apply Hg|intros ?; apply agree_ret].
  - unfold record_extract_one, own, ebind, eret. intros src dst Hd.
    destruct (direct_agree (dat_get o) t src dst Hd) as [_ Hk].
    destruct (direct_extract_one (dat_get o) t src dst) as [[[x|] [s d]]|]; cbn; try done.
    unfold op_plain in Ho. destruct (default_val o) as [df|]; cbn; [|done]. unfold ebind.
    destruct (generic_agree (accessor df) t Ho) as (-> & Ha & Hs). destruct (Ha s d Hk) as [_ Hk'].
    destruct (generic_extract_storage_async now (accessor df) t s d) as [[[r|] [s' d']]|] eqn:E; cbn; try done.
    rewrite rename_owned by eauto. done.
Qed.

Lemma record_storage_agree o t : op_plain o = true ->
  agree (record_extract_storage now o t) (own (record_extract_one now o t)).
Proof.
  intros Ho. apply (default_agree o t (direct_extract_storage (dat_get o) t)
                      (fun a => generic_extract_storage now a t) Ho).
  - apply agree_own, direct_agree.
  - intros d Hd. unfold op_plain in Ho. rewrite Hd in Ho. by destruct (generic_agree (accessor d) t Ho) as (-> & ? & _).
Qed.

(** On a record that shares nothing the stored field is the field. *)
Lemma tdc_storage dst key o : owned dst ->
  find_tdc_target_storage dst key o = from_owned <$> find_tdc_target dst key o.
Proof.
  intros Hd. unfold find_tdc_target_storage, find_tdc_target. rewrite rec_field_first.
  destruct (list_find (fun s => st_name s = key) dst) as [[i s]|] eqn:E.
  - apply list_find_Some in E as (Hi & Hn & Hb).
    assert (Hf : head (filter (fun s => st_name s = key) dst) = Some s).
    { rewrite <- (take_drop_middle dst i s Hi), filter_app, filter_cons_True by done.
      rewrite filter_none; [done|]. apply Forall_forall. intros x Hx.
      apply list_elem_of_lookup in Hx as [j Hj]. pose proof (lookup_lt_Some _ _ _ Hj) as Hl.
      rewrite length_take in Hl. rewrite lookup_take_lt in Hj by lia. eapply Hb; eauto. lia. }
    rewrite Hf. destruct (o && _); [done|]. cbn. f_equal. symmetry. apply owned_eta.
    eapply Forall_lookup_1 in Hd; eauto.
  - apply list_find_None in E. rewrite filter_none; done.
Qed.

Lemma tdr_storage src key o :
  find_tdr_target_storage (St := St) src key o = from_owned <$> find_tdr_target src key o.
Proof.
  unfold find_tdr_target_storage, find_tdr_target, get_pos. destruct (list_find _ src) as [[i f]|]; [|done].
  destruct (o && _); done.
Qed.

Lemma direct_storage_agree a t :
  agree (direct_extract_storage_async a t) (own (direct_extract_one a t)).
Proof.
  destruct a as [k|r]; cbn; [apply agree_own, (direct_agree (Take k))|].
  intros src dst Hd. unfold own, ebind, read_extract_storage, read_extract_one, eret. split; [|done].
  do 2 f_equal. unfold read_lookup. rewrite tdc_storage, tdr_storage by done.
  destruct (find_tdc_target dst _ false); [done|]. cbn. destruct (find_tdr_target src _ false); [done|]. cbn.
  induction (read_option r) as [|o l IH]; [done|]. cbn. rewrite tdc_storage, tdr_storage, IH by done.
  destruct (find_tdc_target dst o true); [done|]. cbn. by destruct (find_tdr_target src o true).
Qed.

Lemma record_storage_async_agree o t : op_plain o = true ->
  agree (record_extract_storage_async now o t) (own (record_extract_one now o t)).
Proof.
  intros Ho. apply (default_agree o t (direct_extract_storage_async (dat_get o) t)
                      (fun a => generic_extract_storage_async now a t) Ho).
  - apply direct_storage_agree.
  - intros d Hd. unfold op_plain in Ho. rewrite Hd in Ho. by destruct (generic_agree (accessor d) t Ho) as (_ & ? & _).
Qed.

(** *** Composite expressions *)

Lemma fmt_agree x t : agree (fmt_extract_one now x t) (fmt_extract_one now x t).
Proof.
  apply agree_bind; [|intros ?; apply agree_ret]. generalize (∅ : gmap string St).
  induction (subs x) as [|i l IH]; intros m; cbn; [apply agree_ret|].
  apply agree_bind; [|intros ?; apply IH].
  apply agree_bind; [apply agree_own, direct_agree|]. intros [v|]; [apply agree_ret|].
  destruct (default_val i) as [d|]; [|apply agree_ret].
  apply agree_bind; [|intros ?; apply agree_ret]. destruct (accessor d); apply agree_ret || apply agree_panic.
Qed.

Lemma match_source_agree m t : agree (match_source m t) (match_source (St := St) m t).
Proof.
  destruct m as [a|l]; cbn; (apply agree_bind; [|intros ?; apply agree_ret]); [apply direct_agree|].
  induction l as [|a l IH]; cbn; [apply agree_ret|]. apply agree_bind; [apply direct_agree|].
  intros [v|]; [|apply agree_ret]. apply agree_bind; [done|intros ?; apply agree_ret].
Qed.

Lemma object_loop_agree (ex ex' : NestedAccessor (F := F) (PF := PF) -> EvaluationTarget -> ev (option St)) l :
  Forall (of_binding (fun a => forall t, agree (ex a t) (ex' a t))) l ->
  forall obj, agree (object_loop ex l obj) (object_loop ex' l obj).
Proof.
  induction 1 as [|[t a] l Ha _ IH]; intros obj; cbn; [apply agree_ret|].
  apply agree_bind; [apply Ha|intros s; apply IH].
Qed.

Lemma array_agree (ex ex' : PreciseEvaluator (F := F) (PF := PF) -> EvaluationTarget -> ev (option F)) l t :
  Forall (fun p => forall t, agree (ex p t) (ex' p t)) l -> agree (array_of ex l t) (array_of ex' l t).
Proof.
  intros Hl. apply agree_bind; [|intros ?; apply agree_ret]. generalize (@nil F).
  induction Hl as [|p l Hp _ IH]; intros acc; cbn; [apply agree_ret|]. apply agree_bind; [apply Hp|intros ?; apply IH].
Qed.

Section MatchLoop.
Context {A B : Type} (f : option B -> option A).
Variables (ex : NestedAccessor (F := F) (PF := PF) -> EvaluationTarget -> ev (option A))
  (ex' : NestedAccessor (F := F) (PF := PF) -> EvaluationTarget -> ev (option B)).
Hypothesis f_none : f None = None.

(** A match of results that are [f] of others'. *)
Lemma match_loop_agree m t d l :
  Forall (of_case (fun r => agree (ex r t) (ebind (ex' r t) (fun v => eret (f v))))) l ->
  opt_case_ok (fun r => agree (ex r t) (ebind (ex' r t) (fun v => eret (f v)))) d ->
  agree (match_loop ex m t d l) (ebind (match_loop ex' m t d l) (fun v => eret (f v))).
Proof.
  intros Hl Hd. induction Hl as [|[c r] l Hr _ IH].
  - destruct d as [[c r]|]; cbn; [exact Hd|]. intros src dst Ho. unfold ebind, eret. by rewrite f_none.
  - cbn. apply agree_assoc, agree_bind; [apply agree_lift|]. intros []; [exact Hr|exact IH].
Qed.
End MatchLoop.

Lemma run_pipe_owned l f : run_pipe_storage (St := St) (PF := PF) l (from_owned f) =
  (let! f := run_pipe l f in Ret (from_owned f)).
Proof.
  revert f; induction l as [|p l IH]; intros f; cbn; [done|]. unfold value_cacu_storage. rewrite owned_into.
  destruct (value_cacu p f) as [g|]; cbn; [apply IH|done].
Qed.

Lemma pipe_result_owned l t f src dst :
  pipe_result_storage (St := St) (PF := PF) l t (from_owned <$> f) src dst = own (pipe_result l t f) src dst.
Proof.
  unfold own, pipe_result_storage, pipe_result. destruct f as [f|]; cbn.
  - unfold ebind, lift. rewrite run_pipe_owned. by destruct (run_pipe l f).
  - unfold ebind, eret. by destruct (has_remove l).
Qed.

Lemma pipe_result_agree l t f : agree (pipe_result (PF := PF) l t f) (pipe_result l t f).
Proof. destruct f; cbn; [apply agree_bind; [apply agree_lift|intros ?; apply agree_ret]|apply agree_ret]. Qed.

(** A pipe over a source that gives a stored field, and over the field. *)
Lemma pipe_storage_agree l t m n : agree m (own n) ->
  agree (ebind m (pipe_result_storage (PF := PF) l t)) (own (ebind n (pipe_result l t))).
Proof.
  intros Hm. apply (agree_trans _ (ebind (own n) (pipe_result_storage l t))).
  - apply agree_bind; [done|]. intros v. destruct v; cbn.
    + apply agree_bind; [apply agree_lift|intros ?; apply agree_ret].
    + apply agree_ret.
  - assert (Hn : agree (own n) (own n)) by (eapply agree_trans; [apply agree_sym|]; eassumption).
    intros src dst Hd. destruct (Hn src dst Hd) as [_ Hk]. unfold own, ebind, eret in *.
    destruct (n src dst) as [[f [s d]]|]; [|done].
    rewrite pipe_result_owned. destruct (pipe_result_agree l t f s d Hk) as [_ Hk'].
    unfold own, ebind, eret. destruct (pipe_result l t f s d) as [[? [? ?]]|]; done.
Qed.

(** *** The two evaluations *)

Definition plainP (p : PreciseEvaluator (F := F) (PF := PF)) : bool :=
  match p with Lookup _ _ _ _ | StaticSymbol _ | ObjArc _ => false | Tdc o => op_plain o | _ => true end.
Definition plainN (n : NestedAccessor (F := F) (PF := PF)) : bool :=
  match n with NFieldArc _ => false | NDirect o => op_plain o | _ => true end.

(** No lookup and no static symbol at any depth. *)
Definition plain : PreciseEvaluator (F := F) (PF := PF) -> bool := everyP plainP plainN.

Definition agreesP (p : PreciseEvaluator (F := F) (PF := PF)) : Prop := plain p = true -> forall t,
  agree (extract_one_async now p t) (eval_item_sync now p t)
  /\ agree (extract_storage_sync now p t) (own (eval_item_sync now p t))
  /\ agree (extract_storage_async now p t) (own (eval_item_sync now p t)).

Definition agreesN (n : NestedAccessor (F := F) (PF := PF)) : Prop := everyN plainP plainN n = true -> forall t,
  agree (nested_extract_one_async now n t) (nested_extract_one now n t)
  /\ agree (nested_extract_storage_async now n t) (own (nested_extract_one now n t))
  /\ agree (nested_storage (nested_extract_one now) n t) (own (nested_extract_one now n t)).

Lemma bind_ret {A} (m : ev A) : agree m m -> agree m (ebind m (fun v => eret (id v))).
Proof. intros Hm src dst Hd. destruct (Hm src dst Hd) as [_ Hk]. unfold ebind, eret. by destruct (m src dst) as [[a [s d]]|]. Qed.

Lemma ret_bind {A} (m n : ev A) : agree m (ebind n (fun v => eret (id v))) -> agree m n.
Proof.
  intros Hm src dst Hd. specialize (Hm src dst Hd). unfold ebind, eret in Hm.
  by destruct (n src dst) as [[a [s d]]|].
Qed.

Lemma agree_refl_r {A} (m n : ev A) : agree m n -> agree n n.
Proof. intros Hm. eapply agree_trans; [apply agree_sym|]; eassumption. Qed.

(** The three facts about an expression that evaluates one field. *)
Lemma leaf_agree (e : ev (option F)) : agree e e -> agree e e /\ agree (own e) (own e) /\ agree (own e) (own e).
Proof. intros He. split; [done|]. split; by apply agree_own. Qed.

Lemma ret_agree (o : option F) :
  agree (eret o) (eret o) /\ agree (eret (from_owned <$> o)) (own (eret o)) /\ agree (eret (from_owned <$> o)) (own (eret o)).
Proof. split; [apply agree_ret|]. split; intros src dst Hd; done. Qed.

Lemma object_agree l : Forall (of_binding agreesN) l -> forallb (of_binding (everyN plainP plainN)) l = true ->
  forall t, agree
    (object_result t (object_loop (fun n t => nested_extract_storage_async now n t) l obj_default))
    (object_result t (object_loop (fun n t => nested_storage (fun n t => nested_extract_one now n t) n t) l obj_default)).
Proof.
  intros Hl Hp t. apply agree_bind; [|intros ?; apply agree_ret]. apply object_loop_agree.
  induction Hl as [|[t' a] l Ha _ IH]; [constructor|]. cbn in Hp. apply andb_prop in Hp as [Hp Hp'].
  constructor; [|auto]. intros t''. destruct (Ha Hp t'') as (_ & Hs & Hn).
  eapply agree_trans; [exact Hs|apply agree_sym, Hn].
Qed.

Lemma items_agree l : Forall agreesP l -> forallb (everyP plainP plainN) l = true ->
  forall t, agree (array_of (fun p t => extract_one_async now p t) l t) (array_of (fun p t => eval_item_sync now p t) l t).
Proof.
  intros Hl Hp t. apply array_agree. induction Hl as [|p l Ha _ IH]; [constructor|]. cbn in Hp.
  apply andb_prop in Hp as [Hp Hp']. constructor; [|auto]. intros t'. by destruct (Ha Hp t').
Qed.

(** A match over nested accessors: the results of the cases. *)
Lemma cases_agree {A} (ex : NestedAccessor (F := F) (PF := PF) -> EvaluationTarget -> ev (option A)) f l d m t :
  f None = None ->
  Forall (of_case agreesN) l -> opt_case_ok agreesN d ->
  forallb (of_case (everyN plainP plainN)) l
    && match d with Some (mkCase _ r) => everyN plainP plainN r | None => true end = true ->
  (forall r, everyN plainP plainN r = true -> agreesN r ->
     agree (ex r t) (ebind (nested_extract_one now r t) (fun v => eret (f v)))) ->
  agree (match_loop ex m t d l) (ebind (match_loop (nested_extract_one now) m t d l) (fun v => eret (f v))).
Proof.
  intros Hf Hl Hd Hp Hr. apply andb_prop in Hp as [Hp Hp']. apply match_loop_agree; [done|..].
  - induction Hl as [|[c r] l Ha _ IH]; [constructor|]. cbn in Hp. apply andb_prop in Hp as [Hq Hp].
    constructor; [by apply Hr|auto].
  - destruct d as [[c r]|]; [|done]. by apply Hr.
Qed.

(** The source of a pipe. *)
Lemma source_agree s t : source_ok agreesP s ->
  match s with SPrecise p => plain p | _ => true end = true ->
  agree (source_one (fun p t => extract_one_async now p t) s t)
    (source_one (fun p t => let* s := extract_storage_sync now p t in eret (into_owned <$> s)) s t)
  /\ agree (match s with
            | SAccessor a => direct_extract_storage a t
            | SAccessDirect a b => own (access_direct_extract_one a b t)
            | SPrecise op => extract_storage_sync now op t
            end)
       (own (source_one (fun p t => let* s := extract_storage_sync now p t in eret (into_owned <$> s)) s t))
  /\ agree (match s with
            | SAccessor a => direct_extract_storage_async a t
            | SAccessDirect a b => own (access_direct_extract_one a b t)
            | SPrecise op => extract_storage_async now op t
            end)
       (own (source_one (fun p t => let* s := extract_storage_sync now p t in eret (into_owned <$> s)) s t)).
Proof.
  intros Hs Hp. destruct s as [a|a b|p]; cbn [source_one].
  - pose proof (direct_agree a t). split; [done|]. split; [by apply agree_own|apply direct_storage_agree].
  - pose proof (access_direct_agree a b t). split; [done|]. split; by apply agree_own.
  - destruct (Hs Hp t) as (A1 & A2 & A3).
    assert (He : agree (eval_item_sync now p t)
                   (let* s := extract_storage_sync now p t in eret (into_owned <$> s))).
    { intros src dst Hd. destruct (agree_refl_r _ _ A1 src dst Hd) as [_ Hk]. destruct (A2 src dst Hd) as [E _].
      unfold own, ebind, eret in *. rewrite E. destruct (eval_item_sync now p t src dst) as [[v [s d]]|]; [|done].
      split; [|done]. do 2 f_equal. destruct v; cbn; [by rewrite owned_into|done]. }
    split; [eapply agree_trans; eauto|]. split; (eapply agree_trans; [eassumption|by apply agree_own]).
Qed.

Lemma pipe_agree s l t : source_ok agreesP s ->
  match s with SPrecise p => plain p | _ => true end = true ->
  agree (extract_one_async now (Pipe (mkPipe s l)) t) (eval_item_sync now (Pipe (mkPipe s l)) t)
  /\ agree (extract_storage_sync now (Pipe (mkPipe s l)) t) (own (eval_item_sync now (Pipe (mkPipe s l)) t))
  /\ agree (extract_storage_async now (Pipe (mkPipe s l)) t) (own (eval_item_sync now (Pipe (mkPipe s l)) t)).
Proof.
  intros Hs Hp. destruct (source_agree s t Hs Hp) as (A1 & A2 & A3). split; [|split].
  - apply agree_bind; [done|intros ?; apply pipe_result_agree].
  - by apply pipe_storage_agree.
  - by apply pipe_storage_agree.
Qed.

Lemma match_agree m l d : Forall (of_case agreesN) l -> opt_case_ok agreesN d -> agreesP (Match (mkMatch m l d)).
Proof.
  intros Hl Hd Hp t. cbn [plain everyP plainP andb] in Hp. split; [|split].
  - apply agree_bind; [apply match_source_agree|]. intros x. apply ret_bind, cases_agree; try done.
    intros r Hr Ha. destruct (Ha Hr t) as (A & _ & _). eapply agree_trans; [exact A|]. apply bind_ret.
    eapply agree_refl_r, A.
  - unfold own. cbn. apply agree_assoc, agree_bind; [apply match_source_agree|]. intros x. apply cases_agree; try done.
    intros r Hr Ha. by destruct (Ha Hr t) as (_ & _ & A).
  - unfold own. cbn. apply agree_assoc, agree_bind; [apply match_source_agree|]. intros x. apply cases_agree; try done.
    intros r Hr Ha. by destruct (Ha Hr t) as (_ & A & _).
Qed.

Lemma agrees_all : (forall p, agreesP p) /\ (forall n, agreesN n).
Proof.
  apply syntax_ind.
  - intros x _ t. apply (ret_agree None).
  - intros e _ t. apply leaf_agree, calc_agree.
  - intros a b _ t. apply leaf_agree, access_direct_agree.
  - apply match_agree.
  - intros s k d c _ _ Hp. done.
  - intros x _ t. apply (ret_agree (Some x)).
  - intros x Hp. done.
  - intros x Hp t. cbn in Hp. rewrite andb_true_r in Hp.
    split; [by apply record_one_agree|].
    split; [by apply record_storage_agree|by apply record_storage_async_agree].
  - intros l Hl Hp t. pose proof (object_agree l Hl Hp t) as A. split; [exact A|].
    split; apply agree_own; [eapply agree_refl_r|]; exact A.
  - intros l Hl Hp t. pose proof (items_agree l Hl Hp t) as A. split; [exact A|].
    split; apply agree_own; [eapply agree_refl_r|]; exact A.
  - intros s l Hs Hp t. apply pipe_agree; [done|]. by destruct s.
  - intros x _ t. apply ret_agree.
  - intros x _ t. apply leaf_agree, fmt_agree.
  - intros x _ t. apply leaf_agree, arr_agree.
  - intros x _ t. apply ret_agree.
  - intros x Hp. done.
  - intros x _ t. split; [apply agree_ret|]. split; intros src dst Hd; done.
  - intros x Hp. done.
  - intros x Hp t. cbn in Hp. rewrite andb_true_r in Hp. split; [by apply record_one_agree|].
    split; [by apply record_storage_async_agree|]. apply agree_own. eapply agree_refl_r, record_one_agree, Hp.
  - intros x _ t. destruct (ret_agree (fun_extract_one now x t)) as (A & A' & A''). done.
  - intros x _ t. apply leaf_agree, arr_agree.
  - intros l Hl Hp t. pose proof (object_agree l Hl Hp t) as A. split; [exact A|].
    split; apply agree_own; [|eapply agree_refl_r]; exact A.
  - intros l Hl Hp t. pose proof (items_agree l Hl Hp t) as A. split; [exact A|].
    split; apply agree_own; [|eapply agree_refl_r]; exact A.
  - intros s l Hs Hp t. destruct (pipe_agree s l t Hs) as (A1 & A2 & A3); [by destruct s|].
    split; [exact A1|]. split; [exact A3|]. apply agree_own. eapply agree_refl_r, A1.
  - intros x _ t. split; [apply agree_panic|]. split; intros src dst Hd; done.
Qed.

End Agree.
