(* ===== verification/OmlStatic.v ===== *)
(** Static blocks of a model ([src/crates/wp-oml/src/parser/oml_conf.rs]): which
    expressions they may hold, their evaluation to constants, the replacement of
    the symbols that name them, and the flags computed once per model.

    The parser of the text is not modelled: these are the passes over the syntax
    it built, up to [oml_parse_raw]'s answer.  Every error of them is a [Cut]
    that refuses the model; the labels are the constructors of [StaticError]. *)
From Stdlib Require Import ZArith Lia String.
From stdpp Require Import prelude strings gmap.
From S2P Require Import Prelude F64 Text DataModel OmlData OmlCalc OmlMatch OmlSql OmlEval.
Local Open Scope string_scope.
Local Open Scope list_scope.
Local Open Scope wp_scope.

Inductive StaticError :=
  | OnlySingle | OtherSymbol | ExternalEffects | RuntimeAccess | RuntimeFunctions
  | RuntimeFormatting | OnlyLiterals | CalcAccess | PipeOperations
  | TargetRequired | DuplicateBinding
  | SymbolNotFound (sym : string) | NotAnObject (sym : string).

(** [Result<A, ErrMode<ContextError>>] and its [?]. *)
Definition sres (A : Type) : Type := A + StaticError.
Definition sbind {A B} (m : sres A) (k : A -> sres B) : sres B :=
  match m with inl a => k a | inr e => inr e end.
Notation "'let?' x ':=' m 'in' k" := (sbind m (fun x => k))
  (at level 10, x pattern, m at level 100, k at level 200) : wp_scope.

(** A loop with [?] over a list, a check or a rewriting. *)
Definition check_list {A} (f : A -> sres unit) : list A -> sres unit :=
  fix go l := match l with [] => inl tt | x :: l => let? _ := f x in go l end.

Definition rewrite_list {A} (f : A -> sres A) : list A -> sres (list A) :=
  fix go l := match l with [] => inl [] | x :: l => let? x := f x in let? l := go l in inl (x :: l) end.

Section Static.
Context `{OmlTypes} {F St PF : Type} `{!OmlData F St} `{WildMatch} `{UnicodeCase}.
Context `{!PipeApi PF F} `{!OmlEnv St} `{!KnowledgeApi (F := F)}.
Variable now : LocalNow.

Notation PreciseEvaluator := (PreciseEvaluator (F := F) (PF := PF)).
Notation NestedAccessor := (NestedAccessor (F := F) (PF := PF)).
Notation NestedBinding := (NestedBinding (F := F) (PF := PF)).
Notation EvalExp := (EvalExp (F := F) (PF := PF)).
Notation ObjModel := (ObjModel (F := F) (PF := PF)).

(** ** Temporary fields *)

Definition temp_target (t : EvaluationTarget) : bool :=
  match t_name t with Some n => starts_with n "__" | None => false end.

Definition check_temp_fields (items : list EvalExp) : bool :=
  existsb (fun item =>
    match item with
    | ESingle x => existsb temp_target (target x)
    | EBatch x => temp_target (origin (b_target x))
    end) items.

(** ** What a static block may hold *)

Fixpoint ensure_static_calc_expr_supported (e : CalcExpr F) : sres unit :=
  match e with
  | Const _ => inl tt
  | Accessor _ => inr CalcAccess
  | UnaryNeg i => ensure_static_calc_expr_supported i
  | Binary _ l r => let? _ := ensure_static_calc_expr_supported l in ensure_static_calc_expr_supported r
  | Func _ i => ensure_static_calc_expr_supported i
  end.

Fixpoint ensure_static_precise_supported (p : PreciseEvaluator) : sres unit :=
  match p with
  | StaticSymbol _ => inr OtherSymbol
  | Obj _ | ObjArc _ | Val _ => inl tt
  | Calc e => ensure_static_calc_expr_supported e
  | Map subs => check_list (fun '(mkNested _ a) => ensure_static_nested_accessor_supported a) subs
  | ObjArray items => check_list (fun i => ensure_static_precise_supported i) items
  | Sql _ => inr ExternalEffects
  | Tdc _ | Pipe _ | Collect _ | AccessDirect _ _ => inr RuntimeAccess
  | Fun _ => inr RuntimeFunctions
  | Fmt _ => inr RuntimeFormatting
  | Match _ | Lookup _ _ _ _ => inr OnlyLiterals
  end
with ensure_static_nested_accessor_supported (a : NestedAccessor) : sres unit :=
  match a with
  | NField _ | NFieldArc _ => inl tt
  | NStaticSymbol _ => inr OtherSymbol
  | NDirect _ | NCollect _ => inr RuntimeAccess
  | NFun _ => inr RuntimeFunctions
  | NPipe _ => inr PipeOperations
  | NMap subs => check_list (fun '(mkNested _ a) => ensure_static_nested_accessor_supported a) subs
  | NObjArray items => check_list (fun i => ensure_static_precise_supported i) items
  end.

Definition ensure_static_block_expr_supported (e : EvalExp) : sres unit :=
  match e with
  | ESingle x => ensure_static_precise_supported (eval_way x)
  | EBatch _ => inr OnlySingle
  end.

Definition extract_static_target (e : EvalExp) : sres string :=
  match e with
  | ESingle x => match target x with t :: _ => inl (safe_name t) | [] => inr TargetRequired end
  | EBatch _ => inr OnlySingle
  end.

(** The checks of [parse_static_blocks] on the expressions of all blocks, in
    order; [symbols] are the names so far. *)
Fixpoint check_static_items (l : list EvalExp) (symbols : list string) : sres (list string) :=
  match l with
  | [] => inl symbols
  | e :: l =>
      let? _ := ensure_static_block_expr_supported e in
      let? sym := extract_static_target e in
      if bool_decide (sym ∈ symbols) then inr DuplicateBinding
      else check_static_items l (symbols ++ [sym])
  end.

(** ** The replacement of symbols *)

Section Rewrite.
Variable const_fields : gmap string F.

Definition const_field (sym : string) : sres F :=
  match const_fields !! sym with Some f => inl f | None => inr (SymbolNotFound sym) end.

Definition rewrite_generic_accessor (a : GenericAccessor (F := F)) : sres GenericAccessor :=
  match a with
  | GStaticSymbol sym => let? f := const_field sym in inl (GFieldArc f)
  | GField _ | GFieldArc _ | GFun _ => inl a
  end.

Definition rewrite_default (d : option (GenericAccessor (F := F))) : sres (option GenericAccessor) :=
  match d with Some a => let? a := rewrite_generic_accessor a in inl (Some a) | None => inl None end.

Definition rewrite_direct_accessor (a : DirectAccessor (F := F)) : sres DirectAccessor :=
  match a with
  | Take t => let? d := rewrite_default (take_default_acq t) in
              inl (Take (mkTake (take_get t) (take_option t) (take_collect t) d))
  | Read r => let? d := rewrite_default (read_default_acq r) in
              inl (Read (mkRead (read_get r) (read_option r) (read_collect r) d (collect_wild r)))
  end.

Fixpoint rewrite_calc_expr (e : CalcExpr F) : sres (CalcExpr F) :=
  match e with
  | Const _ => inl e
  | Accessor a => let? a := rewrite_direct_accessor a in inl (Accessor a)
  | UnaryNeg i => let? i := rewrite_calc_expr i in inl (UnaryNeg i)
  | Binary op l r => let? l := rewrite_calc_expr l in let? r := rewrite_calc_expr r in inl (Binary op l r)
  | Func f i => let? i := rewrite_calc_expr i in inl (Func f i)
  end.

Definition rewrite_record_operation (op : RecordOperation (F := F)) : sres RecordOperation :=
  let? dat := rewrite_direct_accessor (dat_get op) in
  match default_val op with
  | Some d => let? a := rewrite_generic_accessor (accessor d) in
              inl (mkRecordOp dat (Some (mkGenericBinding (gb_target d) a)))
  | None => inl (mkRecordOp dat None)
  end.

Definition rewrite_fmt_operation (op : FmtOperation (F := F)) : sres FmtOperation :=
  let? l := rewrite_list rewrite_record_operation (subs op) in inl (mkFmt (fmt_str op) l).

Definition rewrite_match_source (s : MatchSource (F := F)) : sres MatchSource :=
  match s with
  | Single a => let? a := rewrite_direct_accessor a in inl (Single a)
  | Multi l => let? l := rewrite_list rewrite_direct_accessor l in inl (Multi l)
  end.

Fixpoint rewrite_single_match_cond (c : MatchCond (F := F)) : sres MatchCond :=
  match c with
  | CEqSym sym => let? f := const_field sym in inl (CEqArc f)
  | CNeqSym sym => let? f := const_field sym in inl (CNeqArc f)
  | CInSym beg fin => let? b := const_field beg in let? e := const_field fin in inl (CInArc b e)
  | COr l => let? l := rewrite_list (fun c => rewrite_single_match_cond c) l in inl (COr l)
  | _ => inl c
  end.

Definition rewrite_match_condition (c : MatchCondition (F := F)) : sres MatchCondition :=
  match c with
  | MSingle s => let? s := rewrite_single_match_cond s in inl (MSingle s)
  | MMulti l => let? l := rewrite_list rewrite_single_match_cond l in inl (MMulti l)
  | MDefault => inl MDefault
  end.

(** The compiled dictionary of a lookup; a later entry replaces an earlier one
    of the same normalized key. *)
Definition lookup_dict (dict_symbol : string) : sres (gmap string F) :=
  match const_fields !! dict_symbol with
  | None => inr (SymbolNotFound dict_symbol)
  | Some field =>
      match f_value field with
      | ObjV obj => inl (foldl (fun dict kv => <[normalize_lookup_key kv.1 := as_field kv.2]> dict) ∅ (obj_iter obj))
      | _ => inr (NotAnObject dict_symbol)
      end
  end.

(** A query and [access_direct] keep their symbols. *)
Fixpoint rewrite_precise_evaluator (p : PreciseEvaluator) : sres PreciseEvaluator :=
  match p with
  | StaticSymbol sym => let? f := const_field sym in inl (ObjArc f)
  | Calc e => let? e := rewrite_calc_expr e in inl (Calc e)
  | Match (mkMatch dat items default_) =>
      let? dat := rewrite_match_source dat in
      let? items := rewrite_list (fun '(mkCase c r) =>
        let? r := rewrite_nested_accessor r in inl (mkCase c r)) items in
      let? default_ := match default_ with
                       | Some (mkCase c r) => let? r := rewrite_nested_accessor r in inl (Some (mkCase c r))
                       | None => inl None
                       end in
      let? items := rewrite_list (fun '(mkCase c r) =>
        let? c := rewrite_match_condition c in inl (mkCase c r)) items in
      inl (Match (mkMatch dat items default_))
  | Lookup sym key default_ _ =>
      let? key := rewrite_precise_evaluator key in
      let? default_ := rewrite_precise_evaluator default_ in
      let? dict := lookup_dict sym in
      inl (Lookup sym key default_ (Some dict))
  | Pipe op => let? op := rewrite_pipe_operation op in inl (Pipe op)
  | Map subs => let? subs := rewrite_list (fun '(mkNested t a) =>
                  let? a := rewrite_nested_accessor a in inl (mkNested t a)) subs in
                inl (Map subs)
  | ObjArray items => let? items := rewrite_list (fun i => rewrite_precise_evaluator i) items in
                      inl (ObjArray items)
  | Fmt op => let? op := rewrite_fmt_operation op in inl (Fmt op)
  | Tdc op => let? op := rewrite_record_operation op in inl (Tdc op)
  | Collect a => let? a := rewrite_direct_accessor a in inl (Collect a)
  | Fun _ | Sql _ | AccessDirect _ _ | Obj _ | ObjArc _ | Val _ => inl p
  end
with rewrite_nested_accessor (a : NestedAccessor) : sres NestedAccessor :=
  match a with
  | NStaticSymbol sym => let? f := const_field sym in inl (NFieldArc f)
  | NDirect op => let? op := rewrite_record_operation op in inl (NDirect op)
  | NCollect d => let? d := rewrite_direct_accessor d in inl (NCollect d)
  | NMap subs => let? subs := rewrite_list (fun '(mkNested t a) =>
                   let? a := rewrite_nested_accessor a in inl (mkNested t a)) subs in
                 inl (NMap subs)
  | NObjArray items => let? items := rewrite_list (fun i => rewrite_precise_evaluator i) items in
                       inl (NObjArray items)
  | NPipe op => let? op := rewrite_pipe_operation op in inl (NPipe op)
  | NField _ | NFieldArc _ | NFun _ => inl a
  end
with rewrite_pipe_operation (op : PiPeOperation (F := F) (PF := PF)) : sres PiPeOperation :=
  match op with
  | mkPipe (SAccessor a) items => let? a := rewrite_direct_accessor a in inl (mkPipe (SAccessor a) items)
  | mkPipe (SAccessDirect a b) items => inl (mkPipe (SAccessDirect a b) items)
  | mkPipe (SPrecise p) items => let? p := rewrite_precise_evaluator p in inl (mkPipe (SPrecise p) items)
  end.

Definition rewrite_static_references (l : list EvalExp) : sres (list EvalExp) :=
  rewrite_list (fun item =>
    match item with
    | ESingle x => let? p := rewrite_precise_evaluator (eval_way x) in
                   inl (ESingle (mkSingle (target x) p (sync x)))
    | EBatch x => inl (EBatch x)
    end) l.

End Rewrite.

(** ** Finalization *)

(** The constants are the fields of the record the static items build from an
    empty one; a later field of a name replaces an earlier one. *)
Definition materialize_static_items (l : list EvalExp) : outcome (gmap string F) :=
  let! (_, (_, dst)) := eval_items now l [] [] in
  Ret (foldl (fun m s => <[st_name s := into_owned s]> m) ∅ dst).

Definition with_items (m : ObjModel) (l : list EvalExp) : ObjModel :=
  mkModel (OmlEval.name m) (rules m) (enable m) l (static_items m) (has_temp_fields m) (static_fields m).
Definition with_static_fields (m : ObjModel) (c : gmap string F) : ObjModel :=
  mkModel (OmlEval.name m) (rules m) (enable m) (items m) (static_items m) (has_temp_fields m) c.

(** Without a static block nothing is rewritten. *)
Definition finalize_static_blocks (m : ObjModel) (static : list EvalExp) : outcome (sres ObjModel) :=
  match static with
  | [] => Ret (inl (with_static_fields m ∅))
  | _ =>
      let! const_fields := materialize_static_items static in
      Ret (let? l := rewrite_static_references const_fields (items m) in
           inl (with_static_fields (with_items m l) const_fields))
  end.

Definition compute_sync_flags (m : ObjModel) : ObjModel :=
  with_items m ((fun item =>
    match item with
    | ESingle x => ESingle (mkSingle (target x) (eval_way x) (support_sync (eval_way x)))
    | EBatch x => EBatch x
    end) <$> items m).

(** [oml_parse_raw] after the text is parsed: the static items are taken out of
    the model. *)
Definition finish_model (m : ObjModel) : outcome (sres ObjModel) :=
  let static := static_items m in
  let m := mkModel (OmlEval.name m) (rules m) (enable m) (items m) [] (has_temp_fields m) (static_fields m) in
  let! r := finalize_static_blocks m static in
  Ret (let? m := r in inl (compute_sync_flags m)).

End Static.
