(* ===== verification/OmlSyncLaws.v ===== *)
(** The synchronous path of a model ([OmlEval], [OmlStatic]): where it is not
    observable, and what it loses where it is. *)
From Stdlib Require Import ZArith Lia String.
From stdpp Require Import prelude strings gmap.
From S2P Require Import Prelude F64 Text DataModel OmlData OmlAccessLaws OmlCalc OmlMatch OmlSql OmlEval OmlEvalLaws OmlStatic.
Local Open Scope string_scope.
Local Open Scope list_scope.
Local Open Scope wp_scope.

Section Sync.
Context `{OmlTypes} {F St PF : Type} `{!OmlData F St} `{!OmlLaws} `{WildMatch} `{UnicodeCase}.
Context `{!PipeApi PF F} `{!OmlEnv St} `{!KnowledgeApi (F := F)}.
Variable now : LocalNow.

Notation ev := (ev (F := F) (St := St)).
Notation EvalExp := (EvalExp (F := F) (PF := PF)).
Notation ObjModel := (ObjModel (F := F) (PF := PF)).

(** ** Statements keep a record unshared *)

Lemma filter_owned (P : St -> Prop) `{!forall x, Decision (P x)} dst : owned dst -> owned (filter P dst).
Proof. intros Hd. apply Forall_forall. intros x Hx. apply list_elem_of_filter in Hx as [_ Hx]. by eapply Forall_forall in Hd. Qed.

Lemma emit_owned s t dst : is_shared s = false -> owned dst -> owned (emit_single_storage (F := F) s t dst).
Proof.
  intros Hs Hd. unfold emit_single_storage. rewrite Hs; cbn. case_match; [by apply filter_owned|].
  repeat (case_match; [done|]). apply Forall_app; split; [done|]. constructor; [apply owned_shared|constructor].
Qed.

Lemma emit_more_owned ts obj dst : owned dst -> owned (emit_more (F := F) ts obj dst).
Proof.
  revert obj dst; induction ts as [|t ts IH]; intros [|v obj] dst Hd; cbn; try done.
  apply IH. case_match; [done|]. apply Forall_app; split; [done|]. constructor; [apply owned_shared|constructor].
Qed.

Lemma batch_emit_owned needs wrapped dst :
  owned wrapped -> owned dst -> owned (batch_emit (F := F) needs wrapped dst).
Proof.
  revert wrapped dst; induction needs as [|f needs IH]; intros wrapped dst Hw Hd; cbn; [by apply Forall_app|].
  case_match; apply IH; try done; [by apply filter_owned|].
  apply Forall_app; split; [done|]. constructor; [apply owned_shared|constructor].
Qed.

Lemma modify_agree (f : list St -> list St) :
  (forall dst, owned dst -> owned (f dst)) -> agree (F := F) (modify_dst f) (modify_dst f).
Proof. intros Hf src dst Hd. split; [done|]. by apply Hf. Qed.

Lemma record_agree_refl o t : agree (record_extract_one (St := St) now o t) (record_extract_one now o t).
Proof.
  apply agree_bind; [apply direct_agree|]. intros [x|]; [apply agree_ret|].
  destruct (default_val o) as [d|]; [|apply agree_ret]. apply agree_bind; [|intros ?; apply agree_ret].
  destruct (accessor d); apply agree_ret || apply agree_panic.
Qed.

Lemma sql_agree q : agree (sql_extract_more (St := St) now q) (sql_extract_more now q).
Proof.
  apply agree_bind; [|intros [[[sql md5] params] all]; repeat (case_match; try apply agree_ret)].
  apply agree_bind; [|intros ?; apply agree_ret].
  induction (ordered_sql_param_names _ _) as [|v l IH]; cbn; [apply agree_ret|].
  destruct (vars q !! v) as [c|]; [|apply agree_panic]. apply agree_bind.
  - apply agree_bind; [|intros ?; apply agree_ret]. destruct c; cbn; apply agree_ret || apply record_agree_refl.
  - intros s. apply agree_bind; [done|intros ?; apply agree_ret].
Qed.

Lemma more_agree (p : PreciseEvaluator (F := F) (PF := PF)) :
  agree (extract_more_async (St := St) now p) (extract_more_async now p).
Proof. destruct p; apply agree_ret || apply agree_panic || apply sql_agree. Qed.

Lemma batch_agree (x : BatchEvalExp (F := F) (PF := PF)) : agree (batch_eval_proc (St := St) x) (batch_eval_proc x).
Proof.
  apply agree_bind.
  - destruct x as [t [o|o funs]]; intros src dst Hd; cbn; (split; [done|]); [done|].
    destruct (batch_pipe_loop _ _ _); cbn; done.
  - intros needs. apply modify_agree. intros dst Hd. apply batch_emit_owned; [constructor|done].
Qed.

(** A statement evaluates alike on both paths. *)
Lemma single_agree ts p b b' : plain p = true ->
  agree (single_eval_proc (St := St) now (mkSingle ts p b)) (single_eval_proc now (mkSingle ts p b')).
Proof.
  intros Hp. apply agree_bind; [apply agree_lift|]. intros []; cbn.
  { apply agree_bind; [apply more_agree|]. intros obj. apply modify_agree. intros dst. apply emit_more_owned. }
  destruct ts as [|t ts]; [apply agree_ret|].
  destruct (agrees_all now) as [Ha _]. destruct (Ha p Hp t) as (_ & A2 & A3).
  pose (k := fun s : option St => match s with Some x => modify_dst (F := F) (emit_single_storage x t) | None => eret tt end).
  assert (Hk : agree (ebind (own (eval_item_sync now p t)) k) (ebind (own (eval_item_sync now p t)) k)).
  { unfold own. apply agree_assoc, agree_sym, agree_assoc. apply agree_bind.
    { eapply agree_refl_r. intros src dst Hd. specialize (Ha p Hp t) as (A1 & _). exact (A1 src dst Hd). }
    intros [v|]; unfold ebind, eret; cbn; [|apply agree_ret].
    apply modify_agree. intros dst. apply emit_owned, owned_shared. }
  assert (Hb : forall c : bool, agree (ebind (if c then extract_storage_sync now p t else extract_storage_async now p t) k)
                  (ebind (own (eval_item_sync now p t)) k)).
  { intros c src dst Hd. destruct (Hk src dst Hd) as [_ Ho]. split; [|done].
    unfold ebind. destruct c; [destruct (A2 src dst Hd) as [-> _]|destruct (A3 src dst Hd) as [-> _]]; done. }
  eapply agree_trans; [apply (Hb b)|apply agree_sym, (Hb b')].
Qed.

(** ** Models *)

Definition with_sync (f : PreciseEvaluator (F := F) (PF := PF) -> bool) (e : EvalExp) : EvalExp :=
  match e with
  | ESingle x => ESingle (mkSingle (target x) (eval_way x) (f (eval_way x)))
  | EBatch x => EBatch x
  end.

Definition item_plain (e : EvalExp) : bool := match e with ESingle x => plain (eval_way x) | EBatch _ => true end.

Lemma items_sync_agree f g (l : list EvalExp) : forallb item_plain l = true ->
  agree (eval_items (St := St) now (with_sync f <$> l)) (eval_items now (with_sync g <$> l)).
Proof.
  induction l as [|e l IH]; cbn; [intros _; apply agree_ret|]. intros Hp. apply andb_prop in Hp as [Hp Hl].
  apply agree_bind; [|intros ?; by apply IH]. destruct e as [x|x]; [by apply single_agree|apply batch_agree].
Qed.

(** The model whose statements all take the asynchronous path. *)
Definition all_async (m : ObjModel) : ObjModel := with_items m (with_sync (fun _ => false) <$> OmlEval.items m).

(** C13: The synchronous path is not observable: a model without lookups and
    static symbols transforms every record as the model whose statements all
    evaluate asynchronously. *)
Theorem sync_path_unobservable (m : ObjModel) data :
  forallb item_plain (OmlEval.items m) = true ->
  transform_ref (St := St) now (compute_sync_flags m) data = transform_ref now (all_async m) data.
Proof.
  intros Hp. unfold transform_ref, compute_sync_flags, all_async. cbn.
  destruct (items_sync_agree support_sync (fun _ => false) (OmlEval.items m) Hp data [] (Forall_nil_2 _)) as [E _].
  change (fun item => match item with
    | ESingle x => ESingle (mkSingle (target x) (eval_way x) (support_sync (eval_way x)))
    | EBatch x => EBatch x end) with (with_sync support_sync).
  by rewrite E.
Qed.

(** Where a lookup is nested the two paths differ: an object with a lookup
    inside is flagged as synchronous, its synchronous evaluation drops the
    lookup without a word, and the asynchronous one has the dictionary's entry. *)
Theorem nested_lookup_lost s (kf : F) d dict found sub t src dst :
  lookup_found (Some dict) (Some kf) = Some found ->
  let p := Map [mkNested (PF := PF) sub (NPipe (mkPipe (SPrecise (Lookup s (Obj kf) d (Some dict))) []))] in
  support_sync p = true
  /\ extract_storage_sync now p t src dst = Ret (Some (from_owned (from_obj (safe_name t) obj_default)), (src, dst))
  /\ extract_storage_async now p t src dst
     = Ret (Some (from_owned (from_obj (safe_name t) (map_insert (St := St) obj_default sub (Some (from_shared found))))), (src, dst)).
Proof.
  intros Hf. split; [reflexivity|]. split; [reflexivity|].
  cbn -[lookup_found map_insert]. unfold own, object_result, ebind, eret. cbn -[lookup_found map_insert].
  unfold ebind, eret. rewrite Hf. reflexivity.
Qed.

End Sync.
