(* ===== verification/OmlStaticLaws.v ===== *)
(** The static passes make a model safe ([OmlStatic]): the constants are
    evaluated without a panic, every symbol of the statements is replaced, and
    the finished model transforms every record. *)
From Stdlib Require Import ZArith Lia String.
From stdpp Require Import prelude strings gmap.
From S2P Require Import Prelude F64 Text DataModel OmlData OmlAccessLaws OmlCalc OmlMatch OmlSql OmlEval OmlEvalLaws OmlStatic.
Local Open Scope string_scope.
Local Open Scope list_scope.
Local Open Scope wp_scope.

Section Total.
Context `{OmlTypes} {F St PF : Type} `{!OmlData F St} `{!OmlLaws} `{WildMatch} `{UnicodeCase}.
Context `{!PipeApi PF F} `{!OmlEnv St} `{!KnowledgeApi (F := F)}.
Variable now : LocalNow.

(** The pipe functions that never panic. *)
Variable pf_ok : PF -> bool.
Hypothesis pf_ok_ret : forall p f, pf_ok p = true -> exists g, value_cacu p f = Ret g.

Notation ev := (ev (F := F) (St := St)).
Notation PreciseEvaluator := (PreciseEvaluator (F := F) (PF := PF)).
Notation NestedAccessor := (NestedAccessor (F := F) (PF := PF)).
Notation EvalExp := (EvalExp (F := F) (PF := PF)).
Notation ObjModel := (ObjModel (F := F) (PF := PF)).

(** ** Evaluations that answer *)

Definition total {A} (m : ev A) : Prop := forall src dst, exists r, m src dst = Ret r.

Lemma total_ret {A} (a : A) : total (eret a).
Proof. intros src dst. by eexists. Qed.

Lemma total_bind {A B} (m : ev A) (k : A -> ev B) : total m -> (forall a, total (k a)) -> total (ebind m k).
Proof. intros Hm Hk src dst. unfold ebind. destruct (Hm src dst) as [[a [s d]] ->]. apply Hk. Qed.

Lemma total_map {A B} (m : ev A) (f : A -> B) : total m -> total (ebind m (fun a => eret (f a))).
Proof. intros Hm. apply total_bind; [done|intros ?; apply total_ret]. Qed.

Lemma total_own m : total m -> total (own m).
Proof. apply total_map. Qed.

Lemma total_modify f : total (modify_dst (F := F) f).
Proof. intros src dst. by eexists. Qed.

Lemma total_lift {A} (o : outcome A) : (exists a, o = Ret a) -> total (lift o).
Proof. intros [a ->] src dst. by eexists. Qed.

Lemma total_direct a t : total (direct_extract_one a t).
Proof. intros src dst. destruct (direct_access a t src dst) as (r & s & d & -> & _). by eexists. Qed.

Lemma total_direct_storage a t : total (direct_extract_storage_async a t).
Proof.
  destruct a as [k|r]; cbn; [apply total_own, (total_direct (Take k))|].
  intros src dst. by eexists.
Qed.

(** ** Resolved parts *)

Definition generic_ok (g : GenericAccessor (F := F)) : bool := match g with GStaticSymbol _ => false | _ => true end.
Definition op_ok (o : RecordOperation (F := F)) : bool :=
  match default_val o with Some d => generic_ok (accessor d) | None => true end.

Lemma total_generic g t : generic_ok g = true ->
  total (generic_extract_storage now g t) /\ total (generic_extract_storage_async now g t).
Proof. destruct g; try done; split; intros src dst; by eexists. Qed.

(** All four evaluations of a record operation. *)
Lemma total_record o t : op_ok o = true ->
  total (record_extract_one now o t) /\ total (record_extract_one_async now o t)
  /\ total (record_extract_storage now o t) /\ total (record_extract_storage_async now o t).
Proof.
  unfold op_ok. intros Ho.
  assert (Hd : forall d, default_val o = Some d ->
    total (generic_extract_storage now (accessor d) t) /\ total (generic_extract_storage_async now (accessor d) t)).
  { intros d E. rewrite E in Ho. by apply total_generic. }
  unfold record_extract_one, record_extract_one_async, record_extract_storage, record_extract_storage_async.
  repeat split;
    (apply total_bind;
      [first [apply total_direct | apply total_own, total_direct | apply total_direct_storage]|]);
    (intros [x|]; [apply total_ret|]); (destruct (default_val o) as [d|]; [|apply total_ret]);
    destruct (Hd d eq_refl); by apply total_map.
Qed.

Lemma total_calc (describe : F -> string) e t : total (calc_extract_one describe e t).
Proof. apply total_map. intros src dst. apply eval_total. Qed.

Lemma total_access_direct a b t : total (access_direct_extract_one a b t).
Proof. apply total_bind; [apply total_direct|intros ?]. apply total_map, total_direct. Qed.

Lemma total_arr a t : total (arr_extract_one a t).
Proof. intros src dst. by eexists. Qed.

Definition fmt_ok (x : FmtOperation (F := F)) : bool := forallb op_ok (subs x).

Lemma total_fmt x t : fmt_ok x = true -> total (fmt_extract_one now x t).
Proof.
  intros Hx. apply total_map. unfold fmt_ok in Hx. generalize (∅ : gmap string St).
  induction (subs x) as [|i l IH]; intros m; cbn in *; [apply total_ret|]. apply andb_prop in Hx as [Hi Hl].
  apply total_bind; [|intros s; by apply IH].
  destruct (total_record i (target_new (default "_fmt_" (field_name (dat_get i))) TAuto) Hi) as (_ & _ & A & _). exact A.
Qed.

(** *** Matches *)

(** A case is built for as many values as its match has. *)
Definition cond_ok (m : MatchSource (F := F)) (c : MatchCondition (F := F)) : bool :=
  match m, c with Single _, MMulti _ | Multi _, MSingle _ => false | _, _ => true end.

Definition arity_ok (m : MatchSource (F := F)) (l : list (MatchCase (F := F) (PF := PF))) : bool :=
  forallb (fun c => match c with mkCase c _ => cond_ok m c end) l.

Definition source_kind (m : MatchSource (F := F)) (x : Matched (F := F)) : Prop :=
  match m, x with Single _, AllValues _ | Multi _, OneValue _ => False | _, _ => True end.

Lemma match_source_total m t src dst :
  exists x s d, match_source (St := St) m t src dst = Ret (x, (s, d)) /\ source_kind m x.
Proof.
  destruct m as [a|l]; cbn; unfold ebind, eret.
  - destruct (total_direct a (match_key a t) src dst) as [[[x|] [s d]] ->]; do 3 eexists; (split; [reflexivity|done]).
  - assert (Hv : total (match_values (St := St) l t)).
    { induction l as [|a l IH]; cbn; [apply total_ret|]. apply total_bind; [apply total_direct|].
      intros [v|]; [by apply total_map|apply total_ret]. }
    destruct (Hv src dst) as [[[x|] [s d]] ->]; do 3 eexists; (split; [reflexivity|done]).
Qed.

Lemma case_total m c x : cond_ok m c = true -> source_kind m x -> exists b, case_matches c x = Ret b.
Proof. destruct m, c, x; cbn; try done; eauto. Qed.

Lemma total_match_loop {A} (ex : NestedAccessor -> EvaluationTarget -> ev (option A)) m x t d l :
  source_kind m x -> arity_ok m l = true ->
  Forall (of_case (fun r => total (ex r t))) l -> opt_case_ok (fun r => total (ex r t)) d ->
  total (match_loop ex x t d l).
Proof.
  intros Hk Ha Hl Hd. induction Hl as [|[c r] l Hr _ IH]; cbn in Ha |- *.
  - destruct d as [[c r]|]; [exact Hd|apply total_ret].
  - apply andb_prop in Ha as [Hc Ha]. apply total_bind; [by apply total_lift, (case_total m)|].
    intros []; [exact Hr|by apply IH].
Qed.

(** *** Pipes *)

Lemma run_pipe_total l f : forallb pf_ok l = true -> exists g, run_pipe l f = Ret g.
Proof.
  revert f; induction l as [|p l IH]; intros f; cbn; [eauto|]. intros Hl. apply andb_prop in Hl as [Hp Hl].
  destruct (pf_ok_ret p f Hp) as [g ->]. by apply IH.
Qed.

Lemma run_pipe_storage_total l (s : St) : forallb pf_ok l = true -> exists g, run_pipe_storage l s = Ret g.
Proof.
  revert s; induction l as [|p l IH]; intros s; cbn; [eauto|]. intros Hl. apply andb_prop in Hl as [Hp Hl].
  unfold value_cacu_storage. destruct (pf_ok_ret p (into_owned s) Hp) as [g ->]. cbn. by apply IH.
Qed.

Lemma total_pipe_result l t f : forallb pf_ok l = true -> total (pipe_result (St := St) l t f).
Proof.
  intros Hl. destruct f as [f|]; cbn; [|apply total_ret]. by apply total_map, total_lift, run_pipe_total.
Qed.

Lemma total_pipe_result_storage l t s : forallb pf_ok l = true -> total (pipe_result_storage l t s).
Proof.
  intros Hl. destruct s as [s|]; cbn; [|apply total_ret]. by apply total_map, total_lift, run_pipe_storage_total.
Qed.
(** *** Queries *)

Definition cond_accessor_ok (c : CondAccessor (F := F)) : bool := match c with CTdc o => op_ok o | _ => true end.
Definition sql_ok (q : SqlQuery (F := F)) : bool := forallb (fun kv => cond_accessor_ok kv.2) (map_to_list (vars q)).

Lemma total_sql q : sql_ok q = true -> total (sql_extract_more (St := St) now q).
Proof.
  intros Hq. apply total_bind; [|intros [[[sql md5] params] all]; repeat (case_match; try apply total_ret)].
  apply total_map. unfold ordered_sql_param_names.
  assert (Hl : Forall (fun n => is_Some (vars q !! n))
                 (filter (fun n => is_Some (vars q !! n)) (scan (list_ascii_of_string (oml_sql q))))).
  { apply Forall_forall. intros n Hn. by apply list_elem_of_filter in Hn as [Hn _]. }
  induction Hl as [|v l [c Hc] _ IH]; cbn; [apply total_ret|]. rewrite Hc.
  apply total_bind; [|intros s; by apply total_map].
  apply total_map. destruct c as [o| | |]; cbn; try apply total_ret.
  assert (Ho : op_ok o = true).
  { unfold sql_ok in Hq. rewrite forallb_forall in Hq. apply (Hq (v, CTdc o)).
    apply list_elem_of_In. by apply elem_of_map_to_list. }
  apply (total_record o auto_default Ho).
Qed.

(** ** Expressions *)

Definition resP (p : PreciseEvaluator) : bool :=
  match p with
  | StaticSymbol _ => false
  | Sql q => sql_ok q
  | Tdc o => op_ok o
  | Fmt x => fmt_ok x
  | Match (mkMatch m l _) => arity_ok m l
  | Pipe (mkPipe _ l) => forallb pf_ok l
  | _ => true
  end.
Definition resN (n : NestedAccessor) : bool :=
  match n with
  | NStaticSymbol _ => false
  | NDirect o => op_ok o
  | NPipe (mkPipe _ l) => forallb pf_ok l
  | _ => true
  end.

Definition resolved : PreciseEvaluator -> bool := everyP resP resN.
Definition resolvedN : NestedAccessor -> bool := everyN resP resN.

Definition totalP (p : PreciseEvaluator) : Prop := resolved p = true -> forall t,
  total (eval_item_sync now p t) /\ total (extract_storage_sync now p t)
  /\ total (extract_one_async now p t) /\ total (extract_storage_async now p t).
Definition totalN (n : NestedAccessor) : Prop := resolvedN n = true -> forall t,
  total (nested_extract_one now n t) /\ total (nested_extract_one_async now n t)
  /\ total (nested_extract_storage_async now n t).

Lemma total_storage n t : total (nested_extract_one now n t) -> total (nested_storage (nested_extract_one now) n t).
Proof. intros Hn. destruct n; try (by apply total_own). apply total_ret. Qed.

Lemma total_object (ex : NestedAccessor -> EvaluationTarget -> ev (option St)) l t :
  Forall (of_binding (fun a => forall t, total (ex a t))) l -> total (object_result t (object_loop ex l obj_default)).
Proof.
  intros Hl. apply total_map. generalize obj_default.
  induction Hl as [|[t' a] l Ha _ IH]; intros o; cbn; [apply total_ret|]. apply total_bind; [apply Ha|intros ?; apply IH].
Qed.

Lemma total_array (ex : PreciseEvaluator -> EvaluationTarget -> ev (option F)) l t :
  Forall (fun p => forall t, total (ex p t)) l -> total (array_of ex l t).
Proof.
  intros Hl. apply total_map. generalize (@nil F).
  induction Hl as [|p l Hp _ IH]; intros acc; cbn; [apply total_ret|]. apply total_bind; [apply Hp|intros ?; apply IH].
Qed.

Lemma objects_total l : Forall (of_binding totalN) l -> forallb (of_binding resolvedN) l = true -> forall t,
  total (object_result t (object_loop (fun n t => nested_storage (fun n t => nested_extract_one now n t) n t) l obj_default))
  /\ total (object_result t (object_loop (fun n t => nested_extract_storage_async now n t) l obj_default)).
Proof.
  intros Hl Hp t. split; apply total_object;
    (induction Hl as [|[t' a] l Ha _ IH]; [constructor|]; cbn in Hp; apply andb_prop in Hp as [Hq Hp];
     constructor; [intros t''; destruct (Ha Hq t'') as (A1 & A2 & A3)|by apply IH]).
  - by apply total_storage.
  - exact A3.
Qed.

Lemma arrays_total l : Forall totalP l -> forallb resolved l = true -> forall t,
  total (array_of (fun p t => eval_item_sync now p t) l t) /\ total (array_of (fun p t => extract_one_async now p t) l t).
Proof.
  intros Hl Hp t. split; apply total_array;
    (induction Hl as [|p l Ha _ IH]; [constructor|]; cbn in Hp; apply andb_prop in Hp as [Hq Hp];
     constructor; [intros t'; by destruct (Ha Hq t') as (A1 & A2 & A3 & A4)|by apply IH]).
Qed.

Lemma total_match {A} (ex : NestedAccessor -> EvaluationTarget -> ev (option A)) m l d t :
  (forall r, resolvedN r = true -> totalN r -> total (ex r t)) ->
  Forall (of_case totalN) l -> opt_case_ok totalN d -> arity_ok m l = true ->
  forallb (of_case resolvedN) l && match d with Some (mkCase _ r) => resolvedN r | None => true end = true ->
  total (ebind (match_source m t) (fun x => match_loop ex x t d l)).
Proof.
  intros Hr Hl Hd Ha Hp src dst. unfold ebind.
  destruct (match_source_total m t src dst) as (x & s & d' & -> & Hk). apply andb_prop in Hp as [Hp Hp'].
  apply (total_match_loop ex m); try done.
  - clear Ha. induction Hl as [|[c r] l Ht _ IH]; [constructor|]. cbn in Hp. apply andb_prop in Hp as [Hq Hp].
    constructor; [by apply Hr|by apply IH].
  - destruct d as [[c r]|]; [by apply Hr|done].
Qed.

Lemma sources_total s l t : source_ok totalP s -> forallb pf_ok l = true ->
  match s with SPrecise p => resolved p | _ => true end = true ->
  (total (eval_item_sync now (Pipe (mkPipe s l)) t) /\ total (extract_storage_sync now (Pipe (mkPipe s l)) t))
  /\ total (extract_one_async now (Pipe (mkPipe s l)) t) /\ total (extract_storage_async now (Pipe (mkPipe s l)) t).
Proof.
  intros Hs Hl Hp. cbn.
  assert (Hd : match s with SPrecise p => totalP p | _ => True end) by (by destruct s).
  repeat split; (apply total_bind; [|intros ?; by first [apply total_pipe_result | apply total_pipe_result_storage]]);
    destruct s as [a|a b|p]; cbn;
    first [apply total_direct_storage | apply total_own, total_direct | apply total_direct
          | apply total_own, total_access_direct | apply total_access_direct
          | destruct (Hd Hp t) as (A1 & A2 & A3 & A4); first [by apply total_map | done]].
Qed.

Lemma all_total : (forall p, totalP p) /\ (forall n, totalN n).
Proof.
  apply syntax_ind.
  - intros x _ t. repeat split; apply total_ret.
  - intros e _ t. pose proof (total_calc (fun _ => "") e t). repeat split; by try apply total_own.
  - intros a b _ t. pose proof (total_access_direct a b t). repeat split; by try apply total_own.
  - intros m l d Hl Hd Hp t. cbn in Hp. apply andb_prop in Hp as [Ha Hp].
    repeat split; apply total_match; try done; intros r Hr Ht; destruct (Ht Hr t) as (A1 & A2 & A3); try done.
    by apply total_storage.
  - intros s k d c Hk Hd Hp t. cbn in Hp. apply andb_prop in Hp as [Hpk Hpd].
    destruct (Hk Hpk t) as (_ & _ & Ak & _). destruct (Hd Hpd t) as (_ & _ & _ & Ad).
    split; [apply total_ret|]. split; [apply total_ret|].
    split; (apply total_bind; [done|]); intros v; (destruct (lookup_found c v); [apply total_ret|]);
      [by apply total_map|done].
  - intros x _ t. repeat split; apply total_ret.
  - intros x _ t. repeat split; apply total_ret.
  - intros x Hp t. cbn in Hp. rewrite andb_true_r in Hp. destruct (total_record x t Hp) as (A1 & A2 & A3 & A4). done.
  - intros l Hl Hp t. destruct (objects_total l Hl Hp t) as [A1 A2]. repeat split; by try apply total_own.
  - intros l Hl Hp t. destruct (arrays_total l Hl Hp t) as [A1 A2]. repeat split; by try apply total_own.
  - intros s l Hs Hp t. cbn in Hp. apply andb_prop in Hp as [Hf Hp]. destruct (sources_total s l t Hs Hf) as [[A1 A2] [A3 A4]];
      [by destruct s|done].
  - intros x _ t. repeat split; apply total_ret.
  - intros x Hp t. cbn in Hp. rewrite andb_true_r in Hp. pose proof (total_fmt x t Hp). repeat split; by try apply total_own.
  - intros x _ t. repeat split; apply total_arr || apply total_own, total_arr.
  - intros x _ t. repeat split; apply total_ret.
  - intros x Hp. done.
  - intros x _ t. repeat split; apply total_ret.
  - intros x _ t. repeat split; apply total_ret.
  - intros x Hp t. cbn in Hp. rewrite andb_true_r in Hp. destruct (total_record x t Hp) as (A1 & A2 & A3 & A4). done.
  - intros x _ t. repeat split; apply total_ret.
  - intros x _ t. repeat split; apply total_arr || apply total_own, total_arr.
  - intros l Hl Hp t. destruct (objects_total l Hl Hp t) as [A1 A2]. repeat split; by try apply total_own.
  - intros l Hl Hp t. destruct (arrays_total l Hl Hp t) as [A1 A2]. repeat split; by try apply total_own.
  - intros s l Hs Hp t. cbn in Hp. apply andb_prop in Hp as [Hf Hp]. destruct (sources_total s l t Hs Hf) as [[A1 A2] [A3 A4]];
      [by destruct s|done].
  - intros x Hp. done.
Qed.
(** ** Statements and models *)

Definition item_resolved (e : EvalExp) : bool :=
  match e with
  | ESingle x => resolved (eval_way x)
  | EBatch x => match b_eval_way x with BGet _ => true | BPipe _ funs => forallb pf_ok funs end
  end.

Lemma total_single x : resolved (eval_way x) = true -> total (single_eval_proc (St := St) now x).
Proof.
  intros Hp. apply total_bind.
  { apply total_lift. destruct (eval_way x); cbn in *; eauto. done. }
  intros []; cbn.
  - apply total_bind; [|intros ?; apply total_modify].
    destruct (eval_way x); try apply total_ret; [|done]. cbn in Hp. rewrite andb_true_r in Hp. by apply total_sql.
  - destruct (OmlEval.target x) as [|t ts]; [apply total_ret|].
    destruct all_total as [Ha _]. destruct (Ha _ Hp t) as (_ & A2 & _ & A4).
    apply total_bind; [by destruct (sync x)|]. intros [v|]; [apply total_modify|apply total_ret].
Qed.

Lemma batch_loop_total t funs l : forallb pf_ok funs = true -> exists out, batch_pipe_loop (F := F) t funs l = Ret out.
Proof.
  intros Hf. induction l as [|f l [out IH]]; cbn; [eauto|].
  unfold batch_pipe_field. destruct (run_pipe_total funs f Hf) as [g ->]. cbn. rewrite IH. cbn. eauto.
Qed.

Lemma total_batch x :
  match b_eval_way x with BGet _ => true | BPipe _ funs => forallb pf_ok funs end = true ->
  total (batch_eval_proc (St := St) x).
Proof.
  intros Hx. apply total_bind; [|intros ?; apply total_modify].
  intros src dst. destruct (b_eval_way x) as [o|o funs]; cbn; [by eexists|].
  destruct (batch_loop_total (origin (b_target x)) funs
              (record_extract_batch (b_target x) src (if has_remove funs then [] else dst)).1 Hx) as [out E].
  cbn in E. rewrite E. cbn. by eexists.
Qed.

Lemma total_items l : forallb item_resolved l = true -> total (eval_items (St := St) now l).
Proof.
  induction l as [|e l IH]; cbn; [intros _; apply total_ret|]. intros Hl. apply andb_prop in Hl as [He Hl].
  apply total_bind; [|intros ?; by apply IH]. destruct e as [x|x]; [by apply total_single|by apply total_batch].
Qed.

Lemma total_transform m data : forallb item_resolved (OmlEval.items m) = true ->
  exists out : list St, transform_ref now m data = Ret out.
Proof.
  intros Hm. unfold transform_ref. destruct (total_items _ Hm data []) as [[? [s d]] ->]. cbn. eauto.
Qed.

(** ** Rewriting resolves *)

(** What rewriting needs of an expression: everything but symbols. *)
Definition shP (p : PreciseEvaluator) : bool :=
  match p with
  | Sql q => sql_ok q
  | Match (mkMatch m l _) => arity_ok m l
  | Pipe (mkPipe _ l) => forallb pf_ok l
  | _ => true
  end.
Definition shN (n : NestedAccessor) : bool := match n with NPipe (mkPipe _ l) => forallb pf_ok l | _ => true end.
Definition shaped : PreciseEvaluator -> bool := everyP shP shN.
Definition shapedN : NestedAccessor -> bool := everyN shP shN.

(** Its two parts: the cases of the matches fit their sources; no query has a
    static symbol for the default of a parameter and no pipe a function that
    may panic. *)
Definition arityP (p : PreciseEvaluator) : bool := match p with Match (mkMatch m l _) => arity_ok m l | _ => true end.
Definition arityN (n : NestedAccessor) : bool := true.
Definition safeP (p : PreciseEvaluator) : bool :=
  match p with Sql q => sql_ok q | Pipe (mkPipe _ l) => forallb pf_ok l | _ => true end.
Definition safeN (n : NestedAccessor) : bool := match n with NPipe (mkPipe _ l) => forallb pf_ok l | _ => true end.

Definition bothP (p : PreciseEvaluator) : Prop := everyP arityP arityN p = true -> everyP safeP safeN p = true -> shaped p = true.
Definition bothN (n : NestedAccessor) : Prop := everyN arityP arityN n = true -> everyN safeP safeN n = true -> shapedN n = true.

Lemma both_list {A} (f g h : A -> bool) l : Forall (fun x => f x = true -> g x = true -> h x = true) l ->
  forallb f l = true -> forallb g l = true -> forallb h l = true.
Proof.
  induction 1 as [|x l Hx _ IH]; [done|]. cbn. intros [Hf Hf']%andb_prop [Hg Hg']%andb_prop.
  rewrite Hx by done. by apply IH.
Qed.

Lemma both_bindings l : Forall (of_binding bothN) l ->
  Forall (fun b => of_binding (everyN arityP arityN) b = true -> of_binding (everyN safeP safeN) b = true -> of_binding shapedN b = true) l.
Proof. intros Hl. eapply Forall_impl; [exact Hl|]. by intros [t a]. Qed.

Lemma both_shaped : (forall p, bothP p) /\ (forall n, bothN n).
Proof.
  apply syntax_ind; try (by intros; intros ? ?).
  - intros m l d Hl Hd HA HS. cbn in HA, HS. apply andb_prop in HA as [Ha HA]. apply andb_prop in HA as [HA HA'].
    apply andb_prop in HS as [HS HS']. apply andb_true_intro; split; [exact Ha|]. apply andb_true_intro; split.
    + eapply (both_list _ _ _ l); [|exact HA|exact HS]. eapply Forall_impl; [exact Hl|]. by intros [x r].
    + destruct d as [[x r]|]; [exact (Hd HA' HS')|done].
  - intros x k d o Hk Hd HA HS. cbn in HA, HS. apply andb_prop in HA as [HA HA']. apply andb_prop in HS as [HS HS'].
    apply andb_true_intro; split; [done|]. apply andb_true_intro; split; [exact (Hk HA HS)|exact (Hd HA' HS')].
  - intros l Hl HA HS. exact (both_list _ _ _ l (both_bindings l Hl) HA HS).
  - intros l Hl HA HS. exact (both_list _ _ _ l Hl HA HS).
  - intros x l Hx HA HS. cbn in HA, HS. apply andb_prop in HS as [HS HS']. apply andb_true_intro; split; [exact HS|].
    destruct x as [a|a b|p]; [done..|exact (Hx HA HS')].
  - intros l Hl HA HS. exact (both_list _ _ _ l (both_bindings l Hl) HA HS).
  - intros l Hl HA HS. exact (both_list _ _ _ l Hl HA HS).
  - intros x l Hx HA HS. cbn in HA, HS. apply andb_prop in HS as [HS HS']. apply andb_true_intro; split; [exact HS|].
    destruct x as [a|a b|p]; [done..|exact (Hx HA HS')].
Qed.

Variable c : gmap string F.

Lemma rewrite_list_Forall2 {A} (f : A -> sres A) l l' :
  rewrite_list f l = inl l' -> Forall2 (fun x y => f x = inl y) l l'.
Proof.
  revert l'; induction l as [|x l IH]; intros l'; cbn; [intros [= <-]; constructor|].
  destruct (f x) as [y|] eqn:E; cbn; [|done]. destruct (rewrite_list f l) as [k|] eqn:E'; cbn; [|done].
  intros [= <-]. constructor; [done|by apply IH].
Qed.

(** One step of a rewriting that succeeds. *)
Ltac step E := match type of E with
  | sbind ?m _ = inl _ => let y := fresh "y" in let Hy := fresh "Hy" in
      destruct m as [y|] eqn:Hy; cbn in E; [|discriminate E]
  end.

Lemma rewrite_generic_ok g g' : rewrite_generic_accessor c g = inl g' -> generic_ok g' = true.
Proof. destruct g; cbn; intros E; simplify_eq/=; try done. step E. by injection E as <-. Qed.

Lemma rewrite_record_ok o o' : rewrite_record_operation c o = inl o' -> op_ok o' = true.
Proof.
  unfold rewrite_record_operation. intros E. step E. destruct (default_val o) as [d|]; [|by injection E as <-].
  step E. injection E as <-. cbn. by eapply rewrite_generic_ok.
Qed.

Lemma rewrite_fmt_ok x x' : rewrite_fmt_operation c x = inl x' -> fmt_ok x' = true.
Proof.
  unfold rewrite_fmt_operation. intros E. step E. injection E as <-. unfold fmt_ok; cbn.
  apply rewrite_list_Forall2 in Hy. induction Hy as [|o o' l l' Ho _ IH]; [done|]. cbn.
  by rewrite (rewrite_record_ok _ _ Ho), IH.
Qed.

Lemma rewrite_source_kind m m' : rewrite_match_source c m = inl m' -> forall x, cond_ok m' x = cond_ok m x.
Proof. destruct m; cbn; intros E; step E; by injection E as <-. Qed.

Lemma rewrite_cond_kind m x x' : rewrite_match_condition c x = inl x' -> cond_ok m x' = cond_ok m x.
Proof. destruct x; cbn; intros E; try step E; injection E as <-; by destruct m. Qed.

Definition rwP (p : PreciseEvaluator) : Prop := shaped p = true ->
  forall p', rewrite_precise_evaluator c p = inl p' -> resolved p' = true.
Definition rwN (n : NestedAccessor) : Prop := shapedN n = true ->
  forall n', rewrite_nested_accessor c n = inl n' -> resolvedN n' = true.

Lemma bindings_rw l l' : Forall (of_binding rwN) l -> forallb (of_binding shapedN) l = true ->
  rewrite_list (fun '(mkNested t a) => let? a := rewrite_nested_accessor c a in inl (mkNested t a)) l = inl l' ->
  forallb (of_binding resolvedN) l' = true.
Proof.
  intros Hl Hs E. apply rewrite_list_Forall2 in E. revert Hl Hs.
  induction E as [|[t a] b l l' E _ IH]; [done|]. intros Hl Hs. inversion Hl as [|? ? Ha Hl']; subst.
  cbn in Hs |- *. apply andb_prop in Hs as [Hs Hs']. step E. injection E as <-. cbn.
  rewrite (Ha Hs _ Hy). by apply IH.
Qed.

Lemma items_rw l l' : Forall rwP l -> forallb shaped l = true ->
  rewrite_list (fun i => rewrite_precise_evaluator c i) l = inl l' -> forallb resolved l' = true.
Proof.
  intros Hl Hs E. apply rewrite_list_Forall2 in E. revert Hl Hs.
  induction E as [|p p' l l' E _ IH]; [done|]. intros Hl Hs. inversion Hl as [|? ? Ha Hl']; subst.
  cbn in Hs |- *. apply andb_prop in Hs as [Hs Hs']. rewrite (Ha Hs _ E). by apply IH.
Qed.

(** The results of the cases, then their conditions. *)
Lemma cases_rw m l l1 l2 : Forall (of_case rwN) l -> forallb (of_case shapedN) l = true -> arity_ok m l = true ->
  rewrite_list (fun '(mkCase x r) => let? r := rewrite_nested_accessor c r in inl (mkCase x r)) l = inl l1 ->
  rewrite_list (fun '(mkCase x r) => let? x := rewrite_match_condition c x in inl (mkCase x r)) l1 = inl l2 ->
  forallb (of_case resolvedN) l2 = true /\ arity_ok m l2 = true.
Proof.
  intros Hl Hs Ha E1 E2. apply rewrite_list_Forall2 in E1, E2. revert l2 E2 Hl Hs Ha.
  induction E1 as [|[x r] k l l1 E1 _ IH]; intros l2 E2 Hl Hs Ha; inversion E2 as [|? k2 ? l2' Ek E2' ]; subst; [done|].
  inversion Hl as [|? ? Hr Hl']; subst. cbn in Hs, Ha. apply andb_prop in Hs as [Hs Hs']. apply andb_prop in Ha as [Ha Ha'].
  step E1. injection E1 as <-. step Ek. injection Ek as <-. cbn.
  rewrite (Hr Hs _ Hy), (rewrite_cond_kind _ _ _ Hy0), Ha. by apply IH.
Qed.

Lemma arity_source m m' l : rewrite_match_source c m = inl m' -> arity_ok m' l = arity_ok m l.
Proof.
  intros E. unfold arity_ok. induction l as [|[x r] l IH]; [done|]. cbn. by rewrite (rewrite_source_kind _ _ E), IH.
Qed.

Lemma pipe_rw s l op : source_ok rwP s -> forallb pf_ok l = true ->
  match s with SPrecise p => shaped p | _ => true end = true ->
  rewrite_pipe_operation c (mkPipe s l) = inl op ->
  resolved (Pipe op) = true /\ resolvedN (NPipe op) = true.
Proof.
  intros Hs Hl Hp E. destruct s as [a|a b|p]; cbn in E.
  - step E. injection E as <-. cbn. by rewrite Hl.
  - injection E as <-. cbn. by rewrite Hl.
  - step E. injection E as <-. cbn. rewrite Hl. split; exact (Hs Hp _ Hy).
Qed.

Lemma rewrite_resolves : (forall p, rwP p) /\ (forall n, rwN n).
Proof.
  apply syntax_ind; try (intros; intros Hs p' E; cbn in E; first [by injection E as <- | step E; by injection E as <-]).
  - intros m l d Hl Hd Hs p' E. cbn in Hs, E. apply andb_prop in Hs as [Ha Hs]. apply andb_prop in Hs as [Hs Hsd].
    step E. step E. step E. step E. injection E as <-.
    destruct (cases_rw m l _ _ Hl Hs Ha Hy0 Hy2) as [Hr Ha']. rewrite <- (arity_source _ _ _ Hy) in Ha'.
    apply andb_true_intro; split; [exact Ha'|]. apply andb_true_intro; split; [exact Hr|].
    destruct d as [[x r]|]; [|by injection Hy1 as <-]. step Hy1. injection Hy1 as <-. exact (Hd Hsd _ Hy3).
  - intros s k d o Hk Hd Hs p' E. cbn in Hs, E. apply andb_prop in Hs as [Hsk Hsd]. step E. step E. step E.
    injection E as <-. apply andb_true_intro; split; [done|].
    apply andb_true_intro; split; [exact (Hk Hsk _ Hy)|exact (Hd Hsd _ Hy0)].
  - intros x Hs p' E. cbn in E. step E. injection E as <-. cbn. by rewrite (rewrite_record_ok _ _ Hy).
  - intros l Hl Hs p' E. cbn in E. step E. injection E as <-. exact (bindings_rw l _ Hl Hs Hy).
  - intros l Hl Hs p' E. cbn in E. step E. injection E as <-. exact (items_rw l _ Hl Hs Hy).
  - intros s l Hp Hs p' E. cbn in Hs, E. apply andb_prop in Hs as [Hf Hs]. step E. injection E as <-.
    apply (pipe_rw s l y Hp Hf); [by destruct s|done].
  - intros x Hs p' E. cbn in E. step E. injection E as <-. cbn. by rewrite (rewrite_fmt_ok _ _ Hy).
  - intros x Hs p' E. cbn in E. step E. injection E as <-. cbn. by rewrite (rewrite_record_ok _ _ Hy).
  - intros l Hl Hs p' E. cbn in E. step E. injection E as <-. exact (bindings_rw l _ Hl Hs Hy).
  - intros l Hl Hs p' E. cbn in E. step E. injection E as <-. exact (items_rw l _ Hl Hs Hy).
  - intros s l Hp Hs p' E. cbn in Hs, E. apply andb_prop in Hs as [Hf Hs]. step E. injection E as <-.
    apply (pipe_rw s l y Hp Hf); [by destruct s|done].
Qed.
(** ** Static blocks are literal *)

Lemma check_list_Forall {A} (f : A -> sres unit) l : check_list f l = inl () -> Forall (fun x => f x = inl ()) l.
Proof.
  induction l as [|x l IH]; cbn; [constructor|]. destruct (f x) as [[]|] eqn:E; cbn; [|done]. constructor; auto.
Qed.

Definition literalP (p : PreciseEvaluator) : Prop := ensure_static_precise_supported p = inl () -> resolved p = true.
Definition literalN (n : NestedAccessor) : Prop := ensure_static_nested_accessor_supported n = inl () -> resolvedN n = true.

Lemma forallb_impl {A} (P : A -> Prop) (f : A -> bool) l : Forall (fun x => P x -> f x = true) l -> Forall P l -> forallb f l = true.
Proof. induction 1; [done|]. inversion 1; subst. cbn. apply andb_true_intro. auto. Qed.

Lemma bindings_literal l : Forall (of_binding literalN) l ->
  check_list (fun '(mkNested _ a) => ensure_static_nested_accessor_supported a) l = inl () ->
  forallb (of_binding resolvedN) l = true.
Proof.
  intros Hl E. eapply forallb_impl; [|apply check_list_Forall, E].
  eapply Forall_impl; [exact Hl|]. intros [t a] Ha. exact Ha.
Qed.

Lemma items_literal l : Forall literalP l ->
  check_list (fun i => ensure_static_precise_supported i) l = inl () -> forallb resolved l = true.
Proof. intros Hl E. eapply forallb_impl; [exact Hl|apply check_list_Forall, E]. Qed.

Lemma literal_resolved : (forall p, literalP p) /\ (forall n, literalN n).
Proof.
  apply syntax_ind; try (intros; intros E; cbn in E; first [discriminate E | reflexivity]).
  - intros l Hl E. exact (bindings_literal l Hl E).
  - intros l Hl E. exact (items_literal l Hl E).
  - intros l Hl E. exact (bindings_literal l Hl E).
  - intros l Hl E. exact (items_literal l Hl E).
Qed.

Lemma checked_resolved l syms syms' : check_static_items l syms = inl syms' -> forallb item_resolved l = true.
Proof.
  revert syms; induction l as [|e l IH]; intros syms; cbn; [done|]. intros E. step E. step E.
  case_match; [discriminate|]. apply andb_true_intro; split; [|by eapply IH].
  destruct e as [x|x]; cbn in Hy; [|discriminate]. destruct y. by apply literal_resolved.
Qed.

Lemma materialize_total l syms : check_static_items l [] = inl syms -> exists c, materialize_static_items (St := St) now l = Ret c.
Proof.
  intros E. unfold materialize_static_items. destruct (total_items l (checked_resolved _ _ _ E) [] []) as [[? [s d]] ->].
  cbn. eauto.
Qed.

End Total.

Section Finish.
Context `{OmlTypes} {F St PF : Type} `{!OmlData F St} `{!OmlLaws} `{WildMatch} `{UnicodeCase}.
Context `{!PipeApi PF F} `{!OmlEnv St} `{!KnowledgeApi (F := F)}.
Variable now : LocalNow.
Variable pf_ok : PF -> bool.

Definition item_shaped (e : EvalExp (F := F) (PF := PF)) : bool :=
  match e with
  | ESingle x => shaped pf_ok (eval_way x)
  | EBatch x => match b_eval_way x with BGet _ => true | BPipe _ funs => forallb pf_ok funs end
  end.

(** What the parser of the text gives a statement: the cases of a match fit its
    source. *)
Definition item_arity (e : EvalExp (F := F) (PF := PF)) : bool :=
  match e with ESingle x => everyP arityP arityN (eval_way x) | EBatch _ => true end.

(** What it does not: no static symbol stands for the default of a query's
    parameter, and no pipe calls a function that may panic. *)
Definition item_safe (e : EvalExp (F := F) (PF := PF)) : bool :=
  match e with
  | ESingle x => everyP (safeP pf_ok) (safeN pf_ok) (eval_way x)
  | EBatch x => match b_eval_way x with BGet _ => true | BPipe _ funs => forallb pf_ok funs end
  end.

Lemma not_all_true {A} (f : A -> bool) l : forallb f l = false -> exists x, x ∈ l /\ f x = false.
Proof.
  induction l as [|x l IH]; [done|]. cbn. destruct (f x) eqn:Ex; [|exists x; split; [left|done]].
  cbn. intros Hl. destruct (IH Hl) as (y & Hy & Ey). exists y. split; [by right|done].
Qed.

Lemma arity_safe_shaped e : item_arity e = true -> item_safe e = true -> item_shaped e = true.
Proof. destruct e as [x|x]; [apply both_shaped|done]. Qed.

Hypothesis pf_ok_ret : forall p f, pf_ok p = true -> exists g, value_cacu p f = Ret g.

Lemma references_resolved c l l' : forallb item_shaped l = true ->
  rewrite_static_references (St := St) c l = inl l' -> forallb (item_resolved pf_ok) l' = true.
Proof.
  intros Hl E. apply rewrite_list_Forall2 in E. revert Hl.
  induction E as [|e e' l l' E _ IH]; [done|]. cbn. intros Hl. apply andb_prop in Hl as [He Hl].
  apply andb_true_intro; split; [|by apply IH]. destruct e as [x|x]; cbn in E.
  - destruct (rewrite_precise_evaluator c (eval_way x)) as [p|] eqn:Ep; cbn in E; [|discriminate].
    injection E as <-. destruct (rewrite_resolves pf_ok c) as [Hr _]. exact (Hr _ He _ Ep).
  - injection E as <-. exact He.
Qed.

Lemma flags_resolved (m : ObjModel (F := F) (PF := PF)) :
  forallb (item_resolved pf_ok) (OmlEval.items (compute_sync_flags m)) = forallb (item_resolved pf_ok) (OmlEval.items m).
Proof. cbn. induction (OmlEval.items m) as [|[x|x] l IH]; [done|..]; cbn; by rewrite IH. Qed.

(** C12: A model with a static block that passed its checks is finished without
    a panic.  When no symbol was missing, each transformation of a record by the
    finished model ends with an answer or is one of a model with an unsafe
    statement: every static symbol the passes look at is replaced, so a panic
    can only come from a query whose parameter has a static symbol for its
    default, which the passes miss, or from a pipe function that panics.  The
    cases of a match fit its source, as the parser builds them. *)
Theorem finished_model_never_panics (m : ObjModel (F := F) (PF := PF)) syms :
  check_static_items (static_items m) [] = inl syms -> static_items m <> [] ->
  exists r, finish_model (St := St) now m = Ret r /\
    (forallb item_arity (OmlEval.items m) = true ->
     forall m', r = inl m' -> forall data, (exists out : list St, transform_ref now m' data = Ret out) \/
       exists e, e ∈ OmlEval.items m /\ item_safe e = false).
Proof.
  intros Hc Hn. unfold finish_model, finalize_static_blocks.
  destruct (materialize_total now pf_ok pf_ok_ret _ _ Hc) as [c Em].
  destruct (static_items m) as [|e l]; [done|]. rewrite Em. cbn -[rewrite_static_references]. eexists; split; [reflexivity|].
  intros Ha m' E data. destruct (forallb item_safe (OmlEval.items m)) eqn:Hs.
  2:{ right. by apply not_all_true. }
  left. destruct (rewrite_static_references c (OmlEval.items m)) as [k|] eqn:Ek;
    cbn -[compute_sync_flags] in E; [|discriminate].
  injection E as <-. apply (total_transform now pf_ok pf_ok_ret). rewrite flags_resolved. cbn.
  eapply references_resolved; [|exact Ek]. eapply (both_list item_arity item_safe); [|exact Ha|exact Hs].
  apply Forall_forall. intros x _. apply arity_safe_shaped.
Qed.
End Finish.
