(* ===== verification/OmlPrivacy.v ===== *)
(** The privacy operators of OML: masks, keyed hashes and tokens
    ([src/crates/wp-oml/src/core/evaluator/transform/pipe/privacy.rs],
    [language/syntax/functions/pipe/privacy.rs]) and the registry of their
    secrets ([src/crates/wp-oml/src/privacy.rs]).

    Digests, the cipher and its random nonce, base64 and hex are other crates'.
    HMAC-MD5 is the repository's own, over the MD5 function. *)
From Stdlib Require Import ZArith Lia String Ascii.
From Stdlib Require Import Floats.SpecFloat.
From stdpp Require Import prelude strings gmap pretty.
From S2P Require Import Prelude F64 Text DataModel OmlData.
Local Open Scope string_scope.
Local Open Scope list_scope.
Local Open Scope Z_scope.

(** Bytes as numbers. *)
Definition as_bytes (s : string) : list Z := code <$> list_ascii_of_string s.

(** The crates the operators call. *)
Class PrivacyCrates := {
  hmac_sha256 : list Z -> list Z -> list Z;
  hmac_sha1 : list Z -> list Z -> list Z;
  md5_compute : list Z -> list Z;
  hex_encode : list Z -> string;
  hex_decode : string -> option (list Z);
  base64_url_encode : list Z -> string;
  base64_url_decode : string -> option (list Z);
  base64_engines : list (string -> option (list Z));
  aes_gcm_encrypt : list Z -> list Z -> list Z -> option (list Z);
  aes_gcm_decrypt : list Z -> list Z -> list Z -> option (list Z);
  string_from_utf8 : list Z -> option string;
}.

(** Texts of numbers and networks: [Display] of [f64] and of other crates' types. *)
Class ValueText `{OmlTypes} := {
  show_float : spec_float -> string;
  show_ipnet : IpNetT -> string;
  show_hex : N -> string;
}.

(** ** The registry of secrets *)

Definition to_upper (c : ascii) : ascii :=
  if (97 <=? code c) && (code c <=? 122) then ascii_of_nat (nat_of_ascii c - 32) else c.
Definition to_ascii_uppercase : string -> string := map_string to_upper.

(** [strip_prefix] *)
Definition strip_prefix (s p : string) : option string :=
  if starts_with s p then Some (String.substring (String.length p) (String.length s - String.length p) s) else None.

Definition normalize_secret_name (name : string) : string :=
  let upper := to_ascii_uppercase (str_trim name) in default upper (strip_prefix upper "SEC_").

Definition Secrets : Type := gmap string (list Z).

(** Empty material is a missing secret. *)
Definition upsert (m : Secrets) (name : string) (value : list Z) : Secrets :=
  let name := normalize_secret_name name in
  match value with [] => delete name m | _ => <[name := value]> m end.

Definition set_secret (m : Secrets) (name : string) (value : list Z) : Secrets := upsert m name value.
Definition get_secret (m : Secrets) (name : string) : option (list Z) := m !! normalize_secret_name name.
Definition clear_secrets (_ : Secrets) : Secrets := ∅.

Definition is_hexdigit (c : ascii) : bool :=
  ((48 <=? code c) && (code c <=? 57)) || ((65 <=? code c) && (code c <=? 70)) || ((97 <=? code c) && (code c <=? 102)).

Section Keys.
Context `{PrivacyCrates}.

Definition decode_key_material (value : string) : list Z :=
  let value := str_trim value in
  let hex := if (String.length value =? 64)%nat && forallb is_hexdigit (list_ascii_of_string value)
             then hex_decode value else None in
  match hex with
  | Some b => b
  | None =>
      let fits_ (engine : string -> option (list Z)) :=
        match engine value with
        | Some b => if (length b =? 32)%nat then Some b else None
        | None => None
        end in
      default (as_bytes value) (head (omap fits_ base64_engines))
  end.

Definition set_secret_str (m : Secrets) (name value : string) : Secrets := set_secret m name (decode_key_material value).

(** [set_secrets_from_pairs] and [set_secrets_from_env_dict]. *)
Definition set_secrets_from_pairs (m : Secrets) (pairs : list (string * string)) : Secrets :=
  foldl (fun m nv => upsert m nv.1 (decode_key_material nv.2)) m pairs.

End Keys.

Definition DEFAULT_SALT_NAME : string := "pii_salt".
Definition DEFAULT_KEY_NAME : string := "pii_key".
Definition DEFAULT_MASK_CHAR : string := "*".
Definition DEFAULT_PLACEHOLDER : string := "[REDACTED]".

(** ** Text masks *)

(** [placeholder] when nothing would be hidden. *)
Definition mask_keep (text : string) (keep_first keep_last : nat) (ch placeholder : string) : string :=
  let cs := chars text in
  match cs with
  | [] => ""
  | _ =>
      if bool_decide (Z.of_nat (length cs) <= sat_add USIZE_MAX (Z.of_nat keep_first) (Z.of_nat keep_last))
      then placeholder
      else of_chars (imap (fun i c => if ((i <? keep_first) || (length cs - keep_last <=? i))%nat then c else ch) cs)
  end.

Inductive NameStyle := Head | Tail | Full.

Definition mask_name (text : string) (style : NameStyle) (ch : string) : string :=
  let cs := chars text in
  match cs with
  | [] => ""
  | [_] => ch
  | c :: _ =>
      match style with
      | Head => of_chars (c :: replicate (length cs - 1) ch)
      | Tail => of_chars (replicate (length cs - 1) ch ++ option_list (last cs))
      | Full => of_chars (replicate (length cs) ch)
      end
  end.

(** [rsplit_once]: at the last separator. *)
Definition rsplit_once (sep : ascii) (s : string) : option (string * string) :=
  match rev (str_split sep s) with
  | [] | [_] => None
  | l :: before => Some (join (String sep "") (rev before), l)
  end.

Definition mask_mail (text : string) (keep_first : nat) (keep_domain : bool) (ch placeholder : string) : string :=
  match rsplit_once "@" text with
  | None => placeholder
  | Some (local, domain) =>
      let local_len := length (chars local) in
      if ((local_len =? 0) || (local_len <=? keep_first))%nat then placeholder
      else (of_chars (take keep_first (chars local) ++ replicate 3 ch)
            +:+ (if keep_domain then "@" +:+ domain else ""))%string
  end.

Definition mask_domain (text : string) (keep_levels : nat) (ch placeholder : string) : string :=
  let levels := filter (fun p => p <> "") (str_split "." text) in
  if ((length levels <? keep_levels) || (keep_levels =? 0))%nat then placeholder
  else (of_chars (replicate 3 ch) +:+ "." +:+ join "." (drop (length levels - keep_levels) levels))%string.

(** ** Address masks *)

(** A network of the [ipnet] crate: its first address and its prefix length. *)
Record Net := mkNet { network : Z; prefix_len : Z }.
Inductive IpPool := Pool4 (n : Net) | Pool6 (n : Net).

(** A network of addresses of [w] bits. *)
Definition net_wf (w : Z) (n : Net) : Prop :=
  0 <= prefix_len n <= w /\ 0 <= network n < 2 ^ w /\ network n mod 2 ^ (w - prefix_len n) = 0.

(** [DEFAULT_IPV4_POOL] and [DEFAULT_IPV6_POOL]: 240.0.0.0/4, 2001:db8::/32. *)
Definition default_pool_v4 : Net := mkNet (240 * 2 ^ 24) 4.
Definition default_pool_v6 : Net := mkNet (0x20010db8 * 2 ^ 96) 32.

Definition select_pool_v4 (pool : option IpPool) : Net :=
  match pool with Some (Pool4 n) => n | _ => default_pool_v4 end.
Definition select_pool_v6 (pool : option IpPool) : Net :=
  match pool with Some (Pool6 n) => n | _ => default_pool_v6 end.

(** [from_be_bytes], [octets] *)
Definition be_bytes (l : list Z) : Z := foldl (fun acc b => acc * 256 + b) 0 l.
Definition octets_of (n : nat) (a : Z) : list Z := (fun i => Z.shiftr a (8 * (Z.of_nat (n - 1 - i))) mod 256) <$> seq 0 n.

Definition host_mask (w host_bits : Z) : Z := Z.ones w ≫ (w - host_bits).

Section Masks.
Context `{PrivacyCrates}.

Definition map_ip (w : Z) (len : nat) (tag : Z) (ip : Z) (salt : list Z) (pool : Net) : Z :=
  let mac := hmac_sha256 salt (tag :: octets_of len ip) in
  let host := Z.land (be_bytes (take len mac)) (host_mask w (w - prefix_len pool)) in
  Z.lor (network pool) host.

Definition map_ipv4 : Z -> list Z -> Net -> Z := map_ip 32 4 4.
Definition map_ipv6 : Z -> list Z -> Net -> Z := map_ip 128 16 6.

(** ** The operators *)

Inductive MaskKind := MText | MIp | MMobile | MIdCard | MMail | MDomain | MName | MAddress | MCompany | MKeyMsg.
Inductive OnError := Placeholder | Fail.

Record Mask := mkMask {
  kind : MaskKind; keep_first : option nat; keep_last : option nat; keep_levels : option nat;
  keep_domain : option bool; name_style : option NameStyle; char : option string;
  placeholder_ : option string; on_error : OnError; pool : option IpPool; allow_unsalted : bool;
}.

Definition mask_char (m : Mask) : string := default DEFAULT_MASK_CHAR (char m).
Definition placeholder (m : Mask) : string := default DEFAULT_PLACEHOLDER (placeholder_ m).

Inductive HashAlgo := Sha256 | Sha1 | Md5.
Inductive Encoding := Hex_ | Base64Url.
Record Hash := mkHash { algo : HashAlgo; encoding : Encoding; truncate : option nat }.
Record Tokenize := mkTokenize { prefix : string }.

Definition xor_bytes (k : Z) (l : list Z) : list Z := (fun b => Z.lxor b k) <$> l.

Definition hmac_md5 (key msg : list Z) : list Z :=
  let key_block := if (64 <? length key)%nat then md5_compute key else key in
  let key_block := resize 64 0 key_block in
  let inner_digest := md5_compute (xor_bytes 0x36 key_block ++ msg) in
  md5_compute (xor_bytes 0x5c key_block ++ inner_digest).

Definition digest (algo : HashAlgo) (key msg : list Z) : list Z :=
  match algo with
  | Sha256 => hmac_sha256 key msg
  | Sha1 => hmac_sha1 key msg
  | Md5 => hmac_md5 key msg
  end.

Context `{OmlTypes} {F St : Type} `{!OmlData F St} `{!ValueText}.

(** [value_text]: the text of a scalar. *)
Definition value_text (v : Value) : option string :=
  match v with
  | Chars v | Symbol v | Domain v | Url v | Email v | IdCard v | MobilePhone v => Some v
  | IpAddrV v => Some (show_ip v)
  | IpNetV v => Some (show_ipnet v)
  | IntV v => Some (pretty v)
  | FloatV v => Some (show_float v)
  | BoolV v => Some (if v then "true" else "false")
  | Hex v => Some (show_hex v)
  | BigUint v => Some (pretty v)
  | _ => None
  end.

Definition is_missing (v : Value) : bool := match v with Null | Ignore_ => true | _ => false end.

(** The three operators on a field: missing and empty values pass, a value
    without a text is [bad]. *)
Definition on_value (in_val : F) (bad : F) (k : string -> F) : F :=
  match value_text (f_value in_val) with
  | None => if is_missing (f_value in_val) then in_val else bad
  | Some text => if bool_decide (text = "") then in_val else k text
  end.

Definition mask_fallback (m : Mask) (name : string) : F := mk_chars name (placeholder m).

Definition mask_text (m : Mask) (text : string) : string :=
  let ch := mask_char m in
  let ph := placeholder m in
  match kind m with
  | MMobile => mask_keep text 0 (default 4 (keep_last m))%nat ch ph
  | MIdCard => mask_keep text (default 6 (keep_first m))%nat (default 4 (keep_last m))%nat ch ph
  | MMail => mask_mail text (default 1 (keep_first m))%nat (default true (keep_domain m)) ch ph
  | MDomain => mask_domain text (default 2 (keep_levels m))%nat ch ph
  | MName => mask_name text (default Head (name_style m)) ch
  | MAddress => mask_keep text (default 6 (keep_first m))%nat (default 0 (keep_last m))%nat ch ph
  | MCompany => mask_keep text (default 4 (keep_first m))%nat (default 0 (keep_last m))%nat ch ph
  | MKeyMsg | MIp => ph
  | MText =>
      match keep_first m, keep_last m with
      | None, None => ph
      | f, l => mask_keep text (default 0 f)%nat (default 0 l)%nat ch ph
      end
  end.

Definition map_address (m : Mask) (salt : list Z) (ip : ip_addr) : ip_addr :=
  match ip with
  | V4 a => V4 (map_ipv4 a salt (select_pool_v4 (pool m)))
  | V6 a => V6 (map_ipv6 a salt (select_pool_v6 (pool m)))
  end.

Definition mask_ip (m : Mask) (secrets : Secrets) (name text : string) : F :=
  match parse_ip (str_trim text) with
  | None => mask_fallback m name
  | Some ip =>
      match get_secret secrets DEFAULT_SALT_NAME with
      | Some salt => mk_ip name (map_address m salt ip)
      | None => if allow_unsalted m then mk_ip name (map_address m [] ip) else mask_fallback m name
      end
  end.

Definition mask_value (m : Mask) (secrets : Secrets) (in_val : F) : F :=
  let name := f_name in_val in
  on_value in_val (mask_fallback m name) (fun text =>
    match kind m with
    | MIp => mask_ip m secrets name text
    | _ => mk_chars name (mask_text m text)
    end).

Definition hash_text (h : Hash) (salt : list Z) (text : string) : string :=
  let raw := digest (algo h) salt (as_bytes text) in
  let encoded := match encoding h with Hex_ => hex_encode raw | Base64Url => base64_url_encode raw end in
  match truncate h with Some limit => of_chars (take limit (chars encoded)) | None => encoded end.

Definition hash_value (h : Hash) (secrets : Secrets) (in_val : F) : F :=
  let name := f_name in_val in
  let redacted := mk_chars name "[REDACTED]" in
  on_value in_val redacted (fun text =>
    match get_secret secrets DEFAULT_SALT_NAME with
    | None => redacted
    | Some salt => mk_chars name (hash_text h salt text)
    end).

Definition AES_GCM_NONCE_LEN : nat := 12.

(** [nonce] is what the random generator gives this call. *)
Definition encrypt_token (nonce key plain : list Z) : option (list Z) :=
  (fun ciphertext => nonce ++ ciphertext) <$> aes_gcm_encrypt key nonce plain.

Definition detokenize (token : string) (key : list Z) (prefix : string) : option string :=
  match strip_prefix token prefix with
  | None => None
  | Some payload =>
      match base64_url_decode payload with
      | None => None
      | Some raw =>
          if (length raw <=? AES_GCM_NONCE_LEN)%nat then None
          else match aes_gcm_decrypt key (take AES_GCM_NONCE_LEN raw) (drop AES_GCM_NONCE_LEN raw) with
               | None => None
               | Some plain => string_from_utf8 plain
               end
      end
  end.

Definition tokenize_value (t : Tokenize) (secrets : Secrets) (nonce : list Z) (in_val : F) : F :=
  let name := f_name in_val in
  let redacted := mk_chars name "[REDACTED]" in
  on_value in_val redacted (fun text =>
    match get_secret secrets DEFAULT_KEY_NAME with
    | None => redacted
    | Some key =>
        match encrypt_token nonce key (as_bytes text) with
        | None => redacted
        | Some payload => mk_chars name (prefix t +:+ base64_url_encode payload)%string
        end
    end).

(** [remove]: the marker the emission of a target deletes it by. *)
Definition remove_value (in_val : F) : F := field_new TIgnore (f_name in_val) Null.

End Masks.

(** The tests' examples. *)
Example mask_mobile : mask_keep "13800138000" 0 4 "*" "[REDACTED]" = "*******8000".
Proof. vm_compute. reflexivity. Qed.
Example mask_mail_ex : mask_mail "alice@example.com" 1 true "*" "[REDACTED]" = "a***@example.com".
Proof. vm_compute. reflexivity. Qed.
Example mask_domain_ex : mask_domain "api.example.com" 2 "*" "[REDACTED]" = "***.example.com".
Proof. vm_compute. reflexivity. Qed.
