(* ===== verification/OmlPipe.v ===== *)
(** The pipe functions of OML
    ([src/crates/wp-oml/src/core/evaluator/transform/pipe/],
    [language/syntax/functions/pipe/]), the implementation of [OmlEval]'s
    interface [PipeApi].

    Base64, the character sets, URLs, HTML and JSON escapes, JSON text and the
    calendar are other crates'; paths are the language's library.  The word
    extraction of [extract_word.rs] is an argument.  Warnings and diagnostics
    are left out. *)
From Stdlib Require Import ZArith Lia String Ascii.
From Stdlib Require Import Floats.SpecFloat.
From stdpp Require Import prelude strings gmap pretty.
From S2P Require Import Prelude F64 Text DataModel OmlData OmlSql OmlEval OmlPrivacy.
Local Open Scope string_scope.
Local Open Scope list_scope.
Local Open Scope Z_scope.
Local Open Scope wp_scope.

(** ** Base64 ([base64.rs]) *)

Inductive EncodeType :=
  | Utf8 | Utf16le | Utf16be | Windows949 | EucJp | Windows31j | Iso2022Jp | Gbk | Gb18030 | HZ | Big52003
  | MacCyrillic | Windows874 | Windows1250 | Windows1251 | Windows1252 | Windows1253 | Windows1254 | Windows1255
  | Windows1256 | Windows1257 | Windows1258 | Ascii | Ibm866 | Iso88591 | Iso88592 | Iso88593 | Iso88594 | Iso88595
  | Iso88596 | Iso88597 | Iso88598 | Iso885910 | Iso885913 | Iso885914 | Iso885915 | Iso885916 | Koi8R | Koi8U
  | MacRoman | Imap.

(** The character sets of [encoding_rs]. *)
Inductive Charset :=
  | UTF_16LE | UTF_16BE | EUC_JP | SHIFT_JIS | ISO_2022_JP | GB18030 | BIG5 | X_MAC_CYRILLIC | WINDOWS (n : Z)
  | IBM866 | ISO_8859 (n : Z) | KOI8_R | KOI8_U | MACINTOSH.

Inductive Decoder := DecImap | DecUtf8Lossy | DecCharset (c : Charset).

(** How a declared encoding is read; some are read as a near one. *)
Definition decoder_of (e : EncodeType) : Decoder :=
  match e with
  | Imap => DecImap
  | Utf8 | HZ | Ascii => DecUtf8Lossy
  | Utf16le => DecCharset UTF_16LE | Utf16be => DecCharset UTF_16BE | EucJp => DecCharset EUC_JP
  | Windows31j => DecCharset SHIFT_JIS | Iso2022Jp => DecCharset ISO_2022_JP
  | Gbk | Gb18030 | Windows949 => DecCharset GB18030
  | Big52003 => DecCharset BIG5 | MacCyrillic => DecCharset X_MAC_CYRILLIC
  | Windows874 => DecCharset (WINDOWS 874) | Windows1250 => DecCharset (WINDOWS 1250)
  | Windows1251 => DecCharset (WINDOWS 1251) | Windows1252 | Iso88591 => DecCharset (WINDOWS 1252)
  | Windows1253 => DecCharset (WINDOWS 1253) | Windows1254 => DecCharset (WINDOWS 1254)
  | Windows1255 => DecCharset (WINDOWS 1255) | Windows1256 => DecCharset (WINDOWS 1256)
  | Windows1257 => DecCharset (WINDOWS 1257) | Windows1258 => DecCharset (WINDOWS 1258)
  | Ibm866 => DecCharset IBM866
  | Iso88592 => DecCharset (ISO_8859 2) | Iso88593 => DecCharset (ISO_8859 3) | Iso88594 => DecCharset (ISO_8859 4)
  | Iso88595 => DecCharset (ISO_8859 5) | Iso88596 => DecCharset (ISO_8859 6) | Iso88597 => DecCharset (ISO_8859 7)
  | Iso88598 => DecCharset (ISO_8859 8) | Iso885910 => DecCharset (ISO_8859 10)
  | Iso885913 => DecCharset (ISO_8859 13) | Iso885914 => DecCharset (ISO_8859 14)
  | Iso885915 => DecCharset (ISO_8859 15) | Iso885916 => DecCharset (ISO_8859 16)
  | Koi8R => DecCharset KOI8_R | Koi8U => DecCharset KOI8_U | MacRoman => DecCharset MACINTOSH
  end.

(** ** Syntax *)

Inductive PathType := PathDefault | FileName | Path.
Inductive UrlType := UrlDefault | UrlDomain | HttpReqHost | HttpReqUri | HttpReqPath | HttpReqParams.
Inductive TimeStampUnit := MS | US | SS.
Inductive MapValue := MapChars (s : string) | MapDigit (d : Z) | MapFloat (f : spec_float) | MapBool (b : bool).

Inductive PipeFun :=
  | Base64Encode | Base64Decode (encode : EncodeType)
  | HtmlEscape | HtmlUnescape | StrEscape | JsonEscape | JsonUnescape
  | TimeToTs (zone : option Z) | TimeToTsMs (zone : option Z) | TimeToTsUs (zone : option Z)
  | TimeToTsZone (unit : TimeStampUnit) (zone : Z)
  | TimeFromTs (zone : option Z) | TimeFromTsMs (zone : option Z) | TimeFromTsUs (zone : option Z)
  | Nth (index : nat) | Get (name : string) | OnFail (value : string) | StartsWith (prefix : string)
  | MapTo (value : MapValue) | ToStr | ToJson | SkipEmpty | Dumb
  | PathGet (key : PathType) | UrlGet (key : UrlType)
  | Ip4ToInt | IpToBigUint | IntranetIp | IntranetReplace (replace : option ip_addr)
  | ExtractMainWord | ExtractSubjectObject (debug : bool)
  | PMask (m : Mask) | PHash (h : Hash) | PTokenize (t : Tokenize) | Remove.

(** ** Paths and escapes of the language's library *)

(** The components of a Unix path as its segments between separators: the last
    ones that say nothing are dropped; a leading [.] is a component. *)
Fixpoint drop_idle (rooted : bool) (rev_segs : list string) : list string :=
  match rev_segs with
  | [] => []
  | s :: before =>
      if bool_decide (s = "")
         || (bool_decide (s = ".") && (rooted || negb (bool_decide (before = []))))
      then drop_idle rooted before else rev_segs
  end.

Definition path_segments (p : string) : bool * list string :=
  let rooted := starts_with p "/" in (rooted, drop_idle rooted (rev (str_split "/" p))).

(** [Path::parent] *)
Definition path_parent (p : string) : option string :=
  match path_segments p with
  | (_, []) => None
  | (rooted, _ :: before) =>
      match drop_idle rooted before with
      | [] => Some (if rooted then "/" else "")
      | l => Some (join "/" (rev l))
      end
  end.

(** [Path::file_name]: the last component unless it is [.] or [..]. *)
Definition path_file_name (p : string) : option string :=
  match path_segments p with
  | (_, s :: _) => if bool_decide (s = ".") || bool_decide (s = "..") then None else Some s
  | _ => None
  end.

Definition slashes (s : string) : string :=
  map_string (fun c => if Ascii.eqb c "\" then "/"%char else c) s.

(** [char::escape_default] of a character given as its UTF-8 bytes. *)
Definition char_code (c : string) : Z :=
  match as_bytes c with
  | [a] => a
  | [a; b] => (a mod 32) * 64 + b mod 64
  | [a; b; c] => (a mod 16) * 4096 + (b mod 64) * 64 + c mod 64
  | [a; b; c; d] => (a mod 8) * 262144 + (b mod 64) * 4096 + (c mod 64) * 64 + d mod 64
  | _ => 0
  end.

Fixpoint hex_digits (fuel : nat) (n : Z) : string :=
  match fuel with
  | O => ""
  | S fuel => if n <? 16 then hex_digit n else (hex_digits fuel (n / 16) +:+ hex_digit (n mod 16))%string
  end.

Definition escape_default (c : string) : string :=
  let n := char_code c in
  if n =? 9 then "\t" else if n =? 13 then "\r" else if n =? 10 then "\n"
  else if (n =? 39) || (n =? 34) || (n =? 92) then String "\" c
  else if (32 <=? n) && (n <=? 126) then c
  else ("\u{" +:+ hex_digits 6 n +:+ "}")%string.

(** ** Crates *)

Class PipeCrates `{OmlTypes} := {
  base64_encode : string -> string;
  base64_decode : string -> option (list Z);
  escape_byte_string : list Z -> string;
  from_utf8_lossy : list Z -> string;
  charset_decode : Charset -> list Z -> string;
  html_encode_safe : string -> string;
  html_decode : string -> string;
  json_escape : string -> string;
  json_unescape : string -> option string;
  json_format : Value -> string;
  (* [url] *)
  Url_ : Type;
  url_parse : string -> option Url_;
  url_domain : Url_ -> option string;
  url_host_str : Url_ -> option string;
  url_port : Url_ -> option Z;
  url_before_path : Url_ -> string;
  url_path : Url_ -> string;
  url_query : Url_ -> option string;
  (* [chrono]: a local time at an offset in seconds as a timestamp, and back *)
  local_timestamp : TimeStampUnit -> TimeT -> Z -> option Z;
  from_timestamp : TimeStampUnit -> Z -> option TimeT;
  with_offset : TimeT -> Z -> TimeT;
}.

(** [FixedOffset::east_opt]: less than a day. *)
Definition east_opt (secs : Z) : option Z := if (-86400 <? secs) && (secs <? 86400) then Some secs else None.

Definition I32_MAX : Z := 2147483647.
Definition I32_MIN : Z := -2147483648.

(** [i32::saturating_mul] by an hour's seconds. *)
Definition zone_offset (zone_hours : Z) : option Z := east_opt (Z.max I32_MIN (Z.min I32_MAX (zone_hours * 3600))).

(** ** Addresses as numbers ([net.rs]) *)

Definition ip_to_biguint (ip : ip_addr) : N :=
  match ip with V4 a => Z.to_N a | V6 a => Z.to_N (a + 340282366920938463463374607431768211456) end.

(** An IPv4 address mapped into IPv6 counts as IPv4. *)
Definition normalize_family (ip : ip_addr) : ip_addr :=
  match ip with
  | V6 a => match to_ipv4_mapped a with Some v4 => V4 v4 | None => ip end
  | V4 _ => ip
  end.

Definition MASK_DEFAULT_V4 : Z := 192 * 2 ^ 24 + 0 * 2 ^ 16 + 2 * 2 ^ 8 + 1.
Definition MASK_DEFAULT_V6 : Z := 0x2001 * 2 ^ 112 + 0x0db8 * 2 ^ 96 + 1.

Section Pipe.
Context `{OmlTypes} {F St : Type} `{!OmlData F St} `{!OmlEnv St} `{!PrivacyCrates} `{!ValueText} `{!PipeCrates}.
(** The secrets registered, the random nonce of a call, the word extraction. *)
Variables (secrets : Secrets) (nonce_of : F -> list Z) (extract_word : PipeFun -> F -> F).

(** A function of texts only. *)
Definition on_chars (in_val : F) (f : string -> F) : F :=
  match f_value in_val with Chars x => f x | _ => in_val end.

Definition decode_text (e : EncodeType) (code : list Z) : string :=
  match decoder_of e with
  | DecImap => escape_byte_string code
  | DecUtf8Lossy => from_utf8_lossy code
  | DecCharset c => charset_decode c code
  end.

Definition base64_decode_value (e : EncodeType) (in_val : F) : F :=
  on_chars in_val (fun x =>
    match base64_decode x with Some code => mk_chars (f_name in_val) (decode_text e code) | None => in_val end).

(** *** Time ([time.rs]) *)

Definition time_to_ts_value (in_val : F) (zone : option Z) (unit : TimeStampUnit) : option F :=
  match f_value in_val with
  | TimeV x =>
      match zone_offset (default 8 zone) with
      | Some tz => (fun ts => mk_int (f_name in_val) ts) <$> local_timestamp unit x tz
      | None => None
      end
  | _ => None
  end.

Definition ts_to_time_value (in_val : F) (zone : option Z) (unit : TimeStampUnit) : option F :=
  match f_value in_val with
  | IntV x =>
      match from_timestamp unit x with
      | Some dt => (fun tz => mk_time (f_name in_val) (with_offset dt tz)) <$> zone_offset (default 8 zone)
      | None => None
      end
  | _ => None
  end.

(** *** Arrays and objects ([array_obj.rs]) *)

Definition nth_value (index : nat) (in_val : F) : F :=
  match f_value in_val with
  | ArrayV arr => match arr_items arr !! index with Some found => as_field found | None => in_val end
  | _ => in_val
  end.

Definition skip_empty_value (in_val : F) : F :=
  let empty :=
    match f_value in_val with
    | ArrayV x => bool_decide (arr_items x = [])
    | IntV x => x =? 0
    | FloatV x => feq x (S754_zero false)
    | Chars x => bool_decide (x = "")
    | ObjV x => obj_is_empty x
    | _ => false
    end in
  if empty then from_ignore (f_name in_val) else in_val.

(** The walk of [Get]: the object found so far replaces the field's own one; a
    key it does not have, or whose value is no object, is passed over. *)
Fixpoint get_walk (obj : ObjectT) (keys : list string) : ObjectT + F :=
  match keys with
  | [] => inl obj
  | key :: keys =>
      match obj_get obj key with
      | Some val =>
          match keys with
          | [] => inr (as_field val)
          | _ => get_walk (match f_value (as_field val) with ObjV o => o | _ => obj end) keys
          end
      | None => get_walk obj keys
      end
  end.

Definition get_value (name : string) (in_val : F) : F :=
  match f_value in_val with
  | ObjV obj =>
      match get_walk obj (str_split "/" name) with
      | inr found => found
      | inl obj => f_set_value in_val (ObjV obj)
      end
  | _ => in_val
  end.

(** [get_from_obj]: the walk of [Get]'s own [value_cacu_storage], which no pipe
    reaches, since [PipeFun] does not pass the call on. *)
Fixpoint get_from_obj (obj : ObjectT) (keys : list string) : option St :=
  match keys with
  | [] => None
  | key :: keys =>
      match obj_get obj key with
      | None => None
      | Some val =>
          match keys with
          | [] => Some val
          | _ => match f_value (as_field val) with ObjV nested => get_from_obj nested keys | _ => None end
          end
      end
  end.

Definition get_value_storage (name : string) (in_val : St) : St :=
  let found :=
    if is_shared in_val
    then match f_value (as_field in_val) with ObjV obj => get_from_obj obj (str_split "/" name) | _ => None end
    else None in
  match found with Some result => result | None => from_owned (get_value name (into_owned in_val)) end.

(** *** Tests and replacements ([other.rs]) *)

Definition starts_with_value (prefix : string) (in_val : F) : F :=
  match f_value in_val with
  | Chars value => if starts_with value prefix then in_val else from_ignore (f_name in_val)
  | _ => from_ignore (f_name in_val)
  end.

Definition on_fail_value (value : string) (in_val : F) : F :=
  match f_value in_val with Ignore_ | Null => mk_chars (f_name in_val) value | _ => in_val end.

Definition map_to_value (value : MapValue) (in_val : F) : F :=
  match f_value in_val with
  | Ignore_ => in_val
  | _ =>
      let name := f_name in_val in
      match value with
      | MapChars s => mk_chars name s
      | MapDigit d => mk_int name d
      | MapFloat f => mk_float name f
      | MapBool b => mk_bool name b
      end
  end.

Definition to_str_value (in_val : F) : outcome F :=
  match f_value in_val with
  | Chars _ => Ret in_val
  | IpAddrV ip => Ret (mk_chars (f_name in_val) (show_ip ip))
  | _ => Panic (* [unimplemented!] *)
  end.

(** *** Paths and URLs ([path_url.rs]) *)

Definition path_get_text (key : PathType) (x : string) : string :=
  let x := slashes x in
  match key with
  | PathDefault => x
  | Path => default x (path_parent x)
  | FileName => default x (path_file_name x)
  end.

Definition url_get_text (key : UrlType) (x : string) : string :=
  match url_parse x with
  | None => x
  | Some url =>
      match key with
      | UrlDomain => default x (url_domain url)
      | HttpReqHost => (default "" (url_host_str url)
                        +:+ match url_port url with Some p => ":" +:+ pretty p | None => "" end)%string
      | HttpReqUri => url_before_path url
      | HttpReqPath => url_path url
      | HttpReqParams => default "" (url_query url)
      | UrlDefault => x
      end
  end.

(** *** Addresses ([net.rs]) *)

Definition null_field_like (field : F) : F := field_new type_default (f_name field) Null.

(** What is no address is a reported error; the field is empty all the same. *)
Definition ip_to_biguint_value (in_val : F) : F :=
  match f_value in_val with
  | IpAddrV ip => field_new TBigInt (f_name in_val) (BigUint (ip_to_biguint ip))
  | _ => null_field_like in_val
  end.

Definition ip4_to_int_value (in_val : F) : F :=
  match f_value in_val with
  | IpAddrV (V4 v4) => mk_int (f_name in_val) v4
  | IpAddrV (V6 _) => null_field_like in_val
  | Chars value =>
      let value := str_trim value in
      if bool_decide (value = "") then null_field_like in_val
      else match parse_ipv4 value with Some ip => mk_int (f_name in_val) ip | None => null_field_like in_val end
  | _ => in_val
  end.

Definition side (ip : ip_addr) : string := if is_intranet ip then "LAN" else "WAN".

Definition intranet_ip_value (in_val : F) : F :=
  let ignore := from_ignore (f_name in_val) in
  match f_value in_val with
  | IpAddrV ip => mk_chars (f_name in_val) (side ip)
  | Chars value =>
      let value := str_trim value in
      if bool_decide (value = "") then ignore
      else match parse_ip value with Some ip => mk_chars (f_name in_val) (side ip) | None => ignore end
  | Null | Ignore_ => ignore
  | _ => in_val
  end.

Definition intranet_mask (replace : option ip_addr) (raw : ip_addr) (in_val : F) : F :=
  let ip := normalize_family raw in
  if negb (is_intranet ip) then in_val
  else match replace with
       | Some explicit =>
           let explicit := normalize_family explicit in
           if negb (Bool.eqb (is_ipv4 explicit) (is_ipv4 ip)) then from_ignore (f_name in_val)
           else mk_ip (f_name in_val) explicit
       | None => mk_ip (f_name in_val) (if is_ipv4 ip then V4 MASK_DEFAULT_V4 else V6 MASK_DEFAULT_V6)
       end.

Definition intranet_replace_value (replace : option ip_addr) (in_val : F) : F :=
  match f_value in_val with IpAddrV ip => intranet_mask replace ip in_val | _ => in_val end.

(** *** All functions ([mod.rs]) *)

Definition pipe_value_cacu (p : PipeFun) (in_val : F) : outcome F :=
  let text (f : string -> string) := on_chars in_val (fun x => mk_chars (f_name in_val) (f x)) in
  let keep (o : option F) := default in_val o in
  match p with
  | Base64Encode => Ret (text base64_encode)
  | Base64Decode e => Ret (base64_decode_value e in_val)
  | HtmlEscape => Ret (text html_encode_safe)
  | HtmlUnescape => Ret (text html_decode)
  | StrEscape => Ret (text (fun x => of_chars (escape_default <$> chars x)))
  | JsonEscape => Ret (text json_escape)
  | JsonUnescape => Ret (on_chars in_val (fun x =>
      match json_unescape x with Some json => mk_chars (f_name in_val) json | None => in_val end))
  | TimeToTs zone => Ret (keep (time_to_ts_value in_val zone SS))
  | TimeToTsMs zone => Ret (keep (time_to_ts_value in_val zone MS))
  | TimeToTsUs zone => Ret (keep (time_to_ts_value in_val zone US))
  | TimeToTsZone unit zone => Ret (keep (time_to_ts_value in_val (Some zone) unit))
  | TimeFromTs zone => Ret (keep (ts_to_time_value in_val zone SS))
  | TimeFromTsMs zone => Ret (keep (ts_to_time_value in_val zone MS))
  | TimeFromTsUs zone => Ret (keep (ts_to_time_value in_val zone US))
  | Nth index => Ret (nth_value index in_val)
  | Get name => Ret (get_value name in_val)
  | OnFail value => Ret (on_fail_value value in_val)
  | StartsWith prefix => Ret (starts_with_value prefix in_val)
  | MapTo value => Ret (map_to_value value in_val)
  | ToStr => to_str_value in_val
  | ToJson => Ret (field_new TJson (f_name in_val) (Chars (json_format (f_value in_val))))
  | SkipEmpty => Ret (skip_empty_value in_val)
  | Dumb => Panic (* [todo!] *)
  | PathGet key => Ret (text (path_get_text key))
  | UrlGet key => Ret (text (url_get_text key))
  | Ip4ToInt => Ret (ip4_to_int_value in_val)
  | IpToBigUint => Ret (ip_to_biguint_value in_val)
  | IntranetIp => Ret (intranet_ip_value in_val)
  | IntranetReplace replace => Ret (intranet_replace_value replace in_val)
  | ExtractMainWord | ExtractSubjectObject _ => Ret (extract_word p in_val)
  | PMask m => Ret (mask_value m secrets in_val)
  | PHash h => Ret (hash_value h secrets in_val)
  | PTokenize t => Ret (tokenize_value t secrets (nonce_of in_val) in_val)
  | Remove => Ret (remove_value in_val)
  end.

Definition pipe_fun_api : PipeApi PipeFun F := {|
  value_cacu := pipe_value_cacu;
  pf_is_remove p := match p with Remove => true | _ => false end
|}.

End Pipe.

(** Paths as the library reads them. *)
Example file_name_ex : path_file_name "C:/Users/x/a.dll" = Some "a.dll". Proof. vm_compute. reflexivity. Qed.
Example parent_ex : path_parent "/a//b/./" = Some "/a". Proof. vm_compute. reflexivity. Qed.
Example parent_root : path_parent "/" = None /\ path_parent "/a" = Some "/" /\ path_parent "a" = Some "".
Proof. vm_compute. auto. Qed.
Example escape_ex : of_chars (escape_default <$> chars "é'") = "\u{e9}\'". Proof. vm_compute. reflexivity. Qed.

(** * Laws

    What the pipe functions guarantee: addresses as numbers keep
    their order, internal addresses are never passed on by [intranet_replace],
    and the two walks of [get] agree where the path exists. *)

(** ** Addresses as numbers *)

(** [ip_to_biguint] keeps the order of addresses, IPv4 before IPv6, so it
    is injective; IPv4 fills [0, 2^32) and IPv6 lies in [2^128, 2^129). *)
Theorem ip_to_biguint_order a b : ip_wf a -> ip_wf b ->
  N.compare (ip_to_biguint a) (ip_to_biguint b) = ip_compare a b
  /\ (ip_to_biguint a = ip_to_biguint b <-> a = b)
  /\ match a with
     | V4 _ => (ip_to_biguint a < 2 ^ 32)%N
     | V6 _ => (2 ^ 128 <= ip_to_biguint a < 2 ^ 129)%N
     end.
Proof.
  unfold ip_wf, ip_to_biguint, ip_compare. intros Ha Hb. split; [|split].
  - destruct a as [x|x], b as [y|y].
    + destruct (Z.compare_spec x y); [apply N.compare_eq_iff|apply N.compare_lt_iff|apply N.compare_gt_iff]; lia.
    + apply N.compare_lt_iff. lia.
    + apply N.compare_gt_iff. lia.
    + destruct (Z.compare_spec x y); [apply N.compare_eq_iff|apply N.compare_lt_iff|apply N.compare_gt_iff]; lia.
  - destruct a as [x|x], b as [y|y]; split; try (intros [= ->]; done); intros E; apply Z2N.inj in E; try lia;
      f_equal; lia.
  - destruct a as [x|x]; lia.
Qed.

Section Pipe.
Context `{OmlTypes} {F St : Type} `{!OmlData F St} `{!OmlLaws} `{!OmlEnv St} `{!PrivacyCrates} `{!ValueText} `{!PipeCrates}.

(** A public address passes [intranet_replace] as it is; an internal one
    is replaced by an address of its own family, the declared one or the
    documentation's, or the field is ignored: it is never passed on. *)
Theorem intranet_never_passes replace (f : F) ip : f_value f = IpAddrV ip ->
  let r := intranet_replace_value replace f in
  (is_intranet (normalize_family ip) = false /\ r = f)
  \/ (is_intranet (normalize_family ip) = true
      /\ ((exists e, replace = Some e /\ is_ipv4 (normalize_family e) <> is_ipv4 (normalize_family ip)
                     /\ r = from_ignore (f_name f))
          \/ exists to, r = mk_ip (f_name f) to /\ is_ipv4 to = is_ipv4 (normalize_family ip)
               /\ (to = V4 MASK_DEFAULT_V4 \/ to = V6 MASK_DEFAULT_V6
                   \/ exists e, replace = Some e /\ to = normalize_family e))).
Proof.
  intros Hf. cbv zeta. unfold intranet_replace_value, intranet_mask. rewrite Hf.
  destruct (is_intranet (normalize_family ip)); [right|left; done]. split; [done|]. cbn [negb].
  destruct replace as [e|].
  - destruct (Bool.eqb (is_ipv4 (normalize_family e)) (is_ipv4 (normalize_family ip))) eqn:E; cbn [negb].
    + right. exists (normalize_family e). apply Bool.eqb_prop in E. eauto 8.
    + left. exists e. apply Bool.eqb_false_iff in E. done.
  - right. destruct (is_ipv4 (normalize_family ip)); eauto 8.
Qed.

(** ** Paths into objects *)

(** Where every step of a path exists, [get] answers the value there, as
    the strict walk of the shared objects does; where the strict walk misses a
    key, [get] passes over it and looks the rest of the path up in the object it
    has. *)
Theorem get_follows_path obj k keys :
  (forall s, get_from_obj obj (k :: keys) = Some s -> get_walk (F := F) (St := St) obj (k :: keys) = inr (as_field s))
  /\ (obj_get obj k = None ->
      get_from_obj obj (k :: keys) = None /\ get_walk (F := F) (St := St) obj (k :: keys) = get_walk obj keys).
Proof.
  split; [|intros E; cbn; by rewrite E].
  intros s. generalize (k :: keys). clear k keys. intros keys. revert obj.
  induction keys as [|k keys IH]; intros obj; cbn; [done|].
  destruct (obj_get obj k) as [v|]; [|done]. destruct keys as [|k' keys]; [by intros [= ->]|].
  destruct (f_value (as_field v)); try done. apply IH.
Qed.

End Pipe.
