(* ===== verification/OmlModelLaws.v ===== *)
(** What a statement does to the records ([OmlEval]): evaluating an expression
    only takes fields out of them, a statement adds at most one field under its
    target's name, and a wildcard statement moves fields without loss. *)
From Stdlib Require Import ZArith Lia String.
From stdpp Require Import prelude strings gmap.
From S2P Require Import Prelude F64 Text DataModel OmlData OmlAccessLaws OmlCalc OmlMatch OmlSql OmlEval OmlEvalLaws.
Local Open Scope string_scope.
Local Open Scope list_scope.
Local Open Scope wp_scope.

Section Model.
Context `{OmlTypes} {F St PF : Type} `{!OmlData F St} `{!OmlLaws} `{WildMatch} `{UnicodeCase}.
Context `{!PipeApi PF F} `{!OmlEnv St} `{!KnowledgeApi (F := F)}.
Variable now : LocalNow.

Notation ev := (ev (F := F) (St := St)).
Notation PreciseEvaluator := (PreciseEvaluator (F := F) (PF := PF)).
Notation NestedAccessor := (NestedAccessor (F := F) (PF := PF)).

(** ** Evaluations that only take fields out *)

Definition shrinks {A} (m : ev A) : Prop := forall src dst r s d,
  m src dst = Ret (r, (s, d)) -> s `sublist_of` src /\ d `sublist_of` dst.

Lemma shrinks_bind {A B} (m : ev A) (k : A -> ev B) : shrinks m -> (forall a, shrinks (k a)) -> shrinks (ebind m k).
Proof.
  intros Hm Hk src dst r s d. unfold ebind. destruct (m src dst) as [[a [s' d']]|] eqn:E; [|done]. intros E'.
  destruct (Hm _ _ _ _ _ E), (Hk _ _ _ _ _ _ E'). split; by etrans.
Qed.

Lemma shrinks_ret {A} (a : A) : shrinks (eret a).
Proof. intros src dst r s d [= <- <- <-]. done. Qed.

Lemma shrinks_panic {A} : shrinks (A := A) epanic.
Proof. done. Qed.

Lemma shrinks_lift {A} (o : outcome A) : shrinks (lift o).
Proof. intros src dst r s d. unfold lift. destruct o; [intros [= <- <- <-]|]; done. Qed.

Lemma shrinks_map {A B} (m : ev A) (f : A -> B) : shrinks m -> shrinks (ebind m (fun a => eret (f a))).
Proof. intros Hm. apply shrinks_bind; [done|intros ?; apply shrinks_ret]. Qed.

Lemma shrinks_own m : shrinks m -> shrinks (own m).
Proof. apply shrinks_map. Qed.

Lemma shrinks_direct a t : shrinks (direct_extract_one a t).
Proof.
  intros src dst r s d E. destruct (direct_access a t src dst) as (r' & s' & d' & E' & Hs & Hd & _).
  rewrite E in E'. by simplify_eq.
Qed.

Lemma shrinks_direct_async a t : shrinks (direct_extract_storage_async a t).
Proof.
  destruct a as [k|r]; cbn; [apply shrinks_map, (shrinks_direct (Take k))|].
  intros src dst x s d [= <- <- <-]. done.
Qed.

Hint Resolve @shrinks_ret @shrinks_panic @shrinks_lift shrinks_direct shrinks_direct_async : shrinks.
Hint Resolve @shrinks_map : shrinks.

(** The steps of an evaluation one by one. *)
Ltac shrink := repeat (first [ solve [eauto with shrinks] | apply shrinks_bind; [|intros ?]
  | progress (unfold own, direct_extract_storage)
  | match goal with |- shrinks (match ?x with _ => _ end) => destruct x end ]).

Lemma shrinks_generic g t : shrinks (generic_extract_storage now g t) /\ shrinks (generic_extract_storage_async now g t).
Proof. destruct g; split; cbn; shrink. Qed.

Lemma shrinks_record o t :
  shrinks (record_extract_one now o t) /\ shrinks (record_extract_one_async now o t)
  /\ shrinks (record_extract_storage now o t) /\ shrinks (record_extract_storage_async now o t).
Proof.
  assert (Hg : forall g, shrinks (generic_extract_storage now g t) /\ shrinks (generic_extract_storage_async now g t))
    by (intros; apply shrinks_generic).
  unfold record_extract_one, record_extract_one_async, record_extract_storage, record_extract_storage_async.
  split_and!; shrink; apply Hg.
Qed.

Lemma shrinks_calc (describe : F -> string) e t : shrinks (calc_extract_one describe e t).
Proof. apply shrinks_map. induction e; cbn; shrink; done. Qed.

Lemma shrinks_access_direct a b t : shrinks (access_direct_extract_one a b t).
Proof. unfold access_direct_extract_one. shrink. Qed.

Lemma shrinks_arr a t : shrinks (arr_extract_one a t).
Proof. intros src dst x s d [= <- <- <-]. done. Qed.

Lemma shrinks_fmt x t : shrinks (fmt_extract_one now x t).
Proof.
  apply shrinks_map. generalize (∅ : gmap string St). induction (subs x) as [|i l IH]; intros m; cbn; [apply shrinks_ret|].
  apply shrinks_bind; [apply shrinks_record|intros ?; apply IH].
Qed.

Lemma shrinks_match_source m t : shrinks (match_source (F := F) (St := St) m t).
Proof.
  destruct m as [a|l]; cbn; [shrink|]. apply shrinks_map. induction l as [|a l IH]; cbn; shrink.
Qed.

Lemma shrinks_pipe_result l t f : shrinks (pipe_result (St := St) (PF := PF) l t f).
Proof. destruct f; cbn; shrink. Qed.
Lemma shrinks_pipe_storage l t s : shrinks (pipe_result_storage (PF := PF) l t s).
Proof. destruct s; cbn; shrink. Qed.

Lemma shrinks_match {A} (ex : NestedAccessor -> EvaluationTarget -> ev (option A)) m t d l :
  Forall (of_case (fun r => shrinks (ex r t))) l -> opt_case_ok (fun r => shrinks (ex r t)) d ->
  shrinks (match_loop ex m t d l).
Proof.
  intros Hl Hd. induction Hl as [|[c r] l Hr _ IH]; cbn.
  - destruct d as [[c r]|]; [exact Hd|apply shrinks_ret].
  - apply shrinks_bind; [apply shrinks_lift|intros []; [exact Hr|exact IH]].
Qed.

Lemma shrinks_object (ex : NestedAccessor -> EvaluationTarget -> ev (option St)) l t :
  Forall (of_binding (fun a => forall t, shrinks (ex a t))) l -> shrinks (object_result t (object_loop ex l obj_default)).
Proof.
  intros Hl. apply shrinks_map. generalize obj_default.
  induction Hl as [|[t' a] l Ha _ IH]; intros o; cbn; [apply shrinks_ret|].
  apply shrinks_bind; [apply Ha|intros ?; apply IH].
Qed.

Lemma shrinks_array (ex : PreciseEvaluator -> EvaluationTarget -> ev (option F)) l t :
  Forall (fun p => forall t, shrinks (ex p t)) l -> shrinks (array_of ex l t).
Proof.
  intros Hl. apply shrinks_map. generalize (@nil F).
  induction Hl as [|p l Hp _ IH]; intros acc; cbn; [apply shrinks_ret|].
  apply shrinks_bind; [apply Hp|intros ?; apply IH].
Qed.

Definition shrinksP (p : PreciseEvaluator) : Prop := forall t,
  shrinks (eval_item_sync now p t) /\ shrinks (extract_storage_sync now p t)
  /\ shrinks (extract_one_async now p t) /\ shrinks (extract_storage_async now p t).
Definition shrinksN (n : NestedAccessor) : Prop := forall t,
  shrinks (nested_extract_one now n t) /\ shrinks (nested_extract_one_async now n t)
  /\ shrinks (nested_extract_storage_async now n t).

Lemma shrinks_storage n t : shrinks (nested_extract_one now n t) -> shrinks (nested_storage (nested_extract_one now) n t).
Proof. intros Hn. destruct n; cbn; try (by apply shrinks_map). apply shrinks_ret. Qed.

Lemma bindings_shrink l : Forall (of_binding shrinksN) l -> forall t,
  shrinks (object_result t (object_loop (fun n t => nested_storage (fun n t => nested_extract_one now n t) n t) l obj_default))
  /\ shrinks (object_result t (object_loop (fun n t => nested_extract_storage_async now n t) l obj_default)).
Proof.
  intros Hl t. split; apply shrinks_object; (eapply Forall_impl; [exact Hl|]); intros [t' a] Ha t''; destruct (Ha t'') as (A1 & A2 & A3).
  - by apply shrinks_storage.
  - exact A3.
Qed.

Lemma items_shrink l : Forall shrinksP l -> forall t,
  shrinks (array_of (fun p t => eval_item_sync now p t) l t) /\ shrinks (array_of (fun p t => extract_one_async now p t) l t).
Proof.
  intros Hl t. split; apply shrinks_array; (eapply Forall_impl; [exact Hl|]); intros p Hp t'; by destruct (Hp t') as (A1 & A2 & A3 & A4).
Qed.

Lemma cases_shrink {A} (ex : NestedAccessor -> EvaluationTarget -> ev (option A)) m l d t :
  (forall r, shrinksN r -> shrinks (ex r t)) -> Forall (of_case shrinksN) l -> opt_case_ok shrinksN d ->
  shrinks (ebind (match_source m t) (fun x => match_loop ex x t d l)).
Proof.
  intros Hr Hl Hd. apply shrinks_bind; [apply shrinks_match_source|]. intros x. apply shrinks_match.
  - eapply Forall_impl; [exact Hl|]. intros [c r] Hc. by apply Hr.
  - destruct d as [[c r]|]; [by apply Hr|done].
Qed.

Lemma pipe_shrinks s l t : source_ok shrinksP s ->
  (shrinks (eval_item_sync now (Pipe (mkPipe s l)) t) /\ shrinks (extract_storage_sync now (Pipe (mkPipe s l)) t))
  /\ shrinks (extract_one_async now (Pipe (mkPipe s l)) t) /\ shrinks (extract_storage_async now (Pipe (mkPipe s l)) t).
Proof.
  intros Hs. assert (Hd : match s with SPrecise p => shrinksP p | _ => True end) by (by destruct s).
  split_and!; cbn; (apply shrinks_bind; [|intros ?; first [apply shrinks_pipe_result | apply shrinks_pipe_storage]]);
    destruct s as [a|a b|p]; cbn;
    first [apply shrinks_direct_async | apply shrinks_direct | apply shrinks_access_direct
          | apply shrinks_map; first [apply shrinks_direct | apply shrinks_access_direct | apply Hd] | apply Hd].
Qed.

Lemma all_shrink : (forall p, shrinksP p) /\ (forall n, shrinksN n).
Proof.
  apply syntax_ind.
  - intros x t. split_and!; apply shrinks_ret.
  - intros e t. pose proof (shrinks_calc (fun _ => "") e t). split_and!; by try apply shrinks_own.
  - intros a b t. pose proof (shrinks_access_direct a b t). split_and!; by try apply shrinks_own.
  - intros m l d Hl Hd t. split_and!; apply cases_shrink; try done; intros r Hr; destruct (Hr t) as (A1 & A2 & A3); try done.
    by apply shrinks_storage.
  - intros s k d c Hk Hd t. destruct (Hk t) as (_ & _ & Ak & _). destruct (Hd t) as (_ & _ & _ & Ad).
    split; [apply shrinks_ret|]. split; [apply shrinks_ret|].
    split; (apply shrinks_bind; [done|]); intros v; (destruct (lookup_found c v); [apply shrinks_ret|]);
      [by apply shrinks_map|done].
  - intros x t. split_and!; apply shrinks_ret.
  - intros x t. split_and!; apply shrinks_ret.
  - intros x t. destruct (shrinks_record x t) as (A1 & A2 & A3 & A4). done.
  - intros l Hl t. destruct (bindings_shrink l Hl t). split_and!; by try apply shrinks_own.
  - intros l Hl t. destruct (items_shrink l Hl t). split_and!; by try apply shrinks_own.
  - intros s l Hs t. destruct (pipe_shrinks s l t Hs) as [[A1 A2] [A3 A4]]. done.
  - intros x t. split_and!; apply shrinks_ret.
  - intros x t. pose proof (shrinks_fmt x t). split_and!; by try apply shrinks_own.
  - intros x t. pose proof (shrinks_arr x t). split_and!; by try apply shrinks_own.
  - intros x t. split_and!; apply shrinks_ret.
  - intros x t. split_and!; apply shrinks_ret || apply shrinks_panic.
  - intros x t. split_and!; apply shrinks_ret.
  - intros x t. split_and!; apply shrinks_ret.
  - intros x t. destruct (shrinks_record x t) as (A1 & A2 & A3 & A4). done.
  - intros x t. split_and!; apply shrinks_ret.
  - intros x t. pose proof (shrinks_arr x t). split_and!; by try apply shrinks_own.
  - intros l Hl t. destruct (bindings_shrink l Hl t). split_and!; by try apply shrinks_own.
  - intros l Hl t. destruct (items_shrink l Hl t). split_and!; by try apply shrinks_own.
  - intros s l Hs t. destruct (pipe_shrinks s l t Hs) as [[A1 A2] [A3 A4]]. done.
  - intros x t. split_and!; apply shrinks_panic.
Qed.
(** ** What a statement adds *)

Lemma conv_name (f : F) t : f_name f = safe_name t -> f_name (omlobj_meta_conv (St := St) f t) = safe_name t.
Proof.
  intros Hf. unfold omlobj_meta_conv, chars_to_omlobj, null_ip_field.
  repeat (case_match; try done); rewrite ?chars_field, ?bool_field, ?int_field, ?float_field, ?ip_field, ?new_name; done.
Qed.

(** An emission deletes, does nothing, or appends one field of the target's name. *)
Lemma emit_cases (s : St) t dst :
  emit_single_storage (F := F) s t dst `sublist_of` dst
  \/ exists s', emit_single_storage (F := F) s t dst = dst ++ [s'] /\ st_name s' = safe_name t
       /\ f_value (as_field s') <> Null.
Proof.
  unfold emit_single_storage. destruct (is_marker _ _); [left; apply sublist_filter|].
  destruct (is_shared s && _) eqn:E.
  - apply andb_prop in E as [E _]. destruct (is_null _) eqn:En; [by left|]. right. eexists; split; [done|].
    rewrite rename_name, rename_field by done. split; [done|]. intros Hn. by rewrite Hn in En.
  - destruct (is_null (f_value (into_owned s))); [by left|].
    match goal with |- context [from_owned (if ?b then ?x else ?y)] => set (g := if b then x else y) end.
    destruct (is_null (f_value g)) eqn:En; [by left|]. right. eexists; split; [done|].
    rewrite owned_name, owned_field. split; [|intros Hn; by rewrite Hn in En].
    unfold g. case_match; [apply conv_name|]; apply set_name_name.
Qed.

(** A query answers a field per target, in their order. *)
Lemma conv_named (f : F) t n : t_name t = Some n -> f_name f = n -> f_name (omlobj_meta_conv (St := St) f t) = n.
Proof. intros Ht <-. rewrite conv_name; unfold safe_name; rewrite Ht; done. Qed.

Lemma emit_more_cases ts obj (dst : list St) : exists new, emit_more (F := F) ts obj dst = dst ++ new
  /\ exists ts', ts' `sublist_of` ts /\ Forall2 (fun t s => forall n, t_name t = Some n -> st_name s = n) ts' new.
Proof.
  revert obj dst; induction ts as [|t ts IH]; intros obj dst; [by exists []; rewrite app_nil_r; eauto|].
  destruct obj as [|v obj]; [exists []; rewrite app_nil_r; split; [done|]; exists []; split; [apply sublist_nil_l|done]|].
  cbn. destruct (is_null (f_value v)).
  - destruct (IH obj dst) as (new & E & ts' & Hs & Hn). exists new. split; [done|]. exists ts'. split; [by constructor|done].
  - match goal with |- context [dst ++ [from_owned ?g]] => set (h := g) end.
    destruct (IH obj (dst ++ [from_owned h])) as (new & E & ts' & Hs & Hn).
    exists (from_owned h :: new). rewrite E, <- (app_assoc dst). split; [done|].
    exists (t :: ts'). split; [by constructor|]. constructor; [|done]. intros n Ht. rewrite owned_name. unfold h.
    rewrite Ht. apply conv_named; [done|apply set_name_name].
Qed.

Lemma shrinks_sql q : shrinks (sql_extract_more (St := St) now q).
Proof.
  assert (Hp : forall names, shrinks (collect_params (St := St) now q names)).
  { induction names as [|v names IH]; cbn; [apply shrinks_ret|]. destruct (vars q !! v) as [c|]; [|apply shrinks_panic].
    apply shrinks_bind; [unfold cond_extract_storage; apply shrinks_map; destruct c; cbn; try apply shrinks_ret; apply shrinks_record|].
    intros s. by apply shrinks_map. }
  unfold sql_extract_more, collect_sql_params. apply shrinks_bind; [by apply shrinks_map|].
  intros [[[sql md5] params] nl]. repeat case_match; apply shrinks_ret.
Qed.

(** What a statement may write, from what it says: a plain statement at most
    one field, under its first target's name and not empty; a query at most a
    field a target, in their order and under their names; a wildcard the fields
    of the source that match it; a wildcard with pipe functions what the
    functions give for such fields. *)
Definition is_query (p : PreciseEvaluator) : bool := match p with Sql _ => true | _ => false end.

Definition wrote (e : EvalExp (F := F) (PF := PF)) (src : list F) (new : list St) : Prop :=
  match e with
  | ESingle x =>
      if is_query (eval_way x)
      then exists ts, ts `sublist_of` target x /\ Forall2 (fun t s => forall n, t_name t = Some n -> st_name s = n) ts new
      else length new <= 1 /\ Forall (fun s => exists t, head (target x) = Some t /\ st_name s = safe_name t
                                             /\ f_value (as_field s) <> Null) new
  | EBatch x =>
      match b_eval_way x with
      | BGet _ => exists taken, taken `sublist_of` src /\ Forall (fun f => match_it (b_target x) f = true) taken
                    /\ new = from_owned <$> taken
      | BPipe _ funs => Forall (fun s => exists f h, f ∈ src /\ match_it (b_target x) f = true
                    /\ batch_pipe_field (St := St) (origin (b_target x)) funs f = Ret (Some h) /\ s = from_owned h) new
      end
  end.

Lemma wrote_mono e src src' new : src `sublist_of` src' -> wrote e src new -> wrote e src' new.
Proof.
  intros Hs. destruct e as [x|x]; cbn; [done|]. destruct (b_eval_way x).
  - intros (taken & Ht & Hm & ->). exists taken. split_and!; [by etrans|done..].
  - intros Hn. eapply Forall_impl; [exact Hn|]. intros s (f & h & Hf & Hm & E). exists f, h.
    split; [|done]. eapply elem_of_submseteq; eauto using sublist_submseteq.
Qed.

(** One statement: it takes fields out of both records, then appends. *)
Definition step_ok (e : EvalExp (F := F) (PF := PF)) src dst src' dst' : Prop :=
  src' `sublist_of` src /\ exists kept new, kept `sublist_of` dst /\ dst' = kept ++ new /\ wrote e src new.

Lemma single_step x src dst src' dst' :
  single_eval_proc now x src dst = Ret (tt, (src', dst')) -> step_ok (ESingle x) src dst src' dst'.
Proof.
  unfold single_eval_proc, ebind at 1, lift, step_ok. cbn [wrote]. destruct (is_query (eval_way x)) eqn:Hq.
  - destruct (eval_way x) as [| | | |q| | | | | | | |] eqn:Ex || destruct (eval_way x) eqn:Ex; try done.
    cbn. unfold ebind, modify_dst. destruct (sql_extract_more _ _ _ _) as [[obj [s1 d1]]|] eqn:E; [|done]. intros [= <- <-].
    destruct (shrinks_sql _ _ _ _ _ _ E) as [Hs Hd]. split; [done|].
    destruct (emit_more_cases (target x) obj d1) as (new & -> & Hn). eauto 6.
  - assert (Hb : support_batch_async (eval_way x) = Ret false \/ support_batch_async (eval_way x) = Panic)
      by (destruct (eval_way x); cbn; auto; done).
    assert (Hsame : forall l : list St, l `sublist_of` dst -> exists kept new, kept `sublist_of` dst /\ l = kept ++ new
      /\ length new <= 1 /\ Forall (fun s => exists t, head (target x) = Some t /\ st_name s = safe_name t
                                             /\ f_value (as_field s) <> Null) new).
    { intros l Hl. exists l, []. rewrite app_nil_r. split_and!; [done..|cbn; lia|constructor]. }
    destruct Hb as [-> | ->]; [|done]. cbn. destruct (target x) as [|t ts]; [intros [= <- <-]; auto|].
    destruct all_shrink as [Ha _]. destruct (Ha (eval_way x) t) as (_ & A2 & _ & A4).
    set (m := if sync x then _ else _). assert (Hm : shrinks m) by (unfold m; by destruct (sync x)).
    unfold ebind. destruct (m src dst) as [[s [s1 d1]]|] eqn:E; [|done].
    destruct (Hm _ _ _ _ _ E) as [Hs Hd]. destruct s as [s|]; cbn; unfold eret, modify_dst; intros [= <- <-]; (split; [done|]); [|auto].
    destruct (emit_cases s t d1) as [He|(s' & -> & Hn & Hv)]; [apply Hsame; by etrans|].
    exists d1, [s']. split_and!; [done..|cbn; lia|]. repeat constructor. eauto.
Qed.

(** ** Wildcard statements *)

(** The fields a wildcard takes, and the others. *)
Definition wanted (t : BatchEvalTarget) (dst : list St) (f : F) : bool :=
  negb (existsb (fun s => bool_decide (st_name s = f_name f)) dst) && match_it t f.

Lemma filter_split {A} (p : A -> bool) l :
  filter (fun x => p x = true) l ++ filter (fun x => p x = false) l ≡ₚ l.
Proof.
  induction l as [|x l IH]; [done|]. rewrite !filter_cons. destruct (p x) eqn:E.
  - rewrite decide_True, decide_False by done. cbn. by constructor.
  - rewrite decide_False, decide_True by done. rewrite <- Permutation_middle. by constructor.
Qed.

Lemma batch_emit_plain needs (w dst : list St) : Forall (fun f => is_marker (f_meta f) (f_value f) = false) needs ->
  batch_emit (F := F) needs w dst = dst ++ w ++ (from_owned <$> needs).
Proof.
  intros Hn. revert w; induction Hn as [|f needs Hf _ IH]; intros w; cbn; [by rewrite app_nil_r|].
  rewrite Hf, IH. by rewrite <- (app_assoc w).
Qed.

(** Markers delete, the other fields are appended in order. *)
Lemma batch_emit_split needs (w dst : list St) : exists kept fs, kept `sublist_of` dst /\ fs `sublist_of` needs
  /\ batch_emit (F := F) needs w dst = kept ++ w ++ (from_owned <$> fs).
Proof.
  revert w dst; induction needs as [|f needs IH]; intros w dst; cbn.
  - exists dst, []. by rewrite app_nil_r.
  - case_match.
    + destruct (IH w (filter (fun s => f_name (as_field s) <> f_name f) dst)) as (kept & fs & Hk & Hf & ->).
      exists kept, fs. split_and!; [etrans; [exact Hk|apply sublist_filter]|by constructor|done].
    + destruct (IH (w ++ [from_owned f]) dst) as (kept & fs & Hk & Hf & ->). exists kept, (f :: fs).
      split_and!; [done|by constructor|]. cbn. by rewrite <- (app_assoc w).
Qed.

Lemma pipe_loop_from org funs needs out : batch_pipe_loop (St := St) org funs needs = Ret out ->
  Forall (fun h => exists f, f ∈ needs /\ batch_pipe_field (St := St) org funs f = Ret (Some h)) out.
Proof.
  revert out; induction needs as [|f needs IH]; intros out; cbn; [intros [= <-]; constructor|].
  destruct (batch_pipe_field org funs f) as [r|] eqn:E; [|done]. cbn.
  destruct (batch_pipe_loop org funs needs) as [rest|]; [|done]. cbn. intros [= <-].
  assert (Hr : Forall (fun h => exists f0, f0 ∈ f :: needs /\ batch_pipe_field (St := St) org funs f0 = Ret (Some h)) rest).
  { eapply Forall_impl; [by apply IH|]. intros h (g & Hg & Eg). exists g. split; [by apply list_elem_of_further|done]. }
  destruct r as [h|]; [|done]. constructor; [|done]. exists f. split; [apply list_elem_of_here|done].
Qed.

Lemma batch_step x src dst src' dst' :
  batch_eval_proc (St := St) x src dst = Ret (tt, (src', dst')) -> step_ok (EBatch x) src dst src' dst'.
Proof.
  destruct x as [bt [o|o funs]]; unfold batch_eval_proc, extract_batch, ebind, modify_dst, step_ok; cbn.
  - intros [= <- <-]. split; [apply sublist_filter|].
    match goal with |- context [batch_emit ?n [] dst] => set (needs := n) end. destruct (batch_emit_split needs [] dst) as (kept & fs & Hk & Hf & ->). cbn.
    exists kept, (from_owned <$> fs). split_and!; [done..|]. exists fs.
    split_and!; [etrans; [exact Hf|apply sublist_filter]| |done]. apply (Forall_sublist _ _ _ Hf), Forall_forall.
    intros f Hin. apply list_elem_of_filter in Hin as [Hin _]. by apply andb_prop in Hin as [_ ?].
  - match goal with |- context [batch_pipe_loop _ _ ?n] => set (needs := n) end. destruct (batch_pipe_loop (origin bt) funs needs) as [out|] eqn:E; [|done].
    cbn. intros [= <- <-]. split; [apply sublist_filter|].
    destruct (batch_emit_split out [] dst) as (kept & fs & Hk & Hf & ->). cbn.
    exists kept, (from_owned <$> fs). split_and!; [done..|]. apply pipe_loop_from in E. apply Forall_fmap.
    eapply Forall_impl; [exact (Forall_sublist _ _ _ Hf E)|]. intros h (f & Hin & Ef). cbn.
    apply list_elem_of_filter in Hin as [Hw Hin]. apply andb_prop in Hw as [_ Hw]. exists f, h. done.
Qed.

(** ** The names of a new record *)

(** A whole model: its statements one after the other. *)
Inductive built : list (EvalExp (F := F) (PF := PF)) -> list F -> list St -> list F -> list St -> Prop :=
  | built_nil src dst : built [] src dst src dst
  | built_step e l src dst src1 dst1 src' dst' :
      step_ok e src dst src1 dst1 -> built l src1 dst1 src' dst' -> built (e :: l) src dst src' dst'.

Lemma items_built l src dst src' dst' : eval_items now l src dst = Ret (tt, (src', dst')) -> built l src dst src' dst'.
Proof.
  revert src dst; induction l as [|e l IH]; intros src dst; cbn; [intros [= <- <-]; constructor|]. unfold ebind.
  destruct (eval_proc now e src dst) as [[[] [s1 d1]]|] eqn:E; [|done]. intros Er.
  eapply built_step; [|by apply IH]. destruct e; [by apply single_step|by apply batch_step].
Qed.

Lemma built_from l src dst src' dst' : built l src dst src' dst' ->
  forall s, s ∈ dst' -> s ∈ dst \/ exists e new, e ∈ l /\ wrote e src new /\ s ∈ new.
Proof.
  induction 1 as [|e l src dst src1 dst1 src' dst' (Hs & kept & new & Hk & -> & Hw) _ IH]; intros s Hin; [auto|].
  destruct (IH s Hin) as [[Hd|Hd]%elem_of_app|(e' & new' & He & Hw' & Hn)].
  - left. eapply elem_of_submseteq; eauto using sublist_submseteq.
  - right. exists e, new. split; [apply list_elem_of_here|done].
  - right. exists e', new'. split; [by apply list_elem_of_further|]. split; [by eapply wrote_mono|done].
Qed.

Lemma cleanup_names m (out : list St) : st_name <$> cleanup_temp_fields (F := F) (PF := PF) m out = st_name <$> out.
Proof.
  unfold cleanup_temp_fields. destruct (has_temp_fields m); [|done]. rewrite <- list_fmap_compose.
  apply list_fmap_ext. intros i s _. cbn. case_match; [|done]. by rewrite owned_name, ignore_name.
Qed.

(** C16: Each statement of a model only takes fields out of the two records and
    appends to the new one: a plain statement at most one field, under its first
    target's name and not empty; a query at most one field a target, in their
    order and named by the targets that have a name; a wildcard fields of the
    source that match it, unchanged; a wildcard with pipe functions what they
    answer for such fields. So every field of the new record was written by a
    statement of the model, from the record given, and the clean-up of
    temporary fields keeps its name. *)
Theorem transform_names (m : ObjModel (F := F) (PF := PF)) data (out : list St) :
  transform_ref now m data = Ret out ->
  exists rest dst, built (OmlEval.items m) data [] rest dst
    /\ st_name <$> out = st_name <$> dst
    /\ forall s, s ∈ dst -> exists e new, e ∈ OmlEval.items m /\ wrote e data new /\ s ∈ new.
Proof.
  unfold transform_ref. destruct (eval_items now (OmlEval.items m) data []) as [[[] [s' d']]|] eqn:E; [|done].
  cbn. intros [= <-]. apply items_built in E. exists s', d'. split; [done|]. split; [apply cleanup_names|].
  intros s Hs. destruct (built_from _ _ _ _ _ E s Hs) as [[]%not_elem_of_nil|?]; done.
Qed.

(** A wildcard statement moves fields: those it takes leave the source and
    are appended to the new record in order, none of a name the record has
    already, and with the ones that stay they are the source's fields. *)
Theorem wildcard_moves_fields (x : BatchEvalExp (F := F) (PF := PF)) o src dst :
  b_eval_way x = BGet o -> Forall (fun f => is_marker (f_meta f) (f_value f) = false) src ->
  exists taken left, batch_eval_proc (St := St) x src dst = Ret (tt, (left, dst ++ (from_owned <$> taken)))
    /\ taken ++ left ≡ₚ src
    /\ Forall (fun f => match_it (b_target x) f = true /\ Forall (fun s => st_name s <> f_name f) dst) taken
    /\ Forall (fun f => match_it (b_target x) f = false \/ Exists (fun s => st_name s = f_name f) dst) left.
Proof.
  intros Hx Hm. exists (filter (fun f => wanted (b_target x) dst f = true) src), (filter (fun f => wanted (b_target x) dst f = false) src).
  split; [|split; [apply filter_split|split]].
  - unfold batch_eval_proc, extract_batch, ebind, modify_dst. rewrite Hx. cbn. do 2 f_equal. f_equal.
    rewrite batch_emit_plain; [done|]. eapply Forall_sublist; [apply sublist_filter|done].
  - apply Forall_forall. intros f Hf. apply list_elem_of_filter in Hf as [Hf _]. unfold wanted in Hf.
    apply andb_prop in Hf as [Hn Hf]. split; [done|]. apply negb_true_iff in Hn. apply Forall_forall. intros s Hs E.
    assert (existsb (fun s => bool_decide (st_name s = f_name f)) dst = true); [|congruence].
    apply existsb_exists. exists s. split; [by apply list_elem_of_In|by apply bool_decide_eq_true].
  - apply Forall_forall. intros f Hf. apply list_elem_of_filter in Hf as [Hf _]. unfold wanted in Hf.
    apply andb_false_iff in Hf as [Hn|Hf]; [right|by left]. apply negb_false_iff, existsb_exists in Hn as (s & Hs & E).
    apply Exists_exists. exists s. split; [by apply list_elem_of_In|by apply bool_decide_eq_true in E].
Qed.

End Model.
