(* ===== verification/OmlInst.v ===== *)
(** A concrete data model for OML and stand-ins for the other crates: the
    interfaces and their laws have implementations, on which models evaluate and
    closed instances of the theorems hold. *)
From Stdlib Require Import ZArith Lia String Ascii.
From Stdlib Require Import Floats.SpecFloat.
From stdpp Require Import prelude strings gmap.
From S2P Require Import Prelude F64 Text DataModel OmlData OmlAccessLaws OmlCalc OmlMatch OmlSql OmlEval OmlEvalLaws OmlStatic OmlSyncLaws OmlStaticLaws OmlModelLaws OmlPrivacy OmlPipe OmlPrivacyLaws.
Local Open Scope string_scope.
Local Open Scope list_scope.
Local Open Scope Z_scope.
Local Open Scope wp_scope.

(** Stored values and stored fields; [shared] is nothing for an owned field and
    the name put over it for a shared one. *)
Inductive SValue : Type :=
  | SNull | SIgnore | SChars (s : string) | SSymbol (s : string) | STime (t : Z) | SBool (b : bool)
  | SInt (n : Z) | SBig (n : N) | SHex (n : N) | SFloat (x : spec_float) | SNet (n : Z) | SIp (a : ip_addr)
  | SDomain (s : string) | SEmail (s : string) | SUrl (s : string) | SIdCard (s : string) | SPhone (s : string)
  | SArr (l : list SField) | SObj (l : list (string * SField)) | SOther (k : Z)
with SField : Type := mkS (shared : option (option string)) (m : DataType) (k : string) (v : SValue).

Definition demo_types : OmlTypes := {|
  TimeT := Z; time_cmp := z_comparable; IpNetT := Z; ipnet_eq := Z.eqb;
  ArrayT := list SField; ObjectT := list (string * SField)
|}.
#[local] Existing Instance demo_types.

Definition to_value (v : SValue) : Value :=
  match v with
  | SNull => Null | SIgnore => Ignore_ | SChars s => Chars s | SSymbol s => Symbol s
  | STime t => TimeV (H := oml_value_types) t | SBool b => BoolV b | SInt n => IntV n | SBig n => BigUint n
  | SHex n => Hex n | SFloat x => FloatV (H := oml_value_types) x | SNet n => IpNetV (H := oml_value_types) n
  | SIp a => IpAddrV (H := oml_value_types) a
  | SDomain s => Domain s | SEmail s => Email s | SUrl s => Url s | SIdCard s => IdCard s
  | SPhone s => MobilePhone s | SArr l => ArrayV (H := oml_value_types) l
  | SObj l => ObjV (H := oml_value_types) l | SOther k => OtherV k
  end.

Definition of_value (v : Value) : SValue :=
  match v with
  | Null => SNull | Ignore_ => SIgnore | Chars s => SChars s | Symbol s => SSymbol s
  | TimeV t => STime t | BoolV b => SBool b | IntV n => SInt n | BigUint n => SBig n
  | Hex n => SHex n | FloatV x => SFloat x | IpNetV n => SNet n | IpAddrV a => SIp a
  | Domain s => SDomain s | Email s => SEmail s | Url s => SUrl s | IdCard s => SIdCard s
  | MobilePhone s => SPhone s | ArrayV l => SArr l | ObjV l => SObj l | OtherV k => SOther k
  end.

Lemma to_of_value v : to_value (of_value v) = v.
Proof. destruct v; reflexivity. Qed.
Lemma of_to_value v : of_value (to_value v) = v.
Proof. destruct v; reflexivity. Qed.

(** A field: type, name, value. *)
Definition Field : Type := DataType * string * Value.

Definition field_of (s : SField) : Field := let '(mkS _ m k v) := s in (m, k, to_value v).
Definition store (f : Field) : SField := let '(m, k, v) := f in mkS None m k (of_value v).
Definition name_of (s : SField) : string :=
  match s with mkS (Some (Some n)) _ _ _ => n | mkS _ _ k _ => k end.
Definition rename (s : SField) (n : string) : SField :=
  match s with
  | mkS None m _ v => mkS None m n v
  | mkS (Some _) m k v => mkS (Some (Some n)) m k v
  end.

(** Objects as association lists. *)
Definition assoc_get {A} (o : list (string * A)) (k : string) : option A := snd <$> head (filter (fun kv => kv.1 = k) o).
Definition assoc_del {A} (o : list (string * A)) (k : string) : list (string * A) := filter (fun kv => kv.1 <> k) o.

Lemma assoc_get_del {A} (k k' : string) (o : list (string * A)) :
  assoc_get (assoc_del o k) k' = if bool_decide (k = k') then None else assoc_get o k'.
Proof.
  unfold assoc_get, assoc_del. rewrite list_filter_filter. case_bool_decide as E.
  - subst. rewrite filter_none; [done|]. apply Forall_forall. intros [x a] _; cbn. tauto.
  - do 2 f_equal. apply list_filter_iff. intros [x a]; cbn. split; [tauto|intros ->; split; congruence].
Qed.

Lemma assoc_get_cons {A} (k k' : string) (a : A) (o : list (string * A)) :
  assoc_get ((k, a) :: assoc_del o k) k' = if bool_decide (k = k') then Some a else assoc_get o k'.
Proof.
  unfold assoc_get at 1. rewrite filter_cons; cbn. case_decide; case_bool_decide; try done.
  change (assoc_get (assoc_del o k) k' = assoc_get o k'). rewrite assoc_get_del. by case_bool_decide.
Qed.

#[local] Instance demo_data : OmlData Field SField := {|
  type_default := TChars; type_display _ := "T";
  value_is_empty v := match v with Null => true | Chars s => bool_decide (s = "") | _ => false end;
  field_new m k v := (m, k, v); f_meta f := f.1.1; f_name f := f.1.2; f_value f := f.2;
  f_set_name f k := (f.1.1, k, f.2); f_set_value f v := (f.1.1, f.1.2, v);
  from_ignore k := (TIgnore, k, Ignore_);
  mk_chars k s := (TChars, k, Chars s); mk_int k n := (TInt, k, IntV n);
  mk_float k x := (TFloat, k, FloatV (H := oml_value_types) x); mk_bool k b := (TBool, k, BoolV b);
  mk_ip k a := (TIP, k, IpAddrV (H := oml_value_types) a);
  mk_time k t := (TOther 0, k, TimeV (H := oml_value_types) t);
  from_arr k l := (TOther 1, k, ArrayV (H := oml_value_types) (store <$> l));
  from_obj k o := (TOther 2, k, ObjV (H := oml_value_types) o);
  from_owned := store; from_shared f := let '(m, k, v) := f in mkS (Some None) m k (of_value v);
  is_shared s := let '(mkS o _ _ _) := s in bool_decide (is_Some o);
  as_field := field_of; into_owned s := ((field_of s).1.1, name_of s, (field_of s).2);
  st_name := name_of; st_meta s := (field_of s).1.1; st_set_name := rename;
  arr_items l := l; obj_default := []; obj_is_empty o := bool_decide (o = []);
  obj_get := assoc_get;
  obj_insert o k s := (k, s) :: assoc_del o k;
  obj_remove := assoc_del;
  obj_iter o := o;
  rec_field l k := head (filter (fun s => name_of s = k) l)
|}.

#[local] Instance demo_laws : OmlLaws.
Proof.
  split; cbn; intros; try done;
    try (destruct s as [[[]|] ? ? ?]; try done; cbn in *; try done; by rewrite ?to_of_value, ?of_to_value);
    try (destruct f as [[? ?] ?]; cbn; by rewrite ?to_of_value).
  - apply assoc_get_cons.
  - apply assoc_get_del.
Qed.

(** ** The other crates *)

#[local] Instance demo_wild : WildMatch := {|
  Wild := string; wild_new s := s; wild_matches p s := bool_decide (p = "*") || bool_decide (p = s)
|}.
#[local] Instance demo_case : UnicodeCase := {| to_lowercase := to_ascii_lowercase |}.
#[local] Instance demo_env : OmlEnv SField := {|
  raw_format v := match v with Chars s => s | _ => "" end;
  strfmt s _ := Some s;
  is_intranet ip := match ip with V4 a => Z.shiftr a 24 =? 10 | V6 _ => false end;
  regex_is_match _ _ := None
|}.
#[local] Instance demo_knowledge : KnowledgeApi (F := Field) := {|
  table_route_config := None; sqlite_query_row _ := None; sqlite_query_named_fields _ _ := None;
  route_provider_sql _ := None; cache_query_fields_route _ _ _ _ := []
|}.

(** Base64 as any injective text: the bits of the list's number. *)
Fixpoint bits_of (p : positive) : string :=
  match p with xH => "" | xO p => String "0" (bits_of p) | xI p => String "1" (bits_of p) end.
Fixpoint of_bits (s : string) : positive :=
  match s with
  | EmptyString => xH
  | String c s => if Ascii.eqb c "0" then xO (of_bits s) else xI (of_bits s)
  end.
Lemma of_bits_of p : of_bits (bits_of p) = p.
Proof. induction p as [p IH|p IH|]; cbn; by rewrite ?IH. Qed.

(** A cipher that appends a tag, digests that are the key. *)
#[local] Instance demo_privacy : PrivacyCrates := {|
  hmac_sha256 k m := resize 32 7 (k ++ m); hmac_sha1 k m := k; md5_compute m := m;
  hex_encode l := bits_of (encode l); hex_decode _ := None;
  base64_url_encode l := bits_of (encode l); base64_url_decode s := decode (of_bits s);
  base64_engines := [];
  aes_gcm_encrypt key nonce plain := if (length key =? 32)%nat then Some (plain ++ [0]) else None;
  aes_gcm_decrypt key nonce c := Some (take (length c - 1) c);
  string_from_utf8 l := Some (string_of_list_ascii ((fun b => ascii_of_nat (Z.to_nat b)) <$> l))
|}.

#[local] Instance demo_token_laws : TokenLaws.
Proof.
  split; cbn.
  - intros l. by rewrite of_bits_of, decode_encode.
  - intros key nonce plain c. case_match; [|done]. intros [= <-]. f_equal.
    rewrite length_app, Nat.add_sub. by rewrite take_app_length.
  - intros key nonce plain. case_match; [|done]. intros [= E]. by destruct plain.
  - intros s. unfold as_bytes, code. rewrite <- list_fmap_compose. f_equal.
    rewrite <- (string_of_list_ascii_of_string s) at 2. f_equal. generalize (list_ascii_of_string s).
    intros l. induction l as [|a l IH]; [done|]. cbn. by rewrite IH, Nat2Z.id, ascii_nat_embedding.
Qed.

#[local] Instance demo_value_text : ValueText :=
  {| show_float _ := "1.5"; show_ipnet _ := "net"; show_hex _ := "0x" |}.

#[local] Instance demo_pipe_crates : PipeCrates := {|
  base64_encode s := s; base64_decode s := Some (as_bytes s); escape_byte_string _ := ""; from_utf8_lossy _ := "";
  charset_decode _ _ := ""; html_encode_safe s := s; html_decode s := s; json_escape s := s; json_unescape s := Some s;
  json_format _ := "{}"; Url_ := unit; url_parse _ := None; url_domain _ := None; url_host_str _ := None;
  url_port _ := None; url_before_path _ := ""; url_path _ := ""; url_query _ := None;
  local_timestamp _ t off := Some (t - off); from_timestamp _ x := Some x; with_offset t off := t + off
|}.

#[local] Instance demo_pipes : PipeApi PipeFun Field := pipe_fun_api ∅ (fun _ => []) (fun _ f => f).

Definition demo_now : LocalNow := mkNow _ 0 2025 1 2 3.

(** ** The theorems on concrete models *)

Definition int_f (k : string) (n : Z) : Field := (TInt, k, IntV n).
Definition text_f (k s : string) : Field := (TChars, k, Chars s).
Definition tgt (k : string) : EvaluationTarget := mkTarget (Some k) TAuto.
Definition read (k : string) : DirectAccessor (F := Field) := Read (field_read_new k).

Notation P_ := (PreciseEvaluator (F := Field) (PF := PipeFun)).
Notation X_ := (EvalExp (F := Field) (PF := PipeFun)).
Definition set_ (k : string) (p : P_) : X_ := ESingle (mkSingle [tgt k] p false).
Definition model (static l : list X_) : ObjModel (F := Field) (PF := PipeFun) := mkModel "m" [] true l static false ∅.

(** [a + 1] where [a] is the greatest [i64]. *)
Definition overflowing : CalcExpr Field := Binary Add (Accessor (read "a")) (Const (Digit 1)).

Lemma calc_int_exact_witness :
  int_only overflowing = true
  /\ exists r, eval_expr (fun _ => "") overflowing (tgt "x") [int_f "a" I64_MAX] ([] : list SField) = Ret (r, ([int_f "a" I64_MAX], []))
       /\ exists op, r = inr (Overflow op).
Proof.
  split; [reflexivity|].
  destruct (calc_int_exact (fun _ => "") overflowing (tgt "x") [int_f "a" I64_MAX] ([] : list SField) eq_refl) as (r & E & Hr).
  exists r. split; [exact E|exact Hr].
Defined.

Lemma calc_field_typed_witness :
  consts_ok overflowing /\ all_values int_ok [int_f "a" I64_MAX] ([] : list SField)
  /\ exists f src' dst', calc_extract_one (fun _ => "") overflowing (tgt "x") [int_f "a" I64_MAX] ([] : list SField)
         = Ret (Some f, (src', dst')) /\ f_name f = "x".
Proof.
  assert (Hc : consts_ok overflowing) by (cbn; unfold I64_MIN, I64_MAX; lia).
  assert (Hv : all_values int_ok [int_f "a" I64_MAX] ([] : list SField)).
  { split; [|constructor]. constructor; [cbn; unfold I64_MIN, I64_MAX; lia|constructor]. }
  split; [exact Hc|]. split; [exact Hv|].
  destruct (calc_field_typed (fun _ => "") overflowing (tgt "x") _ _ Hc Hv) as (f & s & d & E & _ & Hn & _). eauto.
Defined.

(** [x = object { s = read(a) | to_str ; }] and [* = take()]. *)
Definition sync_model : ObjModel (F := Field) (PF := PipeFun) :=
  model [] [set_ "x" (Map [mkNested (tgt "s") (NPipe (mkPipe (SAccessor (read "a")) [ToStr]))]);
            EBatch (mkBatch (batch_target_new (tgt "*")) (BGet (mkRecordOp (read "*") None)))].

Lemma sync_path_unobservable_witness :
  forallb item_plain (OmlEval.items sync_model) = true
  /\ transform_ref (St := SField) demo_now (compute_sync_flags sync_model) [text_f "a" "v"]
     = transform_ref demo_now (all_async sync_model) [text_f "a" "v"].
Proof. split; [reflexivity|]. exact (sync_path_unobservable demo_now sync_model [text_f "a" "v"] eq_refl). Defined.

Lemma nested_lookup_lost_witness :
  let dict : gmap string Field := {["k" := text_f "v" "V"]} in
  let p : P_ := Map [mkNested (tgt "o") (NPipe (mkPipe (SPrecise (Lookup "D" (Obj (text_f "" " K ")) (Val Null) (Some dict))) []))] in
  lookup_found (Some dict) (Some (text_f "" " K ")) = Some (text_f "v" "V")
  /\ support_sync p = true
  /\ extract_storage_sync (St := SField) demo_now p (tgt "x") [] [] <> extract_storage_async demo_now p (tgt "x") [] [].
Proof.
  intros dict p. assert (Hf : lookup_found (Some dict) (Some (text_f "" " K ")) = Some (text_f "v" "V"))
    by vm_cast_no_check (eq_refl (Some (text_f "v" "V"))).
  split; [exact Hf|].
  destruct (nested_lookup_lost (St := SField) (PF := PipeFun) demo_now "D" (text_f "" " K ") (Val Null) dict (text_f "v" "V")
              (tgt "o") (tgt "x") [] [] Hf) as (Hs & E1 & E2).
  split; [exact Hs|]. fold p in E1, E2. rewrite E1, E2. intros E.
  apply (f_equal (fun o => match o with Ret (x, _) => x | Panic => None end)) in E. vm_compute in E. discriminate E.
Defined.

(** [static { A = chars(x); }], then [b = A] and [c = read(q) { _ : A }]. *)
Definition static_model : ObjModel (F := Field) (PF := PipeFun) :=
  model [set_ "A" (Obj (text_f "" "x"))]
    [set_ "b" (StaticSymbol "A");
     set_ "c" (Tdc (mkRecordOp (read "q") (Some (mkGenericBinding (tgt "c") (GStaticSymbol "A")))))].

Definition never_panics (p : PipeFun) : bool := match p with ToStr | Dumb => false | _ => true end.

Lemma never_panics_ret p (f : Field) : never_panics p = true -> exists g, value_cacu p f = Ret g.
Proof. destruct p; cbn; try discriminate; eauto. Qed.

Lemma finished_model_never_panics_witness :
  check_static_items (static_items static_model) [] = inl ["A"]
  /\ exists r, finish_model (St := SField) demo_now static_model = Ret r
       /\ forall m', r = inl m' -> forall data, exists out : list SField, transform_ref demo_now m' data = Ret out.
Proof.
  split; [reflexivity|].
  destruct (finished_model_never_panics demo_now never_panics never_panics_ret static_model ["A"]) as (r & Er & H); [reflexivity|discriminate|].
  exists r. split; [exact Er|]. intros m' Em data. destruct (H eq_refl m' Em data) as [Ho|(e & He & Hs)]; [exact Ho|].
  exfalso. revert He Hs. cbn. intros [->|[->|[]%not_elem_of_nil]%elem_of_cons]%elem_of_cons; discriminate.
Defined.

(** The constant reaches both statements. *)
Example static_model_runs :
  (let! r := finish_model (St := SField) demo_now static_model in
   match r with inl m => transform_ref demo_now m [] | inr _ => Panic end)
  = Ret [mkS (Some (Some "b")) TChars "A" (SChars "x"); mkS (Some (Some "c")) TChars "A" (SChars "x")].
Proof. vm_compute. reflexivity. Qed.

(** A statement, then a wildcard for what is left. *)
Definition names_model : ObjModel (F := Field) (PF := PipeFun) :=
  model [] [set_ "x" (Tdc (mkRecordOp (Take (mkTake (Some "a") [] [] None)) None));
            EBatch (mkBatch (batch_target_new (tgt "*")) (BGet (mkRecordOp (read "*") None)))].

Lemma transform_names_witness :
  exists out : list SField, transform_ref demo_now names_model [text_f "a" "v"; int_f "b" 1] = Ret out
  /\ st_name <$> out = ["x"; "b"]
  /\ exists rest dst, built (OmlEval.items names_model) [text_f "a" "v"; int_f "b" 1] [] rest dst
       /\ st_name <$> out = st_name <$> dst
       /\ forall s, s ∈ dst -> exists e new, e ∈ OmlEval.items names_model
            /\ wrote e [text_f "a" "v"; int_f "b" 1] new /\ s ∈ new.
Proof.
  eexists. split; [vm_compute; reflexivity|]. split; [vm_compute; reflexivity|].
  apply (transform_names demo_now names_model). vm_compute. reflexivity.
Defined.

Lemma wildcard_moves_fields_witness :
  let x := mkBatch (PF := PipeFun) (batch_target_new (tgt "*")) (BGet (mkRecordOp (read "*") None)) in
  exists taken left, batch_eval_proc x [text_f "a" "v"; int_f "b" 1] [store (text_f "b" "mine")]
      = Ret (tt, (left, [store (text_f "b" "mine")] ++ (from_owned <$> taken)))
    /\ taken ++ left ≡ₚ [text_f "a" "v"; int_f "b" 1].
Proof.
  intros x. destruct (wildcard_moves_fields x (mkRecordOp (read "*") None) [text_f "a" "v"; int_f "b" 1]
    [store (text_f "b" "mine")] eq_refl) as (taken & left & E & Hp & _); [repeat constructor|]. eauto.
Defined.

Definition ip_mask : Mask := mkMask MIp None None None None None None None Placeholder None false.


Lemma masked_address_in_pool_witness :
  let m := mkMask MIp None None None None None None None Placeholder (Some (Pool4 (mkNet (10 * 2 ^ 24) 8))) true in
  pool_wf (pool m)
  /\ (mask_value m ∅ (text_f "u" "192.168.1.1") = mk_chars "u" (placeholder m)
      \/ exists ip', mask_value m ∅ (text_f "u" "192.168.1.1") = mk_ip "u" ip' /\ in_pool (pool m) (V4 3232235777) ip').
Proof.
  intros m. assert (Hw : pool_wf (pool m)) by (cbn; unfold net_wf; cbn; repeat split; vm_compute; congruence).
  split; [exact Hw|].
  exact (masked_address_in_pool m ∅ (text_f "u" "192.168.1.1") "192.168.1.1" (V4 3232235777) eq_refl Hw eq_refl
           ltac:(vm_compute; reflexivity)).
Defined.

Lemma token_roundtrip_witness :
  let key := replicate 32 5 in
  let secrets : Secrets := set_secret ∅ "pii_key" key in
  exists token, tokenize_value (mkTokenize "tok:v1:") secrets (replicate 12 9) (text_f "u" "user-42") = mk_chars "u" token
    /\ detokenize token key "tok:v1:" = Some "user-42".
Proof.
  intros key secrets.
  exact (token_roundtrip (mkTokenize "tok:v1:") secrets key (replicate 12 9) (text_f "u" "user-42") "user-42"
    (as_bytes "user-42" ++ [0]) eq_refl ltac:(discriminate) ltac:(vm_compute; reflexivity) eq_refl eq_refl).
Defined.

Lemma mask_shows_ends_only_witness :
  let m := mkMask MMobile None None None None None None None Placeholder None false in
  ends m = Some (0, 4)%nat /\ mask_text m "13800138000" = mask_text m "15912348000" /\ mask_text m "13800138000" = "*******8000".
Proof.
  intros m. split; [reflexivity|]. split; [|vm_compute; reflexivity].
  exact (mask_shows_ends_only m (0, 4)%nat "13800138000" "15912348000" eq_refl ltac:(vm_compute; congruence)
           ltac:(vm_compute; reflexivity)).
Defined.

Lemma ip_to_biguint_order_witness :
  N.compare (ip_to_biguint (V4 4294967295)) (ip_to_biguint (V6 0)) = Lt.
Proof. exact (proj1 (ip_to_biguint_order (V4 4294967295) (V6 0) ltac:(cbn; lia) ltac:(cbn; lia))). Defined.

Definition ip_f (k : string) (a : ip_addr) : Field := (TIP, k, IpAddrV (H := oml_value_types) a).

Lemma intranet_never_passes_witness :
  let f := ip_f "u" (V4 (10 * 2 ^ 24 + 1)) in intranet_replace_value None f <> f.
Proof.
  intros f E.
  assert (Hf : f_value f = IpAddrV (H := oml_value_types) (V4 (10 * 2 ^ 24 + 1))) by reflexivity.
  destruct (intranet_never_passes None f (V4 (10 * 2 ^ 24 + 1)) Hf)
    as [[Hi _]|[_ [(e & He & _)|(to & Er & _ & Ht)]]]; [vm_compute in Hi; discriminate|discriminate|].
  rewrite E in Er. injection Er as Er. destruct Ht as [-> |[-> |(e & He & _)]]; discriminate.
Defined.
