(* ===== verification/Semantic.v ===== *)
(** Word extraction ([src/crates/wp-oml/src/core/evaluator/transform/pipe/]):
    the dictionary of [semantic_dict_loader.rs] and the two pipe functions of
    [extract_word.rs] that read it, the argument [extract_word] of [OmlPipe].

    A set of words is the list of them: only membership is read.  Reading and
    parsing a file, the segmentation of a text into tagged words ([jieba]), the
    case tables and the JSON of the debug output are arguments.  Confidences are
    in tenths. *)
From Stdlib Require Import ZArith Lia String Ascii.
From stdpp Require Import prelude strings pretty.
From S2P Require Import Prelude F64 Text DataModel OmlData OmlSql OmlEval OmlPrivacy OmlPipe.
Local Open Scope string_scope.
Local Open Scope list_scope.
Local Open Scope Z_scope.
Local Open Scope wp_scope.

(** ** The dictionary ([semantic_dict_loader.rs]) *)

Definition SUPPORTED_VERSION : Z := 1.
Definition DEFAULT_SEMANTIC_DICT_PATHS : list string := ["models/knowledge/semantic_dict.toml"; "knowledge/semantic_dict.toml"].

Inductive MergeMode := Add | Replace.

(** [StopWordsConf], [StatusWordsConf], [ActionVerbsConf], [EntityNounsConf]. *)
Record WordsConf := mkWords { chinese : list string; english : list string }.

(** The categories of domain words in the order their map is iterated. *)
Record SemanticDictConf := mkDictConf {
  enabled : bool; version : Z; mode : MergeMode;
  stop_words_conf : option WordsConf; domain_words_conf : option (list (string * list string));
  status_words_conf : option WordsConf; action_verbs_conf : option WordsConf; entity_nouns_conf : option WordsConf }.

Record SemanticDict := mkDict {
  core_pos : list string; stop_words : list string; domain_words : list string;
  status_words : list string; action_verbs : list string; entity_nouns : list string }.

Definition has (words : list string) (w : string) : bool := bool_decide (w ∈ words).

Definition builtin : SemanticDict := mkDict
    ["n"; "nr"; "ns"; "nt"; "nz"; "ng"; "v"; "vn"; "vd"; "a"; "ad"; "an"; "eng"; "m"; "x"; "t"; "i"]
    ["的"; "了"; "在"; "是"; "我"; "有"; "和"; "就"; "不"; "人"; "都"; "一"; "一个"; "上"; "也"; "很"; "到"; "说"; "要"; "去"; "你"; "会";
     "着"; "没有"; "看"; "好"; "自己"; "这"; "the"; "a"; "an"; "is"; "are"; "was"; "were"; "be"; "been"; "being"; "of";
     "at"; "in"; "to"; "for"; "and"; "or"; "but"]
    ["error"; "warn"; "info"; "debug"; "fatal"; "trace"; "exception"; "failure"; "timeout"; "connection";
     "database"; "server"; "client"; "request"; "response"; "login"; "logout"; "auth"; "authentication";
     "permission"; "access"; "http"; "https"; "tcp"; "udp"; "ip"; "port"; "socket"; "attack"; "virus"; "malware";
     "threat"; "alert"; "blocked"; "denied"]
    ["failed"; "failure"; "success"; "succeeded"; "timeout"; "exception"; "crashed"; "disconnected"; "stopped";
     "completed"; "pending"; "refused"; "dropped"; "rejected"; "expired"; "closed"; "失败"; "成功"; "超时"; "异常"; "错误";
     "崩溃"; "断开"; "拒绝"; "丢失"]
    ["connect"; "login"; "logout"; "respond"; "start"; "stop"; "fail"; "run"; "process"; "send"; "receive"; "read";
     "write"; "open"; "close"; "bind"; "listen"; "authenticate"; "authorize"; "create"; "delete"; "update";
     "upload"; "download"; "retry"; "handle"; "load"; "fetch"; "parse"; "resolve"; "block"; "deny"; "连接"; "登录";
     "登出"; "请求"; "响应"; "启动"; "停止"; "处理"; "发送"; "接收"; "读取"; "写入"; "认证"; "访问"; "创建"; "删除"; "更新"; "下载"; "上传"; "重试"]
    ["connection"; "transaction"; "session"; "application"; "configuration"; "permission"; "operation"; "exception";
     "连接"; "会话"; "事务"; "应用"; "配置"; "权限"].

Definition merge_words (mode : MergeMode) (words new_set : list string) : list string :=
  match mode with Add => words ++ new_set | Replace => new_set end.
Definition merge_section {A} (mode : MergeMode) (words : list string) (conf : option A) (words_of : A -> list string) : list string :=
  match conf with Some c => merge_words mode words (words_of c) | None => words end.
Definition both (c : WordsConf) : list string := english c ++ chinese c.

Definition merge (d : SemanticDict) (conf : SemanticDictConf) : SemanticDict :=
  let m := mode conf in
  mkDict (core_pos d)
    (merge_section m (stop_words d) (stop_words_conf conf) (fun c => chinese c ++ english c))
    (merge_section m (domain_words d) (domain_words_conf conf) (fun cats => concat (snd <$> cats)))
    (merge_section m (status_words d) (status_words_conf conf) both)
    (merge_section m (action_verbs d) (action_verbs_conf conf) both)
    (merge_section m (entity_nouns d) (entity_nouns_conf conf) both).

Section Load.
(** What exists, what a file parses as, the path set by the engine. *)
Context (exists_ : string -> bool) (parse : string -> option SemanticDictConf) (configured : option string).

Inductive LoadError := Unreadable | UnsupportedVersion (v : Z).

Definition load_semantic_dict (path : string) : SemanticDictConf + LoadError :=
  match parse path with
  | None => inr Unreadable
  | Some conf => if version conf =? SUPPORTED_VERSION then inl conf else inr (UnsupportedVersion (version conf))
  end.

Definition resolve_semantic_dict_path (config_path : option string) : option string :=
  match config_path with
  | Some p => Some p
  | None => match configured with Some p => Some p | None => List.find exists_ DEFAULT_SEMANTIC_DICT_PATHS end
  end.

(** The dictionary a process uses, made at its first use. *)
Definition SEMANTIC_DICT : SemanticDict :=
  match resolve_semantic_dict_path None with
  | Some path =>
      match load_semantic_dict path with
      | inl conf => if enabled conf then merge builtin conf else builtin
      | inr _ => builtin
      end
  | None => builtin
  end.

(** Empty words, and words that were there before. *)
Fixpoint validate_loop (seen : list string) (empties dups : Z) (words : list string) : Z * Z :=
  match words with
  | [] => (empties, dups)
  | w :: words =>
      if bool_decide (w = "") then validate_loop seen (empties + 1) dups words
      else if has seen w then validate_loop seen empties (dups + 1) words
      else validate_loop (w :: seen) empties dups words
  end.
Definition validate_word_list (words : list string) : Z * Z := validate_loop [] 0 0 words.

(** The warnings about one list. *)
Definition list_warnings (name : string) (words : list string) : list string :=
  let '(empties, dups) := validate_word_list words in
  (if 0 <? empties then [(name +:+ ": " +:+ pretty (Z.to_N empties) +:+ " empty word(s)")%string] else []) ++
  (if 0 <? dups then [(name +:+ ": " +:+ pretty (Z.to_N dups) +:+ " duplicate(s)")%string] else []) ++
  match words with [] => [(name +:+ ": empty category")%string] | _ => [] end.

Definition section_warnings (section : string) (first_chinese : bool) (conf : option WordsConf) : list string :=
  match conf with
  | None => []
  | Some c =>
      let cn := list_warnings (section +:+ ".chinese") (chinese c) in
      let en := list_warnings (section +:+ ".english") (english c) in
      if first_chinese then cn ++ en else en ++ cn
  end.

Definition words_count (conf : option WordsConf) : Z :=
  match conf with Some c => zlen (chinese c) + zlen (english c) | None => 0 end.
Definition total_words (conf : SemanticDictConf) : Z :=
  words_count (stop_words_conf conf)
  + match domain_words_conf conf with Some cats => foldl (fun n c => n + zlen (snd c)) 0 cats | None => 0 end
  + words_count (status_words_conf conf) + words_count (action_verbs_conf conf) + words_count (entity_nouns_conf conf).

Definition conf_warnings (conf : SemanticDictConf) : list string :=
  section_warnings "stop_words" true (stop_words_conf conf)
  ++ match domain_words_conf conf with
     | Some cats => concat ((fun c => list_warnings ("domain_words." +:+ fst c) (snd c)) <$> cats)
     | None => []
     end
  ++ section_warnings "status_words" false (status_words_conf conf)
  ++ section_warnings "action_verbs" false (action_verbs_conf conf)
  ++ section_warnings "entity_nouns" false (entity_nouns_conf conf).

(** The message by what it says: path, mode, number of words. *)
Record SemanticDictCheckResult := mkCheck { ck_path : string; ck_mode : MergeMode; ck_words : Z; ck_warnings : list string }.
Inductive CheckError := Missing (path : string) | LoadFailed (e : LoadError).

Definition check_semantic_dict_config_detailed (config_path : option string) : option SemanticDictCheckResult + CheckError :=
  match resolve_semantic_dict_path config_path with
  | None => inl None
  | Some path =>
      if negb (exists_ path) then if config_path then inr (Missing path) else inl None else
      match load_semantic_dict path with
      | inl conf =>
          if negb (enabled conf) then inl None
          else inl (Some (mkCheck path (mode conf) (total_words conf) (conf_warnings conf)))
      | inr e => inr (LoadFailed e)
      end
  end.

(** What [init_semantic_dict] reports: the built-in dictionary, one that is
    switched off, or a configured one. *)
Inductive InitReport := Builtin | Disabled (path : string) | Configured (path : string).
Definition init_semantic_dict : InitReport + LoadError :=
  match resolve_semantic_dict_path None with
  | Some path =>
      if negb (exists_ path) then inl Builtin else
      match load_semantic_dict path with
      | inl conf => inl (if enabled conf then Configured path else Disabled path)
      | inr e => inr e
      end
  | None => inl Builtin
  end.
End Load.

(** ** The words of a text ([extract_word.rs]) *)

Inductive WordRole := Entity | Action | Status.
#[export] Instance WordRole_eq_dec : EqDecision WordRole.
Proof. solve_decision. Defined.

Record DebugInfo := mkDebug {
  tokens : list string; pos_tags : list (string * string);
  subject_rule : string; action_rule : string; object_rule : string; status_rule : string;
  subject_confidence : Z; action_confidence : Z; object_confidence : Z; status_confidence : Z }.
Definition DebugInfo_default : DebugInfo := mkDebug [] [] "" "" "" "" 0 0 0 0.

Section Words.
Context `{UnicodeCase} (dict : SemanticDict) (tag : string -> list (string * string)) (to_json : DebugInfo -> string).

Definition classify_eng (word : string) : WordRole :=
  let lower := to_lowercase word in
  if has (status_words dict) lower then Status else
  if has (action_verbs dict) lower then Action else
  if has (entity_nouns dict) lower then Entity else
  if ends_with lower "ing" && (4 <? slen lower) then Action else
  if ends_with lower "ed" && (3 <? slen lower) then Action else
  if (ends_with lower "tion" || ends_with lower "sion") && (5 <? slen lower) then Action else
  Entity.

Definition classify_cn (pos word : string) : option WordRole :=
  let lower := to_lowercase word in
  if has (status_words dict) lower then Some Status else
  if has (action_verbs dict) lower then Some Action else
  if has ["v"; "vn"; "vd"] pos then Some Action else
  if has ["n"; "nr"; "ns"; "nt"; "nz"; "ng"] pos then Some Entity else
  if has (domain_words dict) lower then Some Entity else None.

Record Analysis := mkAnalysis {
  subject : string; action : string; object : string; status : string; action_seen : bool; debug : option DebugInfo }.

Definition set_status_debug (lower : string) (d : DebugInfo) : DebugInfo :=
  let known := has (status_words dict) lower in
  mkDebug (tokens d) (pos_tags d) (subject_rule d) (action_rule d) (object_rule d)
    (if known then "rule1: status_word_match" else "rule2: cn_pos_match")
    (subject_confidence d) (action_confidence d) (object_confidence d) (if known then 10 else 7).
Definition set_action_debug (pos lower : string) (d : DebugInfo) : DebugInfo :=
  let known := has (action_verbs dict) lower in
  let rule :=
    if known then "rule1: action_verb_match" else
    if String.eqb pos "eng" && ends_with lower "ing" then "rule2: eng_ing_suffix" else
    if String.eqb pos "eng" && ends_with lower "ed" then "rule2: eng_ed_suffix" else ("rule3: cn_pos(" +:+ pos +:+ ")")%string in
  mkDebug (tokens d) (pos_tags d) (subject_rule d) rule (object_rule d) (status_rule d)
    (subject_confidence d) (if known then 10 else 7) (object_confidence d) (status_confidence d).
Definition set_subject_debug (pos lower : string) (d : DebugInfo) : DebugInfo :=
  let known := has (domain_words dict) lower in
  mkDebug (tokens d) (pos_tags d)
    (if known then "rule1: domain_entity_match" else ("rule2: core_pos(" +:+ pos +:+ ") + non_stopword")%string)
    (action_rule d) (object_rule d) (status_rule d)
    (if known then 10 else 8) (action_confidence d) (object_confidence d) (status_confidence d).
Definition set_object_debug (pos lower : string) (d : DebugInfo) : DebugInfo :=
  let known := has (domain_words dict) lower in
  mkDebug (tokens d) (pos_tags d) (subject_rule d) (action_rule d)
    (if known then "rule1: domain_entity_match (after_action)" else ("rule2: core_pos(" +:+ pos +:+ ") + after_action")%string)
    (status_rule d) (subject_confidence d) (action_confidence d) (if known then 10 else 8) (status_confidence d).

(** What a word with a role does: the first of each role is kept, and the first
    entity behind the action that is not the subject. *)
Definition assign (s : Analysis) (word pos : string) (role : WordRole) : Analysis :=
  let lower := to_lowercase word in
  match role with
  | Status =>
      if bool_decide (status s = "") then
        mkAnalysis (subject s) (action s) (object s) word (action_seen s) (set_status_debug lower <$> debug s)
      else s
  | Action =>
      if bool_decide (action s = "") then
        mkAnalysis (subject s) word (object s) (status s) true (set_action_debug pos lower <$> debug s)
      else s
  | Entity =>
      if bool_decide (subject s = "") then
        mkAnalysis word (action s) (object s) (status s) (action_seen s) (set_subject_debug pos lower <$> debug s)
      else if action_seen s && bool_decide (object s = "") then
        mkAnalysis (subject s) (action s) word (status s) (action_seen s) (set_object_debug pos lower <$> debug s)
      else s
  end.

(** The words that count, with their roles. *)
Definition role_of (t : string * string) : option (string * string * WordRole) :=
  let '(w, pos) := t in
  let word := str_trim w in
  if bool_decide (word = "") then None else
  if has (stop_words dict) (to_lowercase word) then None else
  (fun role => (word, pos, role)) <$> (if String.eqb pos "eng" then Some (classify_eng word) else classify_cn pos word).

Definition analysis_step (s : Analysis) (t : string * string) : Analysis :=
  match role_of t with Some (word, pos, role) => assign s word pos role | None => s end.

Definition analyze_subject_object_with_debug (text : string) (enable_debug : bool) : Analysis :=
  let tags := tag text in
  let d := if enable_debug then Some (mkDebug (fst <$> tags) tags "" "" "" "" 0 0 0 0) else None in
  foldl analysis_step (mkAnalysis "" "" "" "" false d) tags.

(** The word that [extract_main_word] takes: the first of the domain, or of a
    core part of speech and no stop word. *)
Definition is_main (t : string * string) : bool :=
  let '(word, pos) := t in
  negb (bool_decide (str_trim word = "")) &&
  (has (domain_words dict) (to_lowercase word) ||
   has (core_pos dict) pos && negb (has (stop_words dict) (to_lowercase word))).

Section Fields.
Context `{OmlTypes} {F St : Type} `{!OmlData F St} (is_semantic_enabled : bool).

Definition extract_main_word (in_val : F) : F :=
  if negb is_semantic_enabled then mk_chars (f_name in_val) "" else
  match f_value in_val with
  | Chars x =>
      let cleaned_log := str_trim x in
      if bool_decide (cleaned_log = "") then mk_chars (f_name in_val) "" else
      match List.find is_main (tag cleaned_log) with
      | Some (word, _) => mk_chars (f_name in_val) word
      | None => mk_chars (f_name in_val) ""
      end
  | _ => in_val
  end.

Definition insert_text (o : ObjectT) (k v : string) : ObjectT := obj_insert o k (from_owned (mk_chars k v)).

Definition extract_subject_object (debug_mode : bool) (in_val : F) : F :=
  if negb is_semantic_enabled then from_obj (f_name in_val) obj_default else
  match f_value in_val with
  | Chars x =>
      let cleaned := str_trim x in
      if bool_decide (cleaned = "") then from_obj (f_name in_val) obj_default else
      let a := analyze_subject_object_with_debug cleaned debug_mode in
      let obj := insert_text (insert_text (insert_text (insert_text obj_default "subject" (subject a)) "action" (action a))
                                          "object" (object a)) "status" (status a) in
      let obj := match debug a with Some d => insert_text obj "debug" (to_json d) | None => obj end in
      from_obj (f_name in_val) obj
  | _ => in_val
  end.

(** The argument of [OmlPipe.pipe_value_cacu]. *)
Definition extract_word (p : PipeFun) (in_val : F) : F :=
  match p with
  | ExtractMainWord => extract_main_word in_val
  | ExtractSubjectObject d => extract_subject_object d in_val
  | _ => in_val
  end.
End Fields.
End Words.

(** * Laws *)

(** ** The dictionary *)

Lemma has_app l k w : has (l ++ k) w = has l w || has k w.
Proof.
  unfold has. destruct (decide (w ∈ l)); [rewrite !bool_decide_true by set_solver; done|].
  rewrite (bool_decide_false (w ∈ l)) by done. cbn [orb]. apply bool_decide_ext. rewrite elem_of_app. naive_solver.
Qed.

(** Adding keeps every built-in word and makes known exactly the words that are
    written; replacing touches only the lists that are written. *)
Lemma merge_section_known {A} m words (conf : option A) of_conf w :
  has (merge_section m words conf of_conf) w
  = match conf, m with
    | None, _ => has words w
    | Some c, Add => has words w || has (of_conf c) w
    | Some c, Replace => has (of_conf c) w
    end.
Proof. destruct conf, m; cbn; try done. apply has_app. Qed.

(** A count of words and the different ones among them. *)
Lemma validate_loop_spec words seen e d : let '(e', d') := validate_loop seen e d words in
  e' = e + zlen (filter (fun w => w = "") words) /\
  d' + zlen (remove_dups (filter (fun w => w <> "" /\ w ∉ seen) words)) = d + zlen (filter (fun w => w <> "") words).
Proof.
  revert seen e d. induction words as [|w words IH]; intros seen e d; cbn [validate_loop].
  { cbn. unfold zlen. cbn. lia. }
  case_bool_decide as Ew.
  - specialize (IH seen (e + 1) d). destruct (validate_loop _ _ _ _) as [e' d']. destruct IH as [H1 H2].
    rewrite (filter_cons_True (fun w => w = "")) by done. rewrite zlen_cons.
    rewrite (filter_cons_False (fun w => w <> "")) by (intros H; by apply H).
    rewrite (filter_cons_False (fun w => w <> "" /\ w ∉ seen)) by (intros [H _]; by apply H). lia.
  - rewrite (filter_cons_False (fun w => w = "")) by done. rewrite (filter_cons_True (fun w => w <> "")) by done. rewrite zlen_cons.
    unfold has. case_bool_decide as Es.
    + specialize (IH seen e (d + 1)). destruct (validate_loop _ _ _ _) as [e' d']. destruct IH as [H1 H2].
      rewrite (filter_cons_False (fun w => w <> "" /\ w ∉ seen)) by (intros [_ H]; by apply H). lia.
    + specialize (IH (w :: seen) e d). destruct (validate_loop _ _ _ _) as [e' d']. destruct IH as [H1 H2]. split; [done|].
      rewrite (filter_cons_True (fun w => w <> "" /\ w ∉ seen)) by done.
      set (l := filter (fun w' => w' <> "" /\ w' ∉ w :: seen) words) in H2.
      assert (Hp : remove_dups (w :: filter (fun w' => w' <> "" /\ w' ∉ seen) words) ≡ₚ w :: remove_dups l).
      { apply NoDup_Permutation.
        - apply NoDup_remove_dups.
        - constructor; [|apply NoDup_remove_dups]. rewrite elem_of_remove_dups. unfold l. rewrite list_elem_of_filter.
          intros [[_ Hn] _]. apply Hn. by left.
        - intros x. rewrite elem_of_remove_dups, !elem_of_cons, elem_of_remove_dups. unfold l. rewrite !list_elem_of_filter.
          rewrite elem_of_cons. destruct (decide (x = w)); naive_solver. }
      apply Permutation_length in Hp. unfold zlen in *. rewrite Hp. cbn [length]. lia.
Qed.

(** What the check of a list counts: its empty words, and how many words stand
    there again. *)
Lemma validate_word_list_counts words : let '(empties, dups) := validate_word_list words in
  empties = zlen (filter (fun w => w = "") words) /\
  dups + zlen (remove_dups (filter (fun w => w <> "") words)) = zlen (filter (fun w => w <> "") words).
Proof.
  unfold validate_word_list. pose proof (validate_loop_spec words [] 0 0) as H. destruct (validate_loop _ _ _ _) as [e d].
  destruct H as [H1 H2]. split; [done|].
  assert (Hf : filter (fun w => w <> "" /\ w ∉ []) words = filter (fun w => w <> "") words).
  { apply list_filter_iff. intros x. split; [by intros [? _]|]. intros ?. split; [done|apply not_elem_of_nil]. }
  rewrite Hf in H2. lia.
Qed.

(** C18: What the check of the configuration says is what the engine uses: where it
    finds a dictionary, that one is merged into the built-in words; where it
    finds none, or an error, the built-in words are used alone. *)
Theorem check_tells_dictionary (exists_ : string -> bool) (parse : string -> option SemanticDictConf) (configured : option string)
    (Hp : forall path conf, parse path = Some conf -> exists_ path = true) :
  match check_semantic_dict_config_detailed exists_ parse configured None with
  | inl (Some r) => exists conf, parse (ck_path r) = Some conf /\ ck_mode r = mode conf /\ ck_words r = total_words conf /\
      SEMANTIC_DICT exists_ parse configured = merge builtin conf /\
      init_semantic_dict exists_ parse configured = inl (Configured (ck_path r))
  | inl None => SEMANTIC_DICT exists_ parse configured = builtin /\
      exists r, init_semantic_dict exists_ parse configured = inl r /\ forall p, r <> Configured p
  | inr _ => SEMANTIC_DICT exists_ parse configured = builtin /\ exists e, init_semantic_dict exists_ parse configured = inr e
  end.
Proof.
  unfold check_semantic_dict_config_detailed, SEMANTIC_DICT, init_semantic_dict.
  destruct (resolve_semantic_dict_path exists_ configured None) as [path|].
  2:{ split; [done|]. by eexists. }
  unfold load_semantic_dict. destruct (parse path) as [conf|] eqn:E.
  - rewrite (Hp _ _ E). cbn [negb]. destruct (version conf =? SUPPORTED_VERSION); [|split; [done|by eexists]].
    destruct (enabled conf); cbn [negb].
    + exists conf. done.
    + split; [done|]. by eexists.
  - destruct (exists_ path); cbn [negb]; (split; [done|]); by eexists.
Qed.

Definition demo_words : SemanticDictConf :=
  mkDictConf true 1 Add None (Some [("cloud", ["pod"; "pod"; ""])]) (Some (mkWords ["X"] ["queued"])) None None.
Definition demo_parse (path : string) : option SemanticDictConf := if String.eqb path "knowledge/semantic_dict.toml" then Some demo_words else None.

Lemma check_tells_dictionary_witness :
  (forall path conf, demo_parse path = Some conf -> String.eqb path "knowledge/semantic_dict.toml" = true) /\
  match check_semantic_dict_config_detailed (fun p => String.eqb p "knowledge/semantic_dict.toml") demo_parse None None with
  | inl (Some r) => exists conf, demo_parse (ck_path r) = Some conf /\ ck_mode r = mode conf /\ ck_words r = total_words conf /\
      SEMANTIC_DICT (fun p => String.eqb p "knowledge/semantic_dict.toml") demo_parse None = merge builtin conf /\
      init_semantic_dict (fun p => String.eqb p "knowledge/semantic_dict.toml") demo_parse None = inl (Configured (ck_path r))
  | inl None => SEMANTIC_DICT (fun p => String.eqb p "knowledge/semantic_dict.toml") demo_parse None = builtin /\
      exists r, init_semantic_dict (fun p => String.eqb p "knowledge/semantic_dict.toml") demo_parse None = inl r /\ forall p, r <> Configured p
  | inr _ => SEMANTIC_DICT (fun p => String.eqb p "knowledge/semantic_dict.toml") demo_parse None = builtin /\
      exists e, init_semantic_dict (fun p => String.eqb p "knowledge/semantic_dict.toml") demo_parse None = inr e
  end.
Proof.
  assert (Hp : forall path conf, demo_parse path = Some conf -> String.eqb path "knowledge/semantic_dict.toml" = true).
  { unfold demo_parse. intros path conf. by destruct (String.eqb path _). }
  split; [exact Hp|]. apply (check_tells_dictionary _ _ None Hp).
Defined.

Example demo_words_checked : check_semantic_dict_config_detailed (fun p => String.eqb p "knowledge/semantic_dict.toml") demo_parse None None
  = inl (Some (mkCheck "knowledge/semantic_dict.toml" Add 5
      ["domain_words.cloud: 1 empty word(s)"; "domain_words.cloud: 1 duplicate(s)"])).
Proof. vm_compute. reflexivity. Qed.

(** ** The words of a text *)

Definition word_of (x : string * string * WordRole) : string := x.1.1.
Definition has_role (r : WordRole) (x : string * string * WordRole) : bool := bool_decide (x.2 = r).
Definition with_role (r : WordRole) (l : list (string * string * WordRole)) : list string := word_of <$> filter (fun x => x.2 = r) l.

(** The first word of a role, or none. *)
Definition first_of (r : WordRole) (l : list (string * string * WordRole)) : string := nth 0 (with_role r l) "".

(** What precedes and what follows the first action. *)
Fixpoint split_action (l : list (string * string * WordRole)) : list (string * string * WordRole) * option (list (string * string * WordRole)) :=
  match l with
  | [] => ([], None)
  | x :: l => if has_role Action x then ([], Some l) else let '(b, a) := split_action l in (x :: b, a)
  end.

(** The entity behind the action, but for the subject. *)
Definition object_of (l : list (string * string * WordRole)) : string :=
  match split_action l with
  | (before, Some after) => nth (match with_role Entity before with [] => 1 | _ => 0 end)%nat (with_role Entity after) ""
  | (_, None) => ""
  end.

Lemma with_role_app r l k : with_role r (l ++ k) = with_role r l ++ with_role r k.
Proof. unfold with_role. by rewrite filter_app, fmap_app. Qed.

Lemma with_role_one r x : with_role r [x] = if bool_decide (x.2 = r) then [word_of x] else [].
Proof. unfold with_role. rewrite filter_cons. by case_bool_decide; [rewrite decide_True|rewrite decide_False]. Qed.

Lemma first_of_snoc r l x : first_of r (l ++ [x])
  = match with_role r l with [] => if bool_decide (x.2 = r) then word_of x else "" | w :: _ => w end.
Proof.
  unfold first_of. rewrite with_role_app, with_role_one. destruct (with_role r l); [|done]. cbn [app]. by case_bool_decide.
Qed.

Lemma split_action_snoc l x : split_action (l ++ [x])
  = match split_action l with
    | (b, Some a) => (b, Some (a ++ [x]))
    | (b, None) => if has_role Action x then (b, Some []) else (b ++ [x], None)
    end.
Proof.
  induction l as [|y l IH]; cbn [app split_action]; [by destruct (has_role Action x)|].
  destruct (has_role Action y); [done|]. rewrite IH. destruct (split_action l) as [b [a|]]; [done|].
  by destruct (has_role Action x).
Qed.

Lemma split_action_spec l : match split_action l with
  | (b, Some a) => with_role Entity l = with_role Entity b ++ with_role Entity a /\ with_role Action l <> []
  | (b, None) => with_role Entity b = with_role Entity l /\ with_role Action l = []
  end.
Proof.
  induction l as [|x l IH]; cbn [split_action]; [done|]. unfold has_role.
  change (x :: l) with ([x] ++ l). rewrite !(with_role_app _ [x] l), !with_role_one.
  destruct x as [w r]. cbn [snd]. destruct (bool_decide (r = Action)) eqn:Er.
  - apply bool_decide_eq_true in Er as ->. cbn. split; [done|]. done.
  - destruct (split_action l) as [b [a|]].
    + change ((w, r) :: b) with ([(w, r)] ++ b). rewrite with_role_app, with_role_one. cbn [snd].
      destruct IH as [-> Ha]. split; [by rewrite app_assoc|]. cbn [app]. done.
    + change ((w, r) :: b) with ([(w, r)] ++ b). rewrite with_role_app, with_role_one. cbn [snd].
      by destruct IH as [-> ->].
Qed.

Section AnalysisLaws.
Context `{UnicodeCase} (dict : SemanticDict).

Definition assign_one (s : Analysis) (x : string * string * WordRole) : Analysis := assign dict s (word_of x) x.1.2 x.2.

Lemma steps_assign tags s : foldl (analysis_step dict) s tags = foldl assign_one s (omap (role_of dict) tags).
Proof.
  revert s. induction tags as [|t tags IH]; intros s; cbn [foldl omap list_omap]; [done|]. rewrite IH. unfold analysis_step.
  by destruct (role_of dict t) as [[[w p] r]|].
Qed.

Lemma role_word t x : role_of dict t = Some x -> word_of x <> "".
Proof.
  unfold role_of. destruct t as [w p]. case_bool_decide as E; [done|]. destruct (has _ _); [done|].
  destruct (if String.eqb p "eng" then _ else _); [|done]. by intros [= <-].
Qed.

Lemma nth_nil_iff l k : Forall (fun w : string => w <> "") l -> nth k l "" = "" <-> (length l <= k)%nat.
Proof.
  intros Hl. split.
  - intros E. destruct (le_lt_dec (length l) k) as [|Hk]; [done|]. exfalso.
    rewrite Forall_forall in Hl. eapply Hl; [|exact E]. apply list_elem_of_In. by apply nth_In.
  - apply nth_overflow.
Qed.

(** The four texts and the flag after the words of a list. *)
Definition describes (s : Analysis) (l : list (string * string * WordRole)) : Prop :=
  subject s = first_of Entity l /\ action s = first_of Action l /\ object s = object_of l /\ status s = first_of Status l /\
  action_seen s = negb (bool_decide (with_role Action l = [])).

Lemma with_role_words r l : Forall (fun x => word_of x <> "") l -> Forall (fun w => w <> "") (with_role r l).
Proof.
  intros Hl. unfold with_role. apply Forall_fmap. apply Forall_forall. intros x Hx. apply list_elem_of_filter in Hx as [_ Hx].
  rewrite Forall_forall in Hl. by apply Hl.
Qed.

Lemma first_of_empty r l : Forall (fun x => word_of x <> "") l -> first_of r l = "" <-> with_role r l = [].
Proof.
  intros Hl. unfold first_of. rewrite nth_nil_iff by (by apply with_role_words).
  destruct (with_role r l); cbn; [split; [done|lia]|split; [lia|done]].
Qed.

Lemma object_of_snoc_other l x : x.2 <> Entity -> object_of (l ++ [x]) = object_of l.
Proof.
  intros Hx. unfold object_of. rewrite split_action_snoc. destruct (split_action l) as [b [a|]].
  - rewrite with_role_app, with_role_one, (bool_decide_false _ Hx), app_nil_r. done.
  - destruct (has_role Action x); [|done]. cbn. by destruct (with_role Entity b).
Qed.

Lemma object_of_snoc_entity l x : Forall (fun x => word_of x <> "") l -> x.2 = Entity ->
  object_of (l ++ [x]) = if bool_decide (with_role Action l = []) || bool_decide (with_role Entity l = []) then ""
                         else if bool_decide (object_of l = "") then word_of x else object_of l.
Proof.
  intros Hl Hx. unfold object_of. rewrite split_action_snoc. pose proof (split_action_spec l) as Hs.
  assert (Hh : has_role Action x = false) by (unfold has_role; rewrite Hx; done). rewrite Hh.
  destruct (split_action l) as [b [a|]] eqn:Ea.
  2:{ destruct Hs as [_ ->]. done. }
  destruct Hs as [He Ha]. rewrite (bool_decide_false _ Ha). cbn [orb].
  rewrite with_role_app, with_role_one, (bool_decide_true _ Hx), He.
  assert (Hw : Forall (fun w => w <> "") (with_role Entity b ++ with_role Entity a)).
  { rewrite <- He. by apply with_role_words. }
  apply Forall_app in Hw as [_ Hw]. set (ws := with_role Entity a) in *.
  destruct (with_role Entity b) as [|w wb]; cbn [app].
  - destruct ws as [|w1 [|w2 ws]]; cbn; [done|done|]. rewrite bool_decide_false; [done|].
    apply Forall_cons_1 in Hw as [_ Hw]. apply Forall_cons_1 in Hw as [Hw _]. done.
  - rewrite bool_decide_false by done. destruct ws as [|w1 ws]; cbn; [done|]. rewrite bool_decide_false; [done|].
    by apply Forall_cons_1 in Hw as [Hw _].
Qed.

Lemma assign_describes s l x : Forall (fun x => word_of x <> "") l -> word_of x <> "" -> describes s l -> describes (assign_one s x) (l ++ [x]).
Proof.
  intros Hl Hx (H1 & H2 & H3 & H4 & H5). unfold describes. rewrite !first_of_snoc, with_role_app, with_role_one.
  assert (Hkeep : forall r, match with_role r l with [] => "" | w :: _ => w end = first_of r l) by (intros r; unfold first_of; by destruct (with_role r l)).
  assert (Hsome : forall r, first_of r l <> "" -> forall d : string, match with_role r l with [] => d | w :: _ => w end = first_of r l).
  { intros r Hr d. unfold first_of in *. by destruct (with_role r l). }
  unfold assign_one, assign. destruct (x.2) eqn:Er.
  - rewrite (bool_decide_false (Entity = Action)), (bool_decide_false (Entity = Status)), (bool_decide_true (Entity = Entity)), app_nil_r, !Hkeep by done.
    rewrite (object_of_snoc_entity l x Hl Er). rewrite H1, H3, H5. destruct (decide (first_of Entity l = "")) as [Es|Es].
    + rewrite (bool_decide_true _ Es). apply first_of_empty in Es as Ew; [|done]. rewrite (bool_decide_true (with_role Entity l = []) Ew), orb_true_r, Ew. cbn.
      split; [done|]. split; [done|]. split; [|done]. unfold object_of. pose proof (split_action_spec l) as Hs.
      destruct (split_action l) as [b [a|]]; [|done]. rewrite Ew in Hs. destruct Hs as [Hs _]. symmetry in Hs. by apply app_nil in Hs as [-> ->].
    + rewrite (bool_decide_false _ Es), (bool_decide_false (with_role Entity l = [])) by (by rewrite <- first_of_empty). rewrite orb_false_r, (Hsome Entity Es).
      destruct (bool_decide (with_role Action l = [])) eqn:Ea; cbn [negb andb orb].
      * split; [done|]. split; [done|]. split; [|done]. rewrite H3. unfold object_of. pose proof (split_action_spec l) as Hs.
        apply bool_decide_eq_true in Ea. destruct (split_action l) as [b [a|]]; [by destruct Hs|done].
      * destruct (decide (object_of l = "")) as [Eo|Eo]; [rewrite !(bool_decide_true _ Eo)|rewrite !(bool_decide_false _ Eo)]; split_and!; done.
  - rewrite (bool_decide_false (Action = Entity)), (bool_decide_false (Action = Status)), (bool_decide_true (Action = Action)), !Hkeep by done.
    rewrite object_of_snoc_other by (by rewrite Er). rewrite H2. destruct (decide (first_of Action l = "")) as [Es|Es].
    + rewrite (bool_decide_true _ Es). apply first_of_empty in Es as Ew; [|done]. cbn. rewrite Ew. done.
    + rewrite (bool_decide_false _ Es), (Hsome Action Es). split; [done|]. split; [done|]. split; [done|]. split; [done|].
      rewrite H5. f_equal. apply bool_decide_ext. rewrite first_of_empty in Es by done.
      split; [done|]. intros Hn. by apply app_nil in Hn as [_ ?].
  - rewrite (bool_decide_false (Status = Entity)), (bool_decide_false (Status = Action)), (bool_decide_true (Status = Status)), app_nil_r, !Hkeep by done.
    rewrite object_of_snoc_other by (by rewrite Er). rewrite H4. destruct (decide (first_of Status l = "")) as [Es|Es].
    + rewrite (bool_decide_true _ Es). apply first_of_empty in Es as Ew; [|done]. cbn. rewrite Ew. done.
    + rewrite (bool_decide_false _ Es), (Hsome Status Es). done.
Qed.

Lemma assigns_describe l s k : Forall (fun x => word_of x <> "") (k ++ l) -> describes s k -> describes (foldl assign_one s l) (k ++ l).
Proof.
  revert s k. induction l as [|x l IH]; intros s k Hl Hd; cbn [foldl]; [by rewrite app_nil_r|].
  rewrite (cons_middle x k l), app_assoc in Hl |- *. apply IH; [done|].
  apply Forall_app in Hl as [Hl _]. apply Forall_app in Hl as [Hk Hx]. apply assign_describes; [done| |done].
  by apply Forall_cons_1 in Hx as [Hx _].
Qed.
End AnalysisLaws.

(** C17: Of the words of a text that are no stop words and have a role, the subject
    is the first entity, the action the first action, the status the first
    status, and the object the first entity behind the action that is not the
    subject; the debug output changes none of them. *)
Theorem analysis_takes_firsts `{UnicodeCase} (dict : SemanticDict) (tag : string -> list (string * string)) (text : string) (dbg : bool) :
  let words := omap (role_of dict) (tag text) in
  let a := analyze_subject_object_with_debug dict tag text dbg in
  subject a = first_of Entity words /\ action a = first_of Action words /\ object a = object_of words /\ status a = first_of Status words.
Proof.
  cbv zeta. unfold analyze_subject_object_with_debug. rewrite steps_assign.
  edestruct (assigns_describe dict (omap (role_of dict) (tag text))) with (k := @nil (string * string * WordRole))
    as (H1 & H2 & H3 & H4 & _); [| |by split_and!].
  - cbn [app]. apply Forall_forall. intros x Hx. apply list_elem_of_omap in Hx as (t & _ & Ht). by eapply role_word.
  - done.
Qed.

(** A text's main word is the first that qualifies, or none. *)
Lemma main_word_first `{UnicodeCase} `{OmlTypes} {F St : Type} `{!OmlData F St} `{!OmlLaws}
    (dict : SemanticDict) (tag : string -> list (string * string)) (in_val : F) (x : string) :
  f_value in_val = Chars x ->
  f_value (extract_main_word dict tag true in_val)
    = Chars (if bool_decide (str_trim x = "") then "" else default "" (fst <$> List.find (is_main dict) (tag (str_trim x)))).
Proof.
  intros Hx. unfold extract_main_word. cbn [negb]. rewrite Hx. case_bool_decide; [by rewrite chars_field, new_value|].
  destruct (List.find _ _) as [[w p]|]; by rewrite chars_field, new_value.
Qed.

#[local] Instance ascii_case : UnicodeCase := {| to_lowercase := to_ascii_lowercase |}.

Definition demo_tags (text : string) : list (string * string) :=
  [("The", "eng"); ("server", "eng"); (" ", "x"); ("is", "eng"); ("Rejected", "eng"); ("sending", "eng"); ("to", "eng"); ("client", "eng")].

Example analysis_shown :
  let a := analyze_subject_object_with_debug builtin demo_tags "" true in
  (subject a, action a, object a, status a) = ("server", "sending", "client", "Rejected") /\
  (action_rule <$> debug a) = Some "rule2: eng_ing_suffix".
Proof. vm_compute. split; reflexivity. Qed.

(** The list of Chinese entity nouns is read for English words only: it does not
    stop a word with the part of speech of a verb from being an action. *)
Example chinese_entity_nouns_ignored :
  has (entity_nouns builtin) "会话" = true /\ classify_cn builtin "v" "会话" = Some Action.
Proof. vm_compute. split; reflexivity. Qed.

(** A configured word with a capital is never found: the words of a text are
    looked up in lower case. *)
Example capital_words_unknown :
  classify_eng (merge builtin demo_words) "queued" = Status /\
  has (status_words (merge builtin demo_words)) "X" = true /\ classify_eng (merge builtin demo_words) "X" = Entity.
Proof. vm_compute. repeat split; reflexivity. Qed.

(** No word qualifies: the main word is empty, not the first of the text. *)
Example main_word_no_fallback : List.find (is_main builtin) [("the", "eng"); ("of", "eng")] = None.
Proof. vm_compute. reflexivity. Qed.
