(* ===== verification/Monitor.v ===== *)
(** The monitor (runtime/supervisor/monitor.rs) and the maintainer of broken
    sinks (runtime/supervisor/maintenance.rs).

    [Loop]: [ActorMonitor::stat_proc] as a loop over the branches its [select!]
    takes, each with what its calls answer: the report received, the command,
    the clock readings, the counters [take_snapshot] and the windows
    [take_window] hand over ([Metrics.Counters], [Metrics.ErrorStats]).  The
    sink handle is replaced by other threads between two branches.  What is
    exported is the list of reports of a window; their conversion to records,
    tables and the log are not modelled.  Against it stands a ledger of two maps,
    the window and the total, and the windows sent.

    [Maintenance]: [ActMaintainer::proc] over the queues of its items. *)
From Stdlib Require Import ZArith Lia String.
From stdpp Require Import base gmap list strings sorting.
From S2P Require Import Prelude RateLimit Actor Stats StatsLaws Metrics MetricsLaws.
Import Measure Dim Request Slice Coll Report Collector Collectors Sets Counters ErrorStats.
Local Open Scope string_scope.
Local Open Scope list_scope.
Local Open Scope Z_scope.
Local Open Scope wp_scope.

(** ** The monitor *)
Module Loop.
Section Ops.
Context {L : LruApi StatDim SliceRecord} {C : CollApi}.
(** The terminal of the monitor's sink. *)
Context {SinkTerminal : Type}.

Record ActorMonitor := mkMonitor {
  wparse_stat : RuntimeMetrics;
  runtime_stat : MetricCollectors;
  sink_drop_stat : MetricCollectors;
  run_ctrl : TaskController;
  sink : option SinkTerminal;
  (** the batches given to [send_to_sink_batch], oldest first *)
  exported : list (SinkTerminal * list StatReport);
}.

(** The requirement of the drop counts. *)
Definition drop_req : StatReq := mkReq Sink "sink_dropped_total" All [] 256.

Definition stat_proc_init (reqs : list StatReq) (sink : option SinkTerminal) (now : Z) : ActorMonitor :=
  let sink_reqs := filter (fun r => stage r = Sink) reqs in
  mkMonitor (metrics_registry RuntimeMetrics_default reqs)
    (MetricCollectors_new "__runtime" sink_reqs) (MetricCollectors_new "__sink" [drop_req])
    (TaskController_new "monitor" None now) sink [].

(** [replace] of the sink handle. *)
Definition replace (s : ActorMonitor) (sink : option SinkTerminal) : ActorMonitor :=
  mkMonitor (wparse_stat s) (runtime_stat s) (sink_drop_stat s) (run_ctrl s) sink (exported s).

Definition with_ctrl (s : ActorMonitor) (c : TaskController) : ActorMonitor :=
  mkMonitor (wparse_stat s) (runtime_stat s) (sink_drop_stat s) c (sink s) (exported s).

(** [wparse_stat.slice.merge_slice(x)]. *)
Definition slice_add (m : RuntimeMetrics) (x : StatReport) : RuntimeMetrics :=
  mkMetrics (merge_slice (slice m) x) (total_set m).

(** [merge_collectors_to_slice]: the reports in the collectors' order, the
    collectors emptied. *)
Definition collect_all (c : MetricCollectors) : list StatReport * MetricCollectors :=
  let r := collect_stat <$> items c in
  (r.*1, mkCollectors r.*2 (unit_collectors_end c) (has_data_dims c) (data_groups c)).

Definition merge_collectors_to_slice (c : MetricCollectors) (m : RuntimeMetrics) : MetricCollectors * RuntimeMetrics :=
  let '(reports, c) := collect_all c in (c, foldl slice_add m reports).

(** The four batches of a snapshot; [clk n] are the clock readings of the
    [n]th. *)
Definition record_snapshot (clk : nat -> nat -> Clock) (snap : RuntimeCounterSnapshot) (c : MetricCollectors)
    : MetricCollectors :=
  let c := record_task_batch (clk 0%nat) c "__runtime/monitor_send_drop_full" (monitor_send_drop_full snap) in
  let c := record_task_batch (clk 1%nat) c "__runtime/monitor_send_drop_closed" (monitor_send_drop_closed snap) in
  let c := record_task_batch (clk 2%nat) c "__runtime/sink_channel_full" (sink_channel_full snap) in
  record_task_batch (clk 3%nat) c "__runtime/sink_channel_closed" (sink_channel_closed snap).

Definition drain_runtime_counters (clk : nat -> nat -> Clock) (snap : RuntimeCounterSnapshot)
    (c : MetricCollectors) (m : RuntimeMetrics) : MetricCollectors * RuntimeMetrics :=
  if snapshot_is_empty snap then (c, m)
  else merge_collectors_to_slice (record_snapshot clk snap c) m.

Fixpoint record_windows (clk : nat -> nat -> Clock) (n : nat) (windows : list SinkErrorSnapshot)
    (c : MetricCollectors) : MetricCollectors :=
  match windows with
  | [] => c
  | snap :: windows =>
      record_windows clk (S n) windows (record_task_batch (clk n) c (es_sink snap) (es_window snap))
  end.

Definition drain_sink_error_stats (clk : nat -> nat -> Clock) (windows : list SinkErrorSnapshot)
    (c : MetricCollectors) (m : RuntimeMetrics) : MetricCollectors * RuntimeMetrics :=
  if decide (windows = []) then (c, m)
  else merge_collectors_to_slice (record_windows clk 0 windows c) m.

(** What the process-wide registers answer at the close of a window. *)
Record Drained := mkDrained {
  d_clk : nat -> nat -> Clock;
  d_snapshot : RuntimeCounterSnapshot;
  d_clk' : nat -> nat -> Clock;
  d_windows : list SinkErrorSnapshot;
}.

Definition drain (s : ActorMonitor) (d : Drained) : ActorMonitor :=
  let '(rt, m) := drain_runtime_counters (d_clk d) (d_snapshot d) (runtime_stat s) (wparse_stat s) in
  let '(sd, m) := drain_sink_error_stats (d_clk' d) (d_windows d) (sink_drop_stat s) m in
  mkMonitor m rt sd (run_ctrl s) (sink s) (exported s).

Definition export (s : ActorMonitor) : list (SinkTerminal * list StatReport) :=
  if not_alone (run_ctrl s)
  then match sink s with Some t => exported s ++ [(t, units (slice (wparse_stat s)))] | None => exported s end
  else exported s.

(** [export_tick.tick()]. *)
Definition tick (s : ActorMonitor) (d : Drained) : ActorMonitor :=
  let s := drain s d in
  mkMonitor (sum_up (wparse_stat s)) (runtime_stat s) (sink_drop_stat s) (run_ctrl s) (sink s) (export s).

(** The branches of the [select!], and what other threads do to the handle. *)
Inductive Event :=
  | Recv (x : StatReport)
  | RecvNone
  | Cmd (c : ActorCtrlCmd) (now1 now2 : Z)
  | Idle (now now1 now2 : Z)
  | Tick (d : Drained)
  | Replace (sink : option SinkTerminal).

(** One turn: the state, and whether the loop goes on. *)
Definition turn (s : ActorMonitor) (e : Event) : ActorMonitor * bool :=
  match e with
  | Recv x =>
      (mkMonitor (slice_add (wparse_stat s) x) (runtime_stat s) (sink_drop_stat s)
         (rec_task_suc (run_ctrl s)) (sink s) (exported s), true)
  | RecvNone => (s, false)
  | Cmd c now1 now2 =>
      let ctrl := update_cmd (run_ctrl s) c in
      (with_ctrl s ctrl, negb (is_stop ctrl now1 now2))
  | Idle now now1 now2 =>
      let ctrl := rec_task_idle (run_ctrl s) now in
      (with_ctrl s ctrl, negb (is_stop ctrl now1 now2))
  | Tick d => (tick s d, true)
  | Replace t => (replace s t, true)
  end.

(** The loop over the turns taken: the state, and whether it still runs. *)
Fixpoint turns (s : ActorMonitor) (events : list Event) : ActorMonitor * bool :=
  match events with
  | [] => (s, true)
  | e :: events => let '(s, go) := turn s e in if go then turns s events else (s, false)
  end.

(** After the loop: [tail] is what [try_recv] still finds. *)
Definition finish (s : ActorMonitor) (tail : list StatReport) (d : Drained) : ActorMonitor :=
  let s := mkMonitor (foldl slice_add (wparse_stat s) tail) (runtime_stat s) (sink_drop_stat s)
             (run_ctrl s) (sink s) (exported s) in
  let s := drain s d in
  mkMonitor (sum_up (wparse_stat s)) (runtime_stat s) (sink_drop_stat s) (run_ctrl s) (sink s) (exported s).

Definition stat_proc (reqs : list StatReq) (sink : option SinkTerminal) (now : Z) (events : list Event)
    (tail : list StatReport) (d : Drained) : ActorMonitor :=
  finish (turns (stat_proc_init reqs sink now) events).1 tail d.

(** ** The ledger *)

Record Ledger := mkLedger {
  l_window : gmap Ident StatReport;
  l_total : gmap Ident StatReport;
  l_sink : option SinkTerminal;
  l_sent : list (SinkTerminal * gmap Ident StatReport);
}.

Inductive Move := Book (x : StatReport) | Close (send : bool) | Wire (t : option SinkTerminal).

(** The total takes the window in, identity by identity. *)
Definition carry (total window : gmap Ident StatReport) : gmap Ident StatReport :=
  union_with (fun a b => Some (StatReport_merge a b)) total window.

Definition move (l : Ledger) (k : Move) : Ledger :=
  match k with
  | Book x => mkLedger (spec_merge (l_window l) x) (l_total l) (l_sink l) (l_sent l)
  | Close send =>
      mkLedger ∅ (carry (l_total l) (l_window l)) (l_sink l)
        (match l_sink l with
         | Some t => if send then l_sent l ++ [(t, l_window l)] else l_sent l
         | None => l_sent l
         end)
  | Wire t => mkLedger (l_window l) (l_total l) t (l_sent l)
  end.

Definition ledger (s : ActorMonitor) : Ledger :=
  mkLedger (abs (units (slice (wparse_stat s)))) (abs (units (total_set (wparse_stat s)))) (sink s)
    (prod_map id abs <$> exported s).

(** The reports the monitor makes itself when a window closes. *)
Definition own_reports (s : ActorMonitor) (d : Drained) : list StatReport :=
  (if snapshot_is_empty (d_snapshot d) then []
   else (collect_all (record_snapshot (d_clk d) (d_snapshot d) (runtime_stat s))).1) ++
  (if decide (d_windows d = []) then []
   else (collect_all (record_windows (d_clk' d) 0 (d_windows d) (sink_drop_stat s))).1).

Definition turn_moves (s : ActorMonitor) (e : Event) : list Move :=
  match e with
  | Recv x => [Book x]
  | Tick d => (Book <$> own_reports s d) ++ [Close (not_alone (run_ctrl s))]
  | Replace t => [Wire t]
  | RecvNone | Cmd _ _ _ | Idle _ _ _ => []
  end.

(** The moves of the turns taken, and of the end. *)
Fixpoint moves (s : ActorMonitor) (events : list Event) : list Move :=
  match events with
  | [] => []
  | e :: events => turn_moves s e ++ (let '(s, go) := turn s e in if go then moves s events else [])
  end.

Definition finish_moves (s : ActorMonitor) (tail : list StatReport) (d : Drained) : list Move :=
  (Book <$> tail) ++ (Book <$> own_reports s d) ++ [Close false].

(** The reports the loop received. *)
Fixpoint received (s : ActorMonitor) (events : list Event) : Z :=
  match events with
  | [] => 0
  | e :: events =>
      (match e with Recv _ => 1 | _ => 0 end) +
      (let '(s, go) := turn s e in if go then received s events else 0)
  end.

End Ops.
End Loop.

(** ** The loop keeps the ledger *)
Section LoopLaws.
Import Loop.
Context {L : LruApi StatDim SliceRecord} {C : CollApi} {SinkTerminal : Type}.
Implicit Type s : ActorMonitor (SinkTerminal := SinkTerminal).

Lemma slice_add_all m l :
  foldl slice_add m l = mkMetrics (foldl merge_unit (slice m) l) (total_set m).
Proof. revert m. induction l as [|x l IH]; intros m; [by destruct m|]. cbn [foldl]. by rewrite IH. Qed.

Lemma merge_collectors_reports c m :
  merge_collectors_to_slice c m = ((collect_all c).2, foldl slice_add m (collect_all c).1).
Proof. done. Qed.

(** Draining merges the monitor's own reports and nothing else. *)
Lemma drain_reports s d :
  wparse_stat (drain s d) = foldl slice_add (wparse_stat s) (own_reports s d) /\
  run_ctrl (drain s d) = run_ctrl s /\ sink (drain s d) = sink s /\ exported (drain s d) = exported s.
Proof.
  unfold drain, own_reports, drain_runtime_counters, drain_sink_error_stats.
  destruct (snapshot_is_empty _), (decide (d_windows d = [])); rewrite ?merge_collectors_reports;
    cbn [wparse_stat run_ctrl sink exported]; by rewrite ?foldl_app.
Qed.

(** Carrying a window of distinct reports is merging them one by one. *)
Lemma carry_fold (T : gmap Ident StatReport) us : NoDup (ident <$> us) -> foldl spec_merge T us = carry T (abs us).
Proof.
  revert T. induction us as [|x us IH]; intros T Hnd; cbn [foldl].
  - unfold carry, abs. cbn. by rewrite right_id by (intros m; apply map_eq; intros k; rewrite lookup_union_with, lookup_empty; by destruct (m !! k)).
  - rewrite fmap_cons in Hnd. apply NoDup_cons in Hnd as [Hx Hnd]. rewrite IH by done.
    apply map_eq. intros k. unfold carry.
    change (abs (x :: us)) with (<[ident x := x]> (abs us)). unfold spec_merge. rewrite !lookup_union_with.
    destruct (decide (ident x = k)) as [<-|Hk].
    + rewrite !lookup_insert_eq, abs_absent by done. by destruct (T !! ident x).
    + by rewrite !lookup_insert_ne.
Qed.

(** No identity twice, in the window and in the total. *)
Definition distinct s : Prop :=
  NoDup (ident <$> units (slice (wparse_stat s))) /\ NoDup (ident <$> units (total_set (wparse_stat s))).

Lemma book_all us (l : Ledger (SinkTerminal := SinkTerminal)) :
  foldl move l (Book <$> us) = mkLedger (foldl spec_merge (l_window l) us) (l_total l) (l_sink l) (l_sent l).
Proof.
  revert l. induction us as [|x us IH]; intros l; [by destruct l|]. rewrite fmap_cons. cbn [foldl]. by rewrite IH.
Qed.

Lemma add_all_ledger s us c t : distinct s ->
  let s' := mkMonitor (foldl slice_add (wparse_stat s) us) (runtime_stat s) (sink_drop_stat s) c (sink s) t in
  distinct s' /\ abs (units (slice (wparse_stat s'))) = foldl spec_merge (abs (units (slice (wparse_stat s)))) us /\
  total_set (wparse_stat s') = total_set (wparse_stat s).
Proof.
  intros [H1 H2]. cbn zeta. unfold distinct. cbn [wparse_stat]. rewrite slice_add_all. cbn [slice total_set].
  destruct (merge_fold_refines (slice (wparse_stat s)) us H1) as [H3 H4]. by rewrite H4.
Qed.

(** Summing up closes the window. *)
Lemma sum_up_ledger m : NoDup (ident <$> units (slice m)) -> NoDup (ident <$> units (total_set m)) ->
  units (slice (sum_up m)) = [] /\ NoDup (ident <$> units (total_set (sum_up m))) /\
  abs (units (total_set (sum_up m))) = carry (abs (units (total_set m))) (abs (units (slice m))).
Proof.
  intros H1 H2. destruct (merge_fold_refines (total_set m) (units (slice m)) H2) as [H3 H4].
  split; [done|]. split; [exact H3|]. unfold sum_up, set_merge. cbn [total_set]. by rewrite H4, carry_fold.
Qed.

Lemma tick_ledger s d : distinct s ->
  distinct (tick s d) /\
  ledger (tick s d) = foldl move (ledger s) ((Book <$> own_reports s d) ++ [Close (not_alone (run_ctrl s))]).
Proof.
  intros [H1 H2]. destruct (drain_reports s d) as (E1 & E2 & E3 & E4).
  rewrite foldl_app, book_all. unfold tick, export, ledger, distinct. cbn [wparse_stat sink exported foldl move l_window l_total l_sink l_sent].
  rewrite E1, E2, E3, E4, slice_add_all. cbn [slice].
  destruct (merge_fold_refines (slice (wparse_stat s)) (own_reports s d) H1) as [H3 H4].
  destruct (sum_up_ledger (mkMetrics (foldl merge_unit (slice (wparse_stat s)) (own_reports s d)) (total_set (wparse_stat s))) H3 H2)
    as (S1 & S2 & S3). rewrite S1, S3. split; [split; [constructor|done]|]. cbn [slice total_set]. unfold ledger in *. cbn [l_window l_total l_sink l_sent] in *. rewrite H4.
  f_equal. destruct (not_alone (run_ctrl s)), (sink s) as [t|]; try done.
  rewrite fmap_app, fmap_cons, fmap_nil. unfold prod_map, id. cbn [fst snd]. by rewrite H4.
Qed.

Lemma turn_ledger s e : distinct s ->
  distinct (turn s e).1 /\ ledger (turn s e).1 = foldl move (ledger s) (turn_moves s e).
Proof.
  intros Hd. destruct e as [x| | | |d|t]; cbn [turn fst turn_moves foldl]; try done.
  - destruct (add_all_ledger s [x] (rec_task_suc (run_ctrl s)) (exported s) Hd) as (H1 & H2 & H3).
    split; [exact H1|]. cbn [foldl] in *. unfold ledger. by rewrite H2, H3.
  - by apply tick_ledger.
Qed.

Lemma turns_ledger s events : distinct s ->
  distinct (turns s events).1 /\ ledger (turns s events).1 = foldl move (ledger s) (moves s events).
Proof.
  revert s. induction events as [|e events IH]; intros s Hd; [done|]. cbn [turns moves]. rewrite foldl_app.
  destruct (turn_ledger s e Hd) as [H1 <-]. destruct (turn s e) as [s' []]; cbn [fst] in *; [by apply IH|done].
Qed.

Lemma finish_ledger s tail d : distinct s ->
  distinct (finish s tail d) /\ ledger (finish s tail d) = foldl move (ledger s) (finish_moves s tail d) /\
  l_window (ledger (finish s tail d)) = ∅.
Proof.
  intros Hd. unfold finish, finish_moves. rewrite !foldl_app, !book_all.
  set (s1 := mkMonitor (foldl slice_add _ tail) _ _ _ _ _).
  destruct (add_all_ledger s tail (run_ctrl s) (exported s) Hd) as ([H1 H1'] & H2 & H3). fold s1 in H1, H1', H2, H3.
  destruct (drain_reports s1 d) as (E1 & E2 & E3 & E4).
  change (own_reports s1 d) with (own_reports s d) in E1.
  unfold distinct, ledger. cbn [wparse_stat sink exported foldl move l_window l_total l_sink l_sent]. rewrite E1, E3, E4.
  rewrite slice_add_all.
  destruct (merge_fold_refines (slice (wparse_stat s1)) (own_reports s d) H1) as [H4 H5].
  destruct (sum_up_ledger (mkMetrics (foldl merge_unit (slice (wparse_stat s1)) (own_reports s d)) (total_set (wparse_stat s1))) H4 H1')
    as (S1 & S2 & S3). rewrite S1, S3. cbn [slice total_set]. rewrite H5, H2, H3.
  split; [split; [apply NoDup_nil_2|rewrite H3 in S2; exact S2]|]. split; [|done]. by destruct (sink s).
Qed.

Lemma registry_units st reqs : units (registry st reqs) = units st ++ (StatReport_from <$> reqs).
Proof.
  revert st. induction reqs as [|r reqs IH]; intros st; cbn [registry foldl]; [by rewrite app_nil_r|].
  change (foldl _ _ reqs) with (registry (mkSet (units st ++ [StatReport_from r])
    (<[merge_key (StatReport_from r) := length (units st)]> (index st))) reqs).
  rewrite IH. cbn [units]. by rewrite <- app_assoc.
Qed.

Lemma init_distinct reqs (t : option SinkTerminal) now : NoDup ((fun r => (stage r, name r)) <$> reqs) ->
  distinct (stat_proc_init reqs t now).
Proof.
  intros H. assert (NoDup (ident <$> (StatReport_from <$> reqs))) as Hn.
  { rewrite <- list_fmap_compose. apply (NoDup_fmap_1 (fun i : Ident => i.1)). by rewrite <- list_fmap_compose. }
  split; cbn [stat_proc_init wparse_stat metrics_registry slice total_set RuntimeMetrics_default];
    by rewrite registry_units.
Qed.

(** The count of the controller. *)
Lemma turn_count s e : total_suc_cnt (run_ctrl (turn s e).1) =
  match e with Recv _ => wrap_add 64 (total_suc_cnt (run_ctrl s)) 1 | _ => total_suc_cnt (run_ctrl s) end.
Proof.
  destruct e as [x| | | |d|t]; cbn [turn fst with_ctrl run_ctrl replace]; try done.
  - unfold rec_task_idle. by destruct (last_miss _).
  - unfold tick. cbn [run_ctrl]. by destruct (drain_reports s d) as (_ & -> & _).
Qed.

Lemma received_nonneg s events : 0 <= received s events.
Proof.
  revert s. induction events as [|e events IH]; intros s; cbn [received]; [done|].
  destruct (turn s e) as [s' []]; [pose proof (IH s')|]; destruct e; lia.
Qed.

Lemma turns_count s events : 0 <= total_suc_cnt (run_ctrl s) ->
  total_suc_cnt (run_ctrl s) + received s events <= USIZE_MAX ->
  total_suc_cnt (run_ctrl (turns s events).1) = total_suc_cnt (run_ctrl s) + received s events.
Proof.
  revert s. induction events as [|e events IH]; intros s H0 Hf; cbn [turns received] in *; [cbn; lia|].
  pose proof (turn_count s e) as E. destruct (turn s e) as [s' go] eqn:Et. cbn [fst] in *.
  assert (total_suc_cnt (run_ctrl s') = total_suc_cnt (run_ctrl s) + match e with Recv _ => 1 | _ => 0 end) as E'.
  { rewrite E. destruct e; try lia. apply wrap_add_exact. unfold USIZE_MAX in *.
    destruct go; [pose proof (received_nonneg s' events)|]; lia. }
  destruct go; cbn [fst]; [|lia]. rewrite IH; destruct e; lia.
Qed.

(** C28: the monitor keeps the books of the statistics, given requirements no
    two of which have the same stage and name (such two would be registered as
    two reports of one identity): whatever branches its loop takes, each report received, left in the channel at the end, or made by the
    monitor from the process counters is merged once into the window of its
    identity (stage, name and target); closing a window carries it into the
    total and hands it, whole, to the sink that stands in the handle then,
    unless there is none or the monitor is stopped or isolated; nothing is left
    in the window at the end, no identity is held twice, and the events counted
    are the reports the loop received. *)
Theorem monitor_keeps_books reqs (t : option SinkTerminal) now events tail d
  (Hreqs : NoDup ((fun r => (stage r, name r)) <$> reqs)) :
  let s0 := stat_proc_init reqs t now in
  let s := stat_proc reqs t now events tail d in
  ledger s = foldl move (ledger s0) (moves s0 events ++ finish_moves (turns s0 events).1 tail d) /\
  l_window (ledger s) = ∅ /\ distinct s /\
  (received s0 events <= USIZE_MAX -> total_count (run_ctrl s) = received s0 events).
Proof.
  cbn zeta. unfold stat_proc. destruct (turns_ledger _ events (init_distinct reqs t now Hreqs)) as [D E].
  destruct (finish_ledger _ tail d D) as (D' & E' & W). split; [by rewrite E', foldl_app, E|].
  split; [exact W|]. split; [exact D'|]. intros Hf. unfold total_count, finish. cbn [run_ctrl].
  set (s1 := mkMonitor (foldl slice_add _ tail) _ _ _ _ _). destruct (drain_reports s1 d) as (_ & -> & _). cbn [s1 run_ctrl].
  by rewrite turns_count.
Qed.

(** Once a stop is the last command, no window is exported, the tail neither. *)
Lemma stopped_exports_nothing s c events tail d : work_cmd (run_ctrl s) = Stop c ->
  (forall c now1 now2, Cmd c now1 now2 ∈ events -> exists k, c = Stop k) ->
  exported (finish (turns s events).1 tail d) = exported s.
Proof.
  intros Hc He. transitivity (exported (turns s events).1).
  { unfold finish. cbn [exported]. set (s1 := mkMonitor (foldl slice_add _ tail) _ _ _ _ _). by destruct (drain_reports s1 d) as (_ & _ & _ & ->). }
  revert s c Hc He. induction events as [|e events IH]; intros s c Hc He; [done|]. cbn [turns].
  assert (exported (turn s e).1 = exported s /\ exists c, work_cmd (run_ctrl (turn s e).1) = Stop c) as [E [c' H']].
  { destruct e as [x| |k n1 n2| |w|u]; cbn [turn fst with_ctrl exported run_ctrl replace]; try by eauto.
    - destruct (He k n1 n2 ltac:(left)) as [k' ->]. by eauto.
    - split; [done|]. unfold rec_task_idle. destruct (last_miss _); by eauto.
    - unfold tick, export. cbn [exported run_ctrl]. destruct (drain_reports s w) as (_ & -> & _ & ->).
      unfold not_alone. rewrite Hc. by eauto. }
  destruct (turn s e) as [s' []]; cbn [fst] in *; [|done].
  rewrite (IH s' c' H'), E; [done|]. intros. eapply He. right. eassumption.
Qed.
End LoopLaws.

(** ** The drop counts *)
Section DropLaws.
Import Loop.
Context {L : LruApi StatDim SliceRecord} {LL : LruLaws StatDim SliceRecord L}.
Context {C : CollApi} {CL : CollLaws C}.

Definition drop_collectors : MetricCollectors := MetricCollectors_new "__sink" [drop_req].

(** The calls [record_windows] makes on the one collector. *)
Fixpoint window_calls (clk : nat -> nat -> Clock) (n : nat) (windows : list SinkErrorSnapshot) : list (Clock * Call) :=
  match windows with
  | [] => []
  | w :: windows => (clk n 0%nat, TaskNUnit (es_sink w) (es_window w)) :: window_calls clk (S n) windows
  end.

Definition window_dim (w : SinkErrorSnapshot) : StatDim := make_dim_unit All (es_sink w).

Lemma record_windows_calls clk n windows x e b g : Forall (fun w => es_window w <> 0) windows ->
  record_windows clk n windows (mkCollectors [x] e b g) =
  mkCollectors [foldl run_call x (window_calls clk n windows)] e b g.
Proof.
  revert n x. induction windows as [|w windows IH]; intros n x H; [done|]. apply Forall_cons in H as [Hw H].
  cbn [record_windows window_calls foldl]. unfold record_task_batch. rewrite decide_False by done.
  unfold each_item. cbn [imap items unit_collectors_end has_data_dims data_groups]. by apply IH.
Qed.

Lemma window_calls_count clk n windows d :
  count_of call_total All d (window_calls clk n windows) =
  sum_by (fun w => if decide (window_dim w = d) then es_window w else 0) windows.
Proof.
  revert n. induction windows as [|w windows IH]; intros n; [done|]. unfold count_of in *.
  cbn [window_calls sum_by]. rewrite IH. cbn [fst snd call_dim call_total]. unfold window_dim at 2. by repeat case_decide.
Qed.

Lemma window_calls_touched clk n windows : touched All (window_calls clk n windows) = window_dim <$> windows.
Proof.
  revert n. induction windows as [|w windows IH]; intros n; [done|].
  cbn [window_calls]. rewrite touched_cons. cbn [snd call_touches call_dim app]. rewrite fmap_cons. by f_equal.
Qed.

Lemma window_calls_fit clk n windows : Forall (fun w => 0 <= es_window w) windows ->
  sum_by es_window windows <= USIZE_MAX -> window_fits (window_calls clk n windows).
Proof.
  intros H Hs. assert (forall n, sum_by (fun k => call_total k.2) (window_calls clk n windows) = sum_by es_window windows /\
    sum_by (fun k => call_success k.2) (window_calls clk n windows) = sum_by es_window windows) as E.
  { clear. induction windows as [|w windows IH]; intros n; [done|]. cbn. destruct (IH (S n)). lia. }
  destruct (E n) as [E1 E2]. split; [|by rewrite E1, E2]. clear -H. revert n.
  induction H; intros n; constructor; [done|auto].
Qed.

Lemma window_dim_inj : Inj eq eq (fun sink : string => make_dim_unit All sink).
Proof. intros a b H. by injection H. Qed.

Lemma sum_by_found (windows : list SinkErrorSnapshot) w : NoDup (es_sink <$> windows) -> w ∈ windows ->
  sum_by (fun v => if decide (window_dim v = window_dim w) then es_window v else 0) windows = es_window w.
Proof.
  induction windows as [|v windows IH]; [by intros _ ?%not_elem_of_nil|].
  rewrite fmap_cons, NoDup_cons. intros [Hv Hnd] [->|Hw]%elem_of_cons; cbn [sum_by].
  - rewrite decide_True by done. assert (forall l, es_sink v ∉ (es_sink <$> l) ->
      sum_by (fun u => if decide (window_dim u = window_dim v) then es_window u else 0) l = 0) as Hz.
    { clear. induction l as [|u l IH]; [done|]. rewrite fmap_cons, not_elem_of_cons. intros [H1 H2]. cbn [sum_by].
      rewrite decide_False by (intros E%window_dim_inj; congruence). rewrite IH by done. lia. }
    rewrite Hz by done. lia.
  - rewrite decide_False, IH by (done || (intros E%window_dim_inj; apply Hv; rewrite E; by apply list_elem_of_fmap_2)). lia.
Qed.

(** A report of few records holds them all. *)
Lemma collected_whole (s : StatCollector) : Z.of_nat (length (view s)) <= 512 -> require s = drop_req ->
  data (collect_stat s).1 ≡ₚ (snd <$> view s).
Proof.
  intros Hlen Hr. unfold collect_stat, collect_from_cache_swapped, collect_from_cache, StatReport_new. cbn [fst data].
  rewrite Hr. cbn [max drop_req].
  pose proof (collect_data (req_target drop_req) None (lru_into_iter (record s)) []) as E. unfold closed in E at 1.
  cbn [app] in E. rewrite E. change (req_target drop_req) with All.
  assert (filter (fun p : StatDim * SliceRecord => include All p.1) (lru_into_iter (record s)) = lru_into_iter (record s)) as ->
    by (apply filter_all; apply Forall_forall; by intros).
  destruct (keep_top_spec 256 ((fun p : StatDim * SliceRecord => closed None p.2) <$> lru_into_iter (record s)))
    as (_ & Hl & dropped & Hp & _); [lia|].
  assert (length (lru_into_iter (record s)) = length (view s)) as Hv by (unfold view; by rewrite lru_into_iter_view).
  assert (dropped = []) as ->.
  { apply Permutation_length in Hp. rewrite length_app in Hp. unfold zlen in Hl. rewrite length_fmap, Hv in *.
    apply length_zero_iff_nil. lia. }
  rewrite app_nil_r in Hp. rewrite <- Hp. unfold view. by rewrite <- lru_into_iter_view.
Qed.

(** What the report of one window holds. *)
Definition drop_row (x : SliceRecord) : string * Z := (item_key x, total (stat x)).
Definition window_row (w : SinkErrorSnapshot) : string * Z := ((es_sink w +:+ "@")%string, es_window w).

Lemma drop_report_rows clk (windows : list SinkErrorSnapshot) : NoDup (es_sink <$> windows) ->
  Forall (fun w => 0 <= es_window w) windows -> sum_by es_window windows <= USIZE_MAX -> zlen windows <= 256 ->
  drop_row <$> data (collect_stat (foldl run_call (StatCollector_new "__sink" drop_req) (window_calls clk 0 windows))).1
    ≡ₚ window_row <$> windows.
Proof.
  intros Hnd Hpos Hsum Hroom. set (calls := window_calls clk 0 windows).
  destruct (window_run "__sink" drop_req calls (window_calls_fit clk 0 windows Hpos Hsum)) as [I1 _ _ _ I5 _ I7 I8].
  set (s := foldl run_call _ calls) in *. change (req_target drop_req) with All in *. unfold calls in I7, I8.
  rewrite window_calls_touched in I8.
  assert (NoDup (window_dim <$> windows)) as Hnd'.
  { change window_dim with (make_dim_unit All ∘ es_sink). rewrite list_fmap_compose. apply NoDup_fmap_2; [apply window_dim_inj|done]. }
  destruct I8 as [J1 J2].
  { unfold zlen, room in *. cbn [max drop_req]. 
    pose proof (submseteq_length (remove_dups (window_dim <$> windows)) (window_dim <$> windows)) as Hle.
    rewrite length_fmap in Hle. enough (length (remove_dups (window_dim <$> windows)) <= length windows)%nat by (unfold MIN_CACHE_SIZE; lia).
    apply Hle, NoDup_submseteq; [apply NoDup_remove_dups|]. intros d. by rewrite elem_of_remove_dups. }
  set (row := fun d => (StatDim_display d, count_of call_total All d (window_calls clk 0 windows))).
  assert ((fun p : StatDim * SliceRecord => drop_row p.2) <$> view s = row <$> (fst <$> view s)) as E1.
  { rewrite <- list_fmap_compose. apply list_fmap_ext. intros i [d x] Hx%list_elem_of_lookup_2. cbn.
    destruct (I7 _ _ Hx) as (_ & K & _). destruct (J2 _ _ Hx) as [T _]. unfold drop_row, row. by rewrite K, T. }
  assert (row <$> (window_dim <$> windows) = window_row <$> windows) as E2.
  { rewrite <- list_fmap_compose. apply list_fmap_ext. intros i w Hw%list_elem_of_lookup_2. cbn.
    unfold row, window_row. by rewrite window_calls_count, sum_by_found. }
  assert ((fst <$> view s) ≡ₚ (window_dim <$> windows)) as E3 by (by apply NoDup_Permutation).
  transitivity (drop_row <$> (snd <$> view s)); [|by rewrite <- list_fmap_compose, <- E2, <- E3, <- E1].
  apply fmap_Permutation. apply collected_whole; [|done]. rewrite <- (length_fmap fst), E3, length_fmap. unfold zlen in *. lia.
Qed.

(** The windows the registry hands over. *)
Lemma take_window_shape m : NoDup (es_sink <$> (take_window m).1) /\
  (forall w, w ∈ (take_window m).1 <-> es_window w <> 0 /\ exists e, m !! es_sink w = Some e /\ w = snapshot (es_sink w) e).
Proof.
  unfold take_window, sorted_entries. cbn [fst].
  assert (merge_sort key_le (map_to_list m) ≡ₚ map_to_list m) as Hp by apply merge_sort_Permutation.
  split.
  - rewrite <- list_fmap_compose. apply (NoDup_keys_filter (fun p => dropped_window p.2 <> 0)).
    rewrite Hp. apply NoDup_fst_map_to_list.
  - intros w. rewrite list_elem_of_fmap. setoid_rewrite list_elem_of_filter. setoid_rewrite Hp. split.
    + intros ([k e] & -> & Hw & He%elem_of_map_to_list). cbn in *. by eauto.
    + intros [Hw (e & He & E)]. exists (es_sink w, e). split; [exact E|]. cbn. rewrite elem_of_map_to_list.
      split; [|done]. by rewrite E in Hw.
Qed.

(** C29: the drop counts of a window reach the books: when the registry hands
    its window over, the collector's one report has a row for every sink that
    dropped records, under the sink's name, with the exact number, and no other
    row, so long as no more than 256 sinks dropped in the window; the report
    goes into the open window, nothing is merged when no sink dropped, and the
    collector starts the next window empty. *)
Theorem drop_windows_reported (m : Registry) clk M
  (Hpos : forall sink e, m !! sink = Some e -> 0 <= dropped_window e)
  (Hsum : sum_by es_window (take_window m).1 <= USIZE_MAX) (Hroom : zlen (take_window m).1 <= 256) :
  let windows := (take_window m).1 in
  let '(c, M') := drain_sink_error_stats clk windows drop_collectors M in
  c = drop_collectors /\
  (windows = [] -> M' = M) /\
  (windows <> [] -> exists report, M' = slice_add M report /\ req report = drop_req /\
     cur_target report = Some "__sink" /\ drop_row <$> data report ≡ₚ window_row <$> windows).
Proof.
  cbn zeta. destruct (take_window_shape m) as [Hnd Hw]. set (windows := (take_window m).1) in *.
  assert (Forall (fun w => 0 <= es_window w) windows) as Hnn.
  { apply Forall_forall. intros w Hin. apply Hw in Hin as (_ & e & He & ->). by eapply Hpos. }
  unfold drain_sink_error_stats. destruct (decide (windows = [])) as [Hz|Hz]; [done|].
  unfold drop_collectors at 1. change (MetricCollectors_new "__sink" [drop_req]) with
    (mkCollectors [StatCollector_new "__sink" drop_req] 1 false []).
  rewrite record_windows_calls by (apply Forall_forall; intros w Hin; by apply Hw in Hin as [? _]).
  destruct (window_run "__sink" drop_req (window_calls clk 0 windows) (window_calls_fit clk 0 windows Hnn Hsum)) as [I1 I2 _ _ _ _ _ _].
  pose proof (drop_report_rows clk windows Hnd Hnn Hsum Hroom) as Hrows.
  set (s := foldl run_call _ _) in *. rewrite merge_collectors_reports. unfold collect_all. cbn [items fmap list_fmap fst snd foldl].
  split; [|split; [done|intros _]].
  - cbn [unit_collectors_end has_data_dims data_groups collect_stat collect_from_cache_swapped snd]. by rewrite I1, I2.
  - eexists. split; [reflexivity|]. split; [exact I1|]. split; [|exact Hrows].
    unfold collect_stat, collect_from_cache_swapped, collect_from_cache, StatReport_new. cbn [fst cur_target]. by rewrite I2.
Qed.
End DropLaws.

(** ** The maintainer *)
Module Maintenance.
Section Ops.
(** A sink handle; [reconnect] may change the sink inside. *)
Context {ASinkHandle : Type}.

(** The capacity of both channels. *)
Definition CHANNEL_CAP : nat := 100.

(** An item of [keep_item]: the channel of broken sinks, whose both ends the
    item keeps, the channel of repaired ones, and the handle between a [recv]
    and the [send] that ends the visit. *)
Record Item := mkItem {
  bad_q : list ASinkHandle;
  fix_q : list ASinkHandle;
  (** the receiver [fix_channel] gave out still lives *)
  fix_open : bool;
  in_hand : option ASinkHandle;
}.

Definition fix_channel : Item := mkItem [] [] true None.

(** The steps of the maintainer ([proc]) and of the sinks around it, one
    channel operation each; [None] when a step has to wait. *)
Inductive Step :=
  (** [bad_sink_r.recv()] within the poll timeout *)
  | Receive
  (** [reconnect] answered, [h] the handle after it; the handle is sent on *)
  | Settle (h : ASinkHandle) (ok : bool)
  (** a sink sends its broken handle *)
  | Offer (h : ASinkHandle)
  (** a sink takes a repaired handle *)
  | Take
  (** the sink ends: its receiver is gone *)
  | Gone.

Definition send (q : list ASinkHandle) (h : ASinkHandle) : option (list ASinkHandle) :=
  if decide (length q < CHANNEL_CAP)%nat then Some (q ++ [h]) else None.

(** The item after a step, and the handles that leave it. *)
Definition step (i : Item) (k : Step) : option (Item * list ASinkHandle) :=
  match k with
  | Receive =>
      match in_hand i, bad_q i with
      | None, h :: q => Some (mkItem q (fix_q i) (fix_open i) (Some h), [])
      | _, _ => None
      end
  | Settle h true =>
      match in_hand i with
      | None => None
      | Some _ =>
          if fix_open i
          then q ← send (fix_q i) h; Some (mkItem (bad_q i) q true None, [])
          else Some (mkItem (bad_q i) (fix_q i) false None, [h])
      end
  | Settle h false =>
      match in_hand i with
      | None => None
      | Some _ => q ← send (bad_q i) h; Some (mkItem q (fix_q i) (fix_open i) None, [])
      end
  | Offer h => q ← send (bad_q i) h; Some (mkItem q (fix_q i) (fix_open i) (in_hand i), [])
  | Take =>
      match fix_open i, fix_q i with
      | true, h :: q => Some (mkItem (bad_q i) q true (in_hand i), [h])
      | _, _ => None
      end
  | Gone => Some (mkItem (bad_q i) [] false (in_hand i), fix_q i)
  end.

Fixpoint steps (i : Item) (ks : list Step) : option (Item * list ASinkHandle) :=
  match ks with
  | [] => Some (i, [])
  | k :: ks => '(i, out) ← step i k; '(i, out') ← steps i ks; Some (i, out ++ out')
  end.

(** The handles an item holds, and those offered to it. *)
Definition held (i : Item) : nat := length (bad_q i) + length (fix_q i) + (if in_hand i then 1 else 0).
Definition offered (ks : list Step) : nat := foldr (fun k n => match k with Offer _ => S n | _ => n end) 0%nat ks.

Definition bounded (i : Item) : Prop := (length (bad_q i) <= CHANNEL_CAP)%nat /\ (length (fix_q i) <= CHANNEL_CAP)%nat.

End Ops.

Lemma send_length {A} (q : list A) h q' : send q h = Some q' ->
  length q' = S (length q) /\ (length q' <= CHANNEL_CAP)%nat.
Proof. unfold send. case_decide; intros [= <-]. rewrite length_app. cbn. lia. Qed.

Lemma step_counts {A} (i : Item (ASinkHandle := A)) k i' out : bounded i -> step i k = Some (i', out) ->
  bounded i' /\ (held i' + length out = held i + match k with Offer _ => 1 | _ => 0 end)%nat.
Proof.
  unfold bounded, held. intros [B1 B2] H.
  destruct i as [b f [] [h|]], k as [|x []|x| |]; cbn in *; try done;
    try (apply bind_Some in H as (q & E & [= <- <-]); apply send_length in E; cbn; lia);
    repeat case_match; simplify_eq/=; lia.
Qed.

(** Whatever order the maintainer and the sinks take their steps in, handles
    are neither lost nor doubled: every one offered is in a queue, in the
    maintainer's hand, or was taken by its sink, or had no sink left; no queue
    outgrows its channel. *)
Lemma handles_conserved {A} (i : Item (ASinkHandle := A)) ks i' out : bounded i -> steps i ks = Some (i', out) ->
  bounded i' /\ (held i' + length out = held i + offered ks)%nat.
Proof.
  revert i i' out. induction ks as [|k ks IH]; intros i i' out B H; [injection H as <- <-; split; [done|]; by rewrite !Nat.add_0_r|].
  cbn [steps] in H. apply bind_Some in H as ([i1 o1] & E1 & H). apply bind_Some in H as ([i2 o2] & E2 & [= <- <-]).
  destruct (step_counts _ _ _ _ B E1) as [B1 C1]. destruct (IH _ _ _ B1 E2) as [B2 C2]. split; [done|].
  rewrite length_app. unfold offered in *. destruct k; cbn [foldr] in *; lia.
Qed.

(** A visit that fails puts the handle back at the end of its queue; one that
    succeeds hands it to the sink. *)
Lemma visit_settles {A} (h h' : A) q f ok : (length q < CHANNEL_CAP)%nat -> (length f < CHANNEL_CAP)%nat ->
  steps (mkItem (h :: q) f true None) [Receive; Settle h' ok] =
  Some (if ok then mkItem q (f ++ [h']) true None else mkItem (q ++ [h']) f true None, []).
Proof.
  intros H1 H2. destruct ok; cbn; unfold send; by rewrite decide_True by done.
Qed.

(** A full queue of broken sinks blocks the maintainer for good: it alone takes
    handles from the queue it waits to send to. *)
Lemma full_bad_queue_stays {A} (i : Item (ASinkHandle := A)) h k i' out : length (bad_q i) = CHANNEL_CAP ->
  in_hand i = Some h -> (forall h, k <> Settle h true) -> step i k = Some (i', out) ->
  bad_q i' = bad_q i /\ in_hand i' = Some h.
Proof.
  intros Hl Hh Hk H. destruct i as [b f o hd], k as [|x []|x| |]; cbn in *; subst hd; unfold send in *;
    try rewrite decide_False in H by lia; repeat case_match; simplify_eq/=; try done; by destruct (Hk x).
Qed.
End Maintenance.

(** ** Witnesses *)
(** A window with a report received and a full channel counted, closed to the
    first sink; the sink replaced; a report in the second window, which a stop
    keeps from being exported; one report left in the channel. *)
Definition demo_report (n : Z) : StatReport := mkReport demo_req (Some "t") [demo_record "x" n 1].
Definition demo_drained (n : Z) : Loop.Drained :=
  Loop.mkDrained (fun _ _ => demo_clock) (mkSnapshot n 0 0 0) (fun _ _ => demo_clock) [].
Definition demo_turns : list (Loop.Event (SinkTerminal := nat)) :=
  [Loop.Recv (demo_report 2); Loop.Tick (demo_drained 1); Loop.Replace (Some 8%nat); Loop.Recv (demo_report 3);
   Loop.Cmd (Execute Actor.All) 1 1; Loop.Cmd (Stop Immediate) 2 2; Loop.Recv (demo_report 5)].

Lemma monitor_keeps_books_witness :
  let s := Loop.stat_proc (L:=list_lru) (C:=merge_coll) [demo_req; sink_req] (Some 7%nat) 0 demo_turns [demo_report 4] (demo_drained 0) in
  NoDup ((fun r => (stage r, name r)) <$> [demo_req; sink_req]) /\
  Loop.l_window (Loop.ledger s) = ∅ /\ total_count (Loop.run_ctrl s) = 2 /\
  map fst (Loop.exported s) = [7%nat] /\
  match Loop.l_total (Loop.ledger s) !! ident (demo_report 0) with
  | Some u => data u = [demo_record "x" 9 3] | None => False
  end.
Proof.
  assert (NoDup ((fun r => (stage r, name r)) <$> [demo_req; sink_req])) as Hr
    by (apply (bool_decide_unpack _); vm_compute; exact I).
  split; [exact Hr|].
  destruct (monitor_keeps_books (L:=list_lru) (C:=merge_coll) [demo_req; sink_req] (Some 7%nat) 0 demo_turns [demo_report 4]
    (demo_drained 0) Hr) as (_ & Hw & _ & Hc).
  split; [exact Hw|]. split; [apply Hc; vm_compute; congruence|]. split; vm_compute; reflexivity.
Defined.

Lemma drop_windows_reported_witness :
  let m : Registry := {[ "file_out" := mkEntry 5 3 None None ]} in
  let windows := (take_window m).1 in
  windows <> [] /\
  exists report, drop_row <$> data report ≡ₚ [("file_out@", 3)].
Proof.
  cbn zeta. assert ((take_window {[ "file_out" := mkEntry 5 3 None None ]}).1 = [mkErrorSnapshot "file_out" 3 5 None None]) as E.
  { vm_compute. reflexivity. }
  split; [by rewrite E|].
  pose proof (drop_windows_reported (LL:=list_lru_laws) (CL:=merge_coll_laws) {[ "file_out" := mkEntry 5 3 None None ]}
    (fun _ _ => demo_clock) RuntimeMetrics_default) as H. cbn zeta in H. rewrite E in H.
  assert (forall sink e, ({[ "file_out" := mkEntry 5 3 None None ]} : Registry) !! sink = Some e -> 0 <= dropped_window e) as Hp.
  { intros sink e [_ <-]%lookup_singleton_Some. done. }
  specialize (H Hp ltac:(vm_compute; congruence) ltac:(vm_compute; congruence)).
  destruct (Loop.drain_sink_error_stats _ _ _ _) as [c M']. destruct H as (_ & _ & H).
  destruct (H ltac:(done)) as (report & _ & _ & _ & Hr). exists report. exact Hr.
Defined.
