(* ===== verification/ConfParams.v ===== *)
(** Parameters of connectors and what all configuration shares
    ([crates/wp-config/src/{connectors,utils.rs}]): JSON and TOML values and
    their conversions, the merge of overrides under an allow list, tags,
    variables in texts.

    A parameter table is a finite map.  The order in which it is iterated
    belongs to its implementation: it is the argument [iter], which lists every
    entry once ([IterLaw]). *)
From Stdlib Require Import ZArith Lia String Ascii.
From Stdlib Require Import Floats.SpecFloat.
From stdpp Require Import prelude gmap strings.
From S2P Require Import Prelude F64 Text Tags.
Local Open Scope string_scope.
Local Open Scope list_scope.
Local Open Scope Z_scope.

(** ** Values *)

(** [serde_json::Number]: never negative, negative, or a finite float. *)
Inductive Number := PosInt (n : Z) | NegInt (n : Z) | FloatNum (x : spec_float).

Inductive Json :=
  | JNull
  | JBool (b : bool)
  | JNumber (n : Number)
  | JString (s : string)
  | JArray (l : list Json)
  | JObject (l : list (string * Json)).

(** [toml::Value]; a date is its text. *)
Inductive Toml :=
  | TString (s : string)
  | TInteger (n : Z)
  | TFloat (x : spec_float)
  | TBoolean (b : bool)
  | TDatetime (text : string)
  | TArray (l : list Toml)
  | TTable (l : list (string * Toml)).

Definition number_from_i64 (n : Z) : Number := if n <? 0 then NegInt n else PosInt n.
Definition number_from_f64 (x : spec_float) : option Number := if is_finite x then Some (FloatNum x) else None.
Definition number_as_i64 (n : Number) : option Z :=
  match n with PosInt n => if n <=? I64_MAX then Some n else None | NegInt n => Some n | FloatNum _ => None end.
Definition number_as_u64 (n : Number) : option Z := match n with PosInt n => Some n | _ => None end.
Definition number_as_f64 (n : Number) : option spec_float :=
  match n with PosInt n | NegInt n => Some (as_f64 n) | FloatNum x => Some x end.

Definition as_str (v : Json) : option string := match v with JString s => Some s | _ => None end.
Definition as_u64 (v : Json) : option Z := match v with JNumber n => number_as_u64 n | _ => None end.

Fixpoint param_value_from_toml (value : Toml) : Json :=
  match value with
  | TString s => JString s
  | TInteger i => JNumber (number_from_i64 i)
  | TFloat f => match number_from_f64 f with Some n => JNumber n | None => JNull end
  | TBoolean b => JBool b
  | TDatetime dt => JString dt
  | TArray arr => JArray (map param_value_from_toml arr)
  | TTable tab => JObject (map (fun kv => (kv.1, param_value_from_toml kv.2)) tab)
  end.

Fixpoint param_value_to_toml (value : Json) : Toml :=
  match value with
  | JNull => TString "null"
  | JBool b => TBoolean b
  | JNumber num =>
      match number_as_i64 num with
      | Some i => TInteger i
      | None =>
          match number_as_u64 num with
          | Some u => if u <=? I64_MAX then TInteger u else TFloat (as_f64 u)
          | None => match number_as_f64 num with Some f => TFloat f | None => TFloat (S754_zero false) end
          end
      end
  | JString s => TString s
  | JArray arr => TArray (map param_value_to_toml arr)
  | JObject obj => TTable (map (fun kv => (kv.1, param_value_to_toml kv.2)) obj)
  end.

(** [json_type_label] *)
Definition json_type_label (v : Json) : string :=
  match v with
  | JNull => "null"
  | JBool _ => "boolean"
  | JNumber (PosInt _) | JNumber (NegInt _) => "integer"
  | JNumber (FloatNum _) => "float"
  | JString _ => "string"
  | JArray _ => "array"
  | JObject _ => "object"
  end.

(** ** Parameter tables *)

Notation ParamMap := (gmap string Json).

Definition IterLaw (iter : ParamMap -> list (string * Json)) : Prop := forall m, iter m ≡ₚ map_to_list m.

Definition param_map_from_table_ref (table : list (string * Toml)) : ParamMap :=
  foldl (fun m kv => <[kv.1 := param_value_from_toml kv.2]> m) ∅ table.

Definition param_map_to_table (iter : ParamMap -> list (string * Json)) (m : ParamMap) : list (string * Toml) :=
  map (fun kv => (kv.1, param_value_to_toml kv.2)) (iter m).

Inductive MergeError :=
  | NestedTable (k : string)
  | SourceOnly (k : string)
  | GroupOnly (k : string)
  | NotAllowed (k : string)
  | TypeMismatch (k expected provided : string).

Definition allowed (allow : list string) (k : string) : bool := existsb (String.eqb k) allow.

(** The loop of a merge; [guard] is what it checks of a key. *)
Fixpoint merge_loop (guard : string -> option MergeError) (m : ParamMap) (l : list (string * Json)) : ParamMap + MergeError :=
  match l with
  | [] => inl m
  | (k, v) :: l =>
      match guard k with
      | Some e => inr e
      | None =>
          match m !! k with
          | Some default_val =>
              if String.eqb (json_type_label default_val) (json_type_label v) then merge_loop guard (<[k := v]> m) l
              else inr (TypeMismatch k (json_type_label default_val) (json_type_label v))
          | None => merge_loop guard (<[k := v]> m) l
          end
      end
  end.

Definition merge_guard (allow : list string) (k : string) : option MergeError :=
  if allowed allow k then None else Some (NotAllowed k).

Definition is_nested_field_blacklisted (k : string) : bool := String.eqb k "params" || String.eqb k "params_override".

Section Merge.
Variable iter : ParamMap -> list (string * Json).

(** [connectors/params.rs] *)
Definition merge_params (base overrides : ParamMap) (allow_override : list string) : ParamMap + MergeError :=
  merge_loop (merge_guard allow_override) base (iter overrides).
End Merge.

(** ** Tags *)

Definition is_ascii_alphanumeric (c : ascii) : bool :=
  ((48 <=? code c) && (code c <=? 57)) || ((65 <=? code c) && (code c <=? 90)) || ((97 <=? code c) && (code c <=? 122)).
Definition one_of (s : string) (c : ascii) : bool := existsb (Ascii.eqb c) (list_ascii_of_string s).

Definition is_valid_tag_key_char (c : ascii) : bool := is_ascii_alphanumeric c || one_of "_.-" c.
Definition is_valid_tag_val_char (c : ascii) : bool := is_ascii_alphanumeric c || one_of "_.:/=@+,-" c.

Inductive TagError := TooManyTags (n : Z) | BadTagKey (idx : Z) (k : string) | BadTagValue (idx : Z) (v : string).

Definition tag_pair (item : string) : string * string :=
  match str_split_once ":" item with
  | Some (k, v) => (str_trim k, str_trim v)
  | None =>
      match str_split_once "=" item with
      | Some (k, v) => (str_trim k, str_trim v)
      | None => (str_trim item, "true")
      end
  end.

Fixpoint validate_tag_items (idx : Z) (items : list string) : option TagError :=
  match items with
  | [] => None
  | item :: items =>
      let '(k, v) := tag_pair item in
      if String.eqb k "" || (32 <? slen k) || negb (forallb is_valid_tag_key_char (list_ascii_of_string k)) then
        Some (BadTagKey idx k)
      else if (64 <? slen v) || negb (forallb is_valid_tag_val_char (list_ascii_of_string v)) then Some (BadTagValue idx v)
      else validate_tag_items (idx + 1) items
  end.

Definition validate_tags (items : list string) : option TagError :=
  if 4 <? zlen items then Some (TooManyTags (zlen items)) else validate_tag_items 0 items.

(** ** Variables

    [env_eval] of a text is the variate crate's: the argument [eval]. *)
Definition env_eval_params (eval : string -> string) (params : ParamMap) : ParamMap :=
  (fun v => match v with JString s => JString (eval s) | v => v end) <$> params.
Definition env_eval_vec {A} (eval : A -> A) (params : list A) : list A := map eval params.
