(* ===== verification/SinkConf.v ===== *)
(** The configuration of sink groups
    ([crates/wp-config/src/{sinks,structure}]): expectations, instances, groups,
    and the building of a group from its route file, its defaults and the
    connectors it names; the infrastructure groups.

    Outside of this: reading and parsing the files (what they hold is an
    argument), the wildcard of [wildmatch], the text formats of the data model,
    the parser of filter conditions and the factories of the plugins. *)
From Stdlib Require Import ZArith Lia String Ascii.
From Stdlib Require Import Floats.SpecFloat.
From stdpp Require Import prelude gmap strings pretty.
From S2P Require Import Prelude F64 Text Tags ConfParams.
Local Open Scope string_scope.
Local Open Scope list_scope.
Local Open Scope Z_scope.

(** ** Expectations *)

Record SinkExpectOverride := mkExpect {
  ratio : option spec_float; tol : option spec_float; e_min : option spec_float; e_max : option spec_float }.
Definition SinkExpectOverride_default : SinkExpectOverride := mkExpect None None None None.

(** [RangeInclusive::contains] *)
Definition in_range (lo hi : Z) (x : spec_float) : bool := fle (as_f64 lo) x && fle x (as_f64 hi).
Definition opt_test {A} (f : A -> bool) (o : option A) : bool := match o with Some x => f x | None => true end.

Inductive ExpectError := RatioRange | TolRange | MinRange | MaxRange | MinAboveMax | MixedStyles.

Definition expect_validate (e : SinkExpectOverride) : option ExpectError :=
  let in_min_max v := is_finite v && in_range 0 1000 v in
  if negb (opt_test in_min_max (ratio e)) then Some RatioRange else
  if negb (opt_test (fun t => fle (S754_zero false) t && is_finite t) (tol e)) then Some TolRange else
  if negb (opt_test in_min_max (e_min e)) then Some MinRange else
  if negb (opt_test in_min_max (e_max e)) then Some MaxRange else
  if match e_min e, e_max e with Some mn, Some mx => flt mx mn | _, _ => false end then Some MinAboveMax else
  let has_rt := bool_decide (is_Some (ratio e)) || bool_decide (is_Some (tol e)) in
  let has_mm := bool_decide (is_Some (e_min e)) || bool_decide (is_Some (e_max e)) in
  if has_rt && has_mm then Some MixedStyles else None.

Inductive ExpectMode := Warn | Error | PanicMode.
Inductive Basis := GroupInput | TotalInput | Model (mdl : string).

(** The visitor of [Basis::deserialize]. *)
Definition parse_basis (v : string) : option Basis :=
  let s := str_trim v in
  if eq_ignore_ascii_case s "group_input" then Some GroupInput else
  if eq_ignore_ascii_case s "total_input" then Some TotalInput else
  if starts_with s "mdl:" then
    let name := str_trim (String.substring 4 (String.length s - 4) s) in
    if String.eqb name "" then None else Some (Model name)
  else None.

Record GroupExpectSpec := mkGroupExpect {
  basis : Basis;
  window : option string;
  min_samples : option Z;
  mode : ExpectMode;
  sum_tol : option spec_float;
  others_max : option spec_float;
}.
Definition GroupExpectSpec_default : GroupExpectSpec := mkGroupExpect GroupInput None None Warn None None.

Inductive GroupExpectError := SumTolRange | OthersMaxRange.
Definition group_expect_validate (g : GroupExpectSpec) : option GroupExpectError :=
  if negb (opt_test (in_range 0 1) (sum_tol g)) then Some SumTolRange else
  if negb (opt_test (in_range 0 1000) (others_max g)) then Some OthersMaxRange else None.

(** ** Instances *)

(** The text formats, the wildcards and the texts of numbers, as the crates make
    them. *)
Class ConfCrates := {
  TextFmt : Type;
  fmt_from : string -> TextFmt;
  fmt_json : TextFmt;
  fmt_raw : TextFmt;
  fmt_proto : TextFmt;
  Wild : Type;
  wild_new : string -> Wild;
  wild_default : list Wild;
  number_text : Number -> string;
}.

Record CoreSinkSpec := mkCore {
  c_name : string; c_kind : string; c_params : ParamMap; c_filter : option string; c_tags : list string }.

Record SinkInstanceConf `{ConfCrates} := mkSink {
  core : CoreSinkSpec;
  fmt : TextFmt;
  expect : option SinkExpectOverride;
  filter_expect : bool;
  drop_when_error : bool;
  connector_id : option string;
  group_name : option string;
}.

Inductive SinkConfError :=
  | SinkNameEmpty | FileWithoutPath | StreamTagField | MetaDisableField
  | FilterUnreadable | FilterSyntax | FilterNotFound | BadExpect (e : ExpectError) | BadTags (e : TagError).

(** Files and the condition parser, as far as the validation of a filter asks. *)
Record FilterFiles := mkFiles {
  ff_exists : string -> bool;
  ff_read : string -> option string;
  ff_parses : string -> bool;
}.

Section Instance.
Context `{ConfCrates}.

Definition s_name (s : SinkInstanceConf) : string := c_name (core s).
Definition s_tags (s : SinkInstanceConf) : list string := c_tags (core s).
Definition s_kind (s : SinkInstanceConf) : string := c_kind (core s).
Definition s_params (s : SinkInstanceConf) : ParamMap := c_params (core s).
Definition s_filter (s : SinkInstanceConf) : option string := c_filter (core s).

Definition with_core (s : SinkInstanceConf) (c : CoreSinkSpec) : SinkInstanceConf :=
  mkSink _ c (fmt s) (expect s) (filter_expect s) (drop_when_error s) (connector_id s) (group_name s).
Definition set_tags (s : SinkInstanceConf) (tags : list string) : SinkInstanceConf :=
  with_core s (mkCore (s_name s) (s_kind s) (s_params s) (s_filter s) tags).

Definition new_type (name : string) (fmt : TextFmt) (kind : string) (params : ParamMap) (filter : option string) : SinkInstanceConf :=
  mkSink _ (mkCore name kind params filter []) fmt None true false None None.
Definition file_new (name : string) (txt_fmt : TextFmt) (path : string) (filter : option string) : SinkInstanceConf :=
  new_type name txt_fmt "file" (<["path" := JString path]> ∅) filter.
Definition null_new (name : string) (fmt : TextFmt) (filter : option string) : SinkInstanceConf := new_type name fmt "null" ∅ filter.

Definition full_name (s : SinkInstanceConf) : string :=
  match group_name s with
  | Some g => if String.eqb g "" then s_name s else (g +:+ "/" +:+ s_name s)%string
  | None => s_name s
  end.

Definition sink_batch_size (default_batch_size : Z) (s : SinkInstanceConf) : Z :=
  default default_batch_size (s_params s !! "batch_size" ≫= as_u64).

Definition is_file_kind (kind : string) : bool := String.eqb kind "file" || String.eqb kind "test_rescue".

Definition resolve_file_path (s : SinkInstanceConf) : option string :=
  if is_file_kind (s_kind s) then
    let p := s_params s in
    if bool_decide (is_Some (p !! "base")) || bool_decide (is_Some (p !! "file")) then
      let base := default "./data/out_dat" (p !! "base" ≫= as_str) in
      let file := default "out.dat" (p !! "file" ≫= as_str) in
      Some (base +:+ "/" +:+ file)%string
    else p !! "path" ≫= as_str
  else None.

Definition read_filter_content (fs : FilterFiles) (s : SinkInstanceConf) : option string :=
  match s_filter s with
  | Some path =>
      if ff_exists fs path then
        match ff_read fs path with Some conf => if String.eqb conf "" then None else Some conf | None => None end
      else None
  | None => None
  end.

Definition non_blank (o : option string) : bool := match o with Some s => negb (String.eqb (str_trim s) "") | None => false end.

Definition validate_filter (fs : FilterFiles) (filter : option string) : option SinkConfError :=
  match filter with
  | None => None
  | Some path =>
      if ff_exists fs path then
        match ff_read fs path with
        | None => Some FilterUnreadable
        | Some content =>
            if String.eqb (str_trim content) "" then None
            else if ff_parses fs content then None else Some FilterSyntax
        end
      else Some FilterNotFound
  end.

Definition sink_validate (fs : FilterFiles) (s : SinkInstanceConf) : option SinkConfError :=
  let p := s_params s in
  if String.eqb (str_trim (s_name s)) "" then Some SinkNameEmpty else
  if is_file_kind (s_kind s) && negb (non_blank (p !! "base" ≫= as_str) || non_blank (p !! "file" ≫= as_str)) then
    Some FileWithoutPath else
  if bool_decide (is_Some (p !! "stream_tag_field")) then Some StreamTagField else
  if bool_decide (is_Some (p !! "wp_meta_disable")) then Some MetaDisableField else
  match validate_filter fs (s_filter s) with
  | Some e => Some e
  | None =>
      match (match expect s with Some e => expect_validate e | None => None end) with
      | Some e => Some (BadExpect e)
      | None => match validate_tags (s_tags s) with Some e => Some (BadTags e) | None => None end
      end
  end.

(** [env_eval] of an instance. *)
Definition sink_env_eval (eval : string -> string) (s : SinkInstanceConf) : SinkInstanceConf :=
  mkSink _
    (mkCore (eval (s_name s)) (eval (s_kind s)) (env_eval_params eval (s_params s)) (eval <$> s_filter s) (env_eval_vec eval (s_tags s)))
    (fmt s) (expect s) (filter_expect s) (drop_when_error s) (eval <$> connector_id s) (group_name s).
End Instance.

(** ** Groups *)

Record FlexGroup `{ConfCrates} := mkFlex {
  g_name : string;
  g_parallel : Z;
  g_rule : list Wild;
  g_oml : list Wild;
  g_tags : list string;
  g_wp_meta_disable : list string;
  g_filter : option string;
  g_expect : option GroupExpectSpec;
  g_batch_timeout_ms : Z;
  g_batch_size : Z;
  g_sinks : list SinkInstanceConf;
}.

Record FixedGroup `{ConfCrates} := mkFixed {
  f_name : string;
  f_expect : option GroupExpectSpec;
  f_sinks : list SinkInstanceConf;
  f_parallel : Z;
  f_batch_timeout_ms : Z;
  f_batch_size : Z;
}.

Definition default_batch_timeout_ms : Z := 300.

(** [parallel_cnt] of both. *)
Definition parallel_cnt (parallel : Z) : Z := if parallel =? 0 then 1 else if parallel <=? 10 then parallel else 10.

Inductive GroupError :=
  | GroupNameEmpty | ParallelAbove10 | GroupTags (e : TagError) | GroupExpect (e : GroupExpectError) | NoSinks.

Section Group.
Context `{ConfCrates}.
(** [limits::sink_batch_size()] *)
Variable default_batch_size : Z.

Definition build_conf (name : string) (sinks : list SinkInstanceConf) : FlexGroup :=
  mkFlex _ name 1 wild_default wild_default [] [] None None default_batch_timeout_ms default_batch_size sinks.

Definition extend_matches (rule : list string) : list Wild := map wild_new rule.

Definition flex_validate (g : FlexGroup) : option GroupError :=
  if String.eqb (str_trim (g_name g)) "" then Some GroupNameEmpty else
  if 10 <? g_parallel g then Some ParallelAbove10 else
  match validate_tags (g_tags g) with
  | Some e => Some (GroupTags e)
  | None =>
      match (e ← g_expect g; group_expect_validate e) with
      | Some e => Some (GroupExpect e)
      | None => if bool_decide (g_sinks g = []) then Some NoSinks else None
      end
  end.

Definition fixed_validate (g : FixedGroup) : option GroupError :=
  if String.eqb (str_trim (f_name g)) "" then Some GroupNameEmpty else
  if 10 <? f_parallel g then Some ParallelAbove10 else
  match (e ← f_expect g; group_expect_validate e) with
  | Some e => Some (GroupExpect e)
  | None => if bool_decide (f_sinks g = []) then Some NoSinks else None
  end.

Definition flex_env_eval (eval : string -> string) (g : FlexGroup) : FlexGroup :=
  mkFlex _ (eval (g_name g)) (g_parallel g) (g_rule g) (g_oml g) (env_eval_vec eval (g_tags g))
    (env_eval_vec eval (g_wp_meta_disable g)) (eval <$> g_filter g) (g_expect g) (g_batch_timeout_ms g) (g_batch_size g)
    (env_eval_vec (sink_env_eval eval) (g_sinks g)).
Definition fixed_env_eval (eval : string -> string) (g : FixedGroup) : FixedGroup :=
  mkFixed _ (f_name g) (f_expect g) (map (sink_env_eval eval) (f_sinks g)) (f_parallel g) (f_batch_timeout_ms g) (f_batch_size g).
End Group.

(** A group of either kind. *)
Inductive SinkGroupConf `{ConfCrates} := Flexi (g : FlexGroup) | Fixed (g : FixedGroup).

Section GroupConf.
Context `{ConfCrates}.
Definition group_sinks (g : SinkGroupConf) : list SinkInstanceConf := match g with Flexi x => g_sinks x | Fixed x => f_sinks x end.
Definition group_conf_name (g : SinkGroupConf) : string := match g with Flexi x => g_name x | Fixed x => f_name x end.
Definition group_batch_timeout_ms (g : SinkGroupConf) : Z :=
  match g with Flexi x => g_batch_timeout_ms x | Fixed x => f_batch_timeout_ms x end.
Definition group_batch_size (g : SinkGroupConf) : Z := match g with Flexi x => g_batch_size x | Fixed x => f_batch_size x end.
Definition group_meta_disable (g : SinkGroupConf) : list string := match g with Flexi x => g_wp_meta_disable x | Fixed _ => [] end.
Definition group_append (g : SinkGroupConf) (conf : SinkInstanceConf) : SinkGroupConf :=
  match g with
  | Flexi x => Flexi (mkFlex _ (g_name x) (g_parallel x) (g_rule x) (g_oml x) (g_tags x) (g_wp_meta_disable x) (g_filter x)
                        (g_expect x) (g_batch_timeout_ms x) (g_batch_size x) (g_sinks x ++ [conf]))
  | Fixed x => Fixed (mkFixed _ (f_name x) (f_expect x) (f_sinks x ++ [conf]) (f_parallel x) (f_batch_timeout_ms x) (f_batch_size x))
  end.
Definition group_validate (g : SinkGroupConf) : option GroupError :=
  match g with Flexi x => flex_validate x | Fixed x => fixed_validate x end.
End GroupConf.

(** ** Route files ([sinks/types.rs]) *)

Inductive StringOrArray := Single (s : string) | Multiple (v : list string).
Definition as_vec (x : StringOrArray) : list string := match x with Single s => [s] | Multiple v => v end.

Record RouteSink := mkRouteSink {
  rs_connect : string;
  rs_inner_name : option string;
  rs_params : ParamMap;
  rs_tags : option (list string);
  rs_expect : option SinkExpectOverride;
  rs_filter : option string;
  rs_filter_expect : bool;
  rs_drop_when_error : bool;
}.

Record RouteGroup := mkRouteGroup {
  rg_name : string;
  rg_parallel : option Z;
  rg_oml : option StringOrArray;
  rg_rule : option StringOrArray;
  rg_tags : option (list string);
  rg_wp_meta_disable : option (list string);
  rg_expect : option GroupExpectSpec;
  rg_batch_timeout_ms : option Z;
  rg_batch_size : option Z;
  rg_sinks : list RouteSink;
}.

Record RouteFile := mkRouteFile { rf_version : option string; sink_group : RouteGroup; rf_origin : option string }.
Record DefaultsBody := mkDefaults { d_tags : option (list string); d_expect : GroupExpectSpec }.

(** What is read of a [ConnectorDef]. *)
Record ConnectorDef := mkConnector {
  k_id : string;
  k_kind : string;
  k_default_params : ParamMap;
  k_allow_override : list string;
}.

Definition route_sink_env_eval (eval : string -> string) (s : RouteSink) : RouteSink :=
  mkRouteSink (eval (rs_connect s)) (eval <$> rs_inner_name s) (env_eval_params eval (rs_params s))
    (env_eval_vec eval <$> rs_tags s) (rs_expect s) (eval <$> rs_filter s) (rs_filter_expect s) (rs_drop_when_error s).
Definition route_group_env_eval (eval : string -> string) (g : RouteGroup) : RouteGroup :=
  mkRouteGroup (eval (rg_name g)) (rg_parallel g) (rg_oml g) (rg_rule g) (env_eval_vec eval <$> rg_tags g)
    (env_eval_vec eval <$> rg_wp_meta_disable g) (rg_expect g) (rg_batch_timeout_ms g) (rg_batch_size g)
    (env_eval_vec (route_sink_env_eval eval) (rg_sinks g)).
Definition route_file_env_eval (eval : string -> string) (rf : RouteFile) : RouteFile :=
  mkRouteFile (rf_version rf) (route_group_env_eval eval (sink_group rf)) (rf_origin rf).

(** ** Building a group ([sinks/build.rs]) *)

Definition SUPPORTED_WP_META_DISABLE_FIELDS : list string := ["wp_oml_name"; "wp_event_md5"].

Definition is_source_only_runtime_field (k : string) : bool := String.eqb k "stream_tag_field".
Definition is_group_only_runtime_field (k : string) : bool := String.eqb k "wp_meta_disable".

Definition sink_merge_guard (allow : list string) (k : string) : option MergeError :=
  if is_nested_field_blacklisted k then Some (NestedTable k) else
  if is_source_only_runtime_field k then Some (SourceOnly k) else
  if is_group_only_runtime_field k then Some (GroupOnly k) else
  if allowed allow k then None else Some (NotAllowed k).

Inductive BuildError :=
  | ConnectorNotFound (id : string)
  | BadParams (e : MergeError)
  | DuplicateSink (name : string)
  | BadSink (e : SinkConfError)
  | PluginRejects
  | EmptyGroup (name : string)
  | MetaFieldEmpty
  | MetaFieldUnsupported (field : string)
  | InfraParallel (name : string).

Definition conf_bind {A B E} (r : A + E) (k : A -> B + E) : B + E := match r with inl a => k a | inr e => inr e end.
Notation "'let?' x ':=' r 'in' k" := (conf_bind r (fun x => k)) (at level 200, x name, r at level 100, k at level 200) : wp_scope.
Local Open Scope wp_scope.

Fixpoint validate_wp_meta_disable_fields (fields : list string) : list string + BuildError :=
  match fields with
  | [] => inl []
  | field :: fields =>
      let field := str_trim field in
      if String.eqb field "" then inr MetaFieldEmpty else
      if existsb (String.eqb field) SUPPORTED_WP_META_DISABLE_FIELDS then
        let? l := validate_wp_meta_disable_fields fields in inl (field :: l)
      else inr (MetaFieldUnsupported field)
  end.

(** What a connector's factory is asked to validate. *)
Record SinkSpec := mkSpec {
  sp_group : string; sp_name : string; sp_kind : string; sp_connector_id : string; sp_params : ParamMap; sp_filter : option string }.

Section Build.
Context `{ConfCrates}.
Variable iter : ParamMap -> list (string * Json).
Variable default_batch_size : Z.
Variable fs : FilterFiles.
(** The factories: whether the one of a kind, if any, accepts a specification. *)
Variable reg : string -> option (SinkSpec -> bool).

Definition merge_params_with_allowlist (base overrides : ParamMap) (allow : list string) : ParamMap + MergeError :=
  merge_loop (sink_merge_guard allow) base (iter overrides).

Definition pick_string (m : ParamMap) (key : string) : option string :=
  match m !! key with
  | Some (JString s) => Some s
  | Some (JNumber n) => Some (number_text n)
  | Some (JArray arr) => head (omap as_str arr)
  | _ => None
  end.

Definition decide_fmt (conn : ConnectorDef) (params : ParamMap) : TextFmt :=
  if is_file_kind (k_kind conn) then fmt_from (default "json" (pick_string params "fmt")) else fmt_json.

Definition instance_name (index : nat) (r : RouteSink) : string :=
  default ("[" +:+ pretty index +:+ "]")%string (rs_inner_name r).

Definition build_sink_instance (group : string) (index : nat) (conn : ConnectorDef) (r : RouteSink) : SinkInstanceConf + BuildError :=
  match merge_params_with_allowlist (k_default_params conn) (rs_params r) (k_allow_override conn) with
  | inr e => inr (BadParams e)
  | inl merged =>
      let c := mkCore (instance_name index r) (k_kind conn) merged (rs_filter r) (default [] (rs_tags r)) in
      inl (mkSink _ c (decide_fmt conn merged) (rs_expect r) (rs_filter_expect r) (rs_drop_when_error r) (Some (k_id conn)) (Some group))
  end.

Definition collect_group_matchers (g : RouteGroup) : list string * list string :=
  (match rg_oml g with Some x => as_vec x | None => [] end, match rg_rule g with Some x => as_vec x | None => [] end).

Definition assemble_sink_tags (defaults_tags group_tags : option (list string)) (s : SinkInstanceConf) : SinkInstanceConf :=
  set_tags s (default [] defaults_tags ++ default [] group_tags ++ s_tags s).

(** The core of an instance, as its factory sees it. *)
Definition core_to_connector_resolved_with (c : CoreSinkSpec) (group connector_id : string) : SinkSpec :=
  mkSpec group (c_name c) (c_kind c) connector_id (c_params c) (c_filter c).

Definition plugin_accepts (group : string) (conn : ConnectorDef) (s : SinkInstanceConf) : bool :=
  match reg (s_kind s) with
  | Some validate_spec => validate_spec (core_to_connector_resolved_with (core s) group (k_id conn))
  | None => true
  end.

Definition apply_group_metadata (g : FlexGroup) (rg : RouteGroup) (defaults : option DefaultsBody) : FlexGroup + BuildError :=
  let parallel := default (g_parallel g) (rg_parallel rg) in
  let expect := match rg_expect rg with
    | Some e => Some e
    | None => match g_expect g with Some e => Some e | None => d_expect <$> defaults end
    end in
  let tags := default (g_tags g) (rg_tags rg) in
  let? disabled := match rg_wp_meta_disable rg with Some l => validate_wp_meta_disable_fields l | None => inl (g_wp_meta_disable g) end in
  inl (mkFlex _ (g_name g) parallel (g_rule g) (g_oml g) tags disabled (g_filter g) expect
         (default (g_batch_timeout_ms g) (rg_batch_timeout_ms rg)) (default (g_batch_size g) (rg_batch_size rg)) (g_sinks g)).

Record SinkRouteConf := mkRoute { r_version : string; r_group : FlexGroup }.

(** One sink of the group; [guard] are the names so far. *)
Definition build_one (conn_map : gmap string ConnectorDef) (rg : RouteGroup) (defaults : option DefaultsBody)
    (idx : nat) (guard : gset string) (s : RouteSink) : SinkInstanceConf + BuildError :=
  match conn_map !! rs_connect s with
  | None => inr (ConnectorNotFound (rs_connect s))
  | Some conn =>
      let? sink := build_sink_instance (rg_name rg) idx conn s in
      let sink := assemble_sink_tags (defaults ≫= d_tags) (rg_tags rg) sink in
      if bool_decide (s_name sink ∈ guard) then inr (DuplicateSink (s_name sink)) else
      match sink_validate fs sink with
      | Some e => inr (BadSink e)
      | None => if plugin_accepts (rg_name rg) conn sink then inl sink else inr PluginRejects
      end
  end.

Fixpoint build_sinks (conn_map : gmap string ConnectorDef) (rg : RouteGroup) (defaults : option DefaultsBody)
    (idx : nat) (guard : gset string) (l : list RouteSink) : list SinkInstanceConf + BuildError :=
  match l with
  | [] => inl []
  | s :: l =>
      let? sink := build_one conn_map rg defaults idx guard s in
      let? sinks := build_sinks conn_map rg defaults (S idx) ({[s_name sink]} ∪ guard) l in
      inl (sink :: sinks)
  end.

Definition build_route_conf_from_with (rf : RouteFile) (defaults : option DefaultsBody) (conn_map : gmap string ConnectorDef)
    : SinkRouteConf + BuildError :=
  let rg := sink_group rf in
  let '(oml_vec, rule_vec) := collect_group_matchers rg in
  let? sinks := build_sinks conn_map rg defaults 0 ∅ (rg_sinks rg) in
  if bool_decide (sinks = []) then inr (EmptyGroup (rg_name rg)) else
  let g := build_conf default_batch_size (rg_name rg) sinks in
  let g := mkFlex _ (g_name g) (g_parallel g) (extend_matches rule_vec) (extend_matches oml_vec) (g_tags g) (g_wp_meta_disable g)
             (g_filter g) (g_expect g) (g_batch_timeout_ms g) (g_batch_size g) (g_sinks g) in
  let? g := apply_group_metadata g rg defaults in
  inl (mkRoute "2.0" g).

(** The route files of [business.d]. *)
Fixpoint load_business_route_confs_with (routes : list RouteFile) (defaults : option DefaultsBody) (conn_map : gmap string ConnectorDef)
    : list SinkRouteConf + BuildError :=
  match routes with
  | [] => inl []
  | rf :: routes =>
      let? conf := build_route_conf_from_with rf defaults conn_map in
      let? out := load_business_route_confs_with routes defaults conn_map in
      inl (conf :: out)
  end.
End Build.

(** ** The infrastructure groups ([sinks/infra.rs], [structure/framework.rs]) *)

Definition OUT_FILE_PATH : string := "./data/out_dat".

Definition GROUP_MONITOR : string := "monitor".
Definition GROUP_DEFAULT : string := "default".
Definition GROUP_MISS : string := "miss".
Definition GROUP_RESIDUE : string := "residue".
Definition GROUP_ERROR : string := "error".
Definition INFRA_GROUPS : list string := [GROUP_MONITOR; GROUP_DEFAULT; GROUP_MISS; GROUP_RESIDUE; GROUP_ERROR].
Definition is_infra_group_name (name : string) : bool := existsb (String.eqb name) INFRA_GROUPS.

Record InfraSinkConf `{ConfCrates} := mkInfra {
  i_default : FixedGroup; i_miss : FixedGroup; i_residue : FixedGroup; i_monitor : FlexGroup; i_error : FixedGroup }.

Section Infra.
Context `{ConfCrates}.

Definition out_file (name : string) : string := (OUT_FILE_PATH +:+ "/" +:+ name)%string.

Definition default_ins : FixedGroup :=
  mkFixed _ "default" None [file_new "default_sink" fmt_proto (out_file "default.dat") None] 1 default_batch_timeout_ms 128.
Definition miss_ins : FixedGroup :=
  mkFixed _ "miss" None [file_new "miss_sink" fmt_raw (out_file "miss.dat") None] 1 default_batch_timeout_ms 1.
Definition residue_ins : FixedGroup :=
  mkFixed _ "residue" None [file_new "residue_sink" fmt_raw (out_file "residue.dat") None] 1 default_batch_timeout_ms 1.
Definition error_ins : FixedGroup :=
  mkFixed _ "error" None [file_new "err_sink" fmt_raw (out_file "error.dat") None] 1 default_batch_timeout_ms 1.
Definition monitor_ins : FlexGroup :=
  mkFlex _ "monitor" 1 wild_default wild_default [] [] None (Some (mkGroupExpect GroupInput None (Some 100) Warn None None))
    default_batch_timeout_ms 1 [file_new "monitor_sink" fmt_proto (out_file "monitor.dat") None].

Definition InfraSinkConf_default : InfraSinkConf := mkInfra _ default_ins miss_ins residue_ins monitor_ins error_ins.

(** A group of a route file as a fixed group. *)
Definition fixed_of (g : FlexGroup) (batch_size : Z) : FixedGroup :=
  mkFixed _ (g_name g) (g_expect g) (g_sinks g) (parallel_cnt (g_parallel g)) default_batch_timeout_ms batch_size.

(** [limits::sink_batch_size()] *)
Variable default_batch_size : Z.

Definition infra_step (conf : InfraSinkConf) (c : SinkRouteConf) : InfraSinkConf :=
  let g := r_group c in
  let n := g_name g in
  if String.eqb n GROUP_DEFAULT then
    mkInfra _ (fixed_of g 128) (i_miss conf) (i_residue conf) (i_monitor conf) (i_error conf) else
  if String.eqb n GROUP_MISS then
    mkInfra _ (i_default conf) (fixed_of g 1) (i_residue conf) (i_monitor conf) (i_error conf) else
  if String.eqb n GROUP_RESIDUE then
    mkInfra _ (i_default conf) (i_miss conf) (fixed_of g 1) (i_monitor conf) (i_error conf) else
  if String.eqb n GROUP_ERROR then
    mkInfra _ (i_default conf) (i_miss conf) (i_residue conf) (i_monitor conf) (fixed_of g 1) else
  if String.eqb n GROUP_MONITOR then
    let monitor :=
      if g_batch_size g =? default_batch_size then
        mkFlex _ (g_name g) (g_parallel g) (g_rule g) (g_oml g) (g_tags g) (g_wp_meta_disable g) (g_filter g) (g_expect g)
          (g_batch_timeout_ms g) 1 (g_sinks g)
      else g in
    mkInfra _ (i_default conf) (i_miss conf) (i_residue conf) monitor (i_error conf)
  else conf.

Variable iter : ParamMap -> list (string * Json).
Variable fs : FilterFiles.

(** The route files of [infra.d]; no factory is asked. *)
Fixpoint load_infra_route_confs (routes : list RouteFile) (defaults : option DefaultsBody) (conn_map : gmap string ConnectorDef)
    : list SinkRouteConf + BuildError :=
  match routes with
  | [] => inl []
  | rf :: routes =>
      if bool_decide (is_Some (rg_parallel (sink_group rf))) then inr (InfraParallel (rg_name (sink_group rf))) else
      let? conf := build_route_conf_from_with iter default_batch_size fs (fun _ => None) rf defaults conn_map in
      let? out := load_infra_route_confs routes defaults conn_map in
      inl (conf :: out)
  end.

(** [load]: [dirs] is whether [infra.d] or [business.d] is there; [None] is the
    error of neither. *)
Definition infra_load (dirs : bool) (routes : list RouteFile) (defaults : option DefaultsBody) (conn_map : gmap string ConnectorDef)
    : option (InfraSinkConf + BuildError) :=
  if dirs then
    Some (let? confs := load_infra_route_confs routes defaults conn_map in
          inl (foldl infra_step InfraSinkConf_default confs))
  else None.

Definition infra_env_eval (eval : string -> string) (c : InfraSinkConf) : InfraSinkConf :=
  mkInfra _ (fixed_env_eval eval (i_default c)) (fixed_env_eval eval (i_miss c)) (fixed_env_eval eval (i_residue c))
    (flex_env_eval eval (i_monitor c)) (fixed_env_eval eval (i_error c)).
End Infra.
