(* ===== verification/SourceConf.v ===== *)
(** The configuration of sources and of connectors
    ([crates/wp-config/src/{sources,connectors/toml.rs,structure/source}]):
    the connectors of a directory, a source resolved against them, the checks
    of the plugins. *)
From Stdlib Require Import ZArith Lia String Ascii.
From stdpp Require Import prelude gmap strings.
From S2P Require Import Prelude Text Tags ConfParams SinkConf.
Local Open Scope string_scope.
Local Open Scope list_scope.
Local Open Scope Z_scope.
Local Open Scope wp_scope.

(** ** Connectors *)

(** A connector of a directory: its scope and the file it is from. *)
Inductive ConnectorScope := ScopeSource | ScopeSink.
Record LoadedConnector := mkLoaded { l_def : ConnectorDef; l_scope : ConnectorScope; l_origin : option string }.

Inductive LoadError := ParseFailed (file : string) | DuplicateConnector (id file : string).

(** One file's connectors into the map. *)
Fixpoint load_defs (scope : ConnectorScope) (fp : string) (m : gmap string LoadedConnector) (defs : list ConnectorDef)
    : gmap string LoadedConnector + LoadError :=
  match defs with
  | [] => inl m
  | def :: defs =>
      match m !! k_id def with
      | Some _ => inr (DuplicateConnector (k_id def) fp)
      | None => load_defs scope fp (<[k_id def := mkLoaded def scope (Some fp)]> m) defs
      end
  end.

(** [load_connector_defs_from_dir] on the files in their order; a file that does
    not parse is [None]. *)
Fixpoint load_connector_defs (scope : ConnectorScope) (m : gmap string LoadedConnector) (files : list (string * option (list ConnectorDef)))
    : gmap string LoadedConnector + LoadError :=
  match files with
  | [] => inl m
  | (fp, None) :: _ => inr (ParseFailed fp)
  | (fp, Some defs) :: files => let? m := load_defs scope fp m defs in load_connector_defs scope m files
  end.

(** ** Sources *)

Record WpSource := mkSource { key : string; enable : option bool; connect : string; so_tags : list string; so_params : ParamMap }.

Definition source_env_eval (eval : string -> string) (s : WpSource) : WpSource :=
  mkSource (eval (key s)) (enable s) (eval (connect s)) (env_eval_vec eval (so_tags s)) (env_eval_params eval (so_params s)).

Record CoreSourceSpec := mkCoreSource { cs_name : string; cs_kind : string; cs_params : ParamMap; cs_tags : list string }.
Record SourceInstanceConf := mkSourceInst { s_core : CoreSourceSpec; s_connector_id : option string }.

Definition GLOBAL_SOURCE_PARAM_ALLOW_OVERRIDE : list string := ["stream_tag_field"].
Definition is_global_source_param_allowed (k : string) : bool := existsb (String.eqb k) GLOBAL_SOURCE_PARAM_ALLOW_OVERRIDE.

Definition source_merge_guard (allow : list string) (k : string) : option MergeError :=
  if is_nested_field_blacklisted k then Some (NestedTable k) else
  if negb (allowed allow k) && negb (is_global_source_param_allowed k) then Some (NotAllowed k) else None.

Inductive SourceError :=
  | UnknownConnector (id : string) | BadSourceParams (e : MergeError) | SourceNameEmpty | BadSourceTags (e : TagError)
  | SourcePluginRejects (name : string) | SourceParse | NoEnabledSources.

(** [parse_and_validate_only] *)
Definition parse_and_validate_only (sources : list WpSource) : list CoreSourceSpec :=
  map (fun s => mkCoreSource (key s) "" ∅ (so_tags s)) (List.filter (fun s => default true (enable s)) sources).

(** [core_to_resolved_with]: what a source's factory is asked to validate. *)
Record SourceSpec := mkSourceSpec { ss_name : string; ss_kind : string; ss_connector_id : string; ss_params : ParamMap; ss_tags : list string }.
Definition source_core_to_resolved_with (c : CoreSourceSpec) (connector_id : string) : SourceSpec :=
  mkSourceSpec (cs_name c) (cs_kind c) connector_id (cs_params c) (cs_tags c).

Section Sources.
Variable iter : ParamMap -> list (string * Json).
(** The factories: whether the one of a kind, if any, accepts a specification. *)
Variable reg : string -> option (SourceSpec -> bool).

Definition merge_source_params (base override_tbl : ParamMap) (allow : list string) : ParamMap + MergeError :=
  merge_loop (source_merge_guard allow) base (iter override_tbl).

Definition resolve_source_instance (source : WpSource) (cnn_dict : gmap string ConnectorDef) : SourceInstanceConf + SourceError :=
  match cnn_dict !! connect source with
  | None => inr (UnknownConnector (connect source))
  | Some conn =>
      match merge_source_params (k_default_params conn) (so_params source) (k_allow_override conn) with
      | inr e => inr (BadSourceParams e)
      | inl merged =>
          inl (mkSourceInst (mkCoreSource (key source) (k_kind conn) merged (so_tags source)) (Some (k_id conn)))
      end
  end.

Fixpoint build_source_instances (sources : list WpSource) (cnn_dict : gmap string ConnectorDef)
    : list SourceInstanceConf + SourceError :=
  match sources with
  | [] => inl []
  | s :: sources =>
      if negb (default true (enable s)) then build_source_instances sources cnn_dict else
      let? inst := resolve_source_instance s cnn_dict in
      let? l := build_source_instances sources cnn_dict in
      inl (inst :: l)
  end.

(** The files of a directory, one source each; [None] does not parse. *)
Fixpoint dir_loop (files : list (option WpSource)) (cnn_dict : gmap string ConnectorDef) : list SourceInstanceConf + SourceError :=
  match files with
  | [] => inl []
  | None :: _ => inr SourceParse
  | Some s :: files =>
      if negb (default true (enable s)) then dir_loop files cnn_dict else
      let? inst := resolve_source_instance s cnn_dict in
      let? l := dir_loop files cnn_dict in
      inl (inst :: l)
  end.
Definition load_source_instances_from_dir (files : list (option WpSource)) (cnn_dict : gmap string ConnectorDef)
    : list SourceInstanceConf + SourceError :=
  let? instances := dir_loop files cnn_dict in
  if bool_decide (instances = []) then inr NoEnabledSources else inl instances.

Fixpoint validate_specs_with_factory (specs : list SourceInstanceConf) : option SourceError :=
  match specs with
  | [] => None
  | item :: specs =>
      let c := s_core item in
      match reg (cs_kind c) with
      | Some validate_spec =>
          if validate_spec (source_core_to_resolved_with c (default "" (s_connector_id item)))
          then validate_specs_with_factory specs else Some (SourcePluginRejects (cs_name c))
      | None => validate_specs_with_factory specs
      end
  end.
End Sources.

Definition source_validate (s : SourceInstanceConf) : option SourceError :=
  if String.eqb (str_trim (cs_name (s_core s))) "" then Some SourceNameEmpty else
  match validate_tags (cs_tags (s_core s)) with Some e => Some (BadSourceTags e) | None => None end.

(** [ConfigLoader::validate] *)
Fixpoint sources_validate (l : list SourceInstanceConf) : option SourceError :=
  match l with [] => None | s :: l => match source_validate s with Some e => Some e | None => sources_validate l end end.

(** ** Building the sources ([src/sources/config.rs]) *)

(** A factory: what it accepts, and what it builds of a specification: the
    handles of sources and of an acceptor. *)
Record SourceFactory (Src Acc : Type) := mkFactory {
  sf_validate : SourceSpec -> bool;
  sf_build : SourceSpec -> option (list Src * option Acc);
}.
Arguments mkFactory {_ _}.
Arguments sf_validate {_ _}.
Arguments sf_build {_ _}.

Inductive StartError := StartConf (e : SourceError) | NoFactory (kind : string) | BuildFailed (name : string).

Definition has_tag_key (tags : list string) (key : string) : bool :=
  existsb (fun tag => match str_split_once ":" tag with Some (k, _) => String.eqb (str_trim k) key | None => false end) tags.

Definition ensure_source_type_tag (resolved : SourceSpec) : SourceSpec :=
  if has_tag_key (ss_tags resolved) "wp_source_type" then resolved
  else mkSourceSpec (ss_name resolved) (ss_kind resolved) (ss_connector_id resolved) (ss_params resolved)
         (ss_tags resolved ++ [("wp_source_type:" +:+ ss_kind resolved)%string]).

Inductive RunMode := Daemon | Batch.

(** The sources a run keeps. *)
Definition filter_by_mode (run_mode : RunMode) (specs : list SourceInstanceConf) : list SourceInstanceConf :=
  match run_mode with
  | Batch =>
      List.filter (fun item =>
        let kind := to_ascii_lowercase (cs_kind (s_core item)) in
        negb (String.eqb kind "tcp") && negb (String.eqb kind "syslog")) specs
  | Daemon => specs
  end.

Section Start.
Context {Src Acc : Type}.
Variable factories : string -> option (SourceFactory Src Acc).

Fixpoint build_from_specs_with_ids (specs : list SourceInstanceConf) : (list Src * list Acc) + StartError :=
  match specs with
  | [] => inl ([], [])
  | item :: specs =>
      let resolved := ensure_source_type_tag (source_core_to_resolved_with (s_core item) (default "" (s_connector_id item))) in
      match factories (ss_kind resolved) with
      | None => inr (NoFactory (ss_kind resolved))
      | Some fac =>
          match sf_build fac resolved with
          | None => inr (BuildFailed (ss_name resolved))
          | Some (sources, acceptor) =>
              match build_from_specs_with_ids specs with
              | inl (ss, accs) => inl (sources ++ ss, match acceptor with Some a => a :: accs | None => accs end)
              | inr e => inr e
              end
          end
      end
  end.

(** [build_source_handles] on the instances loaded. *)
Definition build_source_handles (specs : list SourceInstanceConf + SourceError) (run_mode : RunMode)
    : (list string * list Src * list Acc) + StartError :=
  match specs with
  | inr e => inr (StartConf e)
  | inl specs =>
      match validate_specs_with_factory (fun kind => sf_validate <$> factories kind) specs with
      | Some e => inr (StartConf e)
      | None =>
          let filtered := filter_by_mode run_mode specs in
          match build_from_specs_with_ids filtered with
          | inl (handles, acceptors) => inl (map (fun s => cs_name (s_core s)) filtered, handles, acceptors)
          | inr e => inr e
          end
      end
  end.
End Start.
