(* ===== verification/ConfLaws.v ===== *)
(** What the configuration guarantees ([ConfParams], [SinkConf], [SourceConf]):
    merged parameters respect the allow list whatever the order of iteration,
    parameters survive the way through TOML, a group is built exactly from its
    route file, connectors have one definition. *)
From Stdlib Require Import ZArith Lia String Ascii.
From Stdlib Require Import Floats.SpecFloat.
From stdpp Require Import prelude gmap strings pretty.
From S2P Require Import Prelude F64 Text Tags ConfParams SinkConf SourceConf.
Local Open Scope string_scope.
Local Open Scope list_scope.
Local Open Scope Z_scope.
Local Open Scope wp_scope.

(** ** Merging *)

(** An override that may be made of [base]. *)
Definition override_ok (guard : string -> option MergeError) (base : ParamMap) (k : string) (v : Json) : Prop :=
  guard k = None /\ (forall d, base !! k = Some d -> json_type_label d = json_type_label v).

(** What is wrong with one that may not. *)
Definition override_fault (guard : string -> option MergeError) (base : ParamMap) (k : string) (v : Json) (e : MergeError) : Prop :=
  guard k = Some e \/
  (guard k = None /\ exists d, base !! k = Some d /\ json_type_label d <> json_type_label v /\
    e = TypeMismatch k (json_type_label d) (json_type_label v)).

Lemma merge_loop_spec guard base l : NoDup l.*1 ->
  match merge_loop guard base l with
  | inl m => (forall k v, (k, v) ∈ l -> override_ok guard base k v) /\ m = list_to_map l ∪ base
  | inr e => exists k v, (k, v) ∈ l /\ override_fault guard base k v e
  end.
Proof.
  revert base. induction l as [|[k v] l IH]; intros base Hd; cbn [merge_loop].
  - split; [intros k v Hk; by apply not_elem_of_nil in Hk|]. by rewrite list_to_map_nil, (left_id_L ∅ (∪)).
  - cbn [fmap list_fmap fst] in Hd. apply NoDup_cons in Hd as [Hk Hd]. destruct (guard k) as [e|] eqn:Eg.
    { exists k, v. split; [by left|by left]. }
    assert (forall j w, (j, w) ∈ l -> j <> k) as Hne.
    { intros j w Hj ->. apply Hk. apply list_elem_of_fmap. by exists (k, w). }
    assert (forall e : MergeError, (exists j w, (j, w) ∈ l /\ override_fault guard (<[k:=v]> base) j w e) ->
      exists j w, (j, w) ∈ (k, v) :: l /\ override_fault guard base j w e) as Herr.
    { intros e (j & w & Hj & Hf). exists j, w. split; [by right|]. pose proof (Hne j w Hj) as Hjk.
      unfold override_fault in *. by rewrite lookup_insert_ne in Hf by done. }
    assert (forall m, (forall d, base !! k = Some d -> json_type_label d = json_type_label v) ->
      (forall j w, (j, w) ∈ l -> override_ok guard (<[k:=v]> base) j w) /\ m = list_to_map l ∪ <[k:=v]> base ->
      (forall j w, (j, w) ∈ (k, v) :: l -> override_ok guard base j w) /\ m = list_to_map ((k, v) :: l) ∪ base) as Hok.
    { intros m Hty [Hl ->]. split.
      - intros j w Hj. apply elem_of_cons in Hj as [[= -> ->]|Hj]; [by split|].
        pose proof (Hl j w Hj) as [Hg Ht]. split; [done|]. intros d Hd'. apply Ht. rewrite lookup_insert_ne; [done|].
        intros ->. by apply (Hne j w).
      - rewrite list_to_map_cons, <- insert_union_l, insert_union_r; [done|]. by apply not_elem_of_list_to_map. }
    specialize (IH (<[k:=v]> base) Hd). destruct (base !! k) as [d|] eqn:Ed.
    + destruct (String.eqb_spec (json_type_label d) (json_type_label v)) as [Et|Et].
      * destruct (merge_loop guard (<[k:=v]> base) l) as [m|e]; [|by apply Herr]. apply Hok; [|done]. by intros d' [= <-].
      * exists k, v. split; [by left|]. right. split; [done|]. by exists d.
    + destruct (merge_loop guard (<[k:=v]> base) l) as [m|e]; [|by apply Herr]. by apply Hok.
Qed.

Section Iter.
Variable iter : ParamMap -> list (string * Json).
Hypothesis Hiter : IterLaw iter.

Lemma iter_spec m : NoDup (iter m).*1 /\ list_to_map (iter m) = m /\ forall k v, (k, v) ∈ iter m <-> m !! k = Some v.
Proof.
  pose proof (Hiter m) as Hp. assert (NoDup (iter m).*1) as Hd by (rewrite Hp; apply NoDup_fst_map_to_list).
  split_and!; [done| |].
  - rewrite <- (list_to_map_to_list m) at 2. by apply list_to_map_proper.
  - intros k v. rewrite Hp. apply elem_of_map_to_list.
Qed.

(** Every merge: it succeeds exactly when each override may be made, and then
    the overrides win. *)
Lemma merge_iff guard base o m :
  merge_loop guard base (iter o) = inl m <-> (forall k v, o !! k = Some v -> override_ok guard base k v) /\ m = o ∪ base.
Proof.
  destruct (iter_spec o) as (Hd & Ho & Hin). pose proof (merge_loop_spec guard base (iter o) Hd) as Hs. rewrite Ho in Hs.
  destruct (merge_loop guard base (iter o)) as [m'|e]; split.
  - intros [= <-]. destruct Hs as [H1 H2]. split; [|done]. intros k v Hk. apply H1. by apply Hin.
  - intros [_ ->]. by destruct Hs as [_ ->].
  - done.
  - intros [H1 _]. destruct Hs as (k & v & Hk & Hf). apply Hin in Hk. destruct (H1 k v Hk) as [Hg Ht].
    destruct Hf as [Hf|(_ & d & Hd' & Hne & _)]; [congruence|]. destruct (Hne (Ht d Hd')).
Qed.

Lemma merge_error guard base o e :
  merge_loop guard base (iter o) = inr e -> exists k v, o !! k = Some v /\ override_fault guard base k v e.
Proof.
  destruct (iter_spec o) as (Hd & _ & Hin). intros E. pose proof (merge_loop_spec guard base (iter o) Hd) as Hs. rewrite E in Hs.
  destruct Hs as (k & v & Hk & Hf). exists k, v. split; [by apply Hin|done].
Qed.
End Iter.

Lemma allowed_in allow k : allowed allow k = true <-> k ∈ allow.
Proof.
  unfold allowed. rewrite existsb_exists. split.
  - intros (x & Hx & E). apply String.eqb_eq in E as ->. by apply list_elem_of_In.
  - intros Hk. exists k. split; [by apply list_elem_of_In|apply String.eqb_refl].
Qed.

(** What a key of a sink's parameters may be. *)
Definition sink_key_ok (allow : list string) (k : string) : Prop :=
  k ∈ allow /\ k <> "params" /\ k <> "params_override" /\ k <> "stream_tag_field" /\ k <> "wp_meta_disable".
Definition source_key_ok (allow : list string) (k : string) : Prop :=
  (k ∈ allow \/ k = "stream_tag_field") /\ k <> "params" /\ k <> "params_override".

Lemma sink_guard_none allow k : sink_merge_guard allow k = None <-> sink_key_ok allow k.
Proof.
  unfold sink_merge_guard, sink_key_ok, is_nested_field_blacklisted, is_source_only_runtime_field, is_group_only_runtime_field.
  rewrite <- allowed_in.
  destruct (String.eqb_spec k "params"), (String.eqb_spec k "params_override"), (String.eqb_spec k "stream_tag_field"),
    (String.eqb_spec k "wp_meta_disable"), (allowed allow k); cbn; intuition congruence.
Qed.

Lemma source_guard_none allow k : source_merge_guard allow k = None <-> source_key_ok allow k.
Proof.
  unfold source_merge_guard, source_key_ok, is_nested_field_blacklisted, is_global_source_param_allowed, GLOBAL_SOURCE_PARAM_ALLOW_OVERRIDE.
  rewrite <- allowed_in. cbn [existsb].
  destruct (String.eqb_spec k "params"), (String.eqb_spec k "params_override"), (String.eqb_spec k "stream_tag_field"),
    (allowed allow k); cbn; intuition congruence.
Qed.

Definition same_type (base : ParamMap) (k : string) (v : Json) : Prop :=
  forall d, base !! k = Some d -> json_type_label d = json_type_label v.

(** What an error tells of the override [k = v], and when it is true: a reserved
    key, a key off the list [listed], or a value of another type under a key that
    may be overridden. *)
Definition refused (key_ok : Prop) (listed : Prop) (for_sink : bool) (base : ParamMap) (k : string) (v : Json) (e : MergeError) : Prop :=
  match e with
  | NestedTable n => n = k /\ (k = "params" \/ k = "params_override")
  | SourceOnly n => for_sink = true /\ n = k /\ k = "stream_tag_field"
  | GroupOnly n => for_sink = true /\ n = k /\ k = "wp_meta_disable"
  | NotAllowed n => n = k /\ ~ listed
  | TypeMismatch n expected provided =>
      n = k /\ key_ok /\ expected <> provided /\ provided = json_type_label v
      /\ exists d, base !! k = Some d /\ expected = json_type_label d
  end.

Definition sink_refused allow base k v e : Prop := refused (sink_key_ok allow k) (k ∈ allow) true base k v e.
Definition source_refused allow base k v e : Prop :=
  refused (source_key_ok allow k) (k ∈ allow \/ k = "stream_tag_field") false base k v e.

Lemma nested_cases k : is_nested_field_blacklisted k = true -> k = "params" \/ k = "params_override".
Proof. unfold is_nested_field_blacklisted. rewrite orb_true_iff, !String.eqb_eq. done. Qed.

Lemma fault_refused guard (key_ok listed : Prop) b base k v e : (guard k = None -> key_ok) ->
  (forall e, guard k = Some e -> refused key_ok listed b base k v e) ->
  override_fault guard base k v e -> refused key_ok listed b base k v e.
Proof. intros Hok Hg [Hf|(Hn & d & Hd & Hne & ->)]; [by apply Hg|]. cbn. eauto 8. Qed.

Lemma sink_fault allow base k v e : override_fault (sink_merge_guard allow) base k v e -> sink_refused allow base k v e.
Proof.
  apply fault_refused; [by rewrite sink_guard_none|]. intros e'. unfold sink_merge_guard.
  destruct (is_nested_field_blacklisted k) eqn:E1; [intros [= <-]; split; [done|by apply nested_cases]|].
  unfold is_source_only_runtime_field, is_group_only_runtime_field.
  destruct (String.eqb_spec k "stream_tag_field"); [by intros [= <-]|].
  destruct (String.eqb_spec k "wp_meta_disable"); [by intros [= <-]|].
  destruct (allowed allow k) eqn:E; [done|]. intros [= <-]. split; [done|]. rewrite <- allowed_in. congruence.
Qed.

Lemma source_fault allow base k v e : override_fault (source_merge_guard allow) base k v e -> source_refused allow base k v e.
Proof.
  apply fault_refused; [by rewrite source_guard_none|]. intros e'. unfold source_merge_guard.
  destruct (is_nested_field_blacklisted k) eqn:E1; [intros [= <-]; split; [done|by apply nested_cases]|].
  destruct (allowed allow k) eqn:E; cbn; [done|]. unfold is_global_source_param_allowed, GLOBAL_SOURCE_PARAM_ALLOW_OVERRIDE.
  cbn [existsb]. destruct (String.eqb_spec k "stream_tag_field"); cbn; [done|]. intros [= <-]. split; [done|].
  rewrite <- allowed_in. intros [?|?]; congruence.
Qed.

(** C22: Whatever the order in which a table is iterated, the parameters of a sink
    are merged exactly when every override is on the connector's allow list, is
    no reserved key and has the type of the default; the result is the defaults
    with the overrides on top.  The same of a source, whose stream tag field is
    always allowed.  An error, of a sink or of a source, names an override of
    the table and what is really wrong with it: a reserved key, a key off the
    list, or a permitted key whose value has another type than the default,
    with both types. *)
Theorem overrides_respect_allowlist iter base o allow (Hiter : IterLaw iter) :
  (forall m, merge_params_with_allowlist iter base o allow = inl m <->
    (forall k v, o !! k = Some v -> sink_key_ok allow k /\ same_type base k v) /\ m = o ∪ base) /\
  (forall m, merge_source_params iter base o allow = inl m <->
    (forall k v, o !! k = Some v -> source_key_ok allow k /\ same_type base k v) /\ m = o ∪ base) /\
  (forall e, merge_params_with_allowlist iter base o allow = inr e ->
    exists k v, o !! k = Some v /\ sink_refused allow base k v e) /\
  (forall e, merge_source_params iter base o allow = inr e ->
    exists k v, o !! k = Some v /\ source_refused allow base k v e).
Proof.
  split_and!.
  - intros m. unfold merge_params_with_allowlist. rewrite (merge_iff iter Hiter). unfold override_ok. by setoid_rewrite sink_guard_none.
  - intros m. unfold merge_source_params. rewrite (merge_iff iter Hiter). unfold override_ok. by setoid_rewrite source_guard_none.
  - intros e He. apply (merge_error iter Hiter) in He as (k & v & Hk & Hf). exists k, v. split; [done|by apply sink_fault].
  - intros e He. apply (merge_error iter Hiter) in He as (k & v & Hk & Hf). exists k, v. split; [done|by apply source_fault].
Qed.

(** ** TOML and JSON *)

Section JsonInd.
Variable P : Json -> Prop.
Hypothesis Hnull : P JNull.
Hypothesis Hbool : forall b, P (JBool b).
Hypothesis Hnum : forall n, P (JNumber n).
Hypothesis Hstr : forall s, P (JString s).
Hypothesis Harr : forall l, Forall P l -> P (JArray l).
Hypothesis Hobj : forall l, Forall (fun kv => P kv.2) l -> P (JObject l).

Fixpoint json_ind' (v : Json) : P v :=
  match v with
  | JNull => Hnull
  | JBool b => Hbool b
  | JNumber n => Hnum n
  | JString s => Hstr s
  | JArray l => Harr l ((fix go l : Forall P l := match l with [] => List.Forall_nil _ | x :: r => List.Forall_cons _ x r (json_ind' x) (go r) end) l)
  | JObject l => Hobj l ((fix go l : Forall (fun kv => P kv.2) l :=
      match l with [] => List.Forall_nil _ | kv :: r => List.Forall_cons _ kv r (json_ind' kv.2) (go r) end) l)
  end.
End JsonInd.

(** What the number type holds. *)
Definition number_wf (n : Number) : bool :=
  match n with PosInt n => (0 <=? n) && (n <=? U64_MAX) | NegInt n => (I64_MIN <=? n) && (n <? 0) | FloatNum x => is_finite x end.

(** A value that TOML can tell: no null, no integer above its width. *)
Fixpoint toml_value (v : Json) : bool :=
  match v with
  | JNull => false
  | JNumber n => number_wf n && match n with PosInt n => n <=? I64_MAX | _ => true end
  | JArray l => forallb toml_value l
  | JObject l => forallb (fun kv => toml_value kv.2) l
  | JBool _ | JString _ => true
  end.

Lemma forallb_forall_in {A} (f : A -> bool) l : forallb f l = true <-> forall x, x ∈ l -> f x = true.
Proof. rewrite forallb_forall. by setoid_rewrite list_elem_of_In. Qed.

Lemma map_id_in {A} (f : A -> A) l : (forall x, x ∈ l -> f x = x) -> map f l = l.
Proof.
  induction l as [|x l IH]; intros H; [done|]. cbn [map]. rewrite (H x) by (by left). f_equal. apply IH. intros y Hy. apply H. by right.
Qed.

Lemma number_roundtrip n : toml_value (JNumber n) = true -> param_value_from_toml (param_value_to_toml (JNumber n)) = JNumber n.
Proof.
  cbn [toml_value param_value_to_toml]. intros Hn. apply andb_true_iff in Hn as [Hw Hm]. destruct n as [n|n|x]; cbn [number_wf] in Hw; cbn [number_as_i64].
  - rewrite Hm. cbn. unfold number_from_i64. destruct (n <? 0) eqn:E; [lia|done].
  - cbn. unfold number_from_i64. destruct (n <? 0) eqn:E; [done|lia].
  - cbn. unfold number_from_f64. by rewrite Hw.
Qed.

Lemma value_roundtrip v : toml_value v = true -> param_value_from_toml (param_value_to_toml v) = v.
Proof.
  induction v as [|b|n|s|l IH|l IH] using json_ind'; intros Hv; [done|done|by apply number_roundtrip|done| |]; cbn [toml_value] in Hv.
  - cbn. f_equal. rewrite map_map. apply map_id_in. intros x Hx. rewrite forallb_forall_in in Hv. rewrite Forall_forall in IH. auto.
  - cbn. f_equal. rewrite map_map. apply map_id_in. intros [k x] Hx. cbn. rewrite forallb_forall_in in Hv. rewrite Forall_forall in IH.
    f_equal. apply (IH (k, x) Hx). exact (Hv (k, x) Hx).
Qed.

Lemma foldl_insert (l : list (string * Json)) (m : ParamMap) : NoDup l.*1 ->
  foldl (fun m kv => <[kv.1 := kv.2]> m) m l = list_to_map l ∪ m.
Proof.
  revert m. induction l as [|[k v] l IH]; intros m Hd; cbn [foldl fst snd].
  - by rewrite list_to_map_nil, (left_id_L ∅ (∪)).
  - cbn [fmap list_fmap fst] in Hd. apply NoDup_cons in Hd as [Hk Hd]. rewrite IH by done.
    rewrite list_to_map_cons, <- insert_union_l, insert_union_r; [done|]. by apply not_elem_of_list_to_map.
Qed.

(** A parameter table survives the way to TOML and back, nested values
    included, when it holds no null and no integer above the signed range.  A
    null comes back as the text "null", and a greater integer as a float. *)
Theorem params_roundtrip_toml iter m (Hiter : IterLaw iter) (Hm : map_Forall (fun _ v => toml_value v = true) m) :
  param_map_from_table_ref (param_map_to_table iter m) = m /\
  param_value_from_toml (param_value_to_toml JNull) = JString "null" /\
  param_value_from_toml (param_value_to_toml (JNumber (PosInt U64_MAX))) = JNumber (FloatNum (as_f64 U64_MAX)).
Proof.
  split; [|by split; vm_compute]. destruct (iter_spec iter Hiter m) as (Hd & Hl & Hin).
  unfold param_map_from_table_ref, param_map_to_table.
  assert (forall l (m0 : ParamMap), (forall k v, (k, v) ∈ l -> toml_value v = true) ->
    foldl (fun m kv => <[kv.1 := param_value_from_toml kv.2]> m) m0 (map (fun kv => (kv.1, param_value_to_toml kv.2)) l)
    = foldl (fun m kv => <[kv.1 := kv.2]> m) m0 l) as ->.
  { induction l as [|[k v] l IH]; intros m0 Hl'; cbn [map foldl fst snd]; [done|]. rewrite value_roundtrip by (eapply Hl'; by left).
    apply IH. intros j w Hj. apply (Hl' j w). by right. }
  - rewrite foldl_insert by done. by rewrite Hl, (right_id_L ∅ (∪)).
  - intros k v Hk. apply Hin in Hk. by apply (Hm k v).
Qed.

(** ** Building a group *)

Lemma meta_fields_iff l r : validate_wp_meta_disable_fields l = inl r <->
  Forall (fun f => str_trim f ∈ SUPPORTED_WP_META_DISABLE_FIELDS) l /\ r = map str_trim l.
Proof.
  revert r. induction l as [|f l IH]; intros r; cbn [validate_wp_meta_disable_fields map].
  - split; [intros [= <-]; by split|by intros [_ ->]].
  - rewrite Forall_cons. rewrite <- (allowed_in SUPPORTED_WP_META_DISABLE_FIELDS (str_trim f)). unfold allowed.
    destruct (String.eqb_spec (str_trim f) "") as [->|_]; [split; [done|by intros [[H _] _]]|].
    destruct (existsb _ _); [|split; [done|by intros [[H _] _]]].
    destruct (validate_wp_meta_disable_fields l) as [r'|e]; cbn [conf_bind].
    + destruct (proj1 (IH r') eq_refl) as [Hf ->]. split; [by intros [= <-]|by intros [_ ->]].
    + split; [done|]. intros [[_ Hf] _]. pose proof (proj2 (IH (map str_trim l)) (conj Hf eq_refl)) as [=].
Qed.

Section Build.
Context `{ConfCrates}.
Variable iter : ParamMap -> list (string * Json).
Hypothesis Hiter : IterLaw iter.
Variable default_batch_size : Z.
Variable fs : FilterFiles.
Variable reg : string -> option (SinkSpec -> bool).
Variable conn_map : gmap string ConnectorDef.
Variable defaults : option DefaultsBody.

(** The instance number [idx] of a group, as its entry and its connector say. *)
Definition instance_of (rg : RouteGroup) (idx : nat) (r : RouteSink) (conn : ConnectorDef) : SinkInstanceConf :=
  let params := rs_params r ∪ k_default_params conn in
  mkSink _
    (mkCore (instance_name idx r) (k_kind conn) params (rs_filter r)
       (default [] (defaults ≫= d_tags) ++ default [] (rg_tags rg) ++ default [] (rs_tags r)))
    (decide_fmt conn params) (rs_expect r) (rs_filter_expect r) (rs_drop_when_error r) (Some (k_id conn)) (Some (rg_name rg)).

Definition sink_made (rg : RouteGroup) (idx : nat) (r : RouteSink) (s : SinkInstanceConf) : Prop :=
  exists conn, conn_map !! rs_connect r = Some conn /\
    (forall k v, rs_params r !! k = Some v -> sink_key_ok (k_allow_override conn) k /\ same_type (k_default_params conn) k v) /\
    s = instance_of rg idx r conn /\ sink_validate fs s = None /\ plugin_accepts reg (rg_name rg) conn s = true.

Lemma sink_merge_iff base o allow m : merge_params_with_allowlist iter base o allow = inl m <->
  (forall k v, o !! k = Some v -> sink_key_ok allow k /\ same_type base k v) /\ m = o ∪ base.
Proof. unfold merge_params_with_allowlist. rewrite (merge_iff iter Hiter). unfold override_ok. by setoid_rewrite sink_guard_none. Qed.

Lemma build_one_iff rg idx guard r s : build_one iter fs reg conn_map rg defaults idx guard r = inl s <->
  sink_made rg idx r s /\ s_name s ∉ guard.
Proof.
  unfold build_one, sink_made. destruct (conn_map !! rs_connect r) as [conn|] eqn:Ec.
  2: { split; [done|]. intros [(conn & [=] & _) _]. }
  unfold build_sink_instance. pose proof (sink_merge_iff (k_default_params conn) (rs_params r) (k_allow_override conn)) as Hm.
  destruct (merge_params_with_allowlist _ _ _ _) as [m|e]; cbn [conf_bind].
  2: { split; [done|]. intros [(conn' & [= <-] & Hok & _) _]. pose proof (proj2 (Hm _) (conj Hok eq_refl)) as [=]. }
  destruct (proj1 (Hm m) eq_refl) as [Hok ->].
  match goal with |- context [assemble_sink_tags ?d ?t ?x] => change (assemble_sink_tags d t x) with (instance_of rg idx r conn) end.
  destruct (bool_decide_reflect (s_name (instance_of rg idx r conn) ∈ guard)) as [Hin|Hin].
  { split; [done|]. intros [(conn' & [= <-] & _ & -> & _) Hn]. done. }
  destruct (sink_validate fs (instance_of rg idx r conn)) as [e|] eqn:Ev.
  { split; [done|]. intros [(conn' & [= <-] & _ & -> & Hv & _) _]. congruence. }
  destruct (plugin_accepts reg (rg_name rg) conn (instance_of rg idx r conn)) eqn:Ep.
  - split; [intros [= <-]; split; [by exists conn|done]|]. by intros [(conn' & [= <-] & _ & -> & _) _].
  - split; [done|]. intros [(conn' & [= <-] & _ & -> & _ & Hp) _]. congruence.
Qed.

(** The entries of a group with their numbers. *)
Definition numbered (idx : nat) (l : list RouteSink) : list (nat * RouteSink) := zip (seq idx (length l)) l.

Lemma build_sinks_iff rg idx guard l sinks : build_sinks iter fs reg conn_map rg defaults idx guard l = inl sinks <->
  Forall2 (fun p s => sink_made rg p.1 p.2 s) (numbered idx l) sinks /\ NoDup (map s_name sinks) /\
  Forall (fun s => s_name s ∉ guard) sinks.
Proof.
  revert idx guard sinks. induction l as [|r l IH]; intros idx guard sinks; cbn [build_sinks].
  - split; [intros [= <-]; split_and!; constructor|]. intros [Hf _]. by inversion Hf.
  - change (numbered idx (r :: l)) with ((idx, r) :: numbered (S idx) l).
    pose proof (build_one_iff rg idx guard r) as H1. destruct (build_one _ _ _ _ _ _ _ _ _) as [s|e]; cbn [conf_bind].
    2: { split; [done|]. intros (Hf & _ & Hg). inversion Hf as [|? s' ? ? Hs Hf']; subst. apply Forall_cons in Hg as [Hg _].
         pose proof (proj2 (H1 s') (conj Hs Hg)) as [=]. }
    destruct (proj1 (H1 s) eq_refl) as [Hs Hg]. specialize (IH (S idx) ({[s_name s]} ∪ guard)).
    assert (forall l', Forall (fun x => s_name x ∉ {[s_name s]} ∪ guard) l' <->
      s_name s ∉ map s_name l' /\ Forall (fun x => s_name x ∉ guard) l') as Hu.
    { clear. induction l' as [|x l' IH']; cbn [map]; [split; [split; [by apply not_elem_of_nil|constructor]|constructor]|].
      rewrite !Forall_cons, IH', not_elem_of_cons. set_solver. }
    split.
    + intros E. destruct (build_sinks _ _ _ _ _ _ _ _ _) as [ss|e] eqn:Es; cbn [conf_bind] in E; [|done]. injection E as <-.
      destruct (proj1 (IH ss) eq_refl) as (Hf & Hd & Hgs). apply Hu in Hgs as [Hni Hgs].
      split_and!; [by constructor|cbn [map]; by constructor|by constructor].
    + intros (Hf & Hd & Hgs). inversion Hf as [|? s' ? ss Hs' Hf' E1 E2]; subst. cbn [map] in Hd. apply NoDup_cons in Hd as [Hni Hd].
      apply Forall_cons in Hgs as [Hg' Hgs]. cbn [fst snd] in Hs'. pose proof (proj2 (H1 s') (conj Hs' Hg')) as [= ->].
      rewrite (proj2 (IH ss) (conj Hf' (conj Hd (proj2 (Hu ss) (conj Hni Hgs))))). done.
Qed.

(** The group of a route file, given its sinks. *)
Definition group_of (rg : RouteGroup) (sinks : list SinkInstanceConf) : FlexGroup :=
  mkFlex _ (rg_name rg) (default 1 (rg_parallel rg)) (map wild_new (match rg_rule rg with Some x => as_vec x | None => [] end))
    (map wild_new (match rg_oml rg with Some x => as_vec x | None => [] end)) (default [] (rg_tags rg))
    (map str_trim (default [] (rg_wp_meta_disable rg))) None
    (match rg_expect rg with Some e => Some e | None => d_expect <$> defaults end)
    (default 300 (rg_batch_timeout_ms rg)) (default default_batch_size (rg_batch_size rg)) sinks.

Lemma route_iff rf conf : build_route_conf_from_with iter default_batch_size fs reg rf defaults conn_map = inl conf <->
  exists sinks, Forall2 (fun p s => sink_made (sink_group rf) p.1 p.2 s) (numbered 0 (rg_sinks (sink_group rf))) sinks /\
    NoDup (map s_name sinks) /\ sinks <> [] /\
    Forall (fun f => str_trim f ∈ SUPPORTED_WP_META_DISABLE_FIELDS) (default [] (rg_wp_meta_disable (sink_group rf))) /\
    conf = mkRoute "2.0" (group_of (sink_group rf) sinks).
Proof.
  unfold build_route_conf_from_with. set (rg := sink_group rf). unfold collect_group_matchers.
  pose proof (build_sinks_iff rg 0 ∅ (rg_sinks rg)) as Hb.
  assert (forall ss, Forall (fun s => s_name s ∉ (∅ : gset string)) ss) as He by (intros ss; apply Forall_forall; set_solver).
  destruct (build_sinks _ _ _ _ _ _ _ _ _) as [sinks|e]; cbn [conf_bind].
  2: { split; [done|]. intros (sinks & Hf & Hd & _). pose proof (proj2 (Hb sinks) (conj Hf (conj Hd (He sinks)))) as [=]. }
  destruct (proj1 (Hb sinks) eq_refl) as (Hf & Hd & _).
  assert (forall ss, Forall2 (fun p s => sink_made rg p.1 p.2 s) (numbered 0 (rg_sinks rg)) ss -> NoDup (map s_name ss) -> ss = sinks) as Hu.
  { intros ss H1 H2. pose proof (proj2 (Hb ss) (conj H1 (conj H2 (He ss)))) as [= E]. done. }
  destruct (bool_decide_reflect (sinks = [])) as [Hn|Hn].
  { split; [done|]. intros (ss & H1 & H2 & H3 & _). by destruct H3; rewrite (Hu ss H1 H2). }
  unfold apply_group_metadata. cbn [build_conf g_wp_meta_disable g_parallel g_expect g_tags g_name g_rule g_oml g_filter g_batch_timeout_ms g_batch_size g_sinks].
  set (meta := match rg_wp_meta_disable rg with Some l => validate_wp_meta_disable_fields l | None => inl [] end).
  assert (forall r, meta = inl r <-> Forall (fun f => str_trim f ∈ SUPPORTED_WP_META_DISABLE_FIELDS) (default [] (rg_wp_meta_disable rg))
    /\ r = map str_trim (default [] (rg_wp_meta_disable rg))) as Hm.
  { intros r. subst meta. destruct (rg_wp_meta_disable rg) as [l|]; [apply meta_fields_iff|]. cbn.
    split; [intros [= <-]; by split|by intros [_ ->]]. }
  clearbody meta. destruct meta as [r|e]; cbn [conf_bind].
  - destruct (proj1 (Hm r) eq_refl) as [Hok ->]. split; [intros [= <-]; by exists sinks|].
    intros (ss & H1 & H2 & _ & _ & ->). by rewrite (Hu ss H1 H2).
  - split; [done|]. intros (ss & _ & _ & _ & Hok & _). pose proof (proj2 (Hm _) (conj Hok eq_refl)) as [=].
Qed.
End Build.

(** C21: A group is built exactly when its file allows it: every entry names a
    connector that exists and overrides only what the connector allows, the
    names of the instances differ, each instance and the plugin of its kind
    accept it, there is an entry, and the disabled metadata fields are known.
    The group then has one instance an entry, in order, with the connector's
    kind and parameters under the overrides, and the tags of defaults, group and
    entry; the rest is the file's, or the default. *)
Theorem group_built_exactly `{ConfCrates} iter default_batch_size fs reg conn_map defaults rf conf (Hiter : IterLaw iter) :
  build_route_conf_from_with iter default_batch_size fs reg rf defaults conn_map = inl conf <->
  exists sinks, Forall2 (fun p s => sink_made fs reg conn_map defaults (sink_group rf) p.1 p.2 s)
      (numbered 0 (rg_sinks (sink_group rf))) sinks /\
    NoDup (map s_name sinks) /\ sinks <> [] /\
    Forall (fun f => str_trim f ∈ SUPPORTED_WP_META_DISABLE_FIELDS) (default [] (rg_wp_meta_disable (sink_group rf))) /\
    conf = mkRoute "2.0" (group_of default_batch_size defaults (sink_group rf) sinks).
Proof. by apply route_iff. Qed.

(** ** Infrastructure groups *)

Section Infra.
Context `{ConfCrates}.

(** The last group of a name. *)
Definition last_named (n : string) (confs : list SinkRouteConf) : option FlexGroup :=
  last (List.filter (fun g => String.eqb (g_name g) n) (map r_group confs)).

Definition infra_monitor (default_batch_size : Z) (g : FlexGroup) : FlexGroup :=
  mkFlex _ (g_name g) (g_parallel g) (g_rule g) (g_oml g) (g_tags g) (g_wp_meta_disable g) (g_filter g) (g_expect g)
    (g_batch_timeout_ms g) (if g_batch_size g =? default_batch_size then 1 else g_batch_size g) (g_sinks g).

Definition fixed_or (d : FixedGroup) (size : Z) (g : option FlexGroup) : FixedGroup :=
  match g with Some g => fixed_of g size | None => d end.

Lemma last_named_snoc n confs c :
  last_named n (confs ++ [c]) = if String.eqb (g_name (r_group c)) n then Some (r_group c) else last_named n confs.
Proof.
  unfold last_named. rewrite map_app, List.filter_app. cbn [map List.filter]. destruct (String.eqb _ n); [by rewrite last_snoc|by rewrite app_nil_r].
Qed.

Lemma infra_fold_spec default_batch_size confs :
  let c := foldl (infra_step default_batch_size) InfraSinkConf_default confs in
  i_default c = fixed_or default_ins 128 (last_named "default" confs) /\
  i_miss c = fixed_or miss_ins 1 (last_named "miss" confs) /\
  i_residue c = fixed_or residue_ins 1 (last_named "residue" confs) /\
  i_error c = fixed_or error_ins 1 (last_named "error" confs) /\
  i_monitor c = match last_named "monitor" confs with Some g => infra_monitor default_batch_size g | None => monitor_ins end.
Proof.
  cbn zeta. induction confs as [|c confs IH] using rev_ind; [done|]. rewrite foldl_app. cbn [foldl].
  destruct IH as (H1 & H2 & H3 & H4 & H5). rewrite !last_named_snoc. set (c0 := foldl _ _ confs) in *. clearbody c0. unfold infra_step, GROUP_DEFAULT, GROUP_MISS, GROUP_RESIDUE, GROUP_ERROR, GROUP_MONITOR.
  destruct (String.eqb_spec (g_name (r_group c)) "default") as [->|_]; [cbn; by rewrite H2, H3, H4, H5|].
  destruct (String.eqb_spec (g_name (r_group c)) "miss") as [->|_]; [cbn; by rewrite H1, H3, H4, H5|].
  destruct (String.eqb_spec (g_name (r_group c)) "residue") as [->|_]; [cbn; by rewrite H1, H2, H4, H5|].
  destruct (String.eqb_spec (g_name (r_group c)) "error") as [->|_]; [cbn; by rewrite H1, H2, H3, H5|].
  destruct (String.eqb_spec (g_name (r_group c)) "monitor") as [Hn|_]; [|by rewrite H1, H2, H3, H4, H5].
  cbn [i_default i_miss i_residue i_error i_monitor]. rewrite H1, H2, H3, H4. split_and!; try done. unfold infra_monitor.
  destruct (g_batch_size (r_group c) =? default_batch_size); [done|]. by destruct (r_group c).
Qed.

(** C23: The infrastructure groups are those of the last route file of each name, or
    the built-in ones.  Whatever batch size and timeout a file gives its default,
    miss, residue or error group, the group has 128 or 1 and 300 milliseconds;
    every instance of the built-in groups fails the validation of an instance,
    which asks a file for a base or a name and not for the path they have. *)
Theorem infra_groups_loaded default_batch_size iter fs routes defaults conn_map c
    (Hload : infra_load default_batch_size iter fs true routes defaults conn_map = Some (inl c)) :
  (exists confs, load_infra_route_confs default_batch_size iter fs routes defaults conn_map = inl confs /\
    i_default c = fixed_or default_ins 128 (last_named "default" confs) /\
    i_miss c = fixed_or miss_ins 1 (last_named "miss" confs) /\
    i_residue c = fixed_or residue_ins 1 (last_named "residue" confs) /\
    i_error c = fixed_or error_ins 1 (last_named "error" confs) /\
    i_monitor c = match last_named "monitor" confs with Some g => infra_monitor default_batch_size g | None => monitor_ins end) /\
  Forall (fun g => f_batch_timeout_ms g = 300) [i_default c; i_miss c; i_residue c; i_error c] /\
  Forall (fun s => sink_validate fs s = Some FileWithoutPath /\ is_Some (resolve_file_path s))
    (f_sinks default_ins ++ f_sinks miss_ins ++ f_sinks residue_ins ++ f_sinks error_ins ++ g_sinks monitor_ins).
Proof.
  unfold infra_load in Hload. destruct (load_infra_route_confs _ _ _ _ _ _) as [confs|e] eqn:El; cbn [conf_bind] in Hload; [|done].
  injection Hload as <-. pose proof (infra_fold_spec default_batch_size confs) as Hs. cbn zeta in Hs.
  split; [by exists confs|]. destruct Hs as (-> & -> & -> & -> & _). split.
  - repeat constructor; unfold fixed_or; by case_match.
  - repeat constructor; by eexists.
Qed.
End Infra.

(** ** Connectors and sources *)

Lemma load_defs_spec scope fp m defs m' : load_defs scope fp m defs = inl m' ->
  NoDup (map k_id defs) /\ (forall d, d ∈ defs -> m !! k_id d = None) /\
  (forall id c, m' !! id = Some c <-> m !! id = Some c \/ exists d, d ∈ defs /\ k_id d = id /\ c = mkLoaded d scope (Some fp)).
Proof.
  revert m. induction defs as [|d defs IH]; intros m; cbn [load_defs map].
  - intros [= <-]. split_and!; [constructor|by intros d Hd; apply not_elem_of_nil in Hd|].
    intros id c. split; [by left|]. intros [Hc|(d & Hd & _)]; [done|by apply not_elem_of_nil in Hd].
  - destruct (m !! k_id d) eqn:Ed; [done|]. intros E. destruct (IH _ E) as (Hd & Hn & Hm).
    assert (forall x, x ∈ defs -> k_id x <> k_id d /\ m !! k_id x = None) as Hx.
    { intros x Hx. pose proof (Hn x Hx) as Hxn. destruct (decide (k_id d = k_id x)) as [He|Hne]; [by rewrite He, lookup_insert_eq in Hxn|].
      rewrite lookup_insert_ne in Hxn by done. split; [congruence|done]. }
    split_and!.
    + constructor; [|done]. rewrite list_elem_of_In, in_map_iff. intros (x & Hk & Hin). apply list_elem_of_In in Hin.
      by destruct (Hx x Hin).
    + intros x Hx'. apply elem_of_cons in Hx' as [->|Hx']; [done|]. by destruct (Hx x Hx').
    + intros id c. rewrite Hm. destruct (decide (k_id d = id)) as [<-|Hne].
      * rewrite lookup_insert_eq, Ed. split.
        -- intros [[= <-]|(x & Hx' & Hk & _)]; [right; exists d; split; [by left|done]|by destruct (Hx x Hx')].
        -- intros [[=]|(x & Hx' & Hk & ->)]. apply elem_of_cons in Hx' as [->|Hx']; [by left|by destruct (Hx x Hx')].
      * rewrite lookup_insert_ne by done. split; (intros [Hc|(x & Hx' & Hk & ->)]; [by left|right]).
        -- exists x. split; [by right|done].
        -- exists x. apply elem_of_cons in Hx' as [->|Hx']; [done|done].
Qed.

(** The connectors of files, with the file of each. *)
Definition defs_of (files : list (string * option (list ConnectorDef))) : list (string * ConnectorDef) :=
  concat (map (fun f => map (fun d => (f.1, d)) (default [] f.2)) files).

Lemma load_connectors_spec scope m files m' : load_connector_defs scope m files = inl m' ->
  Forall (fun f => is_Some f.2) files /\ NoDup (map (fun p => k_id p.2) (defs_of files)) /\
  (forall p, p ∈ defs_of files -> m !! k_id p.2 = None) /\
  (forall id c, m' !! id = Some c <-> m !! id = Some c \/
    exists p, p ∈ defs_of files /\ k_id p.2 = id /\ c = mkLoaded p.2 scope (Some p.1)).
Proof.
  revert m. induction files as [|[fp [defs|]] files IH]; intros m; cbn [load_connector_defs]; [| |done].
  - intros [= <-]. split_and!; [constructor|constructor|by intros p Hp; apply not_elem_of_nil in Hp|].
    intros id c. split; [by left|]. intros [Hc|(p & Hp & _)]; [done|by apply not_elem_of_nil in Hp].
  - intros E. destruct (load_defs scope fp m defs) as [m1|e] eqn:E1; [|done]. cbn [conf_bind] in E.
    destruct (load_defs_spec _ _ _ _ _ E1) as (Hd & Hn & Hm1). destruct (IH _ E) as (Hall & Hd2 & Hn2 & Hm').
    change (defs_of ((fp, Some defs) :: files)) with (map (fun d => (fp, d)) defs ++ defs_of files).
    assert (forall p, p ∈ defs_of files -> m !! k_id p.2 = None /\ forall d, d ∈ defs -> k_id d <> k_id p.2) as Hp.
    { intros p Hp. pose proof (Hn2 p Hp) as Hno. split.
      - destruct (m !! k_id p.2) as [c|] eqn:Ec; [|done]. rewrite (proj2 (Hm1 _ c) (or_introl Ec)) in Hno. done.
      - intros d Hd' Hk. rewrite (proj2 (Hm1 (k_id p.2) _) (or_intror (ex_intro _ d (conj Hd' (conj Hk eq_refl))))) in Hno. done. }
    assert (forall p, p ∈ map (fun d => (fp, d)) defs <-> p.1 = fp /\ p.2 ∈ defs) as Hin.
    { intros [f d]. rewrite list_elem_of_In, in_map_iff. cbn. setoid_rewrite <- list_elem_of_In. split.
      - intros (x & [= <- <-] & Hx). done.
      - intros [-> Hx]. by exists d. }
    split_and!.
    + by constructor.
    + rewrite map_app, map_map. apply NoDup_app. split; [done|]. split; [|done].
      intros id Hid Hid2. rewrite list_elem_of_In, in_map_iff in Hid, Hid2. destruct Hid as (d & <- & Hd'), Hid2 as (p & Hk & Hp').
      apply list_elem_of_In in Hd', Hp'. destruct (Hp p Hp') as [_ Hne]. by apply (Hne d Hd').
    + intros p Hp'. apply elem_of_app in Hp' as [Hp'|Hp']; [|by destruct (Hp p Hp')]. apply Hin in Hp' as [_ Hp']. by apply Hn.
    + intros id c. rewrite Hm', Hm1. setoid_rewrite elem_of_app. setoid_rewrite Hin. split.
      * intros [[Hc|(d & Hd' & Hk & ->)]|(p & Hp' & Hk & ->)]; [by left|right; exists (fp, d); split; [by left|done]|right; exists p; split; [by right|done]].
      * intros [Hc|(p & [[Hf Hp']|Hp'] & Hk & ->)]; [by left; left|left; right; exists p.2; by rewrite <- Hf|right; by exists p].
Qed.

(** The connectors of a directory are loaded exactly when every file parses and
    no identity is defined twice, in one file or in two; each is then found
    under its identity, with the file it is from. *)
Theorem connectors_defined_once scope files m (Hload : load_connector_defs scope ∅ files = inl m) :
  Forall (fun f => is_Some f.2) files /\ NoDup (map (fun p => k_id p.2) (defs_of files)) /\
  (forall id c, m !! id = Some c <-> exists p, p ∈ defs_of files /\ k_id p.2 = id /\ c = mkLoaded p.2 scope (Some p.1)).
Proof.
  destruct (load_connectors_spec _ _ _ _ Hload) as (H1 & H2 & _ & H3). split_and!; [done|done|].
  intros id c. rewrite H3, lookup_empty. split; [by intros [[=]|Hp]|by right].
Qed.

(** A source as it is resolved. *)
Definition source_made (cnn_dict : gmap string ConnectorDef) (s : WpSource) (i : SourceInstanceConf) : Prop :=
  exists conn, cnn_dict !! connect s = Some conn /\
    (forall k v, so_params s !! k = Some v -> source_key_ok (k_allow_override conn) k /\ same_type (k_default_params conn) k v) /\
    i = mkSourceInst (mkCoreSource (key s) (k_kind conn) (so_params s ∪ k_default_params conn) (so_tags s)) (Some (k_id conn)).

Definition enabled (s : WpSource) : bool := default true (enable s).

Lemma resolve_source_iff iter (Hiter : IterLaw iter) cnn_dict s i :
  resolve_source_instance iter s cnn_dict = inl i <-> source_made cnn_dict s i.
Proof.
  unfold resolve_source_instance, source_made. destruct (cnn_dict !! connect s) as [conn|].
  2: { split; [done|]. by intros (conn & [=] & _). }
  assert (forall m, merge_source_params iter (k_default_params conn) (so_params s) (k_allow_override conn) = inl m <->
    (forall k v, so_params s !! k = Some v -> source_key_ok (k_allow_override conn) k /\ same_type (k_default_params conn) k v) /\
    m = so_params s ∪ k_default_params conn) as Hm.
  { intros m. unfold merge_source_params. rewrite (merge_iff iter Hiter). unfold override_ok. by setoid_rewrite source_guard_none. }
  destruct (merge_source_params _ _ _ _) as [m|e].
  - destruct (proj1 (Hm m) eq_refl) as [Hok ->]. split; [intros [= <-]; by exists conn|]. by intros (conn' & [= <-] & _ & ->).
  - split; [done|]. intros (conn' & [= <-] & Hok & _). pose proof (proj2 (Hm _) (conj Hok eq_refl)) as [=].
Qed.

Lemma build_sources_iff iter (Hiter : IterLaw iter) cnn_dict l ins :
  build_source_instances iter l cnn_dict = inl ins <-> Forall2 (source_made cnn_dict) (List.filter enabled l) ins.
Proof.
  revert ins. induction l as [|s l IH]; intros ins; cbn [build_source_instances List.filter].
  - split; [intros [= <-]; constructor|]. intros Hf. by inversion Hf.
  - unfold enabled at 1. destruct (default true (enable s)); cbn [negb]; [|apply IH].
    pose proof (resolve_source_iff iter Hiter cnn_dict s) as Hr. destruct (resolve_source_instance iter s cnn_dict) as [i|e]; cbn [conf_bind].
    2: { split; [done|]. intros Hf. inversion Hf as [|? i ? ? Hi]; subst. pose proof (proj2 (Hr i) Hi) as [=]. }
    destruct (build_source_instances iter l cnn_dict) as [ins1|e]; cbn [conf_bind].
    + split; [intros [= <-]; constructor; [by apply Hr|by apply IH]|]. intros Hf. inversion Hf as [|? i' ? ins2 Hi Hf']; subst.
      pose proof (proj2 (Hr i') Hi) as [= ->]. by pose proof (proj2 (IH ins2) Hf') as [= ->].
    + split; [done|]. intros Hf. inversion Hf as [|? i' ? ins2 Hi Hf']; subst. pose proof (proj2 (IH ins2) Hf') as [=].
Qed.

(** The run's sources: the instances kept, each built by the factory of its
    kind from its resolved specification. *)
Lemma build_specs_ok {Src Acc} (factories : string -> option (SourceFactory Src Acc)) specs ss accs :
  build_from_specs_with_ids factories specs = inl (ss, accs) ->
  Forall (fun i => exists fac out, factories (cs_kind (s_core i)) = Some fac /\
    sf_build fac (ensure_source_type_tag (source_core_to_resolved_with (s_core i) (default "" (s_connector_id i)))) = Some out) specs.
Proof.
  revert ss accs. induction specs as [|i specs IH]; intros ss accs; cbn [build_from_specs_with_ids]; [constructor|].
  assert (forall r, ss_kind (ensure_source_type_tag r) = ss_kind r) as Hk by (intros r; unfold ensure_source_type_tag; by case_match).
  rewrite Hk. cbn [source_core_to_resolved_with ss_kind]. destruct (factories (cs_kind (s_core i))) as [fac|] eqn:Ef; [|done].
  destruct (sf_build fac _) as [[a b]|] eqn:Eb; [|done]. destruct (build_from_specs_with_ids factories specs) as [[x y]|e] eqn:Es; [|done].
  intros _. constructor; [by exists fac, (a, b)|by eapply IH].
Qed.

(** A run starts the enabled sources in the order of their configuration, each
    with its connector's kind and parameters under its overrides and accepted by
    the factory of its kind, except that a batch run leaves out every TCP and
    syslog source; every specification built names its kind in a tag. *)
Theorem sources_started {Src Acc} iter (Hiter : IterLaw iter) (factories : string -> option (SourceFactory Src Acc)) cnn_dict l mode keys handles accs
    (Hrun : build_source_handles factories (build_source_instances iter l cnn_dict) mode = inl (keys, handles, accs)) :
  exists ins, Forall2 (source_made cnn_dict) (List.filter enabled l) ins /\
    validate_specs_with_factory (fun kind => sf_validate <$> factories kind) ins = None /\
    keys = map (fun i => cs_name (s_core i)) (filter_by_mode mode ins) /\
    Forall (fun i => (mode = Batch -> to_ascii_lowercase (cs_kind (s_core i)) <> "tcp" /\ to_ascii_lowercase (cs_kind (s_core i)) <> "syslog") /\
      exists fac out, factories (cs_kind (s_core i)) = Some fac /\
        sf_build fac (ensure_source_type_tag (source_core_to_resolved_with (s_core i) (default "" (s_connector_id i)))) = Some out)
      (filter_by_mode mode ins).
Proof.
  unfold build_source_handles in Hrun. destruct (build_source_instances iter l cnn_dict) as [ins|e] eqn:Eb; [|done].
  destruct (validate_specs_with_factory _ ins) eqn:Ev; [done|]. destruct (build_from_specs_with_ids _ _) as [[ss as_]|e] eqn:Es; [|done].
  injection Hrun as <- <- <-. exists ins. split_and!; [by apply (build_sources_iff iter Hiter)|done|done|].
  pose proof (build_specs_ok _ _ _ _ Es) as Hf. apply Forall_forall. intros i Hi. split; [|exact (proj1 (Forall_forall _ _) Hf i Hi)].
  intros ->. cbn [filter_by_mode] in Hi. apply list_elem_of_In, filter_In in Hi as [_ Hi]. apply andb_true_iff in Hi as [H1 H2].
  apply negb_true_iff, String.eqb_neq in H1. apply negb_true_iff, String.eqb_neq in H2. done.
Qed.
