(* ===== verification/ConfInst.v ===== *)
(** A concrete configuration: the laws of [ConfLaws] hold of it, and what the
    code does with some corner cases. *)
From Stdlib Require Import ZArith Lia String Ascii.
From Stdlib Require Import Floats.SpecFloat.
From stdpp Require Import prelude gmap strings pretty.
From S2P Require Import Prelude F64 Text Tags ConfParams SinkConf SourceConf ConfLaws.
Local Open Scope string_scope.
Local Open Scope list_scope.
Local Open Scope Z_scope.

#[local] Instance demo_crates : ConfCrates := {
  TextFmt := string; fmt_from := fun s => s; fmt_json := "json"; fmt_raw := "raw"; fmt_proto := "proto";
  Wild := string; wild_new := fun s => s; wild_default := [];
  number_text := fun n => match n with PosInt n | NegInt n => pretty n | FloatNum _ => "float" end;
}.

Definition demo_iter : gmap string Json -> list (string * Json) := map_to_list.

Lemma demo_iter_law : IterLaw demo_iter.
Proof. intros m. done. Qed.

Definition demo_base : gmap string Json := list_to_map [("base", JString "./out"); ("size", JNumber (PosInt 10))].
Definition demo_over : gmap string Json := list_to_map [("file", JString "a.dat"); ("size", JNumber (PosInt 20))].
Definition demo_conn : ConnectorDef := mkConnector "file_json" "file" demo_base ["file"; "size"; "fmt"].

Lemma overrides_respect_allowlist_witness :
  IterLaw demo_iter /\
  merge_params_with_allowlist demo_iter demo_base demo_over ["file"; "size"] = inl (demo_over ∪ demo_base) /\
  exists k v, demo_over !! k = Some v /\ sink_refused ["size"] demo_base k v (NotAllowed "file").
Proof.
  split; [exact demo_iter_law|]. split; [|exact (proj1 (proj2 (proj2
    (overrides_respect_allowlist demo_iter demo_base demo_over ["size"] demo_iter_law))) (NotAllowed "file") eq_refl)].
  destruct (overrides_respect_allowlist demo_iter demo_base demo_over ["file"; "size"] demo_iter_law) as (H & _).
  apply H. split; [|reflexivity]. intros k v Hk.
  assert ((k, v) ∈ [("file", JString "a.dat"); ("size", JNumber (PosInt 20))]) as Hin.
  { unfold demo_over in Hk. exact (elem_of_list_to_map_2 _ _ _ Hk). }
  apply elem_of_cons in Hin as [[= -> ->]|Hin]; [|apply list_elem_of_singleton in Hin; injection Hin as -> ->].
  - split; [split_and!; [left|discriminate..]|]. intros d Hd. vm_compute in Hd. discriminate Hd.
  - split; [split_and!; [right; left|discriminate..]|]. intros d Hd. vm_compute in Hd. injection Hd as <-. reflexivity.
Defined.

Definition demo_table : gmap string Json :=
  list_to_map [("a", JArray [JBool true; JNumber (NegInt (-3))]); ("b", JObject [("x", JString "y")])].

Lemma params_roundtrip_toml_witness :
  IterLaw demo_iter /\ param_map_from_table_ref (param_map_to_table demo_iter demo_table) = demo_table.
Proof.
  split; [exact demo_iter_law|].
  apply (params_roundtrip_toml demo_iter demo_table demo_iter_law).
  intros k v Hk. apply elem_of_list_to_map_2 in Hk.
  apply elem_of_cons in Hk as [[= -> ->]|Hk]; [reflexivity|]. apply list_elem_of_singleton in Hk. injection Hk as -> ->. reflexivity.
Defined.

(** A file system without files. *)
Definition no_files : FilterFiles := mkFiles (fun _ => false) (fun _ => None) (fun _ => true).

Definition demo_sink (name : option string) (over : gmap string Json) (tags : option (list string)) : RouteSink :=
  mkRouteSink "file_json" name over tags None None true false.
Definition demo_group (tags : option (list string)) (sinks : list RouteSink) : RouteGroup :=
  mkRouteGroup "main" (Some 20) None (Some (Single "/nginx/*")) tags None None None None sinks.
Definition demo_file (tags : option (list string)) (sinks : list RouteSink) : RouteFile := mkRouteFile None (demo_group tags sinks) None.
Definition demo_conns : gmap string ConnectorDef := {["file_json" := demo_conn]}.
Definition demo_defaults : option DefaultsBody := Some (mkDefaults (Some ["env:prod"]) GroupExpectSpec_default).

Definition demo_build (rf : RouteFile) : SinkRouteConf + BuildError :=
  build_route_conf_from_with demo_iter 1024 no_files (fun _ => None) rf demo_defaults demo_conns.

(** What shows of a result. *)
Definition shown (r : SinkRouteConf + BuildError) : (list (string * list string) * Z * Z) + BuildError :=
  match r with
  | inl c => inl (map (fun s => (s_name s, s_tags s)) (g_sinks (r_group c)), g_parallel (r_group c), parallel_cnt (g_parallel (r_group c)))
  | inr e => inr e
  end.

Definition two_sinks : RouteFile := demo_file (Some ["team:a"]) [demo_sink None demo_over None; demo_sink (Some "b") demo_over (Some ["x"])].

Lemma two_sinks_shown : shown (demo_build two_sinks) =
  inl ([("[0]", ["env:prod"; "team:a"]); ("b", ["env:prod"; "team:a"; "x"])], 20, 10).
Proof. vm_compute. reflexivity. Qed.

(** Two instances; twenty parallel copies are taken, and cut to ten without an
    error. *)
Lemma group_built_exactly_witness : exists conf,
  IterLaw demo_iter /\ demo_build two_sinks = inl conf /\
  NoDup (map s_name (g_sinks (r_group conf))) /\ length (g_sinks (r_group conf)) = 2%nat.
Proof.
  pose proof two_sinks_shown as Hs. destruct (demo_build two_sinks) as [conf|e] eqn:E; [|discriminate].
  exists conf. split; [exact demo_iter_law|]. split; [reflexivity|].
  destruct (proj1 (group_built_exactly demo_iter 1024 no_files (fun _ => None) demo_conns demo_defaults two_sinks conf demo_iter_law) E)
    as (sinks & Hf & Hd & _ & _ & ->).
  split; [exact Hd|]. exact (eq_sym (Forall2_length _ _ _ Hf)).
Defined.

(** Each level may have four tags, but only four are allowed together. *)
Example tags_of_three_levels :
  shown (demo_build (demo_file (Some ["a"; "b"]) [demo_sink None demo_over (Some ["c"; "d"])])) =
  inr (BadSink (BadTags (TooManyTags 5))).
Proof. vm_compute. reflexivity. Qed.

(** A tag written with an equals sign may not have a colon in its value. *)
Example colon_in_value : validate_tags ["url=http://x"] = Some (BadTagKey 0 "url=http").
Proof. vm_compute. reflexivity. Qed.

(** A ratio above one is accepted. *)
Example ratio_of_two : expect_validate (mkExpect (Some (as_f64 2)) None None None) = None.
Proof. vm_compute. reflexivity. Qed.

(** ** Infrastructure *)

Definition miss_route : RouteFile :=
  mkRouteFile None (mkRouteGroup "miss" None None None None None None (Some 5000) (Some 64) [demo_sink None demo_over None]) None.

Lemma miss_loaded : exists c, infra_load 1024 demo_iter no_files true [miss_route] demo_defaults demo_conns = Some (inl c).
Proof.
  assert (match infra_load 1024 demo_iter no_files true [miss_route] demo_defaults demo_conns with Some (inl _) => true | _ => false end = true)
    as H by (vm_compute; reflexivity).
  destruct (infra_load _ _ _ _ _ _ _) as [[c|e]|]; try discriminate. by exists c.
Qed.

(** Its batch size and timeout are not kept. *)
Lemma infra_groups_loaded_witness : exists c,
  infra_load 1024 demo_iter no_files true [miss_route] demo_defaults demo_conns = Some (inl c) /\
  f_batch_timeout_ms (i_miss c) = 300 /\ i_default c = default_ins.
Proof.
  destruct miss_loaded as [c Hc]. exists c. split; [exact Hc|].
  destruct (infra_groups_loaded 1024 demo_iter no_files [miss_route] demo_defaults demo_conns c Hc) as ((confs & Hl & Hd & _) & Hb & _).
  split; [exact (Forall_inv (Forall_inv_tail Hb))|]. rewrite Hd.
  assert (match load_infra_route_confs 1024 demo_iter no_files [miss_route] demo_defaults demo_conns with
    | inl confs => match last_named "default" confs with None => true | Some _ => false end | inr _ => false end = true) as Hn
    by (vm_compute; reflexivity).
  rewrite Hl in Hn. destruct (last_named "default" confs); [discriminate|reflexivity].
Defined.

(** ** Connectors and sources *)

Definition demo_files : list (string * option (list ConnectorDef)) :=
  [("a.toml", Some [demo_conn]); ("b.toml", Some [mkConnector "tcp_in" "tcp" ∅ ["port"]])].

Lemma connectors_defined_once_witness : exists m, load_connector_defs ScopeSource ∅ demo_files = inl m /\
  m !! "file_json" = Some (mkLoaded demo_conn ScopeSource (Some "a.toml")).
Proof.
  destruct (load_connector_defs ScopeSource ∅ demo_files) as [m|e] eqn:E; [|discriminate E].
  exists m. split; [reflexivity|].
  destruct (connectors_defined_once ScopeSource demo_files m E) as (_ & _ & H).
  apply H. exists ("a.toml", demo_conn). split; [left|split; reflexivity].
Defined.

(** One factory, which builds a handle named as its source. *)
Definition demo_factories (kind : string) : option (SourceFactory string unit) :=
  if String.eqb kind "udp" then None else Some (mkFactory (fun _ => true) (fun r => Some ([ss_name r], None))).

Definition demo_srcs : list WpSource :=
  [mkSource "one" None "f" [] ∅; mkSource "two" (Some false) "f" [] ∅; mkSource "three" (Some true) "t" ["wp_source_type=x"] ∅].
Definition src_conns : gmap string ConnectorDef :=
  list_to_map [("f", mkConnector "f" "file" ∅ []); ("t", mkConnector "t" "TCP" ∅ [])].

Definition demo_run : (list string * list string * list unit) + StartError :=
  build_source_handles demo_factories (build_source_instances demo_iter demo_srcs src_conns) Batch.

Lemma sources_started_witness : demo_run = inl (["one"], ["one"], []) /\
  exists ins, Forall2 (source_made src_conns) (List.filter enabled demo_srcs) ins /\
    ["one"] = map (fun i => cs_name (s_core i)) (filter_by_mode Batch ins).
Proof.
  assert (demo_run = inl (["one"], ["one"], [])) as H by (vm_compute; reflexivity). split; [exact H|].
  destruct (sources_started demo_iter demo_iter_law demo_factories src_conns demo_srcs Batch ["one"] ["one"] [] H) as (ins & Hf & _ & Hk & _).
  exists ins. split; [exact Hf|exact Hk].
Defined.

(** A kind given with an equals sign does not count: the tag is added again. *)
Example source_type_twice :
  ss_tags (ensure_source_type_tag (mkSourceSpec "s" "tcp" "c" ∅ ["wp_source_type=x"])) = ["wp_source_type=x"; "wp_source_type:tcp"].
Proof. vm_compute. reflexivity. Qed.

(** A source without a name, and two of the same name, are started. *)
Example nameless_sources :
  build_source_handles demo_factories
    (build_source_instances demo_iter [mkSource "" None "f" [] ∅; mkSource "" None "f" [] ∅] src_conns) Daemon
  = inl ([""; ""], [""; ""], []).
Proof. vm_compute. reflexivity. Qed.
