(* ===== verification/EngineConf.v ===== *)
(** The engine's configuration and its paths
    ([crates/wp-config/src/{engine,state}.rs], [crates/wp-config/src/stat/mod.rs],
    [src/orchestrator/config/models/warp_helpers.rs]): variables, paths made
    absolute, the state directory with its guards.

    A path of the language is the list of its components; Unix paths.  The file
    system is not touched: the code's checks are lexical. *)
From Stdlib Require Import ZArith Lia String Ascii.
From stdpp Require Import prelude strings.
From S2P Require Import Prelude Text Stats.
Local Open Scope string_scope.
Local Open Scope list_scope.
Local Open Scope Z_scope.

(** ** [std::path] *)

Inductive Component := RootDir | CurDir | ParentDir | Normal (s : string).
Notation Path := (list Component).

#[export] Instance Component_eq_dec : EqDecision Component.
Proof. solve_decision. Defined.

(** [Path::components]: empty parts and points are skipped, but for a point that
    starts a relative path. *)
Definition part (s : string) : option Component :=
  if String.eqb s "" || String.eqb s "." then None else if String.eqb s ".." then Some ParentDir else Some (Normal s).
Definition components (s : string) : Path :=
  let parts := str_split "/" s in
  if starts_with s "/" then RootDir :: omap part parts
  else match parts with
       | p :: rest => if String.eqb p "." then CurDir :: omap part rest else omap part parts
       | [] => []
       end.

Definition is_absolute (p : Path) : bool := match p with RootDir :: _ => true | _ => false end.

(** [Path::join], [PathBuf::push]: an absolute path replaces; a point of the
    second path is not its start any more. *)
Definition path_join (a b : Path) : Path :=
  if is_absolute b then b else
  match a with
  | [] => b
  | _ => a ++ match b with CurDir :: b => b | b => b end
  end.

(** [PathBuf::pop]: a root stays. *)
Definition path_pop (p : Path) : Path :=
  match last p with
  | None | Some RootDir => p
  | Some _ => removelast p
  end.

(** [Path::starts_with] *)
Fixpoint path_starts_with (p q : Path) : bool :=
  match p, q with
  | _, [] => true
  | a :: p, b :: q => bool_decide (a = b) && path_starts_with p q
  | [], _ => false
  end.

(** The text of a path built component by component. *)
Definition comp_text (c : Component) : string :=
  match c with RootDir => "/" | CurDir => "." | ParentDir => ".." | Normal s => s end.
Definition path_text (p : Path) : string :=
  match p with
  | RootDir :: p => ("/" +:+ join "/" (map comp_text p))%string
  | p => join "/" (map comp_text p)
  end.

(** ** [state.rs] *)

Definition DEFAULT_STATE_DIR : string := ".run".

Inductive StateDirError := Unresolved (raw : string) | IsWorkRoot (raw : string) | IsAncestor (raw : string) | InManaged (rel : string).

(** [normalize] *)
Fixpoint normalize_loop (out p : Path) : Path :=
  match p with
  | [] => out
  | CurDir :: p => normalize_loop out p
  | ParentDir :: p => normalize_loop (path_pop out) p
  | other :: p => normalize_loop (path_join out [other]) p
  end.
Definition normalize (p : Path) : Path := normalize_loop [] p.

(** [cwd] is the current directory. *)
Definition absolutize (cwd work_root : Path) : Path :=
  normalize (if is_absolute work_root then work_root else path_join cwd work_root).

Definition default_for (work_root : Path) : Path := path_join work_root (components DEFAULT_STATE_DIR).

Definition state_resolve (cwd work_root : Path) (raw : string) : Path + StateDirError :=
  let raw := str_trim raw in
  if String.eqb raw "" then inl (default_for work_root) else
  if contains raw "${" then inr (Unresolved raw) else
  let work_root := absolutize cwd work_root in
  let candidate := if is_absolute (components raw) then components raw else path_join work_root (components raw) in
  let path := normalize candidate in
  if bool_decide (path = work_root) then inr (IsWorkRoot raw) else
  if path_starts_with work_root path then inr (IsAncestor raw) else inl path.

Definition state_file (state : Path) (name : string) : Path := path_join state (components name).

Fixpoint reject_inside (cwd state work_root : Path) (managed_dirs : list string) : option StateDirError :=
  match managed_dirs with
  | [] => None
  | rel :: managed_dirs =>
      let managed := normalize (path_join (absolutize cwd work_root) (components rel)) in
      if path_starts_with state managed then Some (InManaged rel) else reject_inside cwd state work_root managed_dirs
  end.

(** ** [engine.rs] *)

(** [normalize_path]: the component before a parent is removed, the root too. *)
Fixpoint normalize_path_loop (cs p : Path) : Path :=
  match p with
  | [] => cs
  | CurDir :: p => normalize_path_loop cs p
  | ParentDir :: p => normalize_path_loop (removelast cs) p
  | c :: p => normalize_path_loop (cs ++ [c]) p
  end.
Definition normalize_path (p : Path) : string := path_text (normalize_path_loop [] p).

Definition resolve_engine_path (value : string) (abs_work_root : Path) : string :=
  let path := components value in
  if is_absolute path then value else normalize_path (path_join abs_work_root path).

Record RepoGroupConf := mkRepo { rp_repo : string; rp_init_version : string }.
Record ProjectRemoteConf := mkRemote {
  pr_enabled : bool; pr_repo : string; pr_init_version : string; pr_models : option RepoGroupConf; pr_infra : option RepoGroupConf }.
Record AdminApiTlsConf := mkTls { tls_enabled : bool; cert_file : string; key_file : string }.
Record AdminApiConf := mkAdmin {
  ad_enabled : bool; bind : string; request_timeout_ms : Z; max_body_bytes : Z; tls : AdminApiTlsConf; token_file : string }.
Record ModelsConf := mkModels { m_wpl : string; m_oml : string; m_knowledge : string }.
Record TopologyConf := mkTopology { t_sources : string; t_sinks : string }.
Record PerformanceConf := mkPerformance { rate_limit_rps : Z; parse_workers : Z; reload_timeout_ms : Z; fetch_timeout_ms : Z }.

(** [StatConf] *)
Record StatItem := mkStatItem { st_key : string; st_target : string; st_fields : list string; st_top_n : option Z }.
Record StatConf := mkStatConf { window_sec : option Z; st_pick : list StatItem; st_parse : list StatItem; st_sink : list StatItem }.

Definition star_item (key : string) : StatItem := mkStatItem key "*" [] None.
Definition StatConf_default : StatConf :=
  mkStatConf None [star_item "pick_stat"] [star_item "parse_stat"] [star_item "sink_stat"].
Definition StatConf_gen_default : StatConf := mkStatConf (Some 60) [] [] [mkStatItem "gen_direct" "*" [] (Some 20)].

(** The configuration, but for the strictness of errors, the logs and the
    sections that are accepted and ignored. *)
Record EngineConfig := mkEngine {
  en_version : string;
  models : ModelsConf;
  topology : TopologyConf;
  performance : PerformanceConf;
  rescue_path : string;
  stat_conf : StatConf;
  skip_parse : bool;
  skip_sink : bool;
  semantic_enabled : bool;
  gen_event_md5 : bool;
  project_remote : ProjectRemoteConf;
  state_dir : string;
  admin_api : AdminApiConf;
}.

Definition default_models_conf : ModelsConf := mkModels "./models/wpl" "./models/oml" "./models/knowledge".
Definition default_topology_conf : TopologyConf := mkTopology "./topology/sources" "./topology/sinks".
(** [workers]: [limits::parse_workers()]. *)
Definition PerformanceConf_default (workers : Z) : PerformanceConf := mkPerformance 0 workers 10000 300.
Definition AdminApiConf_default : AdminApiConf :=
  mkAdmin false "127.0.0.1:19090" 15000 4096 (mkTls false "" "") "${HOME}/.warp_parse/admin_api.token".
Definition ProjectRemoteConf_default : ProjectRemoteConf := mkRemote false "" "" None None.

Definition EngineConfig_default (workers : Z) : EngineConfig :=
  mkEngine "1.0" default_models_conf default_topology_conf (PerformanceConf_default workers) "./data/rescue" StatConf_default
    false false false false ProjectRemoteConf_default DEFAULT_STATE_DIR AdminApiConf_default.

Definition repo_env_eval (eval : string -> string) (r : RepoGroupConf) : RepoGroupConf := mkRepo (eval (rp_repo r)) (eval (rp_init_version r)).
Definition remote_env_eval (eval : string -> string) (p : ProjectRemoteConf) : ProjectRemoteConf :=
  mkRemote (pr_enabled p) (eval (pr_repo p)) (eval (pr_init_version p)) (repo_env_eval eval <$> pr_models p) (repo_env_eval eval <$> pr_infra p).
Definition admin_env_eval (eval : string -> string) (a : AdminApiConf) : AdminApiConf :=
  mkAdmin (ad_enabled a) (eval (bind a)) (request_timeout_ms a) (max_body_bytes a)
    (mkTls (tls_enabled (tls a)) (eval (cert_file (tls a))) (eval (key_file (tls a)))) (eval (token_file a)).

Definition engine_env_eval (eval : string -> string) (c : EngineConfig) : EngineConfig :=
  mkEngine (en_version c)
    (mkModels (eval (m_wpl (models c))) (eval (m_oml (models c))) (eval (m_knowledge (models c))))
    (mkTopology (eval (t_sources (topology c))) (eval (t_sinks (topology c))))
    (performance c) (eval (rescue_path c)) (stat_conf c) (skip_parse c) (skip_sink c) (semantic_enabled c) (gen_event_md5 c)
    (remote_env_eval eval (project_remote c)) (eval (state_dir c)) (admin_env_eval eval (admin_api c)).

Definition src_conf_of (c : EngineConfig) (file_name : string) : string := (t_sources (topology c) +:+ "/" +:+ file_name)%string.

Definition conf_absolutize (work_root : Path) (c : EngineConfig) : EngineConfig :=
  let resolve s := resolve_engine_path s work_root in
  let unless_empty s := if String.eqb s "" then s else resolve s in
  let a := admin_api c in
  mkEngine (en_version c)
    (mkModels (resolve (m_wpl (models c))) (resolve (m_oml (models c))) (resolve (m_knowledge (models c))))
    (mkTopology (resolve (t_sources (topology c))) (resolve (t_sinks (topology c))))
    (performance c) (resolve (rescue_path c)) (stat_conf c) (skip_parse c) (skip_sink c) (semantic_enabled c) (gen_event_md5 c)
    (project_remote c)
    (if String.eqb (str_trim (state_dir c)) "" then state_dir c else resolve (state_dir c))
    (mkAdmin (ad_enabled a) (bind a) (request_timeout_ms a) (max_body_bytes a)
       (mkTls (tls_enabled (tls a)) (unless_empty (cert_file (tls a))) (unless_empty (key_file (tls a)))) (unless_empty (token_file a))).

(** [resolve_state_dir]: an override, if it is not blank, before the
    configuration. *)
Definition resolve_state_dir (cwd work_root : Path) (main_conf : EngineConfig) (state_dir_override : option string) : Path + StateDirError :=
  let raw := match str_trim <$> state_dir_override with
    | Some v => if String.eqb v "" then state_dir main_conf else v
    | None => state_dir main_conf
    end in
  state_resolve cwd work_root raw.

(** [resolve_for_work_root]: [None] is a configuration that does not load. *)
Definition resolve_for_work_root (eval : string -> string) (cwd work_root : Path) (conf : option EngineConfig) : Path :=
  match conf with
  | Some conf =>
      match state_resolve cwd work_root (state_dir (conf_absolutize work_root (engine_env_eval eval conf))) with
      | inl dir => dir
      | inr _ => default_for work_root
      end
  | None => default_for work_root
  end.

(** ** The statistics asked for *)

Import Stats.Dim Stats.Request.

Definition TOP_N : Z := 20.
Definition PICK_DEFAULT_FIELDS : list string := ["wp_source_type"; "wp_access_ip"].
Definition PARSE_DEFAULT_FIELDS : list string := ["wp_package_name"; "wp_rule_name"].
Definition SINK_DEFAULT_FIELDS : list string := ["wp_sink_group"; "wp_sink_name"].

Definition map_target (t : string) : StatTarget :=
  let t := str_trim t in
  if String.eqb t "*" then All else if String.eqb t "ignore" then Ignore else Item t.

Definition collect_or_default (fields defaults : list string) : list string := match fields with [] => defaults | _ => fields end.

Fixpoint ensure_required_fields (fields required_fields : list string) : list string :=
  match required_fields with
  | [] => fields
  | req :: required_fields =>
      ensure_required_fields (if existsb (String.eqb req) fields then fields else fields ++ [req]) required_fields
  end.

Definition stage_req (stage : StatStage) (stage_fields : list string) (it : StatItem) : StatReq :=
  mkReq stage (st_key it) (map_target (st_target it))
    (ensure_required_fields (collect_or_default (st_fields it) stage_fields) stage_fields) (default TOP_N (st_top_n it)).

Definition stat_reqs_from (conf : StatConf) : list StatReq :=
  map (stage_req Pick PICK_DEFAULT_FIELDS) (st_pick conf) ++
  map (stage_req Parse PARSE_DEFAULT_FIELDS) (st_parse conf) ++
  map (stage_req Sink SINK_DEFAULT_FIELDS) (st_sink conf).

(** * Laws

    What the engine's paths guarantee: the state directory never
    holds the work root, managed directories never hold the state, a resolved
    path is absolute and normal unless it climbs above the root. *)

(** ** Normal paths *)

Definition is_name (c : Component) : Prop := match c with Normal _ => True | _ => False end.

(** No point, no parent, no root but at the start. *)
Definition normal (p : Path) : Prop := match p with RootDir :: q => Forall is_name q | q => Forall is_name q end.

Lemma normal_snoc p s : normal p -> normal (path_join p [Normal s]).
Proof.
  destruct p as [|c p]; cbn; [intros _; by repeat constructor|]. destruct c; cbn; intros Hp;
    [by apply Forall_app_2; [|repeat constructor]|..]; by apply (Forall_app_2 _ (_ :: p)); [|repeat constructor].
Qed.

Lemma Forall_removelast {A} (P : A -> Prop) l : Forall P l -> Forall P (removelast l).
Proof.
  induction 1 as [|x l Hx Hl IH]; [constructor|]. cbn. destruct l; constructor; done.
Qed.

Lemma removelast_cons {A} (x : A) l : l <> [] -> removelast (x :: l) = x :: removelast l.
Proof. by destruct l. Qed.

Lemma normal_pop p : normal p -> normal (path_pop p).
Proof.
  unfold path_pop. destruct (last p) as [c|] eqn:E; [|done]. intros Hp.
  assert (normal (removelast p)) as Hr.
  { destruct p as [|d p]; [done|]. destruct p as [|e p]; [constructor|]. rewrite removelast_cons by done.
    destruct d; cbn [normal] in *; [by apply Forall_removelast|..]; apply Forall_cons in Hp as [Hd Hp]; try done.
    constructor; [done|by apply Forall_removelast]. }
  by destruct c.
Qed.

Lemma normalize_loop_normal p out : normal out -> normal (normalize_loop out p).
Proof.
  revert out. induction p as [|[| | |s] p IH]; intros out Hn; cbn [normalize_loop]; [done|..]; apply IH.
  - cbn. constructor.
  - done.
  - by apply normal_pop.
  - by apply normal_snoc.
Qed.

Lemma normalize_normal p : normal (normalize p).
Proof. apply normalize_loop_normal. constructor. Qed.

Lemma normalize_names out p : Forall is_name p -> normalize_loop out p = out ++ p.
Proof.
  intros Hp. revert out. induction Hp as [|c p Hc Hp IH]; intros out; cbn [normalize_loop]; [by rewrite app_nil_r|].
  destruct c; try done. rewrite IH. destruct out; cbn; [done|]. by rewrite <- app_assoc.
Qed.

Lemma normalize_id p : normal p -> normalize p = p.
Proof.
  unfold normalize. destruct p as [|c p]; [done|]. destruct c; cbn [normal].
  - intros Hp. cbn [normalize_loop]. change (path_join [] [RootDir]) with [RootDir]. by rewrite normalize_names.
  - intros Hp. by inversion Hp.
  - intros Hp. by inversion Hp.
  - intros Hp. by rewrite normalize_names.
Qed.

Lemma absolute_pop p : is_absolute p = true -> is_absolute (path_pop p) = true.
Proof.
  unfold path_pop. destruct p as [|[| | |s] p]; try done. intros _. destruct p as [|d p]; [done|].
  destruct (last _) as [[| | |s]|]; try done; by rewrite removelast_cons.
Qed.

Lemma normalize_absolute p out : is_absolute out = true -> is_absolute (normalize_loop out p) = true.
Proof.
  revert out. induction p as [|[| | |s] p IH]; intros out Ho; cbn [normalize_loop]; [done|..]; apply IH; try done.
  - by apply absolute_pop.
  - by destruct out.
Qed.

Lemma normalize_is_absolute p : is_absolute p = true -> is_absolute (normalize p) = true.
Proof. destruct p as [|[| | |s] p]; try done. intros _. unfold normalize. cbn [normalize_loop]. by apply normalize_absolute. Qed.

Lemma starts_with_refl p : path_starts_with p p = true.
Proof. induction p as [|c p IH]; [done|]. cbn. by rewrite bool_decide_true, IH. Qed.

Lemma starts_with_prefix p q : path_starts_with p q = true <-> q `prefix_of` p.
Proof.
  revert q. induction p as [|a p IH]; intros [|b q]; cbn.
  - split; [intros _; apply prefix_nil|done].
  - split; [done|]. intros Hp. by apply prefix_nil_not in Hp.
  - split; [intros _; apply prefix_nil|done].
  - rewrite andb_true_iff, bool_decide_eq_true, IH. split.
    + intros [-> Hp]. by apply prefix_cons.
    + intros Hp. split; [by apply prefix_cons_inv_1 in Hp|by apply prefix_cons_inv_2 in Hp].
Qed.

Lemma normalize_loop_app out p q : normalize_loop out (p ++ q) = normalize_loop (normalize_loop out p) q.
Proof. revert out. induction p as [|[| | |s] p IH]; intros out; cbn [app normalize_loop]; [done|..]; apply IH. Qed.

Lemma join_absolute a b : is_absolute a = true -> is_absolute (path_join a b) = true.
Proof. intros Ha. unfold path_join. destruct (is_absolute b) eqn:Eb; [done|]. by destruct a. Qed.

(** What the default directory means is one name below the work root. *)
Lemma absolutize_default cwd work_root : is_absolute cwd || is_absolute work_root = true ->
  absolutize cwd (default_for work_root) = absolutize cwd work_root ++ [Normal ".run"].
Proof.
  intros Ha. unfold absolutize, default_for. change (components DEFAULT_STATE_DIR) with [Normal ".run"].
  set (q := if is_absolute work_root then work_root else path_join cwd work_root).
  assert (is_absolute q = true) as Hq.
  { subst q. destruct (is_absolute work_root) eqn:E; [done|]. apply join_absolute. by destruct (is_absolute cwd). }
  assert ((if is_absolute (path_join work_root [Normal ".run"]) then path_join work_root [Normal ".run"]
           else path_join cwd (path_join work_root [Normal ".run"])) = q ++ [Normal ".run"]) as ->.
  { subst q. destruct (is_absolute work_root) eqn:E.
    - rewrite join_absolute by done. by destruct work_root.
    - destruct cwd as [|c cwd]; [cbn in Ha; congruence|]. assert (path_join work_root [Normal ".run"] = work_root ++ [Normal ".run"]) as ->
        by (by destruct work_root). destruct work_root as [|[| | |s] w]; try done; cbn; by rewrite <- app_assoc. }
  unfold normalize. rewrite normalize_loop_app. cbn [normalize_loop]. fold (normalize q).
  pose proof (normalize_is_absolute q Hq) as Hn. by destruct (normalize q).
Qed.

(** C24: Component by component, the state directory that a setting resolves to
    is neither the work root nor above it, however the setting is written and
    whether the work root is given absolute or from the current directory; a
    blank setting gives the work root's own directory, any other an absolute and
    normal path without a variable left in it.  The comparison is the code's: a
    work root reached through a link, or another case of the same name, is
    another path. *)
Theorem state_dir_spares_work_root cwd work_root raw p (Hw : is_absolute cwd || is_absolute work_root = true)
    (Hr : state_resolve cwd work_root raw = inl p) :
  ~ absolutize cwd p `prefix_of` absolutize cwd work_root /\
  (str_trim raw = "" -> p = default_for work_root /\ absolutize cwd p = absolutize cwd work_root ++ [Normal ".run"]) /\
  (str_trim raw <> "" -> is_absolute p = true /\ normal p /\ contains (str_trim raw) "${" = false).
Proof.
  unfold state_resolve in Hr. destruct (String.eqb_spec (str_trim raw) "") as [E|E].
  - injection Hr as <-. rewrite absolutize_default by done. split; [|by split].
    intros Hp. apply prefix_length in Hp. rewrite length_app in Hp. cbn in Hp. lia.
  - destruct (contains (str_trim raw) "${") eqn:Ec; [done|].
    set (cand := if is_absolute (components (str_trim raw)) then _ else _) in Hr.
    destruct (bool_decide_reflect (normalize cand = absolutize cwd work_root)) as [|Hne]; [done|].
    destruct (path_starts_with (absolutize cwd work_root) (normalize cand)) eqn:Es; [done|]. injection Hr as <-.
    assert (is_absolute (normalize cand) = true) as Ha.
    { apply normalize_is_absolute. subst cand. destruct (is_absolute (components (str_trim raw))) eqn:Eab; [done|].
      apply join_absolute. unfold absolutize. apply normalize_is_absolute.
      destruct (is_absolute work_root) eqn:Ew; [done|]. apply join_absolute. by destruct (is_absolute cwd). }
    split_and!; [|done|intros _; split_and!; [done|apply normalize_normal|done]].
    unfold absolutize at 1. rewrite Ha, (normalize_id (normalize cand)) by apply normalize_normal.
    rewrite <- starts_with_prefix. congruence.
Qed.

(** A state directory that passed the check lies in none of the managed
    directories, which a remote publish replaces as a whole; and a refusal names
    one it lies in. *)
Theorem state_outside_managed cwd state work_root managed :
  match reject_inside cwd state work_root managed with
  | None => Forall (fun rel => ~ normalize (path_join (absolutize cwd work_root) (components rel)) `prefix_of` state) managed
  | Some (InManaged rel) => rel ∈ managed /\ normalize (path_join (absolutize cwd work_root) (components rel)) `prefix_of` state
  | Some _ => False
  end.
Proof.
  induction managed as [|rel managed IH]; cbn [reject_inside]; [constructor|].
  destruct (path_starts_with state _) eqn:E; [split; [by left|by apply starts_with_prefix]|].
  assert (~ normalize (path_join (absolutize cwd work_root) (components rel)) `prefix_of` state) as Hn
    by (rewrite <- starts_with_prefix; congruence).
  destruct (reject_inside cwd state work_root managed) as [[| | |r]|]; try done; [destruct IH; split; [by right|done]|by constructor].
Qed.

(** ** Reading a path again *)

Definition good_name (s : string) : bool :=
  negb (String.eqb s "") && negb (String.eqb s ".") && negb (String.eqb s "..") && forallb (fun c => negb (bool_decide (c = "/"%char))) (list_ascii_of_string s).

(** An absolute normal path with proper names. *)
Definition readable (p : Path) : Prop :=
  match p with RootDir :: q => Forall (fun c => match c with Normal s => good_name s = true | _ => False end) q | _ => False end.

Lemma split_at_plain (w : list ascii) : forallb (fun c => negb (bool_decide (c = "/"%char))) w = true -> split_at "/" w = [w].
Proof.
  induction w as [|c w IH]; [done|]. cbn [forallb split_at]. intros Hw. apply andb_true_iff in Hw as [Hc Hw]. rewrite (IH Hw).
  by destruct (bool_decide (c = "/"%char)).
Qed.

Lemma split_at_cons (w l : list ascii) : forallb (fun c => negb (bool_decide (c = "/"%char))) w = true ->
  split_at "/" (w ++ "/"%char :: l) = w :: split_at "/" l.
Proof.
  induction w as [|c w IH]; [done|]. cbn [forallb app]. intros Hw. apply andb_true_iff in Hw as [Hc Hw].
  cbn [split_at]. rewrite (IH Hw). by destruct (bool_decide (c = "/"%char)).
Qed.

Lemma str_split_join (l : list string) : l <> [] -> Forall (fun s => good_name s = true) l -> str_split "/" (join "/" l) = l.
Proof.
  induction l as [|s l IH]; [done|]. intros _ Hl. apply Forall_cons in Hl as [Hs Hl].
  assert (forallb (fun c => negb (bool_decide (c = "/"%char))) (list_ascii_of_string s) = true) as Hp.
  { unfold good_name in Hs. by apply andb_true_iff in Hs as [_ ?]. }
  unfold str_split. destruct l as [|t l].
  - cbn [join]. rewrite split_at_plain by done. cbn. by rewrite string_of_list_ascii_of_string.
  - change (join "/" (s :: t :: l)) with (s +:+ "/" +:+ join "/" (t :: l))%string. rewrite !list_ascii_app.
    cbn [list_ascii_of_string app]. rewrite split_at_cons by done. cbn [fmap list_fmap].
    rewrite string_of_list_ascii_of_string. f_equal. by apply IH.
Qed.

Lemma part_good s : good_name s = true -> part s = Some (Normal s).
Proof.
  unfold good_name, part. intros Hs. apply andb_true_iff in Hs as [Hs _]. apply andb_true_iff in Hs as [Hs H3].
  apply andb_true_iff in Hs as [H1 H2]. apply negb_true_iff in H1, H2, H3. by rewrite H1, H2, H3.
Qed.

Lemma omap_parts (q : list Component) :
  Forall (fun c => match c with Normal s => good_name s = true | _ => False end) q -> omap part (map comp_text q) = q.
Proof.
  induction 1 as [|c q Hc _ IH]; [done|]. destruct c as [| | |s]; try done. cbn [map comp_text omap list_omap].
  rewrite part_good by done. f_equal. exact IH.
Qed.

Lemma path_text_components p : readable p -> components (path_text p) = p.
Proof.
  destruct p as [|[| | |s] q]; try done. cbn [readable path_text]. intros Hq. unfold components.
  assert (starts_with ("/" +:+ join "/" (map comp_text q)) "/" = true) as -> by by apply prefix_append.
  f_equal. unfold str_split. cbn [list_ascii_of_string String.append]. change (list_ascii_of_string ("/" +:+ join "/" (map comp_text q)))
    with ([] ++ "/"%char :: list_ascii_of_string (join "/" (map comp_text q))).
  rewrite split_at_cons by done. cbn [fmap list_fmap omap list_omap string_of_list_ascii].
  change (part "") with (@None Component). cbv iota.
  destruct q as [|c q]; [done|]. fold (str_split "/" (join "/" (map comp_text (c :: q)))).
  rewrite str_split_join; [by apply omap_parts|done|].
  clear -Hq. induction Hq as [|x l Hx _ IH]; [constructor|]. destruct x; try done. constructor; done.
Qed.

(** Whether a parent is asked for where only the root is left. *)
Fixpoint climbs (depth : nat) (p : Path) : bool :=
  match p with
  | [] => false
  | ParentDir :: p => match depth with O => true | S d => climbs d p end
  | Normal _ :: p => climbs (S depth) p
  | (CurDir | RootDir) :: p => climbs depth p
  end.

Definition not_root (p : Path) : Prop := Forall (fun c => c <> RootDir) p.

Lemma normalize_path_loop_agree q out p : Forall is_name q -> out = RootDir :: q -> not_root p -> climbs (length q) p = false ->
  normalize_path_loop out p = normalize_loop out p.
Proof.
  revert out q. induction p as [|c p IH]; intros out q Hq -> Hp Hc; [done|]. apply Forall_cons in Hp as [Hc' Hp].
  destruct c as [| | |s]; cbn [normalize_path_loop normalize_loop climbs] in *; [done| | |].
  - by apply (IH _ q).
  - destruct q as [|c q]; [done|]. cbn [length] in Hc.
    assert (path_pop (RootDir :: c :: q) = removelast (RootDir :: c :: q)) as ->.
    { unfold path_pop. destruct (last (RootDir :: c :: q)) as [d|] eqn:E; [|by destruct (last_is_Some (RootDir :: c :: q)) as [_ []]; congruence].
      assert (d ∈ c :: q) as Hd by (apply last_Some_elem_of; by rewrite <- E). pose proof (proj1 (Forall_forall _ _) Hq d Hd) as Hn. by destruct d. }
    rewrite removelast_cons by done. apply (IH _ (removelast (c :: q))); [by apply Forall_removelast|done|done|].
    assert (length (removelast (c :: q)) = length q) as ->; [|done].
    clear. revert c. induction q as [|d q IH]; intros c; [done|]. rewrite removelast_cons by done. cbn [length]. by rewrite IH.
  - apply (IH _ (q ++ [Normal s])); [apply Forall_app; split; [done|by repeat constructor]|done|done|].
    rewrite length_app. cbn [length]. by rewrite Nat.add_1_r.
Qed.

Definition names_good (p : Path) : Prop := Forall (fun c => match c with Normal s => good_name s = true | _ => True end) p.

Lemma normalize_loop_readable out p : readable out -> not_root p -> names_good p -> readable (normalize_loop out p).
Proof.
  revert out. induction p as [|c p IH]; intros out Ho Hp Hg; cbn [normalize_loop]; [done|].
  apply Forall_cons in Hp as [Hc Hp]. apply Forall_cons in Hg as [Hgc Hg]. destruct c as [| | |s]; [done|by apply IH|..].
  - apply IH; [|done|done]. destruct out as [|[| | |t] q]; try done. destruct q as [|d q]; [done|]. unfold path_pop.
    assert (readable (removelast (RootDir :: d :: q))) by (rewrite removelast_cons by done; by apply Forall_removelast).
    by destruct (last _) as [[| | |t]|].
  - apply IH; [|done|done]. destruct out as [|[| | |t] q]; try done. cbn. apply Forall_app. split; [done|by repeat constructor].
Qed.

(** A relative path of the configuration that does not climb above the root is
    made the absolute and normal path it means, and reading its text again gives
    that path; an absolute one is kept as it is written. *)
Theorem engine_path_resolved value q
    (Hw : Forall (fun c => match c with Normal s => good_name s = true | _ => False end) q)
    (Hrel : is_absolute (components value) = false) (Hp : not_root (components value)) (Hg : names_good (components value))
    (Hc : climbs (length q) (components value) = false) :
  let work_root := RootDir :: q in
  let r := components (resolve_engine_path value work_root) in
  r = normalize (path_join work_root (components value)) /\ is_absolute r = true /\ normal r.
Proof.
  cbn zeta. unfold resolve_engine_path. rewrite Hrel. set (p := components value) in *.
  set (p' := match p with CurDir :: b => b | b => b end).
  assert (path_join (RootDir :: q) p = (RootDir :: q) ++ p') as Hj by (unfold path_join; by rewrite Hrel).
  assert (not_root p' /\ names_good p' /\ climbs (length q) p' = false) as (Hp' & Hg' & Hc').
  { subst p'. destruct p as [|[| | |s] r]; try done. apply Forall_cons in Hp as [_ Hp]. apply Forall_cons in Hg as [_ Hg]. done. }
  assert (normalize (path_join (RootDir :: q) p) = normalize_loop (RootDir :: q) p') as Hn.
  { rewrite Hj. unfold normalize. rewrite normalize_loop_app. f_equal. apply normalize_id. cbn [normal].
    eapply Forall_impl; [exact Hw|]. intros [| | |s]; done. }
  assert (normalize_path_loop [] (path_join (RootDir :: q) p) = normalize (path_join (RootDir :: q) p)) as Ha.
  { rewrite Hn, Hj. assert (forall cs a b, Forall is_name a -> normalize_path_loop cs (a ++ b) = normalize_path_loop (cs ++ a) b) as Happ.
    { clear. intros cs a b Ha. revert cs. induction Ha as [|c a Hc _ IH]; intros cs; cbn [app normalize_path_loop]; [by rewrite app_nil_r|].
      destruct c; try done. rewrite IH. by rewrite <- app_assoc. }
    cbn [app normalize_path_loop]. rewrite Happ.
    - cbn [app]. apply (normalize_path_loop_agree q); [|done|done|done]. eapply Forall_impl; [exact Hw|]. intros [| | |s]; done.
    - eapply Forall_impl; [exact Hw|]. intros [| | |s]; done. }
  unfold normalize_path. rewrite Ha, path_text_components.
  - split; [done|]. split; [by apply normalize_is_absolute, join_absolute|apply normalize_normal].
  - rewrite Hn. by apply normalize_loop_readable.
Qed.

(** ** Statistics *)

Import Stats.Request.

Lemma ensure_required_spec fields required : NoDup fields ->
  fields `prefix_of` ensure_required_fields fields required /\ NoDup (ensure_required_fields fields required) /\
  Forall (fun r => r ∈ ensure_required_fields fields required) required.
Proof.
  revert fields. induction required as [|r required IH]; intros fields Hd; cbn [ensure_required_fields]; [by split_and!|].
  set (f' := if existsb (String.eqb r) fields then fields else fields ++ [r]).
  assert (fields `prefix_of` f' /\ NoDup f' /\ r ∈ f') as (Hp & Hd' & Hr).
  { subst f'. destruct (existsb (String.eqb r) fields) eqn:E.
    - apply existsb_exists in E as (x & Hx & Hxe). apply String.eqb_eq in Hxe as <-. split_and!; [done|done|by apply list_elem_of_In].
    - split_and!; [by apply prefix_app_r|apply NoDup_app; split_and!; [done| |apply NoDup_singleton]|apply elem_of_app; right; by left].
      intros x Hx Hx'. apply list_elem_of_singleton in Hx' as ->. apply not_true_iff_false in E. apply E. apply existsb_exists.
      exists r. split; [by apply list_elem_of_In|apply String.eqb_refl]. }
  destruct (IH f' Hd') as (H1 & H2 & H3). split_and!; [by transitivity f'|done|]. constructor; [|done].
  destruct H1 as [k ->]. apply elem_of_app. by left.
Qed.

(** Every statistic of a stage is collected by the dimensions the stage needs,
    after those that were configured. *)
Lemma stage_req_fields stage required it : NoDup required -> NoDup (st_fields it) ->
  let collect := req_collect (stage_req stage required it) in
  NoDup collect /\ Forall (fun r => r ∈ collect) required /\ st_fields it `prefix_of` collect.
Proof.
  intros Hr Hf. unfold stage_req. cbn [req_collect]. unfold collect_or_default. destruct (st_fields it) as [|f fs] eqn:E.
  - destruct (ensure_required_spec required required Hr) as (H1 & H2 & H3). split_and!; [done|done|apply prefix_nil].
  - destruct (ensure_required_spec (f :: fs) required Hf) as (H1 & H2 & H3). done.
Qed.

(** ** Witnesses *)

Definition demo_root : Path := components "/srv/wp".

Lemma state_dir_spares_work_root_witness :
  state_resolve demo_root (components "proj/./a") "../state/./x" = inl (components "/srv/wp/proj/state/x") /\
  ~ absolutize demo_root (components "/srv/wp/proj/state/x") `prefix_of` absolutize demo_root (components "proj/./a").
Proof.
  assert (state_resolve demo_root (components "proj/./a") "../state/./x" = inl (components "/srv/wp/proj/state/x")) as H
    by (vm_compute; reflexivity).
  split; [exact H|]. exact (proj1 (state_dir_spares_work_root demo_root (components "proj/./a") "../state/./x" _ eq_refl H)).
Defined.

(** The work root, what is above it, and a variable left in are refused. *)
Example state_dir_refused :
  (state_resolve [] demo_root ".", state_resolve [] demo_root "a/../..", state_resolve [] demo_root "/srv/", state_resolve [] demo_root "${S}/x")
  = (inr (IsWorkRoot "."), inr (IsAncestor "a/../.."), inr (IsAncestor "/srv/"), inr (Unresolved "${S}/x")).
Proof. vm_compute. reflexivity. Qed.

Lemma engine_path_resolved_witness :
  resolve_engine_path "./models/../oml" demo_root = "/srv/wp/oml" /\
  components (resolve_engine_path "./models/../oml" demo_root) = normalize (path_join demo_root (components "./models/../oml")).
Proof.
  split; [vm_compute; reflexivity|].
  refine (proj1 (engine_path_resolved "./models/../oml" [Normal "srv"; Normal "wp"] _ eq_refl _ _ eq_refl)).
  - repeat constructor.
  - repeat constructor; discriminate.
  - repeat constructor.
Defined.

(** A path that climbs above the root loses the root: it is relative after all,
    and the state directory that it names is another one than when it is given
    on the command line. *)
Example climbing_path_is_relative : resolve_engine_path "../../../x" demo_root = "x".
Proof. vm_compute. reflexivity. Qed.

Example climbing_state_dir :
  let conf := EngineConfig_default 4 in
  let conf := conf_absolutize demo_root
    (mkEngine (en_version conf) (models conf) (topology conf) (performance conf) (rescue_path conf) (stat_conf conf) (skip_parse conf)
       (skip_sink conf) (semantic_enabled conf) (gen_event_md5 conf) (project_remote conf) "../../../x" (admin_api conf)) in
  (resolve_state_dir [] demo_root conf None, resolve_state_dir [] demo_root conf (Some "../../../x"))
  = (inl (components "/srv/wp/x"), inl (components "/x")).
Proof. vm_compute. reflexivity. Qed.

(** The directory of a blank setting is not normal. *)
Example default_not_normal : state_resolve [] (components "/srv/x/../wp") " " = inl (components "/srv/x/../wp/.run").
Proof. vm_compute. reflexivity. Qed.
