(* ===== verification/SinkReport.v ===== *)
(** What the command-line tools report of a project
    ([crates/wp-cli-core/src/{business/observability,utils,rescue}]): the lines of
    file sinks and of file sources, the expectations of groups checked against
    them, the statistics of rescue files.

    Files are read through [Files]; a path is its text.  Sums are of [u64] and
    wrap.  The text of a message is its kind with what it shows. *)
From Stdlib Require Import ZArith Lia String Ascii.
From Stdlib Require Import Floats.SpecFloat.
From stdpp Require Import prelude gmap strings sorting.
From S2P Require Import Prelude F64 Text ConfParams SinkConf SourceConf.
Local Open Scope string_scope.
Local Open Scope list_scope.
Local Open Scope Z_scope.
Local Open Scope wp_scope.

(** What is read of the file system: whether a path exists, the lines of a file
    and the files that match a pattern ([None]: an error). *)
Record Files := mkFileReads { fl_exists : string -> bool; fl_lines : string -> option Z; fl_glob : string -> option (list string) }.

(** [Path::new(a).join(b).display()] *)
Definition path_push (a b : string) : string :=
  if starts_with b "/" then b else if String.eqb a "" then b else
  if ends_with a "/" then (a +:+ b)%string else (a +:+ "/" +:+ b)%string.

(** ** Helpers ([utils/fs], [utils/types.rs]) *)

Definition is_match (name : string) (filters : list string) : bool :=
  match filters with [] => true | _ => existsb (fun f => contains name f) filters end.

Definition normalize_cli_path (p work_root : string) : string := if starts_with p "/" then p else path_push work_root p.

Definition resolve_path (fs : Files) (raw work_root : string) : string :=
  let resolved := normalize_cli_path raw work_root in if fl_exists fs resolved then resolved else raw.

Record Ctx := mkCtx { work_root : string; group_filters : list string; sink_filters : list string; path_like : option string; total_only : bool }.

Record SinkAccum := mkSinkAccum { sa_name : string; sa_lines : Z; sa_expect : option SinkExpectOverride }.
Record GroupAccum := mkGroupAccum { ga_name : string; ga_expect : option GroupExpectSpec; ga_sinks : list SinkAccum }.
Record Row := mkRow { row_group : string; row_sink : string; row_path : string; row_infras : bool; row_lines : Z }.

Inductive Severity := SevWarn | SevError | SevPanic.
Inductive Complaint :=
  | ZeroDenominator | FewSamples (d min : Z)
  | RatioOff (actual target tol : spec_float) (lines d : Z)
  | RatioOutside (lo hi actual : spec_float) (lines d : Z)
  | OthersAbove (actual max : spec_float) | SumOff (tol actual : spec_float).
Record ValidateItem := mkItem { vi_group : string; vi_sink : option string; vi_msg : Complaint; vi_severity : Severity }.

Definition has_error_fail (items : list ValidateItem) : bool :=
  existsb (fun it => match vi_severity it with SevError | SevPanic => true | SevWarn => false end) items.

(** ** Lines of the sinks ([business/observability/sinks.rs]) *)

Definition sink_raw_path (params : gmap string Json) : string :=
  if bool_decide (is_Some (params !! "base")) || bool_decide (is_Some (params !! "file")) then
    path_push (default "./data/out_dat" (params !! "base" ≫= as_str)) (default "out.dat" (params !! "file" ≫= as_str))
  else default "./data/out_dat/out.dat" (params !! "path" ≫= as_str).

Section Report.
Context `{ConfCrates}.
Variable fs : Files.

(** One sink: its row and what is counted of it; [None] when it is left out. *)
Definition process_sink (group : string) (framework : bool) (ctx : Ctx) (s : SinkInstanceConf) : option (Row * SinkAccum) :=
  if negb (is_match (s_name s) (sink_filters ctx)) then None else
  let kind := s_kind s in
  if negb (eq_ignore_ascii_case kind "file" || eq_ignore_ascii_case kind "test_rescue") then None else
  let raw_path := sink_raw_path (s_params s) in
  if match path_like ctx with Some substr => negb (contains raw_path substr) | None => false end then None else
  let prefer := resolve_path fs raw_path (work_root ctx) in
  let n := default 0 (fl_lines fs prefer) in
  Some (mkRow group (s_name s) prefer framework n, mkSinkAccum (s_name s) n (expect s)).

Fixpoint process_sinks (group : string) (framework : bool) (ctx : Ctx) (sinks : list SinkInstanceConf)
    (acc : list SinkAccum) (rows : list Row) (total : Z) : list SinkAccum * list Row * Z :=
  match sinks with
  | [] => (acc, rows, total)
  | s :: sinks =>
      match process_sink group framework ctx s with
      | None => process_sinks group framework ctx sinks acc rows total
      | Some (row, a) =>
          process_sinks group framework ctx sinks (acc ++ [a]) (if total_only ctx then rows else rows ++ [row]) (total +w sa_lines a)
      end
  end.

Definition process_group (g : FlexGroup) (framework : bool) (ctx : Ctx) (rows : list Row) (total : Z) : GroupAccum * list Row * Z :=
  let '(acc, rows, total) := process_sinks (g_name g) framework ctx (g_sinks g) [] rows total in
  (mkGroupAccum (g_name g) (g_expect g) acc, rows, total).

(** [build_groups_v2]: the groups of the business and of the infrastructure
    routes, loaded before. *)
Fixpoint build_groups (framework : bool) (ctx : Ctx) (confs : list SinkRouteConf) (rows : list Row) (groups : list GroupAccum) (total : Z)
    : list Row * list GroupAccum * Z :=
  match confs with
  | [] => (rows, groups, total)
  | conf :: confs =>
      let g := r_group conf in
      if negb (is_match (g_name g) (group_filters ctx)) then build_groups framework ctx confs rows groups total else
      let '(gacc, rows, total) := process_group g framework ctx rows total in
      build_groups framework ctx confs rows (groups ++ [gacc]) total
  end.
Definition build_groups_v2 (ctx : Ctx) (business infra : list SinkRouteConf) : list Row * list GroupAccum * Z :=
  let '(rows, groups, total) := build_groups false ctx business [] [] 0 in
  build_groups true ctx infra rows groups total.
End Report.

(** ** Expectations ([utils/validate/core.rs]) *)

Record GroupStat := mkGroupStat { gs_name : string; gs_input : Z }.
Record StatsFile := mkStats { total_input : Z; st_groups : list GroupStat }.
Definition group_input (stats : StatsFile) (group : string) : option Z :=
  gs_input <$> List.find (fun g => String.eqb (gs_name g) group) (st_groups stats).

Definition sum_lines (l : list SinkAccum) : Z := foldl (fun n s => n +w sa_lines s) 0 l.
Definition total_lines (groups : list GroupAccum) : Z := foldl (fun n g => n +w sum_lines (ga_sinks g)) 0 groups.

Definition to_sev (m : ExpectMode) : Severity := match m with Warn => SevWarn | Error => SevError | PanicMode => SevPanic end.

(** [1e-12] *)
Definition EPS : spec_float := f64_decimal false 1 (-12).
Definition off_by (x target tol : spec_float) : bool := flt (fadd tol EPS) (SFabs (fsub x target)).
Definition share (lines d : Z) : spec_float := fdiv (as_f64 lines) (as_f64 d).
Definition inf (s : bool) : spec_float := S754_infinity s.

Definition check_sink (g : string) (sev : Severity) (d : Z) (s : SinkAccum) : list ValidateItem :=
  match sa_expect s with
  | None => []
  | Some se =>
      let r := share (sa_lines s) d in
      (match ratio se with
       | Some target =>
           let tol := default (S754_zero false) (tol se) in
           if off_by r target tol then [mkItem g (Some (sa_name s)) (RatioOff r target tol (sa_lines s) d) sev] else []
       | None => []
       end) ++
      (let lo := default (inf true) (e_min se) in let hi := default (inf false) (e_max se) in
       if fle lo r && fle r hi then []
       else [mkItem g (Some (sa_name s)) (RatioOutside (default (S754_zero false) (e_min se)) (default (as_f64 1) (e_max se)) r (sa_lines s) d) sev])
  end.

(** A group's complaints, given its denominator. *)
Definition check_group (g : GroupAccum) (ge : GroupExpectSpec) (d : Z) : list ValidateItem :=
  if d =? 0 then [mkItem (ga_name g) None ZeroDenominator SevWarn] else
  if match min_samples ge with Some ms => d <? ms | None => false end then
    [mkItem (ga_name g) None (FewSamples d (default 0 (min_samples ge))) SevWarn] else
  let sev := to_sev (mode ge) in
  concat (map (check_sink (ga_name g) sev d) (ga_sinks g)) ++
  (match others_max ge with
   | Some om =>
       let r := share (sum_lines (List.filter (fun s => bool_decide (sa_expect s = None)) (ga_sinks g))) d in
       if flt (fadd om EPS) r then [mkItem (ga_name g) None (OthersAbove r om) sev] else []
   | None => []
   end) ++
  (match sum_tol ge with
   | Some st =>
       let sum_r := foldl fadd (S754_zero true)
         (map (fun s => share (sa_lines s) d)
            (List.filter (fun s => match sa_expect s with Some e => bool_decide (is_Some (ratio e)) | None => false end) (ga_sinks g))) in
       if off_by sum_r (as_f64 1) st then [mkItem (ga_name g) None (SumOff st sum_r) sev] else []
   | None => []
   end).

Definition validate_groups (groups : list GroupAccum) (total_override : option Z) : list ValidateItem :=
  let total_input := default (total_lines groups) total_override in
  concat (map (fun g =>
    match ga_expect g with
    | None => []
    | Some ge =>
        check_group g ge
          (match basis ge with
           | GroupInput => sum_lines (ga_sinks g)
           | TotalInput => total_input
           | Model _ => sum_lines (ga_sinks g)
           end)
    end) groups).

Definition validate_with_stats (groups : list GroupAccum) (stats : option StatsFile) (total_override : option Z) : list ValidateItem :=
  let total_input := default (total_lines groups) (match total_override with Some t => Some t | None => total_input <$> stats end) in
  concat (map (fun g =>
    match ga_expect g with
    | None => []
    | Some ge =>
        check_group g ge
          (match basis ge with
           | GroupInput => default (sum_lines (ga_sinks g)) (stats ≫= fun st => group_input st (ga_name g))
           | TotalInput => total_input
           | Model _ => sum_lines (ga_sinks g)
           end)
    end) groups).

(** ** Lines of the sources ([business/observability/sources.rs]) *)

Inductive InputError := InputConf (e : SourceError) | PathGiven | BaseWildcard | FileMissing | BadPattern | NoMatch | Unreadable (path : string).

Definition has_glob_pattern (value : string) : bool := contains value "*" || contains value "?" || contains value "[".

Definition configured_file_source_path (merged : gmap string Json) : option string :=
  match merged !! "path" ≫= as_str with
  | Some path => Some path
  | None => (fun file => path_push (default "./data/in_dat" (merged !! "base" ≫= as_str)) file) <$> (merged !! "file" ≫= as_str)
  end.

Definition validated_file_source_path (merged : gmap string Json) : string + InputError :=
  if bool_decide (is_Some (merged !! "path")) then inr PathGiven else
  let base := default "./data/in_dat" (merged !! "base" ≫= as_str) in
  if has_glob_pattern base then inr BaseWildcard else
  match merged !! "file" ≫= as_str with
  | None => inr FileMissing
  | Some file => inl (path_push base file)
  end.

(** [Vec::dedup] *)
Fixpoint dedup (l : list string) : list string :=
  match l with
  | x :: (y :: _) as l => if String.eqb x y then dedup l else x :: dedup l
  | l => l
  end.
Definition str_le (a b : string) : Prop := String.leb a b = true.
#[export] Instance str_le_dec : RelDecision str_le.
Proof. unfold str_le. solve_decision. Defined.
Definition sort_paths (l : list string) : list string := merge_sort str_le l.

(** An entry of [SrcLineReport]; an error is its kind. *)
Record SrcLineItem := mkLineItem { li_key : string; li_path : string; li_enabled : bool; li_lines : option Z; li_error : option InputError }.
Record SrcLineReport := mkLineReport { total_enabled_lines : Z; li_items : list SrcLineItem }.

Section Sources.
Variable fs : Files.
Variable iter : gmap string Json -> list (string * Json).
(** The work root of the context. *)
Variable root : string.

Definition expand_source_paths (raw : string) : list string + InputError :=
  if negb (has_glob_pattern raw) then inl [resolve_path fs raw root] else
  match fl_glob fs (normalize_cli_path raw root) with
  | None => inr BadPattern
  | Some matches =>
      let matches := dedup (sort_paths matches) in
      if bool_decide (matches = []) then inr NoMatch else inl matches
  end.

(** [load_wpsrc_sources]: every source of the file with the instance of its
    name, which is taken from the map. *)
Definition instances_by_name (instances : list SourceInstanceConf) : gmap string SourceInstanceConf :=
  foldl (fun m i => <[cs_name (s_core i) := i]> m) ∅ instances.
Fixpoint pair_sources (m : gmap string SourceInstanceConf) (parsed : list WpSource) : list (WpSource * SourceInstanceConf) :=
  match parsed with
  | [] => []
  | s :: parsed =>
      match m !! key s with
      | Some i => (s, i) :: pair_sources (delete (key s) m) parsed
      | None => pair_sources m parsed
      end
  end.

Definition is_file_source (i : SourceInstanceConf) : bool := eq_ignore_ascii_case (cs_kind (s_core i)) "file".

(** The lines of paths; the first that cannot be read ends it. *)
Fixpoint sum_paths (sum : Z) (paths : list string) : Z + InputError :=
  match paths with
  | [] => inl sum
  | p :: paths => match fl_lines fs p with Some n => sum_paths (sum +w n) paths | None => inr (Unreadable p) end
  end.

Fixpoint input_loop (sum : Z) (saw : bool) (l : list (WpSource * SourceInstanceConf)) : (Z * bool) + InputError :=
  match l with
  | [] => inl (sum, saw)
  | (source, i) :: l =>
      if negb (default true (enable source)) || negb (is_file_source i) then input_loop sum saw l else
      let? path := validated_file_source_path (cs_params (s_core i)) in
      let? paths := expand_source_paths path in
      let? sum := sum_paths sum paths in
      input_loop sum true l
  end.

(** [total_input_from_wpsrc] on the sources of the file and the connectors. *)
Definition total_input_from_wpsrc (parsed : list WpSource) (conn_map : gmap string ConnectorDef) : option Z + InputError :=
  match build_source_instances iter parsed conn_map with
  | inr e => inr (InputConf e)
  | inl instances =>
      let? r := input_loop 0 false (pair_sources (instances_by_name instances) parsed) in
      inl (if snd r then Some (fst r) else None)
  end.

(** What the report counts of paths: the sum of those that can be read, and the
    first that cannot. *)
Fixpoint count_paths (source_total : Z) (first_err : option InputError) (paths : list string) : Z * option InputError :=
  match paths with
  | [] => (source_total, first_err)
  | p :: paths =>
      match fl_lines fs p with
      | Some n => count_paths (source_total +w n) first_err paths
      | None => count_paths source_total (match first_err with None => Some (Unreadable p) | e => e end) paths
      end
  end.

(** One source of the report: its entry and the total after it. *)
Definition report_source (conn_map : gmap string ConnectorDef) (source : WpSource) (total : Z) : option SrcLineItem * Z :=
  let enabled := default true (enable source) in
  match resolve_source_instance iter source conn_map with
  | inr e => (Some (mkLineItem (key source) (default "" (configured_file_source_path (so_params source))) enabled None (Some (InputConf e))), total)
  | inl i =>
      if negb (is_file_source i) then (None, total) else
      let params := cs_params (s_core i) in
      let path_str := default "" (configured_file_source_path params) in
      if negb enabled then (Some (mkLineItem (key source) path_str enabled None None), total) else
      match validated_file_source_path params with
      | inr e => (Some (mkLineItem (key source) path_str enabled None (Some e)), total)
      | inl path_str =>
          match expand_source_paths path_str with
          | inr e => (Some (mkLineItem (key source) path_str enabled None (Some e)), total)
          | inl paths =>
              match count_paths 0 None paths with
              | (n, None) => (Some (mkLineItem (key source) path_str enabled (Some n) None), total +w n)
              | (_, Some e) => (Some (mkLineItem (key source) path_str enabled None (Some e)), total)
              end
          end
      end
  end.

Fixpoint report_loop (conn_map : gmap string ConnectorDef) (sources : list WpSource) (items : list SrcLineItem) (total : Z) : SrcLineReport :=
  match sources with
  | [] => mkLineReport total items
  | s :: sources =>
      let '(item, total) := report_source conn_map s total in
      report_loop conn_map sources (items ++ option_list item) total
  end.
Definition list_file_sources_with_lines (sources : list WpSource) (conn_map : gmap string ConnectorDef) : SrcLineReport :=
  report_loop conn_map sources [] 0.
End Sources.

(** ** Rescue files ([rescue/stat.rs]) *)

(** A file of the walk: its path below the root, the name of its directory there,
    if any, its own name, its size, its lines. *)
Record RescueEntry := mkRescueEntry { re_rel : string; re_group : option string; re_file : string; re_ext_dat : bool; re_size : option Z; re_lines : Z }.

Record SinkRescueStat := mkSinkRescue { sr_files : Z; sr_lines : Z; sr_bytes : Z }.
Record RescueFileStat := mkRescueFile { rf_path : string; rf_sink : string; rf_size : Z; rf_lines : Z }.
Record RescueStatSummary := mkSummary {
  total_files : Z; sum_total_lines : Z; total_bytes : Z; by_sink : gmap string SinkRescueStat; rs_files : list RescueFileStat }.

Definition parse_sink_name (e : RescueEntry) : string :=
  let sink_id := default "unknown" (head (str_split "-" (re_file e))) in
  match re_group e with
  | Some group => if String.eqb group "" then sink_id else (group +:+ "/" +:+ sink_id)%string
  | None => sink_id
  end.
#[export] Instance file_le_dec : RelDecision (fun a b : RescueFileStat => str_le (rf_path a) (rf_path b)).
Proof. intros a b. apply str_le_dec. Defined.

Definition scan_entry (include_detail : bool) (s : RescueStatSummary) (e : RescueEntry) : RescueStatSummary :=
  if negb (re_ext_dat e) then s else
  match re_size e with
  | None => s
  | Some size =>
      let sink := parse_sink_name e in
      let st := default (mkSinkRescue 0 0 0) (by_sink s !! sink) in
      mkSummary (total_files s + 1) (sum_total_lines s + re_lines e) (total_bytes s + size)
        (<[sink := mkSinkRescue (sr_files st + 1) (sr_lines st + re_lines e) (sr_bytes st + size)]> (by_sink s))
        (if include_detail then rs_files s ++ [mkRescueFile (re_rel e) sink size (re_lines e)] else rs_files s)
  end.

Definition scan_rescue_stat (include_detail : bool) (entries : list RescueEntry) : RescueStatSummary :=
  let s := foldl (scan_entry include_detail) (mkSummary 0 0 0 ∅ []) entries in
  mkSummary (total_files s) (sum_total_lines s) (total_bytes s) (by_sink s)
    (merge_sort (fun a b => str_le (rf_path a) (rf_path b)) (rs_files s)).

(** * Laws

    What the reports of the command-line tools guarantee: the two
    counts of the input agree, the expectations fail exactly when one is missed,
    the rescue statistics add up. *)

(** ** The input *)

Definition wraps (l : list Z) : Z := foldl (fun a b => a +w b) 0 l.

Lemma wrap_add_assoc a b c : (a +w b) +w c = a +w (b +w c).
Proof. unfold wrap_add. rewrite Z.add_mod_idemp_l, Z.add_mod_idemp_r by done. f_equal. lia. Qed.

Lemma wrap_add_0_l a : 0 <= a < 2 ^ 64 -> 0 +w a = a.
Proof. intros Ha. unfold wrap_add. rewrite Z.add_0_l. by apply Z.mod_small. Qed.

Lemma wrap_add_0_r a : 0 <= a < 2 ^ 64 -> a +w 0 = a.
Proof. intros Ha. unfold wrap_add. rewrite Z.add_0_r. by apply Z.mod_small. Qed.

Lemma wrap_in_range a b : 0 <= a +w b < 2 ^ 64.
Proof. unfold wrap_add. by apply Z.mod_pos_bound. Qed.

Section Input.
Variable fs : Files.
Variable iter : gmap string Json -> list (string * Json).
Variable root : string.

Lemma sum_paths_spec paths s t a : 0 <= s < 2 ^ 64 -> sum_paths fs s paths = inl t -> 0 <= a < 2 ^ 64 ->
  exists u, count_paths fs a None paths = (u, None) /\ s +w u = t +w a /\ 0 <= t < 2 ^ 64 /\ 0 <= u < 2 ^ 64.
Proof.
  revert s a. induction paths as [|p paths IH]; intros s a Hs; cbn [sum_paths count_paths].
  - intros [= <-] Ha. exists a. done.
  - destruct (fl_lines fs p) as [n|]; [|done]. intros E Ha.
    destruct (IH (s +w n) (a +w n) (wrap_in_range _ _) E (wrap_in_range _ _)) as (u & Hu & He & Ht & Hur). exists u. split; [done|]. split; [|done].
    unfold wrap_add in *. rewrite Zplus_mod_idemp_l in He. rewrite Zplus_mod_idemp_r in He.
    assert ((s + n + u) mod 2 ^ 64 = (t + (a + n)) mod 2 ^ 64) as He' by done.
    replace (s + u) with (s + n + u - n) by lia. replace (t + a) with (t + (a + n) - n) by lia.
    rewrite (Zminus_mod (s + n + u)), He', <- Zminus_mod. done.
Qed.

Definition src_inst (conn_map : gmap string ConnectorDef) (s : WpSource) : option SourceInstanceConf :=
  match resolve_source_instance iter s conn_map with inl i => Some i | inr _ => None end.
Definition on (s : WpSource) : bool := default true (enable s).

Lemma input_report_agree conn_map l m sum saw t saw' items :
  NoDup (map key l) -> (forall s, s ∈ l -> m !! key s = if on s then src_inst conn_map s else None) ->
  (forall s, s ∈ l -> on s = true -> is_Some (src_inst conn_map s)) -> 0 <= sum < 2 ^ 64 ->
  input_loop fs root sum saw (pair_sources m l) = inl (t, saw') ->
  total_enabled_lines (report_loop fs iter root conn_map l items sum) = t /\ (saw' = false -> t = sum).
Proof.
  revert m sum saw items. induction l as [|s l IH]; intros m sum saw items Hd Hm Hs Hr; cbn [pair_sources report_loop].
  - cbn [input_loop]. by intros [= <- <-].
  - cbn [map] in Hd. apply NoDup_cons in Hd as [Hk Hd].
    assert (forall x, x ∈ l -> key x <> key s) as Hne.
    { intros x Hx Hxk. apply Hk. rewrite <- Hxk. apply list_elem_of_In, in_map_iff. exists x. split; [done|by apply list_elem_of_In]. }
    assert (forall m', (forall x, x ∈ l -> m' !! key x = m !! key x) -> forall sum saw items, 0 <= sum < 2 ^ 64 ->
      input_loop fs root sum saw (pair_sources m' l) = inl (t, saw') ->
      total_enabled_lines (report_loop fs iter root conn_map l items sum) = t /\ (saw' = false -> t = sum)) as IH'.
    { intros m' Hm' sum0 saw0 items0 Hr0. apply (IH m'); [done| |by intros x Hx; apply Hs; right|done].
      intros x Hx. rewrite Hm' by done. apply Hm. by right. }
    specialize (Hm s ltac:(by left)). pose proof (Hs s ltac:(by left)) as Hon. unfold report_source. fold (on s).
    destruct (on s) eqn:Eon.
    + destruct (Hon eq_refl) as [i Hi]. rewrite Hi in Hm. rewrite Hm.
      assert (forall x, x ∈ l -> delete (key s) m !! key x = m !! key x) as Hdel.
      { intros x Hx. apply lookup_delete_ne. intros E. by apply (Hne x Hx). }
      unfold src_inst in Hi. destruct (resolve_source_instance iter s conn_map) as [i'|]; [|done]. injection Hi as ->.
      cbn [input_loop]. fold (on s). rewrite Eon. cbn [negb orb].
      destruct (is_file_source i) eqn:Ef; cbn [negb]; [|by apply IH'].
      destruct (validated_file_source_path (cs_params (s_core i))) as [path|e]; cbn [conf_bind]; [|done].
      destruct (expand_source_paths fs root path) as [paths|e]; cbn [conf_bind]; [|done].
      destruct (sum_paths fs sum paths) as [sum'|e] eqn:Ep; cbn [conf_bind]; [|done]. intros El.
      destruct (sum_paths_spec paths sum sum' 0 Hr Ep ltac:(done)) as (u & Hu & He & Hr' & _). rewrite Hu.
      rewrite (wrap_add_0_r sum') in He by done. rewrite He.
      destruct (IH' (delete (key s) m) Hdel sum' true (items ++ option_list (Some (mkLineItem (key s) path true (Some u) None))) Hr' El) as [H1 H2].
      split; [done|]. intros Hf. exfalso.
      assert (forall q sum saw t, input_loop fs root sum true q = inl (t, saw) -> saw = true) as Hsaw.
      { clear. induction q as [|[x i] q IHq]; intros sum saw t; cbn [input_loop]; [by intros [= _ <-]|].
        destruct (negb _ || negb _); [apply IHq|]. destruct (validated_file_source_path _); cbn [conf_bind]; [|done].
        destruct (expand_source_paths _ _ _); cbn [conf_bind]; [|done]. destruct (sum_paths _ _ _); cbn [conf_bind]; [|done]. apply IHq. }
      rewrite (Hsaw _ _ _ _ El) in Hf. done.
    + rewrite Hm. destruct (resolve_source_instance iter s conn_map) as [i|e]; [|by apply (IH' m)].
      destruct (is_file_source i); cbn [negb]; by apply (IH' m).
Qed.

Lemma build_by_name conn_map l ins : NoDup (map key l) -> build_source_instances iter l conn_map = inl ins ->
  (forall s, s ∈ l -> on s = true -> is_Some (src_inst conn_map s)) /\
  NoDup (map (fun i => cs_name (s_core i)) ins) /\
  (forall i, i ∈ ins <-> exists s, s ∈ l /\ on s = true /\ src_inst conn_map s = Some i) /\
  (forall i, i ∈ ins -> cs_name (s_core i) ∈ map key l).
Proof.
  revert ins. induction l as [|s l IH]; intros ins; cbn [build_source_instances map].
  - intros _ [= <-]. split_and!; [by intros s Hs; apply not_elem_of_nil in Hs|constructor| |by intros i Hi; apply not_elem_of_nil in Hi].
    intros i. split; [by intros Hi; apply not_elem_of_nil in Hi|by intros (s & Hs & _); apply not_elem_of_nil in Hs].
  - intros Hd. apply NoDup_cons in Hd as [Hk Hd]. fold (on s). destruct (on s) eqn:Eon; cbn [negb].
    + destruct (resolve_source_instance iter s conn_map) as [i|e] eqn:Er; cbn [conf_bind]; [|done].
      destruct (build_source_instances iter l conn_map) as [ins'|e]; cbn [conf_bind]; [|done]. intros [= <-].
      destruct (IH ins' Hd eq_refl) as (H1 & H2 & H3 & H4).
      assert (src_inst conn_map s = Some i) as Hi by (unfold src_inst; by rewrite Er).
      assert (cs_name (s_core i) = key s) as Hn.
      { unfold resolve_source_instance in Er. destruct (conn_map !! connect s); [|done]. destruct (merge_source_params _ _ _ _); [|done].
        by injection Er as <-. }
      split_and!.
      * intros x Hx Hxo. apply elem_of_cons in Hx as [->|Hx]; [by rewrite Hi|by apply H1].
      * cbn [map]. constructor; [|done]. rewrite Hn. intros Hin. apply list_elem_of_In, in_map_iff in Hin as (j & Hj & Hjin).
        apply Hk. rewrite <- Hj. apply H4. by apply list_elem_of_In.
      * intros j. rewrite elem_of_cons, H3. split.
        -- intros [->|(x & Hx & Hxo)]; [exists s; split; [by left|done]|exists x; split; [by right|done]].
        -- intros (x & Hx & Hxo & Hxi). apply elem_of_cons in Hx as [->|Hx]; [left; congruence|right; by exists x].
      * intros j Hj. apply elem_of_cons in Hj as [->|Hj]; [rewrite Hn; by left|right; by apply H4].
    + intros E. destruct (IH ins Hd E) as (H1 & H2 & H3 & H4). split_and!; [|done| |intros j Hj; right; by apply H4].
      * intros x Hx Hxo. apply elem_of_cons in Hx as [->|Hx]; [congruence|by apply H1].
      * intros j. rewrite H3. split; intros (x & Hx & Hxo & Hxi); exists x; (split; [|done]); [by right|].
        apply elem_of_cons in Hx as [->|Hx]; [congruence|done].
Qed.

Lemma by_name_lookup ins (m : gmap string SourceInstanceConf) k : NoDup (map (fun i => cs_name (s_core i)) ins) ->
  foldl (fun m i => <[cs_name (s_core i) := i]> m) m ins !! k =
  match List.find (fun i => String.eqb (cs_name (s_core i)) k) ins with Some i => Some i | None => m !! k end.
Proof.
  revert m. induction ins as [|i ins IH]; intros m Hd; cbn [foldl List.find]; [done|]. cbn [map] in Hd. apply NoDup_cons in Hd as [Hk Hd].
  rewrite IH by done. destruct (String.eqb_spec (cs_name (s_core i)) k) as [<-|Hne].
  - destruct (List.find _ ins) as [j|] eqn:Ef; [|by rewrite lookup_insert_eq].
    apply find_some in Ef as [Hj Hjn]. apply String.eqb_eq in Hjn. exfalso. apply Hk. rewrite <- Hjn.
    apply list_elem_of_In, in_map_iff. by exists j.
  - destruct (List.find _ ins); [done|]. by rewrite lookup_insert_ne.
Qed.
End Input.

(** When the names of the sources differ and the input can be counted, the total
    derived from the sources, which expectations are checked against, is the
    total of the report of file sources, and without an enabled file source the
    report's total is zero. *)
Theorem input_totals_agree fs iter root parsed conn_map r (Hd : NoDup (map key parsed))
    (Hr : total_input_from_wpsrc fs iter root parsed conn_map = inl r) :
  total_enabled_lines (list_file_sources_with_lines fs iter root parsed conn_map) = default 0 r.
Proof.
  unfold total_input_from_wpsrc in Hr. destruct (build_source_instances iter parsed conn_map) as [ins|e] eqn:Eb; [|done].
  destruct (build_by_name iter conn_map parsed ins Hd Eb) as (H1 & H2 & H3 & _).
  destruct (input_loop fs root 0 false _) as [[t saw]|e] eqn:El; cbn [conf_bind] in Hr; [|done]. injection Hr as <-.
  assert (forall s i, src_inst iter conn_map s = Some i -> cs_name (s_core i) = key s) as Hname.
  { intros s i Hi. unfold src_inst, resolve_source_instance in Hi. destruct (conn_map !! connect s); [|done].
    destruct (merge_source_params _ _ _ _); [|done]. by injection Hi as <-. }
  destruct (input_report_agree fs iter root conn_map parsed (instances_by_name ins) 0 false t saw [] Hd) as [Ha Hb]; [|done|done|done|].
  - intros s Hs. unfold instances_by_name. rewrite by_name_lookup by done.
    destruct (List.find _ ins) as [i|] eqn:Ef.
    + apply find_some in Ef as [Hi Hn]. apply String.eqb_eq in Hn. apply list_elem_of_In, H3 in Hi as (x & Hx & Hxo & Hxi).
      assert (x = s) as <-; [|by rewrite Hxo].
      apply (Hname x i) in Hxi as Hxn. rewrite Hxn in Hn. clear -Hd Hx Hs Hn.
      induction parsed as [|y l IH]; [by apply not_elem_of_nil in Hx|]. cbn [map] in Hd. apply NoDup_cons in Hd as [Hk Hd].
      apply elem_of_cons in Hx as [->|Hx], Hs as [->|Hs]; [done|..|by apply IH].
      * exfalso. apply Hk. rewrite Hn. apply list_elem_of_In, in_map_iff. exists s. split; [done|by apply list_elem_of_In].
      * exfalso. apply Hk. rewrite <- Hn. apply list_elem_of_In, in_map_iff. exists x. split; [done|by apply list_elem_of_In].
    + rewrite lookup_empty. destruct (on s) eqn:Eon; [|done]. destruct (H1 s Hs Eon) as [i Hi]. exfalso.
      assert (i ∈ ins) as Hin by (apply H3; by exists s). apply list_elem_of_In in Hin.
      pose proof (find_none _ _ Ef i Hin) as Hf. cbn in Hf. by rewrite (Hname s i Hi), String.eqb_refl in Hf.
  - unfold list_file_sources_with_lines. rewrite Ha. cbn [fst snd]. destruct saw; [done|]. by apply Hb.
Qed.

(** ** Expectations *)

Lemma has_error_app a b : has_error_fail (a ++ b) = has_error_fail a || has_error_fail b.
Proof. apply existsb_app. Qed.

Lemma has_error_concat {A} (f : A -> list ValidateItem) l :
  has_error_fail (concat (map f l)) = true <-> exists x, x ∈ l /\ has_error_fail (f x) = true.
Proof.
  induction l as [|x l IH]; cbn [map concat].
  - split; [done|]. by intros (x & Hx & _); apply not_elem_of_nil in Hx.
  - rewrite has_error_app, orb_true_iff, IH. split.
    + intros [Hx|(y & Hy & Hx)]; [exists x; split; [by left|done]|exists y; split; [by right|done]].
    + intros (y & Hy & Hx). apply elem_of_cons in Hy as [->|Hy]; [by left|right; by exists y].
Qed.

(** A sink outside of what is expected of it. *)
Definition sink_missed (d : Z) (s : SinkAccum) : Prop :=
  exists se, sa_expect s = Some se /\
    ((exists target, ratio se = Some target /\ off_by (share (sa_lines s) d) target (default (S754_zero false) (tol se)) = true) \/
     fle (default (inf true) (e_min se)) (share (sa_lines s) d) && fle (share (sa_lines s) d) (default (inf false) (e_max se)) = false).

Definition others_missed (d : Z) (g : GroupAccum) (ge : GroupExpectSpec) : Prop :=
  exists om, others_max ge = Some om /\
    flt (fadd om EPS) (share (sum_lines (List.filter (fun s => bool_decide (sa_expect s = None)) (ga_sinks g))) d) = true.

Definition sum_missed (d : Z) (g : GroupAccum) (ge : GroupExpectSpec) : Prop :=
  exists st, sum_tol ge = Some st /\
    off_by (foldl fadd (S754_zero true)
      (map (fun s => share (sa_lines s) d)
         (List.filter (fun s => match sa_expect s with Some e => bool_decide (is_Some (ratio e)) | None => false end) (ga_sinks g))))
      (as_f64 1) st = true.

(** A group that fails, given how its denominator is found. *)
Definition group_missed (denom : GroupAccum -> GroupExpectSpec -> Z) (g : GroupAccum) : Prop :=
  exists ge, ga_expect g = Some ge /\ mode ge <> Warn /\
    let d := denom g ge in
    d <> 0 /\ (forall ms, min_samples ge = Some ms -> ms <= d) /\
    ((exists s, s ∈ ga_sinks g /\ sink_missed d s) \/ others_missed d g ge \/ sum_missed d g ge).

Definition sev_fails (sev : Severity) : bool := match sev with SevWarn => false | _ => true end.

Lemma check_sink_fails g sev d s : has_error_fail (check_sink g sev d s) = true <-> sev_fails sev = true /\ sink_missed d s.
Proof.
  unfold check_sink, sink_missed. destruct (sa_expect s) as [se|]; [|split; [done|by intros (_ & se & [=] & _)]].
  rewrite has_error_app, orb_true_iff. set (r := share (sa_lines s) d).
  assert (forall it : ValidateItem, vi_severity it = sev -> has_error_fail [it] = true <-> sev_fails sev = true) as Hit.
  { intros it <-. unfold has_error_fail. cbn [existsb]. rewrite orb_false_r. by destruct (vi_severity it). }
  split.
  - intros [H|H].
    + destruct (ratio se) as [target|] eqn:Er; [|done]. destruct (off_by _ _ _) eqn:Eo; [|done]. rewrite Hit in H by done.
      split; [done|]. exists se. split; [done|]. left. by exists target.
    + destruct (fle _ r && fle r _) eqn:Ef; [done|]. rewrite Hit in H by done. split; [done|]. exists se. split; [done|]. by right.
  - intros (Hs & se' & [= <-] & [(target & Er & Eo)|Ef]).
    + left. rewrite Er. fold r in Eo. rewrite Eo. by apply Hit.
    + right. fold r in Ef. rewrite Ef. by apply Hit.
Qed.

Lemma check_group_fails g ge d : has_error_fail (check_group g ge d) = true <->
  mode ge <> Warn /\ d <> 0 /\ (forall ms, min_samples ge = Some ms -> ms <= d) /\
  ((exists s, s ∈ ga_sinks g /\ sink_missed d s) \/ others_missed d g ge \/ sum_missed d g ge).
Proof.
  unfold check_group. destruct (d =? 0) eqn:E0; [split; [done|intros (_ & H & _); lia]|].
  destruct (match min_samples ge with Some ms => d <? ms | None => false end) eqn:Em.
  { split; [done|]. intros (_ & _ & H & _). destruct (min_samples ge) as [ms|]; [|done]. specialize (H ms eq_refl). lia. }
  assert (forall ms, min_samples ge = Some ms -> ms <= d) as Hms by (intros ms E; rewrite E in Em; lia).
  assert (sev_fails (to_sev (mode ge)) = true <-> mode ge <> Warn) as Hsev by (by destruct (mode ge)).
  assert (forall it : ValidateItem, vi_severity it = to_sev (mode ge) -> has_error_fail [it] = true <-> mode ge <> Warn) as Hit.
  { intros it Hv. rewrite <- Hsev, <- Hv. unfold has_error_fail. cbn [existsb]. rewrite orb_false_r. by destruct (vi_severity it). }
  rewrite !has_error_app, !orb_true_iff, has_error_concat. setoid_rewrite check_sink_fails. setoid_rewrite Hsev.
  unfold others_missed, sum_missed. split.
  - intros [(s & Hs & Hm & Hx)|[H|H]].
    + split_and!; [done|lia|done|]. left. by exists s.
    + destruct (others_max ge) as [om|]; [|done]. destruct (flt _ _) eqn:Ef; [|done]. rewrite Hit in H by done.
      split_and!; [done|lia|done|]. right. left. by exists om.
    + destruct (sum_tol ge) as [st|]; [|done]. destruct (off_by _ _ _) eqn:Ef; [|done]. rewrite Hit in H by done.
      split_and!; [done|lia|done|]. right. right. by exists st.
  - intros (Hm & _ & _ & [(s & Hs & Hx)|[(om & -> & Hx)|(st & -> & Hx)]]).
    + left. by exists s.
    + right. left. rewrite Hx. by apply Hit.
    + right. right. rewrite Hx. by apply Hit.
Qed.

Definition plain_denom (total : Z) (g : GroupAccum) (ge : GroupExpectSpec) : Z :=
  match basis ge with TotalInput => total | _ => sum_lines (ga_sinks g) end.
Definition stats_denom (total : Z) (stats : option StatsFile) (g : GroupAccum) (ge : GroupExpectSpec) : Z :=
  match basis ge with
  | GroupInput => default (sum_lines (ga_sinks g)) (stats ≫= fun st => group_input st (ga_name g))
  | TotalInput => total
  | Model _ => sum_lines (ga_sinks g)
  end.

Lemma groups_fail denom groups :
  has_error_fail (concat (map (fun g => match ga_expect g with None => [] | Some ge => check_group g ge (denom g ge) end) groups)) = true <->
  exists g, g ∈ groups /\ group_missed denom g.
Proof.
  rewrite has_error_concat. unfold group_missed. split; intros (g & Hg & H); exists g; (split; [done|]).
  - destruct (ga_expect g) as [ge|]; [|done]. exists ge. split; [done|]. by apply check_group_fails.
  - destruct H as (ge & -> & H). by apply check_group_fails.
Qed.

(** The validation of outputs fails exactly when a group that may fail has
    enough samples and a sink outside its ratio or bounds, too much in sinks
    without an expectation, or ratios that do not add up to one; groups in warning
    mode, without samples or with too few never fail it.  With a statistics file
    the denominators are the inputs it tells of the group and in total; without
    one both validations fail alike. *)
Theorem expectations_fail_exactly groups stats o :
  (has_error_fail (validate_groups groups o) = true <->
    exists g, g ∈ groups /\ group_missed (plain_denom (default (total_lines groups) o)) g) /\
  (has_error_fail (validate_with_stats groups stats o) = true <->
    exists g, g ∈ groups /\ group_missed (stats_denom (default (total_lines groups) (match o with Some t => Some t | None => total_input <$> stats end)) stats) g) /\
  has_error_fail (validate_with_stats groups None o) = has_error_fail (validate_groups groups o).
Proof.
  split; [|split].
  - set (total := default (total_lines groups) o).
    assert (validate_groups groups o = concat (map (fun g => match ga_expect g with None => [] | Some ge =>
      check_group g ge (plain_denom total g ge) end) groups)) as ->; [|apply groups_fail].
    unfold validate_groups. apply (f_equal (@concat _)). apply map_ext. intros g. destruct (ga_expect g) as [ge|]; [|done].
    unfold plain_denom. by destruct (basis ge).
  - apply groups_fail.
  - unfold validate_with_stats, validate_groups. by destruct o.
Qed.

(** ** Rescue files *)

Definition sum_sinks (f : SinkRescueStat -> Z) (m : gmap string SinkRescueStat) : Z := foldr (fun kv n => f kv.2 + n) 0 (map_to_list m).

Lemma sum_perm (f : SinkRescueStat -> Z) (l k : list (string * SinkRescueStat)) :
  l ≡ₚ k -> foldr (fun kv n => f kv.2 + n) 0 l = foldr (fun kv n => f kv.2 + n) 0 k.
Proof. induction 1; cbn; lia. Qed.

Lemma sum_sinks_insert f m k v : f (mkSinkRescue 0 0 0) = 0 ->
  sum_sinks f (<[k := v]> m) = sum_sinks f m + f v - f (default (mkSinkRescue 0 0 0) (m !! k)).
Proof.
  intros H0. unfold sum_sinks. destruct (m !! k) as [w|] eqn:E; cbn [default].
  - rewrite <- (insert_delete_id m k w E) at 2. rewrite <- insert_delete_eq.
    rewrite !(sum_perm f _ _ (map_to_list_insert _ _ _ (lookup_delete_eq _ _))). cbn [foldr snd]. unfold id. lia.
  - rewrite (sum_perm f _ _ (map_to_list_insert _ _ _ E)). cbn [foldr snd]. unfold id. rewrite H0. lia.
Qed.

Definition adds_up (detail : bool) (s : RescueStatSummary) : Prop :=
  total_files s = sum_sinks sr_files (by_sink s) /\ sum_total_lines s = sum_sinks sr_lines (by_sink s) /\
  total_bytes s = sum_sinks sr_bytes (by_sink s) /\ zlen (rs_files s) = (if detail then total_files s else 0).

Lemma scan_adds_up detail entries s : adds_up detail s -> adds_up detail (foldl (scan_entry detail) s entries).
Proof.
  revert s. induction entries as [|e entries IH]; intros s Hs; cbn [foldl]; [done|]. apply IH. unfold scan_entry.
  destruct (negb (re_ext_dat e)); [done|]. destruct (re_size e) as [size|]; [|done].
  destruct Hs as (H1 & H2 & H3 & H4). unfold adds_up. cbn [total_files sum_total_lines total_bytes by_sink rs_files].
  rewrite !sum_sinks_insert by done. cbn [sr_files sr_lines sr_bytes]. split_and!; try lia.
  destruct detail; [|done]. rewrite zlen_app, H4. done.
Qed.

(** The statistics of the rescue files add up: the files, lines and bytes in
    total are those of the sinks together, and with details there is one entry
    a file, in the order of their paths. *)
Theorem rescue_stat_adds_up detail entries :
  let s := scan_rescue_stat detail entries in
  adds_up detail s /\ Sorted (fun a b => str_le (rf_path a) (rf_path b)) (rs_files s).
Proof.
  cbn zeta. unfold scan_rescue_stat. cbn [rs_files]. set (s := foldl _ _ entries).
  assert (adds_up detail s) as Hs by (subst s; apply scan_adds_up; by destruct detail). split.
  - destruct Hs as (H1 & H2 & H3 & H4). unfold adds_up. cbn [total_files sum_total_lines total_bytes by_sink rs_files]. split_and!; try done.
    rewrite <- H4. unfold zlen. f_equal. apply Permutation_length, merge_sort_Permutation.
  - apply Sorted_merge_sort. intros a b. unfold str_le. apply String.leb_total.
Qed.

(** ** Witnesses *)

Definition demo_files : Files :=
  mkFileReads (fun _ => true) (fun p => if String.eqb p "/w/in/a.log" then Some 7 else if String.eqb p "/w/in/b.log" then Some 5 else None)
    (fun _ => Some ["/w/in/b.log"; "/w/in/a.log"; "/w/in/a.log"]).

Definition demo_src (name file : string) (on : option bool) : WpSource := mkSource name on "f" [] (<["file" := JString file]> ∅).
Definition demo_srcs : list WpSource :=
  [demo_src "all" "*.log" None; demo_src "off" "c.log" (Some false); demo_src "a" "a.log" (Some true)].
Definition demo_conns : gmap string ConnectorDef := <["f" := mkConnector "f" "FILE" (<["base" := JString "in"]> ∅) ["file"]]> ∅.

Lemma input_totals_agree_witness :
  total_input_from_wpsrc demo_files map_to_list "/w" demo_srcs demo_conns = inl (Some 19) /\
  total_enabled_lines (list_file_sources_with_lines demo_files map_to_list "/w" demo_srcs demo_conns) = 19.
Proof.
  assert (total_input_from_wpsrc demo_files map_to_list "/w" demo_srcs demo_conns = inl (Some 19)) as H by (vm_compute; reflexivity).
  split; [exact H|]. refine (input_totals_agree demo_files map_to_list "/w" demo_srcs demo_conns (Some 19) _ H).
  apply (bool_decide_unpack _). vm_compute. exact I.
Defined.

(** Two sources of one name: the second is counted by the report only. *)
Example equal_names_disagree :
  let l := [demo_src "x" "a.log" None; demo_src "x" "b.log" None] in
  (total_input_from_wpsrc demo_files map_to_list "/w" l demo_conns,
   total_enabled_lines (list_file_sources_with_lines demo_files map_to_list "/w" l demo_conns)) = (inl (Some 5), 12).
Proof. vm_compute. reflexivity. Qed.

(** A model as the basis is not looked at. *)
Example model_basis_ignored :
  let g b := mkGroupAccum "g" (Some (mkGroupExpect b None None Error None None)) [mkSinkAccum "s" 10 (Some (mkExpect (Some (as_f64 1)) None None None))] in
  validate_groups [g (Model "nginx")] (Some 100) = validate_groups [g GroupInput] (Some 100).
Proof. vm_compute. reflexivity. Qed.

(** A sink whose name has a hyphen is counted under another. *)
Example hyphen_in_name : parse_sink_name (mkRescueEntry "g/a-b-2024.dat" (Some "g") "a-b-2024.dat" true (Some 1) 1) = "g/a".
Proof. vm_compute. reflexivity. Qed.
