(* ===== verification/Framing.v ===== *)
(** Frames of a byte stream: [src/sources/tcp/framing.rs] and its
    [framing/extractor.rs], and the connection that cuts a stream into events
    and batches ([src/sources/tcp/conn/connection.rs]).

    A buffer ([BytesMut]) is the list of its bytes: an extraction returns the
    message and what stays in the buffer.  A socket is the sequence of its
    answers to the reads.  Identifiers of events and the capacity of a buffer
    are left out.  The loops take fuel: each iteration removes a byte of the
    buffer at least, so one more than its length is enough, which the laws
    prove. *)
From Stdlib Require Import ZArith Lia String Ascii.
From stdpp Require Import prelude strings.
From S2P Require Import Prelude F64 Text Router.
Local Open Scope string_scope.
Local Open Scope list_scope.
Local Open Scope Z_scope.
Local Open Scope wp_scope.

Notation Bytes := (list ascii).

Definition CR : ascii := "013"%char.
Definition NL : ascii := "010"%char.
Definition SP : ascii := " "%char.
Definition TAB : ascii := "009"%char.

(** ** [framing.rs] *)

Definition MAX_LEN_DIGITS : nat := 10.
Definition MAX_FRAME_BYTES : Z := 10000000.

Inductive FramingMode := Auto | Line | Len.

Definition is_ascii_digit (c : ascii) : bool := if digit c then true else false.

(** The first loop of [octet_in_progress] and [extract_octet_counted]: how many
    of the first [n] bytes are digits. *)
Fixpoint digits_len (n : nat) (buf : Bytes) : nat :=
  match n, buf with
  | S n, c :: buf => if is_ascii_digit c then S (digits_len n buf) else 0%nat
  | _, _ => 0%nat
  end.

(** The length prefix with which a buffer starts: the number of its digits and
    the length they say, if it is one of a frame. *)
Definition length_prefix (buf : Bytes) : option (nat * Z) :=
  let i := digits_len MAX_LEN_DIGITS buf in
  match i, buf !! i with
  | S _, Some c =>
      if bool_decide (c = SP) then
        match parse_usize (string_of_list_ascii (take i buf)) with
        | Some n => if (n =? 0) || (MAX_FRAME_BYTES <=? n) then None else Some (i, n)
        | None => None
        end
      else None
  | _, _ => None
  end.

Definition octet_in_progress (buf : Bytes) : bool :=
  match length_prefix buf with
  | Some (i, n) => zlen buf <? Z.of_nat i + 1 + n
  | None => false
  end.

Definition extract_octet_counted (buf : Bytes) : option (Bytes * Bytes) :=
  match length_prefix buf with
  | Some (i, n) =>
      if zlen buf <? Z.of_nat i + 1 + n then None
      else let buf := drop (i + 1) buf in Some (take (Z.to_nat n) buf, drop (Z.to_nat n) buf)
  | None => None
  end.

(** What precedes and what follows the first newline. *)
Fixpoint split_newline (buf : Bytes) : option (Bytes * Bytes) :=
  match buf with
  | [] => None
  | c :: buf =>
      if bool_decide (c = NL) then Some ([], buf)
      else match split_newline buf with Some (l, rest) => Some (c :: l, rest) | None => None end
  end.

Definition is_trailing (c : ascii) : bool := bool_decide (c = CR) || bool_decide (c = SP) || bool_decide (c = TAB).

(** The loop over the end of a line, from its last byte. *)
Fixpoint drop_trailing (rev_line : Bytes) : Bytes :=
  match rev_line with
  | c :: r => if is_trailing c then drop_trailing r else rev_line
  | [] => []
  end.

Definition extract_newline (buf : Bytes) : option (Bytes * Bytes) :=
  match split_newline buf with
  | Some (chunk, rest) => Some (rev (drop_trailing (rev chunk)), rest)
  | None => None
  end.

(** A message is the client's address and its bytes. *)
Notation Message := (string * list ascii)%type.

Section Drain.
Context {C : Type} `{Channel Message C}.

(** [drain_by_line] and [drain_by_len]: the message that a full channel gave
    back is the caller's. *)
Fixpoint drain_with (extract : Bytes -> option (Bytes * Bytes)) (fuel : nat) (buf : Bytes) (client_ip : string) (sender : C)
    : option (Bytes * C * option Message) :=
  match fuel with
  | O => None
  | S fuel =>
      match extract buf with
      | None => Some (buf, sender, None)
      | Some (m, buf) =>
          match try_send sender (client_ip, m) with
          | (sender, SendOk) => drain_with extract fuel buf client_ip sender
          | (sender, _) => Some (buf, sender, Some (client_ip, m))
          end
      end
  end.
Definition drain_by_line (buf : Bytes) := drain_with extract_newline (S (length buf)) buf.
Definition drain_by_len (buf : Bytes) := drain_with extract_octet_counted (S (length buf)) buf.

Inductive FrameError := BufferOverflow | Disconnected.

Fixpoint drain_auto_loop (fuel : nat) (buf : Bytes) (client_ip : string) (sender : C)
    : option (Bytes * C * (option Message + FrameError)) :=
  match fuel with
  | O => None
  | S fuel =>
      if bool_decide (buf = []) then Some (buf, sender, inl None) else
      match extract_octet_counted buf with
      | Some (m, buf) =>
          match try_send sender (client_ip, m) with
          | (sender, SendOk) => drain_auto_loop fuel buf client_ip sender
          | (sender, _) => Some (buf, sender, inl (Some (client_ip, m)))
          end
      | None =>
          if octet_in_progress buf then Some (buf, sender, inl None) else
          match extract_newline buf with
          | Some (line, buf) =>
              if bool_decide (line = []) then drain_auto_loop fuel buf client_ip sender else
              match try_send sender (client_ip, line) with
              | (sender, SendOk) => drain_auto_loop fuel buf client_ip sender
              | (sender, _) => Some (buf, sender, inl (Some (client_ip, line)))
              end
          | None =>
              if MAX_FRAME_BYTES <? zlen buf then Some ([], sender, inr BufferOverflow)
              else Some (buf, sender, inl None)
          end
      end
  end.
Definition drain_auto_all (buf : Bytes) := drain_auto_loop (S (length buf)) buf.

(** [TcpSyslogSource::process_buffer] ([syslog/tcp_source.rs]): [send] is the
    send that waits for room, [None] when the channel is closed. *)
Fixpoint process_loop (send : C -> Message -> option C) (fuel : nat) (buffer : Bytes) (client_ip : string) (sender : C)
    : option (Bytes * C * option FrameError) :=
  match fuel with
  | O => None
  | S fuel =>
      match drain_auto_all buffer client_ip sender with
      | None => None
      | Some (buffer, sender, inr e) => Some (buffer, sender, Some e)
      | Some (buffer, sender, inl None) => Some (buffer, sender, None)
      | Some (buffer, sender, inl (Some pending)) =>
          match send sender pending with
          | None => Some (buffer, sender, Some Disconnected)
          | Some sender => process_loop send fuel buffer client_ip sender
          end
      end
  end.
Definition process_buffer (send : C -> Message -> option C) (buffer data : Bytes) :=
  process_loop send (S (length (buffer ++ data))) (buffer ++ data).
End Drain.

(** [collect_by_line] and [collect_by_len] *)
Fixpoint collect_with (extract : Bytes -> option (Bytes * Bytes)) (fuel : nat) (buf : Bytes) (client_ip : string)
    (out : list Message) (max_collect : Z) : option (Bytes * list Message) :=
  match fuel with
  | O => None
  | S fuel =>
      if max_collect <=? zlen out then Some (buf, out) else
      match extract buf with
      | Some (m, buf) => collect_with extract fuel buf client_ip (out ++ [(client_ip, m)]) max_collect
      | None => Some (buf, out)
      end
  end.
Definition collect_by_line (buf : Bytes) := collect_with extract_newline (S (length buf)) buf.
Definition collect_by_len (buf : Bytes) := collect_with extract_octet_counted (S (length buf)) buf.

Fixpoint collect_auto_loop (fuel : nat) (buf : Bytes) (client_ip : string) (out : list Message) (max_collect : Z)
    : option (Bytes * list Message * option FrameError) :=
  match fuel with
  | O => None
  | S fuel =>
      if bool_decide (buf = []) || (max_collect <=? zlen out) then Some (buf, out, None) else
      match extract_octet_counted buf with
      | Some (m, buf) => collect_auto_loop fuel buf client_ip (out ++ [(client_ip, m)]) max_collect
      | None =>
          if octet_in_progress buf then Some (buf, out, None) else
          match extract_newline buf with
          | Some (line, buf) =>
              collect_auto_loop fuel buf client_ip (if bool_decide (line = []) then out else out ++ [(client_ip, line)]) max_collect
          | None => if MAX_FRAME_BYTES <? zlen buf then Some ([], out, Some BufferOverflow) else Some (buf, out, None)
          end
      end
  end.
Definition collect_auto_all (buf : Bytes) := collect_auto_loop (S (length buf)) buf.

(** ** [framing/extractor.rs] *)

(** The loop that moves the bytes of a line over its carriage returns; [kept]
    is [chunk[..write_idx]]. *)
Fixpoint compact (kept rest : Bytes) : Bytes :=
  match rest with
  | [] => kept
  | c :: rest => if bool_decide (c = CR) then compact kept rest else compact (kept ++ [c]) rest
  end.

(** [memchr]: where a byte is first. *)
Fixpoint memchr (b : ascii) (l : Bytes) : option nat :=
  match l with
  | [] => None
  | c :: l => if bool_decide (c = b) then Some 0%nat else S <$> memchr b l
  end.

Definition extract_line_message (buf : Bytes) : option (Bytes * Bytes) :=
  match memchr NL buf with
  | None => None
  | Some newline_pos =>
      let chunk := take newline_pos buf in
      let chunk := match memchr CR chunk with
                   | Some first_cr => compact (take first_cr chunk) (drop (S first_cr) chunk)
                   | None => chunk
                   end in
      Some (chunk, drop (S newline_pos) buf)
  end.

(** The digits with which a buffer starts, and their value. *)
Fixpoint read_len (n : nat) (buf : Bytes) (pos : nat) (len : Z) : nat * Z :=
  match n, buf with
  | S n, c :: buf => match digit c with Some d => read_len n buf (S pos) (len * 10 + d) | None => (pos, len) end
  | _, _ => (pos, len)
  end.

Definition extract_length_prefixed_message (buf : Bytes) : option (Bytes * Bytes) :=
  let '(pos, len) := read_len 10 buf 0 0 in
  if bool_decide (pos = 0%nat) || negb (bool_decide (buf !! pos = Some SP)) then None else
  let pos := S pos in
  if zlen buf <? Z.of_nat pos + len then None
  else let buf := drop pos buf in Some (take (Z.to_nat len) buf, drop (Z.to_nat len) buf).

Fixpoint has_prefix_loop (n : nat) (buf : Bytes) (found_digit : bool) : bool :=
  match n, buf with
  | S n, c :: buf =>
      if is_ascii_digit c then has_prefix_loop n buf true else bool_decide (c = SP) && found_digit
  | _, _ => false
  end.
Definition has_length_prefix (buf : Bytes) : bool := has_prefix_loop 10 buf false.
Definition has_newline (buf : Bytes) : bool := bool_decide (NL ∈ buf).

(** ** [conn/connection.rs] *)

Definition extract_message (framing : FramingMode) (buffer : Bytes) : option (Bytes * Bytes) :=
  match framing with
  | Line => extract_line_message buffer
  | Len => extract_length_prefixed_message buffer
  | Auto => match extract_length_prefixed_message buffer with
            | Some r => Some r
            | None => extract_line_message buffer
            end
  end.

Record SourceEvent := mkEvent { ev_src_key : string; ev_payload : Bytes; ev_tags : list (string * string); ev_ups_ip : string }.
Definition event_payload_len (e : SourceEvent) : Z := zlen (ev_payload e).
Definition batch_bytes (batch : list SourceEvent) : Z := foldl (fun n e => n +w event_payload_len e) 0 batch.

Record BatchBuilder := mkBuilder {
  buffer : Bytes;
  base_tags : list (string * string);
  batch_capacity : Z;
  source_key : string;
  pending_events : list SourceEvent;
  max_batch_bytes : Z;
}.
Definition set_buffer (b : BatchBuilder) buf := mkBuilder buf (base_tags b) (batch_capacity b) (source_key b) (pending_events b) (max_batch_bytes b).
Definition set_pending (b : BatchBuilder) p := mkBuilder (buffer b) (base_tags b) (batch_capacity b) (source_key b) p (max_batch_bytes b).

Definition build_event (b : BatchBuilder) (payload : Bytes) (peer_ip : string) : SourceEvent :=
  mkEvent (source_key b) payload (base_tags b) peer_ip.
Definition pending_len (b : BatchBuilder) : Z := zlen (pending_events b).
Definition pending_bytes (b : BatchBuilder) : Z := batch_bytes (pending_events b).

(** [fill_batch_from_pending]: what stays pending, the batch, its bytes. *)
Fixpoint fill_loop (capacity max : Z) (pending batch : list SourceEvent) (bytes : Z) : list SourceEvent * list SourceEvent * Z :=
  match pending with
  | [] => (pending, batch, bytes)
  | e :: rest =>
      let would_exceed := max <? bytes +w event_payload_len e in
      if capacity <=? zlen batch then (pending, batch, bytes) else
      if would_exceed && negb (bool_decide (batch = [])) then (pending, batch, bytes) else
      let bytes := bytes ⊕ event_payload_len e in
      if would_exceed then (rest, batch ++ [e], bytes) else fill_loop capacity max rest (batch ++ [e]) bytes
  end.
Definition fill_batch_from_pending (b : BatchBuilder) (batch : list SourceEvent) (bytes : Z) : BatchBuilder * list SourceEvent * Z :=
  let '(pending, batch, bytes) := fill_loop (batch_capacity b) (max_batch_bytes b) (pending_events b) batch bytes in
  (set_pending b pending, batch, bytes).

Fixpoint drain_loop (fuel : nat) (framing : FramingMode) (peer_ip : string) (b : BatchBuilder) (batch : list SourceEvent) (bytes : Z)
    : option (BatchBuilder * list SourceEvent * Z) :=
  match fuel with
  | O => None
  | S fuel =>
      match extract_message framing (buffer b) with
      | None => Some (b, batch, bytes)
      | Some (payload, rest) =>
          let b := set_buffer b rest in
          let e := build_event b payload peer_ip in
          let would_exceed := max_batch_bytes b <? bytes +w event_payload_len e in
          if (batch_capacity b <=? zlen batch) || (would_exceed && negb (bool_decide (batch = [])))
          then Some (set_pending b (pending_events b ++ [e]), batch, bytes) else
          let bytes := bytes ⊕ event_payload_len e in
          if would_exceed then Some (b, batch ++ [e], bytes)
          else drain_loop fuel framing peer_ip b (batch ++ [e]) bytes
      end
  end.
Definition drain_messages (framing : FramingMode) (peer_ip : string) (b : BatchBuilder) :=
  drain_loop (S (length (buffer b))) framing peer_ip b.

Record TcpConnection := mkConn { client_ip : string; framing : FramingMode; batcher : BatchBuilder }.
Definition set_batcher (c : TcpConnection) b := mkConn (client_ip c) (framing c) b.
Definition TcpConnection_new (peer : string) (fr : FramingMode) (tags : list (string * string)) (key : string) (tcp_batch_capacity tcp_batch_bytes : Z) : TcpConnection :=
  mkConn peer fr (mkBuilder [] tags tcp_batch_capacity key [] tcp_batch_bytes).

(** What a read of the socket answers: the peer closed, bytes, nothing yet, an
    error. *)
Inductive Read := Eof | Got (data : Bytes) | WouldBlock | ReadFails.
Inductive ReadOutcome := NoData | Produced (batch : list SourceEvent) | ClosedByPeer | ReadFailed.

(** The loop of [try_read_batch] ([blocking] is [read_batch], which goes on
    when nothing is there), with the answers it left; [None] is a loop that
    still waits. *)
Fixpoint read_loop (blocking : bool) (c : TcpConnection) (batch : list SourceEvent) (bytes : Z) (reads : list Read)
    : option (ReadOutcome * TcpConnection * list Read) :=
  match reads with
  | [] => None
  | Eof :: reads => Some (ClosedByPeer, c, reads)
  | Got data :: reads =>
      let b := set_buffer (batcher c) (buffer (batcher c) ++ data) in
      match drain_messages (framing c) (client_ip c) b batch bytes with
      | None => None
      | Some (b, batch, bytes) =>
          let c := set_batcher c b in
          if bool_decide (batch = []) then read_loop blocking c batch bytes reads else Some (Produced batch, c, reads)
      end
  | WouldBlock :: reads =>
      if blocking then read_loop blocking c batch bytes reads
      else Some (if bool_decide (batch = []) then NoData else Produced batch, c, reads)
  | ReadFails :: reads => Some (ReadFailed, c, reads)
  end.

Definition read_once (blocking : bool) (c : TcpConnection) (reads : list Read) : option (ReadOutcome * TcpConnection * list Read) :=
  let '(b, batch, bytes) := fill_batch_from_pending (batcher c) [] 0 in
  let c := set_batcher c b in
  if bool_decide (batch = []) then read_loop blocking c batch bytes reads else Some (Produced batch, c, reads).
Definition try_read_batch := read_once false.
Definition read_batch := read_once true.

(** * Laws *)

(** ** Extractions do not depend on what follows *)

(** What every loop over a buffer relies on: an extraction takes a byte at
    least, and bytes that arrive later do not change what it took. *)
Class Extractor (ex : Bytes -> option (Bytes * Bytes)) := {
  ex_shrinks b m r : ex b = Some (m, r) -> (length r < length b)%nat;
  ex_stable b m r d : ex b = Some (m, r) -> ex (b ++ d) = Some (m, r ++ d);
}.

Lemma split_newline_spec b l r : split_newline b = Some (l, r) -> b = l ++ NL :: r /\ NL ∉ l.
Proof.
  revert l. induction b as [|c b IH]; intros l; cbn; [done|].
  case_bool_decide as E; [intros [= <- <-]; subst; split; [done|apply not_elem_of_nil]|].
  destruct (split_newline b) as [[l' r']|] eqn:Es; [|done]. intros [= <- <-].
  destruct (IH _ eq_refl) as [-> Hn]. split; [done|]. apply not_elem_of_cons. split; [congruence|done].
Qed.

Lemma split_newline_app b l r d : split_newline b = Some (l, r) -> split_newline (b ++ d) = Some (l, r ++ d).
Proof.
  revert l. induction b as [|c b IH]; intros l; cbn; [done|].
  case_bool_decide; [by intros [= <- <-]|].
  destruct (split_newline b) as [[l' r']|] eqn:Es; [|done]. intros [= <- <-].
  by rewrite (IH _ eq_refl).
Qed.

Lemma split_newline_length b l r : split_newline b = Some (l, r) -> (length r < length b)%nat.
Proof. intros H. destruct (split_newline_spec _ _ _ H) as [-> _]. rewrite length_app. cbn. lia. Qed.

Lemma split_newline_none b : split_newline b = None <-> NL ∉ b.
Proof.
  induction b as [|c b IH]; cbn; [split; [intros _; apply not_elem_of_nil|done]|].
  rewrite not_elem_of_cons. case_bool_decide as E; [split; [done|by intros []]|].
  destruct (split_newline b) as [[? ?]|]; split; try done.
  - intros [_ H]. by apply IH in H.
  - intros _. split; [congruence|]. by apply IH.
Qed.

#[export] Instance newline_extractor : Extractor extract_newline.
Proof.
  unfold extract_newline. split; intros b m r *.
  - destruct (split_newline b) as [[l r']|] eqn:E; [|done]. intros [= <- <-]. by eapply split_newline_length.
  - destruct (split_newline b) as [[l r']|] eqn:E; [|done]. intros [= <- <-]. by rewrite (split_newline_app _ _ _ _ E).
Qed.

Lemma compact_filter kept rest : compact kept rest = kept ++ filter (fun c => c <> CR) rest.
Proof.
  revert kept. induction rest as [|c rest IH]; intros kept; cbn [compact]; [by rewrite app_nil_r|].
  rewrite filter_cons. case_bool_decide as E; rewrite IH.
  - rewrite decide_False by (intros []; done). done.
  - rewrite decide_True by done. by rewrite <- app_assoc.
Qed.

Lemma memchr_split b l : memchr NL b = length <$> (fst <$> split_newline b)
  /\ (forall l r, split_newline b = Some (l, r) -> take (length l) b = l /\ drop (S (length l)) b = r)
  /\ (memchr CR l = None -> filter (fun c => c <> CR) l = l)
  /\ (forall n, memchr CR l = Some n -> l = take n l ++ CR :: drop (S n) l /\ filter (fun c => c <> CR) (take n l) = take n l).
Proof.
  split; [|split; [|split]].
  - induction b as [|c b IH]; cbn; [done|]. case_bool_decide; [done|]. rewrite IH. by destruct (split_newline b) as [[? ?]|].
  - intros l' r H. destruct (split_newline_spec _ _ _ H) as [-> _]. split.
    + by rewrite take_app_length.
    + replace (S (length l')) with (length (l' ++ [NL])) by (rewrite length_app; cbn; lia).
      rewrite (cons_middle NL l' r), app_assoc. by rewrite drop_app_length.
  - induction l as [|c l IH]; cbn [memchr]; [done|]. case_bool_decide; [done|]. intros Hm.
    rewrite filter_cons, decide_True by done. destruct (memchr CR l); [done|]. by rewrite IH.
  - induction l as [|c l IH]; cbn [memchr]; [done|]. case_bool_decide as E; [intros n [= <-]; cbn; by subst|].
    intros n Hm. destruct (memchr CR l) as [k|]; [|done]. injection Hm as <-. cbn [take drop app].
    destruct (IH k eq_refl) as [H1 H2]. split; [by rewrite H1 at 1|].
    rewrite filter_cons, decide_True by done. by rewrite H2.
Qed.

(** The line extractor takes the line and removes its carriage returns. *)
Lemma extract_line_eq b : extract_line_message b
  = (fun lr => (filter (fun c => c <> CR) lr.1, lr.2)) <$> split_newline b.
Proof.
  unfold extract_line_message. destruct (memchr_split b []) as (-> & Hs & _).
  destruct (split_newline b) as [[l r]|] eqn:E; [|done]. cbn.
  destruct (Hs _ _ eq_refl) as [-> ->]. do 2 f_equal.
  destruct (memchr_split [] l) as (_ & _ & Hn & Hk).
  destruct (memchr CR l) as [n|]; [|by rewrite Hn].
  destruct (Hk _ eq_refl) as [Hl Ht]. rewrite compact_filter. rewrite Hl at 3.
  rewrite filter_app, filter_cons, decide_False by (intros []; done). by rewrite Ht.
Qed.

#[export] Instance line_extractor : Extractor extract_line_message.
Proof.
  split; intros b m r *; rewrite !extract_line_eq.
  - destruct (split_newline b) as [[l r']|] eqn:E; [|done]. intros [= <- <-]. by eapply split_newline_length.
  - destruct (split_newline b) as [[l r']|] eqn:E; [|done]. intros [= <- <-]. by rewrite (split_newline_app _ _ _ _ E).
Qed.

Lemma digits_len_app n b d : (digits_len n b < length b)%nat -> digits_len n (b ++ d) = digits_len n b.
Proof.
  revert b. induction n as [|n IH]; intros [|c b]; cbn; try done; try lia.
  intros H. destruct (is_ascii_digit c); [|done]. f_equal. apply IH. lia.
Qed.

(** A length prefix that is there stays, one that is refused stays refused. *)
Lemma length_prefix_app b d : (digits_len MAX_LEN_DIGITS b < length b)%nat -> length_prefix (b ++ d) = length_prefix b.
Proof.
  intros H. unfold length_prefix. rewrite digits_len_app by done. cbv zeta.
  destruct (digits_len MAX_LEN_DIGITS b) as [|k]; [done|].
  rewrite (lookup_app_l b d) by done. by rewrite (take_app_le b d) by lia.
Qed.

Lemma parse_digits_nonneg l a v : 0 <= a -> parse_digits a l = Some v -> 0 <= v.
Proof.
  revert a. induction l as [|c l IH]; intros a Ha; cbn; [by intros [= <-]|].
  destruct (digit c) as [x|] eqn:Ex; [|done]. destruct (_ <=? _); [|done]. apply IH.
  unfold digit in Ex. case_match; [|done]. injection Ex as <-. bool_to_prop. lia.
Qed.

Lemma parse_usize_nonneg s v : parse_usize s = Some v -> 0 <= v.
Proof.
  unfold parse_usize. destruct (list_ascii_of_string s) as [|c l]; [done|]. case_bool_decide.
  - destruct l; [done|]. by apply parse_digits_nonneg.
  - by apply parse_digits_nonneg.
Qed.

Lemma length_prefix_some b i n : length_prefix b = Some (i, n) ->
  i = digits_len MAX_LEN_DIGITS b /\ b !! i = Some SP /\ 0 < n < MAX_FRAME_BYTES
  /\ parse_usize (string_of_list_ascii (take i b)) = Some n /\ i <> 0%nat.
Proof.
  unfold length_prefix. cbv zeta. destruct (digits_len MAX_LEN_DIGITS b) as [|k] eqn:Ek; [done|].
  destruct (b !! S k) as [c|] eqn:Ec; [|done]. case_bool_decide as E; [|done]. subst c.
  destruct (parse_usize _) as [v|] eqn:Ep; [|done]. destruct ((v =? 0) || (MAX_FRAME_BYTES <=? v)) eqn:Ev; [done|].
  intros [= <- <-]. apply orb_false_elim in Ev as [Hz Hm]. apply Z.eqb_neq in Hz. apply Z.leb_gt in Hm.
  apply parse_usize_nonneg in Ep as Hv.
  split; [done|]. split; [done|]. split; [lia|]. split; [done|lia].
Qed.

Lemma length_prefix_digits b i n : length_prefix b = Some (i, n) -> (digits_len MAX_LEN_DIGITS b < length b)%nat.
Proof. intros H. apply length_prefix_some in H as (<- & H & _). by eapply lookup_lt_Some. Qed.

Lemma take_drop_app {A} (n : nat) (l k : list A) : (n <= length l)%nat ->
  take n (l ++ k) = take n l /\ drop n (l ++ k) = drop n l ++ k.
Proof. intros H. split; [by rewrite take_app_le|by rewrite drop_app_le]. Qed.

#[export] Instance octet_extractor : Extractor extract_octet_counted.
Proof.
  unfold extract_octet_counted. split; intros b m r *.
  - destruct (length_prefix b) as [[i n]|] eqn:E; [|done]. destruct (_ <? _) eqn:Hl; [done|]. cbv zeta.
    intros [= <- <-]. apply length_prefix_some in E as (_ & _ & Hn & _). apply Z.ltb_ge in Hl. unfold zlen in Hl.
    rewrite !length_drop. lia.
  - destruct (length_prefix b) as [[i n]|] eqn:E; [|done]. destruct (_ <? _) eqn:Hl; [done|]. cbv zeta.
    intros [= <- <-]. rewrite length_prefix_app by (by eapply length_prefix_digits). rewrite E.
    apply length_prefix_some in E as (_ & _ & Hn & _).
    apply Z.ltb_ge in Hl. unfold zlen in Hl |- *. rewrite length_app.
    destruct (Z.ltb_spec (Z.of_nat (length b + length d)) (Z.of_nat i + 1 + n)); [lia|].
    rewrite (drop_app_le b d (i + 1)) by lia.
    assert (Hd : (Z.to_nat n <= length (drop (i + 1) b))%nat) by (rewrite length_drop; lia).
    by destruct (take_drop_app (Z.to_nat n) (drop (i + 1) b) d Hd) as [-> ->].
Qed.

Lemma read_len_app n b d pos len p l : read_len n b pos len = (p, l) -> (p < pos + length b)%nat ->
  read_len n (b ++ d) pos len = (p, l).
Proof.
  revert b pos len. induction n as [|n IH]; intros [|c b] pos len; cbn; try done.
  - intros [= <- <-]. lia.
  - intros H Hl. destruct (digit c); [|done]. apply IH; [done|]. lia.
Qed.

Lemma digit_range c d : digit c = Some d -> 0 <= d <= 9.
Proof. unfold digit. case_match; [|done]. intros [= <-]. bool_to_prop. lia. Qed.

Lemma read_len_nonneg n b pos len : 0 <= len -> 0 <= (read_len n b pos len).2.
Proof.
  revert b pos len. induction n as [|n IH]; intros [|c b] pos len H; cbn; try done.
  destruct (digit c) as [x|] eqn:E; [|done]. apply IH. apply digit_range in E. lia.
Qed.

#[export] Instance length_prefixed_extractor : Extractor extract_length_prefixed_message.
Proof.
  unfold extract_length_prefixed_message. split; intros b m r *.
  - pose proof (read_len_nonneg 10 b 0 0 ltac:(lia)) as Hn.
    destruct (read_len 10 b 0 0) as [p n]. destruct (bool_decide (p = 0%nat)) eqn:Ez; [done|].
    destruct (bool_decide (b !! p = Some SP)) eqn:Ep; [|done]. cbn [negb orb]. cbv zeta.
    destruct (_ <? _) eqn:Hl; [done|]. intros [= <- <-]. apply Z.ltb_ge in Hl. unfold zlen in Hl.
    cbn in Hn. apply bool_decide_eq_false in Ez. rewrite !length_drop. lia.
  - pose proof (read_len_nonneg 10 b 0 0 ltac:(lia)) as Hn.
    destruct (read_len 10 b 0 0) as [p n] eqn:E. cbn in Hn. destruct (bool_decide (p = 0%nat)) eqn:Ez; [done|].
    destruct (bool_decide (b !! p = Some SP)) eqn:Ep; [|done]. cbn [negb orb]. cbv zeta.
    destruct (_ <? _) eqn:Hl; [done|]. intros [= <- <-]. apply Z.ltb_ge in Hl. unfold zlen in Hl.
    apply bool_decide_eq_true in Ep. apply lookup_lt_Some in Ep as Hp.
    rewrite (read_len_app 10 b d 0 0 p n E) by lia. rewrite Ez.
    rewrite bool_decide_true by (by rewrite lookup_app_l). cbn [negb orb]. unfold zlen. rewrite length_app.
    destruct (Z.ltb_spec (Z.of_nat (length b + length d)) (Z.of_nat (S p) + n)); [lia|].
    rewrite (drop_app_le b d (S p)) by lia.
    assert (Hd : (Z.to_nat n <= length (drop (S p) b))%nat) by (rewrite length_drop; lia).
    by destruct (take_drop_app (Z.to_nat n) (drop (S p) b) d Hd) as [-> ->].
Qed.

(** ** The frames of a buffer *)

(** The messages an extraction takes, one after the other, and what is left. *)
Fixpoint frames_loop (ex : Bytes -> option (Bytes * Bytes)) (fuel : nat) (b : Bytes) : list Bytes * Bytes :=
  match fuel with
  | O => ([], b)
  | S fuel => match ex b with
              | Some (m, r) => let '(ms, r) := frames_loop ex fuel r in (m :: ms, r)
              | None => ([], b)
              end
  end.
Definition frames ex (b : Bytes) : list Bytes * Bytes := frames_loop ex (S (length b)) b.

Section Frames.
Context (ex : Bytes -> option (Bytes * Bytes)) `{!Extractor ex}.

Lemma frames_fuel n k b : (length b < n)%nat -> (length b < k)%nat -> frames_loop ex n b = frames_loop ex k b.
Proof.
  revert k b. induction n as [|n IH]; intros [|k] b Hn Hk; try lia. cbn.
  destruct (ex b) as [[m r]|] eqn:E; [|done]. apply ex_shrinks in E. by rewrite (IH k r) by lia.
Qed.

Lemma frames_step b : frames ex b
  = match ex b with Some (m, r) => (m :: (frames ex r).1, (frames ex r).2) | None => ([], b) end.
Proof.
  unfold frames at 1. cbn [frames_loop]. destruct (ex b) as [[m r]|] eqn:E; [|done]. apply ex_shrinks in E as Hl.
  rewrite (frames_fuel _ (S (length r)) r) by lia.
  change (frames_loop ex (S (length r)) r) with (frames ex r). by destruct (frames ex r).
Qed.

(** Frames by induction on the messages taken. *)
Lemma frames_ind (P : Bytes -> list Bytes * Bytes -> Prop) :
  (forall b, ex b = None -> P b ([], b)) ->
  (forall b m r ms e, ex b = Some (m, r) -> frames ex r = (ms, e) -> P r (ms, e) -> P b (m :: ms, e)) ->
  forall b, P b (frames ex b).
Proof.
  intros Hz Hs b. remember (length b) as n eqn:E. assert (Hn : (length b <= n)%nat) by lia. clear E.
  revert b Hn. induction n as [n IH] using lt_wf_ind. intros b Hn. rewrite frames_step.
  destruct (ex b) as [[m r]|] eqn:E; [|by apply Hz]. apply ex_shrinks in E as Hl.
  specialize (IH (length r) ltac:(lia) r ltac:(lia)). destruct (frames ex r) as [ms e] eqn:Ef. by eapply Hs.
Qed.

Lemma frames_rest b : ex (frames ex b).2 = None.
Proof. revert b. by apply (frames_ind (fun _ me => ex me.2 = None)). Qed.

Lemma frames_none b : ex b = None -> frames ex b = ([], b).
Proof. intros H. by rewrite frames_step, H. Qed.

(** Bytes that arrive later only add frames. *)
Lemma frames_app b d : frames ex (b ++ d)
  = ((frames ex b).1 ++ (frames ex ((frames ex b).2 ++ d)).1, (frames ex ((frames ex b).2 ++ d)).2).
Proof.
  revert b. apply (frames_ind (fun b me => frames ex (b ++ d) = (me.1 ++ (frames ex (me.2 ++ d)).1, (frames ex (me.2 ++ d)).2))).
  - intros b _. cbn [fst snd app]. by destruct (frames ex (b ++ d)).
  - intros b m r ms e E _ IH. cbn [fst snd app] in *. rewrite frames_step, (ex_stable _ _ _ d E), IH. done.
Qed.

Lemma frames_count b : (length (frames ex b).1 + length (frames ex b).2 <= length b)%nat.
Proof.
  revert b. apply (frames_ind (fun b me => (length me.1 + length me.2 <= length b)%nat)); cbn; [lia|].
  intros b m r ms e E _ IH. apply ex_shrinks in E. lia.
Qed.
End Frames.

(** ** Both kinds of frames in one stream *)

(** What [drain_auto_all] and [collect_auto_all] take next: a line may be empty,
    and is passed over then. *)
Definition auto_next (b : Bytes) : option (Bytes * Bytes) :=
  match extract_octet_counted b with
  | Some r => Some r
  | None => if octet_in_progress b then None else extract_newline b
  end.

Lemma octet_cases b : match length_prefix b with
  | Some _ => (exists m r, extract_octet_counted b = Some (m, r) /\ m <> []) \/
              (extract_octet_counted b = None /\ octet_in_progress b = true)
  | None => extract_octet_counted b = None /\ octet_in_progress b = false end.
Proof.
  unfold extract_octet_counted, octet_in_progress. destruct (length_prefix b) as [[i n]|] eqn:E; [|done].
  destruct (_ <? _) eqn:Hl; [by right|]. left. do 2 eexists. split; [done|].
  apply Z.ltb_ge in Hl. apply length_prefix_some in E as (_ & _ & Hn & _). unfold zlen in Hl.
  intros Hm. apply (f_equal length) in Hm. rewrite length_take, length_drop in Hm. cbn in Hm. lia.
Qed.

Lemma digits_len_le n b : (digits_len n b <= length b)%nat.
Proof. revert b. induction n as [|n IH]; intros [|c b]; cbn; try lia. case_match; [|lia]. specialize (IH b). lia. Qed.

Lemma digits_len_all n b : digits_len n b = length b -> NL ∉ b.
Proof.
  revert b. induction n as [|n IH]; intros [|c b]; cbn; try done; try (intros _; apply not_elem_of_nil).
  destruct (is_ascii_digit c) eqn:E; [|done]. intros [= H]. apply not_elem_of_cons. split; [|by apply IH].
  by intros <-.
Qed.

#[export] Instance auto_extractor : Extractor auto_next.
Proof.
  unfold auto_next. split; intros b m r *.
  - destruct (extract_octet_counted b) as [[m' r']|] eqn:E; [intros [= <- <-]; by apply ex_shrinks in E|].
    destruct (octet_in_progress b); [done|]. apply (ex_shrinks (ex := extract_newline)).
  - destruct (extract_octet_counted b) as [[m' r']|] eqn:E.
    { intros [= <- <-]. by rewrite (ex_stable _ _ _ d E). }
    destruct (octet_in_progress b) eqn:Ep; [done|]. intros Hn.
    assert (Hp : length_prefix (b ++ d) = None).
    { pose proof (octet_cases b) as Hc. destruct (length_prefix b) as [?|] eqn:El.
      - destruct Hc as [(?&?&Hc&_)|[_ Hc]]; congruence.
      - pose proof (digits_len_le MAX_LEN_DIGITS b) as Hd.
        destruct (decide (digits_len MAX_LEN_DIGITS b = length b)) as [Heq|Hne].
        + apply digits_len_all in Heq. unfold extract_newline in Hn.
          destruct (split_newline b) as [[l r']|] eqn:Es; [|done]. apply split_newline_spec in Es as [-> _].
          exfalso. apply Heq. apply elem_of_app. right. apply elem_of_cons. by left.
        + rewrite length_prefix_app by lia. done. }
    pose proof (octet_cases (b ++ d)) as Hc. rewrite Hp in Hc. destruct Hc as [-> ->]. by apply ex_stable.
Qed.

Definition no_empty (ms : list Bytes) : list Bytes := filter (fun m => m <> []) ms.
Definition auto_messages (ip : string) (b : Bytes) : list Message := pair ip <$> no_empty (frames auto_next b).1.

Lemma no_empty_cons m ms : no_empty (m :: ms) = if bool_decide (m = []) then no_empty ms else m :: no_empty ms.
Proof.
  unfold no_empty. rewrite filter_cons. case_bool_decide as E; [rewrite decide_False|rewrite decide_True]; try done.
  by intros [].
Qed.

Lemma octet_nonempty b m r : extract_octet_counted b = Some (m, r) -> m <> [].
Proof.
  intros E. pose proof (octet_cases b) as Hc. destruct (length_prefix b); [|by destruct Hc; congruence].
  destruct Hc as [(?&?&Hc&?)|[Hc _]]; congruence.
Qed.

(** One iteration of the loops, seen through [auto_next]. *)
Lemma auto_messages_step ip b : auto_messages ip b
  = match auto_next b with
    | Some (m, r) => (if bool_decide (m = []) then [] else [(ip, m)]) ++ auto_messages ip r
    | None => []
    end.
Proof.
  unfold auto_messages. rewrite (frames_step auto_next). destruct (auto_next b) as [[m r]|]; [|done].
  cbn [fst snd]. rewrite no_empty_cons. by case_bool_decide.
Qed.

Lemma auto_rest_step b : (frames auto_next b).2
  = match auto_next b with Some (m, r) => (frames auto_next r).2 | None => b end.
Proof. rewrite (frames_step auto_next). by destruct (auto_next b) as [[m r]|]. Qed.

Lemma collect_auto_spec fuel buf ip out max : (length buf < fuel)%nat -> zlen buf <= MAX_FRAME_BYTES ->
  zlen out + zlen buf <= max ->
  collect_auto_loop fuel buf ip out max = Some ((frames auto_next buf).2, out ++ auto_messages ip buf, None).
Proof.
  revert buf out. induction fuel as [|fuel IH]; intros buf out Hf Hm Ho; [lia|]. cbn [collect_auto_loop].
  rewrite auto_messages_step, auto_rest_step.
  destruct buf as [|c buf]; [by rewrite bool_decide_true, app_nil_r by done|].
  rewrite bool_decide_false by done. set (b := c :: buf) in *.
  assert (Hc : zlen b = 1 + zlen buf) by apply zlen_cons. pose proof (zlen_nonneg buf).
  destruct (Z.leb_spec max (zlen out)); [lia|]. cbn [orb].
  assert (Hr : forall m r, auto_next b = Some (m, r) -> (length r < length b)%nat) by (intros m r; apply ex_shrinks).
  assert (Hz : forall m r, auto_next b = Some (m, r) -> zlen r < zlen b).
  { intros m r E. apply Hr in E. unfold zlen. lia. }
  unfold auto_next in *. destruct (extract_octet_counted b) as [[m r]|] eqn:Eo.
  { specialize (Hr _ _ eq_refl). specialize (Hz _ _ eq_refl). pose proof (zlen_nonneg r).
    rewrite IH by (rewrite ?zlen_app, ?zlen_cons, ?zlen_nil; lia). rewrite <- app_assoc.
    by rewrite (bool_decide_false (m = [])) by (by eapply octet_nonempty). }
  destruct (octet_in_progress b); [by rewrite app_nil_r|].
  destruct (extract_newline b) as [[l r]|].
  { specialize (Hr _ _ eq_refl). specialize (Hz _ _ eq_refl). pose proof (zlen_nonneg r).
    case_bool_decide; [by rewrite IH by lia|].
    rewrite IH by (rewrite ?zlen_app, ?zlen_cons, ?zlen_nil; lia). by rewrite <- app_assoc. }
  destruct (Z.ltb_spec MAX_FRAME_BYTES (zlen b)); [lia|]. by rewrite app_nil_r.
Qed.

(** Bytes that arrive in pieces, each followed by a collection. *)
Fixpoint feed_auto (buf : Bytes) (ip : string) (out : list Message) (max : Z) (chunks : list Bytes)
    : option (Bytes * list Message * option FrameError) :=
  match chunks with
  | [] => Some (buf, out, None)
  | d :: chunks =>
      match collect_auto_all (buf ++ d) ip out max with
      | Some (buf, out, None) => feed_auto buf ip out max chunks
      | r => r
      end
  end.

Lemma feed_auto_spec chunks buf ip out max :
  zlen buf + zlen (concat chunks) <= MAX_FRAME_BYTES -> zlen out + zlen buf + zlen (concat chunks) <= max -> auto_next buf = None ->
  feed_auto buf ip out max chunks
    = Some ((frames auto_next (buf ++ concat chunks)).2, out ++ auto_messages ip (buf ++ concat chunks), None).
Proof.
  revert buf out. induction chunks as [|d chunks IH]; intros buf out Hm Ho Hn; cbn [feed_auto concat] in *.
  { rewrite app_nil_r, auto_messages_step, auto_rest_step, Hn. by rewrite app_nil_r. }
  rewrite zlen_app in Hm, Ho. pose proof (zlen_nonneg d). pose proof (zlen_nonneg (concat chunks)). pose proof (zlen_nonneg out).
  unfold collect_auto_all. rewrite collect_auto_spec by (rewrite ?zlen_app; lia).
  pose proof (frames_count auto_next (buf ++ d)) as Hc.
  assert (Hl : zlen (auto_messages ip (buf ++ d)) <= zlen (frames auto_next (buf ++ d)).1).
  { unfold auto_messages, zlen. rewrite length_fmap. pose proof (length_filter (fun m => m <> []) (frames auto_next (buf ++ d)).1).
    unfold no_empty. lia. }
  rewrite length_app in Hc. unfold zlen in *. rewrite IH; unfold zlen; rewrite ?length_app; try lia; [|apply frames_rest; apply _].
  rewrite app_assoc, (frames_app auto_next (buf ++ d)). cbn [snd]. do 2 f_equal.
  unfold auto_messages. rewrite <- app_assoc. f_equal. f_equal.
  rewrite (frames_app auto_next (buf ++ d)). cbn [fst]. unfold no_empty. by rewrite filter_app, fmap_app.
Qed.

Lemma auto_next_nil : auto_next [] = None.
Proof. reflexivity. Qed.

(** However a stream that fits the buffer is cut into reads, collecting after
    every read gives the messages, and leaves the bytes, that collecting the
    whole stream at once gives. *)
Theorem auto_chunks_unobservable (chunks : list Bytes) (ip : string) (max : Z)
    (Hm : zlen (concat chunks) <= MAX_FRAME_BYTES) (Ho : zlen (concat chunks) <= max) :
  feed_auto [] ip [] max chunks = collect_auto_all (concat chunks) ip [] max /\
  collect_auto_all (concat chunks) ip [] max
    = Some ((frames auto_next (concat chunks)).2, auto_messages ip (concat chunks), None).
Proof.
  rewrite feed_auto_spec by (rewrite ?zlen_nil; try done; lia).
  unfold collect_auto_all. rewrite collect_auto_spec by (rewrite ?zlen_nil; lia). by rewrite app_nil_l.
Qed.

Definition demo_chunks : list Bytes :=
  list_ascii_of_string <$> ["5 he"; "llo7 go"; "od
 yab"; "c  
"; "
x"].

Lemma auto_chunks_unobservable_witness :
  feed_auto [] "ip" [] 100 demo_chunks = collect_auto_all (concat demo_chunks) "ip" [] 100 /\
  collect_auto_all (concat demo_chunks) "ip" [] 100
    = Some ((frames auto_next (concat demo_chunks)).2, auto_messages "ip" (concat demo_chunks), None).
Proof. apply (auto_chunks_unobservable demo_chunks "ip" 100); vm_compute; discriminate. Defined.

Example demo_chunks_frames : frames auto_next (concat demo_chunks)
  = (list_ascii_of_string <$> ["hello"; "good
 y"; "abc"; ""], list_ascii_of_string "x").
Proof. vm_compute. reflexivity. Qed.

(** ** Frames with a length *)

(** A frame: digits that say how long its bytes are, a space, the bytes. *)
Definition octet_frame (f : Bytes * Bytes) : Bytes := f.1 ++ SP :: f.2.
Definition frame_ok (f : Bytes * Bytes) : Prop :=
  Forall (fun c => is_ascii_digit c = true) f.1 /\ (0 < length f.1 <= MAX_LEN_DIGITS)%nat /\
  parse_digits 0 f.1 = Some (zlen f.2) /\ 0 < zlen f.2 < MAX_FRAME_BYTES.

Lemma digits_len_frame n ds r : Forall (fun c => is_ascii_digit c = true) ds -> (length ds <= n)%nat ->
  digits_len n (ds ++ SP :: r) = length ds.
Proof.
  intros Hd. revert n. induction Hd as [|c ds Hc Hd IH]; intros n Hn; cbn in *.
  - by destruct n.
  - destruct n as [|n]; [lia|]. cbn. rewrite Hc, IH by lia. done.
Qed.

Lemma parse_usize_digits ds : Forall (fun c => is_ascii_digit c = true) ds -> ds <> [] ->
  parse_usize (string_of_list_ascii ds) = parse_digits 0 ds.
Proof.
  intros Hd Hn. unfold parse_usize. rewrite list_ascii_of_string_of_list_ascii.
  destruct Hd as [|c ds Hc Hd]; [done|]. rewrite bool_decide_false; [done|]. by intros ->.
Qed.

Lemma octet_frame_first f d : frame_ok f -> extract_octet_counted (octet_frame f ++ d) = Some (f.2, d).
Proof.
  destruct f as [ds m]. intros (Hd & Hl & Hp & Hm). cbn [fst snd] in *. unfold octet_frame. cbn [fst snd].
  rewrite <- app_assoc. cbn [app]. unfold extract_octet_counted, length_prefix. rewrite digits_len_frame by (done || lia).
  destruct ds as [|c ds]; [cbn in Hl; lia|]. cbn [length]. set (k := length ds).
  rewrite (list_lookup_middle (c :: ds) (m ++ d) SP (S k)) by done. rewrite bool_decide_true by done.
  change (S k) with (length (c :: ds)). rewrite take_app_length.
  rewrite parse_usize_digits by done. rewrite Hp.
  destruct (Z.eqb_spec (zlen m) 0); [lia|]. destruct (Z.leb_spec MAX_FRAME_BYTES (zlen m)); [lia|]. cbn [orb].
  unfold zlen. rewrite length_app. cbn [length]. rewrite length_app.
  destruct (Z.ltb_spec (Z.of_nat (S (length ds) + S (length m + length d))) (Z.of_nat (S (length ds)) + 1 + Z.of_nat (length m))); [lia|].
  rewrite Nat2Z.id. replace (S (length ds) + 1)%nat with (length ((c :: ds) ++ [SP])) by (rewrite length_app; cbn; lia).
  replace ((c :: ds) ++ SP :: m ++ d) with (((c :: ds) ++ [SP]) ++ m ++ d) by (by rewrite <- app_assoc).
  by rewrite drop_app_length, take_app_length, drop_app_length.
Qed.

Lemma octet_frames_all fs tail : Forall frame_ok fs -> extract_octet_counted tail = None ->
  frames extract_octet_counted (concat (octet_frame <$> fs) ++ tail) = (snd <$> fs, tail).
Proof.
  intros Hf Ht. induction Hf as [|f fs Hf Hfs IH]; cbn [fmap list_fmap concat app].
  - by rewrite (frames_none extract_octet_counted).
  - rewrite <- app_assoc, (frames_step extract_octet_counted). rewrite octet_frame_first by done. by rewrite IH.
Qed.

Lemma collect_with_spec ex `{!Extractor ex} fuel buf ip out max : (length buf < fuel)%nat ->
  zlen out + zlen (frames ex buf).1 <= max ->
  collect_with ex fuel buf ip out max = Some ((frames ex buf).2, out ++ (pair ip <$> (frames ex buf).1)).
Proof.
  revert buf out. induction fuel as [|fuel IH]; intros buf out Hf Ho; [lia|]. cbn [collect_with].
  rewrite (frames_step ex) in Ho |- *. destruct (ex buf) as [[m r]|] eqn:E.
  - cbn [fst snd] in *. rewrite zlen_cons in Ho. pose proof (zlen_nonneg (frames ex r).1). apply ex_shrinks in E.
    destruct (Z.leb_spec max (zlen out)); [lia|].
    rewrite IH by (rewrite ?zlen_app, ?zlen_cons, ?zlen_nil; lia). by rewrite <- app_assoc.
  - cbn [fst snd]. rewrite app_nil_r. by destruct (_ <=? _).
Qed.

(** Messages that were sent as frames with their lengths are collected as they
    were sent, in order, and what follows the last complete frame stays in the
    buffer. *)
Theorem octet_frames_roundtrip (fs : list (Bytes * Bytes)) (tail : Bytes) (ip : string) (max : Z)
    (Hf : Forall frame_ok fs) (Ht : extract_octet_counted tail = None) (Hm : zlen fs <= max) :
  collect_by_len (concat (octet_frame <$> fs) ++ tail) ip [] max = Some (tail, pair ip <$> (snd <$> fs)).
Proof.
  unfold collect_by_len. pose proof (octet_frames_all fs tail Hf Ht) as E.
  rewrite (collect_with_spec extract_octet_counted) by (try lia; rewrite E; unfold zlen in *; cbn [fst]; rewrite length_fmap; cbn; lia).
  by rewrite E.
Qed.

Definition demo_frames : list (Bytes * Bytes) :=
  [(list_ascii_of_string "5", list_ascii_of_string "hello"); (list_ascii_of_string "003", list_ascii_of_string "a
b")].

Lemma octet_frames_roundtrip_witness :
  Forall frame_ok demo_frames /\
  collect_by_len (concat (octet_frame <$> demo_frames) ++ list_ascii_of_string "7 goo") "ip" [] 10
    = Some (list_ascii_of_string "7 goo", pair "ip" <$> (snd <$> demo_frames)).
Proof.
  assert (Hf : Forall frame_ok demo_frames).
  { repeat constructor; cbn; lia. }
  split; [exact Hf|]. apply (octet_frames_roundtrip demo_frames); [exact Hf|reflexivity|vm_compute; discriminate].
Defined.

(** ** Sending the frames of a buffer *)

Section Process.
Context {C : Type} `{!Channel Message C} `{!ChannelLaws Message C}.

(** What a drain does: everything was sent, or a message came back from a full
    channel, or what is left is too long for a frame. *)
Definition drained (ip : string) (buf buf' : Bytes) (ch ch' : C) (res : option Message + FrameError) : Prop :=
  match res with
  | inl None => accepted ch' = accepted ch ++ auto_messages ip buf /\ buf' = (frames auto_next buf).2
  | inl (Some p) => exists sent, accepted ch' = accepted ch ++ sent /\ auto_messages ip buf = sent ++ p :: auto_messages ip buf' /\
      (frames auto_next buf).2 = (frames auto_next buf').2 /\ (length buf' < length buf)%nat
  | inr e => e = BufferOverflow /\ accepted ch' = accepted ch ++ auto_messages ip buf /\ buf' = [] /\
      MAX_FRAME_BYTES < zlen (frames auto_next buf).2
  end.

(** A message more in front. *)
Lemma drained_cons ip buf m r buf' ch ch1 ch' res : auto_next buf = Some (m, r) ->
  accepted ch1 = accepted ch ++ (if bool_decide (m = []) then [] else [(ip, m)]) ->
  drained ip r buf' ch1 ch' res -> drained ip buf buf' ch ch' res.
Proof.
  intros E Ha. apply (ex_shrinks (ex := auto_next)) in E as Hl. unfold drained.
  rewrite (auto_messages_step ip buf), (auto_rest_step buf), E.
  destruct res as [[p|]|e].
  - intros (sent & H1 & H2 & H3 & H4). exists ((if bool_decide (m = []) then [] else [(ip, m)]) ++ sent).
    rewrite H1, Ha, <- app_assoc. split; [done|]. split; [by rewrite H2, app_assoc|]. split; [done|lia].
  - intros [H1 H2]. split; [|done]. by rewrite H1, Ha, <- app_assoc.
  - intros (He & H1 & H2 & H3). split; [done|]. split; [|done]. by rewrite H1, Ha, <- app_assoc.
Qed.

Lemma drain_auto_spec fuel buf ip ch : (length buf < fuel)%nat ->
  exists buf' ch' res, drain_auto_loop fuel buf ip ch = Some (buf', ch', res) /\ drained ip buf buf' ch ch' res.
Proof.
  revert buf ch. induction fuel as [|fuel IH]; intros buf ch Hf; [lia|]. cbn [drain_auto_loop].
  destruct buf as [|c buf].
  { rewrite bool_decide_true by done. do 3 eexists. split; [done|]. cbn. by rewrite app_nil_r. }
  rewrite bool_decide_false by done. set (b := c :: buf) in *.
  assert (Hn : forall m r, auto_next b = Some (m, r) -> m <> [] ->
    exists buf' ch' res, match try_send ch (ip, m) with
      | (sender, SendOk) => drain_auto_loop fuel r ip sender
      | (sender, _) => Some (r, sender, inl (Some (ip, m)))
      end = Some (buf', ch', res) /\ drained ip b buf' ch ch' res).
  { intros m r E Hm. apply (ex_shrinks (ex := auto_next)) in E as Hl.
    destruct (try_send ch (ip, m)) as [ch1 s] eqn:Es. destruct s as [| |].
    - destruct (IH r ch1 ltac:(lia)) as (b' & ch' & res & -> & Hd). do 3 eexists. split; [done|].
      eapply drained_cons; [done| |done]. rewrite bool_decide_false by done. by eapply send_ok.
    - apply send_full in Es as [_ Ha]. do 3 eexists. split; [done|]. exists []. rewrite Ha, app_nil_r.
      rewrite (auto_messages_step ip b), (auto_rest_step b), E, bool_decide_false by done. done.
    - apply send_closed in Es as [_ Ha]. do 3 eexists. split; [done|]. exists []. rewrite Ha, app_nil_r.
      rewrite (auto_messages_step ip b), (auto_rest_step b), E, bool_decide_false by done. done. }
  assert (Hz : auto_next b = None -> auto_messages ip b = [] /\ (frames auto_next b).2 = b).
  { intros E. by rewrite auto_messages_step, auto_rest_step, E. }
  assert (Hs : forall r, auto_next b = Some ([], r) ->
    exists buf' ch' res, drain_auto_loop fuel r ip ch = Some (buf', ch', res) /\ drained ip b buf' ch ch' res).
  { intros r E. apply (ex_shrinks (ex := auto_next)) in E as Hl. destruct (IH r ch ltac:(lia)) as (b' & ch' & res & -> & Hd).
    do 3 eexists. split; [done|]. eapply drained_cons; [done| |done]. by rewrite bool_decide_true, app_nil_r by done. }
  pose proof (eq_refl (auto_next b)) as Ha. unfold auto_next at 2 in Ha.
  destruct (extract_octet_counted b) as [[m r]|] eqn:Eo.
  { apply Hn; [done|]. by eapply octet_nonempty. }
  destruct (octet_in_progress b).
  { destruct (Hz Ha) as [Hz1 Hz2]. do 3 eexists. split; [done|]. cbn [drained]. by rewrite Hz1, Hz2, app_nil_r. }
  destruct (extract_newline b) as [[l r]|].
  { case_bool_decide as El; [subst l; by apply Hs|by apply Hn]. }
  destruct (Hz Ha) as [Hz1 Hz2].
  destruct (Z.ltb_spec MAX_FRAME_BYTES (zlen b)); do 3 eexists; (split; [done|]); cbn [drained]; rewrite ?Hz1, ?Hz2, ?app_nil_r; done.
Qed.

Variable send : C -> Message -> option C.
Hypothesis send_appends : forall c m c', send c m = Some c' -> accepted c' = accepted c ++ [m].

Definition processed (ip : string) (buf buf' : Bytes) (ch ch' : C) (r : option FrameError) : Prop :=
  match r with
  | None => accepted ch' = accepted ch ++ auto_messages ip buf /\ buf' = (frames auto_next buf).2
  | Some BufferOverflow => accepted ch' = accepted ch ++ auto_messages ip buf /\ buf' = [] /\ MAX_FRAME_BYTES < zlen (frames auto_next buf).2
  | Some Disconnected => exists sent p, accepted ch' = accepted ch ++ sent /\ auto_messages ip buf = sent ++ p :: auto_messages ip buf'
  end.

Lemma process_loop_spec fuel buf ip ch : (length buf < fuel)%nat ->
  exists buf' ch' r, process_loop send fuel buf ip ch = Some (buf', ch', r) /\ processed ip buf buf' ch ch' r.
Proof.
  revert buf ch. induction fuel as [|fuel IH]; intros buf ch Hf; [lia|]. cbn [process_loop].
  unfold drain_auto_all. destruct (drain_auto_spec (S (length buf)) buf ip ch ltac:(lia)) as (b1 & ch1 & res & -> & Hd).
  destruct res as [[p|]|e]; cbn [drained] in Hd.
  - destruct Hd as (sent & Ha & Hm & Hr & Hl). destruct (send ch1 p) as [ch2|] eqn:Es.
    + apply send_appends in Es. destruct (IH b1 ch2 ltac:(lia)) as (b2 & ch3 & r & -> & Hp). do 3 eexists. split; [done|].
      unfold processed in *. rewrite Hm, Hr. destruct r as [[]|].
      * destruct Hp as (H1 & H2 & H3). by rewrite H1, Es, Ha, <- !app_assoc.
      * destruct Hp as (s2 & p2 & H1 & H2). exists (sent ++ p :: s2), p2. rewrite H1, Es, Ha, H2, <- !app_assoc. done.
      * destruct Hp as (H1 & H2). by rewrite H1, Es, Ha, <- !app_assoc.
    + do 3 eexists. split; [done|]. exists sent, p. done.
  - do 3 eexists. split; [done|]. done.
  - destruct Hd as (-> & H1 & H2 & H3). do 3 eexists. split; [done|]. done.
Qed.
End Process.

(** Processing bytes from a peer ends: every message of the buffer and the new
    bytes was sent in order, or what was left over outgrew a frame, or the
    channel was closed and took only the first of them. *)
Theorem process_buffer_delivers {C : Type} `{!Channel Message C} `{!ChannelLaws Message C}
    (send : C -> Message -> option C) (Hs : forall c m c', send c m = Some c' -> accepted c' = accepted c ++ [m])
    (buffer data : Bytes) (ip : string) (ch : C) :
  exists buf' ch' r, process_buffer send buffer data ip ch = Some (buf', ch', r) /\
    match r with
    | None => accepted ch' = accepted ch ++ auto_messages ip (buffer ++ data) /\ buf' = (frames auto_next (buffer ++ data)).2
    | Some BufferOverflow => accepted ch' = accepted ch ++ auto_messages ip (buffer ++ data) /\ buf' = [] /\
        MAX_FRAME_BYTES < zlen (frames auto_next (buffer ++ data)).2
    | Some Disconnected => exists sent p, accepted ch' = accepted ch ++ sent /\
        auto_messages ip (buffer ++ data) = sent ++ p :: auto_messages ip buf'
    end.
Proof. unfold process_buffer. apply (process_loop_spec send Hs). lia. Qed.

(** ** A connection *)

Section Connection.
Context (fr : FramingMode) `{!Extractor (extract_message fr)}.

Definition events_of (b : BatchBuilder) (ip : string) (buf : Bytes) : list SourceEvent :=
  (fun m => build_event b m ip) <$> (frames (extract_message fr) buf).1.
Definition left_of (buf : Bytes) : Bytes := (frames (extract_message fr) buf).2.

(** The parts of a builder that never change. *)
Definition same_config (b b' : BatchBuilder) : Prop :=
  base_tags b' = base_tags b /\ source_key b' = source_key b /\ batch_capacity b' = batch_capacity b /\
  max_batch_bytes b' = max_batch_bytes b.

Lemma same_config_trans a b c : same_config a b -> same_config b c -> same_config a c.
Proof. unfold same_config. intuition congruence. Qed.

Lemma same_config_events b b' ip buf : same_config b b' -> events_of b' ip buf = events_of b ip buf.
Proof. intros (H1 & H2 & _). unfold events_of, build_event. by rewrite H1, H2. Qed.

(** While something is pending, a drain takes nothing into the batch. *)
Definition in_order (b : BatchBuilder) (batch : list SourceEvent) : Prop :=
  pending_events b = [] \/ (batch_capacity b <= 0 /\ batch = []).

Definition in_flight (b : BatchBuilder) (batch : list SourceEvent) (ip : string) : list SourceEvent :=
  batch ++ pending_events b ++ events_of b ip (buffer b).

Lemma events_of_cons b ip buf m r : extract_message fr buf = Some (m, r) ->
  events_of b ip buf = build_event b m ip :: events_of b ip r /\ left_of buf = left_of r.
Proof. intros E. unfold events_of, left_of. rewrite (frames_step (extract_message fr) buf), E. done. Qed.

Lemma drain_keeps fuel ip b batch bytes : (length (buffer b) < fuel)%nat -> in_order b batch ->
  exists b' batch' bytes', drain_loop fuel fr ip b batch bytes = Some (b', batch', bytes') /\ same_config b b' /\
    in_flight b' batch' ip = in_flight b batch ip /\ left_of (buffer b') = left_of (buffer b) /\
    (batch' = [] -> in_order b' batch').
Proof.
  revert b batch bytes. induction fuel as [|fuel IH]; intros b batch bytes Hf Ho; [lia|]. cbn [drain_loop].
  destruct (extract_message fr (buffer b)) as [[m r]|] eqn:E.
  2:{ do 3 eexists. split; [done|]. split; [done|]. split; [done|]. split; [done|]. by intros ->. }
  destruct (events_of_cons b ip _ _ _ E) as [Hev Hlf]. apply ex_shrinks in E as Hl. cbv zeta. cbn [batch_capacity set_buffer max_batch_bytes].
  assert (Hc : same_config b (set_buffer b r)) by done.
  destruct (batch_capacity b <=? zlen batch) eqn:Ecap; cbn [orb].
  { do 3 eexists. split; [done|]. split; [done|]. split; [|split; [done|]].
    - unfold in_flight. cbn [set_pending pending_events buffer set_buffer]. rewrite Hev, <- app_assoc. done.
    - intros ->. right. split; [|done]. apply Z.leb_le in Ecap. exact Ecap. }
  destruct Ho as [Hp|[Hcap ->]]; [|apply Z.leb_gt in Ecap; rewrite zlen_nil in Ecap; lia].
  assert (Hin : forall x, in_flight (set_buffer b r) (batch ++ [x]) ip = batch ++ [x] ++ events_of b ip r).
  { intros x. unfold in_flight. cbn [set_buffer pending_events buffer]. by rewrite Hp, <- app_assoc. }
  assert (Hin0 : in_flight b batch ip = batch ++ [build_event b m ip] ++ events_of b ip r).
  { unfold in_flight. by rewrite Hp, Hev. }
  set (exceed := max_batch_bytes b <? _).
  destruct (exceed && negb (bool_decide (batch = []))) eqn:Eb.
  { do 3 eexists. split; [done|]. split; [done|]. split; [|split; [done|]].
    - rewrite Hin0. unfold in_flight. cbn [set_pending set_buffer pending_events buffer]. by rewrite Hp.
    - intros ->. rewrite bool_decide_true, andb_false_r in Eb by done. done. }
  destruct exceed.
  { do 3 eexists. split; [done|]. split; [done|]. split; [by rewrite Hin0, Hin|]. split; [done|].
    intros Hz. by apply app_nil in Hz as [_ ?]. }
  destruct (IH (set_buffer b r) (batch ++ [build_event (set_buffer b r) m ip])
    (bytes ⊕ event_payload_len (build_event (set_buffer b r) m ip))) as (b' & batch' & bytes' & -> & H1 & H2 & H3 & H4).
  { cbn. lia. }
  { by left. }
  do 3 eexists. split; [done|]. split; [exact H1|]. split; [by rewrite H2, Hin0, Hin|]. split; [by rewrite H3|done].
Qed.

(** The bytes a sequence of answers carries. *)
Definition data_of (reads : list Read) : Bytes := concat ((fun r => match r with Got d => d | _ => [] end) <$> reads).
Definition batch_of (o : ReadOutcome) : list SourceEvent := match o with Produced l => l | _ => [] end.

Definition accounts (c c' : TcpConnection) (es : list SourceEvent) (D : Bytes) : Prop :=
  client_ip c' = client_ip c /\ framing c' = framing c /\ same_config (batcher c) (batcher c') /\
  es ++ pending_events (batcher c') ++ events_of (batcher c) (client_ip c) (buffer (batcher c'))
    = pending_events (batcher c) ++ events_of (batcher c) (client_ip c) (buffer (batcher c) ++ D) /\
  left_of (buffer (batcher c')) = left_of (buffer (batcher c) ++ D).

Lemma events_app b ip x d : events_of b ip (x ++ d) = events_of b ip x ++ events_of b ip (left_of x ++ d)
  /\ left_of (x ++ d) = left_of (left_of x ++ d).
Proof.
  unfold events_of, left_of. rewrite (frames_app (extract_message fr) x d). cbn [fst snd]. by rewrite fmap_app.
Qed.

(** A buffer that leaves as much as another, with fewer events in front. *)
Lemma accounts_trans a b c es1 es2 D1 D2 : accounts a b es1 D1 -> accounts b c es2 D2 -> accounts a c (es1 ++ es2) (D1 ++ D2).
Proof.
  intros (I1 & F1 & C1 & E1 & L1) (I2 & F2 & C2 & E2 & L2). repeat split; try congruence; try (eapply same_config_trans; eassumption).
  - rewrite I1, !(same_config_events _ _ _ _ C1) in E2.
    rewrite <- app_assoc, E2, (proj1 (events_app (batcher a) (client_ip a) (buffer (batcher b)) D2)), L1.
    rewrite (app_assoc (buffer (batcher a))), (proj1 (events_app (batcher a) (client_ip a) (buffer (batcher a) ++ D1) D2)).
    by rewrite (app_assoc (pending_events (batcher b))), (app_assoc es1), E1, <- app_assoc.
  - rewrite L2, (proj2 (events_app (batcher a) (client_ip a) (buffer (batcher b)) D2)), L1, app_assoc.
    by rewrite (proj2 (events_app (batcher a) (client_ip a) (buffer (batcher a) ++ D1) D2)).
Qed.

Lemma fill_keeps cap max pend batch bytes : let '(pend', batch', _) := fill_loop cap max pend batch bytes in
  batch' ++ pend' = batch ++ pend /\ (batch' = [] -> pend' = [] \/ cap <= 0).
Proof.
  revert batch bytes. induction pend as [|e pend IH]; intros batch bytes; cbn [fill_loop]; [split; [done|by left]|].
  destruct (cap <=? zlen batch) eqn:Ec.
  { split; [done|]. intros ->. right. apply Z.leb_le in Ec. exact Ec. }
  set (exceed := max <? _). destruct (exceed && negb (bool_decide (batch = []))) eqn:Eb.
  { split; [done|]. intros ->. by rewrite bool_decide_true, andb_false_r in Eb by done. }
  destruct exceed.
  { split; [by rewrite <- app_assoc|]. intros H. by apply app_nil in H as [_ ?]. }
  specialize (IH (batch ++ [e]) (bytes ⊕ event_payload_len e)). destruct (fill_loop _ _ _ _ _) as [[p' b'] ?].
  by rewrite <- app_assoc in IH.
Qed.

Lemma read_loop_keeps blocking c bytes reads o c' left : framing c = fr -> in_order (batcher c) [] ->
  read_loop blocking c [] bytes reads = Some (o, c', left) ->
  exists D, data_of reads = D ++ data_of left /\ accounts c c' (batch_of o) D.
Proof.
  assert (Hn : forall c, accounts c c [] []) by (intros; unfold accounts; rewrite app_nil_r; done).
  revert c bytes. induction reads as [|rd reads IH]; intros c bytes Hfr Ho; cbn [read_loop]; [done|].
  destruct rd as [|d| |].
  - intros [= <- <- <-]. by exists [].
  - set (b := set_buffer (batcher c) (buffer (batcher c) ++ d)).
    unfold drain_messages. rewrite Hfr.
    destruct (drain_keeps (S (length (buffer b))) (client_ip c) b [] bytes ltac:(lia) Ho)
      as (b' & batch & bytes' & -> & Hc & Hin & Hl & Hz). unfold in_flight in Hin.
    assert (Ha : accounts c (set_batcher c b') batch d).
    { repeat split; try apply Hc; [|exact Hl]. cbn [set_batcher batcher].
      rewrite (same_config_events b b') in Hin by done. exact Hin. }
    case_bool_decide as Eb.
    + subst batch. intros H. destruct (IH (set_batcher c b') bytes' Hfr (Hz eq_refl) H) as (D & HD & HA).
      exists (d ++ D). split; [by rewrite <- app_assoc, <- HD|]. by apply (accounts_trans _ _ _ _ _ _ _ Ha).
    + intros [= <- <- <-]. exists d. done.
  - destruct blocking.
    + intros H. destruct (IH _ _ Hfr Ho H) as (D & HD & HA). by exists D.
    + intros [= <- <- <-]. by exists [].
  - intros [= <- <- <-]. by exists [].
Qed.

Lemma read_once_keeps blocking c reads o c' left : framing c = fr -> read_once blocking c reads = Some (o, c', left) ->
  exists D, data_of reads = D ++ data_of left /\ accounts c c' (batch_of o) D.
Proof.
  intros Hfr. unfold read_once, fill_batch_from_pending.
  pose proof (fill_keeps (batch_capacity (batcher c)) (max_batch_bytes (batcher c)) (pending_events (batcher c)) [] 0) as Hk.
  destruct (fill_loop _ _ _ _ _) as [[p batch] bytes]. destruct Hk as [Hk Hz].
  assert (Ha : accounts c (set_batcher c (set_pending (batcher c) p)) batch []).
  { unfold accounts. rewrite app_nil_r. repeat split. cbn [set_batcher set_pending batcher pending_events buffer].
    by rewrite app_assoc, Hk. }
  case_bool_decide as Eb.
  - subst batch. intros H. eapply read_loop_keeps in H as (D & HD & HA); [|done|].
    + exists D. split; [done|]. apply (accounts_trans _ _ _ [] _ [] D Ha HA).
    + destruct (Hz eq_refl) as [->|?]; [by left|by right].
  - intros [= <- <- <-]. by exists [].
Qed.

(** Calls of the two reads ([true] is the blocking one) on the answers of a
    socket: the events they returned. *)
Fixpoint run (calls : list bool) (c : TcpConnection) (reads : list Read) : option (list SourceEvent * TcpConnection * list Read) :=
  match calls with
  | [] => Some ([], c, reads)
  | blocking :: calls =>
      match read_once blocking c reads with
      | Some (o, c, reads) =>
          match run calls c reads with Some (es, c, reads) => Some (batch_of o ++ es, c, reads) | None => None end
      | None => None
      end
  end.

Lemma run_keeps calls c reads es c' left : framing c = fr -> run calls c reads = Some (es, c', left) ->
  exists D, data_of reads = D ++ data_of left /\ accounts c c' es D.
Proof.
  revert c reads es. induction calls as [|b calls IH]; intros c reads es Hfr; cbn [run].
  { intros [= <- <- <-]. exists []. split; [done|]. unfold accounts. by rewrite app_nil_r. }
  destruct (read_once b c reads) as [[[o c1] left1]|] eqn:E1; [|done].
  destruct (run calls c1 left1) as [[[es1 c2] left2]|] eqn:E2; [|done]. intros [= <- <- <-].
  apply read_once_keeps in E1 as (D1 & HD1 & HA1); [|done].
  apply IH in E2 as (D2 & HD2 & HA2); [|by destruct HA1 as (_ & -> & _)].
  exists (D1 ++ D2). split; [by rewrite HD1, HD2, app_assoc|]. by eapply accounts_trans.
Qed.
End Connection.

(** C19: A connection that frames by line, or by length, loses no message, adds
    none and keeps their order, whatever the sizes of the reads, of the batches
    and the waits between them: what the calls returned, what is pending and the
    frames still in the buffer are the frames of the bytes read. *)
Theorem connection_keeps_messages (fr : FramingMode) (Hfr : fr = Line \/ fr = Len) (peer key : string) (tags : list (string * string))
    (cap maxb : Z) (calls : list bool) (reads : list Read) (es : list SourceEvent) (c : TcpConnection) (left : list Read)
    (Hr : run calls (TcpConnection_new peer fr tags key cap maxb) reads = Some (es, c, left)) :
  exists D, data_of reads = D ++ data_of left /\
    es ++ pending_events (batcher c) ++ ((fun m => mkEvent key m tags peer) <$> (frames (extract_message fr) (buffer (batcher c))).1)
      = (fun m => mkEvent key m tags peer) <$> (frames (extract_message fr) D).1 /\
    (frames (extract_message fr) (buffer (batcher c))).2 = (frames (extract_message fr) D).2.
Proof.
  assert (He : Extractor (extract_message fr)) by (destruct Hfr as [-> | ->]; apply _).
  apply (run_keeps fr) in Hr as (D & HD & _ & _ & _ & Ha & Hl); [|done]. exists D. split; [done|]. split; [exact Ha|exact Hl].
Qed.

Definition demo_reads : list Read :=
  [Got (list_ascii_of_string "one
two
th"); WouldBlock; Got (list_ascii_of_string "ree
four
"); WouldBlock; Got (list_ascii_of_string "fi")].
Definition demo_conn (fr : FramingMode) (cap : Z) : TcpConnection := TcpConnection_new "peer" fr [] "key" cap 1000.

Lemma connection_keeps_messages_witness :
  match run [false; false; true] (demo_conn Line 1) demo_reads with
  | Some (es, c, lf) => exists D, data_of demo_reads = D ++ data_of lf /\
      es ++ pending_events (batcher c) ++ ((fun m => mkEvent "key" m [] "peer") <$> (frames (extract_message Line) (buffer (batcher c))).1)
        = (fun m => mkEvent "key" m [] "peer") <$> (frames (extract_message Line) D).1 /\
      (frames (extract_message Line) (buffer (batcher c))).2 = (frames (extract_message Line) D).2
  | None => False
  end.
Proof.
  destruct (run [false; false; true] (demo_conn Line 1) demo_reads) as [[[es c] lf]|] eqn:E.
  - apply (connection_keeps_messages Line (or_introl eq_refl) "peer" "key" [] 1 1000 [false; false; true] demo_reads es c lf E).
  - vm_compute in E. discriminate E.
Defined.

(** A bounded channel: what it took, and how much room it has. *)
Definition demo_send (c : list Message * nat) (m : Message) : (list Message * nat) * SendRes Message :=
  match c.2 with O => (c, SendFull m) | S n => ((c.1 ++ [m], n), SendOk) end.
#[local] Instance demo_channel : Channel Message (list Message * nat) := {| try_send := demo_send; accepted := fst |}.
#[local] Instance demo_channel_laws : ChannelLaws Message (list Message * nat).
Proof.
  split; intros [l [|n]] b c' *; cbn; try discriminate.
  - by intros [= <-].
  - by intros [= <- <-].
Qed.

Lemma process_buffer_delivers_witness :
  exists buf' ch' r, process_buffer (fun c m => Some (c.1 ++ [m], 2%nat)) [] (concat demo_chunks) "ip" ([], 0%nat) = Some (buf', ch', r) /\
    match r with
    | None => accepted ch' = [] ++ auto_messages "ip" ([] ++ concat demo_chunks) /\ buf' = (frames auto_next ([] ++ concat demo_chunks)).2
    | Some BufferOverflow => accepted ch' = [] ++ auto_messages "ip" ([] ++ concat demo_chunks) /\ buf' = [] /\
        MAX_FRAME_BYTES < zlen (frames auto_next ([] ++ concat demo_chunks)).2
    | Some Disconnected => exists sent p, accepted ch' = [] ++ sent /\
        auto_messages "ip" ([] ++ concat demo_chunks) = sent ++ p :: auto_messages "ip" buf'
    end.
Proof.
  apply (process_buffer_delivers (fun (c : list Message * nat) m => Some (c.1 ++ [m], 2%nat)) ltac:(by intros c m c' [= <-]) [] (concat demo_chunks) "ip" ([], 0%nat)).
Defined.

(** ** Where frames are lost or cut *)

Definition demo_run (fr : FramingMode) (cap : Z) (calls : list bool) (reads : list Read) : option (list string * string) :=
  match run calls (demo_conn fr cap) reads with
  | Some (es, c, _) => Some (string_of_list_ascii ∘ ev_payload <$> es, string_of_list_ascii (buffer (batcher c)))
  | None => None
  end.

(** A complete line that a full batch left in the buffer is looked at again only
    after the next bytes: when the peer closes instead, it is lost. *)
Example complete_line_lost :
  demo_run Line 1 [false; false; false; false] [Got (list_ascii_of_string "a
b
c
"); WouldBlock; Eof] = Some (["a"; "b"], "c
").
Proof. vm_compute. reflexivity. Qed.

(** Without a mode, a frame with a newline in it is cut when it arrives in two
    reads, and whole when it arrives in one; the loops of [framing.rs] wait. *)
Example auto_connection_cuts_frames :
  demo_run Auto 9 [false; false] [Got (list_ascii_of_string "5 a
bc"); Got (list_ascii_of_string "d"); WouldBlock] = Some (["5 a"], "bcd") /\
  demo_run Auto 9 [false] [Got (list_ascii_of_string "5 a
bcd")] = Some (["a
bcd"], "").
Proof. vm_compute. split; reflexivity. Qed.

(** A length is a message even when it is zero; a line keeps its spaces, which
    [extract_newline] removes, and loses every carriage return. *)
Example extractors_differ :
  extract_length_prefixed_message (list_ascii_of_string "0 x") = Some ([], ["x"%char]) /\
  extract_octet_counted (list_ascii_of_string "0 x") = None /\
  extract_line_message (list_ascii_of_string "a 
") = Some (list_ascii_of_string "a ", []) /\
  extract_newline (list_ascii_of_string "a 
") = Some (list_ascii_of_string "a", []) /\
  extract_line_message ["a"; CR; "b"; CR; NL]%char = Some (["a"; "b"]%char, []) /\
  extract_newline ["a"; CR; "b"; CR; NL]%char = Some (["a"; CR; "b"]%char, []).
Proof. vm_compute. repeat split; reflexivity. Qed.
