(* ===== verification/SyslogHeader.v ===== *)
(** Headers of syslog messages: [src/sources/syslog/normalize.rs], and the hooks
    that cut them off before an event is parsed ([build_preproc_hook] of
    [udp_source.rs] and of [tcp_source.rs]).

    A text is its UTF-8 bytes and the indexes are those of the code.  A slice of
    a text panics where an index is inside a character; of the slices of this
    code only the month's may, since every other index is the start or the end
    of the text or follows an ASCII byte.  The tags of an event are an argument,
    the texts of the log lines are left out. *)
From Stdlib Require Import ZArith Lia String Ascii.
From stdpp Require Import prelude strings pretty.
From S2P Require Import Prelude F64 Text Utf8 Router Framing.
Local Open Scope string_scope.
Local Open Scope list_scope.
Local Open Scope Z_scope.
Local Open Scope wp_scope.

(** ** Texts by index *)

Definition byte_is (s : Bytes) (i : nat) (c : ascii) : bool := bool_decide (s !! i = Some c).
Definition digit_at (s : Bytes) (i : nat) : bool := match s !! i with Some c => is_ascii_digit c | None => false end.

(** [while i < len && p(bytes[i]) { i += 1 }] *)
Fixpoint count_while (p : ascii -> bool) (l : Bytes) : nat :=
  match l with c :: l => if p c then S (count_while p l) else 0%nat | [] => 0%nat end.
Definition skip_while (p : ascii -> bool) (s : Bytes) (i : nat) : nat := (i + count_while p (drop i s))%nat.
Definition skip_digits := skip_while is_ascii_digit.
Definition skip_token := skip_while (fun c => negb (bool_decide (c = SP))).

(** [str::find] of a text. *)
Fixpoint begins (p s : Bytes) : bool :=
  match p, s with
  | [], _ => true
  | c :: p, d :: s => bool_decide (c = d) && begins p s
  | _ :: _, [] => false
  end.
Fixpoint find (p s : Bytes) : option nat :=
  if begins p s then Some 0%nat else match s with _ :: s => S <$> find p s | [] => None end.

(** [str::is_char_boundary] and a slice of a text. *)
Definition is_char_boundary (s : Bytes) (i : nat) : bool :=
  match i with O => true | S _ =>
    match s !! i with Some c => negb (continuation c) | None => bool_decide (i = length s) end end.
Definition str_slice (s : Bytes) (a b : nat) : outcome Bytes :=
  if is_char_boundary s a && is_char_boundary s b && bool_decide (a <= b)%nat then Ret (take (b - a) (drop a s)) else Panic.

(** ** [normalize.rs] *)

Record SyslogMeta := mkMeta { pri : option Z; facility : option string; severity : option string }.
Record Normalized := mkNormalized { header : option string; message : Bytes; n_meta : SyslogMeta }.
Record NormalizedSlice := mkSlice { msg_start : nat; msg_end : nat; meta : SyslogMeta }.
Definition no_meta : SyslogMeta := mkMeta None None None.

Definition facilities : list string :=
  ["kern"; "user"; "mail"; "daemon"; "auth"; "syslog"; "lpr"; "news"; "uucp"; "clock"; "authpriv"; "ftp"; "ntp"; "audit";
   "alert"; "cron"; "local0"; "local1"; "local2"; "local3"; "local4"; "local5"; "local6"; "local7"].
Definition facility_name (code : Z) : string := default "unknown" (facilities !! Z.to_nat code).
Definition severity_name (code : Z) : string :=
  default "unknown" (["emerg"; "alert"; "crit"; "err"; "warn"; "notice"; "info"; "debug"] !! Z.to_nat code).

(** [str::parse::<u16>] *)
Definition parse_u16 (s : Bytes) : option Z :=
  match parse_usize (string_of_list_ascii s) with
  | Some n => if n <=? 65535 then Some n else None
  | None => None
  end.

Definition parse_pri_from_header (h : Bytes) : SyslogMeta :=
  match find [">"%char] h with
  | Some e =>
      if begins ["<"%char] h then
        match parse_u16 (take (e - 1) (drop 1 h)) with
        | Some p => mkMeta (Some (Z.land p 255)) (Some (facility_name (p / 8 mod 256))) (Some (severity_name (p mod 8)))
        | None => no_meta
        end
      else no_meta
  | None => no_meta
  end.

(** The priority with which a line starts: the index of its [>]. *)
Definition scan_pri (s : Bytes) : option nat :=
  if byte_is s 0 "<"%char then
    let i := skip_digits s 1 in if byte_is s i ">"%char then Some i else None
  else None.
Definition pri_str (s : Bytes) (i : nat) : Bytes := take (i - 1) (drop 1 s).
Definition meta_of (s : Bytes) (i : nat) : SyslogMeta := parse_pri_from_header ("<"%char :: pri_str s i ++ [">"%char]).

Fixpoint skip_tokens (n : nat) (s : Bytes) (j : nat) : option nat :=
  match n with
  | O => Some j
  | S n =>
      if bool_decide (j < length s)%nat then
        let j := skip_token s j in
        if bool_decide (length s <= j)%nat then None else skip_tokens n s (S j)
      else None
  end.

(** Behind the structured data: a dash, or what a bracket closes. *)
Definition skip_data (s : Bytes) (j : nat) : option nat :=
  if byte_is s j "-"%char then let j := S j in Some (if byte_is s j SP then S j else j)
  else if byte_is s j "["%char then
    match find ["]"%char] (drop (S j) s) with
    | Some close => let j := (j + 1 + close + 1)%nat in Some (if byte_is s j SP then S j else j)
    | None => None
    end
  else None.

(** Where the message of an RFC 5424 line starts, with the index of its [>]. *)
Definition rfc5424_start (s : Bytes) : option (nat * nat) :=
  match scan_pri s with
  | None => None
  | Some i =>
      let j := S i in
      if negb (digit_at s j) then None else
      let j := skip_digits s j in
      if negb (byte_is s j SP) then None else
      match skip_tokens 5 s (S j) with
      | None => None
      | Some j => match skip_data s j with Some j => Some (i, j) | None => None end
      end
  end.

(** [str::trim_end] *)
Definition trim_end (s : Bytes) : string := of_chars (rev (drop_white (rev (chars (string_of_list_ascii s))))).

Definition parse_rfc5424 (input : Bytes) : option Normalized :=
  match rfc5424_start input with
  | Some (i, j) => Some (mkNormalized (Some (trim_end (take j input))) (drop j input) (meta_of input i))
  | None => None
  end.
Definition parse_rfc5424_slice (input : Bytes) : option NormalizedSlice :=
  match rfc5424_start input with
  | Some (i, j) => Some (mkSlice j (length input) (meta_of input i))
  | None => None
  end.

Definition months : list Bytes :=
  list_ascii_of_string <$> ["Jan"; "Feb"; "Mar"; "Apr"; "May"; "Jun"; "Jul"; "Aug"; "Sep"; "Oct"; "Nov"; "Dec"].
Definition is_valid_month (month : Bytes) : bool := bool_decide (month ∈ months).

Definition time_at (s : Bytes) (i : nat) : bool :=
  digit_at s i && digit_at s (i + 1) && byte_is s (i + 2) ":"%char && digit_at s (i + 3) && digit_at s (i + 4) &&
  byte_is s (i + 5) ":"%char && digit_at s (i + 6) && digit_at s (i + 7).

(** What follows the month: day, time, host and tag; where the message starts. *)
Definition after_month (s : Bytes) (i : nat) : option nat :=
  if negb (byte_is s i SP) then None else
  let i := S i in
  let i := if byte_is s i SP then S i else i in
  if negb (digit_at s i) then None else
  let i := S i in
  let i := if digit_at s i then S i else i in
  if negb (byte_is s i SP) then None else
  let i := S i in
  if negb (bool_decide (i + 8 <= length s)%nat && time_at s i) then None else
  let i := (i + 8)%nat in
  if negb (byte_is s i SP) then None else
  let hostname_start := S i in
  let i := skip_token s hostname_start in
  if bool_decide (i = hostname_start) || bool_decide (length s <= i)%nat then None else
  let i := S i in
  match find [":"%char; SP] (drop i s) with Some col => Some (i + col + 2)%nat | None => None end.

Definition rfc3164_start (s : Bytes) : outcome (option (nat * nat)) :=
  match scan_pri s with
  | None => Ret None
  | Some g =>
      let i := S g in
      if bool_decide (length s <= i + 3)%nat then Ret None else
      let! month := str_slice s i (i + 3) in
      if negb (is_valid_month month) then Ret None else
      Ret (pair g <$> after_month s (i + 3))
  end.

Definition parse_rfc3164 (input : Bytes) : outcome (option Normalized) :=
  let! r := rfc3164_start input in
  Ret ((fun ij => mkNormalized (Some (trim_end (take ij.2 input))) (drop ij.2 input) (meta_of input ij.1)) <$> r).
Definition parse_rfc3164_slice (input : Bytes) : outcome (option NormalizedSlice) :=
  let! r := rfc3164_start input in
  Ret ((fun ij => mkSlice ij.2 (length input) (meta_of input ij.1)) <$> r).

Definition normalize_slice (line : Bytes) : outcome NormalizedSlice :=
  match parse_rfc5424_slice line with
  | Some ns => Ret ns
  | None =>
      let! r := parse_rfc3164_slice line in
      Ret (match r with Some ns => ns | None => mkSlice 0 (length line) no_meta end)
  end.
Definition normalize (line : Bytes) : outcome Normalized :=
  match parse_rfc5424 line with
  | Some n => Ret n
  | None =>
      let! r := parse_rfc3164 line in
      Ret (match r with Some n => n | None => mkNormalized None line no_meta end)
  end.

(** ** The hook of [udp_source.rs] *)

(** The strict scan of five tokens. *)
Fixpoint skip_strict_tokens (n : nat) (s : Bytes) (i : nat) : option nat :=
  match n with
  | O => Some i
  | S n =>
      if bool_decide (i < length s)%nat then
        let tok_start := i in
        let i := skip_token s i in
        if bool_decide (i = tok_start) || bool_decide (length s <= i)%nat then None else skip_strict_tokens n s (S i)
      else None
  end.

Definition fast_pri (s : Bytes) (i : nat) : option Z := (fun p => Z.land p 255) <$> parse_u16 (pri_str s i).

Definition try_fast_rfc5424 (s : Bytes) : option (nat * option Z) :=
  match scan_pri s with
  | None => None
  | Some i =>
      if bool_decide (i = 1%nat) then None else
      let pri := fast_pri s i in
      let i := S i in
      if negb (digit_at s i) then None else
      let i := skip_digits s i in
      if negb (byte_is s i SP) then None else
      match skip_strict_tokens 5 s (S i) with
      | None => None
      | Some i => match skip_data s i with Some i => Some (i, pri) | None => None end
      end
  end.

Definition try_fast_rfc3164 (s : Bytes) : outcome (option (nat * option Z)) :=
  match scan_pri s with
  | None => Ret None
  | Some g =>
      if bool_decide (g = 1%nat) then Ret None else
      let i := S g in
      if bool_decide (length s < i + 3)%nat then Ret None else
      let! month := str_slice s i (i + 3) in
      if negb (is_valid_month month) then Ret None else
      Ret ((fun j => (j, fast_pri s g)) <$> after_month s (i + 3))
  end.

Inductive RawData := RString (s : Bytes) | RBytes (b : Bytes) | RArc (b : Bytes).
Definition raw_bytes (r : RawData) : Bytes := match r with RString b | RBytes b | RArc b => b end.

(** The text of a payload, if it is one. *)
Definition text_of (r : RawData) : option Bytes :=
  match r with RString s => Some s | RBytes b | RArc b => if utf8_valid b then Some b else None end.

Definition slice (b : Bytes) (start stop : nat) : Bytes := take (stop - start) (drop start b).
Arguments slice : simpl never.

Definition slice_payload (payload : RawData) (start stop : nat) : option RawData :=
  if bool_decide (stop < start)%nat then None else
  let cut b := slice b (start `min` length b) (stop `min` length b) in
  Some (match payload with RBytes b => RBytes (cut b) | RString st => RString (cut st) | RArc b => RBytes (cut b) end).

Section Hook.
Context {T : Type} (set : T -> string -> string -> T).

Record Event := mkSyslogEvent { payload : RawData; tags : T }.

Definition attach_meta (t : T) (m : SyslogMeta) : T :=
  let t := match pri m with Some p => set t "syslog.pri" (pretty (Z.to_N p)) | None => t end in
  let t := match facility m with Some f => set t "syslog.facility" f | None => t end in
  match severity m with Some s => set t "syslog.severity" s | None => t end.

(** The normalization that follows when no fast path was taken. *)
Definition udp_slow (strip attach : bool) (f : Event) (s : Bytes) : outcome Event :=
  let! ns := normalize_slice s in
  let t := if attach then attach_meta (tags f) (meta ns) else tags f in
  let p := if strip then
             default (payload f) (slice_payload (payload f) (msg_start ns `min` length s) (msg_end ns `min` length s))
           else payload f in
  Ret (mkSyslogEvent p t).

Definition udp_hook (strip attach fast : bool) (f : Event) : outcome Event :=
  match text_of (payload f) with
  | None => Ret f
  | Some s =>
      if fast && strip && negb attach then
        match try_fast_rfc5424 s ≫= (fun r => slice_payload (payload f) r.1 (length s)) with
        | Some p => Ret (mkSyslogEvent p (tags f))
        | None =>
            let! r := try_fast_rfc3164 s in
            match r ≫= (fun r => slice_payload (payload f) r.1 (length s)) with
            | Some p => Ret (mkSyslogEvent p (tags f))
            | None => udp_slow strip attach f s
            end
        end
      else udp_slow strip attach f s
  end.

Definition build_preproc_hook (strip attach fast : bool) : option (Event -> outcome Event) :=
  if negb strip && negb attach then None else Some (udp_hook strip attach fast).

(** ** The hook of [tcp_source.rs] *)

(** A payload from an index on, if it is that long. *)
Definition cut_payload (p : RawData) (start : nat) : RawData :=
  if bool_decide (start <= length (raw_bytes p))%nat then
    match p with RBytes b => RBytes (drop start b) | RString s => RString (drop start s) | RArc b => RBytes (drop start b) end
  else p.

(** The rules of the fast path, in their order: where the message starts. *)
Definition tcp_fast_5424 (s : Bytes) : option nat :=
  match find [">"%char] s with
  | None => None
  | Some gt =>
      let j := S gt in
      let k := skip_digits s j in
      if bool_decide (j < k)%nat && byte_is s k SP then
        match skip_tokens 5 s (S k) with Some j => skip_data s j | None => None end
      else None
  end.
Definition tcp_fast_colon (s : Bytes) : option nat :=
  match find [":"%char; SP] s, find [">"%char] s with
  | Some col, Some gt => if bool_decide (gt < col)%nat then Some (col + 2)%nat else None
  | _, _ => None
  end.
Definition tcp_fast_wpgen (s : Bytes) : option nat := (fun pos => (pos + 8)%nat) <$> find (list_ascii_of_string " wpgen: ") s.

Definition tcp_slow (strip attach : bool) (f : Event) (s : Bytes) : outcome Event :=
  let! ns := normalize_slice s in
  let t := if attach then attach_meta (tags f) (meta ns) else tags f in
  let cut b := slice b (msg_start ns `min` length b) (msg_end ns `min` length b) in
  let ok b := bool_decide (msg_start ns `min` length b <= msg_end ns `min` length b)%nat in
  if strip then
    match payload f with
    | RBytes b => Ret (mkSyslogEvent (if ok b then RBytes (cut b) else payload f) t)
    | RString st => if ok st then Ret (mkSyslogEvent (RString (cut st)) t) else Panic
    | RArc b => Ret (mkSyslogEvent (if ok b then RBytes (cut b) else payload f) t)
    end
  else Ret (mkSyslogEvent (payload f) t).

Definition tcp_hook (strip attach fast : bool) (f : Event) : outcome Event :=
  match text_of (payload f) with
  | None => Ret f
  | Some s =>
      if fast && strip && negb attach then
        match tcp_fast_5424 s with
        | Some start => Ret (mkSyslogEvent (cut_payload (payload f) start) (tags f))
        | None =>
            match tcp_fast_colon s with
            | Some start => Ret (mkSyslogEvent (cut_payload (payload f) start) (tags f))
            | None =>
                match tcp_fast_wpgen s with
                | Some start => Ret (mkSyslogEvent (cut_payload (payload f) start) (tags f))
                | None => tcp_slow strip attach f s
                end
            end
        end
      else tcp_slow strip attach f s
  end.
End Hook.
Arguments mkSyslogEvent {T}.

(** * Laws *)

(** ** Scans stay in the text *)

(** The early returns of a scan, one after the other. *)
Ltac returns := repeat match goal with |- (if ?b then None else _) = _ -> _ => destruct b eqn:?; [done|] end.

Lemma byte_is_lt s i c : byte_is s i c = true -> (i < length s)%nat.
Proof. unfold byte_is. intros H. apply bool_decide_eq_true in H. by eapply lookup_lt_Some. Qed.

Lemma begins_length p s : begins p s = true -> (length p <= length s)%nat.
Proof.
  revert s. induction p as [|c p IH]; intros [|d s]; cbn; try done; try lia.
  intros H. apply andb_prop in H as [_ H]. apply IH in H. lia.
Qed.

Lemma find_bound p s n : find p s = Some n -> (n + length p <= length s)%nat.
Proof.
  revert n. induction s as [|c s IH]; intros n; cbn [find].
  - destruct (begins p []) eqn:E; [|done]. intros [= <-]. by apply begins_length in E.
  - destruct (begins p (c :: s)) eqn:E; [intros [= <-]; by apply begins_length in E|].
    destruct (find p s) as [k|]; [|done]. intros [= <-]. specialize (IH k eq_refl). cbn. lia.
Qed.

Lemma skip_data_bound s j k : skip_data s j = Some k -> (k <= length s)%nat.
Proof.
  unfold skip_data. destruct (byte_is s j "-"%char) eqn:Ed.
  - apply byte_is_lt in Ed. intros [= <-]. destruct (byte_is s (S j) SP) eqn:Es; [apply byte_is_lt in Es|]; lia.
  - destruct (byte_is s j "["%char) eqn:Eb; [|done]. apply byte_is_lt in Eb.
    destruct (find _ _) as [c|] eqn:Ef; [|done]. apply find_bound in Ef. rewrite length_drop in Ef. cbn in Ef.
    intros [= <-]. destruct (byte_is s (j + 1 + c + 1) SP) eqn:Es; [apply byte_is_lt in Es|]; lia.
Qed.

Lemma after_month_bound s i k : after_month s i = Some k -> (i < length s)%nat /\ (0 < k <= length s)%nat.
Proof.
  unfold after_month. destruct (byte_is s i SP) eqn:Es; [|done]. apply byte_is_lt in Es. cbn [negb]. cbv zeta.
  returns. destruct (find _ _) as [c|] eqn:Ef; [|done]. intros [= <-].
  apply find_bound in Ef. rewrite length_drop in Ef. cbn in Ef. lia.
Qed.

Lemma rfc5424_bound s i j : rfc5424_start s = Some (i, j) -> (j <= length s)%nat.
Proof.
  unfold rfc5424_start. destruct (scan_pri s) as [g|]; [|done]. cbv zeta. returns.
  destruct (skip_tokens _ _ _) as [k|]; [|done]. destruct (skip_data s k) as [m|] eqn:E; [|done].
  intros [= <- <-]. by eapply skip_data_bound.
Qed.

Lemma rfc5424_positive s i j : rfc5424_start s = Some (i, j) -> (0 < j)%nat.
Proof.
  unfold rfc5424_start. destruct (scan_pri s) as [g|]; [|done]. cbv zeta. returns.
  destruct (skip_tokens _ _ _) as [k|]; [|done]. unfold skip_data.
  repeat (case_match; try done; simplify_eq); intros [= <- <-]; lia.
Qed.

Lemma rfc3164_some s i j : rfc3164_start s = Ret (Some (i, j)) ->
  scan_pri s = Some i /\ after_month s (S i + 3) = Some j /\
  str_slice s (S i) (S i + 3) = Ret (take 3 (drop (S i) s)) /\ is_valid_month (take 3 (drop (S i) s)) = true.
Proof.
  unfold rfc3164_start. destruct (scan_pri s) as [g|]; [|done]. cbv zeta. case_bool_decide; [done|].
  destruct (str_slice s (S g) (S g + 3)) as [m|] eqn:Em; [|done]. cbn [obind].
  destruct (is_valid_month m) eqn:Ev; [|done]. cbn [negb]. destruct (after_month s (S g + 3)) as [k|] eqn:Ea; [|done].
  intros [= <- <-]. assert (m = take 3 (drop (S g) s)) as ->; [|done].
  unfold str_slice in Em. case_match; [|done]. injection Em as <-. f_equal. lia.
Qed.

Lemma slice_bound line ns : normalize_slice line = Ret ns -> (msg_start ns <= length line)%nat /\ msg_end ns = length line.
Proof.
  unfold normalize_slice, parse_rfc5424_slice, parse_rfc3164_slice. destruct (rfc5424_start line) as [[i j]|] eqn:E.
  - intros [= <-]. cbn. split; [by eapply rfc5424_bound|done].
  - destruct (rfc3164_start line) as [[[i j]|]|] eqn:E3; cbn; [| |done]; intros [= <-]; cbn; split; try lia.
    apply rfc3164_some in E3 as (_ & Ha & _). apply after_month_bound in Ha. lia.
Qed.

(** The slices and the copies are the same messages. *)
Lemma normalize_is_slice line : normalize line
  = match normalize_slice line with
    | Ret ns => Ret (mkNormalized (if bool_decide (msg_start ns = 0%nat) then None else Some (trim_end (take (msg_start ns) line)))
                                  (slice line (msg_start ns) (msg_end ns)) (meta ns))
    | Panic => Panic
    end.
Proof.
  assert (Hs : forall j : nat, (j <= length line)%nat -> slice line j (length line) = drop j line).
  { intros j Hj. unfold slice. by rewrite take_ge by (rewrite length_drop; lia). }
  unfold normalize, normalize_slice, parse_rfc5424, parse_rfc5424_slice, parse_rfc3164, parse_rfc3164_slice.
  destruct (rfc5424_start line) as [[i j]|] eqn:E.
  - cbn. rewrite Hs by (by eapply rfc5424_bound). rewrite bool_decide_false; [done|].
    apply rfc5424_positive in E. lia.
  - destruct (rfc3164_start line) as [[[i j]|]|] eqn:E3; cbn; [| |done].
    + apply rfc3164_some in E3 as (_ & Ha & _). apply after_month_bound in Ha as Hb.
      rewrite Hs by lia. rewrite bool_decide_false; [done|]. lia.
    + rewrite Hs by lia. done.
Qed.

(** ** The fast paths *)

Lemma strict_tokens n s i j : skip_strict_tokens n s i = Some j -> skip_tokens n s i = Some j.
Proof.
  revert i. induction n as [|n IH]; intros i; cbn; [done|]. case_bool_decide; [|done].
  destruct (bool_decide (skip_token s i = i)); [done|]. cbn [orb]. case_bool_decide; [done|]. apply IH.
Qed.

Lemma fast_5424_slow s j p : try_fast_rfc5424 s = Some (j, p) -> exists i, rfc5424_start s = Some (i, j).
Proof.
  unfold try_fast_rfc5424, rfc5424_start. destruct (scan_pri s) as [i|]; [|done]. cbv zeta. case_bool_decide; [done|].
  returns. destruct (skip_strict_tokens _ _ _) as [k|] eqn:E; [|done]. rewrite (strict_tokens _ _ _ _ E).
  destruct (skip_data s k) as [m|]; [|done]. intros [= <- <-]. by eexists.
Qed.

(** A month is no version: the two forms exclude each other. *)
Lemma month_no_digit s i : is_valid_month (take 3 (drop i s)) = true -> digit_at s i = false.
Proof.
  unfold is_valid_month, digit_at. intros H. apply bool_decide_eq_true in H.
  destruct (s !! i) as [c|] eqn:E; [|done]. rewrite (drop_S _ _ _ E) in H. cbn [take] in H.
  assert (Hm : Forall (fun m => match m with c :: _ => is_ascii_digit c = false | [] => True end) months) by (repeat constructor).
  rewrite Forall_forall in Hm. by apply Hm in H.
Qed.

Lemma month_no_5424 s g : scan_pri s = Some g -> is_valid_month (take 3 (drop (S g) s)) = true -> rfc5424_start s = None.
Proof. intros Hs Hm. unfold rfc5424_start. rewrite Hs. cbv zeta. by rewrite (month_no_digit _ _ Hm). Qed.

Lemma fast_3164_slow s j p : try_fast_rfc3164 s = Ret (Some (j, p)) ->
  rfc5424_start s = None /\ exists g, rfc3164_start s = Ret (Some (g, j)).
Proof.
  unfold try_fast_rfc3164, rfc3164_start. destruct (scan_pri s) as [g|] eqn:Es; [|done]. cbv zeta.
  case_bool_decide; [done|]. case_bool_decide as Hl; [done|].
  destruct (str_slice s (S g) (S g + 3)) as [m|] eqn:Em; [|done]. cbn [obind].
  destruct (is_valid_month m) eqn:Ev; [|done]. cbn [negb].
  destruct (after_month s (S g + 3)) as [k|] eqn:Ea; [|done]. intros [= <- <-].
  assert (m = take 3 (drop (S g) s)) as ->.
  { unfold str_slice in Em. case_match; [|done]. injection Em as <-. f_equal. lia. }
  split; [by eapply month_no_5424|]. apply after_month_bound in Ea as [Hb _].
  rewrite bool_decide_false by lia. by eexists.
Qed.

Section HookLaws.
Context {T : Type} (set : T -> string -> string -> T).

Lemma slice_payload_some p start stop : (start <= stop)%nat -> exists q, slice_payload p start stop = Some q.
Proof. intros H. unfold slice_payload. rewrite bool_decide_false by lia. by eexists. Qed.

Lemma text_length p s : text_of p = Some s -> s = raw_bytes p.
Proof. destruct p; cbn; [by intros [= <-]| |]; (case_match; [by intros [= <-]|done]). Qed.

(** What the slow path makes of a recognised header. *)
Lemma slow_strip f s i j m : text_of (payload f) = Some s -> normalize_slice s = Ret (mkSlice j (length s) m) -> i = j ->
  slice_payload (payload f) i (length s) <> None ->
  exists q, slice_payload (payload f) i (length s) = Some q /\ udp_slow set true false f s = Ret (mkSyslogEvent q (tags f)).
Proof.
  intros Ht Hn -> Hq. destruct (slice_payload (payload f) j (length s)) as [q|] eqn:Eq; [|done]. exists q. split; [done|].
  unfold udp_slow. rewrite Hn. cbn [obind msg_start msg_end]. pose proof (slice_bound _ _ Hn) as [Hb _]. cbn in Hb.
  rewrite Nat.min_l by done. rewrite Nat.min_id, Eq. done.
Qed.
End HookLaws.

(** C20: The hook of UDP sources makes the same event with and without its fast
    path, unless the fast path panics. *)
Theorem fast_strip_unobservable {T : Type} (set : T -> string -> string -> T) (f : Event) :
  udp_hook set true false true f = Panic \/ udp_hook set true false true f = udp_hook set true false false f.
Proof.
  unfold udp_hook. destruct (text_of (payload f)) as [s|] eqn:Et; [|by right]. cbn [andb negb].
  assert (Hn : forall j, (j <= length s)%nat -> slice_payload (payload f) j (length s) <> None).
  { intros j Hj. destruct (slice_payload_some (payload f) j (length s) Hj) as [q ->]. done. }
  destruct (try_fast_rfc5424 s) as [[j p]|] eqn:E5.
  { apply fast_5424_slow in E5 as [i E5]. apply rfc5424_bound in E5 as Hj. right. cbn [mbind option_bind fst].
    destruct (slow_strip set f s j j (meta_of s i) Et) as (q & -> & ->); [|done|by apply Hn|done].
    unfold normalize_slice, parse_rfc5424_slice. by rewrite E5. }
  cbn [mbind option_bind]. destruct (try_fast_rfc3164 s) as [[[j p]|]|] eqn:E3; cbn [obind mbind option_bind fst].
  - apply fast_3164_slow in E3 as [E5' [g E3]]. right.
    assert (Hns : normalize_slice s = Ret (mkSlice j (length s) (meta_of s g))).
    { unfold normalize_slice, parse_rfc5424_slice, parse_rfc3164_slice. by rewrite E5', E3. }
    destruct (slow_strip set f s j j _ Et Hns eq_refl) as (q & -> & ->); [|done].
    apply Hn. by apply slice_bound in Hns as [Hj _].
  - by right.
  - by left.
Qed.

(** ** What a hook may change *)

Lemma slice_rest b j : slice b (j `min` length b) (length b) = drop (j `min` length b) b.
Proof. unfold slice. by rewrite take_ge by (rewrite length_drop; lia). Qed.

Lemma slice_payload_rest p start q : slice_payload p start (length (raw_bytes p)) = Some q ->
  raw_bytes q = drop (start `min` length (raw_bytes p)) (raw_bytes p).
Proof.
  unfold slice_payload. case_bool_decide; [done|]. intros [= <-].
  destruct p; cbn [raw_bytes]; by rewrite Nat.min_id, slice_rest.
Qed.

Lemma udp_slow_suffix {T} (set : T -> string -> string -> T) strip attach f f' :
  udp_slow set strip attach f (raw_bytes (payload f)) = Ret f' ->
  (strip = false -> payload f' = payload f) /\ (attach = false -> tags f' = tags f) /\
  exists k, raw_bytes (payload f') = drop k (raw_bytes (payload f)).
Proof.
  unfold udp_slow. destruct (normalize_slice _) as [ns|] eqn:En; [|done]. cbn [obind]. intros [= <-]. cbn [payload tags].
  split; [by intros ->|]. split; [by intros ->|]. destruct strip; [|by exists 0%nat].
  apply slice_bound in En as [Hs He]. rewrite He, Nat.min_id, Nat.min_l by done.
  destruct (slice_payload_some (payload f) (msg_start ns) _ Hs) as [q Eq]. rewrite Eq. cbn [default].
  eexists. by apply slice_payload_rest.
Qed.

(** A hook only cuts bytes off the front of a payload: a mode that does not
    strip leaves it alone, one that does not attach leaves the tags alone. *)
Theorem hook_keeps_suffix {T : Type} (set : T -> string -> string -> T) (strip attach fast : bool) (f f' : Event)
    (Hh : udp_hook set strip attach fast f = Ret f') :
  (strip = false -> payload f' = payload f) /\ (attach = false -> tags f' = tags f) /\
  exists k, raw_bytes (payload f') = drop k (raw_bytes (payload f)).
Proof.
  unfold udp_hook in Hh. destruct (text_of (payload f)) as [s|] eqn:Et.
  2:{ injection Hh as <-. split; [done|]. split; [done|]. by exists 0%nat. }
  apply text_length in Et as ->. destruct (fast && strip && negb attach) eqn:Ef; [|by apply udp_slow_suffix in Hh].
  apply andb_prop in Ef as [Ef Ha]. apply andb_prop in Ef as [_ ->]. apply negb_true_iff in Ha as ->.
  assert (Hq : forall q r, slice_payload (payload f) r (length (raw_bytes (payload f))) = Some q ->
    (true = false -> payload (mkSyslogEvent q (tags f)) = payload f) /\ (false = false -> tags (mkSyslogEvent q (tags f)) = tags f) /\
    exists k, raw_bytes (payload (mkSyslogEvent q (tags f))) = drop k (raw_bytes (payload f))).
  { intros q r Eq. split; [done|]. split; [done|]. eexists. by apply slice_payload_rest. }
  destruct (try_fast_rfc5424 _ ≫= _) as [q|] eqn:E5.
  { injection Hh as <-. apply bind_Some in E5 as (r & _ & E5). by eapply Hq. }
  destruct (try_fast_rfc3164 _) as [r|]; [|done]. cbn [obind] in Hh.
  destruct (r ≫= _) as [q|] eqn:E3; [|by apply udp_slow_suffix in Hh].
  injection Hh as <-. apply bind_Some in E3 as (r' & _ & E3). by eapply Hq.
Qed.

(** Without the fast path, the hooks of both sources are the same. *)
Lemma slow_hooks_agree {T : Type} (set : T -> string -> string -> T) (strip attach : bool) (f : Event) :
  tcp_hook set strip attach false f = udp_hook set strip attach false f.
Proof.
  unfold tcp_hook, udp_hook. destruct (text_of (payload f)) as [s|] eqn:Et; [|done]. apply text_length in Et as ->. cbn [andb].
  unfold tcp_slow, udp_slow. destruct (normalize_slice _) as [ns|] eqn:En; [|done]. cbn [obind]. cbv zeta.
  destruct strip; [|done]. apply slice_bound in En as [Hs He]. rewrite He, Nat.min_id, Nat.min_l by done.
  destruct (slice_payload_some (payload f) (msg_start ns) _ Hs) as [q Eq]. rewrite Eq. cbn [default].
  unfold slice_payload in Eq. rewrite bool_decide_false in Eq by lia. injection Eq as <-.
  destruct (payload f); cbn [raw_bytes] in *; rewrite Nat.min_id; rewrite ?bool_decide_true by lia; done.
Qed.

Definition demo_set (l : list (string * string)) (k v : string) : list (string * string) := l ++ [(k, v)].
Definition demo_event (s : string) : Event := mkSyslogEvent (RString (list_ascii_of_string s)) ([] : list (string * string)).
Definition shown (o : outcome (@Event (list (string * string)))) : option (string * list (string * string)) :=
  match o with Ret f => Some (string_of_list_ascii (raw_bytes (payload f)), tags f) | Panic => None end.

Definition demo_tag_mode : Event :=
  match udp_hook demo_set true true false (demo_event "<34>Oct 11 22:14:15 host su: failed") with Ret f => f | Panic => demo_event "" end.

Lemma hook_keeps_suffix_witness :
  udp_hook demo_set true true false (demo_event "<34>Oct 11 22:14:15 host su: failed") = Ret demo_tag_mode /\
  (true = false -> payload demo_tag_mode = payload (demo_event "<34>Oct 11 22:14:15 host su: failed")) /\
  (true = false -> tags demo_tag_mode = tags (demo_event "<34>Oct 11 22:14:15 host su: failed")) /\
  exists k, raw_bytes (payload demo_tag_mode) = drop k (raw_bytes (payload (demo_event "<34>Oct 11 22:14:15 host su: failed"))).
Proof.
  assert (Hh : udp_hook demo_set true true false (demo_event "<34>Oct 11 22:14:15 host su: failed") = Ret demo_tag_mode) by reflexivity.
  split; [exact Hh|]. apply (hook_keeps_suffix demo_set true true false _ _ Hh).
Defined.

Example tag_mode_shown : shown (Ret demo_tag_mode)
  = Some ("failed", [("syslog.pri", "34"); ("syslog.facility", "auth"); ("syslog.severity", "crit")]).
Proof. vm_compute. reflexivity. Qed.

(** ** Headers as they are written *)

Definition no_space (t : Bytes) : Prop := SP ∉ t.
Definition all_digits (l : Bytes) : Prop := Forall (fun c => is_ascii_digit c = true) l.

Lemma count_while_app p l c r : Forall (fun c => p c = true) l -> p c = false -> count_while p (l ++ c :: r) = length l.
Proof. intros Hl Hc. induction Hl as [|x l Hx Hl IH]; cbn; [by rewrite Hc|]. by rewrite Hx, IH. Qed.

Lemma skip_while_app p a l c r : Forall (fun c => p c = true) l -> p c = false ->
  skip_while p (a ++ l ++ c :: r) (length a) = length (a ++ l).
Proof. intros Hl Hc. unfold skip_while. rewrite drop_app_length, (count_while_app p l c r Hl Hc), length_app. done. Qed.

Lemma byte_is_app a c r d : byte_is (a ++ c :: r) (length a) d = bool_decide (c = d).
Proof.
  unfold byte_is. rewrite (list_lookup_middle a r c (length a)) by done. apply bool_decide_ext. split; congruence.
Qed.

Lemma no_space_tokens t : no_space t -> Forall (fun c => negb (bool_decide (c = SP)) = true) t.
Proof.
  intros H. apply Forall_forall. intros c Hc. rewrite bool_decide_false; [done|]. by intros ->.
Qed.

(** Tokens, each with the space behind it. *)
Definition spaced (ts : list Bytes) : Bytes := concat ((fun t => t ++ [SP]) <$> ts).

Lemma skip_tokens_spaced a ts r : Forall no_space ts ->
  skip_tokens (length ts) (a ++ spaced ts ++ r) (length a) = Some (length (a ++ spaced ts)).
Proof.
  intros H. revert a. induction H as [|t ts Ht Hts IH]; intros a; cbn [length skip_tokens].
  - by rewrite app_nil_r.
  - unfold spaced. cbn [fmap list_fmap concat]. fold (spaced ts).
    replace (a ++ ((t ++ [SP]) ++ spaced ts) ++ r) with (a ++ t ++ SP :: spaced ts ++ r) by (by rewrite <- !app_assoc).
    rewrite bool_decide_true by (rewrite !length_app; cbn; lia). unfold skip_token.
    rewrite (skip_while_app _ a t SP) by (done || by apply no_space_tokens).
    rewrite bool_decide_false by (rewrite !length_app; cbn; lia).
    specialize (IH (a ++ t ++ [SP])).
    replace (a ++ t ++ SP :: spaced ts ++ r) with ((a ++ t ++ [SP]) ++ spaced ts ++ r) by (by rewrite <- !app_assoc).
    replace (S (length (a ++ t))) with (length (a ++ t ++ [SP])) by (rewrite !length_app; cbn; lia).
    rewrite IH. by rewrite <- !app_assoc.
Qed.

(** Equal up to the nesting of [++] and [::]. *)
Ltac app_eq := repeat progress (cbn [app]; rewrite <- ?app_assoc); reflexivity.

(** Structured data: a dash, or one element in brackets. *)
Definition structured (sd : Bytes) : Prop := sd = ["-"%char] \/ exists inner, sd = "["%char :: inner ++ ["]"%char] /\ "]"%char ∉ inner.

Definition rfc5424_head (p v : Bytes) (ts : list Bytes) : Bytes := "<"%char :: p ++ ">"%char :: v ++ SP :: spaced ts.
Definition rfc5424_line (p v : Bytes) (ts : list Bytes) (sd msg : Bytes) : Bytes := rfc5424_head p v ts ++ sd ++ SP :: msg.

Lemma find_first c l r : c ∉ l -> find [c] (l ++ c :: r) = Some (length l).
Proof.
  induction l as [|d l IH]; cbn [app find begins]; intros H.
  - rewrite bool_decide_true by done. done.
  - apply not_elem_of_cons in H as [H1 H2]. rewrite bool_decide_false by done. cbn [andb]. by rewrite IH.
Qed.

Lemma skip_data_structured a sd msg : structured sd ->
  skip_data (a ++ sd ++ SP :: msg) (length a) = Some (length (a ++ sd ++ [SP])).
Proof.
  unfold skip_data. intros [-> | (inner & -> & Hi)].
  - cbn [app]. rewrite byte_is_app, bool_decide_true by done. cbv zeta.
    replace (a ++ "-"%char :: SP :: msg) with ((a ++ ["-"%char]) ++ SP :: msg) by app_eq.
    replace (S (length a)) with (length (a ++ ["-"%char])) by (rewrite length_app; cbn; lia).
    rewrite byte_is_app, bool_decide_true by done. f_equal. rewrite !length_app. cbn. lia.
  - replace (a ++ ("["%char :: inner ++ ["]"%char]) ++ SP :: msg) with (a ++ "["%char :: inner ++ "]"%char :: SP :: msg)
      by app_eq.
    rewrite !byte_is_app, bool_decide_false, bool_decide_true by done.
    replace (a ++ "["%char :: inner ++ "]"%char :: SP :: msg) with ((a ++ ["["%char]) ++ inner ++ "]"%char :: SP :: msg) by app_eq.
    replace (S (length a)) with (length (a ++ ["["%char])) by (rewrite length_app; cbn; lia).
    rewrite drop_app_length, find_first by done. cbv zeta.
    replace ((a ++ ["["%char]) ++ inner ++ "]"%char :: SP :: msg) with ((a ++ "["%char :: inner ++ ["]"%char]) ++ SP :: msg)
      by app_eq.
    replace (length a + 1 + length inner + 1)%nat with (length (a ++ "["%char :: inner ++ ["]"%char]))
      by (rewrite !length_app; cbn; rewrite length_app; cbn; lia).
    rewrite byte_is_app, bool_decide_true by done. f_equal.
    rewrite !length_app. cbn [length app]. rewrite !length_app. cbn [length]. lia.
Qed.

Lemma scan_pri_head p r : all_digits p -> scan_pri ("<"%char :: p ++ ">"%char :: r) = Some (S (length p)).
Proof.
  intros Hp. unfold scan_pri, byte_is at 1. cbn [lookup list_lookup]. rewrite bool_decide_true by done. cbv zeta.
  unfold skip_digits. change ("<"%char :: p ++ ">"%char :: r) with (["<"%char] ++ p ++ ">"%char :: r).
  change 1%nat with (length ["<"%char]). rewrite (skip_while_app _ _ p) by done.
  rewrite (app_assoc ["<"%char] p), byte_is_app, bool_decide_true by done. done.
Qed.

Lemma digits_no c p : all_digits p -> is_ascii_digit c = false -> c ∉ p.
Proof. intros Hp Hc Hin. unfold all_digits in Hp. rewrite Forall_forall in Hp. apply Hp in Hin. congruence. Qed.

Lemma meta_of_head p r f sv : all_digits p -> parse_usize (string_of_list_ascii p) = Some (8 * f + sv) ->
  0 <= f < 24 -> 0 <= sv < 8 ->
  meta_of ("<"%char :: p ++ ">"%char :: r) (S (length p))
    = mkMeta (Some (8 * f + sv)) (Some (facility_name f)) (Some (severity_name sv)).
Proof.
  intros Hd Hp Hf Hs. unfold meta_of, pri_str.
  change (drop 1 ("<"%char :: p ++ ">"%char :: r)) with (p ++ ">"%char :: r).
  replace (S (length p) - 1)%nat with (length p) by lia. rewrite take_app_length.
  unfold parse_pri_from_header. change ("<"%char :: p ++ [">"%char]) with (("<"%char :: p) ++ [">"%char]) at 1.
  rewrite find_first by (apply not_elem_of_cons; split; [done|by apply digits_no]). cbn [begins bool_decide].
  change (length ("<"%char :: p) - 1)%nat with (length p - 0)%nat. rewrite Nat.sub_0_r.
  change (drop 1 ("<"%char :: p ++ [">"%char])) with (p ++ [">"%char]). rewrite take_app_length.
  unfold parse_u16. rewrite Hp. destruct (Z.leb_spec (8 * f + sv) 65535); [|lia].
  change 255 with (Z.ones 8). rewrite Z.land_ones, Z.mod_small by lia.
  replace ((8 * f + sv) / 8) with f by (rewrite Z.mul_comm, Z.div_add_l, Z.div_small by lia; lia).
  rewrite Z.mod_small by lia. replace ((8 * f + sv) mod 8) with sv; [done|].
  rewrite Z.add_comm, Z.mul_comm, Z_mod_plus_full, Z.mod_small by lia. done.
Qed.

Lemma rfc5424_start_line p v ts sd msg : all_digits p -> all_digits v -> v <> [] -> length ts = 5%nat -> Forall no_space ts ->
  structured sd -> rfc5424_start (rfc5424_line p v ts sd msg) = Some (S (length p), length (rfc5424_head p v ts ++ sd ++ [SP])).
Proof.
  intros Hp Hv Hvn Hl Ht Hsd. unfold rfc5424_start.
  assert (Hline : rfc5424_line p v ts sd msg = "<"%char :: p ++ ">"%char :: v ++ SP :: spaced ts ++ sd ++ SP :: msg).
  { unfold rfc5424_line, rfc5424_head. app_eq. }
  rewrite Hline, scan_pri_head by done. cbv zeta.
  set (a := "<"%char :: p ++ [">"%char]).
  replace ("<"%char :: p ++ ">"%char :: v ++ SP :: spaced ts ++ sd ++ SP :: msg) with (a ++ v ++ SP :: spaced ts ++ sd ++ SP :: msg)
    by (unfold a; app_eq).
  replace (S (S (length p))) with (length a) by (unfold a; cbn; rewrite length_app; cbn; lia).
  assert (Hd : digit_at (a ++ v ++ SP :: spaced ts ++ sd ++ SP :: msg) (length a) = true).
  { destruct Hv as [|c v Hc Hv]; [done|]. unfold digit_at. cbn [app]. by rewrite (list_lookup_middle a _ c (length a)). }
  rewrite Hd. cbn [negb]. unfold skip_digits. rewrite (skip_while_app _ a v SP) by done.
  rewrite (app_assoc a v), byte_is_app, bool_decide_true by done. cbn [negb].
  replace (S (length (a ++ v))) with (length (a ++ v ++ [SP])) by (rewrite !length_app; cbn; lia).
  replace ((a ++ v) ++ SP :: spaced ts ++ sd ++ SP :: msg) with ((a ++ v ++ [SP]) ++ spaced ts ++ sd ++ SP :: msg) by app_eq.
  rewrite <- Hl, skip_tokens_spaced by done.
  assert (Hh : (a ++ v ++ [SP]) ++ spaced ts = rfc5424_head p v ts).
  { unfold a, rfc5424_head. app_eq. }
  rewrite app_assoc, Hh, skip_data_structured by done. done.
Qed.

(** A line written as RFC 5424 asks, with a priority of that range, comes back
    as its message and the names of its facility and severity. *)
Theorem rfc5424_roundtrip (p v : Bytes) (ts : list Bytes) (sd msg : Bytes) (f sv : Z)
    (Hp : all_digits p) (Hn : parse_usize (string_of_list_ascii p) = Some (8 * f + sv)) (Hf : 0 <= f < 24) (Hs : 0 <= sv < 8)
    (Hv : all_digits v /\ v <> []) (Ht : length ts = 5%nat /\ Forall no_space ts) (Hsd : structured sd) :
  exists n, normalize (rfc5424_line p v ts sd msg) = Ret n /\ message n = msg /\
    n_meta n = mkMeta (Some (8 * f + sv)) (Some (facility_name f)) (Some (severity_name sv)).
Proof.
  destruct Hv as [Hv Hvn], Ht as [Hl Ht]. unfold normalize, parse_rfc5424.
  rewrite (rfc5424_start_line p v ts sd msg) by done. eexists. split; [done|]. split; cbn [message n_meta].
  - unfold rfc5424_line.
    replace (rfc5424_head p v ts ++ sd ++ SP :: msg) with ((rfc5424_head p v ts ++ sd ++ [SP]) ++ msg) by app_eq.
    apply drop_app_length.
  - unfold rfc5424_line, rfc5424_head. cbn [app]. rewrite <- app_assoc. by apply meta_of_head.
Qed.

Definition demo_tokens : list Bytes := list_ascii_of_string <$> ["2024-10-05T12:34:56Z"; "host"; "app"; "123"; "-"].

Lemma rfc5424_roundtrip_witness :
  exists n, normalize (rfc5424_line (list_ascii_of_string "14") ["1"%char] demo_tokens (list_ascii_of_string "[a b=c]") (list_ascii_of_string "hi [x]")) = Ret n /\
    message n = list_ascii_of_string "hi [x]" /\
    n_meta n = mkMeta (Some (8 * 1 + 6)) (Some (facility_name 1)) (Some (severity_name 6)).
Proof.
  apply (rfc5424_roundtrip (list_ascii_of_string "14") ["1"%char] demo_tokens (list_ascii_of_string "[a b=c]") (list_ascii_of_string "hi [x]") 1 6).
  - repeat constructor.
  - reflexivity.
  - lia.
  - lia.
  - split; [repeat constructor|discriminate].
  - split; [reflexivity|]. repeat constructor; intros H; vm_compute in H; repeat (apply elem_of_cons in H as [H|H]; [discriminate H|]); by apply elem_of_nil in H.
  - right. exists (list_ascii_of_string "a b=c"). split; [reflexivity|].
    intros H; vm_compute in H; repeat (apply elem_of_cons in H as [H|H]; [discriminate H|]); by apply elem_of_nil in H.
Defined.

(** ** Panics and other surprises *)

Definition is_ascii_text (s : Bytes) : Prop := Forall (fun c => code c < 128) s.

Lemma ascii_boundary s i : is_ascii_text s -> (i <= length s)%nat -> is_char_boundary s i = true.
Proof.
  intros Ha Hi. unfold is_char_boundary. destruct i as [|i]; [done|].
  destruct (s !! S i) as [c|] eqn:E.
  - eapply Forall_lookup_1 in E; [|exact Ha]. cbn beta in E. unfold continuation.
    destruct (Z.leb_spec 128 (code c)); [lia|done].
  - apply lookup_ge_None in E. by apply bool_decide_eq_true_2; lia.
Qed.

(** A text of ASCII characters is normalized, whatever it looks like. *)
Lemma ascii_never_panics line : is_ascii_text line -> exists ns, normalize_slice line = Ret ns.
Proof.
  intros Ha. unfold normalize_slice. destruct (parse_rfc5424_slice line) as [ns|]; [by exists ns|].
  unfold parse_rfc3164_slice, rfc3164_start. destruct (scan_pri line) as [g|]; [|by eexists]. cbv zeta.
  case_bool_decide as Hl; [by eexists|]. unfold str_slice.
  rewrite !ascii_boundary by (done || lia). rewrite bool_decide_true by lia. cbn [andb obind].
  destruct (is_valid_month _); cbn [negb obind]; by eexists.
Qed.

Definition wide (s t : string) (l : list nat) : Bytes := list_ascii_of_string s ++ (ascii_of_nat <$> l) ++ list_ascii_of_string t.

(** Three bytes behind the priority are taken for a month even inside a
    character: such a datagram panics the source. *)
Example month_inside_character :
  utf8_valid (wide "<1>a" " text" [226; 130; 172]%nat) = true /\
  normalize_slice (wide "<1>a" " text" [226; 130; 172]%nat) = Panic.
Proof. vm_compute. split; reflexivity. Qed.

(** The fast path panics on a line that the slow one reads. *)
Example fast_path_panics :
  utf8_valid (wide "<1>1 " "  a b c - text" [195; 169]%nat) = true /\
  udp_hook demo_set true false true (mkSyslogEvent (RBytes (wide "<1>1 " "  a b c - text" [195; 169]%nat)) []) = Panic /\
  shown (udp_hook demo_set true false false (mkSyslogEvent (RBytes (wide "<1>1 " "  a b c - text" [195; 169]%nat)) [])) = Some ("text", []).
Proof. vm_compute. repeat split; reflexivity. Qed.

(** The fast path of TCP sources strips texts that are no syslog at all. *)
Example tcp_fast_strips_plain_text :
  shown (tcp_hook demo_set true false true (demo_event "a > b: c")) = Some ("c", []) /\
  shown (tcp_hook demo_set true false false (demo_event "a > b: c")) = Some ("a > b: c", []) /\
  shown (udp_hook demo_set true false true (demo_event "a > b: c")) = Some ("a > b: c", []).
Proof. vm_compute. repeat split; reflexivity. Qed.

(** Structured data of more than one element is cut behind the first, and a
    bracket inside a value closes it. *)
Example second_element_stays :
  shown (udp_hook demo_set true false false (demo_event "<14>1 t h a p m [x][y] text")) = Some ("[y] text", []) /\
  shown (udp_hook demo_set true false false (demo_event "<14>1 t h a p m [x k=\]z] text")) = Some ("z] text", []).
Proof. vm_compute. split; reflexivity. Qed.

(** A priority out of range is reported as another one. *)
Example priority_wraps :
  shown (udp_hook demo_set false true false (demo_event "<2048>Oct  1 22:14:15 h t: x"))
  = Some ("<2048>Oct  1 22:14:15 h t: x", [("syslog.pri", "0"); ("syslog.facility", "kern"); ("syslog.severity", "emerg")]).
Proof. vm_compute. reflexivity. Qed.
